(* ===== verification/_CoqProject ===== *)
-Q . S2P
Prelude.v
Str.v
Hlc.v
Json.v
Compat.v
TsEmit.v
Cache.v
Retrieval.v
Embedders.v
Core.v
Policy.v
Context.v
Flow.v
Predicate.v
PredicateParse.v
Storage.v
Command.v
LedgerInv.v
Engine.v
Chain.v
EngineDemo.v
Prog.v
Race.v
Effects.v
EffectsRace.v
EffectsInv.v
EffectsDemo.v
Worker.v
Workers.v
Cdp.v
Sync.v
SyncFs.v
Replay.v
Ffi.v
SyncReplayDemo.v
Circuit.v
Reliability.v
Throttle.v
Eval.v
Templates.v
TemplateRender.v
Auth.v
Primitives.v
Server.v
AuthRoutes.v
AuthRace.v
AuthFlow.v
HttpAuth.v
AuthDemo.v
AutoRest.v
RestText.v
RestIsolation.v
Studio.v
StudioIsolation.v
StudioReports.v
ReadRoutes.v
OAuth.v
Blob.v
Backend.v
Broker.v
BrokerInv.v
BrokerDemo.v
AuditExport.v
ExportImport.v
AuditDemo.v
Trigger.v
MemoryStore.v
PrimitivesDemo.v
GraphQl.v
RestDemo.v
Sdk.v
SdkServer.v
StudioDemo.v
Contracts.v
RetrievalDemo.v
Oidc.v
Backup.v
Cli.v
Cloud.v
Surface.v
