(* ===== verification/Prelude.v ===== *)
(** * ActantDB: a verification library

    ActantDB is a ledger for AI agents: every command of an agent goes through one
    engine that asks a policy for a verdict, records what happened in SQL tables,
    and appends an event to a hash-chained log, the Chronicle.  Around the ledger
    sit an HTTP server with its credentials, an effect queue for workers,
    replication stamped by a hybrid logical clock, sync to blob destinations,
    replay, workflows, subscriptions, triggers, and reliability primitives.  This
    library models those parts in Rocq and proves what makes them correct.  It is
    a shallow embedding: Rust functions are Rocq functions, records are records,
    enums are inductive types, [Result] is [result], and code that reads and writes
    the database is either a computation in the state-and-error monad [M] (one
    caller) or a program of atomic SQL statements [prog] (many callers,
    interleaved).

    ** How the parts interact

    - [Engine::dispatch] (Command.v) is the entry point.  It calls the Guard
      (Policy.v) and the repository (Storage.v), which enforces the schema's keys
      and foreign keys, and hashes with the functions of Json.v.
    - The server (Server.v) holds the ledger, the credentials and the limiters.  A
      request passes the chokepoint (HttpAuth.v) and reaches the engine, the
      generated REST routes (AutoRest.v), GraphQL (GraphQl.v), the Studio routes
      (Studio.v), the reading routes (ReadRoutes.v) or the pub/sub routes
      (Surface.v, which also has the layers around them all); sign-in is AuthRoutes.v
      and OAuth.v over the credentials of Auth.v, and tokens of other issuers are
      verified by Oidc.v.
    - The command line (Cli.v) starts the server, reads the ledger, dispatches
      commands and applies repairs; the exports and backups are its subcommands.
    - Replicated rows enter through [ingest_replicated_events] (Storage.v), which
      returns the greatest remote stamp; the caller hands it to
      [HlcClock::observe] (Hlc.v).
    - The database is opened, migrated, backed up and restored by Backend.v and
      Backup.v; Backend.v also keeps the artifacts, over any blob store, and compares
      the Postgres repository with Storage.v.
    - [SyncRunner] (Sync.v) reads the events the engine and replication wrote and
      pushes them to a destination (SyncFs.v, Cloud.v); replay (Replay.v) reads them per
      session; drift scores (Primitives.v), exports and purges (AuditExport.v) and
      evaluation (Eval.v) read them too.
    - Workers (Worker.v) take work from the effect queue (Effects.v); locks and
      ingress (Reliability.v), the breaker (Circuit.v), the throttle (Throttle.v)
      and compensation plans (Primitives.v) guard what they do.
    - Context.v selects what a model call may see; MemoryStore.v keeps what it may
      remember; Flow.v sequences the steps of a workflow and Trigger.v starts one;
      Predicate.v, PredicateParse.v and Broker.v decide what a subscriber sees;
      Blob.v and Cloud.v store the artifacts.
    - A host that embeds the database (Ffi.v) dispatches to the same engine, reads
      pages by stamp and ingests a peer's rows.
    - The Rust SDK (Sdk.v) sends requests and reads answers; SdkServer.v plugs the
      handlers of HttpAuth.v and ReadRoutes.v into its exchange.
    - The contracts crate gives the types to the other languages: Compat.v checks
      that a change of schema breaks nobody, TsEmit.v writes TypeScript.

    ** Files (crates are under src/crates)

    Ground:
    - Prelude.v: [result], the monad [M], tactics and generic lemmas on lists,
      options and machine integers.  Str.v: the operations of Rust's [str] the code
      uses, on UTF-8 bytes.  Prog.v: programs of atomic statements, [exec] alone
      and [istep] interleaved.  Race.v: who wins a key that many threads want.
    - Json.v: actant-core/src/hash.rs and ids.rs.  Values, [canonicalize],
      [chain_hash], [content_derived], and what serde's derived readers do with a
      value.  Core.v: actant-core/src/model.rs, error.rs.
    - Hlc.v: actant-core/src/hlc.rs.  The clock is one 64-bit word ([pack],
      [unpack]); [local_tick] and [observe] are one compare-exchange each, and
      [clock_step] interleaves the load, the compare-exchange and the retry of any
      number of threads.

    Ledger and engine:
    - Storage.v: actant-storage/src/repo.rs over the tables of src/migrations; a
      table is a finite map from primary key to row and a statement that violates
      a constraint changes nothing.
    - Policy.v: actant-policy, [evaluate] and [suggest_constrain].
    - Command.v: actant-command/src/lib.rs, [dispatch], the ten handlers and their
      SQL helpers, call by call in the order of the code.  LedgerInv.v, Engine.v,
      Chain.v: its theorems.  EngineDemo.v: runs of it.
    - Backend.v: actant-storage/src/lib.rs (opening, migrations, artifacts),
      backend.rs, pg_repo.rs and postgres.rs.  Backup.v: actant-storage/src/backup.rs
      and the command line's backup and restore.

    Server:
    - Auth.v: actant-auth, link codes, sessions, passwords, HS256.  Server.v: the
      state, requests and responses of actant-server/src/lib.rs.  AuthRoutes.v:
      auth_routes.rs; AuthRace.v and AuthFlow.v: its theorems, interleaved and
      alone.  HttpAuth.v: [enforce_auth] and POST /v1/command.  AuthDemo.v: runs.
    - AutoRest.v: auto_rest.rs and schema_introspect.rs; RestText.v: the text of its
      statements; RestIsolation.v: workspace isolation; RestDemo.v: runs.
    - GraphQl.v: graphql_api.rs; RestDemo.v: runs.
    - Studio.v: permissions, reports, scout records, entities, relations, memories
      and conflicts of lib.rs; StudioIsolation.v and StudioReports.v: its theorems.
      ReadRoutes.v: events, approvals, sync pull, checkpoints, replays and the
      Postgres routes.  StudioDemo.v: runs of both.
    - OAuth.v: providers, the redirect and the signed state; runs in StudioDemo.v.
      Oidc.v: actant-auth/src/oidc.rs, discovery, key sets and their cache.
    - Surface.v: the tables of routes, the layers, the metrics and the listener of
      lib.rs, prom.rs, and pubsub_routes.rs.

    Queue, sync and replay:
    - Effects.v: actant-effects, as programs of statements.  EffectsRace.v: any
      interleaving.  EffectsInv.v: one after the other.  EffectsDemo.v: runs.
    - Worker.v: actant-worker-protocol; runs in PrimitivesDemo.v.  Workers.v: the
      handlers of actant-workers and the manager that hosts them.  Cdp.v: the
      driver of Chrome, actant-workers/src/browser/cdp.rs.
    - Primitives.v: actant-compensation, actant-drift and actant-tenant.
    - Sync.v: actant-sync/src/runner.rs and storage_query.rs, against the
      destination contract, a type class, once and in tail mode.  SyncFs.v: its
      instance, destination.rs and destinations/fs.rs.
    - Replay.v: actant-replay/src/lib.rs and conflict.rs.
      SyncReplayDemo.v: runs of both.
    - Ffi.v: actant-ffi, the handle a phone embeds; runs in SyncReplayDemo.v.
    - Circuit.v, Reliability.v, Throttle.v: actant-reliability.

    Around the ledger:
    - Context.v: actant-context, [build].  Flow.v: actant-flow,
      [topological_order] and the [Runner].  Eval.v: actant-eval.
    - Predicate.v: actant-subscribe/src/predicate.rs and lib.rs.  PredicateParse.v:
      actant-cli/src/predicate_parse.rs.  Broker.v: actant-subscribe/src/broker.rs;
      BrokerInv.v: what a subscription delivers; BrokerDemo.v: runs.
    - Trigger.v: actant-trigger, and the persistence of finished runs of
      actant-flow/src/lib.rs.  MemoryStore.v: actant-memory.  PrimitivesDemo.v:
      runs of these and of Primitives.v.  AuditExport.v: actant-audit-export.
      ExportImport.v: actant-cli/src/cmd/export_import.rs.  AuditDemo.v: runs of both.
    - Cli.v: actant-cli, main.rs, telemetry.rs and the other commands of cmd, and
      the start of actant-server/src/bin/server.rs.
    - Sdk.v: sdks/rust/src, the client, its errors, its readers and its streams.
      SdkServer.v: the client against the server's handlers; runs in StudioDemo.v.
    - Templates.v and TemplateRender.v: actant-templates.
    - Blob.v: actant-objectstore/src/lib.rs, mem.rs, fs.rs and layered.rs; the
      trait [BlobStore] is a record of operations with its laws.  Cloud.v: s3.rs and
      ipfs.rs, and the sync destinations s3.rs, gcs.rs, azure.rs and ipfs.rs.
    - Compat.v and TsEmit.v: actant-contracts/src/bin/cli.rs.
      Cache.v: actant-contracts/src/cache.rs.  Retrieval.v: index.rs.  Contracts.v:
      lib.rs, models.rs and policy.rs.  Embedders.v: actant-embedders.
      RetrievalDemo.v: runs of these.

    ** What the theorems show

    - The engine (Engine.v, LedgerInv.v): a tool call becomes approved only by an
      approval or by a policy whose every gate is clear; [dispatch] only extends
      the ledger and keeps referential integrity on every path, errors included;
      a retried idempotency key answers the first command's id and does nothing
      else; a successful command leaves its row and its event.
    - The Chronicle (Chain.v): [dispatch] keeps every session's hash chain, and
      the chain is tamper evident up to an explicit SHA-256 collision.
    - Credentials (AuthRace.v, AuthFlow.v, Auth.v): under any interleaving a
      workspace is linked by at most one request and a session that was logged out
      stays out; linking is all or nothing; a code minted at boot links the
      workspace once; a signed token verifies exactly until it expires.
    - Tokens of other issuers (Oidc.v): however verifications interleave, the cache
      has one entry per issuer, and a token is accepted only under a key that its
      issuer served.
    - The chokepoint (HttpAuth.v): who passes [enforce_auth], exactly, and that a
      command reaches the engine only behind it.
    - Around the handlers (Surface.v): a label of the metrics reads back as the text
      it was written for and the groups count every row once, every answer carries one
      request id, at most one route answers a request, the Postgres server routes
      nothing to the Studio or the brokers, and the pub/sub routes reach the broker
      only for the workspace of their path.
    - Isolation (RestIsolation.v, GraphQl.v, StudioIsolation.v): a request sees and
      changes only rows of the workspace it was admitted for; for GraphQL this needs
      every field to name the workspace of the variable, and RestDemo.v shows
      what happens when one does not.
    - What is written is read back (StudioReports.v, OAuth.v, ReadRoutes.v): setup
      reports, OAuth states, and the pull of a syncing peer, which ends with every
      event exactly once.
    - Replication (Storage.v, Hlc.v): ingest is idempotent, accounts for every row
      and converges whatever the order; stamps strictly increase under every
      interleaving and dominate what was observed.
    - The queue (EffectsRace.v, EffectsInv.v, Worker.v): without a reaper, claims
      are exclusive under every interleaving; without interleaving, the invariant
      holds with reapers too, and claims and reapings do what is documented; a
      worker drains the queue of what it supports.
    - Sync (Sync.v, SyncFs.v, Cloud.v): a run always returns, the destination holds
      every event up to its cursor on every outcome, and a successful run delivers all;
      tail mode misses nothing that was recorded before its last round.  The file
      system, S3, GCS, Azure and IPFS keep the contract this rests on, also when
      requests fail, or are done and only their answers get lost.
    - Storage on disk (Backend.v, Backup.v): migrations are applied in order and once,
      an artifact is found again byte for byte, the two repositories agree where
      Postgres has the columns its documentation speaks of, and with those that are
      shipped it refuses every insert; the manifest of the backups stays a chain
      whatever call fails, and a restore ends at the point that was asked for.
    - Replay.v: conflict resolution converges; replays complete and change nothing
      but their own record; stream alignment is exact.
    - Subscriptions (BrokerInv.v, Predicate.v, PredicateParse.v): a subscription with
      a cursor misses no message whose publisher returned, filtering is exact, and
      what is printed parses back.
    - Circuit.v, Reliability.v, Throttle.v: the breaker refines a specification on
      histories of outcomes; leases exclude each other; ingestion is once per dedupe
      key; the token bucket never exceeds its limit and a burst takes what it holds.
    - Trigger.v, MemoryStore.v, AuditExport.v: an instant fires once and a finished run
      is persisted once; the detected pairs are exactly the contradicting ones; a purge deletes only what the policy
      gives up.
    - Cache.v: the cache refines a bounded list in the order of last use, and keeps
      what was used recently.  Compat.v, TsEmit.v: the check decides compatibility
      and composes, and every type is declared once.
    - Ffi.v: a host that pulls gets every event once when stamps are distinct, what it
      ingests it reads back, and what it dispatches itself is in no page.
    - ExportImport.v: what an export writes, an import of it into an empty ledger
      restores.  SdkServer.v: what a caller of the SDK gets is what the engine
      answered, errors included.
    - Cli.v: the server only starts on a loopback address, with TLS or when told to;
      the SQL guard equals an automaton over quotes; tail and watch miss nothing while
      ids grow; what a repair applies is what its dry run showed; commands that read
      change nothing, and one that writes is the engine's [dispatch].
    - Workers.v, Cdp.v: the path check keeps file workers under their root, an MCP
      exchange answers the id it asked, the replies of Chrome reach the calls that
      made them, navigation ends and a failed launch leaves no process.
    - Retrieval.v, Embedders.v, Contracts.v: a search answers the best hits and does
      not depend on the order of insertion, the graph score is the greatest of what
      raises it, the sparse product is the sum over common terms, a corpus counts its
      documents, a prompt substitutes once, the cheapest model is picked, and
      verdicts are read back as they were written.
    - Blob.v, Cloud.v, Templates.v, TemplateRender.v: the stores keep the [BlobStore]
      contract, IPFS for the URIs it answers, and rendering writes what it says, failing calls included.
    - Policy.v, Context.v, Flow.v, Eval.v, Json.v, Primitives.v:
      the verdict's gates and order, the firewall's admissibility and budget, correct
      and terminating topological order and a runner that never panics, the criteria
      language, canonical JSON, and what the small primitives write.

    Beside the properties, the Demo files and some closed lemmas show concrete
    runs where the code does not do what its documentation says.

    ** Machine integers, fuel and bounds

    Clock words are 64-bit with the masks of the code; [usize] sums of Context.v
    wrap as in a release build; floats are binary64 with its rounding,
    and binary32 in Retrieval.v and Embedders.v.
    [topological_order] takes as fuel one more than the initial work list and the
    edges together (a round takes a node off the list, and an edge puts at most one
    on it); the tokenizer the length of the source (every token consumes a byte) and
    the parser six units a token and six more (six mutually recursive levels a
    token).  A run of [SyncRunner::run_once], and the pull of a peer, gets more
    rounds than the workspace has events (every round that goes on delivers one);
    rejection sampling of a link code the position in the random stream where it
    ends.  The walk of a schema gets its levels of nesting.  Navigation polls at most
    [poll_fuel] times (its deadline over its pause), and JSON texts are read to
    serde_json's depth of 127.  For each of these it is
    a theorem that the fuel is enough; the other functions are structural.

    ** Parameters

    What is not the repository's code is a class whose instance is a parameter:
    serde_json's printer and parser, SHA-256, HMAC, base64, hexadecimal and argon2,
    the codec of token claims, the regex engine, the ULID generator, the clocks and
    the random bytes (streams indexed by the number of draws), the variables of the
    process, the order of rows a query does not order, SQLite's comparisons,
    affinities, defaults and constraints, tokio's broadcast channel, async-graphql's
    parsing and execution order, the cron and date libraries, Unicode's case and
    letters, the printing of floats and of debug strings, the bundle of templates,
    which file-system calls fail and what a failed write leaves behind, parsing and
    joining of URLs, lossy decoding of UTF-8, serde's error texts, and the processes,
    sockets and HTTP services that workers act on, jsonwebtoken's verification and
    the issuers' documents, SQLite's log and snapshots as opaque databases, Postgres's
    rules of assignment, the object_store clients and a Kubo node with what they
    document, Prometheus's encoder, the TLS library, the pretty printers and processes
    of the command line, the logarithm and the sign of
    zeros that binary32 leaves open, and a sort by a comparison that is no order.
    Hypotheses on them are explicit in the theorems and hold in the demo instances:
    - the ULID stream needs no hypothesis: an id that collides makes the INSERT
      fail, and the theorems hold on that path as well;
    - Chain.v asks the stamps to grow as strings ([clock_grows]), because the
      engine orders events by the text of RFC 3339 stamps.  Stamps that print a
      different number of digits of the second's fraction do not always compare
      as the times do, so this is a real assumption on the clock;
    - SHA-256 is never assumed injective: theorems return a collision instead.

    ** Not modelled

    What is left of the repository does not decide anything that the components above
    rest on, or cannot be read here:
    - the ONNX embedder, the uniffi and other bindings and the clients in other
      languages, which are calls into other systems;
    - the parsing of the command line's arguments, what init and the development watcher
      print, the check for upgrades, signals and the serving loop: input and output;
    - the pages of sign-in, the OpenAPI file, the lists of schemas and the client
      templates of the contracts crate, and the construction of the GraphQL schema,
      which are constants or data for the libraries that read them;
    - the benches, the tests and the facade crate, which only use or re-export what is
      modelled. *)

From Stdlib Require Export Ascii ZArith Lia Bool.
From stdpp Require Export base gmap strings list fin_maps sorting.
#[global] Open Scope Z_scope.

(** ** Results

    Rust's [Result<A, E>]; the success type comes last so that [result E] is a
    monad, with the notations of stdpp ([x ← e; k]). *)

Inductive result (E A : Type) : Type :=
| Ok (a : A)
| Err (e : E).
Arguments Ok {E A} a.
Arguments Err {E A} e.

#[global] Instance result_ret E : MRet (result E) := fun A a => Ok a.
#[global] Instance result_bind E : MBind (result E) :=
  fun A B f r => match r with Ok a => f a | Err e => Err e end.
#[global] Instance result_fmap E : FMap (result E) :=
  fun A B f r => match r with Ok a => Ok (f a) | Err e => Err e end.

Definition ok_or {E A} (e : E) (o : option A) : result E A :=
  match o with Some a => Ok a | None => Err e end.

Definition is_ok {E A} (r : result E A) : bool :=
  match r with Ok _ => true | Err _ => false end.

(** ** Stateful, fallible code

    A Rust function that updates shared state (the database) and may return
    early with [?].  The state survives an error: nothing is rolled back unless
    the code opens a transaction. *)

Definition M (S E A : Type) : Type := S -> result E A * S.

#[global] Instance M_ret S E : MRet (M S E) := fun A a s => (Ok a, s).
#[global] Instance M_bind S E : MBind (M S E) :=
  fun A B f m s =>
    match m s with
    | (Ok a, s') => f a s'
    | (Err e, s') => (Err e, s')
    end.

Definition get_st {S E} : M S E S := fun s => (Ok s, s).
Definition put_st {S E} (s' : S) : M S E unit := fun _ => (Ok tt, s').
Definition modify_st {S E} (f : S -> S) : M S E unit := fun s => (Ok tt, f s).
Definition throw {S E A} (e : E) : M S E A := fun s => (Err e, s).
Definition lift_result {S E A} (r : result E A) : M S E A := fun s => (r, s).
Definition ensure {S E} (b : bool) (e : E) : M S E unit :=
  fun s => (if b then Ok tt else Err e, s).
(** Running a statement with another error type. *)
Definition map_err {S E E' A} (f : E -> E') (m : M S E A) : M S E' A :=
  fun s => match m s with (Ok a, s') => (Ok a, s') | (Err e, s') => (Err (f e), s') end.

Arguments get_st {S E} s /.
Arguments put_st {S E} s' _ /.
Arguments modify_st {S E} f s /.
Arguments throw {S E A} e s /.
Arguments lift_result {S E A} r s /.
Arguments ensure {S E} b e s /.

(** Inversion of a sequenced computation that succeeds or fails. *)
Lemma M_bind_ok {S E A B} (m : M S E A) (f : A -> M S E B) s b s' :
  (m ≫= f) s = (Ok b, s') -> exists a s1, m s = (Ok a, s1) /\ f a s1 = (Ok b, s').
Proof.
  unfold mbind, M_bind. destruct (m s) as [[a|e] s1] eqn:Hm; intros H; [|discriminate].
  exists a, s1. auto.
Qed.
Lemma M_bind_inv {S E A B} (m : M S E A) (f : A -> M S E B) s r s' :
  (m ≫= f) s = (r, s') ->
  (exists e, m s = (Err e, s') /\ r = Err e) \/ (exists a s1, m s = (Ok a, s1) /\ f a s1 = (r, s')).
Proof.
  unfold mbind, M_bind. destruct (m s) as [[a|e] s1] eqn:Hm; intros H; [right|left]; simplify_eq; eauto.
Qed.

Lemma M_bind_eq {S E A B} (m : M S E A) (f : A -> M S E B) s a s1 :
  m s = (Ok a, s1) -> (m ≫= f) s = f a s1.
Proof. unfold mbind, M_bind. intros ->. reflexivity. Qed.

Lemma M_bind_err_eq {S E A B} (m : M S E A) (f : A -> M S E B) s e s1 :
  m s = (Err e, s1) -> (m ≫= f) s = (Err e, s1).
Proof. unfold mbind, M_bind. intros ->. reflexivity. Qed.

(** Hoare-style preservation: every outcome, errors included, keeps [P]. *)
Definition preserves {S E A} (P : S -> Prop) (m : M S E A) : Prop :=
  forall s, P s -> P (m s).2.

Lemma preserves_bind {S E A B} (P : S -> Prop) (m : M S E A) (f : A -> M S E B) :
  preserves P m -> (forall a, preserves P (f a)) -> preserves P (m ≫= f).
Proof.
  intros Hm Hf s Hs. unfold mbind, M_bind. specialize (Hm s Hs).
  destruct (m s) as [[a|e] s1]; simpl in *; auto. apply Hf; auto.
Qed.

Lemma preserves_ret {S E A} (P : S -> Prop) (a : A) :
  preserves P (mret a : M S E A).
Proof. intros s Hs. exact Hs. Qed.

Lemma preserves_throw {S E A} (P : S -> Prop) (e : E) :
  preserves P (throw e : M S E A).
Proof. intros s Hs. exact Hs. Qed.

Lemma preserves_lift {S E A} (P : S -> Prop) (r : result E A) :
  preserves P (lift_result r : M S E A).
Proof. intros s Hs. exact Hs. Qed.

Lemma preserves_ensure {S E} (P : S -> Prop) b (e : E) :
  preserves P (ensure b e : M S E unit).
Proof. intros s Hs. exact Hs. Qed.

Lemma preserves_get {S E} (P : S -> Prop) : preserves P (get_st : M S E S).
Proof. intros s Hs. exact Hs. Qed.

Lemma preserves_modify {S E} (P : S -> Prop) (f : S -> S) :
  (forall s, P s -> P (f s)) -> preserves P (modify_st f : M S E unit).
Proof. intros Hf s Hs. apply Hf, Hs. Qed.

(** ** Reflexive-transitive closure of a step relation *)

Inductive star {A} (R : A -> A -> Prop) : A -> A -> Prop :=
| star_refl a : star R a a
| star_step a b c : star R a b -> R b c -> star R a c.

Lemma star_invariant {A} (R : A -> A -> Prop) (P : A -> Prop) :
  (forall a b, R a b -> P a -> P b) -> forall a b, star R a b -> P a -> P b.
Proof. intros HR a b H Ha. induction H; eauto. Qed.

(** ** Case analysis on boolean conditions *)

Ltac case_if :=
  match goal with
  | |- context [if ?b then _ else _] => destruct b eqn:?
  | H : context [if ?b then _ else _] |- _ => destruct b eqn:?
  end.

Ltac case_match_ :=
  match goal with
  | |- context [match ?x with _ => _ end] => destruct x eqn:?
  | H : context [match ?x with _ => _ end] |- _ => destruct x eqn:?
  end.

(** Turn boolean tests into propositions. *)
Ltac breflect :=
  repeat match goal with
  | H : (_ && _)%bool = true |- _ => apply andb_true_iff in H as [? ?]
  | H : (_ || _)%bool = false |- _ => apply orb_false_iff in H as [? ?]
  | H : (_ && _)%bool = false |- _ => apply andb_false_iff in H
  | H : (_ || _)%bool = true |- _ => apply orb_true_iff in H
  | H : negb _ = true |- _ => apply negb_true_iff in H
  | H : negb _ = false |- _ => apply negb_false_iff in H
  | H : (_ <? _) = true |- _ => apply Z.ltb_lt in H
  | H : (_ <? _) = false |- _ => apply Z.ltb_ge in H
  | H : (_ <=? _) = true |- _ => apply Z.leb_le in H
  | H : (_ <=? _) = false |- _ => apply Z.leb_gt in H
  | H : (_ =? _) = true |- _ => apply Z.eqb_eq in H
  | H : (_ =? _) = false |- _ => apply Z.eqb_neq in H
  | H : bool_decide _ = true |- _ => apply bool_decide_eq_true in H
  | H : bool_decide _ = false |- _ => apply bool_decide_eq_false in H
  end.

(** ** Total comparison functions

    [Ord::cmp] of a Rust type: a function into [comparison] that is
    antisymmetric, transitive and decides equality. *)

Class TotalCmp {A} (cmp : A -> A -> comparison) : Prop := {
  cmp_eq_iff : forall a b, cmp a b = Eq <-> a = b;
  cmp_antisym : forall a b, cmp b a = CompOpp (cmp a b);
  cmp_lt_trans : forall a b c, cmp a b = Lt -> cmp b c = Lt -> cmp a c = Lt;
}.

Section total_cmp.
Context {A : Type} {cmp : A -> A -> comparison} `{!TotalCmp cmp}.

Lemma cmp_refl a : cmp a a = Eq.
Proof. by apply (cmp_eq_iff (cmp:=cmp)). Qed.

Lemma cmp_gt_lt a b : cmp a b = Gt <-> cmp b a = Lt.
Proof. rewrite (cmp_antisym (cmp:=cmp) a b). destruct (cmp a b); split; simpl; congruence. Qed.

(** [a <= b] in the order of [cmp]. *)
Definition cmp_le (a b : A) : bool :=
  match cmp a b with Gt => false | _ => true end.
Definition cmp_lt (a b : A) : bool :=
  match cmp a b with Lt => true | _ => false end.

Lemma cmp_le_total a b : cmp_le a b = true \/ cmp_le b a = true.
Proof.
  unfold cmp_le. rewrite (cmp_antisym (cmp:=cmp) a b). destruct (cmp a b); simpl; auto.
Qed.

Lemma cmp_le_trans a b c :
  cmp_le a b = true -> cmp_le b c = true -> cmp_le a c = true.
Proof.
  unfold cmp_le. destruct (cmp a b) eqn:Hab, (cmp b c) eqn:Hbc; intros ? ?; try discriminate.
  - apply (cmp_eq_iff (cmp:=cmp)) in Hab as ->. by rewrite Hbc.
  - apply (cmp_eq_iff (cmp:=cmp)) in Hab as ->. by rewrite Hbc.
  - apply (cmp_eq_iff (cmp:=cmp)) in Hbc as <-. by rewrite Hab.
  - by rewrite (cmp_lt_trans a b c).
Qed.

Lemma cmp_le_antisym a b : cmp_le a b = true -> cmp_le b a = true -> a = b.
Proof.
  unfold cmp_le. rewrite (cmp_antisym (cmp:=cmp) a b).
  destruct (cmp a b) eqn:Hab; simpl; try discriminate.
  intros _ _. by apply (cmp_eq_iff (cmp:=cmp)).
Qed.

Lemma cmp_le_refl a : cmp_le a a = true.
Proof. unfold cmp_le. by rewrite cmp_refl. Qed.

Lemma cmp_lt_not_le a b : cmp_lt a b = negb (cmp_le b a).
Proof.
  unfold cmp_lt, cmp_le. rewrite (cmp_antisym (cmp:=cmp) a b). by destruct (cmp a b).
Qed.
End total_cmp.

(** Lexicographic order of pairs, as derived by [#[derive(Ord)]]. *)
Definition lex_cmp {A B} (ca : A -> A -> comparison) (cb : B -> B -> comparison)
    (x y : A * B) : comparison :=
  match ca x.1 y.1 with Eq => cb x.2 y.2 | c => c end.

#[global] Instance lex_total {A B} (ca : A -> A -> comparison) (cb : B -> B -> comparison) :
  TotalCmp ca -> TotalCmp cb -> TotalCmp (lex_cmp ca cb).
Proof.
  intros HA HB. unfold lex_cmp. split.
  - intros [a1 b1] [a2 b2]; simpl. destruct (ca a1 a2) eqn:Ha.
    + apply (cmp_eq_iff (cmp:=ca)) in Ha as ->. rewrite (cmp_eq_iff (cmp:=cb)). naive_solver.
    + split; [discriminate|]. intros [= -> ->]. by rewrite cmp_refl in Ha.
    + split; [discriminate|]. intros [= -> ->]. by rewrite cmp_refl in Ha.
  - intros [a1 b1] [a2 b2]; simpl. rewrite (cmp_antisym (cmp:=ca) a1 a2).
    destruct (ca a1 a2) eqn:Ha; simpl; [apply (cmp_antisym (cmp:=cb))| |]; done.
  - intros [a1 b1] [a2 b2] [a3 b3]; simpl.
    destruct (ca a1 a2) eqn:H12, (ca a2 a3) eqn:H23; intros Hx Hy; try discriminate.
    + apply (cmp_eq_iff (cmp:=ca)) in H12 as ->, H23 as ->. rewrite cmp_refl.
      by apply (cmp_lt_trans (cmp:=cb) _ b2).
    + apply (cmp_eq_iff (cmp:=ca)) in H12 as ->. by rewrite H23.
    + apply (cmp_eq_iff (cmp:=ca)) in H23 as <-. by rewrite H12.
    + by rewrite (cmp_lt_trans (cmp:=ca) a1 a2 a3).
Qed.

#[global] Instance Z_total_cmp : TotalCmp Z.compare.
Proof.
  split.
  - apply Z.compare_eq_iff.
  - intros. symmetry. by rewrite <- Z.compare_antisym.
  - intros a b c. rewrite !Z.compare_lt_iff. lia.
Qed.

Lemma ascii_compare_lt_trans a b c :
  Ascii.compare a b = Lt -> Ascii.compare b c = Lt -> Ascii.compare a c = Lt.
Proof. unfold Ascii.compare. rewrite !N.compare_lt_iff. lia. Qed.

Lemma ascii_compare_eq a b : Ascii.compare a b = Eq <-> a = b.
Proof.
  unfold Ascii.compare. rewrite N.compare_eq_iff. split; [|congruence].
  intros H. apply (f_equal Ascii.ascii_of_N) in H. by rewrite !Ascii.ascii_N_embedding in H.
Qed.

(** Rust compares strings byte by byte. *)
#[global] Instance string_total_cmp : TotalCmp String.compare.
Proof.
  split.
  - intros a b. split; [apply String.compare_eq_iff|]. intros ->.
    induction b as [|x b IH]; simpl; [done|].
    rewrite (proj2 (ascii_compare_eq x x) eq_refl). exact IH.
  - intros a b. rewrite (String.compare_antisym b a). done.
  - induction a as [|x a IH]; intros [|y b] [|z c]; simpl; try done.
    destruct (Ascii.compare x y) eqn:Hxy, (Ascii.compare y z) eqn:Hyz;
      intros H1 H2; try discriminate.
    + apply ascii_compare_eq in Hxy as ->, Hyz as ->.
      rewrite (proj2 (ascii_compare_eq z z) eq_refl). eauto.
    + apply ascii_compare_eq in Hxy as ->. by rewrite Hyz.
    + apply ascii_compare_eq in Hyz as <-. by rewrite Hxy.
    + by rewrite (ascii_compare_lt_trans x y z).
Qed.

(** ** Filters *)

Lemma filter_none {A} (f : A -> bool) l : (forall x, In x l -> f x = false) -> List.filter f l = [].
Proof.
  induction l as [|x l IH]; intros Hf; simpl; [done|]. rewrite (Hf x) by (by left).
  apply IH. intros y Hy. apply Hf. by right.
Qed.
Lemma filter_every {A} (f : A -> bool) l : (forall x, In x l -> f x = true) -> List.filter f l = l.
Proof.
  induction l as [|x l IH]; intros Hf; simpl; [done|]. rewrite (Hf x) by (by left).
  f_equal. apply IH. intros y Hy. apply Hf. by right.
Qed.

(** ** Machine integers *)

Definition u8_max : Z := 2 ^ 8 - 1.
Definition u32_max : Z := 2 ^ 32 - 1.
Definition u64_max : Z := 2 ^ 64 - 1.
Definition u32_saturating_add (a b : Z) : Z := Z.min (a + b) u32_max.
Definition usize_saturating_sub (a b : Z) : Z := Z.max (a - b) 0.
Definition u64_shl (a n : Z) : Z := Z.land (Z.shiftl a n) u64_max.
Definition u64_shr (a n : Z) : Z := Z.shiftr a n.
Definition u32_wrapping_mul (a b : Z) : Z := (a * b) mod 2 ^ 32.

Lemma land_mask a n : 0 <= n -> Z.land a (2 ^ n - 1) = a mod 2 ^ n.
Proof.
  intros Hn. replace (2 ^ n - 1) with (Z.ones n) by (rewrite Z.ones_equiv; lia).
  by apply Z.land_ones.
Qed.

Lemma lor_shiftl_add hi lo n :
  0 <= n -> 0 <= lo < 2 ^ n -> Z.lor (Z.shiftl hi n) lo = hi * 2 ^ n + lo.
Proof.
  intros Hn Hlo. rewrite <- Z.shiftl_mul_pow2 by lia.
  rewrite <- Z.lxor_lor, <- Z.add_nocarry_lxor; [done| |];
    apply Z.bits_inj'; intros k Hk; rewrite Z.land_spec, Z.bits_0;
    destruct (Z_lt_le_dec k n);
    (rewrite Z.shiftl_spec_low by lia; done) ||
    (rewrite (Z.testbit_eqb lo), Z.div_small, andb_false_r; [done| |lia];
     split; [lia|]; apply Z.lt_le_trans with (2 ^ n); [lia|]; apply Z.pow_le_mono_r; lia).
Qed.

(** ** Filtering respects permutation *)

#[global] Instance List_filter_proper {A} (f : A -> bool) :
  Proper (Permutation ==> Permutation) (List.filter f).
Proof.
  induction 1 as [|x l l' Hp IH|x y l|l1 l2 l3 H1 IH1 H2 IH2]; simpl.
  - done.
  - destruct (f x); [by rewrite IH|done].
  - destruct (f x), (f y); try done. apply perm_swap.
  - by etrans.
Qed.
