(* ===== verification/Str.v ===== *)
(** * Rust string operations

    [&str] is modelled by its UTF-8 bytes as a [string].  The operations of the
    standard library that the components use, byte for byte: prefixes and
    suffixes, splitting on a character or on Unicode white space, joining,
    trimming, searching, and the decimal parser of [usize]. *)

From S2P Require Import Prelude.

(** ** Prefixes, suffixes, search *)

Fixpoint strip_prefix (p s : string) : option string :=
  match p with
  | EmptyString => Some s
  | String a p' =>
      match s with
      | EmptyString => None
      | String b s' => if Ascii.eqb a b then strip_prefix p' s' else None
      end
  end.

Definition starts_with (p s : string) : bool :=
  match strip_prefix p s with Some _ => true | None => false end.

Fixpoint ends_with (suf s : string) : bool :=
  String.eqb suf s || match s with EmptyString => false | String _ s' => ends_with suf s' end.

Fixpoint str_contains (p s : string) : bool :=
  starts_with p s || match s with EmptyString => false | String _ s' => str_contains p s' end.

Fixpoint contains_char (c : Ascii.ascii) (s : string) : bool :=
  match s with
  | EmptyString => false
  | String a s' => Ascii.eqb a c || contains_char c s'
  end.

(** [s.split(c)]: always at least one piece. *)
Fixpoint split_char (c : Ascii.ascii) (s : string) : list string :=
  match s with
  | EmptyString => [EmptyString]
  | String a s' =>
      if Ascii.eqb a c then EmptyString :: split_char c s'
      else match split_char c s' with
           | h :: t => String a h :: t
           | [] => [String a EmptyString]
           end
  end.

Fixpoint join (sep : string) (l : list string) : string :=
  match l with
  | [] => EmptyString
  | [x] => x
  | x :: l' => (x +:+ sep +:+ join sep l')%string
  end.

(** ** Unicode white space

    [ws_len s] is the byte length of the white-space character at the head of
    [s], 0 when there is none: ASCII 9-13 and 32, U+0085, U+00A0, U+1680,
    U+2000-U+200A, U+2028, U+2029, U+202F, U+205F and U+3000 in UTF-8. *)

Definition byte (a : Ascii.ascii) : Z := Z.of_N (Ascii.N_of_ascii a).

Definition ws_len (s : string) : nat :=
  match s with
  | EmptyString => 0%nat
  | String a r =>
      let x := byte a in
      if (x =? 32) || ((9 <=? x) && (x <=? 13)) then 1%nat
      else match r with
      | EmptyString => 0%nat
      | String b r2 =>
          let y := byte b in
          if (x =? 0xC2) && ((y =? 0x85) || (y =? 0xA0)) then 2%nat
          else match r2 with
          | EmptyString => 0%nat
          | String c _ =>
              let z := byte c in
              if (x =? 0xE1) && (y =? 0x9A) && (z =? 0x80) then 3%nat
              else if (x =? 0xE2) && (y =? 0x80) &&
                   (((0x80 <=? z) && (z <=? 0x8A)) || (z =? 0xA8) || (z =? 0xA9) || (z =? 0xAF))
              then 3%nat
              else if (x =? 0xE2) && (y =? 0x81) && (z =? 0x9F) then 3%nat
              else if (x =? 0xE3) && (y =? 0x80) && (z =? 0x80) then 3%nat
              else 0%nat
          end
      end
  end.

(** [skip] drops the bytes that are left of a white-space character. *)
Fixpoint split_ws (skip : nat) (s : string) : list string * string :=
  match s with
  | EmptyString => ([], EmptyString)
  | String a s' =>
      match skip with
      | S k => split_ws k s'
      | O =>
          match ws_len s with
          | O => let '(l, cur) := split_ws 0 s' in (l, String a cur)
          | S k =>
              let '(l, cur) := split_ws k s' in
              ((if String.eqb cur EmptyString then l else cur :: l), EmptyString)
          end
      end
  end.

(** [s.split_whitespace()]: the non-empty pieces. *)
Definition split_whitespace (s : string) : list string :=
  let '(l, cur) := split_ws 0 s in
  if String.eqb cur EmptyString then l else cur :: l.

(** [s.trim_start()]. *)
Fixpoint trim_start_ (skip : nat) (s : string) : string :=
  match s with
  | EmptyString => EmptyString
  | String _ s' =>
      match skip with
      | S k => trim_start_ k s'
      | O => match ws_len s with O => s | S k => trim_start_ k s' end
      end
  end.
Definition trim_start (s : string) : string := trim_start_ 0 s.

(** Is the whole of [s] white space? *)
Fixpoint all_ws (skip : nat) (s : string) : bool :=
  match s with
  | EmptyString => true
  | String _ s' =>
      match skip with
      | S k => all_ws k s'
      | O => match ws_len s with O => false | S k => all_ws k s' end
      end
  end.

(** [s.trim_end()]: cut where only white space remains. *)
Fixpoint trim_end (s : string) : string :=
  match s with
  | EmptyString => EmptyString
  | String a s' => if all_ws 0 s then EmptyString else String a (trim_end s')
  end.

Definition trim (s : string) : string := trim_end (trim_start s).

(** ** Characters *)

Definition is_digit (a : Ascii.ascii) : bool := (48 <=? byte a) && (byte a <=? 57).
Definition is_upper (a : Ascii.ascii) : bool := (65 <=? byte a) && (byte a <=? 90).
Definition is_lower (a : Ascii.ascii) : bool := (97 <=? byte a) && (byte a <=? 122).
Definition is_alnum (a : Ascii.ascii) : bool := is_digit a || is_upper a || is_lower a.

Fixpoint all_chars (f : Ascii.ascii -> bool) (s : string) : bool :=
  match s with EmptyString => true | String a s' => f a && all_chars f s' end.

Fixpoint filter_chars (f : Ascii.ascii -> bool) (s : string) : string :=
  match s with
  | EmptyString => EmptyString
  | String a s' => if f a then String a (filter_chars f s') else filter_chars f s'
  end.

Fixpoint map_chars (f : Ascii.ascii -> Ascii.ascii) (s : string) : string :=
  match s with EmptyString => EmptyString | String a s' => String (f a) (map_chars f s') end.

Definition ascii_lower (a : Ascii.ascii) : Ascii.ascii :=
  if is_upper a then Ascii.ascii_of_N (Ascii.N_of_ascii a + 32) else a.
Definition ascii_upper (a : Ascii.ascii) : Ascii.ascii :=
  if is_lower a then Ascii.ascii_of_N (Ascii.N_of_ascii a - 32) else a.
Definition to_ascii_lowercase : string -> string := map_chars ascii_lower.
Definition to_ascii_uppercase : string -> string := map_chars ascii_upper.

(** [trim_start_matches(c)] and [trim_end_matches(c)]. *)
Fixpoint trim_start_matches (c : Ascii.ascii) (s : string) : string :=
  match s with
  | String a s' => if Ascii.eqb a c then trim_start_matches c s' else s
  | EmptyString => EmptyString
  end.
Fixpoint trim_end_matches (c : Ascii.ascii) (s : string) : string :=
  match s with
  | String a s' =>
      match trim_end_matches c s' with
      | EmptyString => if Ascii.eqb a c then "" else String a ""
      | r => String a r
      end
  | EmptyString => EmptyString
  end.

(** ** Decimal integers *)

Fixpoint parse_digits (acc : Z) (s : string) : option Z :=
  match s with
  | EmptyString => Some acc
  | String a s' => if is_digit a then parse_digits (acc * 10 + (byte a - 48)) s' else None
  end.

(** [s.parse::<usize>()]: an optional [+], at least one digit, no overflow. *)
Definition parse_usize (s : string) : option Z :=
  let body := match s with
              | String a s' => if Ascii.eqb a "+"%char then s' else s
              | EmptyString => s end in
  match body with
  | EmptyString => None
  | _ => match parse_digits 0 body with
         | Some n => if n <=? u64_max then Some n else None
         | None => None
         end
  end.

(** [format!("{}", n)] of a natural number. *)
Fixpoint show_digits (fuel : nat) (n : Z) (acc : string) : string :=
  match fuel with
  | O => acc
  | S k =>
      let d := String (Ascii.ascii_of_N (Z.to_N (48 + n mod 10))) acc in
      if n <? 10 then d else show_digits k (n / 10) d
  end.
Definition show_Z (n : Z) : string :=
  if n <? 0 then ("-" +:+ show_digits (S (Z.to_nat (Z.log2 (- n)))) (- n) "")%string
  else show_digits (S (Z.to_nat (Z.log2 n))) n "".

(** [s.len()]. *)
Definition str_len (s : string) : Z := Z.of_nat (String.length s).

Example split_whitespace_ex :
  split_whitespace ("  rm  -rf" +:+ String "194" (String "160" "x "))%string = ["rm"; "-rf"; "x"]%string.
Proof. reflexivity. Qed.
Example trim_ex : trim "  a b  "%string = "a b"%string.
Proof. reflexivity. Qed.
Example parse_usize_ex :
  parse_usize "+017"%string = Some 17 /\ parse_usize ""%string = None /\
  parse_usize "18446744073709551616"%string = None /\ show_Z 10450 = "10450"%string.
Proof. repeat split; reflexivity. Qed.

(** Unicode, a parameter: [to_lowercase()], and the maximal
    runs of [is_alphanumeric()] characters. *)
Class Unicode := { to_lowercase : string -> string; words : string -> list string }.

(** ** Lemmas *)

Lemma append_cons a h x : (String a h +:+ x)%string = String a (h +:+ x)%string.
Proof. reflexivity. Qed.
Lemma append_nil x : ("" +:+ x)%string = x.
Proof. reflexivity. Qed.

Lemma append_empty_r s : (s +:+ "")%string = s.
Proof. induction s as [|a s IH]; [done|]. by rewrite append_cons, IH. Qed.
Lemma append_inj_l p a b : (p +:+ a)%string = (p +:+ b)%string -> a = b.
Proof. induction p as [|c p IH]; [done|]. rewrite !append_cons. intros [= Heq]. auto. Qed.
Lemma append_assoc (a b c : string) : ((a +:+ b) +:+ c)%string = (a +:+ (b +:+ c))%string.
Proof. induction a as [|x a IH]; [done|]. rewrite !append_cons. by rewrite IH. Qed.

Lemma strip_prefix_app p s : strip_prefix p (p +:+ s)%string = Some s.
Proof.
  induction p as [|a p IH]; simpl; [done|]. by rewrite Ascii.eqb_refl.
Qed.

Lemma strip_prefix_Some p s r : strip_prefix p s = Some r -> s = (p +:+ r)%string.
Proof.
  revert s. induction p as [|a p IH]; intros s; simpl; [by intros [= ->]|].
  destruct s as [|b s]; [discriminate|].
  destruct (Ascii.eqb_spec a b) as [->|]; [|discriminate].
  intros H. by rewrite (IH _ H).
Qed.

Lemma split_char_nonnil c s : split_char c s <> [].
Proof.
  induction s as [|a s IH]; simpl; [done|].
  destruct (Ascii.eqb a c); [done|]. by destruct (split_char c s).
Qed.

(** Joining the pieces of a split with the separator gives the string back. *)
Lemma join_split_char c s : join (String c "") (split_char c s) = s.
Proof.
  induction s as [|a s IH]; simpl; [done|].
  pose proof (split_char_nonnil c s) as Hn.
  destruct (Ascii.eqb_spec a c) as [->|];
    destruct (split_char c s) as [|h [|h2 t]]; simpl in *;
    repeat (rewrite append_cons || rewrite append_nil);
    try done; try (by rewrite <- IH); congruence.
Qed.

Lemma string_eqb_sym (a b : string) : String.eqb a b = String.eqb b a.
Proof. destruct (String.eqb_spec a b), (String.eqb_spec b a); congruence. Qed.

Lemma filter_chars_app f a b : filter_chars f (a +:+ b) = filter_chars f a +:+ filter_chars f b.
Proof.
  induction a as [|c a IH]; [done|]. rewrite append_cons. simpl.
  destruct (f c); by rewrite IH, ?append_cons.
Qed.
Lemma map_chars_app f a b : map_chars f (a +:+ b) = map_chars f a +:+ map_chars f b.
Proof. induction a as [|c a IH]; [done|]. rewrite append_cons. simpl. by rewrite IH, append_cons. Qed.
Lemma length_append a b : String.length (a +:+ b) = (String.length a + String.length b)%nat.
Proof. induction a as [|c a IH]; [done|]. rewrite append_cons. simpl. by rewrite IH. Qed.
Lemma all_chars_app f a b : all_chars f (a +:+ b) = all_chars f a && all_chars f b.
Proof.
  induction a as [|c a IH]; [done|]. rewrite append_cons. simpl. by rewrite IH, andb_assoc.
Qed.

Lemma contains_char_app c a b :
  contains_char c (a +:+ b)%string = contains_char c a || contains_char c b.
Proof.
  induction a as [|d a IH]; [done|]. rewrite append_cons. simpl. by rewrite IH, orb_assoc.
Qed.

Lemma split_char_app c a s :
  contains_char c a = false -> split_char c (a +:+ String c s) = a :: split_char c s.
Proof.
  induction a as [|x a IH]; intros Ha; simpl.
  - by rewrite Ascii.eqb_refl.
  - simpl in Ha. apply orb_false_elim in Ha as [Hx Ha]. by rewrite Hx, (IH Ha).
Qed.
Lemma split_char_none c s : contains_char c s = false -> split_char c s = [s].
Proof.
  induction s as [|x s IH]; simpl; [done|]. intros [Hx Hs]%orb_false_elim. by rewrite Hx, (IH Hs).
Qed.

(** *** A printed number parses back *)

Lemma digit_byte d : 0 <= d < 10 ->
  is_digit (Ascii.ascii_of_N (Z.to_N (48 + d))) = true /\ byte (Ascii.ascii_of_N (Z.to_N (48 + d))) = 48 + d.
Proof.
  intros Hd. assert (Hb : byte (Ascii.ascii_of_N (Z.to_N (48 + d))) = 48 + d).
  { unfold byte. rewrite Ascii.N_ascii_embedding by lia. lia. }
  split; [|done]. unfold is_digit. rewrite Hb. lia.
Qed.

Lemma parse_show_digits fuel n rest :
  0 <= n < 10 ^ Z.of_nat fuel -> (0 < fuel)%nat -> parse_digits 0 (show_digits fuel n rest) = parse_digits n rest.
Proof.
  revert n rest. induction fuel as [|fuel IH]; intros n rest Hn Hf; [lia|].
  assert (Hm : 0 <= n mod 10 < 10) by (apply Z.mod_pos_bound; lia).
  destruct (digit_byte (n mod 10) Hm) as [Hd Hb].
  cbn [show_digits]. destruct (Z.ltb_spec n 10).
  - cbn [parse_digits]. rewrite Hd, Hb. f_equal. rewrite Z.mod_small by lia. lia.
  - rewrite Nat2Z.inj_succ, Z.pow_succ_r in Hn by lia. rewrite IH.
    + cbn [parse_digits]. rewrite Hd, Hb. f_equal. pose proof (Z.div_mod n 10 ltac:(lia)). lia.
    + split; [apply Z.div_pos; lia|]. apply Z.div_lt_upper_bound; lia.
    + destruct fuel; [simpl in Hn; lia|lia].
Qed.

(** The first character of a printed natural number is a digit. *)
Lemma show_digits_head fuel n rest :
  (exists a s, rest = String a s /\ is_digit a = true) \/ (0 < fuel)%nat ->
  exists a s, show_digits fuel n rest = String a s /\ is_digit a = true.
Proof.
  revert n rest. induction fuel as [|fuel IH]; intros n rest Hr; [destruct Hr; [done|lia]|].
  assert (Hm : 0 <= n mod 10 < 10) by (apply Z.mod_pos_bound; lia).
  destruct (digit_byte (n mod 10) Hm) as [Hd _]. cbn [show_digits].
  destruct (n <? 10); [|apply IH; left]; eauto.
Qed.

Lemma parse_show_Z n : 0 <= n <= u64_max -> parse_usize (show_Z n) = Some n.
Proof.
  intros Hn. unfold show_Z. destruct (Z.ltb_spec n 0); [lia|].
  set (fuel := S (Z.to_nat (Z.log2 n))). unfold parse_usize.
  destruct (show_digits_head fuel n "") as (a & s & Hs & Ha); [right; unfold fuel; lia|].
  rewrite Hs. replace (Ascii.eqb a "+"%char) with false by
    (destruct (Ascii.eqb_spec a "+"%char) as [->|]; [vm_compute in Ha|]; done).
  rewrite <- Hs, parse_show_digits.
  - cbn [parse_digits]. destruct (Z.leb_spec n u64_max); [done|lia].
  - split; [lia|]. unfold fuel. destruct (Z.eq_dec n 0) as [->|]; [done|].
    destruct (Z.log2_spec n ltac:(lia)) as [_ Hl]. eapply Z.lt_le_trans; [exact Hl|].
    rewrite Nat2Z.inj_succ, Z2Nat.id by apply Z.log2_nonneg.
    apply Z.pow_le_mono_l. lia.
  - unfold fuel. lia.
Qed.

Lemma show_Z_char c i : 0 <= i -> is_digit c = false -> contains_char c (show_Z i) = false.
Proof.
  intros Hi Hc. unfold show_Z. destruct (Z.ltb_spec i 0); [lia|].
  assert (Hg : forall fuel n acc, 0 <= n -> contains_char c acc = false -> contains_char c (show_digits fuel n acc) = false).
  { induction fuel as [|fuel IH]; intros n acc Hn Ha; [done|]. cbn [show_digits].
    destruct (digit_byte (n mod 10)) as [Hd _]; [apply Z.mod_pos_bound; lia|].
    assert (Hx : contains_char c (String (Ascii.ascii_of_N (Z.to_N (48 + n mod 10))) acc) = false).
    { cbn [contains_char]. rewrite Ha, orb_false_r. apply Ascii.eqb_neq. congruence. }
    destruct (n <? 10); [done|]. apply IH; [apply Z.div_pos; lia|done]. }
  by apply Hg.
Qed.

Lemma parse_digits_show n : 0 <= n -> parse_digits 0 (show_Z n) = Some n.
Proof.
  intros Hn. unfold show_Z. destruct (Z.ltb_spec n 0); [lia|]. rewrite parse_show_digits; [done| |lia].
  split; [done|]. destruct (Z.eq_dec n 0) as [->|]; [done|].
  destruct (Z.log2_spec n ltac:(lia)) as [_ Hl]. eapply Z.lt_le_trans; [exact Hl|].
  rewrite Nat2Z.inj_succ, Z2Nat.id by apply Z.log2_nonneg. apply Z.pow_le_mono_l. lia.
Qed.
