(* ===== verification/Hlc.v ===== *)
(** * Hybrid logical clock ([actant-core/src/hlc.rs])

    The packed 64-bit clock word, one successful compare-exchange of
    [local_tick] and [observe] as a pure function of the word it read, and the
    threads that share the word as a small-step relation (read the time source,
    load, compare-exchange, retry). *)

From S2P Require Import Prelude.

(** ** Readings *)

Record Hlc := mkHlc { physical_ms : Z; logical : Z }.

#[global] Instance Hlc_eq_dec : EqDecision Hlc.
Proof. solve_decision. Defined.

Definition Hlc_ZERO : Hlc := mkHlc 0 0.

(** [#[derive(Ord)]]: [physical_ms] first, then [logical]. *)
Definition hlc_cmp (a b : Hlc) : comparison :=
  lex_cmp Z.compare Z.compare (physical_ms a, logical a) (physical_ms b, logical b).

#[global] Instance hlc_total_cmp : TotalCmp hlc_cmp.
Proof.
  unfold hlc_cmp. pose proof (lex_total Z.compare Z.compare _ _) as T. split.
  - intros [p l] [q m]. rewrite (cmp_eq_iff (cmp:=lex_cmp Z.compare Z.compare)).
    simpl. split; congruence.
  - intros a b. apply T.
  - intros a b c. apply T.
Qed.

Definition LOGICAL_BITS : Z := 16.
Definition LOGICAL_MASK : Z := 2 ^ LOGICAL_BITS - 1.
Definition PHYSICAL_MASK : Z := 2 ^ (64 - LOGICAL_BITS) - 1.
Definition LOGICAL_MAX : Z := LOGICAL_MASK.

Definition pack (h : Hlc) : Z :=
  Z.lor (u64_shl (Z.land (physical_ms h) PHYSICAL_MASK) LOGICAL_BITS)
        (Z.land (logical h) LOGICAL_MASK).

Definition unpack (raw : Z) : Hlc :=
  mkHlc (Z.land (u64_shr raw LOGICAL_BITS) PHYSICAL_MASK) (Z.land raw LOGICAL_MASK).

(** A reading that the 48+16 bits can hold. *)
Definition hlc_fits (h : Hlc) : Prop :=
  0 <= physical_ms h <= PHYSICAL_MASK /\ 0 <= logical h <= LOGICAL_MAX.

(** ** The clock *)

(** [HlcClock]: the word, and the wall clock it reads. The source is a function
    of the number of earlier readings, so successive readings may differ. *)
Record HlcClock := mkHlcClock { state : Z; physical_now_ms : nat -> Z }.

Definition with_clock_source (initial : Hlc) (source : nat -> Z) : HlcClock :=
  mkHlcClock (pack initial) source.

Definition peek (c : HlcClock) : Hlc := unpack (state c).

(** The body of the loop of [local_tick]: the next reading from the previous. *)
Definition local_next (physical_now : Z) (prev : Hlc) : Hlc :=
  if physical_now >? physical_ms prev then mkHlc physical_now 0
  else mkHlc (physical_ms prev) (Z.min (u32_saturating_add (logical prev) 1) LOGICAL_MAX).

(** The body of the loop of [observe]. *)
Definition observe_next (physical_now : Z) (remote prev : Hlc) : Hlc :=
  let l_new := Z.max (Z.max (physical_ms prev) (physical_ms remote)) physical_now in
  let c_new :=
    match (l_new =? physical_ms prev), (l_new =? physical_ms remote) with
    | true, true =>
        Z.min (u32_saturating_add (Z.max (logical prev) (logical remote)) 1) LOGICAL_MAX
    | true, false => Z.min (u32_saturating_add (logical prev) 1) LOGICAL_MAX
    | false, true => Z.min (u32_saturating_add (logical remote) 1) LOGICAL_MAX
    | false, false => 0
    end in
  mkHlc l_new c_new.

Inductive clock_op :=
| LocalTick
| Observe (remote : Hlc).

(** The next reading, from the raw wall-clock value the source returned. *)
Definition op_next (op : clock_op) (reading : Z) (prev : Hlc) : Hlc :=
  let physical_now := Z.land reading PHYSICAL_MASK in
  match op with
  | LocalTick => local_next physical_now prev
  | Observe remote => observe_next physical_now remote prev
  end.

(** Uncontended calls: the first compare-exchange succeeds. *)
Definition local_tick (reading : Z) (raw : Z) : Hlc * Z :=
  let next := op_next LocalTick reading (unpack raw) in (next, pack next).
Definition observe (reading : Z) (remote : Hlc) (raw : Z) : Hlc * Z :=
  let next := op_next (Observe remote) reading (unpack raw) in (next, pack next).

(** ** Threads sharing the word *)

Inductive thread :=
| TIdle
| TLoop (op : clock_op) (reading : Z)               (* at the head of [loop] *)
| TLoaded (op : clock_op) (reading : Z) (raw : Z).  (* after [load], before the CAS *)

(** The word, the threads, and the stamps returned so far, newest first. *)
Record clock_sys := mkSys {
  sys_state : Z;
  sys_threads : gmap nat thread;
  sys_log : list Hlc;
}.

Inductive clock_step : clock_sys -> clock_sys -> Prop :=
| step_call s t op reading :
    sys_threads s !! t = Some TIdle ->
    clock_step s (mkSys (sys_state s) (<[t := TLoop op reading]> (sys_threads s)) (sys_log s))
| step_load s t op reading :
    sys_threads s !! t = Some (TLoop op reading) ->
    clock_step s
      (mkSys (sys_state s) (<[t := TLoaded op reading (sys_state s)]> (sys_threads s)) (sys_log s))
| step_cas_ok s t op reading raw :
    sys_threads s !! t = Some (TLoaded op reading raw) ->
    sys_state s = raw ->
    let next := op_next op reading (unpack raw) in
    clock_step s (mkSys (pack next) (<[t := TIdle]> (sys_threads s)) (next :: sys_log s))
| step_cas_fail s t op reading raw :
    sys_threads s !! t = Some (TLoaded op reading raw) ->
    sys_state s <> raw ->
    clock_step s
      (mkSys (sys_state s) (<[t := TLoop op reading]> (sys_threads s)) (sys_log s)).

(** [n] idle threads around a fresh clock. *)
Definition sys_init (initial : Hlc) (ts : gmap nat thread) : clock_sys :=
  mkSys (pack initial) ts [].

(** Operations whose remote stamp (if any) fits the word. *)
Definition op_fits (op : clock_op) : Prop :=
  match op with LocalTick => True | Observe remote => hlc_fits remote end.
Definition thread_fits (t : thread) : Prop :=
  match t with
  | TIdle => True
  | TLoop op reading | TLoaded op reading _ => op_fits op /\ 0 <= reading
  end.

(** A step in which only fitting operations are called. *)
Definition clock_step_fit (s s' : clock_sys) : Prop :=
  clock_step s s' /\ map_Forall (fun _ t => thread_fits t) (sys_threads s').

(** [a] is a legitimate later stamp than [b]: strictly greater, or equal
    physical time with the logical counter saturated. *)
Definition later (a b : Hlc) : Prop :=
  hlc_cmp b a = Lt \/ (a = b /\ logical a = LOGICAL_MAX).

(** An executable scheduler: one step of thread [t], calling [op] when idle. *)
Definition thread_step (t : nat) (op : clock_op) (reading : Z) (s : clock_sys) : clock_sys :=
  match sys_threads s !! t with
  | None => s
  | Some TIdle => mkSys (sys_state s) (<[t := TLoop op reading]> (sys_threads s)) (sys_log s)
  | Some (TLoop op' r') =>
      mkSys (sys_state s) (<[t := TLoaded op' r' (sys_state s)]> (sys_threads s)) (sys_log s)
  | Some (TLoaded op' r' raw) =>
      if sys_state s =? raw then
        let next := op_next op' r' (unpack raw) in
        mkSys (pack next) (<[t := TIdle]> (sys_threads s)) (next :: sys_log s)
      else mkSys (sys_state s) (<[t := TLoop op' r']> (sys_threads s)) (sys_log s)
  end.

Definition schedule (l : list (nat * clock_op * Z)) (s : clock_sys) : clock_sys :=
  fold_left (fun s '(t, op, r) => thread_step t op r s) l s.

(** ** Lemmas *)

Lemma pack_arith h :
  pack h = (physical_ms h mod 2 ^ 48) * 2 ^ 16 + logical h mod 2 ^ 16.
Proof.
  unfold pack, u64_shl, PHYSICAL_MASK, LOGICAL_MASK, LOGICAL_BITS, u64_max.
  rewrite !land_mask by lia.
  pose proof (Z.mod_pos_bound (physical_ms h) (2 ^ (64 - 16)) ltac:(lia)).
  rewrite Z.shiftl_mul_pow2 by lia.
  rewrite (Z.mod_small (_ * _)) by lia.
  rewrite <- Z.shiftl_mul_pow2 by lia.
  rewrite lor_shiftl_add; [done|lia|]. apply Z.mod_pos_bound. lia.
Qed.

Lemma unpack_arith raw :
  unpack raw = mkHlc ((raw / 2 ^ 16) mod 2 ^ 48) (raw mod 2 ^ 16).
Proof.
  unfold unpack, u64_shr, PHYSICAL_MASK, LOGICAL_MASK, LOGICAL_BITS.
  rewrite !land_mask by lia. by rewrite Z.shiftr_div_pow2 by lia.
Qed.

Lemma fits_bounds h :
  hlc_fits h <-> 0 <= physical_ms h < 2 ^ 48 /\ 0 <= logical h < 2 ^ 16.
Proof.
  unfold hlc_fits, PHYSICAL_MASK, LOGICAL_MAX, LOGICAL_MASK, LOGICAL_BITS. lia.
Qed.

Lemma unpack_pack_mod h :
  unpack (pack h) = mkHlc (physical_ms h mod 2 ^ 48) (logical h mod 2 ^ 16).
Proof.
  rewrite unpack_arith, pack_arith.
  pose proof (Z.mod_pos_bound (physical_ms h) (2 ^ 48) ltac:(lia)).
  pose proof (Z.mod_pos_bound (logical h) (2 ^ 16) ltac:(lia)).
  rewrite Z.div_add_l by lia. rewrite (Z.div_small (logical h mod _)) by lia.
  rewrite Z.add_0_r, Zmod_mod. f_equal.
  rewrite Z.add_comm, Z_mod_plus_full. by rewrite Zmod_mod.
Qed.

Lemma unpack_pack h : hlc_fits h -> unpack (pack h) = h.
Proof.
  rewrite fits_bounds. intros [? ?]. rewrite unpack_pack_mod, !Z.mod_small by lia.
  by destruct h.
Qed.

Lemma unpack_fits raw : hlc_fits (unpack raw).
Proof.
  rewrite fits_bounds, unpack_arith; simpl.
  split; apply Z.mod_pos_bound; lia.
Qed.
Create HintDb hlc.
#[export] Hint Resolve unpack_fits : hlc.

Lemma hlc_cmp_lt a b :
  hlc_cmp a b = Lt <->
  physical_ms a < physical_ms b \/ (physical_ms a = physical_ms b /\ logical a < logical b).
Proof.
  unfold hlc_cmp, lex_cmp; simpl.
  destruct (Z.compare_spec (physical_ms a) (physical_ms b)); rewrite ?Z.compare_lt_iff;
    (split; [|try lia]); intros; try discriminate; try lia; done.
Qed.

Lemma op_next_spec op reading prev :
  hlc_fits prev -> op_fits op -> 0 <= reading ->
  hlc_fits (op_next op reading prev) /\ later (op_next op reading prev) prev.
Proof.
  rewrite !fits_bounds. unfold later. rewrite hlc_cmp_lt.
  intros Hp Hop Hr. unfold op_next.
  assert (0 <= Z.land reading PHYSICAL_MASK < 2 ^ 48).
  { unfold PHYSICAL_MASK, LOGICAL_BITS. rewrite land_mask by lia.
    apply Z.mod_pos_bound. lia. }
  set (now := Z.land reading PHYSICAL_MASK) in *. clearbody now.
  destruct prev as [pp pl]; simpl in *.
  unfold LOGICAL_MAX, LOGICAL_MASK, LOGICAL_BITS in *.
  destruct op as [|[rp rl]]; simpl in Hop.
  - unfold local_next, u32_saturating_add, u32_max, LOGICAL_MAX, LOGICAL_MASK, LOGICAL_BITS.
    simpl.
    destruct (Z.gtb_spec now pp); simpl; [split; [lia|left; lia]|].
    split; [lia|]. destruct (Z.eq_dec pl (2 ^ 16 - 1)) as [->|]; [right; done|left; lia].
  - apply fits_bounds in Hop; simpl in Hop.
    unfold observe_next, u32_saturating_add, u32_max, LOGICAL_MAX, LOGICAL_MASK, LOGICAL_BITS;
      simpl.
    destruct (Z.eqb_spec (Z.max (Z.max pp rp) now) pp),
      (Z.eqb_spec (Z.max (Z.max pp rp) now) rp); simpl; (split; [lia|]);
      destruct (Z.eq_dec pl (2 ^ 16 - 1));
      first [left; lia | right; split; [f_equal; lia|lia]].
Qed.

(** ** Properties *)

(** [later] composes: stamps produced by consecutive operations stay ordered. *)
Lemma later_trans a b c : later a b -> later b c -> later a c.
Proof.
  unfold later. intros [H1|[-> H1]] [H2|[-> H2]]; auto.
  left. exact (cmp_lt_trans c b a H2 H1).
Qed.

(** The state of a reachable system: the word decodes to the newest stamp, all
    stamps fit, and each one is [later] than every stamp before it and than the
    initial reading. *)
Record sys_inv (initial : Hlc) (s : clock_sys) : Prop := {
  inv_state : sys_state s = pack (default initial (head (sys_log s)));
  inv_fits : Forall hlc_fits (sys_log s);
  inv_sorted : StronglySorted later (sys_log s);
  inv_initial : Forall (fun h => later h initial) (sys_log s);
}.

Lemma sys_inv_step initial s s' :
  hlc_fits initial -> map_Forall (fun _ t => thread_fits t) (sys_threads s) ->
  clock_step s s' -> sys_inv initial s -> sys_inv initial s'.
Proof.
  intros Hi Ht Hstep [H1 H2 H3 H4].
  destruct Hstep as [s t op r Hl|s t op r Hl|s t op r raw Hl Hraw next|s t op r raw Hl Hraw];
    try (split; assumption).
  assert (Hf : op_fits op /\ 0 <= r) by exact (Ht t _ Hl).
  destruct Hf as [Hop Hr].
  set (prev := default initial (head (sys_log s))).
  assert (Hprev : hlc_fits prev).
  { subst prev. destruct (sys_log s); simpl; [done|by inversion H2]. }
  assert (Hun : unpack raw = prev) by (subst raw; rewrite H1; by apply unpack_pack).
  destruct (op_next_spec op r prev Hprev Hop Hr) as [Hfit Hlater].
  assert (Hnext : next = op_next op r prev) by (unfold next; by rewrite Hun).
  assert (Hall : Forall (later next) (sys_log s) /\ later next initial).
  { rewrite Hnext. subst prev. destruct (sys_log s) as [|h l]; simpl in *; [split; [constructor|done]|].
    apply StronglySorted_inv in H3 as [_ H3].
    apply Forall_cons_1 in H4 as [H4 _]. split; [constructor; [done|]|].
    - eapply Forall_impl; [exact H3|]. intros x Hx. by eapply later_trans.
    - by eapply later_trans. }
  split; simpl.
  - done.
  - constructor; [by rewrite Hnext|done].
  - constructor; [done|apply Hall].
  - constructor; [apply Hall|done].
Qed.

#[global] Instance op_fits_dec op : Decision (op_fits op).
Proof. destruct op; simpl; unfold hlc_fits; apply _. Defined.
#[global] Instance thread_fits_dec t : Decision (thread_fits t).
Proof. destruct t; simpl; apply _. Defined.

(** Every schedule of fitting calls is a run of the step relation. *)
Lemma schedule_reachable l s :
  map_Forall (fun _ t => thread_fits t) (sys_threads s) ->
  Forall (fun '(_, op, r) => op_fits op /\ 0 <= r) l ->
  star clock_step_fit s (schedule l s).
Proof.
  induction l as [|[[t op] r] l IH] using rev_ind; intros Hs Hl; [constructor|].
  apply Forall_app in Hl as [Hl Hx]. apply Forall_cons_1 in Hx as [Hx _].
  unfold schedule. rewrite fold_left_app. simpl.
  fold (schedule l s). specialize (IH Hs Hl).
  assert (Hf : map_Forall (fun _ t => thread_fits t) (sys_threads (schedule l s))).
  { eapply (star_invariant clock_step_fit
              (fun s => map_Forall (fun _ t => thread_fits t) (sys_threads s)));
      [|exact IH|exact Hs]. by intros a b [_ ?] _. }
  unfold thread_step. destruct (sys_threads (schedule l s) !! t) as [[|op' r'|op' r' raw]|] eqn:Ht;
    [| | |exact IH]; pose proof (Hf t _ Ht) as Hft;
    [| |destruct (Z.eqb_spec (sys_state (schedule l s)) raw) as [He|He]].
  all: simpl in Hx, Hft; eapply star_step; [exact IH|]; split;
    [|simpl; apply map_Forall_insert_2; done].
  - by apply step_call.
  - by apply step_load.
  - by apply (step_cas_ok _ t op' r' raw).
  - by apply (step_cas_fail _ t op' r' raw).
Qed.


Definition demo_threads : gmap nat thread := <[0%nat := TIdle]> (<[1%nat := TIdle]> ∅).
Definition demo_schedule : list (nat * clock_op * Z) :=
  let tick t := (t, LocalTick, 900) in
  let obs t := (t, Observe (mkHlc 1500 7), 900) in
  [tick 0%nat; obs 1%nat; tick 0%nat; obs 1%nat; obs 1%nat; tick 0%nat; tick 0%nat; tick 0%nat].


(** The packed word gives a reading back exactly when the reading has at
    most 48 bits of physical time and 16 bits of logical counter; every larger
    reading is silently truncated. *)
Theorem pack_roundtrip (h : Hlc) : unpack (pack h) = h <-> hlc_fits h.
Proof.
  split; [|apply unpack_pack]. intros <-. apply unpack_fits.
Qed.

(** [observe] returns a stamp that is later than the clock's previous
    reading and later than the remote stamp, is never behind the wall clock, and
    is what the word holds afterwards. *)
Theorem observe_dominates (reading : Z) (remote : Hlc) (raw : Z)
  (Hremote : hlc_fits remote) (Hreading : 0 <= reading) :
  let '(next, raw') := observe reading remote raw in
  later next (unpack raw) /\ later next remote /\
  Z.land reading PHYSICAL_MASK <= physical_ms next /\ unpack raw' = next.
Proof.
  unfold observe.
  destruct (op_next_spec (Observe remote) reading (unpack raw) (unpack_fits raw) Hremote Hreading)
    as [Hfit Hlater].
  split; [done|]. split; [|split; [|by apply unpack_pack]].
  - pose proof (unpack_fits raw) as Hp. rewrite fits_bounds in Hp, Hremote.
    unfold op_next. set (now := Z.land reading PHYSICAL_MASK). clearbody now.
    destruct (unpack raw) as [pp pl], remote as [rp rl]; simpl in *.
    unfold later. rewrite hlc_cmp_lt.
    unfold observe_next, u32_saturating_add, u32_max, LOGICAL_MAX, LOGICAL_MASK, LOGICAL_BITS; simpl.
    destruct (Z.eqb_spec (Z.max (Z.max pp rp) now) pp),
      (Z.eqb_spec (Z.max (Z.max pp rp) now) rp); simpl;
      destruct (Z.eq_dec rl (2 ^ 16 - 1));
      first [left; lia | right; split; [f_equal; lia|lia]].
  - unfold op_next, observe_next. simpl. lia.
Qed.

Lemma observe_dominates_witness :
  observe 1000 (mkHlc 2000 65535) (pack (mkHlc 2000 3)) = (mkHlc 2000 65535, pack (mkHlc 2000 65535)) /\
  later (mkHlc 2000 65535) (mkHlc 2000 3).
Proof.
  split; [reflexivity|].
  apply (observe_dominates 1000 (mkHlc 2000 65535) (pack (mkHlc 2000 3)));
    [vm_compute; intuition discriminate|lia].
Defined.

(** A remote stamp beyond 48 bits is returned to the caller but not stored: the
    word keeps its low 48 bits, and the clock then runs behind its own previous
    reading. *)
Example observe_oversized_remote_rewinds :
  let c := pack (mkHlc 1000 5) in
  let '(stamp, c') := observe 1000 (mkHlc (2 ^ 48) 0) c in
  stamp = mkHlc (2 ^ 48) 1 /\ unpack c' = mkHlc 0 1 /\
  hlc_cmp (unpack c') (unpack c) = Lt /\
  hlc_cmp (local_tick 0 c').1 (unpack c) = Lt.
Proof. vm_compute. repeat split. Qed.
