(* ===== verification/Json.v ===== *)
(** * JSON values, canonical form, hashing ([actant-core/src/hash.rs], [ids.rs])

    [serde_json::Value] without the [preserve_order] feature: an object is a
    [BTreeMap], kept here as an association list that [bt_insert] keeps sorted by
    key.  Numbers keep serde's three representations; an [f64] is an IEEE
    binary64 value of [SpecFloat].  Parsing and printing (serde_json) and SHA-256
    (sha2) are third-party code: classes whose instances are parameters. *)

From Stdlib Require Import SpecFloat.
From S2P Require Import Prelude Str Hlc.
#[local] Open Scope string_scope.
#[local] Open Scope list_scope.
#[local] Open Scope Z_scope.

(** ** Binary64 *)

Definition f64 : Type := spec_float.
Definition f64_of_Z (z : Z) : f64 := binary_normalize 53 1024 z 0 false.
Definition f64_add : f64 -> f64 -> f64 := SFadd 53 1024.
Definition f64_sub : f64 -> f64 -> f64 := SFsub 53 1024.
Definition f64_mul : f64 -> f64 -> f64 := SFmul 53 1024.
Definition f64_div : f64 -> f64 -> f64 := SFdiv 53 1024.
Definition f64_partial_cmp : f64 -> f64 -> option comparison := SFcompare.
Definition f64_ltb : f64 -> f64 -> bool := SFltb.
Definition f64_leb : f64 -> f64 -> bool := SFleb.
Definition f64_eqb : f64 -> f64 -> bool := SFeqb.
(** The quotient of two positive integers, correctly rounded (decimal literals). *)
Definition f64_ratio (n d : positive) : f64 :=
  SFdiv 53 1024 (S754_finite false n 0) (S754_finite false d 0).

(** ** Values *)

#[local] Set Warnings "-register-all".

Inductive Number :=
| PosInt (n : Z)       (* u64 *)
| NegInt (n : Z)       (* i64, negative *)
| Float (x : f64).

Inductive Json :=
| JNull
| JBool (b : bool)
| JNumber (n : Number)
| JString (s : string)
| JArray (l : list Json)
| JObject (m : list (string * Json)).

#[global] Instance Number_eq_dec : EqDecision Number.
Proof. unfold EqDecision, Decision. unfold f64. repeat decide equality. Defined.

(** [Number::as_f64]. *)
Definition num_as_f64 (n : Number) : f64 :=
  match n with PosInt z | NegInt z => f64_of_Z z | Float x => x end.

(** [PartialEq for Number]: same representation; floats by IEEE equality. *)
Definition num_eqb (a b : Number) : bool :=
  match a, b with
  | PosInt x, PosInt y => x =? y
  | NegInt x, NegInt y => x =? y
  | Float x, Float y => f64_eqb x y
  | _, _ => false
  end.

Fixpoint json_eqb (a b : Json) {struct a} : bool :=
  match a, b with
  | JNull, JNull => true
  | JBool x, JBool y => Bool.eqb x y
  | JNumber x, JNumber y => num_eqb x y
  | JString x, JString y => String.eqb x y
  | JArray x, JArray y =>
      (fix go (x y : list Json) {struct x} : bool :=
         match x, y with
         | [], [] => true
         | u :: x', v :: y' => json_eqb u v && go x' y'
         | _, _ => false
         end) x y
  | JObject x, JObject y =>
      (fix go (x y : list (string * Json)) {struct x} : bool :=
         match x, y with
         | [], [] => true
         | (k, u) :: x', (k', v) :: y' => String.eqb k k' && json_eqb u v && go x' y'
         | _, _ => false
         end) x y
  | _, _ => false
  end.

(** [Map::get]. *)
Fixpoint jlookup {A} (k : string) (m : list (string * A)) : option A :=
  match m with
  | [] => None
  | (k', v) :: m' => if String.eqb k k' then Some v else jlookup k m'
  end.

(** [Value::get(key)]. *)
Definition jget (k : string) (v : Json) : option Json :=
  match v with JObject m => jlookup k m | _ => None end.
Definition as_str (v : Json) : option string :=
  match v with JString s => Some s | _ => None end.
Definition as_bool (v : Json) : option bool :=
  match v with JBool b => Some b | _ => None end.
Definition as_array (v : Json) : option (list Json) :=
  match v with JArray l => Some l | _ => None end.
(** [Value::as_f64]. *)
Definition as_f64 (v : Json) : option f64 :=
  match v with JNumber n => Some (num_as_f64 n) | _ => None end.
(** [Value::as_u64]. *)
Definition as_u64 (v : Json) : option Z :=
  match v with JNumber (PosInt n) => Some n | _ => None end.
(** [Value::as_i64]. *)
Definition as_i64 (v : Json) : option Z :=
  match v with
  | JNumber (PosInt n) => if n <=? 2 ^ 63 - 1 then Some n else None
  | JNumber (NegInt n) => Some n
  | _ => None
  end.

(** [BTreeMap::insert] on the sorted association list. *)
Fixpoint bt_insert {A} (k : string) (v : A) (m : list (string * A)) : list (string * A) :=
  match m with
  | [] => [(k, v)]
  | (k', v') :: m' =>
      match String.compare k k' with
      | Eq => (k, v) :: m'
      | Lt => (k, v) :: m
      | Gt => (k', v') :: bt_insert k v m'
      end
  end.

(** [canonicalize]: rebuild every object through a [BTreeMap]. *)
Fixpoint canonicalize (v : Json) : Json :=
  match v with
  | JObject m =>
      JObject (fold_left (fun sorted '(k, x) => bt_insert k (canonicalize x) sorted) m [])
  | JArray arr => JArray (List.map canonicalize arr)
  | other => other
  end.

(** [Number::from_f64(n).map(Value::Number).unwrap_or(Value::Null)]. *)
Definition json_of_f64 (n : f64) : Json :=
  match n with
  | S754_zero _ | S754_finite _ _ _ => JNumber (Float n)
  | _ => JNull
  end.

(** [json!({...})]. *)
Definition jobj (members : list (string * Json)) : Json :=
  JObject (fold_left (fun m '(k, v) => bt_insert k v m) members []).

(** ** serde_json and sha2 *)

Class SerdeJson := {
  from_str : string -> option Json;   (* [serde_json::from_str] *)
  to_string : Json -> string;         (* [Value::to_string] *)
}.

Class Sha256 := sha256_hex : string -> string.

(** Keys of an object in [BTreeMap] order, at every level. *)
Definition keys_sorted {A} (m : list (string * A)) : Prop :=
  StronglySorted (fun a b => String.compare a b = Lt) (List.map fst m).

Inductive json_wf : Json -> Prop :=
| wf_null : json_wf JNull
| wf_bool b : json_wf (JBool b)
| wf_number n : json_wf (JNumber n)
| wf_string s : json_wf (JString s)
| wf_array l : Forall json_wf l -> json_wf (JArray l)
| wf_object m : keys_sorted m -> Forall (fun kv => json_wf kv.2) m -> json_wf (JObject m).

Section hash.
Context `{SerdeJson} `{Sha256}.

Definition canonical_json (v : Json) : string := to_string (canonicalize v).

(** [chain_hash]. *)
Definition chain_hash (prev payload_hash : string) : string :=
  sha256_hex (prev +:+ ":" +:+ payload_hash).

(** [to_be_bytes] of an unsigned integer of [n] bytes. *)
Fixpoint to_be_bytes (n : nat) (x : Z) : string :=
  match n with
  | O => ""
  | S k => String (Ascii.ascii_of_N (Z.to_N ((x / 256 ^ Z.of_nat k) mod 256))) (to_be_bytes k x)
  end.

(** [EventId::content_derived]. *)
Definition content_derived (canonical_payload : string) (hlc : Hlc) (actor : string) : string :=
  let buf := canonical_payload +:+ to_be_bytes 8 (physical_ms hlc)
               +:+ to_be_bytes 4 (logical hlc) +:+ actor in
  "evt_" +:+ sha256_hex buf.
End hash.

(** ** Induction over values *)

Lemma Json_rect' (P : Json -> Prop) :
  P JNull -> (forall b, P (JBool b)) -> (forall n, P (JNumber n)) -> (forall s, P (JString s)) ->
  (forall l, Forall P l -> P (JArray l)) ->
  (forall m, Forall (fun kv => P kv.2) m -> P (JObject m)) ->
  forall v, P v.
Proof.
  intros H1 H2 H3 H4 H5 H6. fix IH 1. intros [ |b|n|s|l|m].
  - exact H1.
  - apply H2.
  - apply H3.
  - apply H4.
  - apply H5. induction l; constructor; [apply IH|assumption].
  - apply H6. induction m as [|[k v] m IHm]; constructor; [apply IH|assumption].
Qed.

(** ** Maps as sorted lists *)

Lemma str_cmp_refl (a : string) : String.compare a a = Eq.
Proof. apply (cmp_refl (cmp:=String.compare)). Qed.
Lemma str_cmp_gt_lt (a b : string) : String.compare a b = Gt <-> String.compare b a = Lt.
Proof. apply (cmp_gt_lt (cmp:=String.compare)). Qed.
Lemma str_cmp_eq (a b : string) : String.compare a b = Eq <-> a = b.
Proof. apply (cmp_eq_iff (cmp:=String.compare)). Qed.
Lemma str_lt_trans (a b c : string) :
  String.compare a b = Lt -> String.compare b c = Lt -> String.compare a c = Lt.
Proof. apply (cmp_lt_trans (cmp:=String.compare)). Qed.

Lemma bt_insert_lookup {A} k k' (v : A) m :
  jlookup k (bt_insert k' v m) = if String.eqb k k' then Some v else jlookup k m.
Proof.
  induction m as [|[k2 v2] m IH]; simpl; [done|].
  destruct (String.compare k' k2) eqn:Hc; simpl.
  - apply str_cmp_eq in Hc as ->. by destruct (String.eqb k k2).
  - done.
  - rewrite IH. destruct (String.eqb_spec k k2) as [->|]; [|done].
    destruct (String.eqb_spec k2 k') as [->|]; [|done].
    by rewrite str_cmp_refl in Hc.
Qed.

Lemma bt_insert_keys {A} k (v : A) m x :
  In x (List.map fst (bt_insert k v m)) -> x = k \/ In x (List.map fst m).
Proof.
  induction m as [|[k2 v2] m IH]; simpl; [intuition congruence|].
  destruct (String.compare k k2); simpl; intuition congruence.
Qed.

Lemma bt_insert_sorted {A} k (v : A) m : keys_sorted m -> keys_sorted (bt_insert k v m).
Proof.
  unfold keys_sorted. induction m as [|[k2 v2] m IH]; simpl; intros Hs; [repeat constructor|].
  apply StronglySorted_inv in Hs as [Hs Hk2].
  destruct (String.compare k k2) eqn:Hc; simpl.
  - apply str_cmp_eq in Hc as ->. by constructor.
  - constructor; [by constructor|]. constructor; [done|].
    eapply Forall_impl; [exact Hk2|]. intros y Hy. by eapply str_lt_trans.
  - constructor; [auto|]. apply List.Forall_forall. intros y Hy.
    apply bt_insert_keys in Hy as [->|Hy]; [by apply str_cmp_gt_lt|].
    rewrite List.Forall_forall in Hk2. auto.
Qed.

(** Two sorted maps with the same lookups are the same list. *)
Lemma sorted_ext {A} (m1 m2 : list (string * A)) :
  keys_sorted m1 -> keys_sorted m2 -> (forall k, jlookup k m1 = jlookup k m2) -> m1 = m2.
Proof.
  unfold keys_sorted. revert m2.
  assert (Hlow : forall (m : list (string * A)) k,
    Forall (fun b => String.compare k b = Lt) (List.map fst m) -> jlookup k m = None).
  { induction m as [|[k' v'] m IH]; simpl; intros k Hk; [done|].
    apply Forall_cons_1 in Hk as [Hk Hm].
    destruct (String.eqb_spec k k') as [->|]; [by rewrite str_cmp_refl in Hk|auto]. }
  induction m1 as [|[k1 v1] m1 IH]; intros [|[k2 v2] m2]; simpl; intros H1 H2 H.
  - done.
  - specialize (H k2). by rewrite String.eqb_refl in H.
  - specialize (H k1). by rewrite String.eqb_refl in H.
  - apply StronglySorted_inv in H1 as [H1 L1], H2 as [H2 L2].
    destruct (String.compare k1 k2) eqn:Hc.
    + apply str_cmp_eq in Hc as ->. pose proof (H k2) as Hk.
      rewrite String.eqb_refl in Hk. injection Hk as ->. f_equal. apply IH; auto.
      intros k. specialize (H k). destruct (String.eqb_spec k k2) as [e|]; [|done].
      rewrite e. by rewrite !Hlow.
    + pose proof (H k1) as Hk. rewrite String.eqb_refl in Hk.
      destruct (String.eqb_spec k1 k2) as [->|]; [by rewrite str_cmp_refl in Hc|].
      rewrite Hlow in Hk; [done|].
      eapply Forall_impl; [exact L2|]. intros y Hy. by eapply str_lt_trans.
    + apply str_cmp_gt_lt in Hc. pose proof (H k2) as Hk. rewrite String.eqb_refl in Hk.
      destruct (String.eqb_spec k2 k1) as [->|]; [by rewrite str_cmp_refl in Hc|].
      rewrite Hlow in Hk; [done|].
      eapply Forall_impl; [exact L1|]. intros y Hy. by eapply str_lt_trans.
Qed.

(** ** Canonical form *)

Definition canon_fold (m acc : list (string * Json)) : list (string * Json) :=
  fold_left (fun sorted '(k, x) => bt_insert k (canonicalize x) sorted) m acc.

Lemma canonicalize_object m : canonicalize (JObject m) = JObject (canon_fold m []).
Proof. reflexivity. Qed.

Lemma jlookup_None {A} k (m : list (string * A)) :
  ~ In k (List.map fst m) -> jlookup k m = None.
Proof.
  induction m as [|[k' v'] m IH]; simpl; intros Hk; [done|].
  destruct (String.eqb_spec k k') as [e|]; [|auto]. rewrite e in Hk. tauto.
Qed.
Lemma jlookup_keys {A} k (m : list (string * A)) : jlookup k m = None <-> ~ In k (List.map fst m).
Proof.
  split; [|apply jlookup_None]. induction m as [|[k' v] m IH]; simpl; [tauto|].
  destruct (String.eqb_spec k k') as [->|Hne]; [done|]. intros Hm%IH [->|?]; done.
Qed.
Lemma jlookup_In {A} k (v : A) m : jlookup k m = Some v -> In (k, v) m.
Proof.
  induction m as [|[k' v'] m IH]; [done|]. simpl. destruct (String.eqb_spec k k') as [->|]; [|by auto].
  intros [= ->]. by left.
Qed.
Lemma keys_nodup_inj {A} (k : string) (v1 v2 : A) (m : list (string * A)) :
  List.NoDup (List.map fst m) -> In (k, v1) m -> In (k, v2) m -> v1 = v2.
Proof.
  induction m as [|[k' v'] m IH]; [done|]. simpl. intros Hn. inversion Hn as [|? ? Hk Hn']; subst.
  intros [He|Hi] [Hf|Hj]; [congruence| | |by apply IH]; exfalso; apply Hk.
  - injection He as -> ->. by apply (in_map fst) in Hj.
  - injection Hf as -> ->. by apply (in_map fst) in Hi.
Qed.

Lemma canon_fold_lookup m acc k :
  List.NoDup (List.map fst m) ->
  jlookup k (canon_fold m acc) =
    match jlookup k m with Some v => Some (canonicalize v) | None => jlookup k acc end.
Proof.
  revert acc. induction m as [|[k' v'] m IH]; intros acc Hnd; simpl; [done|].
  inversion_clear Hnd as [|? ? Hk Hm]. unfold canon_fold in *. simpl. rewrite IH by done.
  rewrite bt_insert_lookup. destruct (String.eqb_spec k k') as [e|]; [|done].
  rewrite e. by rewrite jlookup_None.
Qed.

Lemma canon_fold_sorted m acc : keys_sorted acc -> keys_sorted (canon_fold m acc).
Proof.
  revert acc. induction m as [|[k v] m IH]; intros acc H; simpl; [done|].
  apply IH. by apply bt_insert_sorted.
Qed.

Lemma bt_insert_Forall {A} (P : A -> Prop) k v m :
  P v -> Forall (fun kv => P kv.2) m -> Forall (fun kv => P kv.2) (bt_insert k v m).
Proof.
  intros Hv Hm. induction m as [|[k' v'] m IH]; simpl; [by repeat constructor|].
  apply Forall_cons_1 in Hm as [H1 H2].
  destruct (String.compare k k'); repeat constructor; auto.
Qed.

Lemma canonicalize_wf v : json_wf (canonicalize v).
Proof.
  induction v as [ |b|n|s|l IH|m IH] using Json_rect'; try (by constructor).
  - simpl. constructor. induction IH; simpl; constructor; auto.
  - rewrite canonicalize_object. constructor; [by apply canon_fold_sorted; constructor|].
    assert (H : forall acc, Forall (fun kv => json_wf kv.2) acc ->
                Forall (fun kv => json_wf kv.2) (canon_fold m acc)).
    { induction m as [|[k v] m IHm]; intros acc Hacc; simpl; [done|].
      apply Forall_cons_1 in IH as [IH1 IH2]. apply IHm; [done|].
      by apply bt_insert_Forall. }
    apply H. constructor.
Qed.

Lemma keys_sorted_NoDup {A} (m : list (string * A)) :
  keys_sorted m -> List.NoDup (List.map fst m).
Proof.
  unfold keys_sorted. induction (List.map fst m) as [|k l IH]; intros Hs; constructor.
  - apply StronglySorted_inv in Hs as [_ Hk]. intros Hin.
    rewrite List.Forall_forall in Hk. specialize (Hk _ Hin). by rewrite str_cmp_refl in Hk.
  - apply IH. by apply StronglySorted_inv in Hs as [Hs _].
Qed.

Lemma canonicalize_id v : json_wf v -> canonicalize v = v.
Proof.
  induction v as [ |b|n|s|l IH|m IH] using Json_rect'; intros Hwf; try done.
  - simpl. f_equal. inversion_clear Hwf as [ | | | |? Hl|].
    induction Hl; simpl; [done|]. apply Forall_cons_1 in IH as [IH1 IH2]. f_equal; auto.
  - rewrite canonicalize_object. inversion_clear Hwf as [ | | | | |? Hs Hm]. f_equal.
    apply sorted_ext; [apply canon_fold_sorted; constructor|done|].
    intros k. rewrite canon_fold_lookup by (by apply keys_sorted_NoDup). simpl.
    clear Hs. induction m as [|[k' v'] m IHm]; simpl; [done|].
    apply Forall_cons_1 in IH as [IH1 IH2], Hm as [Hm1 Hm2]; simpl in *.
    destruct (String.eqb k k'); [by rewrite IH1|by apply IHm].
Qed.

Lemma jlookup_perm {A} k (m1 m2 : list (string * A)) :
  List.NoDup (List.map fst m1) -> Permutation m1 m2 -> jlookup k m1 = jlookup k m2.
Proof.
  intros Hnd Hp. induction Hp as [|[k1 v1] m1 m2 Hp IH|[k1 v1] [k2 v2] m|m1 m2 m3 Hp1 IH1 Hp2 IH2];
    simpl in *.
  - done.
  - inversion_clear Hnd. by rewrite IH.
  - inversion_clear Hnd as [|? ? H1 _]. simpl in H1.
    destruct (String.eqb_spec k k1) as [e1|], (String.eqb_spec k k2) as [e2|]; try done.
    exfalso. apply H1. left. congruence.
  - rewrite IH1 by done. apply IH2.
    eapply Permutation_NoDup; [|exact Hnd]. by apply Permutation_map.
Qed.

(** [canonicalize] yields a canonical form: its result has sorted keys at
    every level, a value already in that form is left alone (so it is
    idempotent), and the order in which an object lists its members does not
    matter, so neither do the text and the hash computed from it. *)
Theorem canonical_json_canonical `{SerdeJson} (v : Json) (m1 m2 : list (string * Json))
  (Hnd : List.NoDup (List.map fst m1)) (Hperm : Permutation m1 m2) :
  json_wf (canonicalize v) /\ canonicalize (canonicalize v) = canonicalize v /\
  canonicalize (JObject m1) = canonicalize (JObject m2) /\
  canonical_json (JObject m1) = canonical_json (JObject m2).
Proof.
  assert (Heq : canonicalize (JObject m1) = canonicalize (JObject m2)).
  { rewrite !canonicalize_object. f_equal.
    apply sorted_ext; [apply canon_fold_sorted; constructor..|]. intros k.
    rewrite !canon_fold_lookup; [by rewrite (jlookup_perm k m1 m2)| |done].
    eapply Permutation_NoDup; [|exact Hnd]. by apply Permutation_map. }
  split; [apply canonicalize_wf|]. split; [apply canonicalize_id, canonicalize_wf|].
  split; [done|]. unfold canonical_json. by rewrite Heq.
Qed.

(** A concrete printer for witnesses: enough JSON to print integers, strings
    without escapes, arrays and objects. *)
Fixpoint demo_print (v : Json) : string :=
  match v with
  | JNull => "null"
  | JBool b => if b then "true" else "false"
  | JNumber (PosInt n) | JNumber (NegInt n) => show_Z n
  | JNumber (Float _) => "0.0"
  | JString s => "'" +:+ s +:+ "'"
  | JArray l => "[" +:+ join "," (List.map demo_print l) +:+ "]"
  | JObject m => "{" +:+ join "," (List.map (fun '(k, x) => "'" +:+ k +:+ "':" +:+ demo_print x) m) +:+ "}"
  end.
Definition demo_serde : SerdeJson := Build_SerdeJson (fun _ => None) demo_print.

Lemma canonical_json_canonical_witness :
  let m1 := [("b", JNumber (PosInt 2)); ("a", JObject [("y", JNull); ("x", JBool true)])] in
  let m2 := [("a", JObject [("y", JNull); ("x", JBool true)]); ("b", JNumber (PosInt 2))] in
  @canonical_json demo_serde (JObject m1) = "{'a':{'x':true,'y':null},'b':2}" /\
  @canonical_json demo_serde (JObject m1) = @canonical_json demo_serde (JObject m2).
Proof.
  split; [vm_compute; reflexivity|].
  apply (@canonical_json_canonical demo_serde JNull).
  - repeat constructor; simpl; intuition discriminate.
  - apply perm_swap.
Defined.

(** ** What serde's derived readers do with a value

    A struct that derives [Deserialize] reads its fields from an object or, in order,
    from an array; a variant without data is a text.  The derived code is that of
    every struct of the wire; each decoder of the development lists the fields of
    its struct.  An object with a key twice, which serde_json refuses here and
    merges in a [Value], does not occur: values are read as [Value]s first. *)

(** The fields of a struct: their names, and whether they have a default. *)
Fixpoint positional (names : list (string * bool)) (l : list Json) : option (list (option Json)) :=
  match names, l with
  | [], [] => Some []
  | [], _ :: _ => None
  | _ :: names', v :: l' => fs ← positional names' l'; Some (Some v :: fs)
  | (_, has_default) :: names', [] =>
      if has_default : bool then fs ← positional names' []; Some (None :: fs) else None
  end.
Definition struct_fields (names : list (string * bool)) (v : Json) : option (list (option Json)) :=
  match v with
  | JObject m => Some (List.map (fun n => jlookup n.1 m) names)
  | JArray l => positional names l
  | _ => None
  end.

(** A field that must be there, and one that may be absent or null. *)
Definition de {A} (f : Json -> option A) (v : option Json) : option A := v ≫= f.
Definition de_option {A} (f : Json -> option A) (v : option Json) : option (option A) :=
  match v with
  | None | Some JNull => Some None
  | Some v => Some <$> f v
  end.
(** [#[serde(default)]] on a type without [Option]. *)
Definition de_default {A} (d : A) (f : Json -> option A) (v : option Json) : option A :=
  match v with None => Some d | Some v => f v end.
Definition de_vec {A} (f : Json -> option A) (v : Json) : option (list A) :=
  l ← as_array v; mapM f l.

(** A variant without data is its name, or an object from its name to null. *)
Definition unit_variant (v : Json) : option string :=
  match v with JString s => Some s | JObject [(k, JNull)] => Some k | _ => None end.
