(* ===== verification/Compat.v ===== *)
(** * Schema compatibility ([actant-contracts/src/bin/cli.rs])

    [check-compat] walks a baseline of JSON schemas beside the current ones and
    lists what breaks.  The debug print of a string and the text of a JSON value
    are the standard library's and serde_json's. *)

From Stdlib Require Import SpecFloat.
From S2P Require Import Prelude Str Json.
#[local] Open Scope string_scope.
#[local] Open Scope list_scope.

(** A [BTreeSet] of strings, by its elements in order. *)
Definition bt_set (l : list string) : list string :=
  List.map fst (fold_left (fun m s => bt_insert s tt m) l []).
Definition mem (s : string) (l : list string) : bool := List.existsb (String.eqb s) l.

Definition as_object (v : Json) : option (list (string * Json)) :=
  match v with JObject m => Some m | _ => None end.

(** [Value::get(key).and_then(Value::as_object)]. *)
Definition object_at (k : string) (v : Json) : option (list (string * Json)) := x ← jget k v; as_object x.
Definition array_at (k : string) (v : Json) : option (list Json) := x ← jget k v; as_array x.

(** The levels of nesting of a value. *)
Fixpoint depth (v : Json) : nat :=
  match v with
  | JArray l => S (list_max (List.map depth l))
  | JObject m => S (list_max (List.map (fun kv => depth kv.2) m))
  | _ => 0
  end.

(** [debug_string] is [format!("{:?}")] of a string. *)
Class DebugString := debug_string : string -> string.

(** [collect_string_enum]: every variant is [{type: "string", enum: ["v"]}]. *)
Fixpoint collect_string_enum (variants : list Json) : option (list string) :=
  match variants with
  | [] => Some []
  | v :: rest =>
      enums ← array_at "enum" v;
      match enums with
      | [one] =>
          if bool_decide ((t ← jget "type" v; as_str t) = Some "string")
          then s ← as_str one; out ← collect_string_enum rest; Some (s :: out)
          else None
      | _ => None
      end
  end.

Definition string_one_of_values (schema : Json) : option (list string) :=
  variants ← array_at "oneOf" schema;
  values ← collect_string_enum variants;
  Some (bt_set values).
Definition string_array_set (value : option Json) : list string :=
  bt_set (match v ← value; as_array v with Some l => omap as_str l | None => [] end).

Section compat.
Context `{SerdeJson} `{DebugString}.

Definition compare_scalar_field (path : string) (baseline current : Json) (field : string) : list string :=
  match jget field baseline with
  | None => []
  | Some base_value =>
      match jget field current with
      | Some cur_value =>
          if json_eqb cur_value base_value then []
          else [path +:+ "." +:+ field +:+ ": changed from " +:+ to_string base_value +:+ " to " +:+ to_string cur_value]
      | None => [path +:+ "." +:+ field +:+ ": removed"]
      end
  end.

Definition compare_enum (path : string) (baseline current : Json) (field : string) : list string :=
  match array_at field baseline with
  | None => []
  | Some base_values =>
      match array_at field current with
      | None => [path +:+ "." +:+ field +:+ ": enum removed"]
      | Some cur_values =>
          let cur_set := bt_set (List.map to_string cur_values) in
          List.map (fun v => path +:+ "." +:+ field +:+ ": enum value " +:+ to_string v +:+ " removed")
            (List.filter (fun v => negb (mem (to_string v) cur_set)) base_values)
      end
  end.

Definition compare_string_one_of (path : string) (baseline current : Json) : list string :=
  match string_one_of_values baseline with
  | None => []
  | Some base_values =>
      match string_one_of_values current with
      | None => [path +:+ ".oneOf: string enum union removed"]
      | Some cur_values =>
          List.map (fun v => path +:+ ".oneOf: variant " +:+ debug_string v +:+ " removed")
            (List.filter (fun v => negb (mem v cur_values)) base_values)
      end
  end.

Definition compare_required (path : string) (baseline current : Json) : list string :=
  let base_required := string_array_set (jget "required" baseline) in
  let cur_required := string_array_set (jget "required" current) in
  List.map (fun f => path +:+ ".required: field " +:+ debug_string f +:+ " no longer required")
    (List.filter (fun f => negb (mem f cur_required)) base_required)
  ++ List.map (fun f => path +:+ ".required: new required field " +:+ debug_string f)
    (List.filter (fun f => negb (mem f base_required)) cur_required).

(** Every member of [base] against its namesake in [cur]; [gone] is what a missing
    one is reported as. *)
Definition compare_members (rec : string -> Json -> Json -> list string) (prefix gone : string)
    (base cur : list (string * Json)) : list string :=
  List.concat (List.map (fun '(name, b) =>
    match jlookup name cur with
    | Some c => rec (prefix +:+ "." +:+ name) b c
    | None => [prefix +:+ "." +:+ name +:+ gone]
    end) base).

Definition compare_definitions (rec : string -> Json -> Json -> list string) (path : string)
    (baseline current : Json) : list string :=
  List.concat (List.map (fun key =>
    match object_at key baseline with
    | None => []
    | Some base_defs =>
        match object_at key current with
        | None => [path +:+ "." +:+ key +:+ ": definitions removed"]
        | Some cur_defs => compare_members rec (path +:+ "." +:+ key) ": definition removed" base_defs cur_defs
        end
    end) ["definitions"; "$defs"]).

(** [compare_schema_value], with fuel for the nesting of the baseline. *)
Fixpoint compare_schema_value (fuel : nat) (path : string) (baseline current : Json) : list string :=
  match fuel with
  | O => []
  | S fuel' =>
      match as_object baseline with
      | None => []
      | Some base_obj =>
          match as_object current with
          | None => [path +:+ ": schema changed from object to non-object"]
          | Some cur_obj =>
              if String.eqb path "$"
              then compare_members (compare_schema_value fuel') path ": type removed" base_obj cur_obj
              else
                compare_scalar_field path baseline current "type"
                ++ compare_scalar_field path baseline current "$ref"
                ++ compare_enum path baseline current "enum"
                ++ compare_string_one_of path baseline current
                ++ match object_at "properties" baseline with
                   | Some base_props =>
                       match object_at "properties" current with
                       | None => [path +:+ ".properties: object properties removed"]
                       | Some cur_props =>
                           compare_members (compare_schema_value fuel') (path +:+ ".properties") ": property removed"
                             base_props cur_props
                           ++ compare_required path baseline current
                           ++ compare_definitions (compare_schema_value fuel') path baseline current
                       end
                   | None => compare_definitions (compare_schema_value fuel') path baseline current
                   end
          end
      end
  end.

(** Enough fuel for the baseline. *)
Definition compatibility_violations (baseline current : Json) : list string :=
  compare_schema_value (S (depth baseline)) "$" baseline current.

(** [cmd_check_compat], given what reading the baseline gave. *)
Definition cmd_check_compat (current : Json) (baseline_path : string) (read_baseline : result string Json) :
    result string unit :=
  match current with
  | JObject [] => Err "no schemas defined"
  | JObject _ =>
      baseline ← read_baseline;
      match compatibility_violations baseline current with
      | [] => Ok tt
      | violations => Err ("schema compatibility check failed against " +:+ baseline_path +:+ ":" +:+ String "010"%char ""
                           +:+ join (String "010"%char "") violations)
      end
  | _ => Err "schemas() must emit a JSON object"
  end.
End compat.

(** ** What the check decides *)

Definition keeps_field (f : string) (b c : Json) : Prop :=
  forall x, jget f b = Some x -> exists y, jget f c = Some y /\ json_eqb y x = true.
Definition keeps_enum `{SerdeJson} (b c : Json) : Prop :=
  forall xs, array_at "enum" b = Some xs -> exists ys, array_at "enum" c = Some ys /\
    forall x, In x xs -> In (to_string x) (List.map to_string ys).
Definition keeps_variants (b c : Json) : Prop :=
  forall xs, string_one_of_values b = Some xs -> exists ys, string_one_of_values c = Some ys /\ incl xs ys.
Definition keeps_required (b c : Json) : Prop :=
  forall f, In f (string_array_set (jget "required" b)) <-> In f (string_array_set (jget "required" c)).
Definition members_in (R : Json -> Json -> Prop) (bs cs : list (string * Json)) : Prop :=
  forall name x, In (name, x) bs -> exists y, jlookup name cs = Some y /\ R x y.

#[local] Set Warnings "-register-all".

(** Nothing a reader of [b] relies on is gone from [c]. *)
Inductive compatible `{SerdeJson} : Json -> Json -> Prop :=
| compatible_any b c : as_object b = None -> compatible b c
| compatible_object bm cm :
    let b := JObject bm in let c := JObject cm in
    keeps_field "type" b c -> keeps_field "$ref" b c -> keeps_enum b c -> keeps_variants b c ->
    (forall ps, object_at "properties" b = Some ps ->
       exists qs, object_at "properties" c = Some qs /\ members_in compatible ps qs /\ keeps_required b c) ->
    (forall key ds, In key ["definitions"; "$defs"] -> object_at key b = Some ds ->
       exists es, object_at key c = Some es /\ members_in compatible ds es) ->
    compatible b c.
(** A bundle: every type of the old one is in the new one, compatible. *)
Definition compatible_bundle `{SerdeJson} (b c : Json) : Prop :=
  match b with
  | JObject bm => exists cm, c = JObject cm /\ members_in compatible bm cm
  | _ => True
  end.

Lemma bt_set_in s l : In s (bt_set l) <-> In s l.
Proof.
  unfold bt_set.
  assert (Hg : forall l (m : list (string * unit)), In s (List.map fst (fold_left (fun m s => bt_insert s tt m) l m))
    <-> In s (List.map fst m) \/ In s l).
  { clear l. induction l as [|x l IH]; intros m; simpl; [tauto|]. rewrite IH.
    assert (Hi : In s (List.map fst (bt_insert x tt m)) <-> x = s \/ In s (List.map fst m)).
    { induction m as [|[k u] m IHm]; simpl; [tauto|]. destruct (String.compare x k) eqn:Hc; simpl.
      - apply str_cmp_eq in Hc as ->. tauto.
      - tauto.
      - rewrite IHm. tauto. }
    rewrite Hi. tauto. }
  rewrite Hg. simpl. tauto.
Qed.
Lemma mem_in s l : mem s l = true <-> In s l.
Proof.
  unfold mem. rewrite List.existsb_exists. split.
  - intros (x & Hx & ->%String.eqb_eq). done.
  - intros Hs. exists s. by rewrite String.eqb_refl.
Qed.

Lemma concat_nil {A B} (f : A -> list B) l : List.concat (List.map f l) = [] <-> forall x, In x l -> f x = [].
Proof.
  induction l as [|a l IH]; simpl; [naive_solver|]. split.
  - intros [Ha Hl]%List.app_eq_nil x [<-|Hx]; [done|]. by apply IH.
  - intros Hf. rewrite (Hf a) by (by left). apply IH. auto.
Qed.
Lemma missing_nil {A B} (f : B -> A) (keep : B -> bool) l :
  List.map f (List.filter (fun x => negb (keep x)) l) = [] <-> forall x, In x l -> keep x = true.
Proof.
  induction l as [|a l IH]; simpl; [naive_solver|]. destruct (keep a) eqn:Ha; simpl.
  - rewrite IH. naive_solver.
  - split; [done|]. intros Hk. specialize (Hk a (or_introl eq_refl)). congruence.
Qed.

Lemma member_depth name x m : In (name, x) m -> (depth x < depth (JObject m))%nat.
Proof.
  intros Hx. assert (Hz : (depth x <= list_max (List.map (fun kv => depth kv.2) m))%nat); [|simpl; lia].
  induction m as [|[k z] m IH]; [done|]. cbn [List.map list_max fold_right].
  destruct Hx as [[= -> ->]|Hx]; [simpl; lia|]. apply IH in Hx. etrans; [exact Hx|]. unfold list_max. lia.
Qed.
Lemma object_at_depth k v m n : object_at k v = Some m -> (depth v < S n)%nat ->
  forall name x, In (name, x) m -> (S (depth x) < n)%nat.
Proof.
  unfold object_at, jget. destruct v as [ | | | | |vm]; try done. simpl.
  destruct (jlookup k vm) as [y|] eqn:Hl; [|done]. simpl. destruct y as [ | | | | |ym]; try done.
  intros [= <-] Hd name x Hx.
  apply jlookup_In, member_depth in Hl. apply member_depth in Hx. cbn [depth] in *. lia.
Qed.

Section spec.
Context `{SerdeJson} `{DebugString}.

Lemma scalar_nil path b c f : compare_scalar_field path b c f = [] <-> keeps_field f b c.
Proof.
  unfold compare_scalar_field, keeps_field. destruct (jget f b) as [x|]; [|by split].
  destruct (jget f c) as [y|].
  - destruct (json_eqb y x) eqn:He.
    + split; [|done]. intros _ ? [= <-]. by exists y.
    + split; [done|]. intros Hk. destruct (Hk x eq_refl) as (? & [= <-] & ?). congruence.
  - split; [done|]. intros Hk. by destruct (Hk x eq_refl) as (? & ? & _).
Qed.
Lemma enum_nil path b c : compare_enum path b c "enum" = [] <-> keeps_enum b c.
Proof.
  unfold compare_enum, keeps_enum. destruct (array_at "enum" b) as [xs|]; [|by split].
  destruct (array_at "enum" c) as [ys|]; [|split; [done|]; intros Hk; by destruct (Hk xs eq_refl) as (? & ? & _)].
  rewrite missing_nil. setoid_rewrite mem_in. setoid_rewrite bt_set_in. split.
  - intros Hk ? [= <-]. by exists ys.
  - intros Hk x Hx. destruct (Hk xs eq_refl) as (? & [= <-] & Hin). by apply Hin.
Qed.
Lemma variants_nil path b c : compare_string_one_of path b c = [] <-> keeps_variants b c.
Proof.
  unfold compare_string_one_of, keeps_variants. destruct (string_one_of_values b) as [xs|]; [|by split].
  destruct (string_one_of_values c) as [ys|]; [|split; [done|]; intros Hk; by destruct (Hk xs eq_refl) as (? & ? & _)].
  rewrite missing_nil. setoid_rewrite mem_in. split.
  - intros Hk ? [= <-]. by exists ys.
  - intros Hk x Hx. destruct (Hk xs eq_refl) as (? & [= <-] & Hin). by apply Hin.
Qed.
Lemma required_nil path b c : compare_required path b c = [] <-> keeps_required b c.
Proof.
  unfold compare_required, keeps_required. rewrite app_nil, !missing_nil. setoid_rewrite mem_in. naive_solver.
Qed.
Lemma members_nil rec prefix gone bs cs (R : Json -> Json -> Prop) :
  (forall name x y, In (name, x) bs -> rec (prefix +:+ "." +:+ name) x y = [] <-> R x y) ->
  compare_members rec prefix gone bs cs = [] <-> members_in R bs cs.
Proof.
  intros Hr. unfold compare_members, members_in. rewrite concat_nil. split.
  - intros Hk name x Hin. specialize (Hk _ Hin). simpl in Hk. destruct (jlookup name cs) as [y|]; [|done].
    exists y. split; [done|]. by eapply Hr.
  - intros Hk [name x] Hin. destruct (Hk _ _ Hin) as (y & -> & Hy). by eapply Hr.
Qed.

Lemma dotted_not_root prefix name : String.eqb (prefix +:+ "." +:+ name) "$" = false.
Proof. destruct prefix as [|a [|b prefix]]; [done| |]; simpl; by destruct (Ascii.eqb a "$"%char). Qed.

Lemma compatible_objects bm cm :
  let b := JObject bm in let c := JObject cm in
  compatible b c <->
  keeps_field "type" b c /\ keeps_field "$ref" b c /\ keeps_enum b c /\ keeps_variants b c /\
  (forall ps, object_at "properties" b = Some ps ->
     exists qs, object_at "properties" c = Some qs /\ members_in compatible ps qs /\ keeps_required b c) /\
  (forall key ds, In key ["definitions"; "$defs"] -> object_at key b = Some ds ->
     exists es, object_at key c = Some es /\ members_in compatible ds es).
Proof.
  split.
  - intros Hc. inversion Hc; subst; [done|]. tauto.
  - intros (? & ? & ? & ? & ? & ?). by apply compatible_object.
Qed.

(** The walk below the root reports nothing exactly when the schemas are compatible. *)
Lemma compare_nil n path b c :
  (depth b < n)%nat -> String.eqb path "$" = false -> compare_schema_value n path b c = [] <-> compatible b c.
Proof.
  revert path b c. induction n as [|n IH]; intros path b c Hd Hp; [lia|]. cbn [compare_schema_value].
  destruct b as [ | | | | |bm]; cbn [as_object]; try (split; [intros _; by apply compatible_any|done]).
  destruct c as [ | | | | |cm]; cbn [as_object]; try (split; [done|]; intros Hc; inversion Hc as [? ? Hn|]; by subst).
  rewrite Hp, compatible_objects, !app_nil, !scalar_nil, enum_nil, variants_nil.
  set (b := JObject bm) in *. set (c := JObject cm).
  assert (Hm : forall key ds es prefix gone, object_at key b = Some ds ->
    compare_members (compare_schema_value n) prefix gone ds es = [] <-> members_in compatible ds es).
  { intros key ds es prefix gone Ho. apply members_nil. intros name x y Hin. apply IH; [|apply dotted_not_root].
    pose proof (object_at_depth key b ds n Ho Hd name x Hin). lia. }
  assert (Hdef : compare_definitions (compare_schema_value n) path b c = [] <->
    forall key ds, In key ["definitions"; "$defs"] -> object_at key b = Some ds ->
      exists es, object_at key c = Some es /\ members_in compatible ds es).
  { unfold compare_definitions. rewrite concat_nil. split.
    - intros Hk key ds Hin Ho. specialize (Hk key Hin). rewrite Ho in Hk. destruct (object_at key c) as [es|]; [|done].
      exists es. split; [done|]. by eapply Hm.
    - intros Hk key Hin. destruct (object_at key b) as [ds|] eqn:Ho; [|done].
      destruct (Hk key ds Hin Ho) as (es & -> & Hes). by eapply Hm. }
  destruct (object_at "properties" b) as [ps|] eqn:Hps; [|rewrite Hdef; naive_solver].
  destruct (object_at "properties" c) as [qs|] eqn:Hqs; [|naive_solver].
  rewrite !app_nil, Hdef, required_nil, (Hm "properties") by done. naive_solver.
Qed.

(** More fuel changes nothing. *)
Lemma compare_fuel n m path b c :
  (depth b < n)%nat -> (depth b < m)%nat -> compare_schema_value n path b c = compare_schema_value m path b c.
Proof.
  revert m path b c. induction n as [|n IH]; intros [|m] path b c Hn Hm; try lia. cbn [compare_schema_value].
  destruct b as [ | | | | |bm]; try done. destruct c as [ | | | | |cm]; try done. cbn [as_object].
  assert (Hmem : forall ds es prefix gone, (forall name x, In (name, x) ds -> (depth x < n /\ depth x < m)%nat) ->
    compare_members (compare_schema_value n) prefix gone ds es = compare_members (compare_schema_value m) prefix gone ds es).
  { intros ds es prefix gone Hd. unfold compare_members. f_equal. apply map_ext_in. intros [name x] Hx.
    destruct (Hd name x Hx). destruct (jlookup name es); [by apply IH|done]. }
  assert (Hat : forall key ds, object_at key (JObject bm) = Some ds ->
    forall name x, In (name, x) ds -> (depth x < n /\ depth x < m)%nat).
  { intros key ds Ho name x Hx. pose proof (object_at_depth key _ ds n Ho Hn name x Hx).
    pose proof (object_at_depth key _ ds m Ho Hm name x Hx). lia. }
  assert (Hdef : compare_definitions (compare_schema_value n) path (JObject bm) (JObject cm)
    = compare_definitions (compare_schema_value m) path (JObject bm) (JObject cm)).
  { unfold compare_definitions. f_equal. apply map_ext_in. intros key _.
    destruct (object_at key (JObject bm)) eqn:Ho; [|done]. destruct (object_at key (JObject cm)); [|done].
    by eapply Hmem, Hat. }
  rewrite Hdef. rewrite (Hmem bm) by (intros name x Hx%member_depth; lia).
  destruct (object_at "properties" (JObject bm)) eqn:Ho; [|done].
  destruct (object_at "properties" (JObject cm)); [|done]. by rewrite (Hmem l) by by eapply Hat.
Qed.

(** C37: The check of a bundle reports nothing exactly when every type of the
    baseline is still there and compatible: at every level reached through
    properties and definitions, types and references are the same, no enum value
    or variant is gone, no property or definition is gone, and the same properties
    are required. *)
Theorem compat_check_spec (baseline current : Json) :
  compatibility_violations baseline current = [] <-> compatible_bundle baseline current.
Proof.
  unfold compatibility_violations, compatible_bundle. cbn [compare_schema_value].
  destruct baseline as [ | | | | |bm]; cbn [as_object]; try by split.
  destruct current as [ | | | | |cm]; cbn [as_object]; try (split; [done|]; by intros (? & ? & _)).
  rewrite String.eqb_refl, (members_nil _ _ _ _ _ compatible); [naive_solver|].
  intros name x y Hin. apply compare_nil; [|apply dotted_not_root]. by apply member_depth in Hin.
Qed.

(** ** Checks in a row *)

Lemma f64_eqb_spec x y : f64_eqb x y = true ->
  (exists s t, x = S754_zero s /\ y = S754_zero t) \/ (x = y /\ x <> S754_nan).
Proof.
  unfold f64_eqb, SFeqb. destruct x as [s|s| |s m e], y as [t|t| |t m' e']; simpl; try (by destruct s, t);
    try (by destruct s); try (by destruct t); try done.
  - intros _. left. eauto.
  - destruct s, t; try done; right; done.
  - destruct s, t; try done; destruct (Z.compare_spec e e') as [->|?|?]; try done;
      destruct (Pos.compare_cont Eq m m') eqn:Hm; try done; intros _; right;
      apply Pos.compare_eq in Hm as ->; done.
Qed.
Lemma f64_eqb_trans x y z : f64_eqb x y = true -> f64_eqb y z = true -> f64_eqb x z = true.
Proof.
  intros Hxy Hyz. destruct (f64_eqb_spec _ _ Hxy) as [(s & t & -> & ->)|[-> _]]; [|done].
  destruct (f64_eqb_spec _ _ Hyz) as [(? & u & _ & ->)|[<- _]]; [|done]. by destruct s, u.
Qed.
Lemma num_eqb_trans a b c : num_eqb a b = true -> num_eqb b c = true -> num_eqb a c = true.
Proof.
  destruct a, b, c; simpl; try done.
  - by intros ->%Z.eqb_eq.
  - by intros ->%Z.eqb_eq.
  - apply f64_eqb_trans.
Qed.

Lemma json_eqb_trans a : forall b c, json_eqb a b = true -> json_eqb b c = true -> json_eqb a c = true.
Proof.
  induction a as [ |x|x|x|l IH|m IH] using Json_rect'; intros [ |y|y|y|l'|m'] [ |z|z|z|l''|m'']; simpl; try done.
  - by intros ->%eqb_prop.
  - apply num_eqb_trans.
  - by intros ->%String.eqb_eq.
  - revert l' l''. induction l as [|u l IHl]; intros [|v l'] [|w l'']; simpl; try done.
    apply Forall_cons in IH as [Hu IH]. intros [Huv Hl]%andb_prop [Hvw Hl']%andb_prop. apply andb_true_intro.
    split; [by eapply Hu|]. by eapply IHl.
  - revert m' m''. induction m as [|[k u] m IHm]; intros [|[k' v] m'] [|[k'' w] m'']; simpl; try done.
    apply Forall_cons in IH as [Hu IH].
    intros [[->%String.eqb_eq Huv]%andb_prop Hl]%andb_prop [[->%String.eqb_eq Hvw]%andb_prop Hl']%andb_prop.
    simpl in Hu. rewrite String.eqb_refl, (Hu _ _ Huv Hvw). simpl. by eapply IHm.
Qed.

Lemma keeps_field_trans f a b c : keeps_field f a b -> keeps_field f b c -> keeps_field f a c.
Proof.
  intros Hab Hbc x Hx. destruct (Hab x Hx) as (y & Hy & He). destruct (Hbc y Hy) as (z & Hz & He2).
  exists z. split; [done|]. by eapply json_eqb_trans.
Qed.
Lemma keeps_enum_trans a b c : keeps_enum a b -> keeps_enum b c -> keeps_enum a c.
Proof.
  intros Hab Hbc xs Hx. destruct (Hab xs Hx) as (ys & Hy & Hin). destruct (Hbc ys Hy) as (zs & Hz & Hin2).
  exists zs. split; [done|]. intros x Hxs. specialize (Hin x Hxs). apply in_map_iff in Hin as (y & He & Hys).
  specialize (Hin2 y Hys). by rewrite <- He.
Qed.
Lemma keeps_variants_trans a b c : keeps_variants a b -> keeps_variants b c -> keeps_variants a c.
Proof.
  intros Hab Hbc xs Hx. destruct (Hab xs Hx) as (ys & Hy & Hin). destruct (Hbc ys Hy) as (zs & Hz & Hin2).
  exists zs. split; [done|]. by eapply incl_tran.
Qed.

Lemma members_in_trans (R : Json -> Json -> Prop) n a b c :
  (forall x y z, (depth x < n)%nat -> R x y -> R y z -> R x z) ->
  (forall name x, In (name, x) a -> (depth x < n)%nat) ->
  members_in R a b -> members_in R b c -> members_in R a c.
Proof.
  intros Ht Hd Hab Hbc name x Hx. destruct (Hab name x Hx) as (y & Hy & Hxy). apply jlookup_In in Hy.
  destruct (Hbc name y Hy) as (z & Hz & Hyz). exists z. split; [done|]. by eapply Ht; [eapply Hd|..].
Qed.

Lemma compatible_trans_at n a b c : (depth a < n)%nat -> compatible a b -> compatible b c -> compatible a c.
Proof.
  revert a b c. induction n as [|n IH]; intros a b c Hd Hab Hbc; [lia|].
  destruct a as [ | | | | |am]; try by apply compatible_any.
  destruct b as [ | | | | |bm]; try by inversion Hab. destruct c as [ | | | | |cm]; try by inversion Hbc.
  apply compatible_objects in Hab as (Ht & Hr & He & Hv & Hp & Hdf), Hbc as (Ht2 & Hr2 & He2 & Hv2 & Hp2 & Hdf2).
  assert (Hmem : forall key xs ys zs, object_at key (JObject am) = Some xs ->
    members_in compatible xs ys -> members_in compatible ys zs -> members_in compatible xs zs).
  { intros key xs ys zs Ho. apply (members_in_trans compatible n); [by apply IH|].
    intros name x Hx. pose proof (object_at_depth _ _ _ n Ho Hd name x Hx). lia. }
  apply compatible_objects. split; [by eapply keeps_field_trans|]. split; [by eapply keeps_field_trans|].
  split; [by eapply keeps_enum_trans|]. split; [by eapply keeps_variants_trans|]. split.
  - intros ps Hps. destruct (Hp ps Hps) as (qs & Hqs & Hm & Hrq). destruct (Hp2 qs Hqs) as (rs & Hrs & Hm2 & Hrq2).
    exists rs. split; [done|]. split; [by eapply Hmem|]. intros f. by rewrite (Hrq f).
  - intros key ds Hk Ho. destruct (Hdf key ds Hk Ho) as (es & Hes & Hm).
    destruct (Hdf2 key es Hk Hes) as (fs & Hfs & Hm2). exists fs. split; [done|]. by eapply Hmem.
Qed.

(** Checks compose: when a bundle passes against a baseline and a third one
    passes against it, the third passes against the baseline. *)
Theorem compat_checks_compose (a b c : Json) :
  compatibility_violations a b = [] -> compatibility_violations b c = [] -> compatibility_violations a c = [].
Proof.
  rewrite !compat_check_spec. unfold compatible_bundle. destruct a as [ | | | | |am]; try done.
  intros (bm & -> & Hab) (cm & -> & Hbc). exists cm. split; [done|].
  eapply (members_in_trans compatible (depth (JObject am))); [| |exact Hab|exact Hbc].
  - intros x y z. apply compatible_trans_at.
  - intros name x Hx. by apply member_depth in Hx.
Qed.
End spec.
