(* ===== verification/TsEmit.v ===== *)
(** * TypeScript from JSON schemas ([actant-contracts/src/bin/cli.rs])

    [codegen-ts] writes one declaration per type of the bundle and per definition a
    type brings along.  Reading and writing files around it is not modelled. *)

From S2P Require Import Prelude Str Json Compat.
#[local] Open Scope string_scope.
#[local] Open Scope list_scope.

Definition quote : Ascii.ascii := "034"%char.
Definition newline : Ascii.ascii := "010"%char.
Definition nl : string := String newline "".
Definition quoted (s : string) : string := String quote (s +:+ String quote "").

(** [sort] and [dedup] on texts. *)
Definition str_le (a b : string) : Prop := cmp_le (cmp:=String.compare) a b = true.
#[global] Instance str_le_dec a b : Decision (str_le a b).
Proof. unfold str_le. apply _. Defined.
Fixpoint dedup (l : list string) : list string :=
  match l with
  | a :: (b :: _ as l') => if String.eqb a b then dedup l' else a :: dedup l'
  | _ => l
  end.
(** [replace('\n', "\n    ")]. *)
Fixpoint indent (s : string) : string :=
  match s with
  | EmptyString => ""
  | String c s' => if Ascii.eqb c newline then nl +:+ "    " +:+ indent s' else String c (indent s')
  end.

Fixpoint collect {A B} (f : A -> result string B) (l : list A) : result string (list B) :=
  match l with
  | [] => Ok []
  | a :: l' => b ← f a; bs ← collect f l'; mret (b :: bs)
  end.

Section emit.
Context `{SerdeJson}.

(** The names of the types a schema may take: an entry of [type: [...]], and an
    entry of [enum: [...]]. *)
Definition type_name (v : Json) : string :=
  match as_str v with
  | Some t =>
      if String.eqb t "null" then "null"
      else if String.eqb t "string" then "string"
      else if String.eqb t "integer" || String.eqb t "number" then "number"
      else if String.eqb t "boolean" then "boolean"
      else if String.eqb t "array" then "Array<unknown>"
      else if String.eqb t "object" then "Record<string, unknown>"
      else "unknown"
  | None => "unknown"
  end.
Definition literal (v : Json) : string :=
  match v with
  | JString s => quoted s
  | JBool b => if b then "true" else "false"
  | JNumber n => to_string (JNumber n)
  | JNull => "null"
  | _ => "unknown"
  end.

Definition union_key (schema : Json) : option (list Json) :=
  match array_at "anyOf" schema with Some a => Some a | None => array_at "oneOf" schema end.
Definition ref_name (schema : Json) : option string :=
  r ← jget "$ref" schema; s ← as_str r; strip_prefix "#/definitions/" s.
Definition wrapped (schema : Json) : option Json :=
  match array_at "allOf" schema with Some [one] => Some one | _ => None end.

(** [ts_type], with fuel for the nesting of the schema. *)
Fixpoint ts_type (fuel : nat) (schema : Json) : result string string :=
  match fuel with
  | O => Ok "unknown"
  | S fuel' =>
      match wrapped schema with
      | Some one => ts_type fuel' one
      | None =>
          match ref_name schema with
          | Some name => Ok name
          | None =>
              match union_key schema with
              | Some arr =>
                  match collect_string_enum arr with
                  | Some vals => Ok (join " | " (List.map quoted vals))
                  | None => parts ← collect (ts_type fuel') arr;
                            mret (join " | " (dedup (merge_sort str_le parts)))
                  end
              | None =>
                  match array_at "enum" schema with
                  | Some enums => Ok (join " | " (List.map literal enums))
                  | None =>
                      match jget "type" schema with
                      | Some (JString t) =>
                          if String.eqb t "array" then
                            items ← match jget "items" schema with
                                    | Some i => ts_type fuel' i
                                    | None => Ok "unknown"
                                    end;
                            mret ("Array<" +:+ items +:+ ">")
                          else Ok (type_name (JString t))
                      | Some (JArray arr) => Ok (join " | " (List.map type_name arr))
                      | _ => Ok "unknown"
                      end
                  end
              end
          end
      end
  end.
Definition ts_type_of (schema : Json) : result string string := ts_type (S (depth schema)) schema.

(** ** Objects *)

Definition properties (schema : Json) : list (string * Json) := default [] (object_at "properties" schema).
Definition required (schema : Json) : list string :=
  match array_at "required" schema with Some a => omap as_str a | None => [] end.
(** Required properties before the others, and by name. *)
Definition property_cmp (req : list string) (a b : string) : comparison :=
  match mem a req, mem b req with
  | true, false => Lt
  | false, true => Gt
  | _, _ => String.compare a b
  end.
Definition property_le (req : list string) (a b : string) : Prop :=
  match property_cmp req a b with Gt => False | _ => True end.
#[global] Instance property_le_dec req a b : Decision (property_le req a b).
Proof. unfold property_le. destruct (property_cmp req a b); apply _. Defined.
Definition property_names (schema : Json) : list string :=
  merge_sort (property_le (required schema)) (List.map fst (properties schema)).

Definition property_line (schema : Json) (name : string) : result string string :=
  ty ← ts_type_of (default JNull (jlookup name (properties schema)));
  mret ("  " +:+ name +:+ (if mem name (required schema) then "" else "?") +:+ ": " +:+ ty +:+ ";" +:+ nl).
Definition object_body (schema : Json) : result string string :=
  lines ← collect (property_line schema) (property_names schema);
  mret ("{" +:+ nl +:+ String.concat "" lines +:+ "}").
Definition tagged_union (variants : list Json) : result string string :=
  parts ← collect (fun v => body ← object_body v; mret (indent ("  | " +:+ body))) variants;
  mret (join nl parts).

(** ** Declarations *)

Definition declaration (name : string) (schema : Json) : result string string :=
  match array_at "oneOf" schema with
  | Some one_of =>
      match collect_string_enum one_of with
      | Some vals => Ok ("export type " +:+ name +:+ " = " +:+ join " | " (List.map quoted vals) +:+ ";")
      | None => union ← tagged_union one_of; mret ("export type " +:+ name +:+ " =" +:+ nl +:+ union +:+ ";")
      end
  | None =>
      match array_at "enum" schema with
      | Some enums =>
          Ok ("export type " +:+ name +:+ " = " +:+ join " | " (List.map quoted (omap as_str enums)) +:+ ";")
      | None =>
          if bool_decide ((t ← jget "type" schema; as_str t) = Some "object")
             || bool_decide (is_Some (jget "properties" schema))
          then body ← object_body schema; mret ("export interface " +:+ name +:+ " " +:+ body)
          else alias ← ts_type_of schema; mret ("export type " +:+ name +:+ " = " +:+ alias +:+ ";")
      end
  end.

Record TsEmit := mkTsEmit { decls : list string; seen : list string }.
Definition emit_named (name : string) (schema : Json) (e : TsEmit) : result string TsEmit :=
  if mem name (seen e) then Ok e
  else d ← declaration name schema; mret (mkTsEmit (decls e ++ [d]) (seen e ++ [name])).
Fixpoint emit_all (l : list (string * Json)) (e : TsEmit) : result string TsEmit :=
  match l with
  | [] => Ok e
  | (name, schema) :: l' => e' ← emit_named name schema e; emit_all l' e'
  end.

(** What [cmd_codegen_ts] hands to the emitter: each type, then its definitions
    that are no types of the bundle themselves. *)
Definition definitions (schema : Json) : list (string * Json) := default [] (object_at "definitions" schema).
Definition to_emit (bundle : list (string * Json)) : list (string * Json) :=
  List.concat (List.map (fun '(name, schema) =>
    (name, schema) :: List.filter (fun d => bool_decide (jlookup d.1 bundle = None)) (definitions schema)) bundle).
Definition header : string :=
  "// AUTO-GENERATED by `cargo run -p actant-contracts --bin actant-contracts -- codegen-ts`." +:+ nl
  +:+ "// Hand-edits forbidden. Source of truth: crates/actant-contracts/." +:+ nl +:+ nl.
Definition finish (e : TsEmit) : string :=
  header +:+ String.concat "" (List.map (fun d => d +:+ nl +:+ nl) (decls e)).
Definition codegen_ts (bundle : list (string * Json)) : result string string :=
  e ← emit_all (to_emit bundle) (mkTsEmit [] []); mret (finish e).
End emit.

(** ** The fuel is enough *)

Lemma item_depth x l : In x l -> (depth x < depth (JArray l))%nat.
Proof.
  intros Hx. assert (Hz : (depth x <= list_max (List.map depth l))%nat); [|simpl; lia].
  induction l as [|z l IH]; [done|]. cbn [List.map list_max fold_right].
  destruct Hx as [->|Hx]; [lia|]. apply IH in Hx. etrans; [exact Hx|]. unfold list_max. lia.
Qed.
Lemma jget_depth k v x : jget k v = Some x -> (depth x < depth v)%nat.
Proof. destruct v as [ | | | | |m]; try done. intros Hl%jlookup_In. by apply member_depth in Hl. Qed.
Lemma array_at_depth k v l x : array_at k v = Some l -> In x l -> (S (depth x) < depth v)%nat.
Proof.
  unfold array_at. destruct (jget k v) as [a|] eqn:Hk; [|done]. apply jget_depth in Hk.
  destruct a as [ | | | |a|]; try done. intros [= <-] Hx%item_depth. lia.
Qed.
Lemma collect_ext {A B} (f g : A -> result string B) l :
  (forall a, In a l -> f a = g a) -> collect f l = collect g l.
Proof.
  induction l as [|a l IH]; intros Hf; [done|]. simpl. rewrite (Hf a) by (by left). rewrite IH; [done|].
  intros x Hx. apply Hf. by right.
Qed.
Lemma ts_type_fuel `{SerdeJson} n m schema :
  (depth schema < n)%nat -> (depth schema < m)%nat -> ts_type n schema = ts_type m schema.
Proof.
  revert m schema. induction n as [|n IH]; intros [|m] schema Hn Hm; try lia. cbn [ts_type].
  destruct (wrapped schema) as [one|] eqn:Hw.
  { unfold wrapped in Hw. destruct (array_at "allOf" schema) as [[|x [|y l]]|] eqn:Ha; try done. injection Hw as ->.
    pose proof (array_at_depth _ _ _ one Ha (or_introl eq_refl)). apply IH; lia. }
  destruct (ref_name schema); [done|]. destruct (union_key schema) as [arr|] eqn:Hu.
  - destruct (collect_string_enum arr); [done|]. rewrite (collect_ext (ts_type n) (ts_type m)); [done|].
    intros x Hx. assert ((S (depth x) < depth schema)%nat); [|apply IH; lia].
    unfold union_key in Hu. destruct (array_at "anyOf" schema) eqn:Ha; [injection Hu as ->|];
      by eapply array_at_depth.
  - destruct (array_at "enum" schema); [done|]. destruct (jget "type" schema) as [[ | | |t|l|]|]; try done.
    destruct (String.eqb t "array"); [|done]. destruct (jget "items" schema) as [i|] eqn:Hi; [|done].
    apply jget_depth in Hi. by rewrite (IH m i) by lia.
Qed.

(** ** Emission never fails *)

Lemma collect_ok {A B} (f : A -> result string B) l :
  (forall a, In a l -> exists b, f a = Ok b) -> exists bs, collect f l = Ok bs.
Proof.
  induction l as [|a l IH]; intros Hf; [by eexists|]. simpl. destruct (Hf a (or_introl eq_refl)) as [b ->].
  destruct IH as [bs ->]; [intros x Hx; apply Hf; by right|]. by eexists.
Qed.

Section total.
Context `{SerdeJson}.

Lemma ts_type_total n schema : exists t, ts_type n schema = Ok t.
Proof.
  revert schema. induction n as [|n IH]; intros schema; [by eexists|]. cbn [ts_type].
  destruct (wrapped schema); [apply IH|]. destruct (ref_name schema); [by eexists|].
  destruct (union_key schema) as [arr|].
  - destruct (collect_string_enum arr); [by eexists|].
    destruct (collect_ok (ts_type n) arr) as [ps ->]; [by eauto|]. by eexists.
  - destruct (array_at "enum" schema); [by eexists|].
    destruct (jget "type" schema) as [[ | | |t|l|]|]; try by eexists.
    destruct (String.eqb t "array"); [|by eexists].
    destruct (jget "items" schema) as [i|]; [destruct (IH i) as [x ->]|]; by eexists.
Qed.
Lemma object_body_total schema : exists t, object_body schema = Ok t.
Proof.
  unfold object_body. destruct (collect_ok (property_line schema) (property_names schema)) as [ls ->]; [|by eexists].
  intros name _. unfold property_line, ts_type_of. edestruct ts_type_total as [t ->]. by eexists.
Qed.
Lemma declaration_total name schema : exists t, declaration name schema = Ok t.
Proof.
  unfold declaration. destruct (array_at "oneOf" schema) as [vs|].
  - destruct (collect_string_enum vs); [by eexists|]. unfold tagged_union.
    edestruct (collect_ok (fun v => body ← object_body v; mret (indent ("  | " +:+ body))) vs) as [ps ->]; [|by eexists].
    intros v _. destruct (object_body_total v) as [b ->]. by eexists.
  - destruct (array_at "enum" schema); [by eexists|]. case_match.
    + destruct (object_body_total schema) as [b ->]. by eexists.
    + unfold ts_type_of. edestruct ts_type_total as [t ->]. by eexists.
Qed.

(** An object lists each of its properties once, the required ones before the
    others and in the order of their names. *)
Lemma object_lists_properties schema :
  Permutation (property_names schema) (List.map fst (properties schema)) /\
  Sorted (property_le (required schema)) (property_names schema).
Proof.
  split; [apply merge_sort_Permutation|]. apply Sorted_merge_sort. intros a b. unfold property_le, property_cmp.
  destruct (mem a (required schema)), (mem b (required schema)); auto;
    destruct (String.compare a b) eqn:Hc; auto; right; apply str_cmp_gt_lt in Hc; by rewrite Hc.
Qed.

(** ** Each name once *)

Definition declared (d : string * Json) (text : string) : Prop := declaration d.1 d.2 = Ok text.

Lemma emit_all_spec l e : exists ds texts,
  emit_all l e = Ok (mkTsEmit (decls e ++ texts) (seen e ++ List.map fst ds)) /\
  Forall2 declared ds texts /\ List.NoDup (List.map fst ds) /\
  (forall d, In d ds -> In d l /\ ~ In d.1 (seen e)) /\
  (forall name, In name (List.map fst l) -> In name (seen e) \/ In name (List.map fst ds)).
Proof.
  revert e. induction l as [|[name schema] l IH]; intros e.
  - exists [], []. simpl. rewrite !app_nil_r. destruct e. split; [done|]. split; [constructor|]. split; [constructor|]. split; by intros ? [].
  - cbn [emit_all]. unfold emit_named. destruct (mem name (seen e)) eqn:Hs.
    + apply mem_in in Hs. destruct (IH e) as (ds & texts & He & Hf & Hn & Hin & Hall). simpl. rewrite He.
      exists ds, texts. split; [done|]. split; [done|]. split; [done|]. split.
      * intros d Hd. destruct (Hin d Hd). split; [by right|done].
      * intros x [<-|Hx]; [by left|by apply Hall].
    + assert (Hns : ~ In name (seen e)) by (intros Hc; apply mem_in in Hc; congruence).
      destruct (declaration_total name schema) as [t Ht]. rewrite Ht. simpl.
      destruct (IH (mkTsEmit (decls e ++ [t]) (seen e ++ [name]))) as (ds & texts & He & Hf & Hn & Hin & Hall).
      simpl in *. rewrite He. exists ((name, schema) :: ds), (t :: texts). rewrite <- !app_assoc. split; [done|].
      split; [by constructor|]. split; [|split].
      * simpl. constructor; [|done]. intros Hc. apply in_map_iff in Hc as ([n s] & Hns' & Hd). simpl in Hns'. subst n.
        destruct (Hin _ Hd) as [_ Hni]. apply Hni, in_or_app. right. by left.
      * intros d [<-|Hd]; [split; [by left|done]|]. destruct (Hin d Hd) as [? Hni]. split; [by right|].
        intros Hc. apply Hni, in_or_app. by left.
      * intros x [<-|Hx]; [right; by left|]. destruct (Hall x Hx) as [[?|[<-|[]]]%in_app_or|?]; [by left|right; by left|right; by right].
Qed.

Lemma to_emit_in bundle d : In d (to_emit bundle) <->
  In d bundle \/ (jlookup d.1 bundle = None /\ exists name schema, In (name, schema) bundle /\ In d (definitions schema)).
Proof.
  unfold to_emit. rewrite in_concat. split.
  - intros (ds & Hds & Hd). apply in_map_iff in Hds as ([name schema] & <- & Hb). destruct Hd as [<-|Hd]; [by left|].
    apply List.filter_In in Hd as [Hd Hn%bool_decide_eq_true_1]. right. eauto.
  - intros [Hb|(Hn & name & schema & Hb & Hd)].
    + destruct d as [name schema]. eexists. split; [apply in_map_iff; exists (name, schema); by split|]. by left.
    + eexists. split; [apply in_map_iff; exists (name, schema); by split|]. right. apply List.filter_In.
      split; [done|]. by apply bool_decide_eq_true_2.
Qed.

(** Generating TypeScript from a bundle never fails, and declares each type
    of the bundle exactly once, from its own schema, and each name that only a
    type's definitions have exactly once; nothing else is declared. *)
Theorem codegen_declares_once (bundle : list (string * Json)) :
  List.NoDup (List.map fst bundle) ->
  exists ds texts, codegen_ts bundle = Ok (header +:+ String.concat "" (List.map (fun d => d +:+ nl +:+ nl) texts)) /\
    Forall2 declared ds texts /\ List.NoDup (List.map fst ds) /\ incl bundle ds /\
    (forall name, In name (List.map fst ds) <->
       In name (List.map fst bundle) \/
       exists type schema, In (type, schema) bundle /\ In name (List.map fst (definitions schema))).
Proof.
  intros Hn. destruct (emit_all_spec (to_emit bundle) (mkTsEmit [] [])) as (ds & texts & He & Hf & Hnd & Hin & Hall).
  exists ds, texts. unfold codegen_ts. rewrite He. split; [done|]. split; [done|]. split; [done|].
  assert (Hown : forall name schema, In (name, schema) bundle -> forall s, In (name, s) (to_emit bundle) -> s = schema).
  { intros name schema Hb s [Hs|[Hl _]]%to_emit_in.
    - by apply (keys_nodup_inj name s schema bundle).
    - simpl in Hl. apply jlookup_keys in Hl. exfalso. apply Hl. by apply (in_map fst) in Hb. }
  assert (Hemit : forall name, In name (List.map fst (to_emit bundle)) -> In name (List.map fst ds)).
  { intros name Hx. by destruct (Hall name Hx) as [[]|]. }
  split.
  - intros [name schema] Hb.
    assert (Hx : In name (List.map fst ds)).
    { apply Hemit, in_map_iff. exists (name, schema). split; [done|]. apply to_emit_in. by left. }
    apply in_map_iff in Hx as ([n s] & Heq & Hd). simpl in Heq. subst n.
    destruct (Hin _ Hd) as [Hte _]. by rewrite <- (Hown name schema Hb s Hte).
  - intros name. split.
    + intros Hx. apply in_map_iff in Hx as ([n s] & <- & Hd). apply Hin in Hd as [[Hb|(_ & t & sc & Hb & Hd)]%to_emit_in _].
      * left. by apply (in_map fst) in Hb.
      * right. exists t, sc. split; [done|]. by apply (in_map fst) in Hd.
    + intros [Hb|(t & sc & Hb & Hd)].
      * apply Hemit. apply in_map_iff in Hb as (d & <- & Hb). apply in_map, to_emit_in. by left.
      * destruct (jlookup name bundle) as [s|] eqn:Hl.
        -- apply jlookup_In in Hl. apply Hemit, in_map_iff. exists (name, s). split; [done|]. apply to_emit_in. by left.
        -- apply Hemit. apply in_map_iff in Hd as (d & <- & Hd). apply in_map, to_emit_in. right. eauto.
Qed.
End total.
