(* ===== verification/Cache.v ===== *)
(** * The content cache ([actant-contracts/src/cache.rs])

    A bounded map from keys to values and a queue of its keys, the least recently
    used in front.  Every operation holds the mutex, so it is one step.  The
    specification is one list of entries in the order of their last use. *)

From S2P Require Import Prelude Str Json.
#[local] Open Scope string_scope.
#[local] Open Scope list_scope.

(** ** The code *)

Record CacheInner := mkCacheInner { values : gmap string string; lru : list string }.

Definition touch (key : string) (c : CacheInner) : CacheInner :=
  mkCacheInner (values c) (List.filter (fun k => negb (String.eqb k key)) (lru c) ++ [key]).

(** The loop pops a key a round, so it ends with the queue. *)
Fixpoint evict (max_entries : nat) (m : gmap string string) (queue : list string) : CacheInner :=
  if decide (max_entries <= size m)%nat then
    match queue with
    | key :: queue' => evict max_entries (delete key m) queue'
    | [] => mkCacheInner ∅ []
    end
  else mkCacheInner m queue.
Definition evict_until_room (max_entries : nat) (c : CacheInner) : CacheInner :=
  evict max_entries (values c) (lru c).

Definition DEFAULT_MAX_ENTRIES : nat := 1024.
Definition empty_cache : CacheInner := mkCacheInner ∅ [].
(** [with_max_entries] panics on zero. *)
Definition with_max_entries (max_entries : nat) : option (nat * CacheInner) :=
  match max_entries with O => None | _ => Some (max_entries, empty_cache) end.

Definition get (key : string) (c : CacheInner) : option string * CacheInner :=
  match values c !! key with
  | None => (None, c)
  | Some value => (Some value, touch key c)
  end.
Definition put (max_entries : nat) (key value : string) (c : CacheInner) : CacheInner :=
  let c1 := if bool_decide (is_Some (values c !! key)) then c else evict_until_room max_entries c in
  touch key (mkCacheInner (<[key := value]> (values c1)) (lru c1)).

Definition key_for `{SerdeJson} `{Sha256} (value : Json) : string := sha256_hex (canonical_json value).

Inductive CacheOp := Get (key : string) | Put (key value : string).
Definition run_op (max_entries : nat) (o : CacheOp) (c : CacheInner) : option string * CacheInner :=
  match o with
  | Get key => get key c
  | Put key value => (None, put max_entries key value c)
  end.
Fixpoint run (max_entries : nat) (os : list CacheOp) (c : CacheInner) : list (option string) * CacheInner :=
  match os with
  | [] => ([], c)
  | o :: os' =>
      let '(a, c1) := run_op max_entries o c in
      let '(rest, c2) := run max_entries os' c1 in
      (a :: rest, c2)
  end.

(** ** The specification *)

(** The entries, the least recently used in front. *)
Abbreviation Recent := (list (string * string)).
Definition without (key : string) (l : Recent) : Recent := List.filter (fun e => negb (String.eqb e.1 key)) l.
Definition used (key value : string) (l : Recent) : Recent := without key l ++ [(key, value)].
(** At most [n] of them, the oldest dropped. *)
Definition newest (n : nat) (l : Recent) : Recent := drop (length l - n) l.

Definition spec_op (max_entries : nat) (o : CacheOp) (l : Recent) : option string * Recent :=
  match o with
  | Get key => match jlookup key l with Some v => (Some v, used key v l) | None => (None, l) end
  | Put key value => (None, newest max_entries (used key value l))
  end.
Fixpoint spec_run (max_entries : nat) (os : list CacheOp) (l : Recent) : list (option string) * Recent :=
  match os with
  | [] => ([], l)
  | o :: os' =>
      let '(a, l1) := spec_op max_entries o l in
      let '(rest, l2) := spec_run max_entries os' l1 in
      (a :: rest, l2)
  end.

(** ** The cache is its specification *)

(** The state that holds the entries of [l]. *)
Definition holds (l : Recent) : CacheInner := mkCacheInner (list_to_map l) (List.map fst l).
Definition recent_ok (max_entries : nat) (l : Recent) : Prop :=
  List.NoDup (List.map fst l) /\ (length l <= max_entries)%nat.

Lemma map_lookup (l : Recent) key : (list_to_map l : gmap string string) !! key = jlookup key l.
Proof.
  induction l as [|[k v] l IH]; [done|]. simpl. destruct (String.eqb_spec key k) as [->|Hne].
  - by rewrite lookup_insert_eq.
  - by rewrite lookup_insert_ne.
Qed.
Lemma keys_without key l : List.map fst (without key l) = List.filter (fun k => negb (String.eqb k key)) (List.map fst l).
Proof. unfold without. induction l as [|[k v] l IH]; [done|]. simpl. destruct (String.eqb k key); simpl; by rewrite IH. Qed.
Lemma recent_without_lookup key key' l : jlookup key' (without key l) = if String.eqb key' key then None else jlookup key' l.
Proof.
  unfold without. induction l as [|[k v] l IH]; simpl; [by destruct (String.eqb key' key)|].
  destruct (String.eqb_spec k key) as [->|Hne]; simpl; rewrite IH.
  - destruct (String.eqb_spec key' key) as [->|]; [done|]. by destruct (String.eqb_spec key' key).
  - destruct (String.eqb_spec key' k) as [->|]; [|done]. by destruct (String.eqb_spec k key).
Qed.
Lemma without_absent key l : jlookup key l = None -> without key l = l.
Proof.
  unfold without. induction l as [|[k v] l IH]; [done|]. simpl. destruct (String.eqb_spec key k) as [->|Hne]; [done|].
  intros Hl. destruct (String.eqb_spec k key) as [->|]; [done|]. simpl. by rewrite IH.
Qed.
Lemma used_nodup key v l : List.NoDup (List.map fst l) -> List.NoDup (List.map fst (used key v l)).
Proof.
  intros Hn. unfold used. rewrite List.map_app, keys_without. simpl.
  apply (Permutation_NoDup (l:=key :: List.filter (fun k => negb (String.eqb k key)) (List.map fst l)));
    [apply Permutation_cons_append|].
  constructor; [|by apply List.NoDup_filter]. intros [_ Hk]%List.filter_In. by rewrite String.eqb_refl in Hk.
Qed.
Lemma used_map key v l : (list_to_map (used key v l) : gmap string string) = <[key := v]> (list_to_map l).
Proof.
  apply map_eq. intros k. rewrite map_lookup. unfold used.
  assert (Hl : forall a b, jlookup k (a ++ b : Recent) = match jlookup k a with Some x => Some x | None => jlookup k b end).
  { intros a b. induction a as [|[k' x] a IH]; [done|]. simpl. by destruct (String.eqb k k'). }
  rewrite Hl, recent_without_lookup. simpl. destruct (String.eqb_spec k key) as [->|Hne].
  - by rewrite lookup_insert_eq.
  - rewrite lookup_insert_ne by done. rewrite map_lookup. by destruct (jlookup k l).
Qed.

Lemma touch_holds key v l :
  touch key (mkCacheInner (<[key := v]> (list_to_map l)) (List.map fst l)) = holds (used key v l).
Proof. unfold touch, holds. simpl. rewrite used_map. unfold used. by rewrite List.map_app, keys_without. Qed.

Lemma size_holds l : List.NoDup (List.map fst l) -> size (list_to_map l : gmap string string) = length l.
Proof. intros Hn. apply map_size_list_to_map, NoDup_ListNoDup. exact Hn. Qed.

Lemma evict_holds n l : List.NoDup (List.map fst l) ->
  evict (S n) (list_to_map l) (List.map fst l) = holds (newest n l).
Proof.
  unfold newest. induction l as [|[k v] l IH]; intros Hn.
  - simpl. by destruct (decide _).
  - cbn [evict List.map fst]. rewrite size_holds by done. cbn [length].
    destruct (decide (S n <= S (length l))%nat) as [Hle|Hgt].
    + replace (S (length l) - n)%nat with (S (length l - n)) by lia. cbn [drop].
      inversion Hn as [|? ? Hk Hn']; subst. rewrite <- (IH Hn'). f_equal. simpl.
      apply delete_insert_id. rewrite map_lookup. by apply jlookup_None.
    + replace (S (length l) - n)%nat with 0%nat by lia. done.
Qed.

Lemma newest_ok n l : List.NoDup (List.map fst l) -> recent_ok n (newest n l).
Proof.
  intros Hn. unfold newest. split; [|rewrite length_drop; lia]. rewrite <- (take_drop (length l - n) l), List.map_app in Hn.
  apply NoDup_ListNoDup in Hn. apply NoDup_ListNoDup. apply NoDup_app in Hn. tauto.
Qed.
Lemma length_used key v l :
  List.NoDup (List.map fst l) ->
  length (used key v l) = (length l + match jlookup key l with Some _ => 0 | None => 1 end)%nat.
Proof.
  intros Hn. pose proof (size_holds _ (used_nodup key v l Hn)) as Hs. rewrite used_map in Hs. rewrite <- Hs.
  rewrite map_size_insert, map_lookup, size_holds by done. destruct (jlookup key l); simpl; lia.
Qed.

(** One operation on a state that holds [l] answers what the list does, and leaves
    the state that holds the new list. *)
Lemma run_op_holds n o l : recent_ok (S n) l ->
  run_op (S n) o (holds l) = ((spec_op (S n) o l).1, holds (spec_op (S n) o l).2) /\
  recent_ok (S n) (spec_op (S n) o l).2.
Proof.
  intros [Hn Hlen]. destruct o as [key|key v]; cbn [run_op spec_op].
  - unfold get. cbn [values holds]. rewrite map_lookup. destruct (jlookup key l) as [v|] eqn:Hl; [|by repeat split].
    split.
    + simpl. f_equal. rewrite <- (touch_holds key v l). unfold touch, holds. simpl. f_equal.
      symmetry. apply insert_id. by rewrite map_lookup.
    + split; [by apply used_nodup|]. simpl. rewrite length_used, Hl by done. lia.
  - split; [|by apply newest_ok, used_nodup]. simpl. f_equal. unfold put. cbn [values lru holds]. rewrite map_lookup.
    destruct (jlookup key l) as [x|] eqn:Hl.
    + rewrite bool_decide_true by done. cbn [values lru holds]. rewrite touch_holds. f_equal. unfold newest.
      rewrite length_used, Hl by done. replace (length l + 0 - S n)%nat with 0%nat by lia. done.
    + rewrite bool_decide_false by (by intros [? ?]). unfold evict_until_room. cbn [values lru holds].
      rewrite evict_holds by done. cbn [values lru holds]. rewrite touch_holds. f_equal. unfold used, newest.
      assert (Hd : jlookup key (drop (length l - n) l) = None).
      { apply jlookup_keys. apply jlookup_keys in Hl. intros Hk. apply Hl. rewrite <- (take_drop (length l - n) l).
        rewrite List.map_app. apply in_or_app. by right. }
      rewrite !without_absent by done. rewrite length_app. simpl.
      replace (length l + 1 - S n)%nat with (length l - n)%nat by lia. rewrite drop_app_le by lia. done.
Qed.

(** Whatever is asked of a cache and in whatever order, it answers as the
    bounded list of entries does that is kept in the order of their last use: it
    never holds more than its bound, and what makes room is the entry unused the
    longest. *)
Theorem cache_refines_lru (max_entries : nat) (os : list CacheOp) :
  max_entries <> 0%nat ->
  let '(answers, c) := run max_entries os empty_cache in
  let '(spec_answers, l) := spec_run max_entries os [] in
  answers = spec_answers /\ c = holds l /\ size (values c) = length l /\ (length l <= max_entries)%nat.
Proof.
  destruct max_entries as [|n]; [done|]. intros _.
  assert (Hg : forall os l, recent_ok (S n) l ->
    run (S n) os (holds l) = ((spec_run (S n) os l).1, holds (spec_run (S n) os l).2) /\
    recent_ok (S n) (spec_run (S n) os l).2).
  { clear os. induction os as [|o os IH]; intros l Hl; [done|]. cbn [run spec_run].
    destruct (run_op_holds n o l Hl) as [-> Hl1]. destruct (spec_op (S n) o l) as [a l1]. simpl in *.
    destruct (IH l1 Hl1) as [-> Hl2]. by destruct (spec_run (S n) os l1). }
  destruct (Hg os []) as [Hr [Hn Hlen]]; [split; [constructor|simpl; lia]|].
  change (holds []) with empty_cache in Hr. rewrite Hr. destruct (spec_run (S n) os []) as [sa l]. simpl in *.
  split; [done|]. split; [done|]. split; [by apply size_holds|done].
Qed.

(** ** What is kept *)

Definition op_key (o : CacheOp) : string := match o with Get k | Put k _ => k end.

Lemma run_holds n os l : recent_ok (S n) l ->
  (run (S n) os (holds l)).2 = holds (spec_run (S n) os l).2 /\ recent_ok (S n) (spec_run (S n) os l).2.
Proof.
  revert l. induction os as [|o os IH]; intros l Hl; [done|]. cbn [run spec_run].
  destruct (run_op_holds n o l Hl) as [-> Hl1]. destruct (spec_op (S n) o l) as [a l1]. simpl in *.
  destruct (IH l1 Hl1) as [Hr Hl2]. destruct (run (S n) os (holds l1)) as [rest c2].
  by destruct (spec_run (S n) os l1).
Qed.

(** The entry is there, and what was used after it are some of [ks]. *)
Definition kept (key v : string) (ks : list string) (l : Recent) : Prop :=
  exists before after, l = before ++ (key, v) :: after /\ incl (List.map fst after) ks.

Lemma without_app k (a b : Recent) : without k (a ++ b) = without k a ++ without k b.
Proof. apply List.filter_app. Qed.
Lemma without_incl k l ks : incl (List.map fst l) ks -> incl (List.map fst (without k l)) ks.
Proof.
  intros Hi x Hx. apply Hi. apply in_map_iff in Hx as (e & <- & He). apply List.filter_In in He as [He _]. by apply in_map.
Qed.

(** Using an allowed key keeps the entry, and so does dropping the oldest entries
    down to a bound that [ks] is below. *)
Lemma used_kept key v ks k x l : k <> key -> In k ks -> kept key v ks l -> kept key v ks (used k x l).
Proof.
  intros Hne Hk (before & after & -> & Ha). unfold used. rewrite without_app. exists (without k before).
  unfold without at 2. simpl. destruct (String.eqb_spec key k) as [->|]; [done|]. simpl.
  exists (without k after ++ [(k, x)]). rewrite <- app_assoc. split; [done|]. rewrite List.map_app.
  apply incl_app; [by apply without_incl|]. intros y [<-|[]]. exact Hk.
Qed.
Lemma newest_kept n key v ks l :
  (length ks < n)%nat -> List.NoDup (List.map fst l) -> kept key v ks l -> kept key v ks (newest n l).
Proof.
  intros Hlen Hn (before & after & -> & Ha). unfold newest.
  rewrite List.map_app in Hn. apply NoDup_ListNoDup, NoDup_app in Hn as (_ & _ & Hn). apply NoDup_ListNoDup in Hn. simpl in Hn.
  inversion Hn as [|? ? _ Hn']; subst. pose proof (NoDup_incl_length Hn' Ha) as Hal. rewrite length_map in Hal.
  rewrite length_app. simpl. rewrite drop_app_le by lia.
  by exists (drop (length before + S (length after) - n) before), after.
Qed.

Lemma spec_op_kept n key v ks o l :
  (length ks < n)%nat -> ~ In key ks -> (o = Get key \/ In (op_key o) ks) -> List.NoDup (List.map fst l) ->
  kept key v ks l -> kept key v ks (spec_op n o l).2.
Proof.
  intros Hlen Hni Ho Hn Hk. destruct o as [k|k x]; simpl in *.
  - destruct (jlookup k l) as [y|] eqn:Hl; [|done]. simpl. destruct Ho as [[= ->]|Hks].
    + destruct Hk as (before & after & -> & _).
      assert (y = v) as ->.
      { apply (keys_nodup_inj key y v _ Hn); [by apply jlookup_In|]. apply in_or_app. right. by left. }
      exists (without key (before ++ (key, v) :: after)), []. split; [done|by intros ? []].
    + apply used_kept; [by intros ->|done|done].
  - destruct Ho as [|Hks]; [done|]. apply newest_kept; [done|by apply used_nodup|].
    apply used_kept; [by intros ->|done|done].
Qed.

(** A value that was put is still found, and unchanged, as long as fewer
    other keys than the bound have been used since. *)
Theorem cache_keeps_recent (max_entries : nat) (before after : list CacheOp) (key v : string) (ks : list string) :
  (length ks < max_entries)%nat -> ~ In key ks ->
  (forall o, In o after -> o = Get key \/ In (op_key o) ks) ->
  let c := (run max_entries before empty_cache).2 in
  (get key (run max_entries after (put max_entries key v c)).2).1 = Some v.
Proof.
  intros Hlen Hni Ho. destruct max_entries as [|n]; [lia|]. cbv zeta. change empty_cache with (holds []).
  destruct (run_holds n before []) as [-> Hl]; [split; [constructor|simpl; lia]|].
  set (l := (spec_run (S n) before []).2) in *.
  destruct (run_op_holds n (Put key v) l Hl) as [Hp Hl1]. apply (f_equal snd) in Hp. cbn [run_op snd] in Hp. rewrite Hp.
  set (l1 := (spec_op (S n) (Put key v) l).2) in *.
  assert (Hk : kept key v ks l1).
  { unfold l1. simpl. apply newest_kept; [done|apply used_nodup, Hl|]. exists (without key l), []. split; [done|by intros ? []]. }
  clearbody l1. clear Hp. destruct (run_holds n after l1 Hl1) as [-> _].
  assert (Hg : kept key v ks (spec_run (S n) after l1).2 /\ recent_ok (S n) (spec_run (S n) after l1).2).
  { revert l1 Hl1 Hk. induction after as [|o os IH]; intros l1 Hl1 Hk; [done|]. cbn [spec_run].
    destruct (run_op_holds n o l1 Hl1) as [_ Hl2].
    pose proof (spec_op_kept (S n) key v ks o l1 Hlen Hni (Ho o (or_introl eq_refl)) (proj1 Hl1) Hk) as Hk2.
    destruct (spec_op (S n) o l1) as [a l2]. simpl in *. specialize (IH (fun o Hin => Ho o (or_intror Hin)) l2 Hl2 Hk2).
    by destruct (spec_run (S n) os l2). }
  destruct Hg as [(bf & af & He & _) [Hn _]]. unfold get. cbn [values holds]. rewrite map_lookup.
  rewrite He in Hn |- *. replace (jlookup key (bf ++ (key, v) :: af)) with (Some v); [done|].
  destruct (jlookup key (bf ++ (key, v) :: af)) as [y|] eqn:Hy.
  - f_equal. apply (keys_nodup_inj key v y _ Hn); [|by apply jlookup_In]. apply in_or_app. right. by left.
  - apply jlookup_keys in Hy. exfalso. apply Hy. rewrite List.map_app. apply in_or_app. right. by left.
Qed.

Lemma cache_keeps_recent_witness :
  (get "a" (run 2 [Put "b" "x"; Get "a"; Get "b"; Get "a"; Put "b" "y"] (put 2 "a" "1" empty_cache)).2).1 = Some "1".
Proof.
  apply (cache_keeps_recent 2 [] [Put "b" "x"; Get "a"; Get "b"; Get "a"; Put "b" "y"] "a" "1" ["b"]).
  - simpl. lia.
  - simpl. intuition discriminate.
  - intros o Ho. simpl in Ho. repeat (destruct Ho as [<-|Ho]; [simpl; tauto|]). destruct Ho.
Defined.
Lemma cache_refines_lru_witness :
  (run 2 [Put "a" "1"; Put "b" "2"; Get "a"; Put "c" "3"; Get "b"; Get "a"; Get "c"] empty_cache).1
    = [None; None; Some "1"; None; None; Some "1"; Some "3"] /\
  (run 2 [Put "a" "1"; Put "b" "2"; Get "a"; Put "c" "3"; Get "b"; Get "a"; Get "c"] empty_cache).1
    = (spec_run 2 [Put "a" "1"; Put "b" "2"; Get "a"; Put "c" "3"; Get "b"; Get "a"; Get "c"] []).1.
Proof.
  split; [vm_compute; reflexivity|].
  pose proof (cache_refines_lru 2 [Put "a" "1"; Put "b" "2"; Get "a"; Put "c" "3"; Get "b"; Get "a"; Get "c"]
    ltac:(discriminate)) as Hr.
  destruct (run 2 _ empty_cache) as [answers c], (spec_run 2 _ []) as [sa l]. exact (proj1 Hr).
Defined.
