(* ===== verification/Retrieval.v ===== *)
(** * The retrieval index ([actant-contracts/src/index.rs])

    Items with their embeddings, entity labels and relations; dense search by cosine
    and search that fuses cosine, lexical, graph and rerank scores.  Scores are
    binary32 with its rounding.  A sort whose comparison is no order on the list, as
    a NaN score can make it, has an unspecified outcome or panics: there the sort is
    a parameter, everywhere else it is the stable sort.  The empty sum's sign, the
    sign of the greater of two zeros and Unicode are parameters. *)

From Stdlib Require Import SpecFloat.
From S2P Require Import Prelude Str Json Compat.
#[local] Open Scope string_scope.
#[local] Open Scope list_scope.
#[local] Open Scope Z_scope.

(** ** Binary32 *)

Definition f32 : Type := spec_float.
Definition f32_of_Z (z : Z) : f32 := binary_normalize 24 128 z 0 false.
Definition f32_add : f32 -> f32 -> f32 := SFadd 24 128.
Definition f32_sub : f32 -> f32 -> f32 := SFsub 24 128.
Definition f32_mul : f32 -> f32 -> f32 := SFmul 24 128.
Definition f32_div : f32 -> f32 -> f32 := SFdiv 24 128.
Definition f32_sqrt : f32 -> f32 := SFsqrt 24 128.
Definition f32_ltb : f32 -> f32 -> bool := SFltb.
Definition f32_eqb : f32 -> f32 -> bool := SFeqb.
(** The quotient of two positive integers, correctly rounded (decimal literals). *)
Definition f32_ratio (n d : positive) : f32 := f32_div (S754_finite false n 0) (S754_finite false d 0).
Definition f32_zero : f32 := S754_zero false.
Definition f32_one : f32 := f32_of_Z 1.
Definition is_nan (x : f32) : bool := match x with S754_nan => true | _ => false end.

(** [clamp]: a NaN and a negative zero stay. *)
Definition f32_clamp (lo hi x : f32) : f32 :=
  let x := if f32_ltb x lo then lo else x in if f32_ltb hi x then hi else x.

(** What the standard library leaves open: whether a sum starts at the negative
    zero, which of two equal zeros [max] answers, and the rounding of [ln]. *)
Class Float32 := { sum_from_minus : bool; max_second : bool; f32_ln : f32 -> f32 }.

Definition f32_sum `{Float32} (l : list f32) : f32 := fold_left f32_add l (S754_zero sum_from_minus).
Definition f32_max `{Float32} (a b : f32) : f32 :=
  match a, b with
  | S754_nan, _ => b
  | _, S754_nan => a
  | _, _ => if f32_ltb a b then b else if f32_ltb b a then a else if max_second then b else a
  end.

(** [partial_cmp(..).unwrap_or(Equal)]. *)
Definition cmp_or_eq (a b : f32) : comparison := match SFcompare a b with Some c => c | None => Eq end.

(** ** [sort_by] *)

Section sort.
Context {A : Type} (cmp : A -> A -> comparison).

Definition before (a b : A) : bool := match cmp a b with Gt => false | _ => true end.
Definition is_opp (c d : comparison) : bool := match c, d with Lt, Gt | Gt, Lt | Eq, Eq => true | _, _ => false end.
(** The comparison is an order of the list's elements, ties allowed. *)
Definition consistent (l : list A) : bool :=
  forallb (fun a => forallb (fun b => is_opp (cmp a b) (cmp b a) &&
    forallb (fun c => implb (before a b && before b c) (before a c)) l) l) l.

Fixpoint place (x : A) (l : list A) : list A :=
  match l with [] => [x] | y :: l' => if before x y then x :: l else y :: place x l' end.
Definition stable_sort (l : list A) : list A := foldr place [] l.
End sort.

(** What a sort does with a comparison that is no order: any order, or a panic. *)
Class Sorting := disordered : forall A : Type, (A -> A -> comparison) -> list A -> option (list A).
(** Whatever the order, no element is lost. *)
Class SortingLaws `{Sorting} : Prop :=
  disordered_perm : forall A (cmp : A -> A -> comparison) l l', disordered A cmp l = Some l' -> l' ≡ₚ l.

Definition sort_by `{Sorting} {A} (cmp : A -> A -> comparison) (l : list A) : option (list A) :=
  if consistent cmp l then Some (stable_sort cmp l) else disordered A cmp l.

(** ** The index *)

Record Embedding := mkEmbedding { provider : string; model : string; vector : list f32 }.
Record ActantIndexedItem := mkItem { it_id : string; it_text : string; it_embedding : Embedding }.
Record ActantHit := mkHit { hit_item : ActantIndexedItem; hit_score : f32 }.
Inductive ActantSearchMode := Dense | Hybrid | Graph | Deep.
#[global] Instance ActantSearchMode_eq_dec : EqDecision ActantSearchMode.
Proof. solve_decision. Defined.
Record ActantSearchOptions := mkSearchOptions {
  mode : ActantSearchMode; top_k : nat; dense_weight : f32; sparse_weight : f32; graph_weight : f32;
  rerank : bool
}.
Definition default_search_options : ActantSearchOptions :=
  mkSearchOptions Hybrid 10 (f32_ratio 65 100) (f32_ratio 30 100) (f32_ratio 20 100) true.
Record ActantSearchHit := mkSearchHit {
  sh_item : ActantIndexedItem; sh_dense_score : f32; sh_sparse_score : f32; sh_graph_score : f32;
  sh_rerank_score : f32; sh_score : f32
}.
Record ActantEntityRelation := mkRelation {
  source_entity : string; relation_type : string; target_entity : string; confidence : f32
}.
Record ActantIndex := mkIndex {
  items : list ActantIndexedItem; item_entities : gmap string (list string);
  relations : list ActantEntityRelation
}.
Definition new_index : ActantIndex := mkIndex [] ∅ [].
Definition index_len (ix : ActantIndex) : nat := List.length (items ix).
Definition index_is_empty (ix : ActantIndex) : bool := match items ix with [] => true | _ => false end.

(** The first slot with the id is replaced; without one the item goes last. *)
Fixpoint upsert (item : ActantIndexedItem) (l : list ActantIndexedItem) : list ActantIndexedItem :=
  match l with
  | [] => [item]
  | x :: l' => if String.eqb (it_id x) (it_id item) then item :: l' else x :: upsert item l'
  end.
Definition insert_item (item : ActantIndexedItem) (ix : ActantIndex) : ActantIndex :=
  mkIndex (upsert item (items ix)) (item_entities ix) (relations ix).

Section index.
Context `{Unicode} `{Float32} `{Sorting}.

Definition tokenize (text : string) : list string :=
  bt_set (omap (fun raw => let term := to_lowercase (trim raw) in
                           if str_len term <? 2 then None else Some term) (words text)).
Definition normalize_entity (entity : string) : string := join " " (tokenize entity).

Definition add_entity (item_id entity : string) (ix : ActantIndex) : ActantIndex :=
  mkIndex (items ix)
    (<[item_id := bt_set (normalize_entity entity :: default [] (item_entities ix !! item_id))]> (item_entities ix))
    (relations ix).
Definition add_relation (r : ActantEntityRelation) (ix : ActantIndex) : ActantIndex :=
  mkIndex (items ix) (item_entities ix)
    (relations ix ++ [mkRelation (normalize_entity (source_entity r)) (relation_type r)
                        (normalize_entity (target_entity r)) (f32_clamp f32_zero f32_one (confidence r))]).

(** *** Scores *)

Definition cosine (a b : list f32) : f32 :=
  match a with
  | [] => f32_zero
  | _ =>
      if negb (List.length a =? List.length b)%nat then f32_zero
      else
        let dot := f32_sum (zip_with f32_mul a b) in
        let na := f32_sqrt (f32_sum (List.map (fun x => f32_mul x x) a)) in
        let nb := f32_sqrt (f32_sum (List.map (fun x => f32_mul x x) b)) in
        if f32_eqb na f32_zero || f32_eqb nb f32_zero then f32_zero
        else f32_div dot (f32_mul na nb)
  end.

Definition sparse_match_score (query_terms item_terms : list string) : f32 :=
  match query_terms, item_terms with
  | [], _ | _, [] => f32_zero
  | _, _ =>
      let matched := List.length (List.filter (fun t => mem t item_terms) query_terms) in
      f32_div (f32_of_Z (Z.of_nat matched)) (f32_of_Z (Z.of_nat (List.length query_terms)))
  end.

Definition entity_matches_terms (entity : string) (query_terms : list string) : bool :=
  forallb (fun t => mem t query_terms) (tokenize entity).
Definition query_entities (query_terms : list string) (rels : list ActantEntityRelation) : list string :=
  bt_set (concat (List.map (fun r =>
    (if entity_matches_terms (source_entity r) query_terms then [source_entity r] else []) ++
    (if entity_matches_terms (target_entity r) query_terms then [target_entity r] else [])) rels)).

Definition connects (query_entity : string) (entities : list string) (r : ActantEntityRelation) : bool :=
  (String.eqb (source_entity r) query_entity && mem (target_entity r) entities) ||
  (String.eqb (target_entity r) query_entity && mem (source_entity r) entities).
Definition raise_by_relation (query_entity : string) (entities : list string) (score : f32)
    (r : ActantEntityRelation) : f32 :=
  if connects query_entity entities r then f32_max score (confidence r) else score.
Definition raise_by_entity (rels : list ActantEntityRelation) (entities : list string) (score : f32)
    (query_entity : string) : f32 :=
  if mem query_entity entities then f32_max score f32_one
  else fold_left (raise_by_relation query_entity entities) rels score.
Definition graph_score (ix : ActantIndex) (item : ActantIndexedItem) (qes : list string) : f32 :=
  match qes, item_entities ix !! it_id item with
  | [], _ | _, None => f32_zero
  | _, Some entities => fold_left (raise_by_entity (relations ix) entities) qes f32_zero
  end.

Definition local_rerank_score (query_text : string) (item : ActantIndexedItem) (sparse graph : f32) : f32 :=
  let query := to_lowercase (trim query_text) in
  let text := to_lowercase (it_text item) in
  let phrase := if negb (String.eqb query "") && str_contains query text then f32_one else f32_zero in
  f32_clamp f32_zero f32_one
    (f32_add (f32_add (f32_mul phrase (f32_ratio 45 100)) (f32_mul sparse (f32_ratio 40 100)))
       (f32_mul graph (f32_ratio 15 100))).

(** *** Dense search *)

Definition by_score (a b : f32 * ActantIndexedItem) : comparison := cmp_or_eq b.1 a.1.
Definition dense_scores (ix : ActantIndex) (query : Embedding) : list (f32 * ActantIndexedItem) :=
  List.map (fun it => (cosine (vector (it_embedding it)) (vector query), it)) (items ix).
Definition search (ix : ActantIndex) (query : Embedding) (k : nat) : option (list (f32 * ActantIndexedItem)) :=
  scored ← sort_by by_score (dense_scores ix query); Some (take k scored).
Definition search_owned (ix : ActantIndex) (query : Embedding) (k : nat) : option (list ActantHit) :=
  hits ← search ix query k; Some (List.map (fun '(s, it) => mkHit it s) hits).

(** *** Fused search *)

Definition use_sparse (o : ActantSearchOptions) : bool := match mode o with Dense => false | _ => true end.
Definition use_graph (o : ActantSearchOptions) : bool := match mode o with Graph | Deep => true | _ => false end.
Definition use_rerank (o : ActantSearchOptions) : bool := rerank o || bool_decide (mode o = Deep).

Definition score_item (ix : ActantIndex) (query : Embedding) (query_text : string) (o : ActantSearchOptions)
    (item : ActantIndexedItem) : ActantSearchHit :=
  let query_terms := tokenize query_text in
  let graph_terms := query_entities query_terms (relations ix) in
  let dense := cosine (vector (it_embedding item)) (vector query) in
  let sparse := if use_sparse o then sparse_match_score query_terms (tokenize (it_text item)) else f32_zero in
  let graph := if use_graph o then graph_score ix item graph_terms else f32_zero in
  let rerank_score := if use_rerank o then local_rerank_score query_text item sparse graph else f32_zero in
  let score := f32_mul dense (dense_weight o) in
  let score := f32_add score (f32_mul sparse (sparse_weight o)) in
  let score := f32_add score (f32_mul graph (graph_weight o)) in
  let score := if use_rerank o then f32_add score (f32_mul rerank_score (f32_ratio 15 100)) else score in
  mkSearchHit item dense sparse graph rerank_score score.
Definition score_candidates (ix : ActantIndex) (query : Embedding) (query_text : string)
    (o : ActantSearchOptions) : list ActantSearchHit :=
  List.map (score_item ix query query_text o) (items ix).

Definition score_order (a b : ActantSearchHit) : comparison :=
  match cmp_or_eq (sh_score b) (sh_score a) with
  | Eq => String.compare (it_id (sh_item a)) (it_id (sh_item b))
  | c => c
  end.
Definition search_with_options (ix : ActantIndex) (query : Embedding) (query_text : string)
    (o : ActantSearchOptions) : option (list ActantSearchHit) :=
  hits ← sort_by score_order (score_candidates ix query query_text o); Some (take (top_k o) hits).
End index.

(** ** The stable sort *)

Section sort_facts.
Context {A : Type} (cmp : A -> A -> comparison).

(** The comparison orders the elements of [l]. *)
Definition ordered (l : list A) : Prop :=
  (forall a b, In a l -> In b l -> cmp b a = CompOpp (cmp a b)) /\
  (forall a b c, In a l -> In b l -> In c l -> before cmp a b = true -> before cmp b c = true -> before cmp a c = true).

Lemma consistent_ordered l : consistent cmp l = true <-> ordered l.
Proof.
  unfold consistent, ordered. rewrite forallb_forall. setoid_rewrite forallb_forall.
  setoid_rewrite andb_true_iff. setoid_rewrite forallb_forall.
  assert (Ho : forall c d, is_opp c d = true <-> d = CompOpp c) by (intros [] []; simpl; split; congruence).
  setoid_rewrite Ho. split.
  - intros Hl. split; [intros a b Ha Hb; by apply Hl|]. intros a b c Ha Hb Hc H1 H2.
    destruct (Hl a Ha b Hb) as [_ Ht]. specialize (Ht c Hc). by rewrite H1, H2 in Ht.
  - intros [Ha Ht] a Hin b Hb. split; [by apply Ha|]. intros c Hc.
    destruct (before cmp a b) eqn:H1, (before cmp b c) eqn:H2; try done. simpl. eauto.
Qed.

Lemma place_perm x l : place cmp x l ≡ₚ x :: l.
Proof. induction l as [|y l IH]; simpl; [done|]. destruct (before cmp x y); [done|]. rewrite IH. constructor. Qed.
Lemma stable_sort_perm l : stable_sort cmp l ≡ₚ l.
Proof. induction l as [|x l IH]; simpl; [done|]. by rewrite place_perm, IH. Qed.

Lemma before_total l a b : ordered l -> In a l -> In b l -> before cmp a b = false -> before cmp b a = true.
Proof. intros [Ho _] Ha Hb. unfold before. rewrite (Ho a b Ha Hb). by destruct (cmp a b). Qed.

Lemma place_sorted x l : ordered (x :: l) -> StronglySorted (fun a b => before cmp a b = true) l ->
  StronglySorted (fun a b => before cmp a b = true) (place cmp x l).
Proof.
  intros Hord. induction 1 as [|y l Hl IH Hy]; simpl; [by repeat constructor|].
  destruct (before cmp x y) eqn:Hxy.
  - constructor; [by constructor|]. constructor; [done|]. rewrite List.Forall_forall in *. intros z Hz.
    destruct Hord as [_ Ht]. apply (Ht x y z); simpl; auto.
  - constructor.
    + apply IH. destruct Hord as [Ho Ht]. split; intros; [apply Ho|eapply Ht; [..|eassumption|eassumption]]; simpl in *; tauto.
    + rewrite (place_perm x l). constructor; [|done]. apply (before_total (x :: y :: l)); simpl; auto.
Qed.

Lemma ordered_sub l l' : (forall a, In a l' -> In a l) -> ordered l -> ordered l'.
Proof. intros Hs [Ho Ht]. split; [intros; apply Ho; auto|]. intros a b c Ha Hb Hc. apply Ht; auto. Qed.

Lemma stable_sort_sorted l : ordered l -> StronglySorted (fun a b => before cmp a b = true) (stable_sort cmp l).
Proof.
  induction l as [|x l IH]; simpl; [constructor|]. intros Ho.
  apply place_sorted.
  - eapply ordered_sub; [|exact Ho]. intros a. simpl. intros [->|Ha]; [by left|right].
    apply list_elem_of_In. rewrite <- (stable_sort_perm l). by apply list_elem_of_In.
  - apply IH. eapply ordered_sub; [|exact Ho]. simpl; auto.
Qed.

(** Without ties the outcome does not depend on the order of the input. *)
Lemma stable_sort_unique l l' : ordered l -> (forall a b, In a l -> In b l -> cmp a b = Eq -> a = b) ->
  l ≡ₚ l' -> stable_sort cmp l = stable_sort cmp l'.
Proof.
  intros Ho Hu Hp.
  assert (Hin : forall a, In a l' -> In a l).
  { intros a Ha. apply list_elem_of_In. rewrite Hp. by apply list_elem_of_In. }
  eapply (StronglySorted_unique_strong (fun a b => before cmp a b = true)).
  - intros a b Ha Hb H1 H2. rewrite stable_sort_perm in Ha. rewrite stable_sort_perm, <- Hp in Hb.
    apply list_elem_of_In in Ha, Hb. apply Hu; [done..|]. destruct Ho as [Ho _].
    unfold before in *. rewrite (Ho a b Ha Hb) in H2. by destruct (cmp a b).
  - by apply stable_sort_sorted.
  - apply stable_sort_sorted. by eapply ordered_sub.
  - by rewrite !stable_sort_perm.
Qed.

Lemma consistent_perm l l' : l ≡ₚ l' -> consistent cmp l = consistent cmp l'.
Proof.
  intros Hp. apply eq_iff_eq_true. rewrite !consistent_ordered.
  assert (Hi : forall a, In a l <-> In a l') by (intros a; by rewrite <- !list_elem_of_In, Hp).
  split; apply ordered_sub; intros a; apply Hi.
Qed.
End sort_facts.

(** ** The order of scores *)

(** A float that is no NaN, as a triple that orders as the float does. *)
Definition order_key (x : f32) : Z * Z * Z :=
  match x with
  | S754_infinity true => (-2, 0, 0)
  | S754_finite true m e => (-1, - e, - Zpos m)
  | S754_zero _ | S754_nan => (0, 0, 0)
  | S754_finite false m e => (1, e, Zpos m)
  | S754_infinity false => (2, 0, 0)
  end.
Definition key_cmp : Z * Z * Z -> Z * Z * Z -> comparison := lex_cmp (lex_cmp Z.compare Z.compare) Z.compare.
#[local] Instance key_cmp_total : TotalCmp key_cmp.
Proof. unfold key_cmp. apply _. Qed.

Lemma cmp_or_eq_key a b : is_nan a = false -> is_nan b = false -> cmp_or_eq a b = key_cmp (order_key a) (order_key b).
Proof.
  unfold cmp_or_eq, key_cmp, lex_cmp. destruct a as [|[]| |[] m e], b as [|[]| |[] m' e']; try done; simpl; intros _ _.
  all: rewrite ?Z.compare_opp, ?Pos2Z.opp_pos. all: change (Pos.compare_cont Eq) with Pos.compare.
  all: rewrite ?(Z.compare_antisym e e'); destruct (e ?= e'); simpl; try done.
Qed.

Lemma flip_total {A} (cmp : A -> A -> comparison) : TotalCmp cmp -> TotalCmp (flip cmp).
Proof.
  intros Hc. unfold flip. split.
  - intros a b. rewrite (cmp_eq_iff (cmp:=cmp)). naive_solver.
  - intros a b. apply cmp_antisym.
  - intros a b c Hab Hbc. by eapply (cmp_lt_trans (cmp:=cmp)).
Qed.

#[local] Instance flip_key_total : TotalCmp (flip key_cmp).
Proof. apply flip_total, _. Qed.

Lemma ordered_by_key {A K} (cmp : A -> A -> comparison) (kc : K -> K -> comparison) `{!TotalCmp kc} (f : A -> K) l :
  (forall a b, In a l -> In b l -> cmp a b = kc (f a) (f b)) -> ordered cmp l.
Proof.
  intros Hf. split.
  - intros a b Ha Hb. rewrite !Hf by done. apply cmp_antisym.
  - intros a b c Ha Hb Hc. unfold before. rewrite !Hf by done.
    intros H1 H2. pose proof (cmp_le_trans (cmp:=kc) (f a) (f b) (f c)) as Ht. unfold cmp_le in Ht. auto.
Qed.

Definition f32_leb : f32 -> f32 -> bool := SFleb.
Lemma f32_leb_key a b : is_nan a = false -> is_nan b = false -> f32_leb a b = cmp_le (cmp:=key_cmp) (order_key a) (order_key b).
Proof.
  intros Ha Hb. pose proof (cmp_or_eq_key a b Ha Hb) as Hk. unfold f32_leb, SFleb, cmp_le. rewrite <- Hk.
  unfold cmp_or_eq. destruct (SFcompare a b) as [[]|] eqn:Hc; try done.
  destruct a as [|[]| |[]], b as [|[]| |[]]; try done; simpl in Hc; repeat case_match; done.
Qed.
Lemma f32_ltb_key a b : is_nan a = false -> is_nan b = false -> f32_ltb a b = cmp_lt (cmp:=key_cmp) (order_key a) (order_key b).
Proof.
  intros Ha Hb. pose proof (cmp_or_eq_key a b Ha Hb) as Hk. unfold f32_ltb, SFltb, cmp_lt. rewrite <- Hk.
  unfold cmp_or_eq. destruct (SFcompare a b) as [[]|] eqn:Hc; done.
Qed.
Lemma f32_leb_not_nan a b : f32_leb a b = true -> is_nan a = false /\ is_nan b = false.
Proof. by destruct a as [|[]| |[]], b as [|[]| |[]]. Qed.
Lemma f32_leb_refl a : is_nan a = false -> f32_leb a a = true.
Proof. intros Ha. rewrite f32_leb_key by done. apply cmp_le_refl. Qed.
Lemma f32_leb_trans a b c : f32_leb a b = true -> f32_leb b c = true -> f32_leb a c = true.
Proof.
  intros H1 H2. destruct (f32_leb_not_nan _ _ H1), (f32_leb_not_nan _ _ H2).
  rewrite f32_leb_key in * by done. by eapply cmp_le_trans.
Qed.

(** *** Clamping and the greatest *)

Lemma f32_clamp_bounds lo hi x : f32_leb lo hi = true -> is_nan x = true \/
  (f32_leb lo (f32_clamp lo hi x) = true /\ f32_leb (f32_clamp lo hi x) hi = true).
Proof.
  intros Hlh. destruct (is_nan x) eqn:Hx; [by left|right].
  destruct (f32_leb_not_nan _ _ Hlh) as [Hl Hh]. unfold f32_clamp.
  destruct (f32_ltb x lo) eqn:H1.
  - destruct (f32_ltb hi lo) eqn:H2; split; try done; by apply f32_leb_refl.
  - rewrite f32_ltb_key, cmp_lt_not_le in H1 by done. apply negb_false_iff in H1.
    destruct (f32_ltb hi x) eqn:H2; [split; [done|by apply f32_leb_refl]|].
    rewrite f32_ltb_key, cmp_lt_not_le in H2 by done. apply negb_false_iff in H2.
    by rewrite !f32_leb_key by done.
Qed.

Lemma f32_max_spec `{Float32} a b : is_nan a = false ->
  (f32_max a b = a \/ f32_max a b = b /\ is_nan b = false) /\ f32_leb a (f32_max a b) = true /\
  (is_nan b = false -> f32_leb b (f32_max a b) = true).
Proof.
  intros Ha. destruct (is_nan b) eqn:Hb.
  { destruct b; try done. assert (Hm : f32_max a S754_nan = a) by (by destruct a). rewrite Hm.
    repeat split; [by left|by apply f32_leb_refl|done]. }
  assert (Hm : f32_max a b = if f32_ltb a b then b else if f32_ltb b a then a else if max_second then b else a).
  { by destruct a, b. }
  pose proof (f32_leb_key a b Ha Hb) as Lab. pose proof (f32_leb_key b a Hb Ha) as Lba.
  pose proof (cmp_le_total (cmp:=key_cmp) (order_key a) (order_key b)) as Ht. rewrite <- Lab, <- Lba in Ht.
  pose proof (f32_leb_refl a Ha) as Ra. pose proof (f32_leb_refl b Hb) as Rb.
  rewrite Hm, !f32_ltb_key, !cmp_lt_not_le, <- Lab, <- Lba by done. clear -Ha Hb Ht Ra Rb.
  destruct (f32_leb a b) eqn:E1, (f32_leb b a) eqn:E2; simpl; try destruct max_second; auto 6; by destruct Ht.
Qed.

Lemma f32_max_fold `{Float32} l s : is_nan s = false ->
  let g := fold_left f32_max l s in
  (g = s \/ In g l) /\ f32_leb s g = true /\ forall x, In x l -> is_nan x = false -> f32_leb x g = true.
Proof.
  revert s. induction l as [|y l IH]; intros s Hs; simpl; [by repeat split; [left|apply f32_leb_refl|]|].
  destruct (f32_max_spec s y Hs) as (Hc & H1 & H2). destruct (f32_leb_not_nan _ _ H1) as [_ Hn].
  destruct (IH _ Hn) as (Hg & H3 & H4). repeat split.
  - destruct Hg as [->|Hg]; [|by right; right]. destruct Hc as [Hc|[Hc _]]; rewrite Hc; tauto.
  - by eapply f32_leb_trans.
  - intros x [->|Hx] Hxn; [|by apply H4]. eapply f32_leb_trans; [by apply H2|done].
Qed.

(** ** What the index keeps *)

Definition unit_confidence (r : ActantEntityRelation) : Prop :=
  is_nan (confidence r) = true \/ (f32_leb f32_zero (confidence r) = true /\ f32_leb (confidence r) f32_one = true).
Record index_ok (ix : ActantIndex) : Prop := {
  ok_ids : NoDup (List.map it_id (items ix));
  ok_confidence : Forall unit_confidence (relations ix);
}.

Lemma upsert_ids item l :
  List.map it_id (upsert item l) =
  if mem (it_id item) (List.map it_id l) then List.map it_id l else List.map it_id l ++ [it_id item].
Proof.
  induction l as [|x l IH]; [done|]. simpl. unfold mem in *. simpl. rewrite (string_eqb_sym (it_id item)).
  destruct (String.eqb_spec (it_id x) (it_id item)) as [e|e]; simpl; [by rewrite e|].
  rewrite IH. by destruct (existsb _ _).
Qed.

Definition by_id (id : string) (ix : ActantIndex) : option ActantIndexedItem :=
  List.find (fun x => String.eqb (it_id x) id) (items ix).

Lemma upsert_find item l id :
  List.find (fun x => String.eqb (it_id x) id) (upsert item l) =
  if String.eqb (it_id item) id then Some item else List.find (fun x => String.eqb (it_id x) id) l.
Proof.
  induction l as [|x l IH]; simpl; [done|].
  destruct (String.eqb_spec (it_id x) (it_id item)) as [e|e]; simpl.
  - rewrite e. by destruct (String.eqb _ _).
  - rewrite IH. destruct (String.eqb_spec (it_id item) id) as [Hid|Hid]; [|done].
    by rewrite <- Hid, (proj2 (String.eqb_neq _ _) e).
Qed.

Section spec.
Context `{Unicode} `{Float32} `{Sorting}.

(** The operations of the index. *)
Inductive index_step : ActantIndex -> ActantIndex -> Prop :=
| StepInsert ix item : index_step ix (insert_item item ix)
| StepEntity ix id entity : index_step ix (add_entity id entity ix)
| StepRelation ix r : index_step ix (add_relation r ix).

(** Whatever is called on a new index, its ids stay unique and every confidence is
    in [0, 1] or no number. *)
Theorem index_reachable_ok ix : rtc index_step new_index ix -> index_ok ix.
Proof.
  revert ix. apply (rtc_ind_r (fun ix => index_ok ix)); [split; constructor|].
  intros ix1 ix2 _ Hs [Hi Hc]. destruct Hs as [ix item|ix id entity|ix r]; split; simpl; try done.
  - rewrite upsert_ids. destruct (mem _ _) eqn:Hm; [done|]. apply NoDup_app. split; [done|]. split.
    + intros x Hx ->%list_elem_of_singleton. apply list_elem_of_In in Hx.
      unfold mem in Hm. assert (Ht : existsb (String.eqb (it_id item)) (List.map it_id (items ix)) = true).
      { apply existsb_exists. exists (it_id item). by rewrite String.eqb_refl. }
      by rewrite Ht in Hm.
    + apply NoDup_singleton.
  - apply Forall_app. split; [done|]. constructor; [|done]. unfold unit_confidence. simpl.
    destruct (f32_clamp_bounds f32_zero f32_one (confidence r) eq_refl) as [Hn|Hb]; [|by right].
    left. by destruct (confidence r).
Qed.

Lemma map_inj_NoDup {A B} (f : A -> B) l x y : NoDup (List.map f l) -> In x l -> In y l -> f x = f y -> x = y.
Proof.
  induction l as [|z l IH]; simpl; [done|]. intros [Hz Hl]%NoDup_cons [->|Hx] [->|Hy] Hf; auto.
  - destruct Hz. rewrite Hf. by apply list_elem_of_In, in_map.
  - destruct Hz. rewrite <- Hf. by apply list_elem_of_In, in_map.
Qed.

(** An insertion is found by its id and leaves the other items alone. *)
Theorem insert_by_id item ix id :
  by_id id (insert_item item ix) = if String.eqb (it_id item) id then Some item else by_id id ix.
Proof. apply upsert_find. Qed.

(** ** The graph score *)

(** What raises the score of an item with these labels: one for each label the query
    names, the confidence for each relation between a label and another entity of
    the query. *)
Definition contributions (rels : list ActantEntityRelation) (entities qes : list string) : list f32 :=
  concat (List.map (fun q => if mem q entities then [f32_one]
                             else List.map confidence (List.filter (connects q entities) rels)) qes).

Lemma raise_by_relations q entities rels s :
  fold_left (raise_by_relation q entities) rels s =
  fold_left f32_max (List.map confidence (List.filter (connects q entities) rels)) s.
Proof.
  revert s. induction rels as [|r rels IH]; intros s; simpl; [done|]. unfold raise_by_relation at 2.
  destruct (connects q entities r); simpl; apply IH.
Qed.
Lemma raise_by_entities rels entities qes s :
  fold_left (raise_by_entity rels entities) qes s = fold_left f32_max (contributions rels entities qes) s.
Proof.
  revert s. unfold contributions. induction qes as [|q qes IH]; intros s; simpl; [done|].
  rewrite fold_left_app, IH. f_equal. unfold raise_by_entity. destruct (mem q entities); [done|]. apply raise_by_relations.
Qed.

Lemma contributions_unit ix entities qes : index_ok ix -> Forall (fun x => is_nan x = true \/
  (f32_leb f32_zero x = true /\ f32_leb x f32_one = true)) (contributions (relations ix) entities qes).
Proof.
  intros [_ Hc]. rewrite List.Forall_forall in *. intros x Hx. apply in_concat in Hx as (l & Hl & Hx).
  apply in_map_iff in Hl as (q & <- & Hq). destruct (mem q entities).
  - destruct Hx as [<-|[]]. by right.
  - apply in_map_iff in Hx as (r & <- & Hr). apply filter_In in Hr as [Hr _]. by apply Hc.
Qed.

(** The graph score of a labelled item is the greatest of what raises it: none of
    them exceeds it, it is one of them or zero, and it lies in [0, 1]. *)
Theorem graph_score_spec (ix : ActantIndex) (item : ActantIndexedItem) (qes : list string) :
  index_ok ix ->
  let s := graph_score ix item qes in
  let raises := contributions (relations ix) (default [] (item_entities ix !! it_id item)) qes in
  f32_leb f32_zero s = true /\ f32_leb s f32_one = true /\
  (is_Some (item_entities ix !! it_id item) ->
   (s = f32_zero \/ In s raises) /\ forall x, In x raises -> is_nan x = false -> f32_leb x s = true) /\
  (item_entities ix !! it_id item = None -> s = f32_zero).
Proof.
  intros Hok s raises. subst s raises. unfold graph_score.
  destruct (item_entities ix !! it_id item) as [entities|]; simpl; last first.
  { destruct qes; (split; [done|split; [done|split; [by intros [? ?]|done]]]). }
  set (s := match qes with [] => f32_zero | _ => _ end).
  assert (Hs : s = fold_left f32_max (contributions (relations ix) entities qes) f32_zero).
  { subst s. destruct qes; [done|]. apply raise_by_entities. }
  clearbody s. subst s.
  destruct (f32_max_fold (contributions (relations ix) entities qes) f32_zero eq_refl) as (Hg & Hlo & Hhi).
  split; [done|]. split; [|by split].
  destruct Hg as [->|Hg]; [done|]. pose proof (contributions_unit ix entities qes Hok) as Hu.
  rewrite List.Forall_forall in Hu. destruct (Hu _ Hg) as [Hn|[_ Hb]]; [|done].
  apply f32_leb_not_nan in Hlo as [_ Hlo]. congruence.
Qed.

(** An entity without a word of two letters matches every query. *)
Theorem short_entity_matches (entity : string) (terms : list string) :
  Forall (fun w => str_len (to_lowercase (trim w)) < 2) (words entity) ->
  normalize_entity entity = "" /\ entity_matches_terms entity terms = true.
Proof.
  intros Hw. assert (Ht : tokenize entity = []).
  { unfold tokenize. assert (Ho : forall l, Forall (fun w => str_len (to_lowercase (trim w)) < 2) l ->
      omap (fun raw => if str_len (to_lowercase (trim raw)) <? 2 then None else Some (to_lowercase (trim raw))) l = []).
    { induction 1 as [|w l Hl _ IH]; [done|]. csimpl. by rewrite (proj2 (Z.ltb_lt _ _) Hl). }
    by rewrite Ho. }
  unfold normalize_entity, entity_matches_terms. by rewrite Ht.
Qed.

(** ** What a search answers *)

Definition numbers (scores : list f32) : Prop := Forall (fun x => is_nan x = false) scores.

Lemma sort_by_ordered {A} (cmp : A -> A -> comparison) l : ordered cmp l -> sort_by cmp l = Some (stable_sort cmp l).
Proof. intros Ho. unfold sort_by. by rewrite (proj2 (consistent_ordered cmp l) Ho). Qed.

Lemma dense_ordered l : numbers (List.map fst l) -> ordered by_score l.
Proof.
  intros Hn. apply (ordered_by_key _ (flip key_cmp) (fun a => order_key a.1)). intros a b Ha Hb.
  unfold numbers in Hn. rewrite List.Forall_forall in Hn. apply cmp_or_eq_key; apply Hn; by apply in_map.
Qed.
Definition hit_cmp : (Z * Z * Z) * string -> (Z * Z * Z) * string -> comparison := lex_cmp (flip key_cmp) String.compare.
#[local] Instance hit_cmp_total : TotalCmp hit_cmp.
Proof. unfold hit_cmp. apply _. Qed.
Lemma hits_ordered l : numbers (List.map sh_score l) ->
  forall a b, In a l -> In b l ->
    score_order a b = hit_cmp (order_key (sh_score a), it_id (sh_item a)) (order_key (sh_score b), it_id (sh_item b)).
Proof.
  intros Hn a b Ha Hb. unfold numbers in Hn. rewrite List.Forall_forall in Hn.
  unfold score_order, hit_cmp, lex_cmp, flip. simpl. rewrite cmp_or_eq_key; [done|apply Hn; by apply in_map..].
Qed.

Lemma score_item_item ix q t o item : sh_item (score_item ix q t o item) = item.
Proof. done. Qed.


(** Dense search keeps the order of insertion among equal scores; with NaN scores
    what it answers, when it does not panic, still comes from the index. *)
Theorem search_spec `{!SortingLaws} (ix : ActantIndex) (query : Embedding) (k : nat) :
  (numbers (List.map fst (dense_scores ix query)) ->
   search ix query k = Some (take k (stable_sort by_score (dense_scores ix query))) /\
   StronglySorted (fun a b => before by_score a b = true) (stable_sort by_score (dense_scores ix query))) /\
  forall hits, search ix query k = Some hits ->
    exists rest, hits ++ rest ≡ₚ dense_scores ix query /\ List.length hits = Nat.min k (index_len ix).
Proof.
  unfold search. split.
  - intros Hn. pose proof (dense_ordered _ Hn) as Ho. rewrite sort_by_ordered by done. split; [done|by apply stable_sort_sorted].
  - intros hits Hs. destruct (sort_by by_score (dense_scores ix query)) as [l|] eqn:Hl; [|done].
    assert (Hp : l ≡ₚ dense_scores ix query).
    { unfold sort_by in Hl. destruct (consistent _ _); [injection Hl as <-; apply stable_sort_perm|].
      by eapply disordered_perm. }
    injection Hs as <-. exists (drop k l). rewrite take_drop. split; [done|].
    rewrite length_take, Hp. unfold dense_scores, index_len. by rewrite length_map.
Qed.
End spec.
