(* ===== verification/Embedders.v ===== *)
(** * Embedders ([actant-embedders])

    The hash embedder, the sparse BM25 encoder with its dot product, the identity
    reranker, the registry of providers and the check that two of them share a
    space.  The SHA-256 digest, [ln], Unicode and the remote service behind the
    OpenAI adapter are parameters. *)

From Stdlib Require Import SpecFloat.
From S2P Require Import Prelude Str Json Compat Retrieval.
#[local] Open Scope string_scope.
#[local] Open Scope list_scope.
#[local] Open Scope Z_scope.

(** ** Spaces ([space.rs]) *)

Inductive SpaceError := ProviderMismatch (lhs rhs : string).
Definition space_error_text `{DebugString} (e : SpaceError) : string :=
  let 'ProviderMismatch lhs rhs := e in
  "cross-space mismatch: lhs provider=" +:+ debug_string lhs +:+ " rhs provider=" +:+ debug_string rhs.
Definition cross_space_check (lhs rhs : string) : result SpaceError unit :=
  if String.eqb lhs rhs then Ok tt else Err (ProviderMismatch lhs rhs).

(** ** Sparse vectors ([sparse.rs]) *)

Record SparseVector := mkSparse { indices : list Z; values : list f32 }.
Definition nnz (v : SparseVector) : nat := List.length (indices v).

(** The two cursors of [dot]; an index without a value panics. *)
Fixpoint dot_loop (xs : list Z) (vs : list f32) : list Z -> list f32 -> f32 -> option f32 :=
  fix inner (ys : list Z) (ws : list f32) (acc : f32) : option f32 :=
    match xs, ys with
    | [], _ | _, [] => Some acc
    | i :: xs1, j :: ys1 =>
        match i ?= j with
        | Lt => dot_loop xs1 (tail vs) ys ws acc
        | Gt => inner ys1 (tail ws) acc
        | Eq =>
            match vs, ws with
            | v :: vs', w :: ws' => dot_loop xs1 vs' ys1 ws' (f32_add acc (f32_mul v w))
            | _, _ => None
            end
        end
    end.
Definition dot (a b : SparseVector) : option f32 :=
  dot_loop (indices a) (values a) (indices b) (values b) f32_zero.

(** ** BM25 *)

Record Bm25Encoder := mkBm25 {
  k1 : f32; bm_b : f32; df : gmap Z Z; n_docs : Z; avgdl : f32; total_tokens : Z; finalized : bool
}.
Definition new_bm25 : Bm25Encoder := mkBm25 (f32_ratio 3 2) (f32_ratio 3 4) ∅ 0 f32_zero 0 false.

(** FNV-1a, 32 bits. *)
Definition fnv_step (hash : Z) (x : Ascii.ascii) : Z := u32_wrapping_mul (Z.lxor hash (byte x)) 16777619.
Fixpoint fnv (hash : Z) (s : string) : Z :=
  match s with EmptyString => hash | String x s' => fnv (fnv_step hash x) s' end.
Definition token_id (tok : string) : Z := fnv 2166136261 tok.

(** [trim_matches] of what is not [is_alphanumeric()]. *)
Class TrimSymbols := trim_symbols : string -> string.

(** [+= 1] of a [u32], as a release build has it. *)
Definition bump (m : gmap Z Z) (id : Z) : gmap Z Z := <[id := (default 0 (m !! id) + 1) mod 2 ^ 32]> m.

Section bm25.
Context `{Unicode} `{TrimSymbols} `{Float32}.

Definition bm25_tokenize (text : string) : list string :=
  List.filter (fun s => negb (String.eqb s ""))
    (List.map (fun t => to_lowercase (trim_symbols t)) (split_whitespace text)).
Definition token_ids (text : string) : list Z := List.map token_id (bm25_tokenize text).

Definition index_document (text : string) (enc : Bm25Encoder) : Bm25Encoder :=
  let ids := token_ids text in
  mkBm25 (k1 enc) (bm_b enc) (fold_left bump (remove_dups ids) (df enc)) ((n_docs enc + 1) mod 2 ^ 32)
    (avgdl enc) ((total_tokens enc + Z.of_nat (List.length ids)) mod 2 ^ 64) false.

Definition finalize (enc : Bm25Encoder) : Bm25Encoder :=
  mkBm25 (k1 enc) (bm_b enc) (df enc) (n_docs enc)
    (if n_docs enc =? 0 then f32_zero else f32_div (f32_of_Z (total_tokens enc)) (f32_of_Z (n_docs enc)))
    (total_tokens enc) true.

Definition idf (enc : Bm25Encoder) (tok_id : Z) : f32 :=
  let df := f32_of_Z (default 0 (df enc !! tok_id)) in
  let n := f32_of_Z (n_docs enc) in
  let half := f32_ratio 1 2 in
  f32_ln (f32_add (f32_div (f32_add (f32_sub n df) half) (f32_add df half)) f32_one).

Definition term_weight (enc : Bm25Encoder) (dl avg : f32) (id count : Z) : f32 :=
  let f := f32_of_Z count in
  let denom := f32_add f (f32_mul (k1 enc)
    (f32_add (f32_sub f32_one (bm_b enc)) (f32_mul (bm_b enc) (f32_div dl avg)))) in
  let numer := f32_mul f (f32_add (k1 enc) f32_one) in
  if f32_ltb f32_zero denom then f32_mul (idf enc id) (f32_div numer denom) else f32_zero.

Definition term_frequencies (ids : list Z) : gmap Z Z := fold_left bump ids ∅.
Definition id_order (p q : Z * f32) : Prop := p.1 <= q.1.
#[export] Instance id_order_dec p q : Decision (id_order p q).
Proof. unfold id_order. apply _. Defined.
(** The pairs come out of a hash map and are sorted by their id. *)
Definition encode (enc : Bm25Encoder) (text : string) : SparseVector :=
  match token_ids text with
  | [] => mkSparse [] []
  | ids =>
      let dl := f32_of_Z (Z.of_nat (List.length ids)) in
      let avg := if f32_ltb f32_zero (avgdl enc) then avgdl enc else dl in
      let pairs := List.map (fun '(id, count) => (id, term_weight enc dl avg id count))
        (map_to_list (term_frequencies ids)) in
      let sorted := merge_sort id_order pairs in
      mkSparse (List.map fst sorted) (List.map snd sorted)
  end.
End bm25.

(** ** The providers *)

Record Embedder := mkEmbedder {
  em_provider : string; em_dimension : Z; embed : string -> result string Embedding
}.
Record SparseEncoder := mkSparseEncoder { se_provider : string; se_encode : string -> SparseVector }.
Record RerankResult := mkRerank { rr_idx : nat; rr_score : f32; rr_reason : string }.
Record Reranker := mkReranker { rk_provider : string; do_rerank : string -> list string -> list RerankResult }.

(** The 32 bytes of SHA-256. *)
Class Digest := digest : string -> list Z.
Class DigestLaws `{Digest} : Prop := {
  digest_length : forall s, List.length (digest s) = 32%nat;
  digest_bytes : forall s, Forall (fun x => 0 <= x < 256) (digest s);
}.

(** [b as f32 / 127.5 - 1.0]. *)
Definition bucket (x : Z) : f32 := f32_sub (f32_div (f32_of_Z x) (f32_ratio 255 2)) f32_one.
Definition HashEmbedder `{Digest} : Embedder :=
  mkEmbedder "hash" 32 (fun text => Ok (mkEmbedding "hash" "sha256-32d" (List.map bucket (digest text)))).

Definition bm25_provider `{Unicode} `{TrimSymbols} `{Float32} (enc : Bm25Encoder) : SparseEncoder :=
  mkSparseEncoder "bm25" (encode enc).

Definition identity_reason : string := "no-op identity reranker; install rerank-bge for semantic rerank.".
Definition IdentityReranker : Reranker :=
  mkReranker "identity" (fun _ docs => List.map (fun i => mkRerank i f32_one identity_reason) (seq 0 (List.length docs))).

(** The answer of the embeddings service: whether the status is a success, its
    text, the body, and the rows serde reads from it; or an error of the transport. *)
Record EmbedAnswer := mkEmbedAnswer {
  ea_success : bool; ea_status : string; ea_body : string; ea_rows : result string (list (list f32))
}.
Record OpenAiEmbedder := mkOpenAi { base_url : string; api_key : string; oa_model : string; dim : Z }.
Definition openai_embed (post : string -> string -> string -> string -> result string EmbedAnswer)
    (e : OpenAiEmbedder) (text : string) : result string Embedding :=
  resp ← post (base_url e +:+ "/v1/embeddings") (api_key e) (oa_model e) text;
  if negb (ea_success resp) then
    Err ("openai embeddings non-2xx: " +:+ ea_status resp +:+ " " +:+ ea_body resp)
  else
    rows ← ea_rows resp;
    match last rows with
    | Some row => Ok (mkEmbedding "openai" (oa_model e) row)
    | None => Err "openai response had no data rows"
    end.
Definition openai_provider (post : string -> string -> string -> string -> result string EmbedAnswer)
    (e : OpenAiEmbedder) : Embedder := mkEmbedder "openai" (dim e) (openai_embed post e).

(** ** The registry ([registry.rs]) *)

Record Registry := mkRegistry {
  embedders : gmap string Embedder; sparse : gmap string SparseEncoder; rerankers : gmap string Reranker
}.
Definition new_registry : Registry := mkRegistry ∅ ∅ ∅.
Definition register_embedder (name : string) (e : Embedder) (r : Registry) : Registry :=
  mkRegistry (<[name := e]> (embedders r)) (sparse r) (rerankers r).
Definition register_sparse (name : string) (e : SparseEncoder) (r : Registry) : Registry :=
  mkRegistry (embedders r) (<[name := e]> (sparse r)) (rerankers r).
Definition register_reranker (name : string) (e : Reranker) (r : Registry) : Registry :=
  mkRegistry (embedders r) (sparse r) (<[name := e]> (rerankers r)).
Definition with_defaults `{Digest} `{Unicode} `{TrimSymbols} `{Float32} : Registry :=
  register_reranker "identity" IdentityReranker
    (register_sparse "bm25" (bm25_provider new_bm25) (register_embedder "hash" HashEmbedder new_registry)).
Definition embedder (r : Registry) (name : string) : option Embedder := embedders r !! name.
Definition sparse_encoder (r : Registry) (name : string) : option SparseEncoder := sparse r !! name.
Definition reranker (r : Registry) (name : string) : option Reranker := rerankers r !! name.
(** Unordered. *)
Definition embedder_names (r : Registry) : gset string := dom (embedders r).

Inductive RegistryError := Unknown (name : string) | Space (e : SpaceError).
Definition registry_error_text `{DebugString} (e : RegistryError) : string :=
  match e with Unknown name => "unknown provider: " +:+ name | Space e => space_error_text e end.
Definition err_map {E F A} (f : E -> F) (r : result E A) : result F A :=
  match r with Ok a => Ok a | Err e => Err (f e) end.
Definition ok_or_unknown (r : Registry) (name : string) : result RegistryError Embedder :=
  match embedder r name with Some e => Ok e | None => Err (Unknown name) end.
Definition check_cross_space (r : Registry) (lhs rhs : string) : result RegistryError unit :=
  el ← ok_or_unknown r lhs;
  er ← ok_or_unknown r rhs;
  err_map Space (cross_space_check (em_provider el) (em_provider er)).

(** ** The dot product *)

(** The pairs of weights of the ids both vectors have, in the order of the first. *)
Fixpoint weight_of (id : Z) (ids : list Z) (vs : list f32) : option f32 :=
  match ids, vs with i :: ids', v :: vs' => if i =? id then Some v else weight_of id ids' vs' | _, _ => None end.
Definition common (a b : SparseVector) : list (f32 * f32) :=
  omap (fun '(i, v) => w ← weight_of i (indices b) (values b); Some (v, w)) (combine (indices a) (values a)).
Definition ascending (v : SparseVector) : Prop :=
  StronglySorted Z.lt (indices v) /\ List.length (indices v) = List.length (values v).

Lemma dot_loop_nil_r xs vs ws acc : dot_loop xs vs [] ws acc = Some acc.
Proof. by destruct xs. Qed.

Lemma weight_of_below i ids vs : Forall (Z.lt i) ids -> weight_of i ids vs = None.
Proof.
  intros Hf. revert vs. induction Hf as [|j ids Hj Hf IH]; intros [|v vs]; simpl; try done.
  rewrite (proj2 (Z.eqb_neq j i)) by lia. apply IH.
Qed.

Lemma common_skip ids vs j w ids' vs' : Forall (fun i => j <> i) ids ->
  common (mkSparse ids vs) (mkSparse (j :: ids') (w :: vs')) = common (mkSparse ids vs) (mkSparse ids' vs').
Proof.
  intros Hf. revert vs. unfold common. simpl. induction Hf as [|x ids Hx Hf IH]; intros [|y vs]; try done.
  csimpl. rewrite (proj2 (Z.eqb_neq j x)) by done. destruct (weight_of x ids' vs'); simpl; [f_equal|]; apply IH.
Qed.

Lemma dot_loop_spec ids vs : StronglySorted Z.lt ids -> List.length ids = List.length vs ->
  forall ids' vs' acc, StronglySorted Z.lt ids' -> List.length ids' = List.length vs' ->
  dot_loop ids vs ids' vs' acc =
  Some (fold_left (fun acc '(v, w) => f32_add acc (f32_mul v w)) (common (mkSparse ids vs) (mkSparse ids' vs')) acc).
Proof.
  intros Hs. revert vs. induction Hs as [|i ids Hs IH Hi]; intros [|v vs] Hl; try done.
  { by intros [] [] acc. }
  intros ids' vs' acc Hs'. revert vs' acc. induction Hs' as [|j ids' Hs' IH' Hj]; intros [|w vs'] acc Hl'; try done.
  { unfold common. simpl. by clear; induction (combine ids vs) as [|[]]. }
  simpl. destruct (Z.compare_spec i j) as [->|Hij|Hij].
  - simpl in Hl, Hl'. rewrite IH by (done || lia). rewrite <- (common_skip ids vs j w).
    + unfold common. simpl. by rewrite Z.eqb_refl.
    + eapply Forall_impl; [exact Hi|]. intros k Hk. cbv beta in Hk. lia.
  - simpl in Hl. rewrite IH; [|lia|by constructor|done]. unfold common at 2. csimpl.
    rewrite (proj2 (Z.eqb_neq j i)) by lia.
    rewrite (weight_of_below i ids' vs'); [done|]. eapply Forall_impl; [exact Hj|]. simpl. lia.
  - simpl in Hl'. cbn [tail]. etransitivity; [apply IH'; lia|]. f_equal. f_equal. symmetry.
    apply common_skip. constructor; [lia|]. eapply Forall_impl; [exact Hi|]. simpl. lia.
Qed.

(** On vectors whose ids ascend, [dot] does not panic and is the sum over the ids both have. *)
Theorem dot_spec (a b : SparseVector) : ascending a -> ascending b ->
  dot a b = Some (fold_left (fun acc '(v, w) => f32_add acc (f32_mul v w)) (common a b) f32_zero).
Proof. destruct a, b. intros [] []. by apply dot_loop_spec. Qed.

Lemma f32_mul_comm x y : f32_mul x y = f32_mul y x.
Proof.
  unfold f32_mul, SFmul. destruct x as [[]|[]| |[] m e], y as [[]|[]| |[] m' e']; try done;
    simpl; by rewrite Pos.mul_comm, Z.add_comm.
Qed.

(** Whatever the vectors, the product is symmetric, panics included. *)
Theorem dot_comm (a b : SparseVector) : dot a b = dot b a.
Proof.
  unfold dot. destruct a as [xs vs], b as [ys ws]. simpl. generalize f32_zero as acc.
  revert vs ys ws. induction xs as [|i xs IH]; intros vs ys ws acc; [rewrite dot_loop_nil_r; by destruct ys|].
  revert vs ws acc. induction ys as [|j ys IH']; intros vs ws acc; [done|].
  simpl. rewrite (Z.compare_antisym i j). destruct (i ?= j); simpl.
  - destruct vs, ws; try done. rewrite f32_mul_comm. apply IH.
  - apply IH.
  - apply IH'.
Qed.

(** ** The corpus *)

Lemma bump_lookup m id k : bump m id !! k = if k =? id then Some ((default 0 (m !! id) + 1) mod 2 ^ 32) else m !! k.
Proof. unfold bump. destruct (Z.eqb_spec k id) as [->|]; [by rewrite lookup_insert_eq|by rewrite lookup_insert_ne]. Qed.

Definition occurrences (id : Z) (ids : list Z) : Z := Z.of_nat (List.length (List.filter (Z.eqb id) ids)).

(** Counting with wrap-around. *)
Lemma bumps_lookup ids m k : (forall n, m !! k = Some n -> 0 <= n < 2 ^ 32) ->
  fold_left bump ids m !! k =
  if occurrences k ids =? 0 then m !! k else Some ((default 0 (m !! k) + occurrences k ids) mod 2 ^ 32).
Proof.
  revert m. induction ids as [|i ids IH]; intros m Hm; [done|]. cbn [fold_left].
  assert (Hc : occurrences k (i :: ids) = occurrences k ids + if k =? i then 1 else 0).
  { unfold occurrences. simpl. destruct (k =? i); simpl List.length; lia. }
  assert (Hp : 0 <= occurrences k ids) by (unfold occurrences; lia).
  rewrite Hc, IH, bump_lookup; clear IH.
  2:{ intros n. rewrite bump_lookup. destruct (Z.eqb_spec k i); [|apply Hm]. intros [= <-]. by apply Z.mod_pos_bound. }
  destruct (Z.eqb_spec k i) as [->|].
  - rewrite (proj2 (Z.eqb_neq (_ + 1) 0)) by lia. simpl default.
    destruct (Z.eqb_spec (occurrences i ids) 0) as [->|]; [done|].
    rewrite Zplus_mod_idemp_l. do 2 f_equal. lia.
  - by rewrite Z.add_0_r.
Qed.

Section corpus.
Context `{Unicode} `{TrimSymbols} `{Float32}.

Definition index_all (docs : list string) (enc : Bm25Encoder) : Bm25Encoder :=
  fold_left (fun enc d => index_document d enc) docs enc.
Definition has_term (id : Z) (doc : string) : bool := bool_decide (id ∈ token_ids doc).
Definition documents_with (id : Z) (docs : list string) : Z := Z.of_nat (List.length (List.filter (has_term id) docs)).
Definition all_tokens (docs : list string) : Z :=
  foldr (fun d n => Z.of_nat (List.length (token_ids d)) + n) 0 docs.

Lemma occurrences_once id ids : occurrences id (remove_dups ids) = if bool_decide (id ∈ ids) then 1 else 0.
Proof.
  unfold occurrences. induction ids as [|x ids IH]; [done|]. simpl.
  destruct (decide_rel elem_of x ids) as [Hx|Hx].
  - rewrite IH. do 2 case_bool_decide; set_solver.
  - simpl. destruct (Z.eqb_spec id x) as [->|Hn]; simpl List.length.
    + rewrite bool_decide_eq_false_2 in IH by done. rewrite bool_decide_eq_true_2 by set_solver. lia.
    + rewrite IH. do 2 case_bool_decide; set_solver.
Qed.

(** What indexing a list of documents leaves. *)
Lemma index_all_spec docs enc : (forall k n, df enc !! k = Some n -> 0 <= n < 2 ^ 32) ->
  let enc' := index_all docs enc in
  (forall k, df enc' !! k = if documents_with k docs =? 0 then df enc !! k
                            else Some ((default 0 (df enc !! k) + documents_with k docs) mod 2 ^ 32)) /\
  (docs <> [] -> n_docs enc' = (n_docs enc + Z.of_nat (List.length docs)) mod 2 ^ 32 /\
     total_tokens enc' = (total_tokens enc + all_tokens docs) mod 2 ^ 64 /\ finalized enc' = false) /\
  k1 enc' = k1 enc /\ bm_b enc' = bm_b enc /\ avgdl enc' = avgdl enc.
Proof.
  revert enc. induction docs as [|d docs IH]; intros enc Hd; [done|].
  set (e1 := index_document d enc).
  assert (Hone : forall k, df e1 !! k = if has_term k d then Some ((default 0 (df enc !! k) + 1) mod 2 ^ 32) else df enc !! k).
  { intros k. unfold e1, index_document. simpl. rewrite bumps_lookup by (intros n; apply Hd).
    rewrite occurrences_once. unfold has_term. by destruct (bool_decide _). }
  destruct (IH e1) as (Hdf & Hne & Hk & Hb & Ha).
  { intros k n. rewrite Hone. destruct (has_term k d); [intros [= <-]; by apply Z.mod_pos_bound|apply Hd]. }
  cbn [index_all fold_left] in *. fold e1. change (fold_left _ docs e1) with (index_all docs e1).
  split; [|split; [|by rewrite Hk, Hb, Ha]].
  - intros k. rewrite Hdf, Hone. clear.
    assert (Hc : documents_with k (d :: docs) = documents_with k docs + if has_term k d then 1 else 0).
    { unfold documents_with. simpl. destruct (has_term k d); simpl List.length; lia. }
    assert (Hp : 0 <= documents_with k docs) by (unfold documents_with; lia).
    rewrite Hc. destruct (has_term k d).
    + rewrite (proj2 (Z.eqb_neq (_ + 1) 0)) by lia. simpl default.
      destruct (Z.eqb_spec (documents_with k docs) 0) as [->|]; [done|].
      rewrite Zplus_mod_idemp_l. do 2 f_equal. lia.
    + by rewrite Z.add_0_r.
  - intros _. assert (Hal : all_tokens (d :: docs) = Z.of_nat (List.length (token_ids d)) + all_tokens docs) by done.
    destruct docs as [|d' docs].
    + unfold index_all, e1, index_document. cbn [fold_left n_docs total_tokens finalized]. rewrite Hal. unfold all_tokens. simpl.
      split; [done|]. by rewrite Z.add_0_r.
    + destruct Hne as (Hn & Ht & Hf); [done|]. rewrite Hn, Ht, Hf, Hal. unfold e1, index_document. cbn [n_docs total_tokens].
      rewrite !Zplus_mod_idemp_l. split; [f_equal; simpl List.length; lia|]. split; [f_equal; lia|done].
Qed.

(** The statistics of a corpus: a term's document frequency is the number of
    documents that have it, and the order of the documents does not matter. *)
Theorem corpus_spec (docs docs' : list string) : docs ≡ₚ docs' ->
  (forall id, df (index_all docs new_bm25) !! id =
     if documents_with id docs =? 0 then None else Some (documents_with id docs mod 2 ^ 32)) /\
  n_docs (index_all docs new_bm25) = Z.of_nat (List.length docs) mod 2 ^ 32 /\
  total_tokens (index_all docs new_bm25) = all_tokens docs mod 2 ^ 64 /\
  index_all docs' new_bm25 = index_all docs new_bm25.
Proof.
  intros Hp. destruct (index_all_spec docs new_bm25) as (Hdf & Hne & Hk & Hb & Ha); [done|].
  destruct (index_all_spec docs' new_bm25) as (Hdf' & Hne' & Hk' & Hb' & Ha'); [done|].
  assert (Hw : forall id, documents_with id docs' = documents_with id docs).
  { intros id. unfold documents_with. f_equal. clear -Hp. induction Hp; simpl; repeat case_match; simpl; congruence. }
  assert (Hl : List.length docs' = List.length docs) by (by rewrite Hp).
  assert (Ht : all_tokens docs' = all_tokens docs).
  { unfold all_tokens. clear -Hp. induction Hp; simpl; lia. }
  split; [intros id; by rewrite Hdf|].
  destruct (decide (docs = [])) as [->|Hd].
  { apply Permutation_nil_l in Hp as <-. done. }
  destruct (Hne Hd) as (Hn & Htt & Hf). split; [done|]. split; [done|].
  assert (Hd' : docs' <> []) by (intros ->; by apply Permutation_nil_r in Hp).
  destruct (Hne' Hd') as (Hn' & Htt' & Hf').
  assert (Hm : df (index_all docs' new_bm25) = df (index_all docs new_bm25)).
  { apply map_eq. intros id. by rewrite Hdf, Hdf', Hw. }
  destruct (index_all docs' new_bm25), (index_all docs new_bm25). simpl in *. congruence.
Qed.

(** ** The encoding *)

Lemma token_id_range tok : 0 <= token_id tok < 2 ^ 32.
Proof.
  unfold token_id. assert (Hg : forall s h, 0 <= h < 2 ^ 32 -> 0 <= fnv h s < 2 ^ 32); [|by apply Hg].
  induction s as [|x s IH]; intros h Hh; [done|]. apply IH. by apply Z.mod_pos_bound.
Qed.

Lemma term_frequencies_dom ids k : is_Some (term_frequencies ids !! k) <-> In k ids.
Proof.
  unfold term_frequencies. rewrite bumps_lookup by done.
  rewrite <- list_elem_of_In. destruct (Z.eqb_spec (occurrences k ids) 0) as [He|He].
  - rewrite lookup_empty. split; [by intros [? ?]|]. intros Hk. exfalso.
    apply list_elem_of_In, (fun h => conj h (Z.eqb_refl k)), filter_In in Hk.
    unfold occurrences in He. destruct (List.filter (Z.eqb k) ids); [done|simpl in He; lia].
  - split; [|eauto]. intros _. unfold occurrences in He. destruct (List.filter (Z.eqb k) ids) as [|x l] eqn:Hl; [done|].
    assert (Hx : In x (List.filter (Z.eqb k) ids)) by (rewrite Hl; by left).
    apply filter_In in Hx as [Hx ->%Z.eqb_eq]. by apply list_elem_of_In.
Qed.

Lemma strictly_sorted (l : list Z) : StronglySorted Z.le l -> NoDup l -> StronglySorted Z.lt l.
Proof.
  induction 1 as [|x l Hl IH Hx]; intros Hn; [constructor|]. apply NoDup_cons in Hn as [Hn Hd].
  constructor; [by apply IH|]. rewrite List.Forall_forall in *. intros y Hy. pose proof (Hx y Hy).
  assert (x <> y) by (intros ->; by apply Hn, list_elem_of_In). lia.
Qed.

(** Every encoding has strictly ascending 32-bit ids, one weight for each, and its
    ids are those of the tokens of the text. *)
Theorem encode_spec (enc : Bm25Encoder) (text : string) :
  let v := encode enc text in
  ascending v /\ (forall id, In id (indices v) <-> In id (token_ids text)) /\
  Forall (fun id => 0 <= id < 2 ^ 32) (indices v).
Proof.
  assert (Hr : forall id, In id (token_ids text) -> 0 <= id < 2 ^ 32).
  { intros id (tok & <- & _)%in_map_iff. apply token_id_range. }
  cbv zeta. assert (Hi : forall id, In id (indices (encode enc text)) <-> In id (token_ids text)).
  { intros id. unfold encode. destruct (token_ids text) as [|x ids] eqn:Hids; [done|]. cbn [indices].
    transitivity (is_Some (term_frequencies (x :: ids) !! id)); [|apply term_frequencies_dom].
    etransitivity; [apply in_map_iff|]. split.
    - intros ([k w] & <- & Hk). apply list_elem_of_In in Hk. rewrite merge_sort_Permutation in Hk.
      apply list_elem_of_In, in_map_iff in Hk as ([k' c] & [= <- _] & Hc).
      apply list_elem_of_In, elem_of_map_to_list in Hc. simpl. eauto.
    - intros [c Hc]. eexists (id, _). split; [done|]. apply list_elem_of_In. rewrite merge_sort_Permutation.
      apply list_elem_of_In, in_map_iff. exists (id, c). split; [done|]. by apply list_elem_of_In, elem_of_map_to_list. }
  split; [|split; [done|apply List.Forall_forall; intros id Hid; by apply Hr, Hi]].
  unfold ascending, encode. destruct (token_ids text) as [|x ids]; [by split; constructor|]. cbn [indices values].
  rewrite !length_map. split; [|done]. set (pairs := List.map _ (map_to_list _)). apply strictly_sorted.
  - assert (Hs : StronglySorted id_order (merge_sort id_order pairs)).
    { apply StronglySorted_merge_sort; [intros p q r; unfold id_order; lia|intros p q; unfold id_order; lia]. }
    clear -Hs. induction Hs as [|p l Hl IH Hp]; simpl; constructor; [done|]. apply Forall_map. done.
  - rewrite (Permutation_map fst (merge_sort_Permutation id_order pairs)). subst pairs.
    rewrite map_map. erewrite map_ext; [apply NoDup_fst_map_to_list|]. by intros [].
Qed.
End corpus.

(** ** The embedder, the reranker and the registry *)

Lemma bucket_bounds x : 0 <= x < 256 -> f32_leb (f32_of_Z (-1)) (bucket x) = true /\ f32_leb (bucket x) f32_one = true.
Proof.
  intros Hx. assert (Ha : forallb (fun n => f32_leb (f32_of_Z (-1)) (bucket (Z.of_nat n)) && f32_leb (bucket (Z.of_nat n)) f32_one)
    (seq 0 256) = true) by (vm_compute; reflexivity).
  rewrite forallb_forall in Ha. specialize (Ha (Z.to_nat x)). rewrite Z2Nat.id in Ha by lia.
  apply andb_true_iff, Ha. apply in_seq. lia.
Qed.

(** The hash embedder always answers, 32 numbers in [-1, 1]. *)
Theorem hash_embedding_spec `{Digest} `{!DigestLaws} (text : string) :
  exists v, embed HashEmbedder text = Ok (mkEmbedding "hash" "sha256-32d" v) /\
    Z.of_nat (List.length v) = em_dimension HashEmbedder /\
    Forall (fun x => f32_leb (f32_of_Z (-1)) x = true /\ f32_leb x f32_one = true) v.
Proof.
  eexists. split; [done|]. rewrite length_map, digest_length. split; [done|].
  apply Forall_map. eapply Forall_impl; [apply digest_bytes|]. apply bucket_bounds.
Qed.

(** The identity reranker answers one row for each document, in their order, with a reason. *)
Theorem identity_rerank_spec (query : string) (docs : list string) :
  List.map rr_idx (do_rerank IdentityReranker query docs) = seq 0 (List.length docs) /\
  Forall (fun r => rr_score r = f32_one /\ rr_reason r <> "") (do_rerank IdentityReranker query docs).
Proof.
  simpl. rewrite map_map, map_id. split; [done|]. apply Forall_map. by apply Forall_true.
Qed.

(** Two names pass exactly when both are registered and their providers agree. *)
Theorem check_cross_space_spec (r : Registry) (lhs rhs : string) :
  check_cross_space r lhs rhs =
  match embedder r lhs, embedder r rhs with
  | None, _ => Err (Unknown lhs)
  | Some _, None => Err (Unknown rhs)
  | Some a, Some b => if String.eqb (em_provider a) (em_provider b) then Ok tt
                      else Err (Space (ProviderMismatch (em_provider a) (em_provider b)))
  end.
Proof.
  unfold check_cross_space, ok_or_unknown. destruct (embedder r lhs); [|done].
  destruct (embedder r rhs); [|done]. simpl. unfold cross_space_check. by destruct (String.eqb _ _).
Qed.
