(* ===== verification/Core.v ===== *)
(** * Shared data ([actant-core])

    The error type of the public API, the enumerations and rows of the schema
    ([error.rs], [model.rs]), JSON values with canonicalisation, and the hashing
    helpers of the ledger ([hash.rs], [ids.rs]). *)

From Stdlib Require Import SpecFloat.
From S2P Require Import Prelude Str Hlc.
#[local] Open Scope string_scope.
#[local] Open Scope list_scope.
#[local] Open Scope Z_scope.

(** ** Errors ([error.rs]) *)

Inductive ActantError :=
| Storage (m : string)
| InvalidInput (m : string)
| PermissionDenied (m : string)
| ApprovalRequired_ (m : string)
| ApprovalDenied (m : string)
| NotFound (m : string)
| Conflict (m : string)
| IdempotentReplay (m : string)
| PolicyHalt (m : string)
| Internal (m : string)
| NotImplemented (m : string).

Definition code (e : ActantError) : string :=
  match e with
  | Storage _ => "storage_error"
  | InvalidInput _ => "invalid_input"
  | PermissionDenied _ => "permission_denied"
  | ApprovalRequired_ _ => "approval_required"
  | ApprovalDenied _ => "approval_denied"
  | NotFound _ => "not_found"
  | Conflict _ => "conflict"
  | IdempotentReplay _ => "idempotent_replay"
  | PolicyHalt _ => "policy_halt"
  | Internal _ => "internal_error"
  | NotImplemented _ => "not_implemented"
  end.

(** The [Display] text thiserror derives. *)
Definition display (e : ActantError) : string :=
  match e with
  | Storage m => "storage error: " +:+ m
  | InvalidInput m => "invalid input: " +:+ m
  | PermissionDenied m => "permission denied: " +:+ m
  | ApprovalRequired_ m => "approval required: " +:+ m
  | ApprovalDenied m => "approval denied: " +:+ m
  | NotFound m => "not found: " +:+ m
  | Conflict m => "conflict: " +:+ m
  | IdempotentReplay m => "idempotent replay: " +:+ m
  | PolicyHalt m => "policy halt: " +:+ m
  | Internal m => "internal error: " +:+ m
  | NotImplemented m => "not implemented: " +:+ m
  end.

Definition hint (e : ActantError) : string :=
  match e with
  | Storage _ => "The ledger backend rejected the operation."
  | InvalidInput _ => "Check the request payload and required fields."
  | PermissionDenied _ => "Grant a matching authority scope or use an actor with permission."
  | ApprovalRequired_ _ => "Approve the pending request before replaying the command."
  | ApprovalDenied _ => "The command was reviewed and denied."
  | NotFound _ => "Check the identifier and workspace."
  | Conflict _ => "Reload the latest state and retry the operation."
  | IdempotentReplay _ => "The idempotency key already resolved to a prior command."
  | PolicyHalt _ => "The active policy halted this run."
  | Internal _ => "Open a bug with the request id and server logs."
  | NotImplemented _ => "This feature is recognized but not available on this surface."
  end.

Definition fix_ (e : ActantError) : option string :=
  match e with
  | ApprovalRequired_ _ => Some "Call approve_tool_call, then retry."
  | InvalidInput _ =>
      Some "Run `actantdb metadata commands` to inspect accepted command inputs."
  | NotImplemented _ => Some "Use the documented supported surface for this backend."
  | _ => None
  end.

(** ** Enumerations ([model.rs]) *)

Inductive ActorKind := Human | Agent | Subagent | Model | Tool_ | Worker_ | System.

Inductive Sensitivity := Public | SLow | SMedium | SHigh | Secret | Regulated.

(** [Sensitivity::rank]. *)
Definition rank (s : Sensitivity) : Z :=
  match s with
  | Public => 0 | SLow => 1 | SMedium => 2 | SHigh => 3 | Secret => 4 | Regulated => 5
  end.

Inductive RiskLevel := RLow | RMedium | RHigh | RCritical.

Inductive CausalityKind := Observation | Intent | Effect_ | Control | Audit.

Inductive SessionStatus := SActive | SPaused | SClosed.

Inductive CommandStatus := CReceived | CCommitted | CRejected.

Inductive EffectStatus :=
| EPending | EClaimed | ERunning | ESucceeded | EFailed | ECancelled | EAwaitingApproval.

Inductive ToolCallStatus :=
| TRequested | TPendingApproval | TApproved | TDenied | TRunning | TCompleted | TFailed
| TCancelled.

Inductive ApprovalStatus :=
| APending | AApproved | ADenied | AExpired | AEscalated | ACancelled.

Inductive MemoryCandidateStatus := MProposed | MPendingReview | MApproved | MRejected | MEdited.

#[global] Instance ActorKind_eq_dec : EqDecision ActorKind.
Proof. solve_decision. Defined.
#[global] Instance Sensitivity_eq_dec : EqDecision Sensitivity.
Proof. solve_decision. Defined.
#[global] Instance RiskLevel_eq_dec : EqDecision RiskLevel.
Proof. solve_decision. Defined.
#[global] Instance CausalityKind_eq_dec : EqDecision CausalityKind.
Proof. solve_decision. Defined.
#[global] Instance SessionStatus_eq_dec : EqDecision SessionStatus.
Proof. solve_decision. Defined.
#[global] Instance CommandStatus_eq_dec : EqDecision CommandStatus.
Proof. solve_decision. Defined.
#[global] Instance EffectStatus_eq_dec : EqDecision EffectStatus.
Proof. solve_decision. Defined.
#[global] Instance ToolCallStatus_eq_dec : EqDecision ToolCallStatus.
Proof. solve_decision. Defined.
#[global] Instance ApprovalStatus_eq_dec : EqDecision ApprovalStatus.
Proof. solve_decision. Defined.
#[global] Instance MemoryCandidateStatus_eq_dec : EqDecision MemoryCandidateStatus.
Proof. solve_decision. Defined.
#[global] Instance ActantError_eq_dec : EqDecision ActantError.
Proof. solve_decision. Defined.

(** [{:?}] of the two enumerations that appear in messages, and their serde
    names. *)
Definition sensitivity_debug (s : Sensitivity) : string :=
  match s with
  | Public => "Public" | SLow => "Low" | SMedium => "Medium" | SHigh => "High"
  | Secret => "Secret" | Regulated => "Regulated"
  end.
Definition sensitivity_json (s : Sensitivity) : string :=
  match s with
  | Public => "public" | SLow => "low" | SMedium => "medium" | SHigh => "high"
  | Secret => "secret" | Regulated => "regulated"
  end.
Definition risk_debug (r : RiskLevel) : string :=
  match r with RLow => "Low" | RMedium => "Medium" | RHigh => "High" | RCritical => "Critical" end.
Definition risk_json (r : RiskLevel) : string :=
  match r with RLow => "low" | RMedium => "medium" | RHigh => "high" | RCritical => "critical" end.

(** ** Rows ([model.rs]) *)

Record Workspace := mkWorkspace {
  ws_id : string; ws_name : string; ws_created_at : string; ws_archived_at : option string
}.

Record Actor := mkActor {
  act_id : string; act_workspace_id : string; act_kind : ActorKind;
  act_display_name : string; act_created_at : string; act_disabled_at : option string
}.

Record Session := mkSession {
  ses_id : string; ses_workspace_id : string; ses_title : option string;
  ses_initiator_actor_id : string; ses_agent_actor_id : option string;
  ses_status : SessionStatus; ses_created_at : string; ses_closed_at : option string
}.

Record AgentEvent := mkAgentEvent {
  ev_id : string;
  ev_workspace_id : string;
  ev_actor_id : string;
  ev_session_id : option string;
  ev_parent_event_id : option string;
  ev_event_type : string;
  ev_causality_kind : CausalityKind;
  ev_sensitivity : Sensitivity;
  ev_authority_scope_id : option string;
  ev_payload_inline : option string;
  ev_payload_ref : option string;
  ev_payload_hash : string;
  ev_event_hash : string;
  ev_created_at : string;
  ev_model_call_id : option string;
  ev_tool_call_id : option string;
  ev_workflow_run_id : option string;
  ev_memory_id : option string;
  ev_artifact_id : option string;
  ev_command_id : option string;
  ev_effect_id : option string;
}.

Record CommandRecord := mkCommandRecord {
  cmd_id : string;
  cmd_workspace_id : string;
  cmd_actor_id : string;
  cmd_session_id : option string;
  cmd_command_type : string;
  cmd_input_inline : option string;
  cmd_input_hash : string;
  cmd_policy_id : option string;
  cmd_status : CommandStatus;
  cmd_error : option string;
  cmd_created_at : string;
  cmd_committed_at : option string;
}.

Record ApprovalRequest := mkApprovalRequest {
  apr_id : string;
  apr_workspace_id : string;
  apr_effect_id : option string;
  apr_tool_call_id : option string;
  apr_requested_by_actor_id : string;
  apr_risk_level : RiskLevel;
  apr_required_permission : string;
  apr_summary : string;
  apr_status : ApprovalStatus;
  apr_scope_granted : option string;
  apr_created_at : string;
  apr_approved_at : option string;
  apr_approved_by_actor_id : option string;
  apr_denied_reason : option string;
}.

Record ToolCall := mkToolCall {
  tc_id : string;
  tc_workspace_id : string;
  tc_session_id : option string;
  tc_requested_by_actor_id : string;
  tc_tool_id : string;
  tc_schema_version : Z;
  tc_arguments_inline : option string;
  tc_arguments_hash : string;
  tc_status : ToolCallStatus;
  tc_risk_level : RiskLevel;
  tc_approval_request_id : option string;
  tc_effect_id : option string;
  tc_result_ref : option string;
  tc_result_hash : option string;
  tc_error : option string;
  tc_created_at : string;
  tc_completed_at : option string;
}.

Record Effect := mkEffect {
  eff_id : string;
  eff_workspace_id : string;
  eff_command_id : string;
  eff_requested_by_actor_id : string;
  eff_effect_type : string;
  eff_status : EffectStatus;
  eff_required_permission : option string;
  eff_risk_level : RiskLevel;
  eff_idempotency_key : option string;
  eff_input_inline : option string;
  eff_input_hash : string;
  eff_assigned_worker_id : option string;
  eff_attempt_count : Z;
  eff_max_attempts : Z;
  eff_next_attempt_at : option string;
  eff_started_at : option string;
  eff_finished_at : option string;
  eff_result_ref : option string;
  eff_result_hash : option string;
  eff_error : option string;
  eff_created_at : string;
}.

Record Worker := mkWorker {
  wk_id : string; wk_workspace_id : string; wk_actor_id : string; wk_name : string;
  wk_host : option string; wk_version : option string; wk_status : string;
  wk_last_heartbeat_at : option string; wk_created_at : string; wk_disabled_at : option string
}.

Record MemoryCandidate := mkMemoryCandidate {
  mc_id : string;
  mc_workspace_id : string;
  mc_proposed_by_actor_id : string;
  mc_source_event_ids : string;
  mc_text : string;
  mc_category : string;
  mc_confidence : spec_float;
  mc_sensitivity : Sensitivity;
  mc_status : MemoryCandidateStatus;
  mc_review_reason : option string;
  mc_created_at : string;
}.

Record Memory := mkMemory {
  mem_id : string;
  mem_workspace_id : string;
  mem_text : string;
  mem_category : string;
  mem_sensitivity : Sensitivity;
  mem_confidence : option spec_float;
  mem_scope : string;
  mem_source_candidate_id : option string;
  mem_source_event_ids : string;
  mem_embedding_ref_id : option string;
  mem_usage_count : Z;
  mem_last_used_at : option string;
  mem_expires_at : option string;
  mem_revoked_at : option string;
  mem_deleted_at : option string;
  mem_created_at : string;
}.
