(* ===== verification/Policy.v ===== *)
(** * Guard verdicts ([actant-policy/src/lib.rs])

    [evaluate] and its helper [suggest_constrain], branch by branch.  The regex
    engine and the JSON parser are parameters. *)

From S2P Require Import Prelude Str Json Core.
#[local] Open Scope string_scope.
#[local] Open Scope list_scope.
#[local] Open Scope Z_scope.

Inductive Verdict :=
| Allow (reason : string)
| Constrain (reason constrained_input hint : string)
| RequireApproval (reason : string) (hint constrained_input : option string)
| Block (reason : string)
| Halt (reason : string).

Definition kind (v : Verdict) : string :=
  match v with
  | Allow _ => "allow"
  | Constrain _ _ _ => "constrain"
  | RequireApproval _ _ _ => "require_approval"
  | Block _ => "block"
  | Halt _ => "halt"
  end.

Record ToolPolicy := mkToolPolicy {
  tp_tool : string; tp_risk_level : RiskLevel; tp_require_approval : bool
}.

Record DenyRule := mkDenyRule { dr_tool : string; dr_pattern : string; dr_reason : string }.

Record PolicyDoc := mkPolicyDoc {
  pd_name : string;
  pd_tools : list ToolPolicy;
  pd_deny : list DenyRule;
  pd_sensitivity_ceiling : option Sensitivity;
}.

Record GuardInput := mkGuardInput {
  gi_actor_id : string;
  gi_tool : string;
  gi_arguments_json : string;
  gi_risk_level : RiskLevel;
  gi_sensitivity : Sensitivity;
}.

Record Constrained := mkConstrained { args_json : string; dropped : string }.

(** The regex crate: [Regex::new] may reject a pattern. *)
Class Regex := {
  regex : Type;
  Regex_new : string -> option regex;
  is_match : regex -> string -> bool;
}.

(** The tokens [suggest_constrain] refuses to delete recursively. *)
Definition dangerous (t : string) : bool :=
  String.eqb t "/" || String.eqb t "dist" || ends_with "/dist" t || starts_with "~" t.

(** [trimmed.strip_prefix("rm -rf ").or_else(|| trimmed.strip_prefix("rm -fr "))]. *)
Definition strip_rm (trimmed : string) : option string :=
  match strip_prefix "rm -rf " trimmed with
  | Some r => Some r
  | None => strip_prefix "rm -fr " trimmed
  end.
Arguments strip_rm : simpl never.

Lemma strip_rm_Some t r :
  strip_rm t = Some r -> t = "rm -rf " +:+ r \/ t = "rm -fr " +:+ r.
Proof.
  unfold strip_rm. destruct (strip_prefix "rm -rf " t) as [x|] eqn:H1.
  - intros [= <-]. left. by apply strip_prefix_Some.
  - intros H2. right. by apply strip_prefix_Some.
Qed.

Section policy.
Context `{SerdeJson} `{Regex}.

Definition suggest_constrain (input : GuardInput) : option Constrained :=
  if negb (String.eqb (gi_tool input) "shell.run") then None else
  v ← from_str (gi_arguments_json input);
  cmd ← (jget "command" v ≫= as_str);
  let trimmed := trim cmd in
  rest ← strip_rm trimmed;
  let tokens := split_whitespace rest in
  if (length tokens <? 2)%nat then None else
  dropped ← List.find dangerous tokens;
  let remaining := List.filter (fun t => negb (String.eqb t dropped)) tokens in
  match remaining with
  | [] => None
  | _ =>
      let new_cmd := ("rm -rf " +:+ join " " remaining) in
      let new_args := match v with
                      | JObject m => JObject (bt_insert "command" (JString new_cmd) m)
                      | _ => v
                      end in
      Some (mkConstrained (to_string new_args) dropped)
  end.

(** Does the rule apply to the tool, compile, and match the arguments? *)
Definition rule_matches (rule : DenyRule) (input : GuardInput) : bool :=
  if negb (String.eqb (dr_tool rule) "*") && negb (String.eqb (dr_tool rule) (gi_tool input))
  then false
  else match Regex_new (dr_pattern rule) with
       | None => false
       | Some re => is_match re (gi_arguments_json input)
       end.

(** The [for rule in &policy.deny] loop: [Some] is an early return. *)
Fixpoint eval_deny (rules : list DenyRule) (input : GuardInput) : option Verdict :=
  match rules with
  | [] => None
  | rule :: rules' =>
      if rule_matches rule input then
        Some match suggest_constrain input with
             | Some c => RequireApproval (dr_reason rule) (Some ("drop " +:+ dropped c))
                           (Some (args_json c))
             | None => Block (dr_reason rule)
             end
      else eval_deny rules' input
  end.

Definition evaluate (policy : PolicyDoc) (input : GuardInput) : Verdict :=
  match eval_deny (pd_deny policy) input with
  | Some v => v
  | None =>
  match (ceiling ← pd_sensitivity_ceiling policy;
         if rank ceiling <? rank (gi_sensitivity input) then Some ceiling else None) with
  | Some ceiling =>
      RequireApproval
        ("args sensitivity " +:+ sensitivity_debug (gi_sensitivity input) +:+
         " exceeds ceiling " +:+ sensitivity_debug ceiling) None None
  | None =>
  match (entry ← List.find (fun t => String.eqb (tp_tool t) (gi_tool input)) (pd_tools policy);
         if tp_require_approval entry then Some entry else None) with
  | Some _ =>
      RequireApproval ("tool " +:+ gi_tool input +:+ " requires approval by policy") None None
  | None =>
  if String.eqb (gi_tool input) "shell.run" then
    match suggest_constrain input with
    | Some c => RequireApproval "shell.run with destructive pattern"
                  (Some ("drop " +:+ dropped c)) (Some (args_json c))
    | None => RequireApproval "shell.run requires approval by default" None None
    end
  else match gi_risk_level input with
  | RCritical => RequireApproval ("tool " +:+ gi_tool input +:+ " classified critical") None None
  | r => Allow ("risk=" +:+ risk_debug r)
  end
  end
  end
  end.

(** ** Specification: the gates in order of precedence *)

(** What a permissive answer requires, stated without the order of the tests. *)
Record clear (policy : PolicyDoc) (input : GuardInput) : Prop := {
  clear_deny : Forall (fun r => rule_matches r input = false) (pd_deny policy);
  clear_ceiling : forall c, pd_sensitivity_ceiling policy = Some c ->
                    rank (gi_sensitivity input) <= rank c;
  clear_tool : forall e,
    List.find (fun t => String.eqb (tp_tool t) (gi_tool input)) (pd_tools policy) = Some e ->
    tp_require_approval e = false;
  clear_shell : gi_tool input <> "shell.run";
  clear_risk : gi_risk_level input <> RCritical;
}.

Lemma eval_deny_None rules input :
  eval_deny rules input = None <-> Forall (fun r => rule_matches r input = false) rules.
Proof.
  induction rules as [|r rules IH]; simpl; [by split; [constructor|]|].
  destruct (rule_matches r input) eqn:Hr.
  - split; [discriminate|]. intros Hf. apply Forall_cons_1 in Hf as [Hf _]. congruence.
  - rewrite IH. split; [by constructor|]. intros Hf. by apply Forall_cons_1 in Hf as [_ Hf].
Qed.

Lemma eval_deny_Some rules input v :
  eval_deny rules input = Some v ->
  exists pre rule post, rules = pre ++ rule :: post /\ rule_matches rule input = true /\
    Forall (fun r => rule_matches r input = false) pre /\
    v = match suggest_constrain input with
        | Some c => RequireApproval (dr_reason rule) (Some ("drop " +:+ dropped c))
                      (Some (args_json c))
        | None => Block (dr_reason rule)
        end.
Proof.
  induction rules as [|r rules IH]; simpl; [discriminate|].
  destruct (rule_matches r input) eqn:Hr.
  - intros [= <-]. exists [], r, rules. by repeat constructor.
  - intros Hv. destruct (IH Hv) as (pre & rule & post & -> & Hm & Hpre & ->).
    exists (r :: pre), rule, post. repeat split; auto.
Qed.

(** [Constrain] and [Halt] are never answered. *)
Lemma evaluate_shape policy input :
  kind (evaluate policy input) = "allow" \/ kind (evaluate policy input) = "require_approval" \/
  kind (evaluate policy input) = "block".
Proof.
  unfold evaluate. destruct (eval_deny _ _) as [v|] eqn:Hd.
  - apply eval_deny_Some in Hd as (?&?&?&_&_&_&->). destruct (suggest_constrain input); simpl; auto.
  - repeat (case_match; simpl; auto).
Qed.

Lemma evaluate_allows policy input reason :
  evaluate policy input = Allow reason -> clear policy input.
Proof.
  unfold evaluate. intros Hv. destruct (eval_deny _ _) as [v|] eqn:Hd.
  { apply eval_deny_Some in Hd as (?&?&?&_&_&_&->).
    destruct (suggest_constrain input); discriminate. }
  apply eval_deny_None in Hd.
  destruct (pd_sensitivity_ceiling policy) as [c|] eqn:Hc; simpl in Hv;
    [destruct (Z.ltb_spec (rank c) (rank (gi_sensitivity input))); [discriminate|]|];
    (destruct (List.find _ _) as [e|] eqn:He; simpl in Hv;
     [destruct (tp_require_approval e) eqn:Ha; [discriminate|]|]);
    (destruct (String.eqb_spec (gi_tool input) "shell.run");
     [destruct (suggest_constrain input); discriminate|]);
    split; try done; intros; simplify_eq; try done;
    intros Hr; rewrite Hr in Hv; discriminate.
Qed.

(** A tool call is allowed as is exactly when no deny rule matches it,
    its sensitivity is within the ceiling, its tool is not marked for approval,
    it is not [shell.run] and its risk is not critical. *)
Theorem evaluate_allows_iff (policy : PolicyDoc) (input : GuardInput) :
  (exists reason, evaluate policy input = Allow reason) <-> clear policy input.
Proof.
  split.
  - intros [reason Hv]. by eapply evaluate_allows.
  - intros [Hd Hc He Hs Hr]. unfold evaluate. rewrite (proj2 (eval_deny_None _ _) Hd).
    assert (Hceil : (ceiling ← pd_sensitivity_ceiling policy;
         if rank ceiling <? rank (gi_sensitivity input) then Some ceiling else None) = None).
    { destruct (pd_sensitivity_ceiling policy) as [c|]; simpl; [|done].
      destruct (Z.ltb_spec (rank c) (rank (gi_sensitivity input))); [|done].
      specialize (Hc c eq_refl). lia. }
    rewrite Hceil. destruct (List.find _ _) as [e|]; simpl.
    + rewrite (He e eq_refl). destruct (String.eqb_spec (gi_tool input) "shell.run"); [done|].
      destruct (gi_risk_level input); naive_solver.
    + destruct (String.eqb_spec (gi_tool input) "shell.run"); [done|].
      destruct (gi_risk_level input); naive_solver.
Qed.

(** The verdict depends on the gates in their order: the first matching
    deny rule decides (approval of the rewritten command when one can be
    suggested, a block otherwise), and without a matching rule the call is never
    blocked; [Constrain] and [Halt] are never answered. *)
Theorem evaluate_deny_first (policy : PolicyDoc) (input : GuardInput) :
  match List.find (fun r => rule_matches r input) (pd_deny policy) with
  | Some rule =>
      evaluate policy input =
        match suggest_constrain input with
        | Some c => RequireApproval (dr_reason rule) (Some ("drop " +:+ dropped c))
                      (Some (args_json c))
        | None => Block (dr_reason rule)
        end
  | None => kind (evaluate policy input) = "allow" \/
            kind (evaluate policy input) = "require_approval"
  end.
Proof.
  unfold evaluate. induction (pd_deny policy) as [|r rules IH]; simpl.
  - repeat (case_match; simpl; auto).
  - destruct (rule_matches r input); done.
Qed.

(** A suggested rewrite comes from a [shell.run] call whose [command] is
    a recursive [rm]; it drops one dangerous path, keeps only tokens of the
    original command (at least one), and changes no other argument. *)
Theorem suggest_constrain_sound (input : GuardInput) (c : Constrained)
  (Hc : suggest_constrain input = Some c) :
  gi_tool input = "shell.run" /\
  exists m cmd rest remaining m',
    from_str (gi_arguments_json input) = Some (JObject m) /\
    jlookup "command" m = Some (JString cmd) /\
    (trim cmd = "rm -rf " +:+ rest \/ trim cmd = "rm -fr " +:+ rest) /\
    dangerous (dropped c) = true /\ In (dropped c) (split_whitespace rest) /\
    ~ In (dropped c) remaining /\ incl remaining (split_whitespace rest) /\ remaining <> [] /\
    args_json c = to_string (JObject m') /\
    jlookup "command" m' = Some (JString ("rm -rf " +:+ join " " remaining)) /\
    forall k, k <> "command" -> jlookup k m' = jlookup k m.
Proof.
  unfold suggest_constrain in Hc.
  destruct (String.eqb_spec (gi_tool input) "shell.run") as [Ht|]; simpl in Hc; [|done].
  split; [done|].
  destruct (from_str (gi_arguments_json input)) as [v|] eqn:Hv; simpl in Hc; [|done].
  destruct v as [ | | | | |m]; try discriminate; simpl in Hc.
  destruct (jlookup "command" m) as [[ | | |cmd| | ]|] eqn:Hm; try discriminate; simpl in Hc.
  destruct (strip_rm (trim cmd)) as [rest|] eqn:Hrest; simpl in Hc; [|done].
  apply strip_rm_Some in Hrest.
  destruct (_ <? 2)%nat; [done|].
  destruct (List.find dangerous (split_whitespace rest)) as [d|] eqn:Hd; simpl in Hc; [|done].
  apply List.find_some in Hd as [Hin Hdang].
  set (rem := List.filter (fun t => negb (String.eqb t d)) (split_whitespace rest)) in *.
  destruct rem as [|r0 rem'] eqn:Hrem; [done|]. simpl in Hc. injection Hc as <-; simpl.
  exists m, cmd, rest, rem, (bt_insert "command" (JString ("rm -rf " +:+ join " " rem)) m).
  subst rem. rewrite !bt_insert_lookup, Hrem.
  repeat split; auto; try done.
  - rewrite <- Hrem. intros Hf. apply List.filter_In in Hf as [_ Hf].
    by rewrite String.eqb_refl in Hf.
  - rewrite <- Hrem. intros x Hx. by apply List.filter_In in Hx as [Hx _].
  - intros k Hk. rewrite bt_insert_lookup. by destruct (String.eqb_spec k "command").
Qed.

End policy.

(** [alpha_demo_policy]. *)
Definition alpha_demo_policy : PolicyDoc :=
  mkPolicyDoc "alpha-demo"
    [mkToolPolicy "shell.run" RCritical true;
     mkToolPolicy "file.write" RMedium false;
     mkToolPolicy "file.read" RLow false]
    [mkDenyRule "shell.run" "rm\s+-rf\s+.*\bdist\b" "rm -rf includes /dist — release artifacts";
     mkDenyRule "shell.run" "rm\s+-rf\s+/(?:\W|$)" "rm -rf on filesystem root"]
    (Some SHigh).

(** ** A concrete run *)

Definition demo_codec : SerdeJson :=
  Build_SerdeJson (fun s => Some (JObject [("command", JString s)])) demo_print.
(** A stand-in engine: a pattern matches the texts that contain it literally. *)
Definition literal_regex : Regex :=
  Build_Regex string (fun p => Some p) (fun p s => str_contains p s).

Definition demo_call (cmd : string) : GuardInput :=
  mkGuardInput "act_1" "shell.run" cmd RHigh SLow.

Lemma suggest_constrain_sound_witness :
  exists c, @suggest_constrain demo_codec (demo_call "rm -rf ./build dist") = Some c /\
    gi_tool (demo_call "rm -rf ./build dist") = "shell.run" /\ dropped c = "dist".
Proof.
  eexists. split; [vm_compute; reflexivity|]. split; [|reflexivity].
  apply (@suggest_constrain_sound demo_codec (demo_call "rm -rf ./build dist")
           (mkConstrained "{'command':'rm -rf ./build'}" "dist")).
  vm_compute. reflexivity.
Defined.

(** Only the first dangerous path is dropped: the command offered for approval
    can still remove the filesystem root. *)
Example suggest_constrain_keeps_root :
  @evaluate demo_codec literal_regex alpha_demo_policy (demo_call "rm -rf tmp dist /") =
  RequireApproval "tool shell.run requires approval by policy" None None /\
  @suggest_constrain demo_codec (demo_call "rm -rf tmp dist /") =
  Some (mkConstrained "{'command':'rm -rf tmp /'}" "dist").
Proof. split; vm_compute; reflexivity. Qed.
