(* ===== verification/Context.v ===== *)
(** * Context firewall ([actant-context/src/lib.rs])

    [build]: one pass over the candidates that keeps or blocks each of them. *)

From S2P Require Import Prelude Str Json Core Policy.
#[local] Open Scope string_scope.
#[local] Open Scope list_scope.
#[local] Open Scope Z_scope.

Record CandidateItem := mkCandidateItem {
  ci_id : string; ci_kind : string; ci_source : string; ci_content : string;
  ci_sensitivity : Sensitivity; ci_visibility : string; ci_token_count : option Z
}.

Record IncludedItem := mkIncludedItem {
  ii_id : string; ii_kind : string; ii_source : string; ii_content_hash : string;
  ii_sensitivity : Sensitivity; ii_visibility : string; ii_token_count : option Z
}.

Record BlockedItem := mkBlockedItem {
  bi_id : string; bi_kind : string; bi_sensitivity : Sensitivity; bi_reason : string
}.

Record Manifest := mkManifest {
  manifest_hash : string; included : list IncludedItem; blocked : list BlockedItem;
  total_tokens : Z
}.

Record BuildOptions := mkBuildOptions {
  token_budget : Z; sensitivity_ceiling : Sensitivity; required_visibility : string;
  deny_patterns : list string
}.

(** [BuildOptions::default]. *)
Definition BuildOptions_default : BuildOptions :=
  mkBuildOptions 8000 SMedium "cloud_model_allowed" [].

(** [usize] addition of a release build. *)
Definition usize_add (a b : Z) : Z := (a + b) mod 2 ^ 64.

Section context.
Context `{SerdeJson} `{Sha256} `{Regex}.

Definition compile_deny (opts : BuildOptions) : list regex := omap Regex_new (deny_patterns opts).

Definition item_tokens (item : CandidateItem) : Z :=
  default (str_len (ci_content item) / 4) (ci_token_count item).

(** The four tests in sequence; each overwrites the reason of the previous. *)
Definition blocked_reason (opts : BuildOptions) (deny : list regex) (total : Z)
    (item : CandidateItem) : option string :=
  let r := if rank (sensitivity_ceiling opts) <? rank (ci_sensitivity item)
           then Some "sensitivity" else None in
  let r := if bool_decide (ci_sensitivity item = Secret)
              && String.eqb (required_visibility opts) "cloud_model_allowed"
           then Some "visibility" else r in
  let r := if existsb (fun re => is_match re (ci_content item)) deny
           then Some "sensitivity" else r in
  if token_budget opts <? usize_add total (item_tokens item) then Some "budget" else r.

Definition include_item (item : CandidateItem) : IncludedItem :=
  mkIncludedItem (ci_id item) (ci_kind item) (ci_source item) (sha256_hex (ci_content item))
    (ci_sensitivity item) (ci_visibility item) (Some (item_tokens item)).

Definition block_item (item : CandidateItem) (reason : string) : BlockedItem :=
  mkBlockedItem (ci_id item) (ci_kind item) (ci_sensitivity item) reason.

(** The [for item in items] loop. *)
Fixpoint build_loop (opts : BuildOptions) (deny : list regex) (items : list CandidateItem)
    (acc : list IncludedItem * list BlockedItem * Z) : list IncludedItem * list BlockedItem * Z :=
  match items with
  | [] => acc
  | item :: items' =>
      let '(inc, blk, total) := acc in
      build_loop opts deny items'
        match blocked_reason opts deny total item with
        | Some reason => (inc, blk ++ [block_item item reason], total)
        | None => (inc ++ [include_item item], blk, usize_add total (item_tokens item))
        end
  end.

Definition build (items : list CandidateItem) (opts : BuildOptions) : Manifest :=
  let '(inc, blk, total) := build_loop opts (compile_deny opts) items ([], [], 0) in
  mkManifest
    (sha256_hex (to_string (JArray
      (List.map (fun i => JArray [JString (ii_id i); JString (ii_content_hash i)]) inc))))
    inc blk total.

(** ** Specification *)

(** An item the firewall lets through. *)
Definition admissible (opts : BuildOptions) (item : CandidateItem) : Prop :=
  rank (ci_sensitivity item) <= rank (sensitivity_ceiling opts) /\
  ~ (ci_sensitivity item = Secret /\ required_visibility opts = "cloud_model_allowed") /\
  forall p re, In p (deny_patterns opts) -> Regex_new p = Some re ->
    is_match re (ci_content item) = false.

Definition tokens_sum (l : list IncludedItem) : Z :=
  fold_right (fun i s => default 0 (ii_token_count i) + s) 0 l.

Lemma blocked_reason_None opts total item :
  blocked_reason opts (compile_deny opts) total item = None ->
  admissible opts item /\ usize_add total (item_tokens item) <= token_budget opts.
Proof.
  unfold blocked_reason. intros Hb.
  destruct (Z.ltb_spec (token_budget opts) (usize_add total (item_tokens item))); [done|].
  destruct (existsb _ _) eqn:Hd; [done|].
  destruct (bool_decide (ci_sensitivity item = Secret) &&
    String.eqb (required_visibility opts) "cloud_model_allowed") eqn:Hv; [done|].
  destruct (Z.ltb_spec (rank (sensitivity_ceiling opts)) (rank (ci_sensitivity item))); [done|].
  split; [|lia]. split; [lia|]. split.
  - intros [Hs1 Hs2]. rewrite (bool_decide_eq_true_2 _ Hs1), Hs2 in Hv. done.
  - intros p re Hp Hre. destruct (is_match re (ci_content item)) eqn:Hm; [|done].
    assert (existsb (fun re => is_match re (ci_content item)) (compile_deny opts) = true); [|congruence].
    apply existsb_exists. exists re. split; [|done].
    apply list_elem_of_In, list_elem_of_omap. exists p. by rewrite list_elem_of_In.
Qed.

(** What the loop keeps of the accumulator and of each processed item. *)
Lemma build_loop_spec opts items inc blk total :
  0 <= total <= token_budget opts ->
  exists items_in items_out reasons total',
    build_loop opts (compile_deny opts) items (inc, blk, total) =
      (inc ++ List.map include_item items_in,
       blk ++ zip_with block_item items_out reasons, total') /\
    items_in `sublist_of` items /\ items_out `sublist_of` items /\
    Permutation (items_in ++ items_out) items /\ length reasons = length items_out /\
    Forall (admissible opts) items_in /\ 0 <= total' <= token_budget opts /\
    total' mod 2 ^ 64 = (total + tokens_sum (List.map include_item items_in)) mod 2 ^ 64 /\
    ((forall i, In i items -> 0 <= item_tokens i < 2 ^ 64 - token_budget opts) ->
     total' = total + tokens_sum (List.map include_item items_in)).
Proof.
  revert inc blk total. induction items as [|item items IH]; intros inc blk total Ht.
  - exists [], [], [], total. simpl. rewrite !app_nil_r, Z.add_0_r.
    repeat split; auto; try lia; constructor.
  - simpl. destruct (blocked_reason opts (compile_deny opts) total item) as [r|] eqn:Hr.
    + destruct (IH inc (blk ++ [block_item item r]) total Ht)
        as (a & b & rs & t' & Heq & Ha & Hb & Hp & Hl & Hf & Ht' & Hs & Hx).
      exists a, (item :: b), (r :: rs), t'. rewrite Heq, <- app_assoc. simpl.
      repeat split; auto; try lia; try (by constructor).
      by rewrite <- Permutation_middle, Hp.
    + apply blocked_reason_None in Hr as [Hadm Hbud].
      assert (Hb0 : 0 <= usize_add total (item_tokens item)) by (apply Z.mod_pos_bound; lia).
      destruct (IH (inc ++ [include_item item]) blk (usize_add total (item_tokens item)) ltac:(lia))
        as (a & b & rs & t' & Heq & Ha & Hb & Hp & Hl & Hf & Ht' & Hs & Hx).
      exists (item :: a), b, rs, t'. rewrite Heq, <- app_assoc. simpl.
      repeat split; auto; try lia; try (by constructor).
      * rewrite Hs. unfold usize_add. rewrite Z.add_mod_idemp_l by lia. f_equal. lia.
      * intros Hsmall. rewrite Hx by auto. unfold usize_add.
        pose proof (Hsmall item ltac:(by left)). rewrite Z.mod_small by lia. lia.
Qed.


(** An admissible item that still fits the remaining budget is never
    blocked: the four tests are the only reasons to exclude a candidate. *)
Theorem build_keeps_admissible (opts : BuildOptions) (total : Z) (item : CandidateItem) :
  blocked_reason opts (compile_deny opts) total item = None <->
  admissible opts item /\ usize_add total (item_tokens item) <= token_budget opts.
Proof.
  split; [apply blocked_reason_None|]. intros [(Hr & Hv & Hd) Hb]. unfold blocked_reason.
  destruct (Z.ltb_spec (token_budget opts) (usize_add total (item_tokens item))); [lia|].
  destruct (existsb _ _) eqn:He.
  - apply existsb_exists in He as (re & Hin & Hm).
    apply list_elem_of_In, list_elem_of_omap in Hin as (p & Hp & Hre).
    rewrite list_elem_of_In in Hp. by rewrite (Hd p re Hp Hre) in Hm.
  - destruct (bool_decide_reflect (ci_sensitivity item = Secret)); simpl;
      [destruct (String.eqb_spec (required_visibility opts) "cloud_model_allowed"); [tauto|]|];
      destruct (Z.ltb_spec (rank (sensitivity_ceiling opts)) (rank (ci_sensitivity item))); auto; lia.
Qed.
End context.

(** ** A concrete run *)

#[local] Instance demo_sha : Sha256 := fun s => ("h" +:+ s)%string.

Definition demo_items : list CandidateItem :=
  [mkCandidateItem "a" "memory" "m" "hello" SLow "any" (Some 10);
   mkCandidateItem "b" "file" "f" "token=abc" SLow "any" None;
   mkCandidateItem "c" "file" "f" "key" Secret "any" (Some 1);
   mkCandidateItem "d" "message" "m" "long" Public "any" (Some 95);
   mkCandidateItem "e" "message" "m" "short" Public "any" (Some 90)].
Definition demo_opts : BuildOptions :=
  mkBuildOptions 100 Secret "cloud_model_allowed" ["token="].

