(* ===== verification/Flow.v ===== *)
(** * Workflow engine ([actant-flow/src/lib.rs])

    [topological_order] (Kahn's algorithm with a stack) and the [Runner] state
    machine.  A [HashMap] is a [gmap]; the only iteration over one is sorted by
    the code before use. *)

From S2P Require Import Prelude Str Json Core.
#[local] Open Scope string_scope.
#[local] Open Scope list_scope.
#[local] Open Scope Z_scope.

Inductive NodeType :=
| NAgentTask | NModelCall | NToolCall | NApprovalGate | NHumanTask | NCondition
| NParallelGroup | NMemoryWrite | NFileOperation | NDelay | NSubworkflow.

Record Node := mkNode { n_key : string; n_type : NodeType; n_config : option Json }.
Record Edge := mkEdge { e_from : string; e_to : string }.
Record Workflow := mkWorkflow { w_name : string; w_nodes : list Node; w_edges : list Edge }.

(** ** Topological order *)

(** [adj]: the targets of each source, in edge order. *)
Definition adj_of (edges : list Edge) (k : string) : list string :=
  List.map e_to (List.filter (fun e => String.eqb (e_from e) k) edges).

(** [indeg] after both loops. *)
Definition indeg_of (w : Workflow) : gmap string Z :=
  fold_left (fun m e => <[e_to e := default 0 (m !! e_to e) + 1]> m) (w_edges w)
    (fold_left (fun m n => <[n_key n := 0]> m) (w_nodes w) ∅).

Definition str_le (a b : string) : Prop := cmp_le (cmp:=String.compare) a b = true.
#[global] Instance str_le_dec a b : Decision (str_le a b).
Proof. unfold str_le. apply _. Defined.

(** The initial [ready] vector, sorted; [pop] takes its last element, so it is
    kept reversed, top first. *)
Definition initial_ready (indeg : gmap string Z) : list string :=
  rev (merge_sort str_le
    (List.map fst (List.filter (fun kd => snd kd =? 0) (map_to_list indeg)))).

(** The inner loop over the successors of the visited node. *)
Fixpoint relax (ms : list string) (indeg : gmap string Z) (ready : list string) :
    gmap string Z * list string :=
  match ms with
  | [] => (indeg, ready)
  | m :: ms' =>
      let entry := default 0 (indeg !! m) in
      let entry' := if 0 <? entry then entry - 1 else entry in
      relax ms' (<[m := entry']> indeg) (if entry' =? 0 then m :: ready else ready)
  end.

(** The [while let Some(n) = ready.pop()] loop; [visited] is the set of [out].
    Returns the order and what is left of [ready]. *)
Fixpoint topo_loop (fuel : nat) (edges : list Edge) (indeg : gmap string Z)
    (ready out : list string) : list string * list string :=
  match fuel with
  | O => (out, ready)
  | S fuel' =>
      match ready with
      | [] => (out, [])
      | n :: ready' =>
          if bool_decide (n ∈ out) then topo_loop fuel' edges indeg ready' out
          else
            let '(indeg', ready'') := relax (adj_of edges n) indeg ready' in
            topo_loop fuel' edges indeg' ready'' (out ++ [n])
      end
  end.

Definition topo_fuel (w : Workflow) : nat :=
  S (length (initial_ready (indeg_of w)) + length (w_edges w)).

Definition topo_run (w : Workflow) : list string * list string :=
  topo_loop (topo_fuel w) (w_edges w) (indeg_of w) (initial_ready (indeg_of w)) [].

Definition topological_order (w : Workflow) : result string (list string) :=
  let out := (topo_run w).1 in
  if negb (length out =? length (w_nodes w))%nat then Err "cycle detected" else Ok out.

(** ** Runs *)

Inductive StepStatus := StPending | StRunning | StSucceeded | StFailed | StSkipped
| StAwaitingApproval.
#[global] Instance StepStatus_eq_dec : EqDecision StepStatus.
Proof. solve_decision. Defined.

Record StepRun := mkStepRun {
  sr_node_key : string; sr_status : StepStatus; sr_output : option Json;
  sr_error : option string; sr_started_at : option string; sr_finished_at : option string
}.

Record Run := mkRun {
  r_id : string; r_workflow_name : string; r_steps : gmap string StepRun; r_status : StepStatus
}.

Inductive Action :=
| AToolCall (node_key tool : string) (args : Json)
| AModelCall (node_key prompt : string)
| AAwaitApproval (node_key summary : string)
| ADelay (node_key : string) (seconds : Z)
| ADone (run : Run).

Record Runner := mkRunner { rn_workflow : Workflow; rn_order : list string; rn_run : Run }.

Definition with_run (f : Run -> Run) (r : Runner) : Runner :=
  mkRunner (rn_workflow r) (rn_order r) (f (rn_run r)).
Definition with_steps (f : gmap string StepRun -> gmap string StepRun) (r : Run) : Run :=
  mkRun (r_id r) (r_workflow_name r) (f (r_steps r)) (r_status r).
Definition with_status (st : StepStatus) (r : Run) : Run :=
  mkRun (r_id r) (r_workflow_name r) (r_steps r) st.

(** [Runner::new]; the run id is generated. *)
Definition Runner_new (id : string) (w : Workflow) : result string Runner :=
  order ← topological_order w;
  let step n := mkStepRun (n_key n) StPending None None None None in
  Ok (mkRunner w order
        (mkRun id (w_name w)
           (fold_left (fun m n => <[n_key n := step n]> m) (w_nodes w) ∅) StPending)).

(** [complete_step]; [now] is [now_rfc3339()]. *)
Definition complete_step (now node_key : string) (output : Json) (r : Runner) : Runner :=
  with_run (with_steps (alter (fun s =>
    mkStepRun (sr_node_key s) StSucceeded (Some output) (sr_error s) (sr_started_at s) (Some now))
    node_key)) r.

Definition fail_step (now node_key error : string) (r : Runner) : Runner :=
  with_run (fun run => with_status StFailed (with_steps (alter (fun s =>
    mkStepRun (sr_node_key s) StFailed (sr_output s) (Some error) (sr_started_at s) (Some now))
    node_key) run)) r.

Definition resolve_approval (now node_key : string) (approved : bool) (r : Runner) : Runner :=
  match r_steps (rn_run r) !! node_key with
  | None => r
  | Some s =>
      if approved then
        with_run (with_steps (insert node_key
          (mkStepRun (sr_node_key s) StSucceeded (Some (JObject [("approved", JBool true)]))
             (sr_error s) (sr_started_at s) (Some now)))) r
      else
        with_run (fun run => with_status StFailed (with_steps (insert node_key
          (mkStepRun (sr_node_key s) StFailed (sr_output s) (Some "denied")
             (sr_started_at s) (Some now))) run)) r
  end.

(** [node.config.clone().unwrap_or(json!({}))]. *)
Definition config_of (n : Node) : Json := default (JObject []) (n_config n).

(** [action_for]; [None] is the [expect("node by key")] panic. *)
Definition action_for (now key : string) (r : Runner) : option (Action * Runner) :=
  node ← List.find (fun n => String.eqb (n_key n) key) (w_nodes (rn_workflow r));
  let cfg := config_of node in
  match n_type node with
  | NToolCall =>
      Some (AToolCall key (default "" (jget "tool" cfg ≫= as_str))
              (default (JObject []) (jget "arguments" cfg)), r)
  | NModelCall => Some (AModelCall key (default "" (jget "prompt" cfg ≫= as_str)), r)
  | NApprovalGate =>
      Some (AAwaitApproval key (default "approval required" (jget "summary" cfg ≫= as_str)),
            with_run (with_steps (alter (fun s =>
              mkStepRun (sr_node_key s) StAwaitingApproval (sr_output s) (sr_error s)
                (sr_started_at s) (sr_finished_at s)) key)) r)
  | NDelay => Some (ADelay key (default 0 (jget "seconds" cfg ≫= as_u64)), r)
  | _ => Some (AToolCall key "noop" (JObject []),
               complete_step now key (JObject [("noop", JBool true)]) r)
  end.

(** The [for key in &order] loop of [next_action]: the first step that is not
    terminal; [None] is the [expect("step exists")] panic. *)
Fixpoint scan (now : string) (order : list string) (r : Runner) : option (Action * Runner) :=
  match order with
  | [] => let r' := with_run (with_status StSucceeded) r in Some (ADone (rn_run r'), r')
  | key :: order' =>
      s ← r_steps (rn_run r) !! key;
      match sr_status s with
      | StAwaitingApproval | StRunning => action_for now key r
      | StPending =>
          action_for now key (with_run (with_steps (insert key
            (mkStepRun (sr_node_key s) StRunning (sr_output s) (sr_error s) (Some now)
               (sr_finished_at s)))) r)
      | _ => scan now order' r
      end
  end.

Definition next_action (now : string) (r : Runner) : option (Action * Runner) :=
  if bool_decide (r_status (rn_run r) = StFailed) then Some (ADone (rn_run r), r)
  else scan now (rn_order r) r.

(** ** Steps of a run: the host calls the runner in any order *)

Inductive runner_step : Runner -> Runner -> Prop :=
| rs_next now r a r' : next_action now r = Some (a, r') -> runner_step r r'
| rs_complete now k out r : runner_step r (complete_step now k out r)
| rs_fail now k err r : runner_step r (fail_step now k err r)
| rs_resolve now k ok r : runner_step r (resolve_approval now k ok r).

Definition action_key (a : Action) : option string :=
  match a with
  | AToolCall k _ _ | AModelCall k _ | AAwaitApproval k _ | ADelay k _ => Some k
  | ADone _ => None
  end.

Definition step_status (r : Runner) (k : string) : option StepStatus :=
  sr_status <$> r_steps (rn_run r) !! k.

(** ** Kahn's algorithm is correct *)

Definition keys (w : Workflow) : list string := List.map n_key (w_nodes w).

(** Every edge into a node leaves from an earlier one. *)
Definition respects (edges : list Edge) (l : list string) : Prop :=
  forall pre m post, l = pre ++ m :: post ->
  forall e, In e edges -> e_to e = m -> In (e_from e) pre.

(** Distinct keys, and edges between declared nodes. *)
Definition wf_workflow (w : Workflow) : Prop :=
  List.NoDup (keys w) /\
  forall e, In e (w_edges w) -> In (e_from e) (keys w) /\ In (e_to e) (keys w).

Definition deg (indeg : gmap string Z) (m : string) : Z := default 0 (indeg !! m).
Definition cnt (m : string) (l : list string) : Z :=
  Z.of_nat (length (List.filter (String.eqb m) l)).
(** Edges into [m] from nodes not visited yet. *)
Definition open_edge (out : list string) (m : string) (e : Edge) : bool :=
  String.eqb (e_to e) m && negb (bool_decide (e_from e ∈ out)).
Definition pend (edges : list Edge) (out : list string) (m : string) : Z :=
  Z.of_nat (length (List.filter (open_edge out m) edges)).

Lemma deg_insert d m x k : deg (<[m := x]> d) k = if String.eqb m k then x else deg d k.
Proof.
  unfold deg. destruct (String.eqb_spec m k) as [->|].
  - by rewrite lookup_insert_eq.
  - by rewrite lookup_insert_ne.
Qed.

Lemma cnt_cons m x l : cnt m (x :: l) = (if String.eqb m x then 1 else 0) + cnt m l.
Proof. unfold cnt. simpl. destruct (String.eqb m x); simpl; lia. Qed.

Lemma cnt_pos m l : 0 < cnt m l <-> In m l.
Proof.
  induction l as [|x l IH]; [unfold cnt; simpl; lia|]. rewrite cnt_cons. simpl.
  assert (0 <= cnt m l) by (unfold cnt; lia).
  destruct (String.eqb_spec m x) as [->|]; [split; [auto|lia]|].
  rewrite <- IH. split; [intros; right; lia|intros [?|?]; [congruence|lia]].
Qed.

Lemma relax_spec ms d ready d' ready' :
  relax ms d ready = (d', ready') ->
  (forall m, cnt m ms <= deg d m) ->
  (forall m, deg d' m = deg d m - cnt m ms) /\
  (forall m, In m ready' <-> In m ready \/ (In m ms /\ deg d' m = 0)).
Proof.
  revert d ready. induction ms as [|x ms IH]; intros d ready Hr Hc; simpl in Hr.
  - injection Hr as <- <-. unfold cnt. simpl. split; [intros; lia|tauto].
  - pose proof (Hc x) as Hx. rewrite cnt_cons, String.eqb_refl in Hx.
    assert (0 <= cnt x ms) by (unfold cnt; lia). fold (deg d x) in Hr.
    assert (Hlt : (0 <? deg d x) = true) by (apply Z.ltb_lt; lia). rewrite Hlt in Hr.
    destruct (IH _ _ Hr) as [Hd Hin].
    { intros m. rewrite deg_insert. specialize (Hc m). rewrite cnt_cons in Hc.
      rewrite (string_eqb_sym m x) in Hc.
      destruct (String.eqb_spec x m) as [e|]; [subst m|]; lia. }
    assert (Hd' : forall m, deg d' m = deg d m - cnt m (x :: ms)).
    { intros m. rewrite Hd, deg_insert, cnt_cons, (string_eqb_sym m x).
      destruct (String.eqb_spec x m) as [e|]; [subst m|]; lia. }
    split; [done|]. intros m. rewrite Hin.
    specialize (Hd' x). rewrite cnt_cons, String.eqb_refl in Hd'. simpl.
    destruct (Z.eqb_spec (deg d x - 1) 0) as [H0|H0]; simpl.
    + assert (deg d' x = 0) by lia. naive_solver.
    + assert (deg d' x = 0 -> In x ms) by (intros; apply cnt_pos; lia). naive_solver.
Qed.

Lemma relax_length ms d ready :
  (length (relax ms d ready).2 <= length ready + length ms)%nat.
Proof.
  revert d ready. induction ms as [|m ms IH]; intros d ready; simpl; [lia|].
  etrans; [apply IH|]. case_match; simpl; lia.
Qed.

Lemma open_edge_mk out m a b :
  open_edge out m (mkEdge a b) = String.eqb b m && negb (bool_decide (a ∈ out)).
Proof. reflexivity. Qed.

Lemma pend_visit edges out n m :
  n ∉ out -> pend edges out m = pend edges (out ++ [n]) m + cnt m (adj_of edges n).
Proof.
  intros Hn. unfold pend, cnt, adj_of. induction edges as [|[a b] edges IH]; simpl; [done|].
  rewrite !open_edge_mk.
  assert (Hmem : bool_decide (a ∈ out ++ [n]) = bool_decide (a ∈ out) || String.eqb a n).
  { destruct (String.eqb_spec a n) as [->|].
    - rewrite orb_true_r. apply bool_decide_eq_true. set_solver.
    - rewrite orb_false_r. apply bool_decide_ext. set_solver. }
  rewrite Hmem. destruct (String.eqb_spec a n) as [->|]; simpl.
  - rewrite (bool_decide_eq_false_2 (n ∈ out)) by done. simpl.
    rewrite (string_eqb_sym m b). destruct (String.eqb b m); simpl; lia.
  - rewrite orb_false_r. destruct (String.eqb b m && _); simpl; lia.
Qed.

Lemma pend_zero edges out m :
  pend edges out m = 0 <-> forall e, In e edges -> e_to e = m -> In (e_from e) out.
Proof.
  unfold pend. induction edges as [|[a b] edges IH]; simpl; [naive_solver|].
  rewrite open_edge_mk.
  destruct (String.eqb_spec b m) as [->|]; simpl.
  - destruct (bool_decide_reflect (a ∈ out)) as [Hin|Hin]; simpl.
    + rewrite IH. rewrite list_elem_of_In in Hin.
      split; [intros Hall e [<-|He] Ht; auto|intros Hall e He; auto].
    + rewrite list_elem_of_In in Hin. split; [lia|]. intros Hall. exfalso. apply Hin.
      by apply (Hall (mkEdge a m)); [left|].
  - rewrite IH. split; [intros Hall e [<-|He] Ht; [done|auto]|intros Hall e He; auto].
Qed.

(** The invariant of the main loop. *)
Record topo_inv (w : Workflow) (d : gmap string Z) (ready out : list string) : Prop := {
  ti_deg : forall m, deg d m = pend (w_edges w) out m;
  ti_ready : forall m, In m ready -> deg d m = 0 /\ In m (keys w);
  ti_done : forall m, In m (keys w) -> deg d m = 0 -> In m out \/ In m ready;
  ti_nodup : List.NoDup out;
  ti_sub : incl out (keys w);
  ti_resp : respects (w_edges w) out;
}.

Lemma respects_snoc edges out n :
  respects edges out -> (forall e, In e edges -> e_to e = n -> In (e_from e) out) ->
  respects edges (out ++ [n]).
Proof.
  intros Hr Hn pre m post Heq e He Ht.
  destruct post as [|p post] using rev_ind.
  - apply app_inj_tail in Heq as [<- <-]. auto.
  - clear IHpost. rewrite app_comm_cons, app_assoc in Heq.
    apply app_inj_tail in Heq as [Heq _]. eauto.
Qed.

Lemma topo_inv_visit w d n ready out d' ready' :
  wf_workflow w -> topo_inv w d (n :: ready) out -> n ∉ out ->
  relax (adj_of (w_edges w) n) d ready = (d', ready') ->
  topo_inv w d' ready' (out ++ [n]).
Proof.
  intros [_ Hwf] [Hd Hr Hdone Hnd Hsub Hresp] Hn Hrel.
  pose proof (fun m => pend_visit (w_edges w) out n m Hn) as Hp.
  destruct (relax_spec _ _ _ _ _ Hrel) as [Hd' Hin].
  { intros m. rewrite Hd, Hp. unfold pend. lia. }
  destruct (Hr n ltac:(by left)) as [Hn0 Hnk].
  assert (Hpend : forall m, deg d' m = pend (w_edges w) (out ++ [n]) m)
    by (intros m; rewrite Hd', Hd, Hp; lia).
  split; auto.
  - intros m Hm. apply Hin in Hm as [Hm|[Hm Hz]].
    + destruct (Hr m ltac:(by right)) as [H0 Hk]. split; [|done].
      pose proof (Hpend m) as H1. rewrite Hd' in H1 |- *. rewrite H0 in *.
      unfold cnt, pend in *. lia.
    + split; [done|]. unfold adj_of in Hm. apply in_map_iff in Hm as (e & <- & He).
      apply List.filter_In in He as [He _]. by apply Hwf.
  - intros m Hk Hz. rewrite in_app_iff, Hin. simpl.
    destruct (Z.eq_dec (deg d m) 0) as [H0|H0].
    + destruct (Hdone m Hk H0) as [?|[?|?]]; auto.
    + right. right. split; [|done]. apply cnt_pos. specialize (Hd' m).
      assert (0 <= cnt m (adj_of (w_edges w) n)) by (unfold cnt; lia). lia.
  - apply NoDup_ListNoDup. apply NoDup_ListNoDup in Hnd. apply NoDup_app.
    repeat split; auto; [set_solver|apply NoDup_singleton].
  - intros x Hx. apply in_app_iff in Hx as [Hx|[<-|[]]]; auto.
  - apply respects_snoc; [done|]. apply pend_zero. rewrite <- Hd. done.
Qed.

(** The loop keeps the invariant and empties [ready] within the fuel. *)
Lemma topo_loop_inv w fuel d ready out :
  wf_workflow w -> topo_inv w d ready out ->
  exists d', topo_inv w d' (topo_loop fuel (w_edges w) d ready out).2
                           (topo_loop fuel (w_edges w) d ready out).1.
Proof.
  intros Hwf. revert d ready out. induction fuel as [|fuel IH]; intros d ready out Hinv; simpl.
  { by exists d. }
  destruct ready as [|n ready]; [by exists d|].
  destruct (bool_decide_reflect (n ∈ out)) as [Hn|Hn].
  - apply (IH d). destruct Hinv as [H1 H2 H3 H4 H5 H6]. split; auto.
    + intros m Hm. apply H2. by right.
    + intros m Hk Hz. destruct (H3 m Hk Hz) as [?|[<-|?]]; auto. left. by apply list_elem_of_In.
  - destruct (relax (adj_of (w_edges w) n) d ready) as [d' ready'] eqn:Hr.
    apply (IH d'). by eapply topo_inv_visit.
Qed.

Definition unvisited (edges : list Edge) (out : list string) : nat :=
  length (List.filter (fun e => negb (bool_decide (e_from e ∈ out))) edges).

Lemma unvisited_visit edges out n :
  n ∉ out -> (unvisited edges out = unvisited edges (out ++ [n]) + length (adj_of edges n))%nat.
Proof.
  intros Hn. unfold unvisited, adj_of. induction edges as [|[a b] edges IH]; simpl; [done|].
  destruct (String.eqb_spec a n) as [->|Hne]; simpl.
  - rewrite (bool_decide_eq_false_2 (n ∈ out)), (bool_decide_eq_true_2 (n ∈ out ++ [n])) by set_solver.
    simpl. lia.
  - rewrite (bool_decide_ext (a ∈ out ++ [n]) (a ∈ out)) by set_solver.
    destruct (bool_decide (a ∈ out)); simpl; lia.
Qed.

Lemma topo_loop_drains fuel edges d ready out :
  (length ready + unvisited edges out < fuel)%nat ->
  (topo_loop fuel edges d ready out).2 = [].
Proof.
  revert d ready out. induction fuel as [|fuel IH]; intros d ready out Hf; simpl; [lia|].
  destruct ready as [|n ready]; [done|]. simpl in Hf.
  destruct (bool_decide_reflect (n ∈ out)) as [Hn|Hn]; [apply IH; lia|].
  pose proof (relax_length (adj_of edges n) d ready) as Hl.
  destruct (relax (adj_of edges n) d ready) as [d' ready']. simpl in Hl.
  apply IH. pose proof (unvisited_visit edges out n Hn). lia.
Qed.

Lemma indeg_of_deg w m :
  wf_workflow w -> deg (indeg_of w) m = pend (w_edges w) [] m.
Proof.
  intros _. unfold indeg_of, pend.
  assert (H0 : forall ns d, (forall k, deg d k = 0) ->
    forall k, deg (fold_left (fun m n => <[n_key n := 0]> m) ns d) k = 0).
  { induction ns as [|n ns IH]; intros d Hd k; simpl; [auto|]. apply IH. intros k'.
    rewrite deg_insert. destruct (String.eqb _ _); auto. }
  assert (H1 : forall es d, deg (fold_left
      (fun m e => <[e_to e := default 0 (m !! e_to e) + 1]> m) es d) m =
      deg d m + Z.of_nat (length (List.filter (open_edge [] m) es))).
  { induction es as [|[a b] es IH]; intros d; simpl; [lia|]. rewrite IH. simpl.
    rewrite deg_insert, open_edge_mk. fold (deg d b).
    rewrite (bool_decide_eq_false_2 (a ∈ [])) by set_solver. rewrite andb_true_r.
    destruct (String.eqb_spec b m) as [->|]; simpl; lia. }
  rewrite H1, H0; [lia|]. intros k. unfold deg. by rewrite lookup_empty.
Qed.

Lemma indeg_of_dom w k :
  wf_workflow w -> is_Some (indeg_of w !! k) <-> In k (keys w).
Proof.
  intros [_ Hwf]. unfold indeg_of.
  assert (H0 : forall ns (d : gmap string Z), is_Some (fold_left (fun m n => <[n_key n := 0]> m) ns d !! k)
    <-> is_Some (d !! k) \/ In k (List.map n_key ns)).
  { induction ns as [|n ns IH]; intros d; simpl; [tauto|]. rewrite IH.
    rewrite lookup_insert_is_Some'. tauto. }
  assert (H1 : forall es (d : gmap string Z), is_Some (fold_left
      (fun m e => <[e_to e := default 0 (m !! e_to e) + 1]> m) es d !! k)
    <-> is_Some (d !! k) \/ In k (List.map e_to es)).
  { induction es as [|e es IH]; intros d; simpl; [tauto|]. rewrite IH.
    rewrite lookup_insert_is_Some'. tauto. }
  rewrite H1, H0, lookup_empty. unfold is_Some at 1. fold (keys w).
  split; [|auto]. intros [[[x Hx]|Hk]|Hk]; [done|done|].
  apply in_map_iff in Hk as (e & <- & He). by apply Hwf.
Qed.

Lemma initial_ready_In d k : In k (initial_ready d) <-> d !! k = Some 0.
Proof.
  unfold initial_ready. rewrite <- in_rev, <- list_elem_of_In, merge_sort_Permutation.
  rewrite list_elem_of_In, in_map_iff. setoid_rewrite List.filter_In.
  setoid_rewrite <- list_elem_of_In. split.
  - intros ([k' x] & <- & [Hin Hx]). apply elem_of_map_to_list in Hin.
    simpl in *. apply Z.eqb_eq in Hx. by subst.
  - intros Hk. exists (k, 0). split; [done|]. by rewrite elem_of_map_to_list.
Qed.

Lemma topo_inv_init w :
  wf_workflow w -> topo_inv w (indeg_of w) (initial_ready (indeg_of w)) [].
Proof.
  intros Hwf. split.
  - intros m. by apply indeg_of_deg.
  - intros m Hm. apply initial_ready_In in Hm. unfold deg. rewrite Hm.
    split; [done|]. apply indeg_of_dom; [done|by eexists].
  - intros m Hk Hz. right. apply initial_ready_In.
    apply indeg_of_dom in Hk as [x Hx]; [|done]. unfold deg in Hz. rewrite Hx in Hz |- *. simpl in Hz. congruence.
  - constructor.
  - intros x [].
  - intros pre m post Heq. by destruct pre.
Qed.

Lemma first_outside (l out : list string) :
  ~ incl l out -> exists pre m post, l = pre ++ m :: post /\ incl pre out /\ ~ In m out.
Proof.
  induction l as [|x l IH]; intros Hn; [exfalso; apply Hn; intros ? []|].
  destruct (decide (x ∈ out)) as [Hx|Hx]; rewrite list_elem_of_In in Hx.
  - destruct IH as (pre & m & post & -> & Hp & Hm).
    { intros Hi. apply Hn. intros y [<-|Hy]; auto. }
    exists (x :: pre), m, post. repeat split; auto. intros y [<-|Hy]; auto.
  - exists [], x, l. repeat split; auto. intros y [].
Qed.

Lemma topo_run_drains w : (topo_run w).2 = [].
Proof.
  apply topo_loop_drains. unfold topo_fuel, unvisited.
  pose proof (filter_length_le (fun e => negb (bool_decide (e_from e ∈ []))) (w_edges w)). lia.
Qed.

Lemma topological_order_spec w :
  wf_workflow w ->
  match topological_order w with
  | Ok out => Permutation out (keys w) /\ respects (w_edges w) out
  | Err _ => forall l, Permutation l (keys w) -> ~ respects (w_edges w) l
  end.
Proof.
  intros Hwf. pose proof (topo_run_drains w) as Hd.
  destruct (topo_loop_inv w (topo_fuel w) _ _ _ Hwf (topo_inv_init w Hwf)) as [d Hinv].
  fold (topo_run w) in Hinv. rewrite Hd in Hinv. destruct Hinv as [H1 _ H3 H4 H5 H6].
  unfold topological_order. destruct (Nat.eqb_spec (length (topo_run w).1) (length (w_nodes w)))
    as [Hlen|Hlen]; simpl.
  - split; [|done]. apply NoDup_Permutation_bis; [done| |done].
    unfold keys. rewrite length_map. lia.
  - intros l Hp Hresp.
    destruct (first_outside l (topo_run w).1) as (pre & m & post & -> & Hpre & Hm).
    { intros Hi. apply Hlen. assert (length (keys w) = length (w_nodes w)) by apply length_map.
      apply Nat.le_antisymm; rewrite <- H.
      - by apply NoDup_incl_length.
      - apply NoDup_incl_length; [apply Hwf|]. intros x Hx. apply Hi.
        by apply (Permutation_in _ (Permutation_sym Hp)). }
    assert (Hk : In m (keys w)) by (apply (Permutation_in _ Hp), in_elt).
    assert (Hz : pend (w_edges w) (topo_run w).1 m = 0).
    { apply pend_zero. intros e He Ht. apply Hpre. by eapply Hresp. }
    rewrite <- H1 in Hz. destruct (H3 m Hk Hz) as [?|[]]. done.
Qed.


(** ** The runner *)

(** A run of a well-formed workflow: every node has a step, no step is skipped,
    and a failed step fails the run. *)
Record runner_inv (w : Workflow) (r : Runner) : Prop := {
  ri_workflow : rn_workflow r = w;
  ri_order : Permutation (rn_order r) (keys w);
  ri_respects : respects (w_edges w) (rn_order r);
  ri_steps : forall k, is_Some (r_steps (rn_run r) !! k) <-> In k (keys w);
  ri_skip : forall k, step_status r k <> Some StSkipped;
  ri_failed : forall k, step_status r k = Some StFailed -> r_status (rn_run r) = StFailed;
}.

(** Every operation of the runner changes the steps at one existing key, keeps
    the rest, and never leaves a failed step in a run that is not failed. *)
Lemma runner_inv_update w r k s s' st :
  runner_inv w r -> r_steps (rn_run r) !! k = Some s ->
  sr_status s' <> StSkipped -> (sr_status s' = StFailed -> st = StFailed) ->
  (r_status (rn_run r) = StFailed -> st = StFailed) ->
  runner_inv w (with_run (fun run => with_status st (with_steps (insert k s') run)) r).
Proof.
  intros [H1 H2 H3 H4 H5 H6] Hk Hs1 Hs2 Hst. split; try done; simpl.
  - intros k'. rewrite lookup_insert_is_Some'. rewrite H4. split; [|auto].
    intros [<-|?]; [|done]. apply H4. by eexists.
  - intros k'. unfold step_status in *. simpl. destruct (decide (k = k')) as [<-|Hne].
    + rewrite lookup_insert_eq. simpl. congruence.
    + rewrite lookup_insert_ne by done. apply H5.
  - intros k'. unfold step_status in *. simpl. destruct (decide (k = k')) as [<-|Hne].
    + rewrite lookup_insert_eq. simpl. intros [= ?]. auto.
    + rewrite lookup_insert_ne by done. intros Hf. apply Hst. by eapply H6.
Qed.

Lemma with_status_id r : with_status (r_status r) r = r.
Proof. by destruct r. Qed.

(** The same, when the run status is unchanged. *)
Lemma runner_inv_update_same w r k s s' :
  runner_inv w r -> r_steps (rn_run r) !! k = Some s ->
  sr_status s' <> StSkipped -> sr_status s' <> StFailed ->
  runner_inv w (with_run (with_steps (insert k s')) r).
Proof.
  intros Hi Hk H1 H2.
  pose proof (runner_inv_update w r k s s' (r_status (rn_run r)) Hi Hk H1 ltac:(done) ltac:(done)) as H.
  unfold with_run in *. destruct r as [? ? []]; simpl in *. exact H.
Qed.

Lemma alter_insert_eq (m : gmap string StepRun) k f :
  alter f k m = match m !! k with Some s => <[k := f s]> m | None => m end.
Proof.
  destruct (m !! k) as [s|] eqn:Hk.
  - by apply insert_alter_eq || (apply map_eq; intros i; destruct (decide (k = i)) as [<-|];
      [by rewrite lookup_alter_eq, lookup_insert_eq, Hk|by rewrite lookup_alter_ne, lookup_insert_ne]).
  - by apply alter_id; intros x Hx; congruence.
Qed.

Lemma with_steps_none r : with_run (with_steps (fun m => m)) r = r.
Proof. by destruct r as [? ? []]. Qed.

Lemma complete_step_inv w now k out r :
  runner_inv w r -> runner_inv w (complete_step now k out r).
Proof.
  intros Hi. unfold complete_step, with_steps. unfold with_run. rewrite alter_insert_eq.
  destruct (r_steps (rn_run r) !! k) as [s|] eqn:Hk.
  - by apply (runner_inv_update_same w r k s _ Hi Hk).
  - destruct r as [? ? []]; exact Hi.
Qed.

Lemma fail_step_inv w now k err r :
  runner_inv w r -> runner_inv w (fail_step now k err r).
Proof.
  intros Hi. unfold fail_step, with_steps, with_run. rewrite alter_insert_eq.
  destruct (r_steps (rn_run r) !! k) as [s|] eqn:Hk.
  - by apply (runner_inv_update w r k s _ StFailed Hi Hk).
  - destruct Hi as [H1 H2 H3 H4 H5 H6]. split; simpl; auto.
Qed.

Lemma resolve_approval_inv w now k ok r :
  runner_inv w r -> runner_inv w (resolve_approval now k ok r).
Proof.
  intros Hi. unfold resolve_approval. destruct (r_steps (rn_run r) !! k) as [s|] eqn:Hk; [|done].
  destruct ok.
  - by apply (runner_inv_update_same w r k s _ Hi Hk).
  - by apply (runner_inv_update w r k s _ StFailed Hi Hk).
Qed.

(** [action_for] on a known key answers an action for that key. *)
Lemma action_for_spec w now k r :
  runner_inv w r -> In k (keys w) ->
  exists a r', action_for now k r = Some (a, r') /\ action_key a = Some k /\ runner_inv w r'.
Proof.
  intros Hi Hk. unfold action_for. rewrite (ri_workflow _ _ Hi).
  destruct (List.find (fun n => String.eqb (n_key n) k) (w_nodes w)) as [n|] eqn:Hn; simpl.
  2:{ exfalso. apply in_map_iff in Hk as (n & <- & Hin).
      apply (List.find_none _ _ Hn) in Hin. by rewrite String.eqb_refl in Hin. }
  pose proof (complete_step_inv w now k (JObject [("noop", JBool true)]) r Hi).
  destruct (n_type n); (do 2 eexists; split; [reflexivity|split; [reflexivity|]]); auto.
  unfold with_steps, with_run. rewrite alter_insert_eq.
  destruct (proj2 (ri_steps _ _ Hi k) Hk) as [s Hs]. rewrite Hs.
  by apply (runner_inv_update_same w r k s _ Hi Hs).
Qed.

(** What one call of [next_action] does in a run that has not failed. *)
Lemma scan_spec w now order r :
  runner_inv w r -> r_status (rn_run r) <> StFailed -> incl order (keys w) ->
  exists a r', scan now order r = Some (a, r') /\ runner_inv w r' /\
    ((a = ADone (rn_run r') /\ r' = with_run (with_status StSucceeded) r /\
      Forall (fun k => step_status r k = Some StSucceeded) order) \/
     (exists pre k post, order = pre ++ k :: post /\ action_key a = Some k /\
        step_status r k <> Some StSucceeded /\
        Forall (fun k => step_status r k = Some StSucceeded) pre)).
Proof.
  intros Hi Hnf. induction order as [|k order IH]; intros Hincl; simpl.
  { do 2 eexists. split; [reflexivity|]. split; [|left; repeat split; constructor].
    destruct Hi as [H1 H2 H3 H4 H5 H6]. split; simpl; auto.
    intros k Hk. exfalso. apply Hnf. by eapply H6. }
  assert (Hk : In k (keys w)) by (apply Hincl; by left).
  destruct (proj2 (ri_steps _ _ Hi k) Hk) as [s Hs]. rewrite Hs. simpl.
  assert (Hst : step_status r k = Some (sr_status s)) by (unfold step_status; by rewrite Hs).
  assert (Hstop : forall r1, runner_inv w r1 -> sr_status s <> StSucceeded ->
    exists a r', action_for now k r1 = Some (a, r') /\ runner_inv w r' /\
      ((a = ADone (rn_run r') /\ r' = with_run (with_status StSucceeded) r /\
        Forall (fun k => step_status r k = Some StSucceeded) (k :: order)) \/
       (exists pre k0 post, k :: order = pre ++ k0 :: post /\ action_key a = Some k0 /\
          step_status r k0 <> Some StSucceeded /\
          Forall (fun k => step_status r k = Some StSucceeded) pre))).
  { intros r1 Hi1 Hns. destruct (action_for_spec w now k r1 Hi1 Hk) as (a & r' & Ha & Hak & Hi').
    exists a, r'. split; [done|]. split; [done|]. right. exists [], k, order.
    repeat split; auto. rewrite Hst. congruence. }
  destruct (sr_status s) eqn:Hstat; try (apply Hstop; [done|congruence]).
  - apply Hstop; [|congruence]. by apply (runner_inv_update_same w r k s _ Hi Hs).
  - destruct IH as (a & r' & Ha & Hi' & Hcase). { intros x Hx. apply Hincl. by right. }
    exists a, r'. split; [done|]. split; [done|]. destruct Hcase as [(-> & -> & Hall)|Hc].
    + left. repeat split. by constructor.
    + destruct Hc as (pre & k0 & post & -> & Hak & Hns & Hpre). right.
      exists (k :: pre), k0, post. repeat split; auto.
  - exfalso. apply Hnf. by apply (ri_failed _ _ Hi k).
  - exfalso. by apply (ri_skip _ _ Hi k).
Qed.

Lemma next_action_inv w now a r r' :
  runner_inv w r -> next_action now r = Some (a, r') -> runner_inv w r'.
Proof.
  intros Hi. unfold next_action. case_bool_decide as Hf; [by intros [= <- <-]|].
  destruct (scan_spec w now (rn_order r) r Hi Hf) as (a' & r'' & -> & Hi' & _); [|by intros [= <- <-]].
  intros x. by apply (Permutation_in _ (ri_order _ _ Hi)).
Qed.

Lemma Runner_new_inv id w r : wf_workflow w -> Runner_new id w = Ok r -> runner_inv w r.
Proof.
  intros Hwf. unfold Runner_new. pose proof (topological_order_spec w Hwf) as Htop.
  destruct (topological_order w) as [out|e]; simpl; [|done]. intros [= <-].
  assert (Hst : forall ns (d : gmap string StepRun) k s,
    fold_left (fun m n => <[n_key n := mkStepRun (n_key n) StPending None None None None]> m) ns d
      !! k = Some s -> d !! k = Some s \/ (sr_status s = StPending /\ In k (List.map n_key ns))).
  { induction ns as [|n ns IH]; intros d k s Hk; simpl in *; [auto|].
    apply IH in Hk as [Hk|[? ?]]; [|auto]. destruct (decide (n_key n = k)) as [<-|].
    - rewrite lookup_insert_eq in Hk. injection Hk as <-. auto.
    - rewrite lookup_insert_ne in Hk by done. auto. }
  assert (Hdom : forall ns (d : gmap string StepRun) k, In k (List.map n_key ns) \/ is_Some (d !! k) ->
    is_Some (fold_left (fun m n => <[n_key n := mkStepRun (n_key n) StPending None None None None]> m) ns d !! k)).
  { induction ns as [|n ns IH]; intros d k Hk; simpl in *; [naive_solver|].
    apply IH. rewrite lookup_insert_is_Some'. naive_solver. }
  split; simpl; try done; try apply Htop.
  - intros k. split; [|auto]. intros [s Hs]. apply Hst in Hs as [Hs|[_ Hs]]; [|done].
    by rewrite lookup_empty in Hs.
  - intros k Hk. unfold step_status in Hk. simpl in Hk.
    destruct (_ !! k) as [s|] eqn:Hs; [|done]. apply Hst in Hs as [Hs|[Hs _]].
    + by rewrite lookup_empty in Hs.
    + simpl in Hk. congruence.
  - intros k Hk. unfold step_status in Hk. simpl in Hk.
    destruct (_ !! k) as [s|] eqn:Hs; [|done]. apply Hst in Hs as [Hs|[Hs _]].
    + by rewrite lookup_empty in Hs.
    + simpl in Hk. congruence.
Qed.

Lemma reachable_inv id w r0 r :
  wf_workflow w -> Runner_new id w = Ok r0 -> star runner_step r0 r -> runner_inv w r.
Proof.
  intros Hwf Hnew Hstar.
  eapply (star_invariant runner_step (runner_inv w)); [|exact Hstar|by eapply Runner_new_inv].
  intros a b Hs Ha. destruct Hs; eauto using next_action_inv, complete_step_inv, fail_step_inv,
    resolve_approval_inv.
Qed.

(** In every state a host can drive a run into, [next_action] answers an
    action for a node only when every predecessor of that node has succeeded and
    the node itself has not. *)
Theorem runner_respects_edges (id now : string) (w : Workflow) (r0 r r' : Runner) (a : Action)
  (k : string) (Hwf : wf_workflow w) (Hnew : Runner_new id w = Ok r0)
  (Hreach : star runner_step r0 r) (Hnext : next_action now r = Some (a, r'))
  (Hkey : action_key a = Some k) :
  step_status r k <> Some StSucceeded /\
  forall e, In e (w_edges w) -> e_to e = k -> step_status r (e_from e) = Some StSucceeded.
Proof.
  pose proof (reachable_inv id w r0 r Hwf Hnew Hreach) as Hi.
  unfold next_action in Hnext. case_bool_decide as Hf; [by simplify_eq|].
  destruct (scan_spec w now (rn_order r) r Hi Hf) as (a' & r'' & Hscan & _ & Hc).
  { intros x. by apply (Permutation_in _ (ri_order _ _ Hi)). }
  rewrite Hscan in Hnext. injection Hnext as -> ->.
  destruct Hc as [(-> & _)|(pre & k' & post & Hord & Hk' & Hns & Hpre)]; [done|].
  rewrite Hk' in Hkey. injection Hkey as ->. split; [done|].
  intros e He Ht. rewrite List.Forall_forall in Hpre. apply Hpre.
  by apply (ri_respects _ _ Hi pre k post Hord e He).
Qed.

(** In every state a host can drive a run into, [next_action] does not
    panic, and it reports the run as done only when the run has failed or when
    every node has succeeded, with the matching final status. *)
Theorem runner_done_or_action (id now : string) (w : Workflow) (r0 r : Runner)
  (Hwf : wf_workflow w) (Hnew : Runner_new id w = Ok r0) (Hreach : star runner_step r0 r) :
  exists a r', next_action now r = Some (a, r') /\
    match a with
    | ADone run =>
        run = rn_run r' /\
        ((r_status run = StFailed /\ r' = r) \/
         (r_status run = StSucceeded /\
          forall k, In k (keys w) -> step_status r' k = Some StSucceeded))
    | _ => r_status (rn_run r) <> StFailed
    end.
Proof.
  pose proof (reachable_inv id w r0 r Hwf Hnew Hreach) as Hi.
  unfold next_action. case_bool_decide as Hf.
  { exists (ADone (rn_run r)), r. auto. }
  destruct (scan_spec w now (rn_order r) r Hi Hf) as (a & r' & Hscan & _ & Hc).
  { intros x. by apply (Permutation_in _ (ri_order _ _ Hi)). }
  exists a, r'. split; [done|].
  destruct Hc as [(-> & Hr' & Hall)|(pre & k' & post & Hord & Hk' & Hns & Hpre)].
  - split; [done|]. right. split; [by rewrite Hr'|]. intros k Hk.
    rewrite List.Forall_forall in Hall. rewrite Hr'. apply Hall.
    by apply (Permutation_in _ (Permutation_sym (ri_order _ _ Hi))).
  - by destruct a.
Qed.

(** ** A concrete run *)

Definition demo_flow : Workflow :=
  mkWorkflow "release"
    [mkNode "ship" NToolCall None; mkNode "build" NModelCall None; mkNode "gate" NApprovalGate None]
    [mkEdge "build" "gate"; mkEdge "gate" "ship"].

Lemma demo_flow_wf : wf_workflow demo_flow.
Proof.
  split; [repeat constructor; simpl; intuition discriminate|].
  intros e [<-|[<-|[]]]; simpl; auto.
Qed.


Definition demo_r0 : Runner :=
  match Runner_new "wfr_1" demo_flow with
  | Ok r => r
  | Err _ => mkRunner demo_flow [] (mkRun "" "" ∅ StPending)
  end.
Lemma demo_r0_new : Runner_new "wfr_1" demo_flow = Ok demo_r0.
Proof. vm_compute. reflexivity. Qed.

(** The demo run after "build" completed, then after a denied approval. *)
Definition demo_built : Runner := complete_step "t" "build" JNull demo_r0.
Definition demo_denied : Runner := resolve_approval "t" "gate" false demo_built.
Lemma demo_built_reach : star runner_step demo_r0 demo_built.
Proof. eapply star_step; [apply star_refl|apply rs_complete]. Qed.
Lemma demo_denied_reach : star runner_step demo_r0 demo_denied.
Proof. eapply star_step; [apply demo_built_reach|apply rs_resolve]. Qed.

Lemma runner_respects_edges_witness :
  exists a r', next_action "t2" demo_built = Some (a, r') /\ action_key a = Some "gate" /\
    step_status demo_built "build" = Some StSucceeded.
Proof.
  destruct (next_action "t2" demo_built) as [[a r']|] eqn:Hn; [|vm_compute in Hn; discriminate].
  assert (Hk : action_key a = Some "gate") by (vm_compute in Hn; injection Hn as <- _; reflexivity).
  exists a, r'. split; [reflexivity|]. split; [exact Hk|].
  apply (runner_respects_edges "wfr_1" "t2" demo_flow demo_r0 demo_built r' a "gate"
           demo_flow_wf demo_r0_new demo_built_reach Hn Hk)
    with (e := mkEdge "build" "gate"); [left; reflexivity|reflexivity].
Defined.

Lemma runner_done_or_action_witness :
  exists r', next_action "t2" demo_denied = Some (ADone (rn_run demo_denied), r') /\
    r_status (rn_run demo_denied) = StFailed.
Proof.
  destruct (runner_done_or_action "wfr_1" "t2" demo_flow demo_r0 demo_denied
              demo_flow_wf demo_r0_new demo_denied_reach) as (a & r' & Hn & _).
  assert (Ha : a = ADone (rn_run demo_denied)) by (vm_compute in Hn; injection Hn as <- _; reflexivity).
  rewrite Ha in Hn. exists r'. split; [exact Hn|vm_compute; reflexivity].
Defined.

(** Without the well-formedness that nothing checks, an edge to an undeclared
    node can make up for a duplicated key: the order has the right length, and
    the run panics on its first action after the declared nodes. *)
Definition dup_flow : Workflow :=
  mkWorkflow "dup" [mkNode "a" NToolCall None; mkNode "a" NToolCall None] [mkEdge "a" "b"].

Example dup_flow_panics :
  topological_order dup_flow = Ok ["a"; "b"] /\
  match Runner_new "wfr_1" dup_flow with
  | Ok r => next_action "t" (complete_step "t" "a" JNull r) = None
  | Err _ => False
  end.
Proof. split; vm_compute; reflexivity. Qed.
