(* ===== verification/Predicate.v ===== *)
(** * Row-level subscriptions ([actant-subscribe/src/predicate.rs], [lib.rs])

    The predicate language over JSON payloads and the filtered view of a
    broadcast subscription.  The broadcast channel (tokio) is third-party: a
    receiver is the queue of what its next calls will yield. *)

From S2P Require Import Prelude Str Json.
#[local] Open Scope string_scope.
#[local] Open Scope list_scope.
#[local] Open Scope Z_scope.
#[local] Set Warnings "-register-all".

Inductive Predicate :=
| PTrue
| PFalse
| PEq (field : string) (value : Json)
| PNe (field : string) (value : Json)
| PLt (field : string) (value : Json)
| PLe (field : string) (value : Json)
| PGt (field : string) (value : Json)
| PGe (field : string) (value : Json)
| PExists (field : string)
| PAnd (xs : list Predicate)
| POr (xs : list Predicate)
| PNot (inner : Predicate).

(** The [for segment in path.split('.')] loop of [resolve]. *)
Fixpoint resolve_segs (cur : Json) (segs : list string) : option Json :=
  match segs with
  | [] => Some cur
  | segment :: segs' =>
      if String.eqb segment "" then None
      else match cur with
           | JObject map => match jlookup segment map with
                            | Some v => resolve_segs v segs'
                            | None => None
                            end
           | JArray arr => match parse_usize segment with
                           | Some idx => match arr !! Z.to_nat idx with
                                         | Some v => resolve_segs v segs'
                                         | None => None
                                         end
                           | None => None
                           end
           | _ => None
           end
  end.

Definition resolve (root : Json) (path : string) : option Json :=
  resolve_segs root (split_char "."%char path).

(** [Ord for bool]: false < true. *)
Definition bool_cmp (a b : bool) : comparison :=
  match a, b with false, true => Lt | true, false => Gt | _, _ => Eq end.

Definition order (a b : Json) : option comparison :=
  match a, b with
  | JNumber x, JNumber y => f64_partial_cmp (num_as_f64 x) (num_as_f64 y)
  | JString x, JString y => Some (String.compare x y)
  | JBool x, JBool y => Some (bool_cmp x y)
  | JNull, JNull => Some Eq
  | _, _ => None
  end.

Definition cmp (root : Json) (field : string) (lit : Json) (ok : comparison -> bool) : bool :=
  match resolve root field with
  | None => false
  | Some got => match order got lit with None => false | Some o => ok o end
  end.

Fixpoint evaluate (p : Predicate) (root : Json) : bool :=
  match p with
  | PTrue => true
  | PFalse => false
  | PEq field value => match resolve root field with
                       | Some v => json_eqb v value
                       | None => false end
  | PNe field value => match resolve root field with
                       | Some v => negb (json_eqb v value)
                       | None => true end
  | PLt field value => cmp root field value (fun o => match o with Lt => true | _ => false end)
  | PLe field value => cmp root field value (fun o => match o with Gt => false | _ => true end)
  | PGt field value => cmp root field value (fun o => match o with Gt => true | _ => false end)
  | PGe field value => cmp root field value (fun o => match o with Lt => false | _ => true end)
  | PExists field => match resolve root field with Some _ => true | None => false end
  | PAnd xs => List.forallb (fun p => evaluate p root) xs
  | POr xs => List.existsb (fun p => evaluate p root) xs
  | PNot inner => negb (evaluate inner root)
  end.

(** ** Filtered subscriptions *)

Record Topic := mkTopic {
  t_workspace_id : string; t_session_id : option string; t_kind : string
}.
Record Message := mkMessage { msg_topic : Topic; msg_payload : Json; msg_published_at : string }.

#[global] Instance Topic_eq_dec : EqDecision Topic.
Proof. solve_decision. Defined.

(** What one [try_recv] of the channel yields while its queue is not empty. *)
Inductive RxItem := RxMsg (m : Message) | RxLagged (n : Z).
Inductive TryRecvError := RxEmpty | RxLag (n : Z).

Record FilteredSubscription := mkFiltered { rx : list RxItem; predicate : option Predicate }.

Definition matches (p : option Predicate) (m : Message) : bool :=
  match p with None => true | Some p => evaluate p (msg_payload m) end.

(** [FilteredSubscription::try_recv]: the loop, on the queue of the receiver. *)
Fixpoint try_recv_loop (p : option Predicate) (q : list RxItem) :
    result TryRecvError Message * list RxItem :=
  match q with
  | [] => (Err RxEmpty, [])
  | RxLagged n :: q' => (Err (RxLag n), q')
  | RxMsg m :: q' => if matches p m then (Ok m, q') else try_recv_loop p q'
  end.

Definition try_recv (s : FilteredSubscription) :
    result TryRecvError Message * FilteredSubscription :=
  let '(r, q) := try_recv_loop (predicate s) (rx s) in (r, mkFiltered q (predicate s)).

(** The hub: per topic, the queues of its live receivers. *)
Record SubscribeHub := mkHub { senders : list (Topic * list (list RxItem)) }.

Fixpoint hub_get (t : Topic) (l : list (Topic * list (list RxItem))) : option (list (list RxItem)) :=
  match l with
  | [] => None
  | (t', qs) :: l' => if decide (t = t') then Some qs else hub_get t l'
  end.
Fixpoint hub_set (t : Topic) (qs : list (list RxItem)) (l : list (Topic * list (list RxItem))) :
    list (Topic * list (list RxItem)) :=
  match l with
  | [] => [(t, qs)]
  | (t', qs') :: l' => if decide (t = t') then (t, qs) :: l' else (t', qs') :: hub_set t qs l'
  end.

(** [subscribe]: a new receiver starts with an empty queue; returns its index. *)
Definition subscribe (t : Topic) (h : SubscribeHub) : nat * SubscribeHub :=
  let qs := default [] (hub_get t (senders h)) in
  (length qs, mkHub (hub_set t (qs ++ [[]]) (senders h))).

(** [publish]: every receiver of the topic gets the message; no topic, no effect.
    [push] is the channel's send on one queue (bounded, it may drop and lag). *)
Definition publish (push : list RxItem -> Message -> list RxItem) (now : string) (t : Topic)
    (payload : Json) (h : SubscribeHub) : SubscribeHub :=
  match hub_get t (senders h) with
  | None => h
  | Some qs =>
      mkHub (hub_set t (List.map (fun q => push q (mkMessage t payload now)) qs) (senders h))
  end.

(** ** Properties *)

(** The messages a queue will deliver, and the whole of what repeated
    [try_recv] calls return until the queue is drained. *)
Definition queue_msgs (q : list RxItem) : list Message :=
  omap (fun i => match i with RxMsg m => Some m | RxLagged _ => None end) q.

Fixpoint drain (fuel : nat) (s : FilteredSubscription) : list Message :=
  match fuel with
  | O => []
  | S k => match try_recv s with
           | (Ok m, s') => m :: drain k s'
           | (Err (RxLag _), s') => drain k s'
           | (Err RxEmpty, _) => []
           end
  end.

Lemma try_recv_loop_spec p q :
  match try_recv_loop p q with
  | (Ok m, q') =>
      exists skipped, q = List.map RxMsg skipped ++ RxMsg m :: q' /\
        Forall (fun m => matches p m = false) skipped /\ matches p m = true
  | (Err (RxLag n), q') =>
      exists skipped, q = List.map RxMsg skipped ++ RxLagged n :: q' /\
        Forall (fun m => matches p m = false) skipped
  | (Err RxEmpty, q') =>
      q' = [] /\ exists skipped, q = List.map RxMsg skipped /\
        Forall (fun m => matches p m = false) skipped
  end.
Proof.
  induction q as [|[m|n] q IH]; simpl.
  - split; [done|]. by exists [].
  - destruct (matches p m) eqn:Hm; [by exists []|].
    destruct (try_recv_loop p q) as [[m'|[|n']] q'].
    + destruct IH as (sk & -> & Hs & Ht). exists (m :: sk). auto.
    + destruct IH as (-> & sk & -> & Hs). split; [done|]. exists (m :: sk). auto.
    + destruct IH as (sk & -> & Hs). exists (m :: sk). auto.
  - by exists [].
Qed.

Lemma queue_msgs_app a b : queue_msgs (a ++ b) = queue_msgs a ++ queue_msgs b.
Proof. unfold queue_msgs. by rewrite omap_app. Qed.
Lemma queue_msgs_map l : queue_msgs (List.map RxMsg l) = l.
Proof. 
  induction l as [|m l IH]; [done|].
  change (m :: queue_msgs (List.map RxMsg l) = m :: l). by rewrite IH.
Qed.
(** Draining a filtered subscription yields exactly the queued messages
    that satisfy its predicate, in publication order: none is lost, none is
    added, and a lag report does not disturb the rest. *)
Theorem drain_filters (s : FilteredSubscription) (fuel : nat)
  (Hfuel : (length (rx s) < fuel)%nat) :
  drain fuel s = List.filter (matches (predicate s)) (queue_msgs (rx s)).
Proof.
  revert s Hfuel. induction fuel as [|fuel IH]; intros [q p] Hf; simpl in *; [lia|].
  unfold try_recv. simpl. pose proof (try_recv_loop_spec p q) as Hs.
  destruct (try_recv_loop p q) as [[m|[|n]] q'].
  - destruct Hs as (sk & -> & Hsk & Hm). rewrite IH; simpl.
    + rewrite queue_msgs_app, queue_msgs_map, List.filter_app, (filter_none _ sk) by (by apply List.Forall_forall).
      simpl. by rewrite Hm.
    + rewrite length_app in Hf. simpl in Hf. lia.
  - destruct Hs as (-> & sk & -> & Hsk). by rewrite queue_msgs_map, (filter_none _ sk) by (by apply List.Forall_forall).
  - destruct Hs as (sk & -> & Hsk). rewrite IH; simpl.
    + by rewrite queue_msgs_app, queue_msgs_map, List.filter_app, (filter_none _ sk) by (by apply List.Forall_forall).
    + rewrite length_app in Hf. simpl in Hf. lia.
Qed.

Definition demo_topic : Topic := mkTopic "ws_1" None "events".
Definition demo_msg (n : Z) : Message := mkMessage demo_topic (JObject [("n", JNumber (PosInt n))]) "t".

Lemma drain_filters_witness :
  drain 5 (mkFiltered [RxMsg (demo_msg 1); RxMsg (demo_msg 5); RxLagged 3; RxMsg (demo_msg 9)]
             (Some (PGt "n" (JNumber (PosInt 4))))) = [demo_msg 5; demo_msg 9].
Proof.
  rewrite (drain_filters (mkFiltered [RxMsg (demo_msg 1); RxMsg (demo_msg 5); RxLagged 3; RxMsg (demo_msg 9)]
             (Some (PGt "n" (JNumber (PosInt 4))))) 5 ltac:(simpl; lia)).
  vm_compute. reflexivity.
Defined.

(** A missing field makes every comparator false except [PNe], which is
    true; [PNe] is the negation of [PEq] on every payload; and the ordered
    comparators never hold between values of different JSON types. *)
Theorem comparators_on_missing (root : Json) (field : string) (v : Json) :
  evaluate (PNe field v) root = negb (evaluate (PEq field v) root) /\
  (resolve root field = None ->
   Forall (fun p => evaluate p root = false)
     [PEq field v; PLt field v; PLe field v; PGt field v; PGe field v; PExists field]) /\
  (match resolve root field with Some got => order got v = None | None => True end ->
   Forall (fun p => evaluate p root = false) [PLt field v; PLe field v; PGt field v; PGe field v]).
Proof.
  destruct (resolve root field) as [got|] eqn:Hr; (split; [simpl; by rewrite Hr|]);
    (split; [try done; intros _|intros Ho]);
    repeat constructor; simpl; unfold cmp; rewrite Hr; by rewrite ?Ho.
Qed.
