(* ===== verification/PredicateParse.v ===== *)
(** * The [watch] expression parser ([actant-cli/src/predicate_parse.rs])

    The byte-level tokenizer (with the panic of slicing inside a UTF-8
    character) and the recursive-descent parser, on the remaining tokens instead
    of a position. *)

From Stdlib Require Import SpecFloat.
From S2P Require Import Prelude Str Json Predicate.
#[local] Open Scope string_scope.
#[local] Open Scope list_scope.
#[local] Open Scope Z_scope.
#[local] Set Warnings "-register-all".

Inductive Tok :=
| TkIdent (s : string) | TkStr (s : string) | TkNum (n : f64)
| TkEq | TkNe | TkLt | TkLe | TkGt | TkGe
| TkLParen | TkRParen | TkDot | TkComma
| TkTrue | TkFalse | TkNull | TkAnd | TkOr | TkNot | TkExists.

(** A returned error, a panic, or (of the model only) too little fuel. *)
Inductive PErr := PMsg (m : string) | PPanic | PFuel.

(** ** Characters: [bytes[i] as char] is a Latin-1 character *)

Definition l1_whitespace (a : ascii) : bool :=
  let x := byte a in
  ((9 <=? x) && (x <=? 13)) || (x =? 32) || (x =? 0x85) || (x =? 0xA0).
Definition l1_alphabetic (a : ascii) : bool :=
  let x := byte a in
  is_upper a || is_lower a || (x =? 0xAA) || (x =? 0xB5) || (x =? 0xBA)
  || ((0xC0 <=? x) && negb (x =? 0xD7) && negb (x =? 0xF7)).
Definition l1_alphanumeric (a : ascii) : bool :=
  let x := byte a in
  l1_alphabetic a || is_digit a || (x =? 0xB2) || (x =? 0xB3) || (x =? 0xB9)
  || ((0xBC <=? x) && (x <=? 0xBE)).

(** Is the start of [s] a character boundary of the text? *)
Definition at_boundary (s : string) : bool :=
  match s with
  | EmptyString => true
  | String a _ => negb ((0x80 <=? byte a) && (byte a <=? 0xBF))
  end.

(** [format!("{c}")] of a Latin-1 character. *)
Definition l1_display (a : ascii) : string :=
  if byte a <? 128 then String a ""
  else String (ascii_of_N (Z.to_N (0xC0 + byte a / 64)))
         (String (ascii_of_N (Z.to_N (0x80 + byte a mod 64))) "").

Fixpoint take_while (f : ascii -> bool) (s : string) : string * string :=
  match s with
  | EmptyString => ("", "")
  | String a s' => if f a then let '(w, r) := take_while f s' in (String a w, r) else ("", s)
  end.

(** ** Literals *)

Definition backslash : ascii := "092"%char.
Definition dquote : ascii := "034"%char.
Definition squote : ascii := "039"%char.

(** The loop over a quoted literal: its raw text and what follows the closing
    quote; [None] when it is not terminated. *)
Fixpoint scan_str (quote : ascii) (s : string) : option (string * string) :=
  match s with
  | EmptyString => None
  | String a s' =>
      if Ascii.eqb a quote then Some ("", s')
      else if Ascii.eqb a backslash then
        match s' with
        | EmptyString => None
        | String b s'' => '(w, r) ← scan_str quote s''; Some (String a (String b w), r)
        end
      else '(w, r) ← scan_str quote s'; Some (String a w, r)
  end.

(** [str::replace] of the two-byte pattern [a b] by [c]. *)
Fixpoint replace2 (a b c : ascii) (s : string) : string :=
  match s with
  | String x s1 =>
      match s1 with
      | String y s2 =>
          if Ascii.eqb x a && Ascii.eqb y b then String c (replace2 a b c s2)
          else String x (replace2 a b c s1)
      | EmptyString => s
      end
  | EmptyString => s
  end.

Definition unescape (raw : string) : string :=
  replace2 backslash backslash backslash
    (replace2 backslash squote squote (replace2 backslash dquote dquote raw)).

(** [s.parse::<f64>()] on the characters the tokenizer collects: an optional
    sign, decimal digits with an optional point, an optional exponent; the
    exact decimal is rounded once. *)
Definition digits_val (s : string) : Z := default 0 (parse_digits 0 s).

Definition parse_f64 (s : string) : option f64 :=
  let '(neg, s) := match s with
                   | String a s' => if Ascii.eqb a "-"%char then (true, s')
                                    else if Ascii.eqb a "+"%char then (false, s') else (false, s)
                   | EmptyString => (false, s) end in
  let '(ip, s) := take_while is_digit s in
  let '(fp, s) := match s with
                  | String a s' => if Ascii.eqb a "."%char then take_while is_digit s' else ("", s)
                  | EmptyString => ("", s) end in
  if String.eqb (ip +:+ fp) "" then None else
  let m := digits_val (ip +:+ fp) in
  let finish (e : Z) : f64 :=
    let x := e - str_len fp in
    let v := match m with
             | Zpos p => match x with
                         | Zneg q => f64_ratio p (10 ^ q)
                         | Zpos q => f64_ratio (p * 10 ^ q) 1
                         | Z0 => f64_ratio p 1
                         end
             | _ => S754_zero false
             end in
    if neg then SFopp v else v in
  match s with
  | EmptyString => Some (finish 0)
  | String a s' =>
      if negb (Ascii.eqb a "e"%char || Ascii.eqb a "E"%char) then None else
      let '(eneg, s') := match s' with
                         | String b s'' => if Ascii.eqb b "-"%char then (true, s'')
                                           else if Ascii.eqb b "+"%char then (false, s'')
                                           else (false, s')
                         | EmptyString => (false, s') end in
      let '(ed, rest) := take_while is_digit s' in
      if String.eqb ed "" || negb (String.eqb rest "") then None
      else Some (finish (if eneg then - digits_val ed else digits_val ed))
  end.

Definition num_char (a : ascii) : bool :=
  is_digit a || Ascii.eqb a "."%char || Ascii.eqb a "e"%char || Ascii.eqb a "E"%char
  || Ascii.eqb a "+"%char || Ascii.eqb a "-"%char.

Definition keyword (word : string) : Tok :=
  let upper := to_ascii_uppercase word in
  if String.eqb upper "AND" then TkAnd
  else if String.eqb upper "OR" then TkOr
  else if String.eqb upper "NOT" then TkNot
  else if String.eqb upper "TRUE" then TkTrue
  else if String.eqb upper "FALSE" then TkFalse
  else if String.eqb upper "NULL" then TkNull
  else if String.eqb upper "EXISTS" then TkExists
  else TkIdent word.

Definition head_is (c : ascii) (s : string) : bool :=
  match s with String a _ => Ascii.eqb a c | EmptyString => false end.
Definition head_digit (s : string) : bool :=
  match s with String a _ => is_digit a | EmptyString => false end.
Definition tail (s : string) : string := match s with String _ s' => s' | EmptyString => "" end.

(** One iteration of the tokenizer on a non-empty rest [String c s] at offset
    [i]: the token it pushes, if any, and the rest. *)
Definition lex1 (i : Z) (c : ascii) (s : string) : result PErr (option Tok * string) :=
  let src := String c s in
  if l1_whitespace c then Ok (None, s)
  else if Ascii.eqb c "("%char then Ok (Some TkLParen, s)
  else if Ascii.eqb c ")"%char then Ok (Some TkRParen, s)
  else if Ascii.eqb c "."%char then Ok (Some TkDot, s)
  else if Ascii.eqb c ","%char then Ok (Some TkComma, s)
  else if Ascii.eqb c "="%char && head_is "="%char s then Ok (Some TkEq, tail s)
  else if Ascii.eqb c "!"%char && head_is "="%char s then Ok (Some TkNe, tail s)
  else if Ascii.eqb c "<"%char then
    if head_is "="%char s then Ok (Some TkLe, tail s) else Ok (Some TkLt, s)
  else if Ascii.eqb c ">"%char then
    if head_is "="%char s then Ok (Some TkGe, tail s) else Ok (Some TkGt, s)
  else if Ascii.eqb c dquote || Ascii.eqb c squote then
    match scan_str c s with
    | None => Err (PMsg "unterminated string literal")
    | Some (raw, rest) =>
        if at_boundary s then Ok (Some (TkStr (unescape raw)), rest) else Err PPanic
    end
  else if is_digit c || (Ascii.eqb c "-"%char && head_digit s) then
    let '(w, rest) := take_while num_char s in
    let text := String c w in
    if negb (at_boundary rest) then Err PPanic else
    match parse_f64 text with
    | Some n => Ok (Some (TkNum n), rest)
    | None => Err (PMsg ("bad number `" +:+ text +:+ "`: invalid float literal"))
    end
  else if l1_alphabetic c || Ascii.eqb c "_"%char then
    let '(word, rest) := take_while (fun a => l1_alphanumeric a || Ascii.eqb a "_"%char) src in
    if at_boundary src && at_boundary rest then Ok (Some (keyword word), rest) else Err PPanic
  else Err (PMsg ("unexpected character `" +:+ l1_display c +:+ "` at offset " +:+ show_Z i)).

(** The [while i < bytes.len()] loop. *)
Fixpoint tokenize_loop (fuel : nat) (total : Z) (src : string) : result PErr (list Tok) :=
  match src with
  | EmptyString => Ok []
  | String c s =>
      match fuel with
      | O => Err PFuel
      | S k =>
          '(t, rest) ← lex1 (total - str_len src) c s;
          ts ← tokenize_loop k total rest;
          Ok (match t with Some t => t :: ts | None => ts end)
      end
  end.

Definition tokenize (src : string) : result PErr (list Tok) :=
  tokenize_loop (String.length src) (str_len src) src.

(** ** The parser *)

(** [n.fract() == 0.0 && n >= 0.0] with the value [n as u64]. *)
Definition index_of_f64 (n : f64) : option Z :=
  match n with
  | S754_zero _ => Some 0
  | S754_finite false m e =>
      if 0 <=? e then Some (Z.min (Zpos m * 2 ^ e) u64_max)
      else if Zpos m mod 2 ^ (- e) =? 0 then Some (Zpos m / 2 ^ (- e)) else None
  | _ => None
  end.

(** The [while matches!(self.peek(), Some(Tok::Dot))] loop of [parse_field]. *)
Fixpoint parse_segments (path : string) (ts : list Tok) : result PErr (string * list Tok) :=
  match ts with
  | TkDot :: TkIdent s :: ts' => parse_segments (path +:+ "." +:+ s) ts'
  | TkDot :: TkNum n :: ts' =>
      match index_of_f64 n with
      | Some i => parse_segments (path +:+ "." +:+ show_Z i) ts'
      | None => Err (PMsg "expected identifier or index after `.`")
      end
  | TkDot :: _ => Err (PMsg "expected identifier or index after `.`")
  | _ => Ok (path, ts)
  end.

Definition parse_field (ts : list Tok) : result PErr (string * list Tok) :=
  match ts with
  | TkIdent s :: ts' => parse_segments s ts'
  | _ => Err (PMsg "expected identifier")
  end.

Section parser.
(** The [Debug] text of a token in error messages. *)
Context (debug : Tok -> string).

Definition parse_literal (ts : list Tok) : result PErr (Json * list Tok) :=
  match ts with
  | TkStr s :: ts' => Ok (JString s, ts')
  | TkNum n :: ts' => Ok (json_of_f64 n, ts')
  | TkTrue :: ts' => Ok (JBool true, ts')
  | TkFalse :: ts' => Ok (JBool false, ts')
  | TkNull :: ts' => Ok (JNull, ts')
  | other :: _ => Err (PMsg ("expected literal, got " +:+ debug other))
  | [] => Err (PMsg "expected literal")
  end.

Definition comparison_of (op : Tok) (field : string) (value : Json) : result PErr Predicate :=
  match op with
  | TkEq => Ok (PEq field value)
  | TkNe => Ok (PNe field value)
  | TkLt => Ok (PLt field value)
  | TkLe => Ok (PLe field value)
  | TkGt => Ok (PGt field value)
  | TkGe => Ok (PGe field value)
  | other => Err (PMsg ("expected comparison operator, got " +:+ debug other))
  end.

Definition push_or (lhs rhs : Predicate) : Predicate :=
  match lhs with POr xs => POr (xs ++ [rhs]) | other => POr [other; rhs] end.
Definition push_and (lhs rhs : Predicate) : Predicate :=
  match lhs with PAnd xs => PAnd (xs ++ [rhs]) | other => PAnd [other; rhs] end.

Fixpoint parse_or (fuel : nat) (ts : list Tok) {struct fuel} : result PErr (Predicate * list Tok) :=
  match fuel with
  | O => Err PFuel
  | S k => '(lhs, ts) ← parse_and k ts; or_loop k lhs ts
  end
with or_loop (fuel : nat) (lhs : Predicate) (ts : list Tok) {struct fuel} :
    result PErr (Predicate * list Tok) :=
  match fuel with
  | O => Err PFuel
  | S k =>
      match ts with
      | TkOr :: ts' => '(rhs, ts'') ← parse_and k ts'; or_loop k (push_or lhs rhs) ts''
      | _ => Ok (lhs, ts)
      end
  end
with parse_and (fuel : nat) (ts : list Tok) {struct fuel} : result PErr (Predicate * list Tok) :=
  match fuel with
  | O => Err PFuel
  | S k => '(lhs, ts) ← parse_not k ts; and_loop k lhs ts
  end
with and_loop (fuel : nat) (lhs : Predicate) (ts : list Tok) {struct fuel} :
    result PErr (Predicate * list Tok) :=
  match fuel with
  | O => Err PFuel
  | S k =>
      match ts with
      | TkAnd :: ts' => '(rhs, ts'') ← parse_not k ts'; and_loop k (push_and lhs rhs) ts''
      | _ => Ok (lhs, ts)
      end
  end
with parse_not (fuel : nat) (ts : list Tok) {struct fuel} : result PErr (Predicate * list Tok) :=
  match fuel with
  | O => Err PFuel
  | S k =>
      match ts with
      | TkNot :: ts' => '(inner, ts'') ← parse_not k ts'; Ok (PNot inner, ts'')
      | _ => parse_atom k ts
      end
  end
with parse_atom (fuel : nat) (ts : list Tok) {struct fuel} : result PErr (Predicate * list Tok) :=
  match fuel with
  | O => Err PFuel
  | S k =>
      match ts with
      | TkLParen :: ts' =>
          '(inner, ts'') ← parse_or k ts';
          match ts'' with
          | TkRParen :: ts3 => Ok (inner, ts3)
          | _ => Err (PMsg "expected `)`")
          end
      | TkExists :: ts' =>
          match ts' with
          | TkLParen :: ts'' =>
              '(field, ts3) ← parse_field ts'';
              match ts3 with
              | TkRParen :: ts4 => Ok (PExists field, ts4)
              | _ => Err (PMsg "expected `)` after EXISTS field")
              end
          | _ => Err (PMsg "expected `(` after EXISTS")
          end
      | TkTrue :: ts' => Ok (PTrue, ts')
      | TkFalse :: ts' => Ok (PFalse, ts')
      | TkIdent _ :: _ =>
          '(field, ts') ← parse_field ts;
          match ts' with
          | [] => Err (PMsg "expected operator after field")
          | op :: ts'' =>
              '(value, ts3) ← parse_literal ts'';
              p ← comparison_of op field value;
              Ok (p, ts3)
          end
      | other :: _ => Err (PMsg ("unexpected token " +:+ debug other))
      | [] => Err (PMsg "unexpected end of expression")
      end
  end.

Definition parse_fuel (ts : list Tok) : nat := 6 * length ts + 6.

(** [parse] after [tokenize]. *)
Definition parse_tokens (ts : list Tok) : result PErr Predicate :=
  '(pred, rest) ← parse_or (parse_fuel ts) ts;
  match rest with
  | [] => Ok pred
  | _ => Err (PMsg ("trailing tokens after expression at position " +:+
                    show_Z (Z.of_nat (length ts - length rest))))
  end.

Definition parse (src : string) : result PErr Predicate :=
  toks ← tokenize src; parse_tokens toks.
End parser.

Definition no_debug (_ : Tok) : string := "".

Example parse_ex :
  parse no_debug "a.b == 'x' AND (NOT c > 1.5 OR exists(d))" =
  Ok (PAnd [PEq "a.b" (JString "x");
            POr [PNot (PGt "c" (JNumber (Float (f64_ratio 3 2)))); PExists "d"]]).
Proof. vm_compute. reflexivity. Qed.

(** ** Termination: the fuel is enough *)

(** [r] is not out of fuel, and an [Ok] leaves fewer than [n] tokens. *)
Definition leaves {A} (n : nat) (r : result PErr (A * list Tok)) : Prop :=
  match r with Ok (_, rest) => (length rest < n)%nat | Err e => e <> PFuel end.

Lemma leaves_bind {A B} n m (r : result PErr (A * list Tok)) (f : A * list Tok -> result PErr (B * list Tok)) :
  leaves n r -> (forall a rest, (length rest < n)%nat -> leaves m (f (a, rest))) -> leaves m (r ≫= f).
Proof. destruct r as [[a rest]|e]; simpl; auto. Qed.

Lemma leaves_mono {A} n m (r : result PErr (A * list Tok)) : (n <= m)%nat -> leaves n r -> leaves m r.
Proof. destruct r as [[a rest]|e]; simpl; [lia|done]. Qed.

Lemma parse_segments_leaves n ts :
  (length ts < n)%nat -> forall path, leaves n (parse_segments path ts).
Proof.
  revert n. induction ts as [ts IH] using (induction_ltof1 _ (@length Tok)); unfold ltof in IH.
  intros n Hn path. destruct ts as [|t ts]; [simpl; lia|].
  destruct t; try (simpl in *; lia).
  destruct ts as [|t ts]; [simpl; congruence|].
  destruct t; simpl in *; try congruence; try lia.
  - apply IH; simpl; lia.
  - case_match; [apply IH; simpl; lia|simpl; congruence].
Qed.

Lemma parse_field_leaves ts : leaves (length ts) (parse_field ts).
Proof.
  destruct ts as [|[] ts]; simpl; try congruence. by apply parse_segments_leaves; simpl; lia.
Qed.

Section fuel.
Context (debug : Tok -> string).

Lemma parse_literal_leaves ts : leaves (length ts) (parse_literal debug ts).
Proof. destruct ts as [|[] ts]; simpl; try congruence; lia. Qed.

Lemma comparison_of_fuel op f v e : comparison_of debug op f v = Err e -> e <> PFuel.
Proof. destruct op; simpl; congruence. Qed.

Lemma parse_fuel_enough fuel :
  (forall ts, 6 * length ts + 5 <= fuel -> leaves (length ts) (parse_or debug fuel ts))%nat /\
  (forall l ts, 6 * length ts + 1 <= fuel -> leaves (S (length ts)) (or_loop debug fuel l ts))%nat /\
  (forall ts, 6 * length ts + 4 <= fuel -> leaves (length ts) (parse_and debug fuel ts))%nat /\
  (forall l ts, 6 * length ts + 1 <= fuel -> leaves (S (length ts)) (and_loop debug fuel l ts))%nat /\
  (forall ts, 6 * length ts + 3 <= fuel -> leaves (length ts) (parse_not debug fuel ts))%nat /\
  (forall ts, 6 * length ts + 2 <= fuel -> leaves (length ts) (parse_atom debug fuel ts))%nat.
Proof.
  induction fuel as [|k (IHor & IHol & IHand & IHal & IHnot & IHatom)];
    [repeat split; intros; lia|].
  repeat split.
  - intros ts Hf. simpl. eapply leaves_bind; [apply IHand; lia|].
    intros l rest Hr. eapply leaves_mono; [|apply IHol; lia]. lia.
  - intros l ts Hf. simpl. destruct ts as [|[] ts]; simpl in *; try lia.
    eapply leaves_bind; [apply IHand; lia|].
    intros r rest Hr. eapply leaves_mono; [|apply IHol; lia]. lia.
  - intros ts Hf. simpl. eapply leaves_bind; [apply IHnot; lia|].
    intros l rest Hr. eapply leaves_mono; [|apply IHal; lia]. lia.
  - intros l ts Hf. simpl. destruct ts as [|[] ts]; simpl in *; try lia.
    eapply leaves_bind; [apply IHnot; lia|].
    intros r rest Hr. eapply leaves_mono; [|apply IHal; lia]. lia.
  - intros ts Hf. simpl. destruct ts as [|[] ts]; simpl in *; try (apply IHatom; simpl; lia).
    eapply leaves_bind; [apply IHnot; lia|]. intros r rest Hr. simpl. lia.
  - intros ts Hf. destruct ts as [|t ts]; [simpl; congruence|].
    destruct t; simpl in *; try congruence; try lia.
    + pose proof (parse_segments_leaves (S (length ts)) ts ltac:(lia) s) as Hseg.
      eapply leaves_bind; [exact Hseg|]. intros f [|op rest] Hr; simpl in *; [congruence|].
      eapply leaves_bind; [apply parse_literal_leaves|]. intros v rest' Hv. simpl.
      destruct (comparison_of debug op f v) eqn:Hc; simpl; [lia|].
      by eapply comparison_of_fuel.
    + eapply leaves_bind; [apply IHor; lia|]. intros p [|[] rest] Hr; simpl in *; try congruence; lia.
    + destruct ts as [|[] ts]; simpl in *; try congruence.
      eapply leaves_bind; [apply parse_field_leaves|].
      intros f [|[] rest] Hr; simpl in *; try congruence; lia.
Qed.

Lemma parse_tokens_fuel ts : parse_tokens debug ts <> Err PFuel.
Proof.
  unfold parse_tokens, parse_fuel.
  destruct (parse_fuel_enough (6 * length ts + 6)) as (Hor & _). specialize (Hor ts ltac:(lia)).
  destruct (parse_or debug _ ts) as [[p [|t rest]]|e]; simpl in *; congruence.
Qed.

Lemma take_while_length f s : (String.length (take_while f s).2 <= String.length s)%nat.
Proof.
  induction s as [|a s IH]; simpl; [lia|].
  destruct (f a); [|simpl; lia]. destruct (take_while f s) as [w r]. simpl in *. lia.
Qed.

Lemma scan_str_length q s w r :
  scan_str q s = Some (w, r) -> (String.length r <= String.length s)%nat.
Proof.
  revert w r. induction s as [s IH] using (induction_ltof1 _ String.length); unfold ltof in IH.
  intros w r. destruct s as [|a s]; simpl; [discriminate|].
  destruct (Ascii.eqb a q); [by intros [= <- <-]; lia|].
  destruct (Ascii.eqb a backslash).
  - destruct s as [|b s]; [discriminate|]. destruct (scan_str q s) as [[w' r']|] eqn:Hs; [|discriminate].
    intros [= <- <-]. apply IH in Hs; simpl in *; lia.
  - destruct (scan_str q s) as [[w' r']|] eqn:Hs; [|discriminate].
    intros [= <- <-]. apply IH in Hs; simpl in *; lia.
Qed.

Lemma tail_length s : (String.length (tail s) <= String.length s)%nat.
Proof. destruct s; simpl; lia. Qed.

Lemma lex1_progress i c s :
  match lex1 i c s with
  | Ok (_, rest) => (String.length rest <= String.length s)%nat
  | Err e => e <> PFuel
  end.
Proof.
  unfold lex1. pose proof (tail_length s).
  repeat match goal with |- context [if ?b then Ok _ else _] => destruct b; [simpl; lia|] end.
  destruct (Ascii.eqb c "<"%char); [destruct (head_is "="%char s); simpl; lia|].
  destruct (Ascii.eqb c ">"%char); [destruct (head_is "="%char s); simpl; lia|].
  destruct (_ || _); [|destruct (_ || _)].
  - destruct (scan_str c s) as [[w r]|] eqn:Hs; [|congruence].
    apply scan_str_length in Hs. destruct (at_boundary s); [simpl; lia|congruence].
  - pose proof (take_while_length num_char s) as Hw.
    destruct (take_while num_char s) as [w r]. simpl in Hw.
    destruct (negb _); [congruence|]. destruct (parse_f64 _); [simpl; lia|congruence].
  - destruct (l1_alphabetic c || Ascii.eqb c "_"%char) eqn:Hc; [|congruence]. simpl.
    assert (Hcn : l1_alphanumeric c || Ascii.eqb c "_"%char = true).
    { unfold l1_alphanumeric. destruct (l1_alphabetic c); [done|]. simpl in Hc.
      rewrite Hc. by rewrite !orb_true_r. }
    rewrite Hcn.
    pose proof (take_while_length (fun a => l1_alphanumeric a || Ascii.eqb a "_"%char) s) as Hw.
    destruct (take_while _ s) as [w r]. simpl in Hw.
    destruct (_ && _); [simpl; lia|congruence].
Qed.

Lemma tokenize_loop_fuel fuel total src :
  (String.length src <= fuel)%nat -> tokenize_loop fuel total src <> Err PFuel.
Proof.
  revert src. induction fuel as [|k IH]; intros [|c s] Hf; simpl in *; try done; [lia|].
  pose proof (lex1_progress (total - str_len (String c s)) c s) as Hp.
  destruct (lex1 _ c s) as [[t rest]|e]; simpl in *; [|congruence].
  specialize (IH rest ltac:(lia)). destruct (tokenize_loop k total rest); simpl; congruence.
Qed.

(** The expression parser terminates on every input: neither the
    tokenizer's nor the parser's fuel is ever exhausted. *)
Theorem parse_total (src : string) : parse debug src <> Err PFuel.
Proof.
  unfold parse. pose proof (tokenize_loop_fuel (String.length src) (str_len src) src ltac:(lia)) as Ht.
  fold (tokenize src) in Ht. destruct (tokenize src) as [ts|e]; simpl; [|congruence].
  apply parse_tokens_fuel.
Qed.
End fuel.

(** ** Round trip: printing then parsing *)

Definition field_toks (f : string) : list Tok :=
  match split_char "."%char f with
  | h :: t => TkIdent h :: flat_map (fun s => [TkDot; TkIdent s]) t
  | [] => []
  end.

Definition lit_toks (v : Json) : list Tok :=
  match v with
  | JString s => [TkStr s]
  | JNumber (Float n) => [TkNum n]
  | JBool true => [TkTrue]
  | JBool false => [TkFalse]
  | _ => [TkNull]
  end.

(** The literals of the grammar. *)
Definition is_lit (v : Json) : Prop :=
  match v with
  | JNull | JBool _ | JString _ => True
  | JNumber (Float (S754_zero _ | S754_finite _ _ _)) => True
  | _ => False
  end.

Definition compound (p : Predicate) : bool :=
  match p with PAnd _ | POr _ => true | _ => false end.
Definition paren (p : Predicate) (toks : list Tok) : list Tok :=
  if compound p then TkLParen :: toks ++ [TkRParen] else toks.

(** A printer: every nested conjunction or disjunction is parenthesised. *)
Fixpoint print (p : Predicate) : list Tok :=
  match p with
  | PTrue => [TkTrue]
  | PFalse => [TkFalse]
  | PEq f v => field_toks f ++ TkEq :: lit_toks v
  | PNe f v => field_toks f ++ TkNe :: lit_toks v
  | PLt f v => field_toks f ++ TkLt :: lit_toks v
  | PLe f v => field_toks f ++ TkLe :: lit_toks v
  | PGt f v => field_toks f ++ TkGt :: lit_toks v
  | PGe f v => field_toks f ++ TkGe :: lit_toks v
  | PExists f => TkExists :: TkLParen :: field_toks f ++ [TkRParen]
  | PNot q => TkNot :: paren q (print q)
  | PAnd xs => match xs with
               | [] => []
               | x :: ys => paren x (print x) ++ flat_map (fun y => TkAnd :: paren y (print y)) ys
               end
  | POr xs => match xs with
              | [] => []
              | x :: ys => paren x (print x) ++ flat_map (fun y => TkOr :: paren y (print y)) ys
              end
  end.

(** Predicates with a concrete syntax: at least two operands, and no first
    operand of the same connective (the parser would merge it). *)
Inductive printable : Predicate -> Prop :=
| pr_true : printable PTrue
| pr_false : printable PFalse
| pr_eq f v : is_lit v -> printable (PEq f v)
| pr_ne f v : is_lit v -> printable (PNe f v)
| pr_lt f v : is_lit v -> printable (PLt f v)
| pr_le f v : is_lit v -> printable (PLe f v)
| pr_gt f v : is_lit v -> printable (PGt f v)
| pr_ge f v : is_lit v -> printable (PGe f v)
| pr_exists f : printable (PExists f)
| pr_not q : printable q -> printable (PNot q)
| pr_and x y ys : (forall l, x <> PAnd l) -> Forall printable (x :: y :: ys) ->
    printable (PAnd (x :: y :: ys))
| pr_or x y ys : (forall l, x <> POr l) -> Forall printable (x :: y :: ys) ->
    printable (POr (x :: y :: ys)).

Definition not_and_or (ts : list Tok) : Prop :=
  match ts with TkAnd :: _ | TkOr :: _ => False | _ => True end.
Definition not_and (ts : list Tok) : Prop :=
  match ts with TkAnd :: _ => False | _ => True end.

Lemma parse_segments_print segs rest path :
  match rest with TkDot :: _ => False | _ => True end ->
  parse_segments path (flat_map (fun s => [TkDot; TkIdent s]) segs ++ rest) =
  Ok (fold_left (fun p s => (p +:+ "." +:+ s)%string) segs path, rest).
Proof.
  intros Hr. revert path. induction segs as [|s segs IH]; intros path; simpl; [|apply IH].
  destruct rest as [|[] rest]; done.
Qed.

Lemma fold_join segs h :
  fold_left (fun p s => (p +:+ "." +:+ s)%string) segs h = join "." (h :: segs).
Proof.
  revert h. induction segs as [|s segs IH]; intros h; [done|].
  simpl fold_left. rewrite IH. destruct segs as [|s' segs]; [done|].
  change (join "." ((h +:+ "." +:+ s)%string :: s' :: segs))
    with ((h +:+ "." +:+ s) +:+ "." +:+ join "." (s' :: segs))%string.
  change (join "." (h :: s :: s' :: segs))
    with (h +:+ "." +:+ (s +:+ "." +:+ join "." (s' :: segs)))%string.
  by rewrite !append_assoc.
Qed.

Lemma parse_field_print f rest :
  match rest with TkDot :: _ => False | _ => True end ->
  parse_field (field_toks f ++ rest) = Ok (f, rest).
Proof.
  intros Hr. unfold field_toks. pose proof (split_char_nonnil "."%char f) as Hn.
  pose proof (join_split_char "."%char f) as Hj.
  destruct (split_char "."%char f) as [|h t]; [done|]. simpl.
  rewrite parse_segments_print by done. by rewrite fold_join, Hj.
Qed.

Lemma field_toks_head f : exists h t, field_toks f = TkIdent h :: t.
Proof.
  unfold field_toks. pose proof (split_char_nonnil "."%char f).
  destruct (split_char "."%char f) as [|h t]; [done|]. eauto.
Qed.

Section roundtrip.
Context (debug : Tok -> string).

Lemma parse_literal_print v rest :
  is_lit v -> parse_literal debug (lit_toks v ++ rest) = Ok (v, rest).
Proof.
  destruct v as [|[]|[n|n|[]]|s|l|m]; simpl; try done.
Qed.

Lemma patom_cmp fuel f op v rest p :
  is_lit v -> comparison_of debug op f v = Ok p -> op <> TkDot ->
  (1 <= fuel)%nat -> parse_atom debug fuel (field_toks f ++ op :: lit_toks v ++ rest) = Ok (p, rest).
Proof.
  intros Hv Hp Hop Hf. destruct fuel as [|k]; [lia|].
  pose proof (parse_field_print f (op :: lit_toks v ++ rest) ltac:(by destruct op)) as Hpf.
  destruct (field_toks_head f) as (h & t & Hft). rewrite Hft in *. simpl in *.
  rewrite Hpf. simpl. rewrite parse_literal_print by done. simpl. by rewrite Hp.
Qed.

(** The operand parser and the expression parser read back what was printed. *)
Definition reads_not (p : Predicate) : Prop :=
  forall fuel rest, (6 * length (paren p (print p)) + 3 <= fuel)%nat ->
    parse_not debug fuel (paren p (print p) ++ rest) = Ok (p, rest).
Definition reads_or (p : Predicate) : Prop :=
  forall fuel rest, not_and_or rest -> (6 * length (print p) + 5 <= fuel)%nat ->
    parse_or debug fuel (print p ++ rest) = Ok (p, rest).

Lemma and_loop_stop fuel p rest : not_and rest -> (1 <= fuel)%nat ->
  and_loop debug fuel p rest = Ok (p, rest).
Proof. destruct fuel; [lia|]. by destruct rest as [|[]]. Qed.
Lemma or_loop_stop fuel p rest : not_and_or rest -> (1 <= fuel)%nat ->
  or_loop debug fuel p rest = Ok (p, rest).
Proof. destruct fuel; [lia|]. by destruct rest as [|[]]. Qed.

Lemma pand_reads p fuel rest :
  reads_not p -> not_and rest -> (6 * length (paren p (print p)) + 4 <= fuel)%nat ->
  parse_and debug fuel (paren p (print p) ++ rest) = Ok (p, rest).
Proof.
  intros Hp Hr Hf. destruct fuel as [|k]; [lia|]. simpl. rewrite Hp by lia. simpl.
  apply and_loop_stop; [done|lia].
Qed.

Lemma reads_or_simple p : compound p = false -> reads_not p -> reads_or p.
Proof.
  intros Hc Hp fuel rest Hr Hf.
  assert (Hpar : paren p (print p) = print p) by (unfold paren; by rewrite Hc).
  destruct fuel as [|k]; [lia|]. simpl. rewrite <- Hpar.
  rewrite pand_reads; [|done|by destruct rest as [|[]]|rewrite Hpar; lia]. simpl.
  apply or_loop_stop; [done|lia].
Qed.

Lemma reads_not_compound p : compound p = true -> reads_or p -> reads_not p.
Proof.
  intros Hc Hp fuel rest Hf. unfold paren in *. rewrite Hc in *. simpl in *.
  rewrite length_app in Hf. simpl in Hf.
  destruct fuel as [|[|k]]; [lia|lia|]. simpl. rewrite <- app_assoc.
  rewrite Hp; [done|done|lia].
Qed.

Lemma reads_not_atom p :
  compound p = false ->
  (exists t ts, print p = t :: ts /\ t <> TkNot) ->
  (forall fuel rest, (1 <= fuel)%nat -> parse_atom debug fuel (print p ++ rest) = Ok (p, rest)) ->
  reads_not p.
Proof.
  intros Hc (t & ts & Ht & Hn) Ha fuel rest Hf. unfold paren in *. rewrite Hc in *.
  destruct fuel as [|k]; [lia|]. specialize (Ha k rest ltac:(rewrite Ht in Hf; simpl in Hf; lia)).
  rewrite Ht in *. simpl in *. by destruct t.
Qed.

Lemma and_loop_print ys : Forall reads_not ys -> forall fuel acc rest,
  not_and rest ->
  (6 * length (flat_map (fun y => TkAnd :: paren y (print y)) ys) + 1 <= fuel)%nat ->
  and_loop debug fuel (PAnd acc) (flat_map (fun y => TkAnd :: paren y (print y)) ys ++ rest) =
  Ok (PAnd (acc ++ ys), rest).
Proof.
  induction 1 as [|y ys Hy Hys IH]; intros fuel acc rest Hr Hf.
  - rewrite app_nil_r. apply and_loop_stop; [done|lia].
  - simpl in *. rewrite length_app in Hf. destruct fuel as [|k]; [lia|]. simpl.
    rewrite <- app_assoc, Hy by lia. simpl. rewrite IH by (done || lia).
    by rewrite <- app_assoc.
Qed.

Lemma not_and_or_ys ys rest : not_and_or rest ->
  not_and (flat_map (fun y => TkOr :: paren y (print y)) ys ++ rest).
Proof. destruct ys; simpl; [|done]. by destruct rest as [|[]]. Qed.

Lemma or_loop_print ys : Forall reads_not ys -> forall fuel acc rest,
  not_and_or rest ->
  (6 * length (flat_map (fun y => TkOr :: paren y (print y)) ys) + 1 <= fuel)%nat ->
  or_loop debug fuel (POr acc) (flat_map (fun y => TkOr :: paren y (print y)) ys ++ rest) =
  Ok (POr (acc ++ ys), rest).
Proof.
  induction 1 as [|y ys Hy Hys IH]; intros fuel acc rest Hr Hf.
  - rewrite app_nil_r. apply or_loop_stop; [done|lia].
  - simpl in *. rewrite length_app in Hf. destruct fuel as [|k]; [lia|]. simpl.
    rewrite <- app_assoc, pand_reads; [|done|by apply not_and_or_ys|lia].
    simpl. rewrite IH by (done || lia). by rewrite <- app_assoc.
Qed.

Lemma parse_or_S k ts :
  parse_or debug (S k) ts = ('(lhs, ts) ← parse_and debug k ts; or_loop debug k lhs ts).
Proof. reflexivity. Qed.
Lemma parse_and_S k ts :
  parse_and debug (S k) ts = ('(lhs, ts) ← parse_not debug k ts; and_loop debug k lhs ts).
Proof. reflexivity. Qed.
Lemma and_loop_S k p ts :
  and_loop debug (S k) p (TkAnd :: ts) =
  ('(rhs, ts') ← parse_not debug k ts; and_loop debug k (push_and p rhs) ts').
Proof. reflexivity. Qed.

Lemma reads_and x y ys :
  (forall l, x <> PAnd l) -> Forall reads_not (x :: y :: ys) -> reads_or (PAnd (x :: y :: ys)).
Proof.
  intros Hx Hall fuel rest Hr Hf. apply Forall_cons_1 in Hall as [Hrx Hall].
  apply Forall_cons_1 in Hall as [Hry Hys]. simpl in *. rewrite !length_app in Hf. simpl in Hf.
  rewrite length_app in Hf. destruct fuel as [|[|[|k]]]; try lia.
  assert (Hna : not_and rest) by (by destruct rest as [|[]]).
  rewrite <- app_assoc, parse_or_S, parse_and_S, Hrx by lia.
  cbn [mbind result_bind app]. rewrite and_loop_S, <- app_assoc, Hry by lia.
  cbn [mbind result_bind].
  assert (Hpush : push_and x y = PAnd [x; y]) by (destruct x; try done; by destruct (Hx xs)).
  rewrite Hpush, and_loop_print by (done || lia). cbn [mbind result_bind].
  apply or_loop_stop; [done|lia].
Qed.

Lemma reads_or_or x y ys :
  (forall l, x <> POr l) -> Forall reads_not (x :: y :: ys) -> reads_or (POr (x :: y :: ys)).
Proof.
  intros Hx Hall fuel rest Hr Hf. apply Forall_cons_1 in Hall as [Hrx Hall].
  apply Forall_cons_1 in Hall as [Hry Hys]. simpl in *. rewrite !length_app in Hf. simpl in Hf.
  rewrite length_app in Hf. destruct fuel as [|[|k]]; try lia.
  rewrite <- app_assoc, parse_or_S, pand_reads; [|done|done|lia]. simpl.
  rewrite <- app_assoc, pand_reads; [|done|by apply not_and_or_ys|lia]. simpl.
  assert (Hpush : push_or x y = POr [x; y]) by (destruct x; try done; by destruct (Hx xs)).
  rewrite Hpush. by rewrite or_loop_print by (done || lia).
Qed.
End roundtrip.

Lemma Predicate_ind' (P : Predicate -> Prop) :
  (forall p, compound p = false -> (forall q, p <> PNot q) -> P p) ->
  (forall q, P q -> P (PNot q)) ->
  (forall xs, Forall P xs -> P (PAnd xs)) -> (forall xs, Forall P xs -> P (POr xs)) ->
  forall p, P p.
Proof.
  intros Hs Hn Ha Ho. fix IH 1. intros p. destruct p; try (apply Hs; done).
  - apply Ha. induction xs; constructor; [apply IH|assumption].
  - apply Ho. induction xs; constructor; [apply IH|assumption].
  - apply Hn, IH.
Qed.

Lemma printable_reads debug p :
  printable p -> reads_not debug p /\ reads_or debug p.
Proof.
  assert (Hboth : forall p, compound p = false -> reads_not debug p ->
    reads_not debug p /\ reads_or debug p) by (intros; split; [|apply reads_or_simple]; done).
  assert (Hlift : forall xs, Forall (fun p => printable p -> reads_not debug p /\ reads_or debug p) xs ->
    Forall printable xs -> Forall (reads_not debug) xs).
  { induction 1; intros Hp; constructor; apply Forall_cons_1 in Hp as [? ?]; [tauto|auto]. }
  induction p as [p Hc Hn|q IH|xs IH|xs IH] using Predicate_ind'; intros Hp.
  - apply Hboth; [done|]. destruct Hp; try done.
    1,2: apply reads_not_atom; [done|by do 2 eexists|by intros [|fuel] rest Hf; [lia|]].
    1-6: apply reads_not_atom; [done| |];
      [destruct (field_toks_head f) as (h & t & Hf); simpl; rewrite Hf; by do 2 eexists|];
      intros fuel rest Hfuel; simpl; rewrite <- app_assoc; by apply patom_cmp.
    + apply reads_not_atom; [done|by do 2 eexists|]. intros [|fuel] rest Hf; [lia|].
      simpl. rewrite <- app_assoc. by rewrite parse_field_print.
    + by destruct (Hn q).
  - apply Hboth; [done|]. inversion_clear Hp as [ | | | | | | | | |? Hq| |].
    destruct (IH Hq) as [Hr _]. intros fuel rest Hf. simpl in *.
    destruct fuel as [|k]; [lia|]. simpl. by rewrite Hr by lia.
  - assert (Hor : reads_or debug (PAnd xs))
      by (inversion Hp; subst; apply reads_and; [done|by apply Hlift]).
    split; [by apply reads_not_compound|done].
  - assert (Hor : reads_or debug (POr xs))
      by (inversion Hp; subst; apply reads_or_or; [done|by apply Hlift]).
    split; [by apply reads_not_compound|done].
Qed.

(** Parsing the printed form of a predicate gives that predicate back,
    with precedence, parentheses, dotted paths and literals preserved. *)
Theorem parse_print (debug : Tok -> string) (p : Predicate) (Hp : printable p) :
  parse_tokens debug (print p) = Ok p.
Proof.
  unfold parse_tokens, parse_fuel. destruct (printable_reads debug p Hp) as [_ Ho].
  specialize (Ho (6 * length (print p) + 6)%nat [] I ltac:(lia)).
  rewrite app_nil_r in Ho. by rewrite Ho.
Qed.

Lemma parse_print_witness :
  let p := POr [PAnd [PExists "a.b"; PNot (PEq "c" JNull)]; PLt "d" (JString "x")] in
  print p = [TkLParen; TkExists; TkLParen; TkIdent "a"; TkDot; TkIdent "b"; TkRParen; TkAnd;
             TkNot; TkIdent "c"; TkEq; TkNull; TkRParen; TkOr; TkIdent "d"; TkLt; TkStr "x"] /\
  parse_tokens no_debug (print p) = Ok p.
Proof.
  split; [reflexivity|]. apply (parse_print no_debug).
  repeat (constructor; try discriminate).
Defined.

(** ** Divergences *)

(** A numeric literal is parsed to a float, and JSON integers are never equal to
    floats: [==] with a number is false on every integer payload, while the
    ordered comparators convert. *)
Example watch_integer_equality :
  parse no_debug "n == 5" = Ok (PEq "n" (JNumber (Float (f64_of_Z 5)))) /\
  evaluate (PEq "n" (JNumber (Float (f64_of_Z 5)))) (JObject [("n", JNumber (PosInt 5))]) = false /\
  evaluate (PGe "n" (JNumber (Float (f64_of_Z 5)))) (JObject [("n", JNumber (PosInt 5))]) = true /\
  evaluate (PLe "n" (JNumber (Float (f64_of_Z 5)))) (JObject [("n", JNumber (PosInt 5))]) = true.
Proof. repeat split; vm_compute; reflexivity. Qed.

(** An array index followed by another segment: the number swallows the dot. *)
Example watch_index_path :
  is_ok (parse no_debug "items.0.id == 'x'") = false /\
  evaluate (PEq "items.0.id" (JString "x"))
    (JObject [("items", JArray [JObject [("id", JString "x")]])]) = true.
Proof. split; vm_compute; reflexivity. Qed.

(** An identifier outside ASCII is sliced inside a character. *)
Example watch_non_ascii_panics : parse no_debug "é == 1" = Err PPanic.
Proof. vm_compute. reflexivity. Qed.
