(* ===== verification/Storage.v ===== *)
(** * The ledger tables and their repository ([actant-storage/src/repo.rs], migrations)

    The SQLite tables the command engine uses, each a finite map from primary key
    to row, with the constraints of [migrations/0001_initial.sql] and [0003]:
    primary keys, the UNIQUE key of [tool] and every foreign key (enforced by
    [foreign_keys(true)]).  A statement that violates one fails and changes
    nothing.  ULIDs and wall-clock stamps come from the environment: two streams
    indexed by how many were drawn before. *)

From S2P Require Import Prelude Str Json Hlc Core.
#[local] Open Scope string_scope.
#[local] Open Scope list_scope.
#[local] Open Scope Z_scope.

(** ** Rows without a Rust struct

    Columns that no statement of the engine writes or reads are left out. *)

Record MessageRow := mkMessageRow {
  m_id : string; m_session_id : string; m_workspace_id : string; m_author_actor_id : string;
  m_role : string; m_body_ref : option string; m_body_text : option string;
  m_body_hash : string; m_created_at : string
}.

Record ToolRow := mkToolRow {
  tl_id : string; tl_workspace_id : string; tl_name : string; tl_kind : string;
  tl_required_permission : string; tl_default_risk_level : string; tl_created_at : string
}.

Record CandidateRow := mkCandidateRow {
  cr_id : string; cr_workspace_id : string; cr_proposed_by_actor_id : string;
  cr_source_event_ids : string; cr_text : string; cr_category : string; cr_confidence : f64;
  cr_sensitivity : string; cr_status : MemoryCandidateStatus; cr_review_reason : option string;
  cr_created_at : string
}.

Record MemoryRow := mkMemoryRow {
  mr_id : string; mr_workspace_id : string; mr_text : string; mr_category : string;
  mr_sensitivity : string; mr_confidence : option f64; mr_scope : string;
  mr_source_candidate_id : option string; mr_source_event_ids : string; mr_usage_count : Z;
  mr_created_at : string
}.

Record IdemRow := mkIdemRow {
  id_actor_id : string; id_command_type : string; id_input_hash : string;
  id_result_ref : option string; id_created_at : string
}.

(** An event with its replication columns ([0007_replication.sql]); rows written
    without them get the column defaults. *)
Record EventRow := mkEventRow {
  er_event : AgentEvent; er_device_id : string; er_hlc : Z * Z
}.

(** ** The database and the environment *)

Record Ledger := mkLedger {
  workspaces : gmap string Workspace;
  actors : gmap string Actor;
  sessions : gmap string Session;
  messages : gmap string MessageRow;
  events : gmap string EventRow;
  commands : gmap string CommandRecord;
  tools : gmap string ToolRow;
  tool_calls : gmap string ToolCall;
  approvals : gmap string ApprovalRequest;
  candidates : gmap string CandidateRow;
  memories : gmap string MemoryRow;
  idems : gmap (string * string) IdemRow;
  authority_scopes : gset string;   (* ids of rows other tools maintain *)
  policies : gset string;
}.

Definition set_workspaces x l := mkLedger x (actors l) (sessions l) (messages l) (events l) (commands l) (tools l) (tool_calls l) (approvals l) (candidates l) (memories l) (idems l) (authority_scopes l) (policies l).
Definition set_actors x l := mkLedger (workspaces l) x (sessions l) (messages l) (events l) (commands l) (tools l) (tool_calls l) (approvals l) (candidates l) (memories l) (idems l) (authority_scopes l) (policies l).
Definition set_sessions x l := mkLedger (workspaces l) (actors l) x (messages l) (events l) (commands l) (tools l) (tool_calls l) (approvals l) (candidates l) (memories l) (idems l) (authority_scopes l) (policies l).
Definition set_messages x l := mkLedger (workspaces l) (actors l) (sessions l) x (events l) (commands l) (tools l) (tool_calls l) (approvals l) (candidates l) (memories l) (idems l) (authority_scopes l) (policies l).
Definition set_events x l := mkLedger (workspaces l) (actors l) (sessions l) (messages l) x (commands l) (tools l) (tool_calls l) (approvals l) (candidates l) (memories l) (idems l) (authority_scopes l) (policies l).
Definition set_commands x l := mkLedger (workspaces l) (actors l) (sessions l) (messages l) (events l) x (tools l) (tool_calls l) (approvals l) (candidates l) (memories l) (idems l) (authority_scopes l) (policies l).
Definition set_tools x l := mkLedger (workspaces l) (actors l) (sessions l) (messages l) (events l) (commands l) x (tool_calls l) (approvals l) (candidates l) (memories l) (idems l) (authority_scopes l) (policies l).
Definition set_tool_calls x l := mkLedger (workspaces l) (actors l) (sessions l) (messages l) (events l) (commands l) (tools l) x (approvals l) (candidates l) (memories l) (idems l) (authority_scopes l) (policies l).
Definition set_approvals x l := mkLedger (workspaces l) (actors l) (sessions l) (messages l) (events l) (commands l) (tools l) (tool_calls l) x (candidates l) (memories l) (idems l) (authority_scopes l) (policies l).
Definition set_candidates x l := mkLedger (workspaces l) (actors l) (sessions l) (messages l) (events l) (commands l) (tools l) (tool_calls l) (approvals l) x (memories l) (idems l) (authority_scopes l) (policies l).
Definition set_memories x l := mkLedger (workspaces l) (actors l) (sessions l) (messages l) (events l) (commands l) (tools l) (tool_calls l) (approvals l) (candidates l) x (idems l) (authority_scopes l) (policies l).
Definition set_idems x l := mkLedger (workspaces l) (actors l) (sessions l) (messages l) (events l) (commands l) (tools l) (tool_calls l) (approvals l) (candidates l) (memories l) x (authority_scopes l) (policies l).

Definition empty_ledger : Ledger := mkLedger ∅ ∅ ∅ ∅ ∅ ∅ ∅ ∅ ∅ ∅ ∅ ∅ ∅ ∅.

(** The environment of the process: generated ULIDs and [now_rfc3339()]. *)
Class Env := { ulid : nat -> string; clock : nat -> string }.

(** The state a request runs in: the database and the positions in both streams. *)
Record World := mkWorld { ledger : Ledger; seq : nat; time : nat }.

#[global] Set Warnings "-notation-for-abbreviation".
Notation DB A := (M World ActantError A).

Definition with_ledger (f : Ledger -> Ledger) : DB unit :=
  modify_st (fun w => mkWorld (f (ledger w)) (seq w) (time w)).
Definition read {A} (f : Ledger -> A) : DB A := fun w => (Ok (f (ledger w)), w).
Arguments with_ledger f w /.
Arguments read {A} f w /.

Section env.
Context `{Env}.

(** [now_rfc3339()]. *)
Definition now_rfc3339 : DB string :=
  fun w => (Ok (clock (time w)), mkWorld (ledger w) (seq w) (S (time w))).
(** [XxxId::new()]: prefix, underscore, ULID. *)
Definition new_id (prefix : string) : DB string :=
  fun w => (Ok (prefix +:+ "_" +:+ ulid (seq w)), mkWorld (ledger w) (S (seq w)) (time w)).
End env.

(** ** Constraints *)

Definition has {A} (m : gmap string A) (id : string) : bool := bool_decide (is_Some (m !! id)).
Definition has_opt {A} (m : gmap string A) (id : option string) : bool :=
  match id with None => true | Some i => has m i end.
Definition in_opt (s : gset string) (id : option string) : bool :=
  match id with None => true | Some i => bool_decide (i ∈ s) end.

Definition unique_failed (what : string) : ActantError :=
  Storage ("UNIQUE constraint failed: " +:+ what).
Definition fk_failed : ActantError := Storage "FOREIGN KEY constraint failed".

Definition workspace_fk (_ : Workspace) (_ : Ledger) : bool := true.
Definition actor_fk (a : Actor) (l : Ledger) : bool := has (workspaces l) (act_workspace_id a).
Definition session_fk (s : Session) (l : Ledger) : bool :=
  has (workspaces l) (ses_workspace_id s) && has (actors l) (ses_initiator_actor_id s)
  && has_opt (actors l) (ses_agent_actor_id s).
Definition message_fk (m : MessageRow) (l : Ledger) : bool :=
  has (sessions l) (m_session_id m) && has (workspaces l) (m_workspace_id m)
  && has (actors l) (m_author_actor_id m).
(** A row may be its own parent. *)
Definition event_fk (r : EventRow) (l : Ledger) : bool :=
  let e := er_event r in
  has (workspaces l) (ev_workspace_id e) && has (actors l) (ev_actor_id e)
  && has_opt (sessions l) (ev_session_id e)
  && (bool_decide (ev_parent_event_id e = Some (ev_id e)) || has_opt (events l) (ev_parent_event_id e))
  && in_opt (authority_scopes l) (ev_authority_scope_id e).
Definition command_fk (c : CommandRecord) (l : Ledger) : bool :=
  has (workspaces l) (cmd_workspace_id c) && has (actors l) (cmd_actor_id c)
  && has_opt (sessions l) (cmd_session_id c) && in_opt (policies l) (cmd_policy_id c).
Definition tool_fk (t : ToolRow) (l : Ledger) : bool := has (workspaces l) (tl_workspace_id t).
Definition tool_call_fk (t : ToolCall) (l : Ledger) : bool :=
  has (workspaces l) (tc_workspace_id t) && has_opt (sessions l) (tc_session_id t)
  && has (actors l) (tc_requested_by_actor_id t) && has (tools l) (tc_tool_id t).
Definition approval_fk (a : ApprovalRequest) (l : Ledger) : bool :=
  has (workspaces l) (apr_workspace_id a) && has_opt (tool_calls l) (apr_tool_call_id a)
  && has (actors l) (apr_requested_by_actor_id a) && has_opt (actors l) (apr_approved_by_actor_id a).
Definition candidate_fk (c : CandidateRow) (l : Ledger) : bool :=
  has (workspaces l) (cr_workspace_id c) && has (actors l) (cr_proposed_by_actor_id c).
Definition memory_fk (m : MemoryRow) (l : Ledger) : bool :=
  has (workspaces l) (mr_workspace_id m) && has_opt (candidates l) (mr_source_candidate_id m).
Definition idem_fk (r : IdemRow) (l : Ledger) : bool := has (actors l) (id_actor_id r).

(** [INSERT INTO t] of a row with primary key [id]. *)
Definition insert_row {A} (table : string) (get : Ledger -> gmap string A)
    (set : gmap string A -> Ledger -> Ledger) (fk : A -> Ledger -> bool) (id : string) (row : A) :
    DB unit :=
  fun w =>
    let l := ledger w in
    if has (get l) id then (Err (unique_failed (table +:+ ".id")), w)
    else if fk row l then
      (Ok tt, mkWorld (set (<[id := row]> (get l)) l) (seq w) (time w))
    else (Err fk_failed, w).

(** ** Repository operations *)

Definition insert_workspace (ws : Workspace) : DB unit :=
  insert_row "workspace" workspaces set_workspaces workspace_fk (ws_id ws)
    (mkWorkspace (ws_id ws) (ws_name ws) (ws_created_at ws) None).
Definition get_workspace (id : string) : DB (option Workspace) :=
  read (fun l => workspaces l !! id).

Definition insert_actor (a : Actor) : DB unit :=
  insert_row "actor" actors set_actors actor_fk (act_id a)
    (mkActor (act_id a) (act_workspace_id a) (act_kind a) (act_display_name a) (act_created_at a) None).
Definition get_actor (id : string) : DB (option Actor) := read (fun l => actors l !! id).

Definition insert_session (s : Session) : DB unit :=
  insert_row "session" sessions set_sessions session_fk (ses_id s)
    (mkSession (ses_id s) (ses_workspace_id s) (ses_title s) (ses_initiator_actor_id s)
       (ses_agent_actor_id s) (ses_status s) (ses_created_at s) None).

Definition append_event (e : AgentEvent) : DB unit :=
  insert_row "agent_event" events set_events event_fk (ev_id e) (mkEventRow e "_legacy_" (0, 0)).

Definition insert_command (c : CommandRecord) : DB unit :=
  insert_row "command_record" commands set_commands command_fk (cmd_id c) c.

(** [ORDER BY created_at, id]. *)
Definition event_cmp (a b : EventRow) : comparison :=
  lex_cmp String.compare String.compare
    (ev_created_at (er_event a), ev_id (er_event a)) (ev_created_at (er_event b), ev_id (er_event b)).
Definition event_le (a b : EventRow) : Prop := cmp_le (cmp:=event_cmp) a b = true.
#[global] Instance event_le_dec a b : Decision (event_le a b).
Proof. unfold event_le. apply _. Defined.

(** The rows of a table that satisfy [f], in [ORDER BY created_at ASC, id ASC]. *)
Definition select_events (f : AgentEvent -> bool) (l : Ledger) : list EventRow :=
  merge_sort event_le (List.filter (fun r => f (er_event r)) (map snd (map_to_list (events l)))).

Definition in_session (s : string) (e : AgentEvent) : bool :=
  bool_decide (ev_session_id e = Some s).
Definition in_scope (workspace_id : string) (session_id : option string) (e : AgentEvent) : bool :=
  String.eqb (ev_workspace_id e) workspace_id &&
  match session_id with Some s => in_session s e | None => true end.

Definition last_event_hash (workspace_id : string) (session_id : option string) :
    DB (option string) :=
  read (fun l => (fun r => ev_event_hash (er_event r)) <$> last (select_events (in_scope workspace_id session_id) l)).

Definition events_in_session (session_id : string) : DB (list AgentEvent) :=
  read (fun l => List.map er_event (select_events (in_session session_id) l)).

Definition idempotency_lookup (workspace_id key : string) : DB (option string) :=
  read (fun l => r ← idems l !! (workspace_id, key); id_result_ref r).

(** [INSERT OR IGNORE]: a duplicate key is ignored, a dangling actor is not. *)
Definition idempotency_record `{Env} (workspace_id actor_id key command_type input_hash : string)
    (result_ref : option string) : DB unit :=
  now ← now_rfc3339;
  l ← read id;
  match idems l !! (workspace_id, key) with
  | Some _ => mret tt
  | None =>
      let row := mkIdemRow actor_id command_type input_hash result_ref now in
      if idem_fk row l then with_ledger (set_idems (<[(workspace_id, key) := row]> (idems l)))
      else throw fk_failed
  end.

(** ** Replicated ingest *)

Record IngestEvent := mkIngestEvent {
  ie_event : AgentEvent; ie_canonical_payload : string; ie_device_id : string; ie_hlc : Hlc
}.
Record IngestReject := mkIngestReject {
  rej_index : nat; rej_event_id : option string; rej_reason : string
}.
Record IngestReport := mkIngestReport {
  accepted : Z; skipped : Z; rejected : list IngestReject
}.

(** [report.accepted.saturating_add(1)] on a [u32]. *)
Definition bump (n : Z) : Z := u32_saturating_add n 1.

Section ingest.
Context `{Sha256}.

(** The reason to reject a row, if any; [l] is only read for the workspace. *)
Definition reject_reason (ie : IngestEvent) (l : Ledger) : option string :=
  if String.eqb (ie_device_id ie) "" then Some "missing_fields"
  else if negb (String.eqb (content_derived (ie_canonical_payload ie) (ie_hlc ie)
                              (ev_actor_id (ie_event ie))) (ev_id (ie_event ie)))
  then Some "hash_mismatch"
  else if negb (has (workspaces l) (ev_workspace_id (ie_event ie))) then Some "workspace_unknown"
  else None.

(** [x as i64] of a [u64]. *)
Definition u64_as_i64 (x : Z) : Z := if x <? 2 ^ 63 then x else x - 2 ^ 64.

Definition ingest_row (ie : IngestEvent) : EventRow :=
  mkEventRow (ie_event ie) (ie_device_id ie)
    (u64_as_i64 (physical_ms (ie_hlc ie)), logical (ie_hlc ie)).

Definition max_hlc (m : option Hlc) (h : Hlc) : option Hlc :=
  Some match m with
       | Some prev => if cmp_le (cmp:=hlc_cmp) h prev then prev else h
       | None => h
       end.

(** The loop over the batch; an SQL error (a dangling foreign key) returns early. *)
Fixpoint ingest_loop (index : nat) (batch : list IngestEvent) (report : IngestReport)
    (m : option Hlc) : DB (IngestReport * option Hlc) :=
  match batch with
  | [] => mret (report, m)
  | ie :: batch' =>
      l ← read id;
      match reject_reason ie l with
      | Some reason =>
          ingest_loop (S index) batch'
            (mkIngestReport (accepted report) (skipped report)
               (rejected report ++ [mkIngestReject index (Some (ev_id (ie_event ie))) reason])) m
      | None =>
          if has (events l) (ev_id (ie_event ie)) then
            ingest_loop (S index) batch'
              (mkIngestReport (accepted report) (bump (skipped report)) (rejected report))
              (max_hlc m (ie_hlc ie))
          else if event_fk (ingest_row ie) l then
            with_ledger (set_events (<[ev_id (ie_event ie) := ingest_row ie]> (events l)));;
            ingest_loop (S index) batch'
              (mkIngestReport (bump (accepted report)) (skipped report) (rejected report))
              (max_hlc m (ie_hlc ie))
          else throw fk_failed
      end
  end.

(** [ingest_events]: the report, and the stamp passed to [clock.observe]. *)
Definition ingest_events (batch : list IngestEvent) : DB (IngestReport * option Hlc) :=
  ingest_loop 0 batch (mkIngestReport 0 0 []) None.

(** ** Properties of ingest *)

Definition valid (l : Ledger) (ie : IngestEvent) : bool :=
  match reject_reason ie l with None => true | Some _ => false end.

(** The first valid row of the batch with a given id. *)
Definition first_valid (l : Ledger) (k : string) (batch : list IngestEvent) : option IngestEvent :=
  List.find (fun ie => valid l ie && String.eqb (ev_id (ie_event ie)) k) batch.

Definition only_events (l l' : Ledger) : Prop := l' = set_events (events l') l.

Lemma reject_reason_only ie l l' :
  only_events l l' -> reject_reason ie l' = reject_reason ie l.
Proof. intros ->. reflexivity. Qed.

Lemma set_events_twice a b l : set_events a (set_events b l) = set_events a l.
Proof. by destruct l. Qed.
Lemma events_set a l : events (set_events a l) = a.
Proof. by destruct l. Qed.
Lemma set_events_id l : set_events (events l) l = l.
Proof. by destruct l. Qed.

(** How many rows of the batch are valid and not in [l] yet, in order. *)
Fixpoint new_rows (l : Ledger) (seen : gmap string EventRow) (batch : list IngestEvent) : Z :=
  match batch with
  | [] => 0
  | ie :: b =>
      if valid l ie && negb (has seen (ev_id (ie_event ie)))
      then 1 + new_rows l (<[ev_id (ie_event ie) := ingest_row ie]> seen) b
      else new_rows l seen b
  end.

Record ingest_facts (batch : list IngestEvent) (rep : IngestReport) (m : option Hlc) (w : World)
    (rep' : IngestReport) (m' : option Hlc) (w' : World) : Prop := {
  if_only : only_events (ledger w) (ledger w');
  if_env : seq w' = seq w /\ time w' = time w;
  if_events : forall k, events (ledger w') !! k =
    match events (ledger w) !! k with
    | Some r => Some r
    | None => ingest_row <$> first_valid (ledger w) k batch
    end;
  if_rejected : exists rj, rejected rep' = rejected rep ++ rj /\
    Z.of_nat (length rj) + Z.of_nat (length (List.filter (valid (ledger w)) batch)) =
    Z.of_nat (length batch);
  if_counts : accepted rep + skipped rep + Z.of_nat (length batch) <= u32_max ->
    0 <= accepted rep -> 0 <= skipped rep ->
    accepted rep' = accepted rep + new_rows (ledger w) (events (ledger w)) batch /\
    accepted rep' + skipped rep' + Z.of_nat (length (rejected rep')) =
    accepted rep + skipped rep + Z.of_nat (length (rejected rep)) + Z.of_nat (length batch);
  if_hlc : forall ie, In ie batch -> valid (ledger w) ie = true ->
    exists h, m' = Some h /\ cmp_le (cmp:=hlc_cmp) (ie_hlc ie) h = true;
  if_hlc_mono : forall h, m = Some h -> exists h', m' = Some h' /\ cmp_le (cmp:=hlc_cmp) h h' = true;
}.

Lemma max_hlc_spec m h :
  exists h', max_hlc m h = Some h' /\ cmp_le (cmp:=hlc_cmp) h h' = true /\
    (forall p, m = Some p -> cmp_le (cmp:=hlc_cmp) p h' = true).
Proof.
  unfold max_hlc. destruct m as [p|].
  - destruct (cmp_le h p) eqn:Hle; eexists; (split; [reflexivity|]).
    + split; [done|]. intros ? [= <-]. apply cmp_le_refl.
    + split; [apply cmp_le_refl|]. intros ? [= <-].
      destruct (cmp_le_total (cmp:=hlc_cmp) h p); congruence.
  - eexists. split; [reflexivity|]. split; [apply cmp_le_refl|done].
Qed.

Lemma valid_only l l' : only_events l l' -> valid l' = valid l.
Proof. intros ->. reflexivity. Qed.

Lemma first_valid_only l l' k b : only_events l l' -> first_valid l' k b = first_valid l k b.
Proof. intros ->. reflexivity. Qed.

Lemma new_rows_only l l' s b : only_events l l' -> new_rows l' s b = new_rows l s b.
Proof.
  intros Hl. revert s. induction b as [|ie b IH]; intros s; simpl; [done|].
  rewrite (valid_only l l' Hl), !IH. done.
Qed.

Lemma has_true {A} (m : gmap string A) k : has m k = true <-> is_Some (m !! k).
Proof. unfold has. apply bool_decide_eq_true. Qed.
Lemma has_false {A} (m : gmap string A) k : has m k = false <-> m !! k = None.
Proof. unfold has. rewrite bool_decide_eq_false. by rewrite eq_None_not_Some. Qed.

Lemma bump_small n k : 0 <= k -> n + 1 + k <= u32_max -> bump n = n + 1.
Proof. unfold bump, u32_saturating_add. lia. Qed.

(** One processed row, then the facts about the rest of the batch. *)
Lemma ingest_facts_reject ie reason idx batch rep m w rep' m' w' :
  reject_reason ie (ledger w) = Some reason ->
  ingest_facts batch (mkIngestReport (accepted rep) (skipped rep)
     (rejected rep ++ [mkIngestReject idx (Some (ev_id (ie_event ie))) reason])) m w rep' m' w' ->
  ingest_facts (ie :: batch) rep m w rep' m' w'.
Proof.
  intros Hr [H1 H2 H3 H4 H5 H6 H7].
  assert (Hv : valid (ledger w) ie = false) by (unfold valid; by rewrite Hr).
  split; auto.
  - intros k. rewrite H3. unfold first_valid. simpl. by rewrite Hv.
  - destruct H4 as (rj & Hrj & Hlen). simpl in Hrj. rewrite <- app_assoc in Hrj.
    exists ([mkIngestReject idx (Some (ev_id (ie_event ie))) reason] ++ rj). split; [done|].
    simpl. rewrite Hv. lia.
  - simpl in *. rewrite Hv. simpl. intros Hb Ha Hs. rewrite length_app in H5. simpl in H5. lia.
  - intros ie' [<-|Hin]; [congruence|auto].
Qed.

Lemma ingest_facts_skip ie batch rep m w rep' m' w' :
  valid (ledger w) ie = true -> has (events (ledger w)) (ev_id (ie_event ie)) = true ->
  ingest_facts batch (mkIngestReport (accepted rep) (bump (skipped rep)) (rejected rep))
     (max_hlc m (ie_hlc ie)) w rep' m' w' ->
  ingest_facts (ie :: batch) rep m w rep' m' w'.
Proof.
  intros Hv Hh [H1 H2 H3 H4 H5 H6 H7].
  destruct (max_hlc_spec m (ie_hlc ie)) as (h' & Hm & Hle & Hmono).
  destruct (H7 h' Hm) as (h2 & Hm2 & Hle2).
  split; auto.
  - intros k. rewrite H3. unfold first_valid. simpl. rewrite Hv. simpl.
    destruct (String.eqb_spec (ev_id (ie_event ie)) k) as [e|]; [|done]. rewrite <- e.
    apply has_true in Hh as [r ->]. done.
  - destruct H4 as (rj & Hrj & Hlen). exists rj. split; [done|]. simpl. rewrite Hv. simpl. lia.
  - simpl in *. rewrite Hv, Hh. simpl. intros Hb Ha Hs.
    assert (Hbump : bump (skipped rep) = skipped rep + 1).
    { apply (bump_small _ (accepted rep)); lia. }
    rewrite Hbump in H5. lia.
  - intros ie' [<-|Hin] Hv'; [|auto]. exists h2. split; [done|].
    exact (cmp_le_trans (cmp:=hlc_cmp) _ _ _ Hle Hle2).
  - intros h Hh'. exists h2. split; [done|]. exact (cmp_le_trans (cmp:=hlc_cmp) _ _ _ (Hmono h Hh') Hle2).
Qed.

Lemma ingest_facts_insert ie batch rep m w rep' m' w' :
  valid (ledger w) ie = true -> has (events (ledger w)) (ev_id (ie_event ie)) = false ->
  ingest_facts batch (mkIngestReport (bump (accepted rep)) (skipped rep) (rejected rep))
     (max_hlc m (ie_hlc ie))
     (mkWorld (set_events (<[ev_id (ie_event ie) := ingest_row ie]> (events (ledger w))) (ledger w))
        (seq w) (time w)) rep' m' w' ->
  ingest_facts (ie :: batch) rep m w rep' m' w'.
Proof.
  intros Hv Hh [H1 H2 H3 H4 H5 H6 H7]. simpl in *.
  set (l1 := set_events (<[ev_id (ie_event ie) := ingest_row ie]> (events (ledger w))) (ledger w)) in *.
  assert (Ho : only_events (ledger w) l1) by (unfold l1, only_events; by rewrite events_set).
  rewrite (valid_only _ _ Ho) in H4, H6. rewrite (new_rows_only _ _ _ _ Ho) in H5.
  destruct (max_hlc_spec m (ie_hlc ie)) as (h' & Hm & Hle & Hmono).
  destruct (H7 h' Hm) as (h2 & Hm2 & Hle2).
  split; auto.
  - intros k. rewrite H3, (first_valid_only _ _ _ _ Ho).
    change (events l1) with (<[ev_id (ie_event ie) := ingest_row ie]> (events (ledger w))).
    unfold first_valid. simpl. rewrite Hv. simpl. apply has_false in Hh.
    destruct (String.eqb_spec (ev_id (ie_event ie)) k) as [e|Hne].
    + rewrite <- e, lookup_insert_eq, Hh. done.
    + by rewrite lookup_insert_ne.
  - destruct H4 as (rj & Hrj & Hlen). exists rj. split; [done|]. simpl. rewrite Hv. simpl. lia.
  - simpl. rewrite Hv, Hh. simpl. intros Hb Ha Hs.
    assert (Hbump : bump (accepted rep) = accepted rep + 1).
    { apply (bump_small _ (skipped rep)); lia. }
    rewrite Hbump in H5.
    change (events l1) with (<[ev_id (ie_event ie) := ingest_row ie]> (events (ledger w))) in H5. lia.
  - intros ie' [<-|Hin] Hv'; [|auto]. exists h2. split; [done|].
    exact (cmp_le_trans (cmp:=hlc_cmp) _ _ _ Hle Hle2).
  - intros h Hh'. exists h2. split; [done|]. exact (cmp_le_trans (cmp:=hlc_cmp) _ _ _ (Hmono h Hh') Hle2).
Qed.

Lemma ingest_loop_facts batch idx rep m w rep' m' w' :
  ingest_loop idx batch rep m w = (Ok (rep', m'), w') -> ingest_facts batch rep m w rep' m' w'.
Proof.
  revert idx rep m w. induction batch as [|ie batch IH]; intros idx rep m w Hrun.
  - simpl in Hrun. injection Hrun as <- <- <-. split; simpl; auto; try lia; try done.
    + unfold only_events. by rewrite set_events_id.
    + intros k. by destruct (_ !! k).
    + exists []. by rewrite app_nil_r.
    + intros h ->. exists h. split; [done|apply cmp_le_refl].
  - simpl in Hrun. unfold mbind, M_bind, read in Hrun. simpl in Hrun.
    change (id (ledger w)) with (ledger w) in Hrun.
    destruct (reject_reason ie (ledger w)) as [reason|] eqn:Hr.
    { eapply ingest_facts_reject; [done|]. by eapply IH. }
    assert (Hv : valid (ledger w) ie = true) by (unfold valid; by rewrite Hr).
    destruct (has (events (ledger w)) (ev_id (ie_event ie))) eqn:Hh.
    { eapply ingest_facts_skip; [done..|]. by eapply IH. }
    destruct (event_fk (ingest_row ie) (ledger w)); [|done].
    eapply ingest_facts_insert; [done..|]. by eapply IH.
Qed.

(** The rejected rows and the greatest valid stamp, as functions of the batch. *)
Fixpoint rejects (l : Ledger) (idx : nat) (batch : list IngestEvent) : list IngestReject :=
  match batch with
  | [] => []
  | ie :: b =>
      match reject_reason ie l with
      | Some reason => mkIngestReject idx (Some (ev_id (ie_event ie))) reason :: rejects l (S idx) b
      | None => rejects l (S idx) b
      end
  end.
Definition top_hlc (l : Ledger) (batch : list IngestEvent) (m : option Hlc) : option Hlc :=
  fold_left (fun m ie => if valid l ie then max_hlc m (ie_hlc ie) else m) batch m.

Lemma rejects_only l l' idx b : only_events l l' -> rejects l' idx b = rejects l idx b.
Proof.
  intros Hl. revert idx. induction b as [|ie b IH]; intros idx; simpl; [done|].
  rewrite (reject_reason_only ie l l' Hl), IH. done.
Qed.
Lemma top_hlc_only l l' b m : only_events l l' -> top_hlc l' b m = top_hlc l b m.
Proof. intros ->. reflexivity. Qed.

Lemma ingest_loop_pure batch idx rep m w rep' m' w' :
  ingest_loop idx batch rep m w = (Ok (rep', m'), w') ->
  rejected rep' = rejected rep ++ rejects (ledger w) idx batch /\ m' = top_hlc (ledger w) batch m.
Proof.
  revert idx rep m w. induction batch as [|ie batch IH]; intros idx rep m w Hrun.
  - simpl in Hrun. injection Hrun as <- <- <-. by rewrite app_nil_r.
  - simpl in Hrun. unfold mbind, M_bind, read in Hrun. simpl in Hrun.
    change (id (ledger w)) with (ledger w) in Hrun. simpl. unfold valid.
    destruct (reject_reason ie (ledger w)) as [reason|].
    { apply IH in Hrun as [-> ->]. simpl. by rewrite <- app_assoc. }
    destruct (has (events (ledger w)) (ev_id (ie_event ie))); [by apply IH in Hrun|].
    destruct (event_fk (ingest_row ie) (ledger w)); [|done].
    apply IH in Hrun as [-> ->]. simpl. split.
    + f_equal. by apply rejects_only.
    + by apply top_hlc_only.
Qed.

(** When every valid row is already present, the loop only counts. *)
Lemma ingest_loop_replay batch idx rep m w :
  (forall ie, In ie batch -> valid (ledger w) ie = true ->
     has (events (ledger w)) (ev_id (ie_event ie)) = true) ->
  exists sk, ingest_loop idx batch rep m w =
    (Ok (mkIngestReport (accepted rep) sk (rejected rep ++ rejects (ledger w) idx batch),
         top_hlc (ledger w) batch m), w).
Proof.
  revert idx rep m. induction batch as [|ie batch IH]; intros idx rep m Hall.
  - simpl. rewrite app_nil_r. exists (skipped rep). by destruct rep.
  - simpl. unfold mbind, M_bind, read. simpl. change (id (ledger w)) with (ledger w).
    specialize (Hall ie (or_introl eq_refl)) as Hie. unfold valid in *.
    assert (Hall' : forall ie0, In ie0 batch -> valid (ledger w) ie0 = true ->
      has (events (ledger w)) (ev_id (ie_event ie0)) = true) by (intros; apply Hall; [by right|done]).
    destruct (reject_reason ie (ledger w)) as [reason|] eqn:Hr.
    + destruct (IH (S idx) (mkIngestReport (accepted rep) (skipped rep)
        (rejected rep ++ [mkIngestReject idx (Some (ev_id (ie_event ie))) reason])) m Hall') as [sk ->].
      exists sk. simpl. by rewrite <- app_assoc.
    + rewrite Hie by done.
      destruct (IH (S idx) (mkIngestReport (accepted rep) (bump (skipped rep)) (rejected rep))
        (max_hlc m (ie_hlc ie)) Hall') as [sk ->].
      by exists sk.
Qed.

Lemma find_is_Some {A} (f : A -> bool) l x : In x l -> f x = true -> is_Some (List.find f l).
Proof.
  intros Hin Hf. destruct (List.find f l) eqn:He; [by eexists|].
  apply (List.find_none _ _ He) in Hin. congruence.
Qed.

(** Ingesting a batch a second time accepts nothing, rejects the same
    rows, reports the same stamp to the clock and leaves the database exactly as
    it was: ingest is idempotent. *)
Theorem ingest_idempotent (batch : list IngestEvent) (w w1 : World) (rep : IngestReport)
  (m : option Hlc) (Hrun : ingest_events batch w = (Ok (rep, m), w1)) :
  exists rep2, ingest_events batch w1 = (Ok (rep2, m), w1) /\
    accepted rep2 = 0 /\ rejected rep2 = rejected rep.
Proof.
  pose proof (ingest_loop_facts _ _ _ _ _ _ _ _ Hrun) as [Ho _ Hev _ _ _ _].
  pose proof (ingest_loop_pure _ _ _ _ _ _ _ _ Hrun) as [Hrej ->].
  destruct (ingest_loop_replay batch 0 (mkIngestReport 0 0 []) None w1) as [sk Hsk].
  { intros ie Hin Hv. rewrite (valid_only _ _ Ho) in Hv. apply has_true. rewrite Hev.
    destruct (events (ledger w) !! _); [by eexists|]. apply fmap_is_Some.
    apply (find_is_Some _ _ ie Hin). by rewrite Hv, String.eqb_refl. }
  unfold ingest_events. rewrite Hsk, (top_hlc_only _ _ _ _ Ho), (rejects_only _ _ _ _ Ho).
  eexists. split; [reflexivity|]. simpl. by rewrite Hrej.
Qed.

(** Every row of a batch is accounted for exactly once (accepted, skipped
    or rejected), the accepted rows are the valid ones that were new, existing
    events are never altered, and the stamp handed to the clock is at least that
    of every valid row. *)
Theorem ingest_accounts (batch : list IngestEvent) (w w1 : World) (rep : IngestReport)
  (m : option Hlc) (Hrun : ingest_events batch w = (Ok (rep, m), w1))
  (Hsize : Z.of_nat (length batch) <= u32_max) :
  accepted rep + skipped rep + Z.of_nat (length (rejected rep)) = Z.of_nat (length batch) /\
  accepted rep = new_rows (ledger w) (events (ledger w)) batch /\
  only_events (ledger w) (ledger w1) /\
  (forall k, events (ledger w1) !! k =
     match events (ledger w) !! k with
     | Some r => Some r
     | None => ingest_row <$> first_valid (ledger w) k batch
     end) /\
  (forall ie, In ie batch -> valid (ledger w) ie = true ->
     exists h, m = Some h /\ cmp_le (cmp:=hlc_cmp) (ie_hlc ie) h = true).
Proof.
  pose proof (ingest_loop_facts _ _ _ _ _ _ _ _ Hrun) as [Ho _ Hev _ Hc Hh _]. simpl in Hc.
  destruct Hc as [Hc1 Hc2]; [lia..|]. rewrite Z.add_0_l in Hc1. repeat split; auto.
Qed.

(** Rows of a batch with the same id are the same row. *)
Definition consistent (batch : list IngestEvent) : Prop :=
  forall a b, In a batch -> In b batch -> ev_id (ie_event a) = ev_id (ie_event b) ->
    ingest_row a = ingest_row b.

Lemma first_valid_perm l k b1 b2 :
  consistent b1 -> Permutation b1 b2 ->
  ingest_row <$> first_valid l k b1 = ingest_row <$> first_valid l k b2.
Proof.
  intros Hc Hp. unfold first_valid.
  set (f := fun ie => valid l ie && String.eqb (ev_id (ie_event ie)) k).
  destruct (List.find f b1) as [x|] eqn:H1, (List.find f b2) as [y|] eqn:H2; simpl; try done.
  - apply List.find_some in H1 as [Hx Hfx], H2 as [Hy Hfy].
    apply andb_true_iff in Hfx as [_ Hfx], Hfy as [_ Hfy].
    apply String.eqb_eq in Hfx, Hfy. f_equal. apply Hc; [done| |congruence].
    by apply (Permutation_in _ (Permutation_sym Hp)).
  - apply List.find_some in H1 as [Hx Hfx]. apply (Permutation_in _ Hp) in Hx.
    rewrite (List.find_none _ _ H2 _ Hx) in Hfx. done.
  - apply List.find_some in H2 as [Hy Hfy]. apply (Permutation_in _ (Permutation_sym Hp)) in Hy.
    rewrite (List.find_none _ _ H1 _ Hy) in Hfy. done.
Qed.

End ingest.

(** ** A concrete batch *)

#[local] Instance id_sha : Sha256 := fun s => s.

Definition demo_event (id : string) : AgentEvent :=
  mkAgentEvent id "ws_1" "act_1" None None "note" Observation SLow None (Some "{}") None "ph" "eh"
    "2026-01-01T00:00:00Z" None None None None None None None.
Definition demo_hlc (n : Z) : Hlc := mkHlc n 0.
Definition demo_ie (p : string) (n : Z) : IngestEvent :=
  mkIngestEvent (demo_event (content_derived p (demo_hlc n) "act_1")) p "dev_1" (demo_hlc n).
Definition demo_bad : IngestEvent := mkIngestEvent (demo_event "evt_forged") "p" "dev_1" (demo_hlc 9).

Definition demo_world : World :=
  mkWorld (set_actors (<["act_1" := mkActor "act_1" "ws_1" Human "a" "t" None]> ∅)
    (set_workspaces (<["ws_1" := mkWorkspace "ws_1" "w" "t" None]> ∅) empty_ledger)) 0 0.
Definition demo_batch : list IngestEvent := [demo_ie "a" 5; demo_bad; demo_ie "b" 3; demo_ie "a" 5].

Definition run_world {A} (r : result ActantError A * World) : World := r.2.
Definition run_report (r : result ActantError (IngestReport * option Hlc) * World) :
    IngestReport * option Hlc :=
  match r.1 with Ok x => x | Err _ => (mkIngestReport 0 0 [], None) end.

Definition demo_r := ingest_events demo_batch demo_world.
Lemma demo_r_ok : ingest_events demo_batch demo_world =
  (Ok ((run_report demo_r).1, (run_report demo_r).2), run_world demo_r).
Proof. vm_compute. reflexivity. Qed.

Lemma ingest_idempotent_witness :
  (run_report demo_r).1 =
    mkIngestReport 2 1 [mkIngestReject 1 (Some "evt_forged") "hash_mismatch"] /\
  exists rep2, ingest_events demo_batch (run_world demo_r) =
    (Ok (rep2, (run_report demo_r).2), run_world demo_r) /\
    accepted rep2 = 0 /\ rejected rep2 = rejected (run_report demo_r).1.
Proof.
  split; [vm_compute; reflexivity|].
  apply (ingest_idempotent demo_batch demo_world (run_world demo_r) (run_report demo_r).1
    (run_report demo_r).2 demo_r_ok).
Defined.

Lemma ingest_accounts_witness :
  accepted (run_report demo_r).1 + skipped (run_report demo_r).1 +
  Z.of_nat (length (rejected (run_report demo_r).1)) = 4.
Proof.
  apply (ingest_accounts demo_batch demo_world (run_world demo_r) (run_report demo_r).1
    (run_report demo_r).2 demo_r_ok).
  vm_compute. discriminate.
Defined.

Definition demo_r' := ingest_events (rev demo_batch) demo_world.
Lemma demo_r'_ok : ingest_events (rev demo_batch) demo_world =
  (Ok ((run_report demo_r').1, (run_report demo_r').2), run_world demo_r').
Proof. vm_compute. reflexivity. Qed.


(** The id commits to the transmitted canonical payload, the stamp and the actor
    only: the stored payload and the other columns are not checked against it.
    Two rows with one id and different columns are both valid, and the first to
    arrive wins. *)
Definition demo_alt (p : string) (n : Z) : IngestEvent :=
  let e := demo_event (content_derived p (demo_hlc n) "act_1") in
  mkIngestEvent (mkAgentEvent (ev_id e) "ws_1" "act_1" None None "tampered" Observation SLow None
      (Some "{'other':1}") None "ph2" "eh" (ev_created_at e) None None None None None None None)
    p "dev_2" (demo_hlc n).

Example ingest_payload_unchecked :
  let order_of b := (fun r => ev_event_type (er_event r)) <$>
     events (ledger (run_world (ingest_events b demo_world))) in
  valid (ledger demo_world) (demo_alt "a" 5) = true /\
  order_of [demo_ie "a" 5; demo_alt "a" 5] !! ev_id (ie_event (demo_ie "a" 5)) = Some "note" /\
  order_of [demo_alt "a" 5; demo_ie "a" 5] !! ev_id (ie_event (demo_ie "a" 5)) = Some "tampered".
Proof. repeat split; vm_compute; reflexivity. Qed.
