(* ===== verification/Command.v ===== *)
(** * The command engine ([actant-command/src/lib.rs], SQLite path)

    [Engine::dispatch] and the ten command handlers over the ledger tables, in
    the order of their database calls; a later error leaves the earlier writes
    in place, since the engine opens no transaction. *)

From S2P Require Import Prelude Str Json Hlc Core Policy Storage.
#[local] Open Scope string_scope.
#[local] Open Scope list_scope.
#[local] Open Scope Z_scope.

Record CommandOutcome := mkCommandOutcome {
  co_command_id : string; co_event_id : option string; co_result : Json
}.

Record EventBackrefs := mkEventBackrefs {
  br_command_id : option string; br_tool_call_id : option string; br_model_call_id : option string;
  br_workflow_run_id : option string; br_memory_id : option string; br_artifact_id : option string;
  br_effect_id : option string
}.
Definition with_command (cmd : string) : EventBackrefs :=
  mkEventBackrefs (Some cmd) None None None None None None.

Definition required_str (input : Json) (key : string) : result ActantError string :=
  ok_or (InvalidInput ("missing required " +:+ key)) (jget key input ≫= as_str).

Definition risk_for (tool : string) (policy : PolicyDoc) : RiskLevel :=
  match List.find (fun t => String.eqb (tp_tool t) tool) (pd_tools policy) with
  | Some t => tp_risk_level t
  | None => RLow
  end.

(** [json_enum] of a tool call status. *)
Definition tool_call_status_json (s : ToolCallStatus) : string :=
  match s with
  | TRequested => "requested" | TPendingApproval => "pending_approval" | TApproved => "approved"
  | TDenied => "denied" | TRunning => "running" | TCompleted => "completed" | TFailed => "failed"
  | TCancelled => "cancelled"
  end.

Definition opt_json (o : option string) : Json := match o with Some s => JString s | None => JNull end.

(** [serde_json::to_value(&verdict)]: internally tagged, snake case. *)
Definition verdict_json (v : Verdict) : Json :=
  match v with
  | Allow r => jobj [("decision", JString "allow"); ("reason", JString r)]
  | Constrain r c h => jobj [("decision", JString "constrain"); ("reason", JString r);
                             ("constrained_input", JString c); ("hint", JString h)]
  | RequireApproval r h c => jobj [("decision", JString "require_approval"); ("reason", JString r);
                                   ("hint", opt_json h); ("constrained_input", opt_json c)]
  | Block r => jobj [("decision", JString "block"); ("reason", JString r)]
  | Halt r => jobj [("decision", JString "halt"); ("reason", JString r)]
  end.

Fixpoint zeros (n : nat) : string := match n with O => "" | S k => String "0"%char (zeros k) end.
(** ["0".repeat(64)]. *)
Definition genesis : string := zeros 64.

Section engine.
Context `{SerdeJson} `{Sha256} `{Regex} `{Env}.

(** ** SQL helpers *)

Definition session_exists (ws session_id : string) : DB bool :=
  read (fun l => match sessions l !! session_id with
                 | Some s => String.eqb (ses_workspace_id s) ws
                 | None => false
                 end).

Definition insert_message (msg_id session_id ws actor role text body_hash : string) : DB unit :=
  now ← now_rfc3339;
  insert_row "message" messages set_messages message_fk msg_id
    (mkMessageRow msg_id session_id ws actor role None (Some text) body_hash now).

Definition find_tool (ws name : string) (l : Ledger) : option ToolRow :=
  List.find (fun t => String.eqb (tl_workspace_id t) ws && String.eqb (tl_name t) name)
    (map snd (map_to_list (tools l))).

Definition upsert_tool (ws name : string) : DB string :=
  row ← read (find_tool ws name);
  match row with
  | Some t => mret (tl_id t)
  | None =>
      id ← new_id "tool";
      now ← now_rfc3339;
      insert_row "tool" tools set_tools tool_fk id
        (mkToolRow id ws name (default "custom" (head (split_char "."%char name))) name "medium" now);;
      mret id
  end.

Definition insert_tool_call (tool_call_id ws session_id actor tool_id arguments_canon arguments_hash : string)
    (status : ToolCallStatus) (risk : RiskLevel) : DB unit :=
  now ← now_rfc3339;
  insert_row "tool_call" tool_calls set_tool_calls tool_call_fk tool_call_id
    (mkToolCall tool_call_id ws (Some session_id) actor tool_id 1 (Some arguments_canon)
       arguments_hash status risk None None None None None now None).

Definition insert_approval_request (id ws tool_call_id actor : string) (risk : RiskLevel)
    (permission summary : string) : DB unit :=
  now ← now_rfc3339;
  insert_row "approval_request" approvals set_approvals approval_fk id
    (mkApprovalRequest id ws None (Some tool_call_id) actor risk permission summary APending None
       now None None None).

Definition update_tool_call (f : ToolCall -> ToolCall) (id : string) : DB unit :=
  with_ledger (fun l => set_tool_calls (alter f id (tool_calls l)) l).

Definition set_tool_call_approval_request (tool_call_id approval_request_id : string) : DB unit :=
  update_tool_call (fun t =>
    mkToolCall (tc_id t) (tc_workspace_id t) (tc_session_id t) (tc_requested_by_actor_id t)
      (tc_tool_id t) (tc_schema_version t) (tc_arguments_inline t) (tc_arguments_hash t)
      (tc_status t) (tc_risk_level t) (Some approval_request_id) (tc_effect_id t) (tc_result_ref t)
      (tc_result_hash t) (tc_error t) (tc_created_at t) (tc_completed_at t)) tool_call_id.

Definition session_for_tool_call (tool_call_id : string) : DB (option string) :=
  read (fun l => t ← tool_calls l !! tool_call_id; tc_session_id t).

Definition set_tc_status (st : ToolCallStatus) (t : ToolCall) : ToolCall :=
  mkToolCall (tc_id t) (tc_workspace_id t) (tc_session_id t) (tc_requested_by_actor_id t)
    (tc_tool_id t) (tc_schema_version t) (tc_arguments_inline t) (tc_arguments_hash t)
    st (tc_risk_level t) (tc_approval_request_id t) (tc_effect_id t) (tc_result_ref t)
    (tc_result_hash t) (tc_error t) (tc_created_at t) (tc_completed_at t).

(** [WHERE tool_call_id=? AND status='pending']. *)
Definition pending_for (tool_call_id : string) (a : ApprovalRequest) : bool :=
  bool_decide (apr_tool_call_id a = Some tool_call_id) && bool_decide (apr_status a = APending).

(** [UPDATE approval_request SET ... approved_by_actor_id=actor WHERE ...]: the
    foreign key on the approver is checked when some row matches. *)
Definition decide_approvals (tool_call_id actor : string) (f : ApprovalRequest -> ApprovalRequest) :
    DB unit :=
  l ← read id;
  if List.existsb (pending_for tool_call_id) (map snd (map_to_list (approvals l)))
     && negb (has (actors l) actor)
  then throw fk_failed
  else with_ledger (set_approvals
         ((fun a => if pending_for tool_call_id a then f a else a) <$> approvals l)).

Definition approve_pending_tool_call (tool_call_id actor scope : string) : DB unit :=
  now ← now_rfc3339;
  decide_approvals tool_call_id actor (fun a =>
    mkApprovalRequest (apr_id a) (apr_workspace_id a) (apr_effect_id a) (apr_tool_call_id a)
      (apr_requested_by_actor_id a) (apr_risk_level a) (apr_required_permission a) (apr_summary a)
      AApproved (Some scope) (apr_created_at a) (Some now) (Some actor) (apr_denied_reason a));;
  update_tool_call (set_tc_status TApproved) tool_call_id.

Definition deny_pending_tool_call (tool_call_id actor reason : string) : DB unit :=
  now ← now_rfc3339;
  decide_approvals tool_call_id actor (fun a =>
    mkApprovalRequest (apr_id a) (apr_workspace_id a) (apr_effect_id a) (apr_tool_call_id a)
      (apr_requested_by_actor_id a) (apr_risk_level a) (apr_required_permission a) (apr_summary a)
      ADenied (apr_scope_granted a) (apr_created_at a) (Some now) (Some actor) (Some reason));;
  update_tool_call (set_tc_status TDenied) tool_call_id.

Definition complete_tool_call (tool_call_id result_canon result_hash : string) : DB unit :=
  now ← now_rfc3339;
  update_tool_call (fun t =>
    mkToolCall (tc_id t) (tc_workspace_id t) (tc_session_id t) (tc_requested_by_actor_id t)
      (tc_tool_id t) (tc_schema_version t) (tc_arguments_inline t) (tc_arguments_hash t)
      TCompleted (tc_risk_level t) (tc_approval_request_id t) (tc_effect_id t) (Some result_canon)
      (Some result_hash) (tc_error t) (tc_created_at t) (Some now)) tool_call_id.

Definition insert_memory_candidate (id ws actor source_event_ids text category : string)
    (confidence : f64) (sensitivity : string) : DB unit :=
  now ← now_rfc3339;
  insert_row "memory_candidate" candidates set_candidates candidate_fk id
    (mkCandidateRow id ws actor source_event_ids text category confidence sensitivity
       MPendingReview None now).

Definition memory_candidate (id : string) : DB (option CandidateRow) :=
  read (fun l => candidates l !! id).

Definition insert_memory (id ws text category sensitivity : string) (confidence : f64)
    (candidate_id source_event_ids : string) : DB unit :=
  now ← now_rfc3339;
  insert_row "memory" memories set_memories memory_fk id
    (mkMemoryRow id ws text category sensitivity (Some confidence) "global" (Some candidate_id)
       source_event_ids 0 now).

Definition update_candidate (st : MemoryCandidateStatus) (reason : option string) (id : string) : DB unit :=
  with_ledger (fun l => set_candidates (alter (fun c =>
    mkCandidateRow (cr_id c) (cr_workspace_id c) (cr_proposed_by_actor_id c) (cr_source_event_ids c)
      (cr_text c) (cr_category c) (cr_confidence c) (cr_sensitivity c) st
      (match reason with Some r => Some r | None => cr_review_reason c end) (cr_created_at c))
    id (candidates l)) l).
Definition approve_memory_candidate (id : string) : DB unit := update_candidate MApproved None id.
Definition reject_memory_candidate (id reason : string) : DB unit :=
  update_candidate MRejected (Some reason) id.

(** ** The Chronicle *)

Definition append_chronicle (workspace_id actor_id : string) (session_id : option string)
    (event_type : string) (causality_kind : CausalityKind) (sensitivity : Sensitivity)
    (payload : Json) (backrefs : EventBackrefs) : DB string :=
  let payload_canon := canonical_json payload in
  let payload_hash := sha256_hex payload_canon in
  prev ← last_event_hash workspace_id session_id;
  let event_hash := chain_hash (default genesis prev) payload_hash in
  id ← new_id "evt";
  now ← now_rfc3339;
  append_event (mkAgentEvent id workspace_id actor_id session_id None event_type causality_kind
    sensitivity None (Some payload_canon) None payload_hash event_hash now (br_model_call_id backrefs)
    (br_tool_call_id backrefs) (br_workflow_run_id backrefs) (br_memory_id backrefs)
    (br_artifact_id backrefs) (br_command_id backrefs) (br_effect_id backrefs));;
  mret id.

(** ** Handlers *)

(** [get_actor(..).is_none()] then [insert_actor]. *)
Definition ensure_actor (id ws : string) (kind : ActorKind) : DB unit :=
  a ← get_actor id;
  match a with
  | Some _ => mret tt
  | None => now ← now_rfc3339; insert_actor (mkActor id ws kind id now None)
  end.
Definition ensure_workspace (ws : string) : DB unit :=
  w ← get_workspace ws;
  match w with
  | Some _ => mret tt
  | None => now ← now_rfc3339; insert_workspace (mkWorkspace ws ws now None)
  end.

Definition create_session (ws actor cmd : string) (input : Json) : DB CommandOutcome :=
  let title := jget "title" input ≫= as_str in
  let agent := jget "agent_actor_id" input ≫= as_str in
  match agent with
  | Some agent_id => ensure_actor agent_id ws Agent
  | None => mret tt
  end;;
  session_id ← match jget "session_id" input ≫= as_str with
               | Some s => mret s
               | None => new_id "sess"
               end;
  ex ← session_exists ws session_id;
  if ex : bool then mret (mkCommandOutcome cmd None (jobj [("session_id", JString session_id)]))
  else
    now ← now_rfc3339;
    insert_session (mkSession session_id ws title actor agent SActive now None);;
    event_id ← append_chronicle ws actor (Some session_id) "session_created" Control SLow
                 (jobj [("session_id", JString session_id)]) (with_command cmd);
    mret (mkCommandOutcome cmd (Some event_id) (jobj [("session_id", JString session_id)])).

Definition append_message (ws actor cmd : string) (input : Json) (role event_type : string) :
    DB CommandOutcome :=
  session_id ← lift_result (required_str input "session_id");
  text ← lift_result (required_str input "text");
  let body_hash := sha256_hex text in
  msg_id ← new_id "msg";
  insert_message msg_id session_id ws actor role text body_hash;;
  event_id ← append_chronicle ws actor (Some session_id) event_type Observation SLow
               (jobj [("message_id", JString msg_id); ("text", JString text)]) (with_command cmd);
  mret (mkCommandOutcome cmd (Some event_id) (jobj [("message_id", JString msg_id)])).

(** The status a verdict gives the call; [Block] and [Halt] are errors. *)
Definition verdict_status (v : Verdict) : result ActantError ToolCallStatus :=
  match v with
  | Allow _ | Constrain _ _ _ => Ok TApproved
  | RequireApproval _ _ _ => Ok TPendingApproval
  | Block reason => Err (PermissionDenied reason)
  | Halt reason => Err (PolicyHalt reason)
  end.
Definition needs_approval (v : Verdict) : bool :=
  match v with RequireApproval _ _ _ => true | _ => false end.

(** The verdict on a request. *)
Definition guard (policy : PolicyDoc) (actor tool_name arguments_canon : string) : Verdict :=
  evaluate policy (mkGuardInput actor tool_name arguments_canon (risk_for tool_name policy) SLow).

Definition request_tool_call (policy : PolicyDoc) (ws actor cmd : string) (input : Json) :
    DB CommandOutcome :=
  session_id ← lift_result (required_str input "session_id");
  tool_name ← lift_result (required_str input "tool_name");
  let arguments := default (JObject []) (jget "arguments" input) in
  let arguments_canon := canonical_json arguments in
  let arguments_hash := sha256_hex arguments_canon in
  tool_id ← upsert_tool ws tool_name;
  let v := guard policy actor tool_name arguments_canon in
  tool_call_id ← new_id "tc";
  status ← lift_result (verdict_status v);
  insert_tool_call tool_call_id ws session_id actor tool_id arguments_canon arguments_hash status
    (risk_for tool_name policy);;
  (if needs_approval v then
     ar_id ← new_id "appr";
     insert_approval_request ar_id ws tool_call_id actor (risk_for tool_name policy) tool_name
       (tool_name +:+ ": " +:+ arguments_canon);;
     set_tool_call_approval_request tool_call_id ar_id
   else mret tt);;
  event_id ← append_chronicle ws actor (Some session_id) "tool_call_requested" Intent SLow
               (jobj [("tool_call_id", JString tool_call_id); ("tool", JString tool_name);
                      ("arguments", arguments); ("verdict", verdict_json v)])
               (mkEventBackrefs (Some cmd) (Some tool_call_id) None None None None None);
  mret (mkCommandOutcome cmd (Some event_id)
          (jobj [("tool_call_id", JString tool_call_id);
                 ("status", JString (tool_call_status_json status)); ("verdict", verdict_json v)])).

Definition approve_tool_call (ws actor cmd : string) (input : Json) : DB CommandOutcome :=
  tool_call_id ← lift_result (required_str input "tool_call_id");
  let scope := default "once" (jget "scope" input ≫= as_str) in
  session_id ← session_for_tool_call tool_call_id;
  approve_pending_tool_call tool_call_id actor scope;;
  event_id ← append_chronicle ws actor session_id "tool_call_approved" Control SLow
               (jobj [("tool_call_id", JString tool_call_id); ("scope", JString scope);
                      ("approver", JString actor)])
               (mkEventBackrefs (Some cmd) (Some tool_call_id) None None None None None);
  mret (mkCommandOutcome cmd (Some event_id)
          (jobj [("approved", JString tool_call_id); ("scope", JString scope)])).

Definition deny_tool_call (ws actor cmd : string) (input : Json) : DB CommandOutcome :=
  tool_call_id ← lift_result (required_str input "tool_call_id");
  let reason := default "denied" (jget "reason" input ≫= as_str) in
  session_id ← session_for_tool_call tool_call_id;
  deny_pending_tool_call tool_call_id actor reason;;
  event_id ← append_chronicle ws actor session_id "tool_call_denied" Control SLow
               (jobj [("tool_call_id", JString tool_call_id); ("reason", JString reason)])
               (mkEventBackrefs (Some cmd) (Some tool_call_id) None None None None None);
  mret (mkCommandOutcome cmd (Some event_id)
          (jobj [("denied", JString tool_call_id); ("reason", JString reason)])).

Definition record_tool_result (ws actor cmd : string) (input : Json) : DB CommandOutcome :=
  tool_call_id ← lift_result (required_str input "tool_call_id");
  let res := default (JObject []) (jget "result" input) in
  let result_canon := canonical_json res in
  let result_hash := sha256_hex result_canon in
  session_id ← session_for_tool_call tool_call_id;
  complete_tool_call tool_call_id result_canon result_hash;;
  event_id ← append_chronicle ws actor session_id "tool_call_finished" Effect_ SLow
               (jobj [("tool_call_id", JString tool_call_id); ("result", res)])
               (mkEventBackrefs (Some cmd) (Some tool_call_id) None None None None None);
  mret (mkCommandOutcome cmd (Some event_id)
          (jobj [("tool_call_id", JString tool_call_id); ("result_hash", JString result_hash)])).

Definition propose_memory (ws actor cmd : string) (input : Json) : DB CommandOutcome :=
  text ← lift_result (required_str input "text");
  let category := default "fact" (jget "category" input ≫= as_str) in
  let confidence := default (f64_ratio 1 2) (jget "confidence" input ≫= as_f64) in
  let sensitivity_s := default "low" (jget "sensitivity" input ≫= as_str) in
  let source_event_ids := default (JArray []) (jget "source_event_ids" input) in
  mc_id ← new_id "memc";
  insert_memory_candidate mc_id ws actor (to_string source_event_ids) text category confidence
    sensitivity_s;;
  event_id ← append_chronicle ws actor None "memory_proposed" Observation SLow
               (jobj [("memory_candidate_id", JString mc_id); ("text", JString text);
                      ("confidence", json_of_f64 confidence)]) (with_command cmd);
  mret (mkCommandOutcome cmd (Some event_id) (jobj [("memory_candidate_id", JString mc_id)])).

Definition approve_memory (ws actor cmd : string) (input : Json) : DB CommandOutcome :=
  mc_id ← lift_result (required_str input "memory_candidate_id");
  row ← memory_candidate mc_id;
  c ← lift_result (ok_or (NotFound ("memory_candidate " +:+ mc_id)) row);
  mem_id ← new_id "mem";
  insert_memory mem_id ws (cr_text c) (cr_category c) (cr_sensitivity c) (cr_confidence c) mc_id
    (cr_source_event_ids c);;
  approve_memory_candidate mc_id;;
  event_id ← append_chronicle ws actor None "memory_approved" Control SLow
               (jobj [("memory_id", JString mem_id); ("memory_candidate_id", JString mc_id)])
               (mkEventBackrefs (Some cmd) None None None (Some mem_id) None None);
  mret (mkCommandOutcome cmd (Some event_id) (jobj [("memory_id", JString mem_id)])).

Definition reject_memory (ws actor cmd : string) (input : Json) : DB CommandOutcome :=
  mc_id ← lift_result (required_str input "memory_candidate_id");
  let reason := default "rejected" (jget "reason" input ≫= as_str) in
  reject_memory_candidate mc_id reason;;
  event_id ← append_chronicle ws actor None "memory_rejected" Control SLow
               (jobj [("memory_candidate_id", JString mc_id); ("reason", JString reason)])
               (with_command cmd);
  mret (mkCommandOutcome cmd (Some event_id) (jobj [("memory_candidate_id", JString mc_id)])).

(** ** Dispatch *)

Definition handle (policy : PolicyDoc) (ws actor cmd command_type : string) (input : Json) :
    DB CommandOutcome :=
  if String.eqb command_type "create_session" then create_session ws actor cmd input
  else if String.eqb command_type "append_user_message" then
    append_message ws actor cmd input "user" "user_message_received"
  else if String.eqb command_type "append_agent_message" then
    append_message ws actor cmd input "agent" "agent_message"
  else if String.eqb command_type "request_tool_call" then request_tool_call policy ws actor cmd input
  else if String.eqb command_type "approve_tool_call" then approve_tool_call ws actor cmd input
  else if String.eqb command_type "deny_tool_call" then deny_tool_call ws actor cmd input
  else if String.eqb command_type "record_tool_result" then record_tool_result ws actor cmd input
  else if String.eqb command_type "propose_memory" then propose_memory ws actor cmd input
  else if String.eqb command_type "approve_memory" then approve_memory ws actor cmd input
  else if String.eqb command_type "reject_memory" then reject_memory ws actor cmd input
  else throw (InvalidInput ("unknown command_type: " +:+ command_type)).

(** The command proper: record it, then run its handler; also returns [cmd.id]. *)
Definition run_command (policy : PolicyDoc) (ws actor command_type : string) (input : Json) :
    DB (string * CommandOutcome) :=
  let canonical := canonical_json input in
  let input_hash := sha256_hex canonical in
  cmd ← new_id "cmd";
  now ← now_rfc3339;
  insert_command (mkCommandRecord cmd ws actor None command_type (Some canonical) input_hash None
                    CReceived None now None);;
  o ← handle policy ws actor cmd command_type input;
  mret (cmd, o).

(** [let _ = self.backend.idempotency_record(..).await]: an error is dropped. *)
Definition record_key (ws actor command_type : string) (input : Json) (key : option string)
    (cmd : string) : DB unit :=
  match key with
  | None => mret tt
  | Some k => fun w =>
      (Ok tt, (idempotency_record ws actor k command_type (sha256_hex (canonical_json input))
                 (Some cmd) w).2)
  end.

Definition dispatch (policy : PolicyDoc) (ws actor command_type : string) (input : Json)
    (key : option string) : DB CommandOutcome :=
  ensure_workspace ws;;
  ensure_actor actor ws Human;;
  prior ← match key with Some k => idempotency_lookup ws k | None => mret None end;
  match prior with
  | Some p => mret (mkCommandOutcome p None (jobj [("idempotent_replay", JBool true)]))
  | None =>
      '(cmd, o) ← run_command policy ws actor command_type input;
      record_key ws actor command_type input key cmd;;
      mret o
  end.
End engine.
