(* ===== verification/LedgerInv.v ===== *)
(** * Invariants of the ledger under the command engine

    What every database call of the engine keeps, on success and on error: the
    append-only order between ledgers and referential integrity. *)

From S2P Require Import Prelude Str Json Hlc Core Policy Storage Command.
#[local] Open Scope string_scope.
#[local] Open Scope list_scope.
#[local] Open Scope Z_scope.

(** ** Append-only: what a later ledger keeps of an earlier one *)

(** The columns of a tool call no command touches after its insertion. *)
Definition tc_same (a b : ToolCall) : Prop :=
  tc_id b = tc_id a /\ tc_workspace_id b = tc_workspace_id a /\ tc_session_id b = tc_session_id a /\
  tc_requested_by_actor_id b = tc_requested_by_actor_id a /\ tc_tool_id b = tc_tool_id a /\
  tc_arguments_inline b = tc_arguments_inline a /\ tc_arguments_hash b = tc_arguments_hash a /\
  tc_risk_level b = tc_risk_level a.

(** A decided approval never changes; a pending one keeps its subject. *)
Definition apr_same (a b : ApprovalRequest) : Prop :=
  (apr_status a <> APending -> b = a) /\
  apr_workspace_id b = apr_workspace_id a /\ apr_tool_call_id b = apr_tool_call_id a /\
  apr_requested_by_actor_id b = apr_requested_by_actor_id a.

Definition cand_same (a b : CandidateRow) : Prop :=
  cr_workspace_id b = cr_workspace_id a /\ cr_proposed_by_actor_id b = cr_proposed_by_actor_id a /\
  cr_text b = cr_text a.

(** Every row stays, related to its new version. *)
Definition kept {A} (R : A -> A -> Prop) (m m' : gmap string A) : Prop :=
  forall k a, m !! k = Some a -> exists b, m' !! k = Some b /\ R a b.

Record ledger_ext (l l' : Ledger) : Prop := {
  ext_workspaces : workspaces l ⊆ workspaces l';
  ext_actors : actors l ⊆ actors l';
  ext_sessions : sessions l ⊆ sessions l';
  ext_messages : messages l ⊆ messages l';
  ext_events : events l ⊆ events l';
  ext_commands : commands l ⊆ commands l';
  ext_tools : tools l ⊆ tools l';
  ext_tool_calls : kept tc_same (tool_calls l) (tool_calls l');
  ext_approvals : kept apr_same (approvals l) (approvals l');
  ext_candidates : kept cand_same (candidates l) (candidates l');
  ext_memories : memories l ⊆ memories l';
  ext_idems : idems l ⊆ idems l';
  ext_scopes : authority_scopes l' = authority_scopes l;
  ext_policies : policies l' = policies l;
}.

#[global] Instance tc_same_preorder : PreOrder tc_same.
Proof. split; [by repeat split|]. unfold tc_same. intros a b c. intuition congruence. Qed.
#[global] Instance apr_same_preorder : PreOrder apr_same.
Proof.
  split; [by repeat split|]. intros a b c (H1 & H2 & H3 & H4) (G1 & G2 & G3 & G4).
  split; [|intuition congruence]. intros Hp. specialize (H1 Hp). subst b. auto.
Qed.
#[global] Instance cand_same_preorder : PreOrder cand_same.
Proof. split; [by repeat split|]. unfold cand_same. intros a b c. intuition congruence. Qed.

Lemma kept_refl {A} (R : A -> A -> Prop) `{!PreOrder R} m : kept R m m.
Proof. intros k a Hk. exists a. split; [done|reflexivity]. Qed.
Lemma kept_trans {A} (R : A -> A -> Prop) `{!PreOrder R} m1 m2 m3 :
  kept R m1 m2 -> kept R m2 m3 -> kept R m1 m3.
Proof.
  intros H1 H2 k a Hk. destruct (H1 k a Hk) as (b & Hb & Rab).
  destruct (H2 k b Hb) as (c & Hc & Rbc). exists c. split; [done|by etrans].
Qed.
Lemma kept_insert {A} (R : A -> A -> Prop) `{!PreOrder R} m k (a : A) :
  m !! k = None -> kept R m (<[k := a]> m).
Proof.
  intros Hk k' b Hb. exists b. split; [|reflexivity].
  rewrite lookup_insert_ne; [done|]. intros ->. congruence.
Qed.
Lemma kept_alter {A} (R : A -> A -> Prop) `{!PreOrder R} (f : A -> A) m k :
  (forall a, R a (f a)) -> kept R m (alter f k m).
Proof.
  intros Hf k' b Hb. destruct (decide (k = k')) as [<-|Hne].
  - exists (f b). by rewrite lookup_alter_eq, Hb.
  - exists b. rewrite lookup_alter_ne by done. split; [done|reflexivity].
Qed.
Lemma kept_fmap {A} (R : A -> A -> Prop) (f : A -> A) (m : gmap string A) :
  (forall a, R a (f a)) -> kept R m (f <$> m).
Proof. intros Hf k b Hb. exists (f b). by rewrite lookup_fmap, Hb. Qed.

Create HintDb ledger.
#[export] Hint Resolve kept_refl kept_insert kept_alter kept_fmap insert_subseteq : ledger.

#[global] Instance ledger_ext_preorder : PreOrder ledger_ext.
Proof.
  split.
  - intros l. split; eauto with ledger typeclass_instances; reflexivity.
  - intros l1 l2 l3 [] []. split; try (by etrans); try congruence; eapply kept_trans; eauto with typeclass_instances.
Qed.

(** A computation that only extends the ledger, whatever its outcome. *)
Definition grows {A} (m : DB A) : Prop := forall w, ledger_ext (ledger w) (ledger (m w).2).

Lemma grows_bind {A B} (m : DB A) (f : A -> DB B) :
  grows m -> (forall a, grows (f a)) -> grows (m ≫= f).
Proof.
  intros Hm Hf w. unfold mbind, M_bind. specialize (Hm w).
  destruct (m w) as [[a|e] w1]; simpl in *; [|done]. etrans; [exact Hm|apply Hf].
Qed.
Lemma grows_ret {A} (a : A) : grows (mret a).
Proof. intros w. reflexivity. Qed.
Lemma grows_throw {A} e : grows (throw e : DB A).
Proof. intros w. reflexivity. Qed.
Lemma grows_lift {A} (r : result ActantError A) : grows (lift_result r).
Proof. intros w. reflexivity. Qed.
Lemma grows_read {A} (f : Ledger -> A) : grows (read f).
Proof. intros w. reflexivity. Qed.

(** Inserting a row extends the ledger when [set] replaces the table [get]. *)
Lemma grows_insert_row {A} t get set fk id (row : A) :
  (forall l, get l !! id = None -> ledger_ext l (set (<[id := row]> (get l)) l)) ->
  grows (insert_row t get set fk id row).
Proof.
  intros Hext w. unfold insert_row. destruct (has (get (ledger w)) id) eqn:Hh; [reflexivity|].
  apply has_false in Hh. destruct (fk row (ledger w)); [|reflexivity]. simpl. by apply Hext.
Qed.

Lemma grows_with_ledger f : (forall l, ledger_ext l (f l)) -> grows (with_ledger f).
Proof. intros Hf w. apply Hf. Qed.

(** One table replaced: all the others are the same. *)
Ltac ext_tac :=
  intros; split; simpl; try reflexivity; eauto with ledger typeclass_instances.

Section grows.
Context `{SerdeJson} `{Sha256} `{Regex} `{Env}.

Lemma grows_now : grows now_rfc3339.
Proof. intros w. reflexivity. Qed.
Lemma grows_new_id p : grows (new_id p).
Proof. intros w. reflexivity. Qed.

Lemma grows_insert_workspace x : grows (insert_workspace x).
Proof. apply grows_insert_row. ext_tac. Qed.
Lemma grows_insert_actor x : grows (insert_actor x).
Proof. apply grows_insert_row. ext_tac. Qed.
Lemma grows_insert_session x : grows (insert_session x).
Proof. apply grows_insert_row. ext_tac. Qed.
Lemma grows_append_event x : grows (append_event x).
Proof. apply grows_insert_row. ext_tac. Qed.
Lemma grows_insert_command x : grows (insert_command x).
Proof. apply grows_insert_row. ext_tac. Qed.
Lemma grows_insert_tool id r : grows (insert_row "tool" tools set_tools tool_fk id r).
Proof. apply grows_insert_row. ext_tac. Qed.
Lemma grows_update_tool_call f id : (forall t, tc_same t (f t)) -> grows (update_tool_call f id).
Proof. intros Hf. apply grows_with_ledger. ext_tac. Qed.
Lemma grows_update_candidate st r id : grows (update_candidate st r id).
Proof. apply grows_with_ledger. ext_tac. apply kept_alter; [apply _|]. by repeat split. Qed.
End grows.

#[export] Hint Resolve grows_ret grows_throw grows_lift grows_read grows_now grows_new_id
  grows_insert_workspace grows_insert_actor grows_insert_session grows_append_event
  grows_insert_command grows_insert_tool grows_update_candidate : ledger.

Ltac grows_step :=
  first
  [ solve [eauto with ledger]
  | match goal with
    | |- grows (_ ≫= _) => apply grows_bind; [|intros ?]
    | |- grows (match ?x with _ => _ end) => destruct x
    | |- grows (if ?b then _ else _) => destruct b
    end ].
Ltac grows_tac := repeat grows_step.

Section handlers.
Context `{SerdeJson} `{Sha256} `{Regex} `{Env}.

Lemma grows_insert_message a b c d e f g : grows (insert_message a b c d e f g).
Proof. unfold insert_message. grows_tac. apply grows_insert_row. ext_tac. Qed.
Lemma grows_insert_tool_call a b c d e f g st r : grows (insert_tool_call a b c d e f g st r).
Proof. unfold insert_tool_call. grows_tac. apply grows_insert_row. ext_tac. Qed.
Lemma grows_insert_approval a b c d r e f : grows (insert_approval_request a b c d r e f).
Proof. unfold insert_approval_request. grows_tac. apply grows_insert_row. ext_tac. Qed.
Lemma grows_insert_candidate a b c d e f x g : grows (insert_memory_candidate a b c d e f x g).
Proof. unfold insert_memory_candidate. grows_tac. apply grows_insert_row. ext_tac. Qed.
Lemma grows_insert_memory a b c d e x f g : grows (insert_memory a b c d e x f g).
Proof. unfold insert_memory. grows_tac. apply grows_insert_row. ext_tac. Qed.

Lemma grows_decide_approvals id actor f :
  (forall a, pending_for id a = true -> apr_same a (f a)) -> grows (decide_approvals id actor f).
Proof.
  intros Hf w. unfold decide_approvals, mbind, M_bind, read. simpl.
  case_match; [reflexivity|]. ext_tac. apply kept_fmap.
  intros a. destruct (pending_for id a) eqn:Hp; [auto|reflexivity].
Qed.

Lemma pending_for_status id a : pending_for id a = true -> apr_status a = APending.
Proof. unfold pending_for. intros Hp. by breflect. Qed.

Lemma grows_approve a b c : grows (approve_pending_tool_call a b c).
Proof.
  unfold approve_pending_tool_call. grows_tac.
  - apply grows_decide_approvals. intros x Hx. apply pending_for_status in Hx.
    split; [done|by repeat split].
  - apply grows_update_tool_call. by repeat split.
Qed.
Lemma grows_deny a b c : grows (deny_pending_tool_call a b c).
Proof.
  unfold deny_pending_tool_call. grows_tac.
  - apply grows_decide_approvals. intros x Hx. apply pending_for_status in Hx.
    split; [done|by repeat split].
  - apply grows_update_tool_call. by repeat split.
Qed.
Lemma grows_complete a b c : grows (complete_tool_call a b c).
Proof. unfold complete_tool_call. grows_tac. apply grows_update_tool_call. by repeat split. Qed.
Lemma grows_link a b : grows (set_tool_call_approval_request a b).
Proof. apply grows_update_tool_call. by repeat split. Qed.

Lemma grows_idempotency_record a b c d e r : grows (idempotency_record a b c d e r).
Proof.
  intros w. unfold idempotency_record, mbind, M_bind, now_rfc3339, read. simpl.
  destruct (idems (ledger w) !! (a, c)) eqn:Hk; [reflexivity|].
  destruct (idem_fk _ _); [|reflexivity]. split; simpl; try reflexivity; eauto with ledger typeclass_instances.
Qed.
End handlers.

#[export] Hint Resolve grows_insert_message grows_insert_tool_call grows_insert_approval
  grows_insert_candidate grows_insert_memory grows_approve grows_deny grows_complete grows_link
  grows_idempotency_record : ledger.

Section dispatch.
Context `{SerdeJson} `{Sha256} `{Regex} `{Env}.

Lemma grows_append_chronicle ws a s t c sv p b : grows (append_chronicle ws a s t c sv p b).
Proof. unfold append_chronicle, last_event_hash. grows_tac. Qed.
Lemma grows_ensure_actor i ws k : grows (ensure_actor i ws k).
Proof. unfold ensure_actor, get_actor. grows_tac. Qed.
Lemma grows_ensure_workspace ws : grows (ensure_workspace ws).
Proof. unfold ensure_workspace, get_workspace. grows_tac. Qed.
Lemma grows_upsert_tool ws n : grows (upsert_tool ws n).
Proof. unfold upsert_tool. grows_tac. Qed.
#[local] Hint Resolve grows_append_chronicle grows_ensure_actor grows_ensure_workspace
  grows_upsert_tool : ledger.

Lemma grows_handle policy ws actor cmd ct input : grows (handle policy ws actor cmd ct input).
Proof.
  unfold handle. repeat (case_match; [|]).
  - unfold create_session, session_exists. grows_tac.
  - unfold append_message. grows_tac.
  - unfold append_message. grows_tac.
  - unfold request_tool_call. grows_tac.
  - unfold approve_tool_call, session_for_tool_call. grows_tac.
  - unfold deny_tool_call, session_for_tool_call. grows_tac.
  - unfold record_tool_result, session_for_tool_call. grows_tac.
  - unfold propose_memory. grows_tac.
  - unfold approve_memory, memory_candidate, approve_memory_candidate. grows_tac.
  - unfold reject_memory, reject_memory_candidate. grows_tac.
  - apply grows_throw.
Qed.

Lemma grows_dispatch policy ws actor ct input key : grows (dispatch policy ws actor ct input key).
Proof.
  unfold dispatch, run_command, idempotency_lookup. grows_tac; [apply grows_handle|].
  unfold record_key. destruct key as [k|]; [|apply grows_ret].
  intros w. apply grows_idempotency_record.
Qed.

(** C2: Every command, whether it succeeds or fails at any point, only
    extends the ledger: workspaces, actors, sessions, messages, events, command
    records, tools, memories and idempotency records are never changed or
    removed, a tool call keeps its request, and an approval that has been decided
    is never decided again. *)
Theorem dispatch_append_only (policy : PolicyDoc) (ws actor command_type : string) (input : Json)
  (key : option string) (w : World) :
  ledger_ext (ledger w) (ledger (dispatch policy ws actor command_type input key w).2).
Proof. apply grows_dispatch. Qed.
End dispatch.

(** ** Referential integrity *)

Create HintDb fk.

Definition rows_ok {A} (fk : A -> Ledger -> bool) (l : Ledger) (m : gmap string A) : Prop :=
  forall k r, m !! k = Some r -> fk r l = true.

(** Every foreign key of every table points to a row. *)
Record ledger_ok (l : Ledger) : Prop := {
  ok_actors : rows_ok actor_fk l (actors l);
  ok_sessions : rows_ok session_fk l (sessions l);
  ok_messages : rows_ok message_fk l (messages l);
  ok_events : rows_ok event_fk l (events l);
  ok_commands : rows_ok command_fk l (commands l);
  ok_tools : rows_ok tool_fk l (tools l);
  ok_tool_calls : rows_ok tool_call_fk l (tool_calls l);
  ok_approvals : rows_ok approval_fk l (approvals l);
  ok_candidates : rows_ok candidate_fk l (candidates l);
  ok_memories : rows_ok memory_fk l (memories l);
  ok_idems : forall k r, idems l !! k = Some r -> idem_fk r l = true;
}.

Lemma has_sub {A} (m m' : gmap string A) k : m ⊆ m' -> has m k = true -> has m' k = true.
Proof. rewrite !has_true. intros Hs [x Hx]. exists x. by eapply lookup_weaken. Qed.
Lemma has_opt_sub {A} (m m' : gmap string A) k : m ⊆ m' -> has_opt m k = true -> has_opt m' k = true.
Proof. destruct k; simpl; [apply has_sub|done]. Qed.
Lemma has_kept {A} (R : A -> A -> Prop) m m' k : kept R m m' -> has m k = true -> has m' k = true.
Proof. rewrite !has_true. intros Hs [x Hx]. destruct (Hs k x Hx) as (y & Hy & _). by exists y. Qed.
Lemma has_opt_kept {A} (R : A -> A -> Prop) m m' k : kept R m m' -> has_opt m k = true -> has_opt m' k = true.
Proof. destruct k; simpl; [apply has_kept|done]. Qed.

(** A foreign key that holds keeps holding. *)
Ltac fk_mono_tac :=
  intros Hext; destruct Hext; unfold actor_fk, session_fk, message_fk, event_fk, command_fk, tool_fk,
    tool_call_fk, approval_fk, candidate_fk, memory_fk, idem_fk in *;
  rewrite ?andb_true_iff, ?orb_true_iff; intuition eauto using has_sub, has_opt_sub, has_kept, has_opt_kept;
  congruence.

Lemma actor_fk_mono r l l' : ledger_ext l l' -> actor_fk r l = true -> actor_fk r l' = true.
Proof. fk_mono_tac. Qed.
Lemma session_fk_mono r l l' : ledger_ext l l' -> session_fk r l = true -> session_fk r l' = true.
Proof. fk_mono_tac. Qed.
Lemma message_fk_mono r l l' : ledger_ext l l' -> message_fk r l = true -> message_fk r l' = true.
Proof. fk_mono_tac. Qed.
Lemma event_fk_mono r l l' : ledger_ext l l' -> event_fk r l = true -> event_fk r l' = true.
Proof. fk_mono_tac. Qed.
Lemma command_fk_mono r l l' : ledger_ext l l' -> command_fk r l = true -> command_fk r l' = true.
Proof. fk_mono_tac. Qed.
Lemma tool_fk_mono r l l' : ledger_ext l l' -> tool_fk r l = true -> tool_fk r l' = true.
Proof. fk_mono_tac. Qed.
Lemma tool_call_fk_mono r l l' : ledger_ext l l' -> tool_call_fk r l = true -> tool_call_fk r l' = true.
Proof. fk_mono_tac. Qed.
Lemma approval_fk_mono r l l' : ledger_ext l l' -> approval_fk r l = true -> approval_fk r l' = true.
Proof. fk_mono_tac. Qed.
Lemma candidate_fk_mono r l l' : ledger_ext l l' -> candidate_fk r l = true -> candidate_fk r l' = true.
Proof. fk_mono_tac. Qed.
Lemma memory_fk_mono r l l' : ledger_ext l l' -> memory_fk r l = true -> memory_fk r l' = true.
Proof. fk_mono_tac. Qed.
Lemma idem_fk_mono r l l' : ledger_ext l l' -> idem_fk r l = true -> idem_fk r l' = true.
Proof. fk_mono_tac. Qed.
#[export] Hint Resolve actor_fk_mono session_fk_mono message_fk_mono event_fk_mono command_fk_mono
  tool_fk_mono tool_call_fk_mono approval_fk_mono candidate_fk_mono memory_fk_mono idem_fk_mono : fk.

(** A table whose rows are old ones, or satisfy the constraint anyway. *)
Definition from {A} (fk : A -> Ledger -> bool) (l l' : Ledger) (m m' : gmap string A) : Prop :=
  forall k r, m' !! k = Some r -> m !! k = Some r \/ fk r l = true.

Lemma from_refl {A} fk l l' (m : gmap string A) : from fk l l' m m.
Proof. intros k r Hk. by left. Qed.
Lemma from_insert {A} fk l l' (m : gmap string A) k r :
  fk r l = true -> from fk l l' m (<[k := r]> m).
Proof.
  intros Hf k' r' Hk. destruct (decide (k = k')) as [<-|Hne].
  - rewrite lookup_insert_eq in Hk. injection Hk as <-. by right.
  - rewrite lookup_insert_ne in Hk by done. by left.
Qed.
#[export] Hint Resolve from_refl from_insert : fk.

Record ledger_from (l l' : Ledger) : Prop := {
  fr_actors : from actor_fk l l' (actors l) (actors l');
  fr_sessions : from session_fk l l' (sessions l) (sessions l');
  fr_messages : from message_fk l l' (messages l) (messages l');
  fr_events : from event_fk l l' (events l) (events l');
  fr_commands : from command_fk l l' (commands l) (commands l');
  fr_tools : from tool_fk l l' (tools l) (tools l');
  fr_tool_calls : from tool_call_fk l l' (tool_calls l) (tool_calls l');
  fr_approvals : from approval_fk l l' (approvals l) (approvals l');
  fr_candidates : from candidate_fk l l' (candidates l) (candidates l');
  fr_memories : from memory_fk l l' (memories l) (memories l');
  fr_idems : forall k r, idems l' !! k = Some r -> idems l !! k = Some r \/ idem_fk r l = true;
}.

Lemma ledger_ok_from l l' : ledger_ext l l' -> ledger_from l l' -> ledger_ok l -> ledger_ok l'.
Proof.
  intros Hext [] []. split; intros k r Hk;
    match goal with
    | Hf : from _ _ _ _ (?t l'), Hk : ?t l' !! _ = _ |- _ =>
        destruct (Hf _ _ Hk) as [Hold|Hnew]; eauto with fk
    | _ => edestruct fr_idems0 as [Hold|Hnew]; eauto with fk
    end.
Qed.

(** The two facts together, for every step of a computation. *)
Definition safe {A} (m : DB A) : Prop :=
  forall w, ledger_ok (ledger w) -> ledger_ok (ledger (m w).2).

Lemma safe_bind {A B} (m : DB A) (f : A -> DB B) :
  safe m -> (forall a, safe (f a)) -> safe (m ≫= f).
Proof. apply (preserves_bind (fun w => ledger_ok (ledger w))). Qed.
Lemma safe_pure {A} (m : DB A) : (forall w, ledger (m w).2 = ledger w) -> safe m.
Proof. intros Hm w. by rewrite Hm. Qed.

Lemma safe_insert_row {A} t get set fk id (row : A) :
  (forall l, get l !! id = None -> ledger_ext l (set (<[id := row]> (get l)) l)) ->
  (forall l, fk row l = true -> ledger_from l (set (<[id := row]> (get l)) l)) ->
  safe (insert_row t get set fk id row).
Proof.
  intros Hext Hfrom w Hok. unfold insert_row.
  destruct (has (get (ledger w)) id) eqn:Hh; [done|]. apply has_false in Hh.
  destruct (fk row (ledger w)) eqn:Hf; [|done]. simpl.
  eapply ledger_ok_from; eauto.
Qed.

Ltac from_tac := intros; split; simpl; eauto with fk.

Section safe.
Context `{SerdeJson} `{Sha256} `{Regex} `{Env}.

Lemma safe_ret {A} (a : A) : safe (mret a).
Proof. by apply safe_pure. Qed.
Lemma safe_throw {A} e : safe (throw e : DB A).
Proof. by apply safe_pure. Qed.
Lemma safe_lift {A} (r : result ActantError A) : safe (lift_result r).
Proof. by apply safe_pure. Qed.
Lemma safe_read {A} (f : Ledger -> A) : safe (read f).
Proof. by apply safe_pure. Qed.
Lemma safe_now : safe now_rfc3339.
Proof. by apply safe_pure. Qed.
Lemma safe_new_id p : safe (new_id p).
Proof. by apply safe_pure. Qed.
Lemma safe_insert_workspace x : safe (insert_workspace x).
Proof. apply safe_insert_row; [ext_tac|from_tac]. Qed.
Lemma safe_insert_actor x : safe (insert_actor x).
Proof. apply safe_insert_row; [ext_tac|from_tac]. Qed.
Lemma safe_insert_session x : safe (insert_session x).
Proof. apply safe_insert_row; [ext_tac|from_tac]. Qed.
Lemma safe_append_event x : safe (append_event x).
Proof. apply safe_insert_row; [ext_tac|from_tac]. Qed.
Lemma safe_insert_command x : safe (insert_command x).
Proof. apply safe_insert_row; [ext_tac|from_tac]. Qed.
Lemma safe_insert_tool id r : safe (insert_row "tool" tools set_tools tool_fk id r).
Proof. apply safe_insert_row; [ext_tac|from_tac]. Qed.
End safe.
#[export] Hint Resolve safe_ret safe_throw safe_lift safe_read safe_now safe_new_id
  safe_insert_workspace safe_insert_actor safe_insert_session safe_append_event
  safe_insert_command safe_insert_tool : fk.

Ltac safe_step :=
  first
  [ solve [eauto with fk]
  | match goal with
    | |- safe (_ ≫= _) => apply safe_bind; [|intros ?]
    | |- safe (match ?x with _ => _ end) => destruct x
    | |- safe (if ?b then _ else _) => destruct b
    end ].
Ltac safe_tac := repeat safe_step.

Section safe_handlers.
Context `{SerdeJson} `{Sha256} `{Regex} `{Env}.

Lemma safe_insert_message a b c d e f g : safe (insert_message a b c d e f g).
Proof. unfold insert_message. safe_tac. apply safe_insert_row; [ext_tac|from_tac]. Qed.
Lemma safe_insert_tool_call a b c d e f g st r : safe (insert_tool_call a b c d e f g st r).
Proof. unfold insert_tool_call. safe_tac. apply safe_insert_row; [ext_tac|from_tac]. Qed.
Lemma safe_insert_approval a b c d r e f : safe (insert_approval_request a b c d r e f).
Proof. unfold insert_approval_request. safe_tac. apply safe_insert_row; [ext_tac|from_tac]. Qed.
Lemma safe_insert_candidate a b c d e f x g : safe (insert_memory_candidate a b c d e f x g).
Proof. unfold insert_memory_candidate. safe_tac. apply safe_insert_row; [ext_tac|from_tac]. Qed.
Lemma safe_insert_memory a b c d e x f g : safe (insert_memory a b c d e x f g).
Proof. unfold insert_memory. safe_tac. apply safe_insert_row; [ext_tac|from_tac]. Qed.

Lemma tool_call_fk_same a b l : tc_same a b -> tool_call_fk b l = tool_call_fk a l.
Proof. intros (_ & Hw & Hs & Ha & Ht & _). unfold tool_call_fk. by rewrite Hw, Hs, Ha, Ht. Qed.

Lemma safe_update_tool_call f id : (forall t, tc_same t (f t)) -> safe (update_tool_call f id).
Proof.
  intros Hf w Hok. eapply ledger_ok_from; [apply grows_update_tool_call, Hf| |exact Hok].
  split; simpl; eauto with fk. intros k r Hk. destruct (decide (id = k)) as [<-|Hne].
  - rewrite lookup_alter_eq in Hk. destruct (tool_calls (ledger w) !! id) as [t|] eqn:Ht; [|done].
    injection Hk as <-. right. rewrite (tool_call_fk_same t) by apply Hf.
    by apply (ok_tool_calls _ Hok id).
  - rewrite lookup_alter_ne in Hk by done. by left.
Qed.

Lemma safe_update_candidate st r id : safe (update_candidate st r id).
Proof.
  intros w Hok. eapply ledger_ok_from; [apply grows_update_candidate| |exact Hok].
  split; simpl; eauto with fk. intros k c Hk. destruct (decide (id = k)) as [<-|Hne].
  - rewrite lookup_alter_eq in Hk. destruct (candidates (ledger w) !! id) as [t|] eqn:Ht; [|done].
    injection Hk as <-. right. by apply (ok_candidates _ Hok id t).
  - rewrite lookup_alter_ne in Hk by done. by left.
Qed.

Lemma safe_decide_approvals id actor f :
  (forall a, pending_for id a = true -> apr_same a (f a) /\ apr_approved_by_actor_id (f a) = Some actor) ->
  safe (decide_approvals id actor f).
Proof.
  intros Hf w Hok.
  eapply ledger_ok_from; [apply grows_decide_approvals; intros a Ha; by apply Hf| |exact Hok].
  unfold decide_approvals, mbind, M_bind, read. simpl.
  destruct (List.existsb _ _ && _) eqn:Hc; [split; simpl; eauto with fk|].
  split; simpl; eauto with fk. intros k r Hk. rewrite lookup_fmap in Hk.
  destruct (approvals (ledger w) !! k) as [a|] eqn:Ha; [|done]. injection Hk as <-.
  destruct (pending_for id a) eqn:Hp; [|by left]. right.
  destruct (Hf a Hp) as [(_ & Hw & Ht & Hr) Hby].
  assert (Hex : List.existsb (pending_for id) (map snd (map_to_list (approvals (ledger w)))) = true).
  { apply existsb_exists. exists a. split; [|done]. apply in_map_iff. exists (k, a).
    split; [done|]. by apply list_elem_of_In, elem_of_map_to_list. }
  rewrite Hex in Hc. apply negb_false_iff in Hc.
  pose proof (ok_approvals _ Hok k a Ha) as Hfk. unfold approval_fk in *.
  rewrite Hw, Ht, Hr, Hby. breflect. simpl. by rewrite !andb_true_iff.
Qed.

Lemma safe_approve a b c : safe (approve_pending_tool_call a b c).
Proof.
  unfold approve_pending_tool_call. safe_tac.
  - apply safe_decide_approvals. intros x Hx. apply pending_for_status in Hx.
    split; [split; [done|by repeat split]|done].
  - apply safe_update_tool_call. by repeat split.
Qed.
Lemma safe_deny a b c : safe (deny_pending_tool_call a b c).
Proof.
  unfold deny_pending_tool_call. safe_tac.
  - apply safe_decide_approvals. intros x Hx. apply pending_for_status in Hx.
    split; [split; [done|by repeat split]|done].
  - apply safe_update_tool_call. by repeat split.
Qed.
Lemma safe_complete a b c : safe (complete_tool_call a b c).
Proof. unfold complete_tool_call. safe_tac. apply safe_update_tool_call. by repeat split. Qed.
Lemma safe_link a b : safe (set_tool_call_approval_request a b).
Proof. apply safe_update_tool_call. by repeat split. Qed.

Lemma safe_idempotency_record a b c d e r : safe (idempotency_record a b c d e r).
Proof.
  intros w Hok. eapply ledger_ok_from; [apply grows_idempotency_record| |exact Hok].
  unfold idempotency_record, mbind, M_bind, now_rfc3339, read. simpl.
  destruct (idems (ledger w) !! (a, c)) eqn:Hk; [split; simpl; eauto with fk|].
  destruct (idem_fk _ _) eqn:Hf; [|split; simpl; eauto with fk].
  split; simpl; eauto with fk. intros k x Hx. destruct (decide ((a, c) = k)) as [<-|Hne].
  - rewrite lookup_insert_eq in Hx. injection Hx as <-. by right.
  - rewrite lookup_insert_ne in Hx by done. by left.
Qed.
End safe_handlers.
#[export] Hint Resolve safe_insert_message safe_insert_tool_call safe_insert_approval
  safe_insert_candidate safe_insert_memory safe_update_candidate safe_approve safe_deny
  safe_complete safe_link safe_idempotency_record : fk.

Section safe_dispatch.
Context `{SerdeJson} `{Sha256} `{Regex} `{Env}.

Lemma safe_append_chronicle ws a s t c sv p b : safe (append_chronicle ws a s t c sv p b).
Proof. unfold append_chronicle, last_event_hash. safe_tac. Qed.
Lemma safe_ensure_actor i ws k : safe (ensure_actor i ws k).
Proof. unfold ensure_actor, get_actor. safe_tac. Qed.
Lemma safe_ensure_workspace ws : safe (ensure_workspace ws).
Proof. unfold ensure_workspace, get_workspace. safe_tac. Qed.
Lemma safe_upsert_tool ws n : safe (upsert_tool ws n).
Proof. unfold upsert_tool. safe_tac. Qed.
#[local] Hint Resolve safe_append_chronicle safe_ensure_actor safe_ensure_workspace
  safe_upsert_tool : fk.

Lemma safe_handle policy ws actor cmd ct input : safe (handle policy ws actor cmd ct input).
Proof.
  unfold handle. repeat (case_match; [|]).
  - unfold create_session, session_exists. safe_tac.
  - unfold append_message. safe_tac.
  - unfold append_message. safe_tac.
  - unfold request_tool_call. safe_tac.
  - unfold approve_tool_call, session_for_tool_call. safe_tac.
  - unfold deny_tool_call, session_for_tool_call. safe_tac.
  - unfold record_tool_result, session_for_tool_call. safe_tac.
  - unfold propose_memory. safe_tac.
  - unfold approve_memory, memory_candidate, approve_memory_candidate. safe_tac.
  - unfold reject_memory, reject_memory_candidate. safe_tac.
  - apply safe_throw.
Qed.

End safe_dispatch.

Lemma empty_ledger_ok : ledger_ok empty_ledger.
Proof. split; intros k r Hk; simpl in Hk; by rewrite lookup_empty in Hk. Qed.
