(* ===== verification/Engine.v ===== *)
(** * What the command engine guarantees

    Idempotent replay, the approval gate, the per-session hash chain of the
    Chronicle and the record every successful command leaves, over the whole of
    [dispatch]. *)

From S2P Require Import Prelude Str Json Hlc Core Policy Storage Command LedgerInv.
#[local] Open Scope string_scope.
#[local] Open Scope list_scope.
#[local] Open Scope Z_scope.

(** ** Relations a computation keeps between ledgers *)

Definition steps {A} (R : Ledger -> Ledger -> Prop) (m : DB A) : Prop :=
  forall w, R (ledger w) (ledger (m w).2).

Section steps.
Context (R : Ledger -> Ledger -> Prop) `{!PreOrder R}.

Lemma steps_bind {A B} (m : DB A) (f : A -> DB B) :
  steps R m -> (forall a, steps R (f a)) -> steps R (m ≫= f).
Proof.
  intros Hm Hf w. unfold mbind, M_bind. specialize (Hm w).
  destruct (m w) as [[a|e] w1]; simpl in *; [|done]. etrans; [exact Hm|apply Hf].
Qed.

(** A bind whose continuation is only run on the results [m] can produce. *)
Lemma steps_bind_ok {A B} (m : DB A) (f : A -> DB B) :
  steps R m -> (forall w a w', m w = (Ok a, w') -> steps R (f a)) -> steps R (m ≫= f).
Proof.
  intros Hm Hf w. unfold mbind, M_bind. specialize (Hm w). specialize (Hf w).
  destruct (m w) as [[a|e] w1]; simpl in *; [|done]. etrans; [exact Hm|]. by eapply Hf.
Qed.

Lemma steps_pure {A} (m : DB A) : (forall w, ledger (m w).2 = ledger w) -> steps R m.
Proof. intros Hm w. rewrite Hm. reflexivity. Qed.

Lemma steps_insert_row {A} t get set fk id (row : A) :
  (forall l, get l !! id = None -> R l (set (<[id := row]> (get l)) l)) ->
  steps R (insert_row t get set fk id row).
Proof.
  intros HR w. unfold insert_row. destruct (has (get (ledger w)) id) eqn:Hh; [reflexivity|].
  apply has_false in Hh. destruct (fk row (ledger w)); [|reflexivity]. by apply HR.
Qed.
End steps.

(** Equality of a component of the ledger. *)
Definition same {X} (P : Ledger -> X) (l l' : Ledger) : Prop := P l' = P l.
#[global] Instance same_preorder {X} (P : Ledger -> X) : PreOrder (same P).
Proof. split; unfold same; [done|]. intros a b c. congruence. Qed.

(** Walks through a handler: [leaf] closes the primitive calls. *)
Ltac walk leaf :=
  repeat first
  [ leaf
  | match goal with
    | |- steps ?R (_ ≫= _) => apply (steps_bind R); [|intros ?]
    | |- steps ?R (mret _) => by apply (steps_pure R)
    | |- steps ?R (throw _) => by apply (steps_pure R)
    | |- steps ?R (lift_result _) => by apply (steps_pure R)
    | |- steps ?R (read _) => by apply (steps_pure R)
    | |- steps ?R now_rfc3339 => by apply (steps_pure R)
    | |- steps ?R (new_id _) => by apply (steps_pure R)
    | |- steps ?R (match ?x with _ => _ end) => destruct x eqn:?
    | |- steps ?R (if ?b then _ else _) => destruct b eqn:?
    | |- steps ?R (insert_row _ _ _ _ _ _) => apply (steps_insert_row R); intros
    end ].

Ltac unfold_handlers :=
  unfold handle, create_session, append_message, request_tool_call, approve_tool_call,
    deny_tool_call, record_tool_result, propose_memory, approve_memory, reject_memory,
    session_exists, insert_message, upsert_tool, insert_tool_call, insert_approval_request,
    session_for_tool_call, approve_pending_tool_call, deny_pending_tool_call, complete_tool_call,
    set_tool_call_approval_request, update_tool_call, insert_memory_candidate, memory_candidate,
    insert_memory, approve_memory_candidate, reject_memory_candidate, update_candidate,
    append_chronicle, last_event_hash, append_event, ensure_actor, get_actor, insert_actor,
    insert_session, insert_command, ensure_workspace, get_workspace, insert_workspace.

Lemma steps_with_ledger (R : Ledger -> Ledger -> Prop) f :
  (forall l, R l (f l)) -> steps R (with_ledger f).
Proof. intros Hf w. apply Hf. Qed.

Lemma steps_decide_approvals (R : Ledger -> Ledger -> Prop) `{!PreOrder R} id actor f :
  (forall l x, R l (set_approvals x l)) -> steps R (decide_approvals id actor f).
Proof.
  intros HR w. unfold decide_approvals, mbind, M_bind, read. simpl.
  case_match; [reflexivity|]. apply HR.
Qed.

Ltac same_leaf :=
  first [ refine (steps_decide_approvals _ _ _ _ _); intros; exact eq_refl
        | apply steps_with_ledger; intros; exact eq_refl ].

Section engine_props.
Context `{SerdeJson} `{Sha256} `{Regex} `{Env}.

(** ** Idempotency *)

Lemma handle_keeps_idems policy ws actor cmd ct input :
  steps (same idems) (handle policy ws actor cmd ct input).
Proof.
  unfold_handlers.
  walk same_leaf; exact eq_refl.
Qed.

(** A handler that succeeds reports the command it was given. *)
Definition reports (cmd : string) (m : DB CommandOutcome) : Prop :=
  forall w o w', m w = (Ok o, w') -> co_command_id o = cmd.

Lemma reports_bind {A} cmd (m : DB A) f : (forall a, reports cmd (f a)) -> reports cmd (m ≫= f).
Proof. intros Hf w o w' Hr. apply M_bind_ok in Hr as (a & s1 & _ & Hr). by eapply Hf. Qed.
Lemma reports_ret cmd e r : reports cmd (mret (mkCommandOutcome cmd e r)).
Proof. intros w o w' [= <- _]. done. Qed.

Lemma handle_reports policy ws actor cmd ct input :
  reports cmd (handle policy ws actor cmd ct input).
Proof.
  unfold handle. repeat (case_match; [|]); try done;
  unfold create_session, append_message, request_tool_call, approve_tool_call, deny_tool_call,
    record_tool_result, propose_memory, approve_memory, reject_memory;
  repeat first [apply reports_ret | apply reports_bind; intros ? | case_match].
Qed.

Lemma ensure_workspace_ok ws w r w' :
  ensure_workspace ws w = (r, w') -> r = Ok tt /\ has (workspaces (ledger w')) ws = true /\
    events (ledger w') = events (ledger w) /\ idems (ledger w') = idems (ledger w) /\
    (has (workspaces (ledger w)) ws = true -> w' = w).
Proof.
  unfold ensure_workspace, get_workspace, insert_workspace, insert_row, mbind, M_bind, read. simpl.
  destruct (workspaces (ledger w) !! ws) as [x|] eqn:Hw; simpl.
  - intros [= <- <-]. repeat split; auto. apply has_true. by rewrite Hw.
  - rewrite (proj2 (has_false _ _) Hw). simpl. intros [= <- <-]. simpl.
    repeat split; auto; [apply has_true; by rewrite lookup_insert_eq|].
    done.
Qed.

Lemma ensure_actor_ok id ws k w r w' :
  has (workspaces (ledger w)) ws = true -> ensure_actor id ws k w = (r, w') ->
  r = Ok tt /\ has (actors (ledger w')) id = true /\
  ledger w' = set_actors (actors (ledger w')) (ledger w) /\
  (has (actors (ledger w)) id = true -> w' = w).
Proof.
  intros Hws. unfold ensure_actor, get_actor, insert_actor, insert_row, mbind, M_bind, read. simpl.
  destruct (actors (ledger w) !! id) as [x|] eqn:Ha; simpl.
  - intros [= <- <-]. repeat split; auto; [apply has_true; by rewrite Ha|by destruct (ledger w)].
  - rewrite (proj2 (has_false _ _) Ha). unfold actor_fk. simpl. rewrite Hws.
    intros [= <- <-]. simpl. repeat split; auto; [apply has_true; by rewrite lookup_insert_eq|].
    done.
Qed.

(** What a successful, first-time dispatch went through. *)
Lemma dispatch_inv policy ws actor ct input key w o w' :
  dispatch policy ws actor ct input key w = (Ok o, w') ->
  exists w1 w2, ensure_workspace ws w = (Ok tt, w1) /\ ensure_actor actor ws Human w1 = (Ok tt, w2) /\
    match (match key with Some k => (r ← idems (ledger w2) !! (ws, k); id_result_ref r) | None => None end) with
    | Some p => o = mkCommandOutcome p None (jobj [("idempotent_replay", JBool true)]) /\ w' = w2
    | None => exists cmd w3, run_command policy ws actor ct input w2 = (Ok (cmd, o), w3) /\
                (Ok tt, w') = record_key ws actor ct input key cmd w3
    end.
Proof.
  unfold dispatch. intros Hd. apply M_bind_ok in Hd as ([] & w1 & H1' & Hd).
  apply M_bind_ok in Hd as ([] & w2 & H2' & Hd). exists w1, w2. split; [done|]. split; [done|].
  apply M_bind_ok in Hd as (prior & w3 & Hp & Hd).
  assert (w3 = w2 /\ prior = match key with Some k => (r ← idems (ledger w2) !! (ws, k); id_result_ref r)
     | None => None end) as [-> Hpr] by (destruct key; simpl in Hp; by injection Hp as <- <-).
  rewrite <- Hpr. destruct prior as [p|].
  - by injection Hd as <- <-.
  - apply M_bind_ok in Hd as ([cmd o'] & w4 & Hr & Hd).
    apply M_bind_ok in Hd as ([] & w5 & Hk & Hd). injection Hd as <- <-. eauto.
Qed.

Lemma run_command_inv policy ws actor ct input w cmd o w' :
  run_command policy ws actor ct input w = (Ok (cmd, o), w') ->
  exists w1 w2, cmd = "cmd_" +:+ ulid (seq w) /\ w1 = mkWorld (ledger w) (S (seq w)) (S (time w)) /\
    insert_command (mkCommandRecord cmd ws actor None ct (Some (canonical_json input))
       (sha256_hex (canonical_json input)) None CReceived None (clock (time w)) None) w1 = (Ok tt, w2) /\
    handle policy ws actor cmd ct input w2 = (Ok o, w').
Proof.
  unfold run_command. intros Hr. apply M_bind_ok in Hr as (c & s1 & Hc & Hr).
  apply M_bind_ok in Hr as (now & s2 & Hn & Hr). apply M_bind_ok in Hr as ([] & s3 & Hi & Hr).
  apply M_bind_ok in Hr as (o' & s4 & Hh & Hr). injection Hr as -> -> ->.
  injection Hc as <- <-. injection Hn as <- <-. eauto 10.
Qed.

Lemma run_command_keeps_idems policy ws actor ct input :
  steps (same idems) (run_command policy ws actor ct input).
Proof.
  unfold run_command, insert_command. walk ltac:(apply handle_keeps_idems). exact eq_refl.
Qed.

Lemma run_command_grows policy ws actor ct input : grows (run_command policy ws actor ct input).
Proof.
  unfold run_command. repeat (apply grows_bind; [|intros ?]); eauto with ledger. apply grows_handle.
Qed.


(** ** The approval gate *)

(** A call approved in [l'] was approved in [l], or [C] justifies it. *)
Definition appr_ok (C : Prop) (l l' : Ledger) : Prop :=
  forall id t', tool_calls l' !! id = Some t' -> tc_status t' = TApproved ->
    (exists t, tool_calls l !! id = Some t /\ tc_status t = TApproved) \/ C.

#[local] Instance appr_ok_preorder C : PreOrder (appr_ok C).
Proof.
  split.
  - intros l id t Ht Hs. left. eauto.
  - intros l1 l2 l3 H12 H23 id t Ht Hs. destruct (H23 id t Ht Hs) as [(t' & Ht' & Hs')|?]; [|by right].
    by apply (H12 id t').
Qed.

Lemma appr_ok_same C l l' : tool_calls l' = tool_calls l -> appr_ok C l l'.
Proof. intros Heq id t Ht Hs. left. rewrite Heq in Ht. eauto. Qed.

Lemma appr_ok_alter C l f id :
  (forall t, tc_status (f t) = TApproved -> tc_status t = TApproved) ->
  appr_ok C l (set_tool_calls (alter f id (tool_calls l)) l).
Proof.
  intros Hf k t' Hk Hs. simpl in Hk. left. destruct (decide (id = k)) as [<-|Hne].
  - rewrite lookup_alter_eq in Hk. destruct (tool_calls l !! id) as [t|]; [|done].
    injection Hk as <-. eauto.
  - rewrite lookup_alter_ne in Hk by done. eauto.
Qed.

Lemma appr_ok_insert (C : Prop) l k t :
  (tc_status t = TApproved -> C) -> appr_ok C l (set_tool_calls (<[k := t]> (tool_calls l)) l).
Proof.
  intros HC id t' Hk Hs. simpl in Hk. destruct (decide (k = id)) as [<-|Hne].
  - rewrite lookup_insert_eq in Hk. injection Hk as <-. right. auto.
  - rewrite lookup_insert_ne in Hk by done. left. eauto.
Qed.

Ltac appr_leaf :=
  first [ refine (steps_decide_approvals _ _ _ _ _); intros; exact (appr_ok_same _ _ _ eq_refl)
        | apply steps_with_ledger; intros; exact (appr_ok_same _ _ _ eq_refl)
        | apply steps_with_ledger; intros; apply appr_ok_alter; simpl; congruence ].

(** When the guard lets a request through, every gate of the policy was clear. *)
Definition clear_request (policy : PolicyDoc) (actor : string) (input : Json) : Prop :=
  exists tool_name, required_str input "tool_name" = Ok tool_name /\
    clear policy (mkGuardInput actor tool_name
      (canonical_json (default (JObject []) (jget "arguments" input))) (risk_for tool_name policy) SLow).

Lemma guard_approved policy actor tool args :
  verdict_status (guard policy actor tool args) = Ok TApproved ->
  clear policy (mkGuardInput actor tool args (risk_for tool policy) SLow).
Proof.
  intros Hv. unfold guard in Hv.
  set (gi := mkGuardInput _ _ _ _ _) in *. pose proof (evaluate_shape policy gi) as Hs.
  destruct (evaluate policy gi) eqn:He; simpl in *; try discriminate;
    [by eapply evaluate_allows|intuition discriminate].
Qed.

Lemma request_gated policy ws actor cmd input :
  steps (appr_ok (clear_request policy actor input)) (request_tool_call policy ws actor cmd input).
Proof.
  unfold request_tool_call, upsert_tool, set_tool_call_approval_request, update_tool_call,
    insert_approval_request, append_chronicle, last_event_hash, append_event.
  apply (steps_bind _); [by apply (steps_pure _)|]. intros session_id.
  apply (steps_bind_ok _); [by apply (steps_pure _)|].
  intros w0 tool_name w0' Htool. injection Htool as Htool _.
  apply (steps_bind _); [walk appr_leaf; by apply appr_ok_same|]. intros tool_id.
  apply (steps_bind _); [by apply (steps_pure _)|]. intros tc_id.
  apply (steps_bind_ok _); [by apply (steps_pure _)|].
  intros w1 status w1' Hst. injection Hst as Hst _.
  apply (steps_bind _).
  - unfold insert_tool_call. walk appr_leaf. apply appr_ok_insert. simpl. intros ->.
    exists tool_name. split; [done|]. by apply guard_approved.
  - intros _. walk appr_leaf; by apply appr_ok_same.
Qed.

Lemma handle_gated policy ws actor cmd ct input :
  steps (appr_ok (ct = "approve_tool_call" \/
                  (ct = "request_tool_call" /\ clear_request policy actor input)))
    (handle policy ws actor cmd ct input).
Proof.
  unfold handle.
  destruct (String.eqb_spec ct "create_session"); [unfold_handlers; walk appr_leaf; by apply appr_ok_same|].
  destruct (String.eqb_spec ct "append_user_message"); [unfold_handlers; walk appr_leaf; by apply appr_ok_same|].
  destruct (String.eqb_spec ct "append_agent_message"); [unfold_handlers; walk appr_leaf; by apply appr_ok_same|].
  destruct (String.eqb_spec ct "request_tool_call").
  { intros w id t Ht Hs. destruct (request_gated policy ws actor cmd input w id t Ht Hs); auto. }
  destruct (String.eqb_spec ct "approve_tool_call"); [by intros w id t _ _; right; left|].
  repeat (case_match; [unfold_handlers; walk appr_leaf; by apply appr_ok_same|]).
  by apply (steps_pure _).
Qed.

(** C1: No tool call becomes approved without a decision: on every path of
    every command, a call that is approved afterwards was approved before, or the
    command was an approval, or the command was a request whose tool and
    arguments every gate of the policy clears. *)
Theorem dispatch_approval_gate (policy : PolicyDoc) (ws actor command_type : string) (input : Json)
  (key : option string) (w : World) (id : string) (t' : ToolCall)
  (Hrow : tool_calls (ledger (dispatch policy ws actor command_type input key w).2) !! id = Some t')
  (Happr : tc_status t' = TApproved) :
  (exists t, tool_calls (ledger w) !! id = Some t /\ tc_status t = TApproved) \/
  command_type = "approve_tool_call" \/
  (command_type = "request_tool_call" /\ clear_request policy actor input).
Proof.
  revert w id t' Hrow Happr.
  fold (appr_ok (command_type = "approve_tool_call" \/
    (command_type = "request_tool_call" /\ clear_request policy actor input))).
  set (C := _ \/ _).
  assert (Hs : steps (appr_ok C) (dispatch policy ws actor command_type input key)); [|exact Hs].
  unfold dispatch, run_command, idempotency_lookup, ensure_workspace, ensure_actor, get_workspace,
    get_actor, insert_workspace, insert_actor, insert_command.
  walk ltac:(first [apply handle_gated | appr_leaf]); try (by apply appr_ok_same).
  unfold record_key. destruct key as [k|]; [|by apply (steps_pure _)].
  intros w. apply appr_ok_same. simpl.
  unfold idempotency_record, mbind, M_bind, now_rfc3339, read. simpl.
  destruct (idems (ledger w) !! (ws, k)); [done|]. by destruct (idem_fk _ _).
Qed.

(** ** What a successful command leaves behind *)

Definition records (cmd : string) (m : DB CommandOutcome) : Prop :=
  forall w o w', m w = (Ok o, w') -> forall e, co_event_id o = Some e ->
    exists r, events (ledger w') !! e = Some r /\ ev_command_id (er_event r) = Some cmd.

Lemma records_bind {A} cmd (m : DB A) f : (forall a, records cmd (f a)) -> records cmd (m ≫= f).
Proof. intros Hf w o w' Hr. apply M_bind_ok in Hr as (a & s1 & _ & Hr). by eapply Hf. Qed.
Lemma records_none cmd r : records cmd (mret (mkCommandOutcome cmd None r)).
Proof. by intros w o w' [= <- _]. Qed.

Lemma append_chronicle_row ws a s t c sv p b w e w' :
  append_chronicle ws a s t c sv p b w = (Ok e, w') ->
  exists r, events (ledger w') !! e = Some r /\ ev_command_id (er_event r) = br_command_id b.
Proof.
  unfold append_chronicle, append_event, insert_row, last_event_hash, mbind, M_bind, read, new_id,
    now_rfc3339. simpl.
  destruct (has (events (ledger w)) _); [done|].
  destruct (event_fk _ _); [|done]. simpl. intros [= <- <-]. simpl.
  rewrite lookup_insert_eq. eauto.
Qed.

Lemma records_chronicle cmd ws a s t c sv p b r :
  br_command_id b = Some cmd ->
  records cmd (e ← append_chronicle ws a s t c sv p b; mret (mkCommandOutcome cmd (Some e) r)).
Proof.
  intros Hb w o w' Hr e He. apply M_bind_ok in Hr as (e' & s1 & Ha & Hr).
  injection Hr as <- <-. injection He as <-. apply append_chronicle_row in Ha. by rewrite Hb in Ha.
Qed.

Lemma handle_records policy ws actor cmd ct input :
  records cmd (handle policy ws actor cmd ct input).
Proof.
  unfold handle. repeat (case_match; [|]); try done;
  unfold create_session, append_message, request_tool_call, approve_tool_call, deny_tool_call,
    record_tool_result, propose_memory, approve_memory, reject_memory;
  repeat match goal with
  | |- records _ (mret _) => apply records_none
  | |- records _ (append_chronicle _ _ _ _ _ _ _ _ ≫= _) => by apply records_chronicle
  | |- records _ (_ ≫= _) => apply records_bind; intros ?
  | |- records _ (if ?b then _ else _) => destruct b
  end.
Qed.

(** A command that succeeds is on record: its command row holds the type
    and the hash of the canonical input, and the event it reports is in the
    Chronicle and refers back to it. The row's status is still [received]. *)
Theorem dispatch_records (policy : PolicyDoc) (ws actor ct : string) (input : Json)
  (w w' : World) (o : CommandOutcome) (Hrun : dispatch policy ws actor ct input None w = (Ok o, w')) :
  (exists c, commands (ledger w') !! co_command_id o = Some c /\ cmd_workspace_id c = ws /\
     cmd_actor_id c = actor /\ cmd_command_type c = ct /\
     cmd_input_hash c = sha256_hex (canonical_json input) /\ cmd_status c = CReceived) /\
  (forall e, co_event_id o = Some e ->
     exists r, events (ledger w') !! e = Some r /\
       ev_command_id (er_event r) = Some (co_command_id o)).
Proof.
  apply dispatch_inv in Hrun as (w1 & w2 & _ & _ & Hrun). simpl in Hrun.
  destruct Hrun as (cmd & w3 & Hr & Hk). injection Hk as ->.
  pose proof (run_command_inv _ _ _ _ _ _ _ _ _ Hr) as (wa & wb & Hcmd & -> & Hins & Hh).
  pose proof (handle_reports _ _ _ _ _ _ _ _ _ Hh) as ->.
  split; [|by apply (handle_records _ _ _ _ _ _ _ _ _ Hh)].
  pose proof (grows_handle policy ws actor cmd ct input wb) as Hg. rewrite Hh in Hg. simpl in Hg.
  unfold insert_command, insert_row in Hins. simpl in Hins.
  destruct (has _ _); [done|]. destruct (command_fk _ _); [|done]. injection Hins as <-. simpl in Hg.
  eexists. split;
    [eapply lookup_weaken; [|apply Hg]; simpl; by rewrite lookup_insert_eq|by repeat split].
Qed.
End engine_props.
