(* ===== verification/Chain.v ===== *)
(** * The hash chain of the Chronicle

    Per workspace and session, the events in [(created_at, id)] order form a
    hash chain from the all-zero genesis; every command extends it, when the
    stamps it draws grow.  The chain is tamper evident: two histories with the
    same last hash have the same payload hashes, or exhibit a SHA-256 collision. *)

From S2P Require Import Prelude Str Json Hlc Core Policy Storage Command LedgerInv Engine.
#[local] Open Scope string_scope.
#[local] Open Scope list_scope.
#[local] Open Scope Z_scope.

Definition row_key (r : EventRow) : string * string :=
  (ev_created_at (er_event r), ev_id (er_event r)).
#[local] Notation kcmp := (lex_cmp String.compare String.compare).

Lemma event_le_key a b : event_le a b <-> cmp_le (cmp:=kcmp) (row_key a) (row_key b) = true.
Proof. reflexivity. Qed.

#[global] Instance event_le_trans : Transitive event_le.
Proof. intros a b c. rewrite !event_le_key. apply (cmp_le_trans (cmp:=kcmp)). Qed.
#[global] Instance event_le_total : Total event_le.
Proof. intros a b. rewrite !event_le_key. apply (cmp_le_total (cmp:=kcmp)). Qed.

(** Rows are stored under their own id. *)
Definition keyed (l : Ledger) : Prop :=
  forall k r, events l !! k = Some r -> ev_id (er_event r) = k.

Definition table_rows (f : AgentEvent -> bool) (l : Ledger) : list EventRow :=
  List.filter (fun r => f (er_event r)) (map snd (map_to_list (events l))).

Lemma table_rows_elem f l r :
  r ∈ table_rows f l <-> (exists k, events l !! k = Some r) /\ f (er_event r) = true.
Proof.
  unfold table_rows. rewrite list_elem_of_In, List.filter_In, in_map_iff. split.
  - intros [([k x] & <- & Hin) Hf]. split; [|done]. exists k.
    by apply elem_of_map_to_list, list_elem_of_In.
  - intros [[k Hk] Hf]. split; [|done]. exists (k, r). split; [done|].
    by apply list_elem_of_In, elem_of_map_to_list.
Qed.

(** A sorted arrangement of the rows is the selection. *)
Lemma select_events_unique f l rows :
  keyed l -> StronglySorted event_le rows -> Permutation rows (table_rows f l) ->
  select_events f l = rows.
Proof.
  intros Hk Hs Hp. apply (StronglySorted_unique_strong event_le).
  - intros a b Ha Hb Hab Hba. unfold select_events in Ha.
    rewrite merge_sort_Permutation in Ha. rewrite Hp in Hb.
    apply table_rows_elem in Ha as [[ka Ha] _], Hb as [[kb Hb] _].
    rewrite event_le_key in Hab, Hba.
    pose proof (cmp_le_antisym (cmp:=kcmp) _ _ Hab Hba) as Heq.
    pose proof (Hk _ _ Ha). pose proof (Hk _ _ Hb).
    unfold row_key in Heq. injection Heq as _ Heq. congruence.
  - apply StronglySorted_merge_sort; apply _.
  - done.
  - unfold select_events. rewrite merge_sort_Permutation. symmetry. exact Hp.
Qed.

Lemma select_events_sorted f l : StronglySorted event_le (select_events f l).
Proof. apply StronglySorted_merge_sort; apply _. Qed.

Lemma select_events_elem f l r : r ∈ select_events f l <-> r ∈ table_rows f l.
Proof. unfold select_events. by rewrite merge_sort_Permutation. Qed.

Lemma table_rows_insert f l id row :
  events l !! id = None ->
  Permutation (table_rows f (set_events (<[id := row]> (events l)) l))
    (if f (er_event row) then row :: table_rows f l else table_rows f l).
Proof.
  intros Hid. unfold table_rows. simpl. rewrite map_to_list_insert by done. simpl.
  by destruct (f (er_event row)).
Qed.

(** A new row that is later than all others of the selection goes last; a row
    outside of the selection changes nothing. *)
Lemma select_events_insert f l id row :
  keyed l -> events l !! id = None -> ev_id (er_event row) = id ->
  (forall k r, events l !! k = Some r ->
     String.compare (ev_created_at (er_event r)) (ev_created_at (er_event row)) = Lt) ->
  select_events f (set_events (<[id := row]> (events l)) l) =
    select_events f l ++ (if f (er_event row) then [row] else []).
Proof.
  intros Hk Hid Hrow Hlt.
  assert (Hk' : keyed (set_events (<[id := row]> (events l)) l)).
  { intros k r. simpl. destruct (decide (id = k)) as [<-|Hne].
    - rewrite lookup_insert_eq. by intros [= <-].
    - rewrite lookup_insert_ne by done. apply Hk. }
  apply select_events_unique; [done| |].
  - destruct (f (er_event row)); [|rewrite app_nil_r; apply select_events_sorted].
    apply StronglySorted_app_2; [|apply select_events_sorted|repeat constructor].
    intros a b Ha Hb. apply list_elem_of_singleton in Hb as ->.
    apply select_events_elem, table_rows_elem in Ha as [[k Ha] _].
    rewrite event_le_key. unfold row_key, cmp_le, lex_cmp. simpl. by rewrite (Hlt k a Ha).
  - rewrite table_rows_insert by done. unfold select_events. rewrite merge_sort_Permutation.
    destruct (f (er_event row)); [|by rewrite app_nil_r].
    by rewrite Permutation_app_comm.
Qed.

Section chain.
Context `{SerdeJson} `{Sha256} `{Regex} `{Env}.

(** A hash chain from [prev]. *)
Fixpoint chain_ok (prev : string) (evs : list AgentEvent) : Prop :=
  match evs with
  | [] => True
  | e :: evs' =>
      ev_event_hash e = chain_hash prev (ev_payload_hash e) /\ chain_ok (ev_event_hash e) evs'
  end.

Definition chain_end (prev : string) (evs : list AgentEvent) : string :=
  default prev (ev_event_hash <$> last evs).

Lemma chain_ok_snoc prev evs e :
  chain_ok prev evs -> ev_event_hash e = chain_hash (chain_end prev evs) (ev_payload_hash e) ->
  chain_ok prev (evs ++ [e]).
Proof.
  revert prev. induction evs as [|x evs IH]; intros prev; simpl; [done|].
  intros [Hx Hc] He. split; [done|]. apply IH; [done|].
  unfold chain_end in *. rewrite last_cons in He. by destruct (last evs).
Qed.

(** The Chronicle of a session of a workspace, oldest first. *)
Definition chronicle (ws s : string) (l : Ledger) : list AgentEvent :=
  List.map er_event (select_events (in_scope ws (Some s)) l).

Definition chains_ok (l : Ledger) : Prop := forall ws s, chain_ok genesis (chronicle ws s l).

Record chain_world (w : World) : Prop := {
  cw_keyed : keyed (ledger w);
  cw_chains : chains_ok (ledger w);
  cw_past : forall k r n, events (ledger w) !! k = Some r -> (time w <= n)%nat ->
    String.compare (ev_created_at (er_event r)) (clock n) = Lt;
}.

(** A call that writes no event and lets time pass. *)
Definition quiet {A} (m : DB A) : Prop :=
  forall w, events (ledger (m w).2) = events (ledger w) /\ (time w <= time (m w).2)%nat.

Lemma chronicle_events ws s l l' : events l' = events l -> chronicle ws s l' = chronicle ws s l.
Proof. intros Heq. unfold chronicle, select_events. by rewrite Heq. Qed.

Lemma quiet_keeps {A} (m : DB A) : quiet m -> preserves chain_world m.
Proof.
  intros Hq w [Hk Hc Hp]. destruct (Hq w) as [He Ht]. split.
  - intros k r. rewrite He. apply Hk.
  - intros ws s. rewrite (chronicle_events _ _ _ _ He). apply Hc.
  - intros k r n. rewrite He. intros Hr Hn. apply (Hp k); [done|lia].
Qed.

Lemma last_map {A B} (f : A -> B) (l : list A) : last (List.map f l) = f <$> last l.
Proof. induction l as [|x [|y l] IH]; simpl in *; done. Qed.

Context (clock_grows : forall m n, (m < n)%nat -> String.compare (clock m) (clock n) = Lt).

Lemma append_chronicle_keeps ws a s t c sv p b :
  preserves chain_world (append_chronicle ws a s t c sv p b).
Proof.
  intros w [Hk Hc Hp].
  unfold append_chronicle, append_event, insert_row, last_event_hash, mbind, M_bind, read, new_id,
    now_rfc3339. simpl.
  set (eid := "evt" +:+ "_" +:+ ulid (seq w)).
  destruct (has (events (ledger w)) eid) eqn:Hh; simpl.
  { split; simpl; auto. intros k r n Hr Hn. apply (Hp k); [done|lia]. }
  apply has_false in Hh.
  set (prev := default genesis _). set (e := mkAgentEvent eid _ _ _ _ _ _ _ _ _ _ _ _ _ _ _ _ _ _ _ _).
  destruct (event_fk (mkEventRow e "_legacy_" (0, 0)) (ledger w)); simpl;
    [|split; simpl; auto; intros k r n Hr Hn; apply (Hp k); [done|lia]].
  assert (Hlt : forall k r, events (ledger w) !! k = Some r ->
    String.compare (ev_created_at (er_event r)) (ev_created_at e) = Lt) by (intros; by eapply Hp).
  split; simpl.
  - intros k r. simpl. destruct (decide (eid = k)) as [<-|Hne].
    + rewrite lookup_insert_eq. by intros [= <-].
    + rewrite lookup_insert_ne by done. apply Hk.
  - intros ws' s'. unfold chronicle.
    rewrite (select_events_insert _ (ledger w) eid (mkEventRow e "_legacy_" (0, 0)) Hk Hh eq_refl Hlt).
    rewrite map_app. simpl. destruct (in_scope ws' (Some s') e) eqn:Hsc; [|by rewrite app_nil_r; apply Hc].
    simpl. apply chain_ok_snoc; [apply Hc|]. unfold chain_end. rewrite last_map.
    unfold in_scope, in_session in Hsc. simpl in Hsc. breflect. subst s.
    apply String.eqb_eq in H3 as <-. unfold e, prev. simpl.
    by destruct (last (select_events _ _)).
  - intros k r n Hr Hn. destruct (decide (eid = k)) as [<-|Hne].
    + rewrite lookup_insert_eq in Hr. injection Hr as <-. simpl. apply clock_grows. lia.
    + rewrite lookup_insert_ne in Hr by done. apply (Hp k); [done|lia].
Qed.

(** ** Every handler extends the chains *)

Lemma quiet_pure {A} (m : DB A) :
  (forall w, ledger (m w).2 = ledger w /\ (time w <= time (m w).2)%nat) -> quiet m.
Proof. intros Hm w. destruct (Hm w) as [-> ?]. done. Qed.

Lemma quiet_insert_row {A} t get set fk id (row : A) :
  (forall x l, events (set x l) = events l) -> quiet (insert_row t get set fk id row).
Proof.
  intros He w. unfold insert_row. case_match; [done|]. case_match; [|done]. simpl. by rewrite He.
Qed.
Lemma quiet_with_ledger f : (forall l, events (f l) = events l) -> quiet (with_ledger f).
Proof. intros Hf w. simpl. by rewrite Hf. Qed.
Lemma quiet_decide_approvals id actor f : quiet (decide_approvals id actor f).
Proof.
  intros w. unfold decide_approvals, mbind, M_bind, read. simpl. by case_match.
Qed.
Lemma quiet_idempotency_record a b c d e r : quiet (idempotency_record a b c d e r).
Proof.
  intros w. unfold idempotency_record, mbind, M_bind, now_rfc3339, read. simpl.
  destruct (idems (ledger w) !! (a, c)); simpl; [split; [done|lia]|].
  destruct (idem_fk _ _); simpl; (split; [done|lia]).
Qed.

Ltac chain_step :=
  match goal with
  | |- preserves chain_world (append_chronicle _ _ _ _ _ _ _ _) => apply append_chronicle_keeps
  | |- preserves chain_world (_ ≫= _) => apply preserves_bind; [|intros ?]
  | |- preserves chain_world (mret _) => apply preserves_ret
  | |- preserves chain_world (throw _) => apply preserves_throw
  | |- preserves chain_world (lift_result _) => apply preserves_lift
  | |- preserves chain_world (read _) => apply quiet_keeps, quiet_pure; intros w; split; [done|simpl; lia]
  | |- preserves chain_world now_rfc3339 => apply quiet_keeps, quiet_pure; intros w; split; [done|simpl; lia]
  | |- preserves chain_world (new_id _) => apply quiet_keeps, quiet_pure; intros w; split; [done|simpl; lia]
  | |- preserves chain_world (insert_row _ _ _ _ _ _) => by apply quiet_keeps, quiet_insert_row
  | |- preserves chain_world (with_ledger _) => by apply quiet_keeps, quiet_with_ledger
  | |- preserves chain_world (decide_approvals _ _ _) => apply quiet_keeps, quiet_decide_approvals
  | |- preserves chain_world (match ?x with _ => _ end) => destruct x
  | |- preserves chain_world (if ?b then _ else _) => destruct b
  end.

Lemma handle_chains policy ws actor cmd ct input :
  preserves chain_world (handle policy ws actor cmd ct input).
Proof.
  unfold handle, create_session, append_message, request_tool_call, approve_tool_call,
    deny_tool_call, record_tool_result, propose_memory, approve_memory, reject_memory,
    session_exists, insert_message, upsert_tool, insert_tool_call, insert_approval_request,
    session_for_tool_call, approve_pending_tool_call, deny_pending_tool_call, complete_tool_call,
    set_tool_call_approval_request, update_tool_call, insert_memory_candidate, memory_candidate,
    insert_memory, approve_memory_candidate, reject_memory_candidate, update_candidate,
    ensure_actor, get_actor, insert_actor, insert_session.
  repeat chain_step.
Qed.

(** C5: With stamps that grow, every command leaves every session's Chronicle
    a hash chain from the genesis value, on every path, errors included: each
    event's hash is the hash of its predecessor's hash and its own payload hash. *)
Theorem dispatch_keeps_chains (policy : PolicyDoc) (ws actor command_type : string) (input : Json)
  (key : option string) (w : World) (Hw : chain_world w) :
  chain_world (dispatch policy ws actor command_type input key w).2.
Proof.
  revert w Hw. fold (preserves chain_world (dispatch policy ws actor command_type input key)).
  unfold dispatch, run_command, idempotency_lookup, ensure_workspace, ensure_actor, get_workspace,
    get_actor, insert_workspace, insert_actor, insert_command.
  repeat chain_step; [apply handle_chains|].
  unfold record_key. destruct key as [k|]; [|apply preserves_ret].
  intros w Hw. apply (quiet_keeps _ (quiet_idempotency_record _ _ _ _ _ _)), Hw.
Qed.

(** ** Tamper evidence *)

(** The strings hashed along a chain. *)
Fixpoint chain_inputs (prev : string) (evs : list AgentEvent) : list string :=
  match evs with
  | [] => []
  | e :: evs' => (prev +:+ ":" +:+ ev_payload_hash e) :: chain_inputs (ev_event_hash e) evs'
  end.

(** Two different strings hashed along two chains have the same hash. *)
Definition collision_in (a b : list AgentEvent) : Prop :=
  exists x y, x ∈ chain_inputs genesis a /\ y ∈ chain_inputs genesis b /\
    x <> y /\ sha256_hex x = sha256_hex y.
(** A string hashed along the chain hashes to the all-zero genesis. *)
Definition genesis_preimage_in (a : list AgentEvent) : Prop :=
  exists x, x ∈ chain_inputs genesis a /\ sha256_hex x = genesis.

Lemma colon_split (a b x y : string) :
  contains_char ":"%char a = false -> contains_char ":"%char b = false ->
  (a +:+ ":" +:+ x)%string = (b +:+ ":" +:+ y)%string -> a = b /\ x = y.
Proof.
  revert b. induction a as [|c a IH]; intros [|d b] Ha Hb Heq; simpl in Ha, Hb;
    repeat (rewrite append_cons in Heq || rewrite append_nil in Heq).
  - by injection Heq as ->.
  - injection Heq as <- _. by rewrite Ascii.eqb_refl in Hb.
  - injection Heq as -> _. by rewrite Ascii.eqb_refl in Ha.
  - apply orb_false_iff in Ha as [_ Ha], Hb as [_ Hb].
    injection Heq as -> Heq. destruct (IH b Ha Hb) as [-> ->]; [|done].
    repeat (rewrite append_cons || rewrite append_nil). exact Heq.
Qed.

Lemma chain_end_snoc prev evs e : chain_end prev (evs ++ [e]) = ev_event_hash e.
Proof. unfold chain_end. by rewrite last_snoc. Qed.

Lemma chain_ok_app prev a b : chain_ok prev (a ++ b) <-> chain_ok prev a /\ chain_ok (chain_end prev a) b.
Proof.
  revert prev. induction a as [|x a IH]; intros prev; simpl; [unfold chain_end; simpl; tauto|].
  rewrite IH. assert (Heq : chain_end prev (x :: a) = chain_end (ev_event_hash x) a).
  { unfold chain_end. rewrite last_cons. by destruct (last a). }
  rewrite Heq. tauto.
Qed.

Context (hex : forall s, contains_char ":"%char (sha256_hex s) = false).

Lemma chain_end_hex prev evs :
  contains_char ":"%char prev = false -> chain_ok prev evs ->
  contains_char ":"%char (chain_end prev evs) = false.
Proof.
  intros Hp Hc. destruct evs as [|e evs _] using rev_ind; [done|].
  rewrite chain_end_snoc. apply chain_ok_app in Hc as [_ [He _]]. rewrite He. apply hex.
Qed.

Lemma chain_inputs_snoc prev evs e :
  chain_inputs prev (evs ++ [e]) =
  chain_inputs prev evs ++ [chain_end prev evs +:+ ":" +:+ ev_payload_hash e].
Proof.
  revert prev. induction evs as [|x evs IH]; intros prev; [done|]. simpl. rewrite IH.
  do 3 f_equal. unfold chain_end. rewrite last_cons. by destruct (last evs).
Qed.

Lemma genesis_end a :
  chain_ok genesis a -> a <> [] -> chain_end genesis a = genesis -> genesis_preimage_in a.
Proof.
  destruct a as [|x a _] using rev_ind; [done|]. intros Ha _ Hend.
  rewrite chain_end_snoc in Hend. apply chain_ok_app in Ha as [Ha [Hx _]].
  eexists. split; [rewrite chain_inputs_snoc; apply elem_of_app; right; by apply list_elem_of_singleton|].
  unfold chain_hash in Hx. congruence.
Qed.

Lemma broken_snoc a b x y :
  collision_in a b \/ genesis_preimage_in a \/ genesis_preimage_in b ->
  collision_in (a ++ [x]) (b ++ [y]) \/ genesis_preimage_in (a ++ [x]) \/ genesis_preimage_in (b ++ [y]).
Proof.
  assert (Hin : forall c z u, u ∈ chain_inputs genesis c -> u ∈ chain_inputs genesis (c ++ [z])).
  { intros c z u Hu. rewrite chain_inputs_snoc. apply elem_of_app. by left. }
  intros [(u & v & Hu & Hv & Hc)|[(u & Hu & Hs)|(u & Hu & Hs)]].
  - left. exists u, v. auto.
  - right; left. exists u. auto.
  - right; right. exists u. auto.
Qed.

(** C6: The chain is tamper evident: two histories that end in the same hash
    record the same payload hashes in the same order; otherwise the strings the
    two chains hashed contain a SHA-256 collision, or one that hashes to the
    all-zero genesis value. *)
Theorem chain_tamper_evident (a b : list AgentEvent)
  (Ha : chain_ok genesis a) (Hb : chain_ok genesis b)
  (Hend : chain_end genesis a = chain_end genesis b) :
  List.map ev_payload_hash a = List.map ev_payload_hash b \/
  collision_in a b \/ genesis_preimage_in a \/ genesis_preimage_in b.
Proof.
  revert b Hb Hend Ha. induction a as [|x a IH] using rev_ind; intros b Hb Hend Ha.
  { destruct b as [|y b]; [by left|]. do 3 right. by apply genesis_end. }
  destruct b as [|y b _] using rev_ind.
  { right; right; left. apply genesis_end; [done|by destruct a|done]. }
  rewrite !chain_end_snoc in Hend.
  apply chain_ok_app in Ha as [Ha [Hx _]], Hb as [Hb [Hy _]].
  set (pa := chain_end genesis a) in *. set (pb := chain_end genesis b) in *.
  destruct (decide ((pa +:+ ":" +:+ ev_payload_hash x) = (pb +:+ ":" +:+ ev_payload_hash y))) as [Heq|Hne].
  - apply colon_split in Heq as [Hp Hq]; [|by apply chain_end_hex..].
    destruct (IH b Hb Hp Ha) as [Hmap|Hcol]; [left|right; by apply broken_snoc].
    by rewrite !map_app, Hmap; simpl; rewrite Hq.
  - right; left. eexists _, _. rewrite !chain_inputs_snoc, !elem_of_app, !list_elem_of_singleton.
    split; [by right|]. split; [by right|]. split; [done|]. unfold chain_hash, pa, pb in *. congruence.
Qed.
End chain.
