(* ===== verification/EngineDemo.v ===== *)
(** * Concrete runs of the command engine

    An environment with counters for ULIDs and stamps, stand-ins for serde_json,
    SHA-256 and the regex crate, and the runs that show what the engine's theorems
    say on concrete inputs, and what the engine does not check. *)

From S2P Require Import Prelude Str Json Hlc Core Policy Storage Command LedgerInv Engine Chain.
#[local] Open Scope string_scope.
#[local] Open Scope list_scope.
#[local] Open Scope Z_scope.

(** ** The environment *)

Fixpoint ticks (n : nat) : string := match n with O => "" | S k => String "t"%char (ticks k) end.
#[local] Instance demo_env : Env := Build_Env (fun n => show_Z (Z.of_nat n)) ticks.
#[local] Instance the_serde : SerdeJson := demo_codec.
#[local] Instance the_regex : Regex := literal_regex.

(** Eight hexadecimal letters of a rolling sum. *)
Definition roll (s : string) : Z :=
  (fix go s acc := match s with
                   | "" => acc
                   | String c s' => go s' ((acc * 31 + byte c) mod 4294967296)
                   end) s 7.
Definition hex_letter (n : Z) : Ascii.ascii := Ascii.ascii_of_N (Z.to_N (97 + n mod 16)).
Fixpoint hex_letters (n : nat) (x : Z) : string :=
  match n with O => "" | S k => String (hex_letter x) (hex_letters k (x / 16)) end.
#[local] Instance demo_sha256 : Sha256 := fun s => hex_letters 8 (roll s).

Lemma ticks_grow m n : (m < n)%nat -> String.compare (clock m) (clock n) = Lt.
Proof.
  revert n. induction m as [|m IH]; intros [|n] Hlt; try lia; [done|].
  simpl. apply IH. lia.
Qed.

Lemma hex_letter_no_colon x : Ascii.eqb (hex_letter x) ":"%char = false.
Proof.
  apply Ascii.eqb_neq. unfold hex_letter. intros Heq.
  apply (f_equal Ascii.N_of_ascii) in Heq. pose proof (Z.mod_pos_bound x 16 ltac:(lia)).
  rewrite Ascii.N_ascii_embedding in Heq by lia. vm_compute (Ascii.N_of_ascii _) in Heq. lia.
Qed.

Lemma demo_hex s : contains_char ":"%char (sha256_hex s) = false.
Proof.
  unfold sha256_hex, demo_sha256. generalize (roll s). generalize 8%nat.
  induction n as [|n IH]; intros x; simpl; [done|].
  rewrite IH, orb_false_r. apply hex_letter_no_colon.
Qed.

Definition fresh : World := mkWorld empty_ledger 0 0.

(** A dispatch on [fresh]'s environment with the demo policy. *)
Definition run (ws actor ct : string) (input : Json) (key : option string) (w : World) :
    result ActantError CommandOutcome * World :=
  dispatch alpha_demo_policy ws actor ct input key w.
Fixpoint run_all (cs : list (string * string * string * Json)) (w : World) : World :=
  match cs with
  | [] => w
  | (ws, actor, ct, input) :: cs' => run_all cs' (run ws actor ct input None w).2
  end.

Definition open_session : string * string * string * Json :=
  ("ws", "alice", "create_session", jobj [("session_id", JString "s")]).
Definition ask_shell : string * string * string * Json :=
  ("ws", "bot", "request_tool_call",
    jobj [("session_id", JString "s"); ("tool_name", JString "shell.run");
          ("arguments", jobj [("command", JString "ls")])]).
Definition two_commands : World := run_all [open_session; ask_shell] fresh.

(** ** Witnesses *)


Lemma chain_world_fresh : chain_world fresh.
Proof.
  split; [by intros k r|intros ws s; vm_compute; exact I|by intros k r n].
Qed.

Lemma dispatch_keeps_chains_witness :
  chain_world two_commands /\ length (chronicle "ws" "s" (ledger two_commands)) = 2%nat.
Proof.
  split; [|vm_compute; reflexivity].
  apply (dispatch_keeps_chains ticks_grow), (dispatch_keeps_chains ticks_grow), chain_world_fresh.
Defined.

Lemma chain_tamper_evident_witness :
  let a := chronicle "ws" "s" (ledger two_commands) in
  chain_ok genesis a /\
  (List.map ev_payload_hash a = List.map ev_payload_hash a \/
   collision_in a a \/ genesis_preimage_in a \/ genesis_preimage_in a).
Proof.
  intros a. assert (Ha : chain_ok genesis a) by (vm_compute; auto).
  split; [exact Ha|]. exact (chain_tamper_evident demo_hex a a Ha Ha eq_refl).
Defined.

(** The first command with key [k]. *)
Definition first_k : result ActantError CommandOutcome * World :=
  run "ws" "alice" "create_session" (jobj [("session_id", JString "s")]) (Some "k") fresh.
Definition first_outcome : CommandOutcome :=
  mkCommandOutcome "cmd_0" (Some "evt_1") (jobj [("session_id", JString "s")]).

Lemma first_k_ok : first_k = (Ok first_outcome, first_k.2).
Proof. vm_compute. reflexivity. Qed.


Definition read_file : Json :=
  jobj [("session_id", JString "s"); ("tool_name", JString "file.read")].
Definition after_read : World :=
  (run "ws" "bot" "request_tool_call" read_file None (run_all [open_session] fresh)).2.

Lemma dispatch_approval_gate_witness :
  exists t', tool_calls (ledger after_read) !! "tc_4" = Some t' /\ tc_status t' = TApproved /\
    clear_request alpha_demo_policy "bot" read_file.
Proof.
  destruct (tool_calls (ledger after_read) !! "tc_4") as [t'|] eqn:Hrow;
    [|vm_compute in Hrow; discriminate].
  assert (Happr : tc_status t' = TApproved).
  { enough (Heq : tc_status <$> tool_calls (ledger after_read) !! "tc_4" = Some TApproved)
      by (rewrite Hrow in Heq; by injection Heq).
    vm_compute. reflexivity. }
  exists t'. split; [done|]. split; [done|].
  destruct (dispatch_approval_gate alpha_demo_policy "ws" "bot" "request_tool_call" read_file None
              (run_all [open_session] fresh) "tc_4" t' Hrow Happr) as [(t & Ht & _)|[Hct|[_ Hc]]].
  - vm_compute in Ht. discriminate.
  - discriminate.
  - exact Hc.
Defined.

Definition open_outcome : CommandOutcome :=
  mkCommandOutcome "cmd_0" (Some "evt_1") (jobj [("session_id", JString "s")]).

Lemma dispatch_records_witness :
  exists c r, commands (ledger (run_all [open_session] fresh)) !! "cmd_0" = Some c /\
    cmd_command_type c = "create_session" /\
    events (ledger (run_all [open_session] fresh)) !! "evt_1" = Some r /\
    ev_command_id (er_event r) = Some "cmd_0".
Proof.
  assert (Hrun : run "ws" "alice" "create_session" (jobj [("session_id", JString "s")]) None fresh =
                 (Ok open_outcome, run_all [open_session] fresh)) by (vm_compute; reflexivity).
  destruct (dispatch_records _ _ _ _ _ _ _ _ Hrun) as [(c & Hc & _ & _ & Hct & _) He].
  destruct (He "evt_1" eq_refl) as (r & Hr & Hcmd). eauto 10.
Defined.

(** ** What the handlers do not check *)

Definition tc_input : Json := jobj [("tool_call_id", JString "tc_4")].
Definition status_of (id : string) (w : World) : option ToolCallStatus :=
  tc_status <$> tool_calls (ledger w) !! id.
Definition approval_of (id : string) (w : World) : option ApprovalStatus :=
  apr_status <$> approvals (ledger w) !! id.

(** A denied call can be approved afterwards; its approval request stays denied. *)
Example denied_call_reapproved :
  let w := run_all [("ws", "alice", "deny_tool_call", tc_input)] two_commands in
  let w' := run_all [("ws", "bot", "approve_tool_call", tc_input)] w in
  status_of "tc_4" w = Some TDenied /\ approval_of "appr_5" w = Some ADenied /\
  status_of "tc_4" w' = Some TApproved /\ approval_of "appr_5" w' = Some ADenied.
Proof. vm_compute. auto. Qed.

(** A result can be recorded for a call that was denied. *)
Example denied_call_completed :
  let w := run_all [("ws", "alice", "deny_tool_call", tc_input);
                    ("ws", "bot", "record_tool_result", tc_input)] two_commands in
  status_of "tc_4" w = Some TCompleted.
Proof. vm_compute. auto. Qed.

(** An actor of another workspace approves the call. *)
Example cross_workspace_approval :
  let w := run_all [("other", "mallory", "approve_tool_call", tc_input)] two_commands in
  status_of "tc_4" w = Some TApproved /\ approval_of "appr_5" w = Some AApproved.
Proof. vm_compute. auto. Qed.

(** The agent that asked approves its own request. *)
Example self_approval :
  status_of "tc_4" (run_all [("ws", "bot", "approve_tool_call", tc_input)] two_commands) = Some TApproved.
Proof. vm_compute. auto. Qed.

(** Approving a call that does not exist succeeds and is recorded. *)
Example approve_unknown_call :
  let r := run "ws" "alice" "approve_tool_call" (jobj [("tool_call_id", JString "nope")]) None fresh in
  r.1 = Ok (mkCommandOutcome "cmd_0" (Some "evt_1")
              (jobj [("approved", JString "nope"); ("scope", JString "once")])) /\
  (fun x => (ev_event_type (er_event x), ev_tool_call_id (er_event x))) <$> events (ledger r.2) !! "evt_1"
    = Some ("tool_call_approved", Some "nope").
Proof. vm_compute. auto. Qed.

(** A rejected memory candidate can be approved, and approved twice. *)
Example rejected_memory_approved_twice :
  let c := jobj [("memory_candidate_id", JString "memc_1")] in
  let w := run_all [("ws", "alice", "propose_memory", jobj [("text", JString "x")]);
                    ("ws", "alice", "reject_memory", c); ("ws", "alice", "approve_memory", c);
                    ("ws", "alice", "approve_memory", c)] fresh in
  size (memories (ledger w)) = 2%nat /\
  cr_status <$> candidates (ledger w) !! "memc_1" = Some MApproved.
Proof. vm_compute. auto. Qed.

(** The chain does not cover an event's metadata: with another actor and another
    event type the same hashes still form a chain. *)
Definition forge (e : AgentEvent) : AgentEvent :=
  mkAgentEvent (ev_id e) (ev_workspace_id e) "mallory" (ev_session_id e) (ev_parent_event_id e)
    "tool_call_approved" (ev_causality_kind e) (ev_sensitivity e) (ev_authority_scope_id e)
    (ev_payload_inline e) (ev_payload_ref e) (ev_payload_hash e) (ev_event_hash e) (ev_created_at e)
    (ev_model_call_id e) (ev_tool_call_id e) (ev_workflow_run_id e) (ev_memory_id e)
    (ev_artifact_id e) (ev_command_id e) (ev_effect_id e).
Example metadata_not_chained :
  let a := chronicle "ws" "s" (ledger two_commands) in
  chain_ok genesis a /\ chain_ok genesis (List.map forge a) /\ List.map forge a <> a.
Proof. vm_compute. repeat split; discriminate. Qed.
