(* ===== verification/Prog.v ===== *)
(** * Programs of atomic statements

    Code that talks to the database is a sequence of SQL statements, each atomic,
    with local computation in between.  [prog] is the tree of such a program;
    [exec] runs it alone, [istep] lets the scheduler pick any thread for the next
    statement. *)

From S2P Require Import Prelude.

Section prog.
Context {S E : Type}.

Inductive prog (A : Type) : Type :=
| Done (r : result E A)
| Stmt {B : Type} (s : M S E B) (k : B -> prog A).
#[global] Arguments Done {A} r.
#[global] Arguments Stmt {A B} s k.

#[global] Instance prog_ret : MRet prog := fun A a => Done (Ok a).
#[global] Instance prog_bind : MBind prog := fun A B f =>
  fix go p := match p with
              | Done (Ok a) => f a
              | Done (Err e) => Done (Err e)
              | Stmt s k => Stmt s (fun b => go (k b))
              end.

(** One statement. *)
Definition stmt {A} (s : M S E A) : prog A := Stmt s (fun a => Done (Ok a)).
Definition raise {A} (e : E) : prog A := Done (Err e).

Fixpoint exec {A} (p : prog A) : M S E A :=
  match p with
  | Done r => fun st => (r, st)
  | Stmt s k => fun st => match s st with
                          | (Ok b, st') => exec (k b) st'
                          | (Err e, st') => (Err e, st')
                          end
  end.

Lemma exec_bind {A B} (p : prog A) (f : A -> prog B) st :
  exec (p ≫= f) st = (exec p ≫= fun a => exec (f a)) st.
Proof.
  revert st. induction p as [[a|e]|C s k IH]; intros st; try done.
  unfold mbind, M_bind in *. simpl. destruct (s st) as [[b|e] st']; [|done]. apply IH.
Qed.

(** Running [p] and handing over what it answers, errors included: [p.await] as a
    value.  [ignore] is [let _ = p.await]. *)
Fixpoint attempt {A} (p : prog A) : prog (result E A) :=
  match p with
  | Done r => Done (Ok r)
  | Stmt s k => Stmt (fun st => let '(r, st') := s st in (Ok r, st'))
                  (fun r => match r with Ok b => attempt (k b) | Err e => Done (Ok (Err e)) end)
  end.
Definition ignore {A} (p : prog A) : prog unit := attempt p;; mret tt.

Lemma exec_attempt {A} (p : prog A) st : exec (attempt p) st = (Ok (exec p st).1, (exec p st).2).
Proof.
  revert st. induction p as [r|B s k IH]; intros st; [done|].
  simpl. destruct (s st) as [[b|e] st']; [apply IH|done].
Qed.

Lemma exec_ignore {A} (p : prog A) st : exec (ignore p) st = (Ok tt, (exec p st).2).
Proof. unfold ignore. rewrite exec_bind. unfold mbind, M_bind. by rewrite exec_attempt. Qed.

(** A property of the state that every statement of the program keeps. *)
Fixpoint keeps {A} (P : S -> Prop) (p : prog A) : Prop :=
  match p with
  | Done _ => True
  | Stmt s k => forall st, P st -> P (s st).2 /\ forall b, (s st).1 = Ok b -> keeps P (k b)
  end.

(** The next statement of a thread. *)
Definition pstep {A} (p : prog A) (st : S) : option (prog A * S) :=
  match p with
  | Done _ => None
  | Stmt s k => Some match s st with
                     | (Ok b, st') => (k b, st')
                     | (Err e, st') => (Done (Err e), st')
                     end
  end.

(** A pool of threads over a shared state. *)
Inductive istep {A} : list (prog A) * S -> list (prog A) * S -> Prop :=
| istep_thread pool st i p p' st' :
    pool !! i = Some p -> pstep p st = Some (p', st') ->
    istep (pool, st) (<[i := p']> pool, st').

(** Running a given schedule; a thread that is done does nothing. *)
Fixpoint run_schedule {A} (sched : list nat) (pool : list (prog A)) (st : S) : list (prog A) * S :=
  match sched with
  | [] => (pool, st)
  | i :: sched' =>
      match pool !! i with
      | Some p => match pstep p st with
                  | Some (p', st') => run_schedule sched' (<[i := p']> pool) st'
                  | None => run_schedule sched' pool st
                  end
      | None => run_schedule sched' pool st
      end
  end.

Lemma run_schedule_steps {A} sched (pool : list (prog A)) st :
  rtc istep (pool, st) (run_schedule sched pool st).
Proof.
  revert pool st. induction sched as [|i sched IH]; intros pool st; simpl; [done|].
  destruct (pool !! i) as [p|] eqn:Hi; [|done].
  destruct (pstep p st) as [[p' st']|] eqn:Hp; [|done].
  eapply rtc_l; [by eapply istep_thread|apply IH].
Qed.

(** What a program answered, if it has. *)
Definition answer {A} (p : prog A) : option (result E A) :=
  match p with Done r => Some r | Stmt _ _ => None end.
End prog.
Arguments prog S E A : clear implicits.
