(* ===== verification/Race.v ===== *)
(** * Who wins a race

    A pool of threads over a shared state, in which a thread may win a key: it
    answers so only if one of its statements took the key while its place was
    free.  If a key that is taken stays taken, no two threads win clashing keys,
    under any interleaving. *)

From S2P Require Import Prelude Prog.
#[local] Open Scope list_scope.

Section race.
Context {S E A K : Type}.
(** What every statement does to the state. *)
Context (stays : S -> S -> Prop) `{!PreOrder stays}.
Context (taken : K -> S -> Prop).
Context (taken_stays : forall k s s', stays s s' -> taken k s -> taken k s').
(** The place of a key is busy; keys that clash have one place. *)
Context (busy : K -> S -> Prop).
Context (busy_stays : forall k s s', stays s s' -> busy k s -> busy k s').
Context (clash : K -> K -> Prop) `{!Symmetric clash}.
Context (clash_busy : forall k k' s, clash k k' -> taken k s -> busy k' s).
(** The key an answer claims to have won. *)
Context (won : result E A -> option K).

Definition lost (e : E) : Prop := won (Err e) = None.

(** A statement that wins nothing. *)
Definition quiet {B} (m : M S E B) : Prop :=
  forall st, stays st (m st).2 /\ forall e, (m st).1 = Err e -> lost e.

Lemma quiet_ret {B} (b : B) : quiet (mret b).
Proof. intros st. split; [reflexivity|by intros e]. Qed.
Lemma quiet_throw {B} e : lost e -> quiet (throw e : M S E B).
Proof. intros He st. split; [reflexivity|]. by intros e' [= <-]. Qed.
Lemma quiet_bind {B C} (m : M S E B) (f : B -> M S E C) :
  quiet m -> (forall b, quiet (f b)) -> quiet (m ≫= f).
Proof.
  intros Hm Hf st. unfold mbind, M_bind. destruct (Hm st) as [H1 H2].
  destruct (m st) as [[b|e] s'] eqn:Heq; simpl in *.
  - destruct (Hf b s') as [H3 H4]. split; [by etrans|done].
  - split; [done|]. intros e' [= <-]. by apply H2.
Qed.

(** A program that wins nothing. *)
Fixpoint silent {B} (p : prog S E B) : Prop :=
  match p with
  | Done (Ok _) => True
  | Done (Err e) => lost e
  | Stmt s k => quiet s /\ forall b, silent (k b)
  end.

(** [o] is the key the thread has won so far. *)
Fixpoint plays (o : option K) (p : prog S E A) : Prop :=
  match p with
  | Done r => forall k, won r = Some k -> o = Some k
  | Stmt s k => forall st, stays st (s st).2 /\ (forall e, (s st).1 = Err e -> lost e) /\
      ((forall b, (s st).1 = Ok b -> plays o (k b)) \/
       (o = None /\ exists key, ~ busy key st /\ taken key (s st).2 /\
          forall b, (s st).1 = Ok b -> plays (Some key) (k b)))
  end.

Lemma silent_bind {B C} (p : prog S E B) (f : B -> prog S E C) :
  silent p -> (forall b, silent (f b)) -> silent (p ≫= f).
Proof.
  intros Hp Hf. induction p as [[b|e]|D s k IH]; simpl in *; [apply Hf|done|].
  destruct Hp as [Hs Hk]. split; [done|]. intros d. by apply IH.
Qed.
Lemma silent_attempt {B} (p : prog S E B) : silent p -> silent (attempt p).
Proof.
  induction p as [r|D s k IH]; simpl; [done|]. intros [Hs Hk]. split.
  - intros st. destruct (Hs st) as [H1 _]. destruct (s st) as [r st']. by split.
  - intros [d|e]; [by apply IH|done].
Qed.
Lemma silent_stmt {B} (m : M S E B) : quiet m -> silent (stmt m).
Proof. intros Hm. by split. Qed.

Lemma plays_bind {B} o (p : prog S E B) (f : B -> prog S E A) :
  silent p -> (forall b, plays o (f b)) -> plays o (p ≫= f).
Proof.
  intros Hp Hf. induction p as [[b|e]|D s k IH]; simpl in *; [apply Hf| |].
  - intros key. unfold lost in Hp. by rewrite Hp.
  - destruct Hp as [Hs Hk]. intros st. destruct (Hs st) as [H1 H2]. split; [done|]. split; [done|].
    left. intros d _. by apply IH.
Qed.
Lemma plays_ret o a : won (Ok a) = None -> plays o (mret a).
Proof. simpl. by intros -> k. Qed.
Lemma plays_raise o e : lost e -> plays o (raise e).
Proof. unfold lost. simpl. by intros -> k. Qed.

Record wins_ok (s0 : S) (os : list (option K)) (pool : list (prog S E A)) (st : S) : Prop := {
  wo_from : stays s0 st;
  wo_plays : Forall2 plays os pool;
  wo_taken : forall i k, os !! i = Some (Some k) -> ~ busy k s0 /\ taken k st;
  wo_once : forall i j k k', os !! i = Some (Some k) -> os !! j = Some (Some k') -> clash k k' -> i = j;
}.

Lemma wins_step s0 os pool st pool' st' :
  wins_ok s0 os pool st -> istep (pool, st) (pool', st') ->
  exists os', wins_ok s0 os' pool' st'.
Proof.
  intros [Hf Hp Ht Ho] Hstep. inversion Hstep as [? ? i p p' ? Hi Hps]; subst.
  destruct (Forall2_lookup_r _ _ _ _ _ Hp Hi) as (o & Hoi & Hpl).
  destruct p as [r|D s k]; [done|]. simpl in Hps.
  destruct (Hpl st) as (Hstay & Hlost & Hcase).
  assert (Hst' : st' = (s st).2) by (destruct (s st) as [[b|e] s1]; by injection Hps).
  rewrite <- Hst' in *.
  assert (Hmono : forall i k, os !! i = Some (Some k) -> ~ busy k s0 /\ taken k st').
  { intros i' k' Hi'. destruct (Ht _ _ Hi') as [? ?]. split; [done|]. by eapply taken_stays. }
  assert (Hnext : forall o', (forall b, (s st).1 = Ok b -> plays o' (k b)) -> plays o' p').
  { intros o' Hb. destruct (s st) as [[b|e] s1]; injection Hps as <- _; [by apply Hb|].
    simpl. intros k'. pose proof (Hlost e eq_refl) as Hl. unfold lost in Hl. by rewrite Hl. }
  destruct Hcase as [Hsame|(-> & key & Hfree & Htk & Hwin)].
  - exists os. split; [by etrans| |done|done].
    rewrite <- (list_insert_id os i o Hoi). by apply Forall2_insert, Hnext.
  - exists (<[i := Some key]> os).
    assert (Hnew : forall j k', os !! j = Some (Some k') -> clash k' key -> False).
    { intros j k' Hj Hc. apply Hfree. eapply clash_busy; [exact Hc|]. by apply (Ht _ _ Hj). }
    split.
    + by etrans.
    + by apply Forall2_insert, Hnext.
    + intros j k' Hj. apply list_lookup_insert_Some in Hj as [(_ & [= <-] & _)|[_ Hj]]; [|by eapply Hmono].
      split; [|done]. intros H0. apply Hfree. by eapply busy_stays.
    + intros j1 j2 k1 k2 Hj1 Hj2 Hc.
      apply list_lookup_insert_Some in Hj1 as [(<- & [= <-] & _)|[? Hj1]];
        apply list_lookup_insert_Some in Hj2 as [(<- & E2 & _)|[? Hj2]];
        try (injection E2 as E2; subst); try done; try (exfalso; by eapply Hnew); eauto.
Qed.

(** In every state reached by any interleaving of threads that have won nothing
    yet: nothing taken was lost, a won key is taken and its place was free at the
    start, and no two threads have won clashing keys. *)
Lemma race_once s0 (pool0 pool : list (prog S E A)) st :
  Forall (plays None) pool0 -> rtc istep (pool0, s0) (pool, st) ->
  stays s0 st /\
  (forall i p r k, pool !! i = Some p -> answer p = Some r -> won r = Some k -> ~ busy k s0 /\ taken k st) /\
  (forall i j p p' r r' k k', pool !! i = Some p -> pool !! j = Some p' ->
     answer p = Some r -> answer p' = Some r' -> won r = Some k -> won r' = Some k' -> clash k k' -> i = j).
Proof.
  intros Hpl Hr.
  assert (H0 : wins_ok s0 (replicate (length pool0) None) pool0 s0).
  { split; [reflexivity| | |].
    - clear Hr. induction Hpl; simpl; constructor; auto.
    - intros i k Hi. by apply lookup_replicate in Hi as [Hi _].
    - intros i j k k' Hi. by apply lookup_replicate in Hi as [Hi _]. }
  assert (Hn : exists os, wins_ok s0 os pool st).
  { revert H0. generalize (replicate (length pool0) (@None K)). clear Hpl.
    remember (pool0, s0) as a eqn:Ha. remember (pool, st) as z eqn:Hz.
    assert (Hany : forall s1, a = (pool0, s1) -> forall os, wins_ok s0 os pool0 s1 -> exists os, wins_ok s0 os pool st).
    { clear Ha. revert pool0. induction Hr as [|a [pool1 w1] z Hs Hr IH]; intros pool0 s1 -> os Hw.
      - injection Hz as -> ->. eauto.
      - destruct (wins_step _ _ _ _ _ _ Hw Hs) as [os' Hw']. by eapply IH. }
    by apply Hany. }
  destruct Hn as [os [Hf Hp Ht Ho]].
  assert (Hown : forall i p r k, pool !! i = Some p -> answer p = Some r -> won r = Some k -> os !! i = Some (Some k)).
  { intros i p r k Hi Ha Hw. destruct (Forall2_lookup_r _ _ _ _ _ Hp Hi) as (o & -> & Hpo).
    destruct p as [r'|]; [|done]. injection Ha as ->. f_equal. by apply Hpo. }
  split; [done|]. split; [eauto|].
  intros i j p p' r r' k k' Hi Hj Hai Haj Hwi Hwj Hc. eapply Ho; eauto.
Qed.
End race.

(** [quiet] for a statement written with the monad's operators. *)
Create HintDb race.
#[global] Hint Resolve quiet_ret quiet_bind quiet_throw silent_stmt : race.
