(* ===== verification/Effects.v ===== *)
(** * The effect queue ([actant-effects/src/lib.rs])

    Effects wait in a queue; workers claim them under a lease, start, complete or
    fail them, and a reaper takes expired leases back.  Every operation is a
    program of SQL statements over the tables [effect], [effect_claim],
    [effect_result] and [worker*]; statements are atomic, operations are not.
    The order in which the database returns rows that a query does not order is a
    parameter. *)

From S2P Require Import Prelude Str Json Core Storage Chain Prog.
#[local] Open Scope string_scope.
#[local] Open Scope list_scope.
#[local] Open Scope Z_scope.

Record Lease := mkLease {
  ls_effect_id : string; ls_worker_id : string; ls_effect_type : string;
  ls_input_inline : option string; ls_expires_at : string
}.

(** ** Tables *)

Record ClaimRow := mkClaimRow {
  cl_id : string; cl_effect_id : string; cl_worker_id : string; cl_claimed_at : string;
  cl_expires_at : string; cl_released_at : option string
}.
Record ResultRow := mkResultRow {
  rs_id : string; rs_effect_id : string; rs_attempt_number : Z; rs_succeeded : bool;
  rs_output_ref : string; rs_output_hash : string; rs_started_at : string; rs_finished_at : string
}.
Record CapabilityRow := mkCapabilityRow { cp_id : string; cp_worker_id : string; cp_effect_type : string }.
Record HeartbeatRow := mkHeartbeatRow {
  hb_id : string; hb_worker_id : string; hb_at : string; hb_in_flight_count : Z
}.

Record Queue := mkQueue {
  effects : gmap string Effect;
  claims : gmap string ClaimRow;
  results : gmap string ResultRow;
  workers : gmap string Worker;
  capabilities : gmap string CapabilityRow;
  heartbeats : gmap string HeartbeatRow;
  known_workspaces : gset string;     (* ids in the ledger's tables *)
  known_actors : gset string;
  known_commands : gset string;
}.
Definition set_effects x q := mkQueue x (claims q) (results q) (workers q) (capabilities q)
  (heartbeats q) (known_workspaces q) (known_actors q) (known_commands q).
Definition set_claims x q := mkQueue (effects q) x (results q) (workers q) (capabilities q)
  (heartbeats q) (known_workspaces q) (known_actors q) (known_commands q).
Definition set_results x q := mkQueue (effects q) (claims q) x (workers q) (capabilities q)
  (heartbeats q) (known_workspaces q) (known_actors q) (known_commands q).
Definition set_workers x q := mkQueue (effects q) (claims q) (results q) x (capabilities q)
  (heartbeats q) (known_workspaces q) (known_actors q) (known_commands q).
Definition set_capabilities x q := mkQueue (effects q) (claims q) (results q) (workers q) x
  (heartbeats q) (known_workspaces q) (known_actors q) (known_commands q).
Definition set_heartbeats x q := mkQueue (effects q) (claims q) (results q) (workers q)
  (capabilities q) x (known_workspaces q) (known_actors q) (known_commands q).

(** The database with the positions in the environment's streams. *)
Record QWorld := mkQWorld { queue : Queue; qseq : nat; qtime : nat }.
Definition with_queue (f : Queue -> Queue) (w : QWorld) : QWorld :=
  mkQWorld (f (queue w)) (qseq w) (qtime w).

(** The order in which unordered rows come back. *)
Class RowOrder := {
  rows : forall {A}, gmap string A -> list A;
  rows_perm : forall {A} (m : gmap string A), Permutation (rows m) (map snd (map_to_list m));
}.
Lemma rows_lookup `{RowOrder} {A} (m : gmap string A) a : a ∈ rows m <-> exists k, m !! k = Some a.
Proof.
  rewrite rows_perm, list_elem_of_fmap. split.
  - intros ([k x] & -> & Hin). exists k. by apply elem_of_map_to_list.
  - intros [k Hk]. exists (k, a). split; [done|]. by apply elem_of_map_to_list.
Qed.
Lemma rows_In `{RowOrder} {A} (m : gmap string A) a : In a (rows m) <-> exists k, m !! k = Some a.
Proof. rewrite <- list_elem_of_In. apply rows_lookup. Qed.
(** The stamp [seconds] later than the one read at a position. *)
Class LeaseClock := { clock_plus : Z -> nat -> string }.

#[local] Notation Q A := (prog QWorld ActantError A).
Definition LEASE_DURATION_SECONDS : Z := 60.

Section queue.
Context `{SerdeJson} `{Sha256} `{Env} `{RowOrder} `{LeaseClock}.

(** Reading the clock and drawing an id do not touch the database. *)
Definition now : Q string :=
  stmt (fun w => (Ok (clock (qtime w)), mkQWorld (queue w) (qseq w) (S (qtime w)))).
Definition expires_at (seconds : Z) : Q string :=
  stmt (fun w => (Ok (clock_plus seconds (qtime w)), mkQWorld (queue w) (qseq w) (S (qtime w)))).
Definition fresh_id (prefix : string) : Q string :=
  stmt (fun w => (Ok (prefix +:+ "_" +:+ ulid (qseq w)), mkQWorld (queue w) (S (qseq w)) (qtime w))).

(** A statement that reads. *)
Definition select {A} (f : Queue -> A) : Q A := stmt (fun w => (Ok (f (queue w)), w)).
(** A statement that writes or fails without effect. *)
Definition write (f : Queue -> result ActantError Queue) : Q unit :=
  stmt (fun w => match f (queue w) with
                 | Ok q => (Ok tt, mkQWorld q (qseq w) (qtime w))
                 | Err e => (Err e, w)
                 end).

(** ** Row updates *)

Definition claim_row (worker now : string) (e : Effect) : Effect :=
  mkEffect (eff_id e) (eff_workspace_id e) (eff_command_id e) (eff_requested_by_actor_id e)
    (eff_effect_type e) EClaimed (eff_required_permission e) (eff_risk_level e)
    (eff_idempotency_key e) (eff_input_inline e) (eff_input_hash e) (Some worker)
    (eff_attempt_count e + 1) (eff_max_attempts e) (eff_next_attempt_at e) (Some now)
    (eff_finished_at e) (eff_result_ref e) (eff_result_hash e) (eff_error e) (eff_created_at e).
Definition start_row (e : Effect) : Effect :=
  mkEffect (eff_id e) (eff_workspace_id e) (eff_command_id e) (eff_requested_by_actor_id e)
    (eff_effect_type e) ERunning (eff_required_permission e) (eff_risk_level e)
    (eff_idempotency_key e) (eff_input_inline e) (eff_input_hash e) (eff_assigned_worker_id e)
    (eff_attempt_count e) (eff_max_attempts e) (eff_next_attempt_at e) (eff_started_at e)
    (eff_finished_at e) (eff_result_ref e) (eff_result_hash e) (eff_error e) (eff_created_at e).
Definition complete_row (canon hash now : string) (e : Effect) : Effect :=
  mkEffect (eff_id e) (eff_workspace_id e) (eff_command_id e) (eff_requested_by_actor_id e)
    (eff_effect_type e) ESucceeded (eff_required_permission e) (eff_risk_level e)
    (eff_idempotency_key e) (eff_input_inline e) (eff_input_hash e) (eff_assigned_worker_id e)
    (eff_attempt_count e) (eff_max_attempts e) (eff_next_attempt_at e) (eff_started_at e)
    (Some now) (Some canon) (Some hash) (eff_error e) (eff_created_at e).
Definition fail_row (err now : string) (e : Effect) : Effect :=
  mkEffect (eff_id e) (eff_workspace_id e) (eff_command_id e) (eff_requested_by_actor_id e)
    (eff_effect_type e) EFailed (eff_required_permission e) (eff_risk_level e)
    (eff_idempotency_key e) (eff_input_inline e) (eff_input_hash e) (eff_assigned_worker_id e)
    (eff_attempt_count e) (eff_max_attempts e) (eff_next_attempt_at e) (eff_started_at e)
    (Some now) (eff_result_ref e) (eff_result_hash e) (Some err) (eff_created_at e).
Definition release_row (now : string) (e : Effect) : Effect :=
  mkEffect (eff_id e) (eff_workspace_id e) (eff_command_id e) (eff_requested_by_actor_id e)
    (eff_effect_type e) EPending (eff_required_permission e) (eff_risk_level e)
    (eff_idempotency_key e) (eff_input_inline e) (eff_input_hash e) None
    (eff_attempt_count e) (eff_max_attempts e) (Some now) (eff_started_at e)
    (eff_finished_at e) (eff_result_ref e) (eff_result_hash e) (eff_error e) (eff_created_at e).

(** [UPDATE effect SET .. WHERE id=?]. *)
Definition update_effect (f : Effect -> Effect) (id : string) : Q unit :=
  write (fun q => Ok (set_effects (alter f id (effects q)) q)).

(** ** Operations *)

Definition enqueue (workspace_id command_id requested_by effect_type : string) (input : Json)
    (risk : RiskLevel) : Q string :=
  let input_canon := canonical_json input in
  let input_hash := sha256_hex input_canon in
  id ← fresh_id "eff";
  created ← now;
  write (fun q =>
    if has (effects q) id then Err (unique_failed "effect.id")
    else if bool_decide (workspace_id ∈ known_workspaces q) && bool_decide (command_id ∈ known_commands q)
            && bool_decide (requested_by ∈ known_actors q)
    then Ok (set_effects (<[id := mkEffect id workspace_id command_id requested_by effect_type
                              EPending None risk None (Some input_canon) input_hash None 0 3 None
                              None None None None None created]> (effects q)) q)
    else Err fk_failed);;
  mret id.

(** [INSERT OR REPLACE]: a registered worker's row is overwritten. *)
Definition insert_worker (w : Worker) : Q unit :=
  write (fun q =>
    if bool_decide (wk_workspace_id w ∈ known_workspaces q) && bool_decide (wk_actor_id w ∈ known_actors q)
    then Ok (set_workers (<[wk_id w := mkWorker (wk_id w) (wk_workspace_id w) (wk_actor_id w)
               (wk_name w) (wk_host w) (wk_version w) (wk_status w) (wk_last_heartbeat_at w)
               (wk_created_at w) None]> (workers q)) q)
    else Err fk_failed).

(** [INSERT OR IGNORE]: a conflict on the id or on the pair is ignored. *)
Definition insert_capability (worker_id cap : string) : Q unit :=
  write (fun q =>
    let id := worker_id +:+ "-" +:+ cap in
    if has (capabilities q) id
       || existsb (fun c => String.eqb (cp_worker_id c) worker_id && String.eqb (cp_effect_type c) cap)
            (rows (capabilities q))
    then Ok q
    else if has (workers q) worker_id
    then Ok (set_capabilities (<[id := mkCapabilityRow id worker_id cap]> (capabilities q)) q)
    else Err fk_failed).

Fixpoint insert_capabilities (worker_id : string) (caps : list string) : Q unit :=
  match caps with
  | [] => mret tt
  | cap :: caps' => insert_capability worker_id cap;; insert_capabilities worker_id caps'
  end.

Definition register_worker (w : Worker) (caps : list string) : Q unit :=
  insert_worker w;; insert_capabilities (wk_id w) caps.

Definition heartbeat (worker_id : string) (in_flight_count : Z) : Q unit :=
  at_ ← now;
  write (fun q => Ok (set_workers (alter (fun w =>
    mkWorker (wk_id w) (wk_workspace_id w) (wk_actor_id w) (wk_name w) (wk_host w) (wk_version w)
      (wk_status w) (Some at_) (wk_created_at w) (wk_disabled_at w)) worker_id (workers q)) q));;
  write (fun q =>
    let id := "hb_" +:+ worker_id +:+ "_" +:+ at_ in
    if has (heartbeats q) id then Err (unique_failed "worker_heartbeat.id")
    else if has (workers q) worker_id
    then Ok (set_heartbeats (<[id := mkHeartbeatRow id worker_id at_ in_flight_count]> (heartbeats q)) q)
    else Err fk_failed).

(** [WHERE workspace_id = ? AND status = 'pending' AND effect_type IN (..)]. *)
Definition claimable (workspace_id : string) (types : list string) (e : Effect) : bool :=
  String.eqb (eff_workspace_id e) workspace_id && bool_decide (eff_status e = EPending)
  && bool_decide (eff_effect_type e ∈ types).

(** [ORDER BY created_at ASC LIMIT 1]: the first row with the least stamp. *)
Fixpoint oldest (es : list Effect) : option Effect :=
  match es with
  | [] => None
  | e :: es' => match oldest es' with
                | Some o => Some (if cmp_le (cmp:=String.compare) (eff_created_at e) (eff_created_at o) then e else o)
                | None => Some e
                end
  end.

Definition next_effect (workspace_id : string) (types : list string) (q : Queue) : option Effect :=
  oldest (List.filter (claimable workspace_id types) (rows (effects q))).

(** The claim: [UPDATE .. WHERE id = ? AND status = 'pending'], and
    [rows_affected()]. *)
Definition try_claim (worker_id eid started : string) : M QWorld ActantError bool :=
  fun w =>
    let q := queue w in
    match effects q !! eid with
    | Some e =>
        if bool_decide (eff_status e = EPending) then
          if has (workers q) worker_id
          then (Ok true, with_queue (set_effects (<[eid := claim_row worker_id started e]> (effects q))) w)
          else (Err fk_failed, w)
        else (Ok false, w)
    | None => (Ok false, w)
    end.

(** Whether a claim row can be inserted: its keys are free, its parents exist. *)
Definition insert_claim (c : ClaimRow) (q : Queue) : result ActantError Queue :=
  if has (claims q) (cl_id c) then Err (unique_failed "effect_claim.id")
  else if existsb (fun c' => String.eqb (cl_effect_id c') (cl_effect_id c)
                     && String.eqb (cl_worker_id c') (cl_worker_id c)
                     && String.eqb (cl_claimed_at c') (cl_claimed_at c)) (rows (claims q))
  then Err (unique_failed "effect_claim.effect_id, effect_claim.worker_id, effect_claim.claimed_at")
  else if has (effects q) (cl_effect_id c) && has (workers q) (cl_worker_id c)
  then Ok (set_claims (<[cl_id c := c]> (claims q)) q)
  else Err fk_failed.

Definition claim_one (worker_id workspace_id : string) (supported_types : list string) :
    Q (option Lease) :=
  match supported_types with
  | [] => mret None
  | _ =>
      row ← select (next_effect workspace_id supported_types);
      match row with
      | None => mret None
      | Some e =>
          expires ← expires_at LEASE_DURATION_SECONDS;
          claim_id ← fresh_id "clm";
          started ← now;
          won ← stmt (try_claim worker_id (eff_id e) started);
          if negb won then mret None
          else
            claimed ← now;
            write (insert_claim (mkClaimRow claim_id (eff_id e) worker_id claimed expires None));;
            mret (Some (mkLease (eff_id e) worker_id (eff_effect_type e) (eff_input_inline e) expires))
      end
  end.

Definition start (effect_id : string) : Q unit := update_effect start_row effect_id.

Definition complete (effect_id : string) (output : Json) : Q unit :=
  let canon := canonical_json output in
  let hash := sha256_hex canon in
  at_ ← now;
  update_effect (complete_row canon hash at_) effect_id;;
  id ← fresh_id "er";
  write (fun q =>
    match effects q !! effect_id with
    | None => Err (Storage "NOT NULL constraint failed: effect_result.attempt_number")
    | Some e =>
        if has (results q) id then Err (unique_failed "effect_result.id")
        else Ok (set_results (<[id := mkResultRow id effect_id (eff_attempt_count e) true canon hash
                                       at_ at_]> (results q)) q)
    end).

Definition fail (effect_id err : string) : Q unit :=
  at_ ← now; update_effect (fail_row err at_) effect_id.

(** The columns of an expired claim the reaper reads. *)
Record Expired := mkExpired {
  ex_effect_id : string; ex_claim_id : string; ex_attempts : Z; ex_max_attempts : Z
}.

Definition in_flight (e : Effect) : bool :=
  bool_decide (eff_status e = EClaimed) || bool_decide (eff_status e = ERunning).

(** [FROM effect_claim c JOIN effect e ON e.id = c.effect_id WHERE ..]. *)
Definition expired_claim (at_ : string) (q : Queue) (c : ClaimRow) : option Expired :=
  e ← effects q !! cl_effect_id c;
  if cmp_lt (cmp:=String.compare) (cl_expires_at c) at_ && bool_decide (cl_released_at c = None)
     && in_flight e
  then Some (mkExpired (cl_effect_id c) (cl_id c) (eff_attempt_count e) (eff_max_attempts e))
  else None.
Definition expired_claims (at_ : string) (q : Queue) : list Expired :=
  omap (expired_claim at_ q) (rows (claims q)).

Definition release_claim (at_ claim_id : string) : Q unit :=
  write (fun q => Ok (set_claims (alter (fun c =>
    mkClaimRow (cl_id c) (cl_effect_id c) (cl_worker_id c) (cl_claimed_at c) (cl_expires_at c)
      (Some at_)) claim_id (claims q)) q)).

Definition retry_row (at_ : string) (x : Expired) : Effect -> Effect :=
  if ex_attempts x <? ex_max_attempts x then release_row at_ else fail_row "exceeded max_attempts" at_.

Fixpoint reap_loop (at_ : string) (expired : list Expired) (reclaimed : nat) : Q nat :=
  match expired with
  | [] => mret reclaimed
  | x :: expired' =>
      release_claim at_ (ex_claim_id x);;
      update_effect (retry_row at_ x) (ex_effect_id x);;
      reap_loop at_ expired' (S reclaimed)
  end.

Definition reap_expired : Q nat :=
  at_ ← now;
  expired ← select (expired_claims at_);
  reap_loop at_ expired 0.
End queue.

(** ** The event table, scanned in some order

    A scan gives every row of the table once; rows kept under their own id are
    told apart by it. *)

Definition row_id (r : EventRow) : string := ev_id (er_event r).

Section rows.
Context `{RowOrder}.

Lemma keyed_rows_nodup (f : EventRow -> bool) l :
  keyed l -> List.NoDup (List.map row_id (List.filter f (rows (events l)))).
Proof.
  intros Hk.
  assert (Hall : List.NoDup (List.map row_id (map snd (map_to_list (events l))))).
  { assert (He : List.map row_id (map snd (map_to_list (events l))) = List.map fst (map_to_list (events l))).
    { rewrite List.map_map. apply List.map_ext_in. intros [k r] Hin. simpl. apply Hk.
      by apply elem_of_map_to_list, list_elem_of_In. }
    rewrite He. apply NoDup_ListNoDup, NoDup_fst_map_to_list. }
  assert (Hr : List.NoDup (List.map row_id (rows (events l)))).
  { eapply Permutation_NoDup; [|exact Hall]. apply Permutation_map. symmetry. apply rows_perm. }
  clear Hall. induction (rows (events l)) as [|r rs IH]; simpl; [constructor|].
  apply List.NoDup_cons_iff in Hr as [Hni Hr]. destruct (f r); [|by apply IH]. simpl. constructor; [|by apply IH].
  intros Hin. apply Hni. apply List.in_map_iff in Hin as (y & <- & Hy). apply List.filter_In in Hy as [Hy _].
  by apply List.in_map.
Qed.

Lemma keyed_row l r : keyed l -> In r (rows (events l)) -> events l !! row_id r = Some r.
Proof.
  intros Hk [k Hkx]%rows_In. unfold row_id. by rewrite (Hk _ _ Hkx).
Qed.

Lemma row_unique l x y :
  keyed l -> In x (rows (events l)) -> In y (rows (events l)) -> row_id x = row_id y -> x = y.
Proof. intros Hk Hx%keyed_row Hy%keyed_row He; [|done..]. congruence. Qed.
End rows.
