(* ===== verification/EffectsRace.v ===== *)
(** * Claiming under concurrency

    Any number of threads run queue operations at once, interleaved statement by
    statement.  As long as no reaper runs, two leases never name the same effect,
    because the claim is one conditional [UPDATE]; with reapers in the pool the
    read-then-write loop of [reap_expired] can take a live lease away. *)

From S2P Require Import Prelude Str Json Core Policy Storage Prog Race Effects.
#[local] Open Scope string_scope.
#[local] Open Scope list_scope.
#[local] Open Scope Z_scope.

#[local] Notation Q A := (prog QWorld ActantError A).

(** The operations a worker or the engine can have in flight, the reaper apart. *)
Inductive Call :=
| CEnqueue (workspace_id command_id requested_by effect_type : string) (input : Json) (risk : RiskLevel)
| CRegister (w : Worker) (caps : list string)
| CHeartbeat (worker_id : string) (in_flight_count : Z)
| CClaim (worker_id workspace_id : string) (supported_types : list string)
| CStart (effect_id : string)
| CComplete (effect_id : string) (output : Json)
| CFail (effect_id err : string).

(** An effect that is not pending stays so, with its worker. *)
Definition held (id worker : string) (q : Queue) : Prop :=
  exists e, effects q !! id = Some e /\ eff_status e <> EPending /\
    eff_assigned_worker_id e = Some worker.
Definition not_pending (id : string) (q : Queue) : Prop :=
  exists e, effects q !! id = Some e /\ eff_status e <> EPending.

Definition stays (w w' : QWorld) : Prop :=
  forall id, (not_pending id (queue w) -> not_pending id (queue w')) /\
    forall worker, held id worker (queue w) -> held id worker (queue w').
#[global] Instance stays_preorder : PreOrder stays.
Proof.
  split; [intros w id; split; auto|].
  intros a b c H1 H2 id. destruct (H1 id), (H2 id). split; [auto|]. intros worker. auto.
Qed.

Lemma stays_same w w' : effects (queue w') = effects (queue w) -> stays w w'.
Proof. intros Heq id. unfold not_pending, held. rewrite Heq. auto. Qed.

Lemma stays_alter w w' f k :
  (forall e, eff_status (f e) <> EPending /\ eff_assigned_worker_id (f e) = eff_assigned_worker_id e) ->
  effects (queue w') = alter f k (effects (queue w)) -> stays w w'.
Proof.
  intros Hf Heq id. unfold not_pending, held. rewrite Heq.
  destruct (decide (k = id)) as [<-|Hne]; [|rewrite lookup_alter_ne by done; auto].
  rewrite lookup_alter_eq.
  split; [intros (e & -> & _)|intros worker (e & -> & _ & Ha)]; exists (f e);
    destruct (Hf e) as [Hs Hw]; repeat split; auto; congruence.
Qed.

Lemma stays_insert w w' id (row : Effect) :
  has (effects (queue w)) id = false ->
  effects (queue w') = <[id := row]> (effects (queue w)) -> stays w w'.
Proof.
  intros Hh%has_false Heq id'. unfold not_pending, held. rewrite Heq.
  destruct (decide (id = id')) as [<-|Hne]; [|rewrite lookup_insert_ne by done; auto].
  rewrite Hh. split; [by intros (e & He & _)|by intros worker (e & He & _)].
Qed.

(** What a thread may win: an effect, for a worker.  The effect is the place. *)
Definition effect_held (k : string * string) (w : QWorld) : Prop := held k.1 k.2 (queue w).
Definition effect_busy (k : string * string) (w : QWorld) : Prop := not_pending k.1 (queue w).
Definition same_effect (k k' : string * string) : Prop := k.1 = k'.1.
#[local] Instance same_effect_sym : Symmetric same_effect.
Proof. intros k k' Hk. by symmetry. Qed.
Definition leased (r : result ActantError (option Lease)) : option (string * string) :=
  match r with Ok (Some l) => Some (ls_effect_id l, ls_worker_id l) | _ => None end.

#[local] Notation plays := (Race.plays stays effect_held effect_busy leased).
#[local] Arguments Race.plays : simpl never.

Lemma effect_clash k k' w : same_effect k k' -> effect_held k w -> effect_busy k' w.
Proof.
  unfold same_effect, effect_held, effect_busy, held, not_pending. intros <- (e & He & Hs & _). eauto.
Qed.

Lemma plays_step {B} o (s : M QWorld ActantError B) k :
  (forall w, stays w (s w).2) -> (forall b, plays o (k b)) -> plays o (Stmt s k).
Proof. intros Hs Hk w. split; [done|]. split; [done|]. left. intros b _. apply Hk. Qed.

Section race.
Context `{SerdeJson} `{Sha256} `{Env} `{RowOrder} `{LeaseClock}.

Definition code (c : Call) : Q (option Lease) :=
  match c with
  | CEnqueue ws cmd by_ t input risk => enqueue ws cmd by_ t input risk;; mret None
  | CRegister w caps => register_worker w caps;; mret None
  | CHeartbeat w n => heartbeat w n;; mret None
  | CClaim w ws types => claim_one w ws types
  | CStart e => start e;; mret None
  | CComplete e out => complete e out;; mret None
  | CFail e err => fail e err;; mret None
  end.

(** A statement that leaves the effect table alone. *)
Ltac quiet_stmt :=
  apply plays_step; [intros ?; apply stays_same; simpl; repeat case_match; simplify_eq/=; reflexivity|intros ?].
Ltac alter_stmt :=
  apply plays_step; [intros ?; eapply stays_alter; [|reflexivity]; by intros ?|intros ?].

Lemma plays_capabilities w caps o p :
  plays o p -> plays o (insert_capabilities w caps ≫= fun _ => p).
Proof.
  intros Hp. induction caps as [|c caps IH]; [exact Hp|].
  simpl. unfold insert_capability, write, stmt. simpl. quiet_stmt. exact IH.
Qed.

Lemma plays_claim worker e (k : bool -> Q (option Lease)) started :
  plays (Some (e, worker)) (k true) -> plays None (k false) ->
  plays None (Stmt (try_claim worker e started) k).
Proof.
  intros Ht Hf w. unfold try_claim. simpl.
  destruct (effects (queue w) !! e) as [row|] eqn:Hrow;
    [|split; [reflexivity|split; [done|left; intros b [= <-]; exact Hf]]].
  destruct (bool_decide (eff_status row = EPending)) eqn:Hp;
    [|split; [reflexivity|split; [done|left; intros b [= <-]; exact Hf]]].
  destruct (has (workers (queue w)) worker); [|split; [reflexivity|split; [done|left; done]]].
  apply bool_decide_eq_true in Hp. simpl. split; [|split; [done|]].
  - intros id. unfold not_pending, held. simpl. destruct (decide (e = id)) as [<-|Hne].
    + rewrite lookup_insert_eq, Hrow.
      split; [intros (x & [= <-] & Hx)|intros wk (x & [= <-] & Hx & _)]; by rewrite Hp in Hx.
    + rewrite lookup_insert_ne by done. auto.
  - right. split; [done|]. exists (e, worker). unfold effect_busy, effect_held. simpl. split; [|split].
    + intros (x & Hx & Hn). congruence.
    + exists (claim_row worker started row). simpl. by rewrite lookup_insert_eq.
    + intros b [= <-]. exact Ht.
Qed.

Lemma plays_code c : plays None (code c).
Proof.
  destruct c; simpl.
  - unfold enqueue, fresh_id, now, write, stmt. simpl. quiet_stmt. quiet_stmt.
    apply plays_step; [intros w|by intros _ l].
    destruct (has (effects (queue w)) b) eqn:Hh; [reflexivity|].
    case_match; simplify_eq/=; [|reflexivity].
    case_match; simplify_eq/=. by eapply stays_insert.
  - unfold register_worker, insert_worker, write, stmt. simpl. quiet_stmt.
    apply plays_capabilities. by intros l.
  - unfold heartbeat, now, write, stmt. simpl. do 3 quiet_stmt. by intros l.
  - unfold claim_one. destruct supported_types as [|t ts]; [by intros l|].
    unfold select, expires_at, fresh_id, now, stmt. simpl. quiet_stmt.
    destruct b as [e|]; [|by intros l]. simpl. do 3 quiet_stmt.
    apply plays_claim; simpl; [|by intros l]. unfold write, insert_claim, stmt. simpl. quiet_stmt. quiet_stmt.
    by intros l [= <-].
  - unfold start, update_effect, write, stmt. simpl. alter_stmt. by intros l.
  - unfold complete, update_effect, now, fresh_id, write, stmt. simpl.
    quiet_stmt. alter_stmt. quiet_stmt. quiet_stmt. by intros l.
  - unfold fail, update_effect, now, write, stmt. simpl. quiet_stmt. alter_stmt. by intros l.
Qed.

(** C7: However the statements of concurrent queue operations interleave, as
    long as no reaper runs, no two leases are ever granted on the same effect; a
    lease is only granted on an effect that was not already taken at the start,
    and its worker stays the effect's assigned worker. *)
Theorem claims_exclusive (calls : list Call) (w w' : QWorld) (pool' : list (Q (option Lease)))
  (Hrun : rtc istep (map code calls, w) (pool', w')) :
  (forall i j p p' l l', pool' !! i = Some p -> pool' !! j = Some p' ->
     answer p = Some (Ok (Some l)) -> answer p' = Some (Ok (Some l')) ->
     ls_effect_id l = ls_effect_id l' -> i = j) /\
  (forall i p l, pool' !! i = Some p -> answer p = Some (Ok (Some l)) ->
     ~ not_pending (ls_effect_id l) (queue w) /\
     held (ls_effect_id l) (ls_worker_id l) (queue w')).
Proof.
  destruct (race_once stays effect_held (fun k w w' Hs => proj2 (Hs k.1) k.2) effect_busy
    (fun k w w' Hs => proj1 (Hs k.1)) same_effect effect_clash leased w (map code calls) pool' w')
    as (_ & Hwon & Hone); [|done|].
  { clear Hrun. induction calls as [|c calls IH]; simpl; [constructor|].
    constructor; [apply plays_code|exact IH]. }
  split.
  - intros i j p p' l l' Hi Hj Ha Ha' Heq. by eapply Hone.
  - intros i p l Hi Ha. by eapply (Hwon i p _ (ls_effect_id l, ls_worker_id l)).
Qed.
End race.
