(* ===== verification/EffectsInv.v ===== *)
(** * The effect queue, one operation at a time

    With operations that do not interleave: attempts never exceed their bound, a
    pending effect can still be attempted and is under no open lease, and an
    effect is under at most one open lease; what a claim and a reaping do. *)

From S2P Require Import Prelude Str Json Core Storage Prog Effects EffectsRace.
#[local] Open Scope string_scope.
#[local] Open Scope list_scope.
#[local] Open Scope Z_scope.

(** No lease on effect [k] is open. *)
Definition no_open (k : string) (q : Queue) : Prop :=
  forall c r, claims q !! c = Some r -> cl_effect_id r = k -> cl_released_at r <> None.

Record queue_ok (q : Queue) : Prop := {
  qo_keyed : forall k e, effects q !! k = Some e -> eff_id e = k;
  qo_ckeyed : forall k c, claims q !! k = Some c -> cl_id c = k;
  qo_attempts : forall k e, effects q !! k = Some e -> 0 <= eff_attempt_count e <= eff_max_attempts e;
  qo_pending : forall k e, effects q !! k = Some e -> eff_status e = EPending ->
    eff_attempt_count e < eff_max_attempts e /\ no_open k q;
  qo_open : forall c1 c2 r1 r2, claims q !! c1 = Some r1 -> claims q !! c2 = Some r2 ->
    cl_released_at r1 = None -> cl_released_at r2 = None -> cl_effect_id r1 = cl_effect_id r2 -> c1 = c2;
  qo_parent : forall c r, claims q !! c = Some r -> is_Some (effects q !! cl_effect_id r);
}.

Lemma queue_ok_same q q' :
  effects q' = effects q -> claims q' = claims q -> queue_ok q -> queue_ok q'.
Proof.
  intros He Hc [K CK A P O R]. split; unfold no_open; rewrite ?He, ?Hc; eauto.
Qed.

Lemma queue_ok_alter q k f :
  (forall e, eff_id (f e) = eff_id e /\ eff_attempt_count (f e) = eff_attempt_count e /\
     eff_max_attempts (f e) = eff_max_attempts e /\ eff_status (f e) <> EPending) ->
  queue_ok q -> queue_ok (set_effects (alter f k (effects q)) q).
Proof.
  intros Hf [K CK A P O R].
  assert (Hl : forall k' e, alter f k (effects q) !! k' = Some e ->
            effects q !! k' = Some e \/ exists e0, effects q !! k' = Some e0 /\ e = f e0).
  { intros k' e. rewrite lookup_alter_Some. intros [(Hk & e0 & He0 & Heq)|[_ He]]; eauto. }
  split; simpl; [| done | | | done |].
  - intros k' e [?|(e0 & He & ->)]%Hl; [auto|]. destruct (Hf e0) as (-> & _). auto.
  - intros k' e [?|(e0 & He & ->)]%Hl; [by eapply A|]. destruct (Hf e0) as (_ & -> & -> & _). by eapply A.
  - intros k' e [?|(e0 & He & ->)]%Hl Hp; [by apply (P k' e)|]. by destruct (Hf e0) as (_ & _ & _ & ?).
  - intros c r Hc. apply lookup_alter_is_Some. eauto.
Qed.

Lemma queue_ok_insert_effect q id e :
  effects q !! id = None -> eff_id e = id -> 0 = eff_attempt_count e -> 0 < eff_max_attempts e ->
  queue_ok q -> queue_ok (set_effects (<[id := e]> (effects q)) q).
Proof.
  intros Hn Hid Ha Hm [K CK A P O R]. split; simpl; [| done | | | done |].
  - intros k x. rewrite lookup_insert_Some. intros [[<- <-]|[_ ?]]; auto.
  - intros k x. rewrite lookup_insert_Some. intros [[<- <-]|[_ ?]]; [lia|by eapply A].
  - intros k x. rewrite lookup_insert_Some. intros [[<- <-]|[_ ?]] Hp; [|by apply (P k x)].
    split; [lia|]. intros c r Hc Hk. destruct (R _ _ Hc) as [y Hy]. simpl in Hc. congruence.
  - intros c r Hc. rewrite lookup_insert_is_Some. destruct (decide (id = cl_effect_id r)); [by left|].
    right. eauto.
Qed.

(** A claim that wins. *)
Lemma queue_ok_claim q k e worker started :
  queue_ok q -> effects q !! k = Some e -> eff_status e = EPending ->
  let q' := set_effects (<[k := claim_row worker started e]> (effects q)) q in
  queue_ok q' /\ no_open k q'.
Proof.
  intros [K CK A P O R] He Hp q'. pose proof (A _ _ He). destruct (P _ _ He Hp) as [Hlt Hno].
  split; [|exact Hno]. split; simpl; [| done | | | done |].
  - intros k' x. rewrite lookup_insert_Some. intros [[<- <-]|[_ ?]]; simpl; auto.
  - intros k' x. rewrite lookup_insert_Some. intros [[<- <-]|[_ ?]]; simpl; [lia|by eapply A].
  - intros k' x. rewrite lookup_insert_Some. intros [[<- <-]|[_ ?]] Hpx; [done|by apply (P k' x)].
  - intros c r Hc. rewrite lookup_insert_is_Some. destruct (decide (k = cl_effect_id r)); [by left|].
    right. eauto.
Qed.

Lemma queue_ok_insert_claim q c :
  claims q !! cl_id c = None -> (exists e, effects q !! cl_effect_id c = Some e /\ eff_status e <> EPending) ->
  no_open (cl_effect_id c) q -> queue_ok q -> queue_ok (set_claims (<[cl_id c := c]> (claims q)) q).
Proof.
  intros Hn (e & He & Hst) Hno [K CK A P O R]. split; simpl; [done| |done| | |].
  - intros k x. rewrite lookup_insert_Some. intros [[<- <-]|[_ ?]]; auto.
  - intros k x Hx Hp. destruct (P k x Hx Hp) as [Hlt Hnk]. split; [done|].
    intros c' r. simpl. rewrite lookup_insert_Some. intros [[<- <-]|[_ Hc]] Hk; [congruence|].
    by eapply Hnk.
  - intros c1 c2 r1 r2. rewrite !lookup_insert_Some.
    intros [[<- <-]|[? H1']] [[<- <-]|[? H2']] Ho1 Ho2 Heq; [done|exfalso|exfalso|by eauto].
    + by eapply Hno.
    + by eapply Hno.
  - intros k r. rewrite lookup_insert_Some. intros [[<- <-]|[_ ?]]; [by rewrite He|eauto].
Qed.

(** ** Reaping one lease *)

(** An entry of the reaper's list that still describes the tables. *)
Definition live (q : Queue) (x : Expired) : Prop :=
  exists r e, claims q !! ex_claim_id x = Some r /\ cl_effect_id r = ex_effect_id x /\
    cl_released_at r = None /\ effects q !! ex_effect_id x = Some e /\
    eff_attempt_count e = ex_attempts x /\ eff_max_attempts e = ex_max_attempts x.

Definition released (at_ : string) (c : ClaimRow) : ClaimRow :=
  mkClaimRow (cl_id c) (cl_effect_id c) (cl_worker_id c) (cl_claimed_at c) (cl_expires_at c) (Some at_).

(** The two updates of one round of the loop. *)
Definition reap_one (at_ : string) (q : Queue) (x : Expired) : Queue :=
  let q1 := set_claims (alter (released at_) (ex_claim_id x) (claims q)) q in
  set_effects (alter (retry_row at_ x) (ex_effect_id x) (effects q1)) q1.

Lemma retry_row_fields at_ x e :
  eff_id (retry_row at_ x e) = eff_id e /\
  eff_attempt_count (retry_row at_ x e) = eff_attempt_count e /\
  eff_max_attempts (retry_row at_ x e) = eff_max_attempts e /\
  (eff_status (retry_row at_ x e) = EPending -> ex_attempts x < ex_max_attempts x).
Proof. unfold retry_row. destruct (Z.ltb_spec (ex_attempts x) (ex_max_attempts x)); by repeat split. Qed.

Lemma reap_one_claims at_ q x c r :
  claims (reap_one at_ q x) !! c = Some r ->
  exists r0, claims q !! c = Some r0 /\ cl_id r = cl_id r0 /\ cl_effect_id r = cl_effect_id r0 /\
    (cl_released_at r = None -> r = r0 /\ c <> ex_claim_id x).
Proof.
  simpl. rewrite lookup_alter_Some. intros [(-> & r0 & Hr0 & ->)|[Hne Hr]].
  - exists r0. by repeat split.
  - exists r. repeat split; auto.
Qed.

Lemma reap_one_no_open at_ q x :
  queue_ok q -> live q x -> no_open (ex_effect_id x) (reap_one at_ q x).
Proof.
  intros [K CK A P O R] (r & e & Hr & Hre & Hro & _) c r' Hc Hk Hn.
  apply reap_one_claims in Hc as (r0 & Hr0 & _ & He & Hx). destruct (Hx Hn) as [-> Hne].
  apply Hne. eapply O; eauto. congruence.
Qed.

Lemma queue_ok_reap_one at_ q x : queue_ok q -> live q x -> queue_ok (reap_one at_ q x).
Proof.
  intros Hok Hlive. pose proof (reap_one_no_open at_ _ _ Hok Hlive) as Hno.
  destruct Hok as [K CK A P O R], Hlive as (r & e & Hr & Hre & Hro & He & Ha & Hm).
  assert (Hl : forall k e', effects (reap_one at_ q x) !! k = Some e' ->
     (k = ex_effect_id x /\ e' = retry_row at_ x e) \/ (k <> ex_effect_id x /\ effects q !! k = Some e')).
  { intros k e'. simpl. rewrite lookup_alter_Some. intros [(Hk & e0 & He0 & Heq)|[Hk He']]; [left|right; auto].
    split; congruence. }
  pose proof (retry_row_fields at_ x e) as (Fi & Fa & Fm & Fp). split.
  - intros k e' [[-> ->]|[_ ?]]%Hl; [rewrite Fi|]; auto.
  - intros c r' (r0 & Hr0 & -> & _)%reap_one_claims. auto.
  - intros k e' [[-> ->]|[_ ?]]%Hl; [rewrite Fa, Fm|]; by eapply A.
  - intros k e' [[-> ->]|[Hk He']]%Hl Hp; [split; [rewrite Fa, Fm; specialize (Fp Hp); lia|done]|].
    destruct (P _ _ He' Hp) as [Hlt Hnk]. split; [done|].
    intros c r' (r0 & Hr0 & _ & -> & Hx)%reap_one_claims Heq Hn. destruct (Hx Hn) as [-> _]. by eapply Hnk.
  - intros c1 c2 r1 r2 (s1 & H1' & _ & E1 & X1)%reap_one_claims (s2 & H2' & _ & E2 & X2)%reap_one_claims N1 N2 Heq.
    destruct (X1 N1) as [-> _], (X2 N2) as [-> _]. by eapply O.
  - intros c r' (r0 & Hr0 & _ & -> & _)%reap_one_claims. simpl. apply lookup_alter_is_Some. eauto.
Qed.

Lemma live_reap_one at_ q x y :
  queue_ok q -> live q x -> live q y -> ex_claim_id y <> ex_claim_id x -> live (reap_one at_ q x) y.
Proof.
  intros Hok (r & e & Hr & Hre & Hro & He & _) (r' & e' & Hr' & Hre' & Hro' & He' & Hrest) Hne.
  assert (Hd : ex_effect_id y <> ex_effect_id x).
  { intros Heq. apply Hne. eapply (qo_open _ Hok); eauto. congruence. }
  exists r', e'. simpl. by rewrite !lookup_alter_ne by done.
Qed.

Section ops.
Context `{SerdeJson} `{Sha256} `{Env} `{RowOrder} `{LeaseClock}.

Lemma expired_claim_Some at_ q c x :
  expired_claim at_ q c = Some x <->
  exists e, effects q !! cl_effect_id c = Some e /\
    cmp_lt (cmp:=String.compare) (cl_expires_at c) at_ = true /\ cl_released_at c = None /\
    in_flight e = true /\
    x = mkExpired (cl_effect_id c) (cl_id c) (eff_attempt_count e) (eff_max_attempts e).
Proof.
  unfold expired_claim. split.
  - destruct (effects q !! cl_effect_id c) as [e|]; [|done]. simpl.
    destruct (_ && _ && _) eqn:Hb; [|done]. intros [= <-].
    apply andb_true_iff in Hb as [[Hlt Hr%bool_decide_eq_true]%andb_true_iff Hf]. by exists e.
  - intros (e & He & Hlt & Hr & Hf & ->). rewrite He. simpl.
    by rewrite Hlt, (bool_decide_eq_true_2 _ Hr), Hf.
Qed.

Lemma elem_expired_claims at_ q x :
  x ∈ expired_claims at_ q <-> exists k c, claims q !! k = Some c /\ expired_claim at_ q c = Some x.
Proof.
  unfold expired_claims. rewrite list_elem_of_omap. split.
  - intros (c & [k Hk]%rows_lookup & Hx). eauto.
  - intros (k & c & Hk & Hx). exists c. split; [|done]. apply rows_lookup. eauto.
Qed.

Lemma expired_live at_ q : queue_ok q -> Forall (live q) (expired_claims at_ q).
Proof.
  intros Hok. apply Forall_forall. intros x (k & c & Hk & Hx)%elem_expired_claims.
  apply expired_claim_Some in Hx as (e & He & _ & Hr & _ & ->).
  exists c, e. simpl. by rewrite (qo_ckeyed _ Hok _ _ Hk).
Qed.

Lemma expired_nodup at_ q : queue_ok q -> NoDup (map ex_claim_id (expired_claims at_ q)).
Proof.
  intros Hok. unfold expired_claims.
  assert (Hnd : NoDup (map cl_id (rows (claims q)))).
  { rewrite rows_perm, map_map.
    rewrite (map_ext_in _ fst); [apply NoDup_fst_map_to_list|].
    intros [k c] Hin%list_elem_of_In%elem_of_map_to_list. exact (qo_ckeyed _ Hok _ _ Hin). }
  revert Hnd. induction (rows (claims q)) as [|c cs IH]; intros Hnd; [constructor|].
  apply NoDup_cons in Hnd as [Hnin Hnd]. simpl.
  destruct (expired_claim at_ q c) as [x|] eqn:Hx; [|auto]. constructor; [|auto].
  apply expired_claim_Some in Hx as (e & _ & _ & _ & _ & ->). simpl.
  intros Hin. apply Hnin. apply list_elem_of_fmap in Hin as (y & -> & Hy).
  apply list_elem_of_omap in Hy as (c' & Hc' & Hy). apply list_elem_of_fmap. exists c'. split; [|done].
  by apply expired_claim_Some in Hy as (e' & _ & _ & _ & _ & ->).
Qed.

Lemma exec_reap_loop at_ xs n w :
  exec (reap_loop at_ xs n) w =
  (Ok (n + length xs)%nat, mkQWorld (fold_left (reap_one at_) xs (queue w)) (qseq w) (qtime w)).
Proof.
  revert n w. induction xs as [|x xs IH]; intros n w; simpl.
  - rewrite Nat.add_0_r. by destruct w.
  - rewrite IH. simpl. rewrite Nat.add_succ_r. done.
Qed.

Lemma queue_ok_reap_list at_ xs q :
  queue_ok q -> Forall (live q) xs -> NoDup (map ex_claim_id xs) ->
  queue_ok (fold_left (reap_one at_) xs q).
Proof.
  revert q. induction xs as [|x xs IH]; intros q Hok Hl Hnd; simpl; [done|].
  apply Forall_cons in Hl as [Hx Hxs]. apply NoDup_cons in Hnd as [Hnin Hnd].
  apply IH; [by apply queue_ok_reap_one| |done].
  apply Forall_forall. intros y Hy. apply live_reap_one; [done..| |].
  - rewrite Forall_forall in Hxs. auto.
  - intros Heq. apply Hnin. apply list_elem_of_fmap. by exists y.
Qed.

(** One operation after the other, the reaper included. *)
Inductive Op := OCall (c : Call) | OReap.
Definition run_op (op : Op) (w : QWorld) : QWorld :=
  match op with
  | OCall c => (exec (code c) w).2
  | OReap => (exec reap_expired w).2
  end.

Lemma next_effect_Some ws types q e :
  queue_ok q -> next_effect ws types q = Some e ->
  effects q !! eff_id e = Some e /\ claimable ws types e = true /\
  forall k e', effects q !! k = Some e' -> claimable ws types e' = true ->
    cmp_le (cmp:=String.compare) (eff_created_at e) (eff_created_at e') = true.
Proof.
  intros Hok. unfold next_effect.
  assert (Hold : forall es o, oldest es = Some o -> In o es /\
            forall x, In x es -> cmp_le (cmp:=String.compare) (eff_created_at o) (eff_created_at x) = true).
  { induction es as [|y es IH]; intros o Ho; [done|]. simpl in Ho.
    destruct (oldest es) as [o'|] eqn:Ho'.
    - destruct (IH o' eq_refl) as [Hin Hle]. destruct (cmp_le _ _) eqn:Hyo; injection Ho as <-.
      + split; [by left|]. intros x [<-|Hx]; [apply cmp_le_refl|].
        eapply cmp_le_trans; [exact Hyo|auto].
      + split; [by right|]. intros x [<-|Hx]; [|auto].
        destruct (cmp_le_total (cmp:=String.compare) (eff_created_at o') (eff_created_at y)); congruence.
    - injection Ho as <-. split; [by left|]. intros x [<-|Hx]; [apply cmp_le_refl|].
      destruct es; [done|]. simpl in Ho'. by destruct (oldest es). }
  intros [Hin Hle]%Hold. apply List.filter_In in Hin as [Hin Hcl].
  apply list_elem_of_In, rows_lookup in Hin as [k Hk]. pose proof (qo_keyed _ Hok _ _ Hk) as <-.
  repeat split; [done..|]. intros k' e' Hk' Hcl'. apply Hle, List.filter_In. split; [|done].
  apply list_elem_of_In, rows_lookup. eauto.
Qed.

Lemma next_effect_None ws types q :
  next_effect ws types q = None -> forall k e, effects q !! k = Some e -> claimable ws types e = false.
Proof.
  unfold next_effect. intros Hn k e He. destruct (claimable ws types e) eqn:Hc; [|done].
  assert (Hin : In e (List.filter (claimable ws types) (rows (effects q)))).
  { apply List.filter_In. split; [|done]. apply list_elem_of_In, rows_lookup. eauto. }
  destruct (List.filter _ _) as [|x xs]; [done|]. simpl in Hn. by destruct (oldest xs).
Qed.

(** Claiming, run alone. *)
Lemma exec_claim_one worker ws t ts w :
  exec (claim_one worker ws (t :: ts)) w =
  match next_effect ws (t :: ts) (queue w) with
  | None => (Ok None, w)
  | Some e =>
      let expires := clock_plus LEASE_DURATION_SECONDS (qtime w) in
      let w1 := mkQWorld (queue w) (S (qseq w)) (S (S (qtime w))) in
      match try_claim worker (eff_id e) (clock (S (qtime w))) w1 with
      | (Ok true, w2) =>
          match insert_claim (mkClaimRow ("clm_" +:+ ulid (qseq w)) (eff_id e) worker
                    (clock (qtime w2)) expires None) (queue w2) with
          | Ok q3 => (Ok (Some (mkLease (eff_id e) worker (eff_effect_type e) (eff_input_inline e) expires)),
                      mkQWorld q3 (qseq w2) (S (qtime w2)))
          | Err x => (Err x, mkQWorld (queue w2) (qseq w2) (S (qtime w2)))
          end
      | (Ok false, w2) => (Ok None, w2)
      | (Err x, w2) => (Err x, w2)
      end
  end.
Proof.
  simpl. destruct (next_effect ws (t :: ts) (queue w)) as [e|]; [|done]. simpl.
  destruct (try_claim _ _ _ _) as [[[]|x] w2]; try done. simpl.
  by destruct (insert_claim _ _).
Qed.

Lemma insert_claim_ok c q q' :
  insert_claim c q = Ok q' -> claims q !! cl_id c = None /\ q' = set_claims (<[cl_id c := c]> (claims q)) q.
Proof.
  unfold insert_claim. destruct (has (claims q) (cl_id c)) eqn:Hh; [done|].
  destruct (existsb _ _); [done|]. destruct (_ && _); [|done]. intros [= <-].
  split; [by apply has_false|done].
Qed.

Lemma queue_ok_claim_one worker ws types w :
  queue_ok (queue w) -> queue_ok (queue (exec (claim_one worker ws types) w).2).
Proof.
  intros Hok. destruct types as [|t ts]; [done|]. rewrite exec_claim_one.
  destruct (next_effect ws (t :: ts) (queue w)) as [e|] eqn:Hn; [|done]. cbv zeta.
  unfold try_claim. cbv zeta. simpl (queue (mkQWorld _ _ _)).
  destruct (effects (queue w) !! eff_id e) as [e'|] eqn:He; [|done].
  case_bool_decide as Hp; [|done]. destruct (has _ worker); [|done].
  destruct (queue_ok_claim (queue w) (eff_id e) e' worker (clock (S (qtime w))) Hok He Hp) as [Hok' Hno].
  simpl (queue (with_queue _ _)). set (q' := set_effects _ (queue w)) in *. simpl (qtime _).
  destruct (insert_claim _ q') as [q3|x] eqn:Hi; [|done]. simpl.
  apply insert_claim_ok in Hi as [Hfree ->]. apply queue_ok_insert_claim; [done| |done|done].
  exists (claim_row worker (clock (S (qtime w))) e'). simpl. by rewrite lookup_insert_eq.
Qed.

Lemma exec_reap w :
  let xs := expired_claims (clock (qtime w)) (queue w) in
  exec reap_expired w =
  (Ok (length xs), mkQWorld (fold_left (reap_one (clock (qtime w))) xs (queue w)) (qseq w) (S (qtime w))).
Proof. simpl. by rewrite exec_reap_loop. Qed.

Lemma queue_ok_capability w c st :
  queue_ok (queue st) -> queue_ok (queue (exec (insert_capability w c) st).2).
Proof.
  intros Hok. simpl. destruct (_ || _); simpl; [done|].
  destruct (has _ _); simpl; [by apply (queue_ok_same (queue st))|done].
Qed.

Lemma queue_ok_capabilities w caps st :
  queue_ok (queue st) -> queue_ok (queue (exec (insert_capabilities w caps) st).2).
Proof.
  revert st. induction caps as [|c caps IH]; intros st Hok; [done|].
  cbn [insert_capabilities]. rewrite exec_bind. unfold mbind, M_bind.
  pose proof (queue_ok_capability w c st Hok) as Hc.
  destruct (exec (insert_capability w c) st) as [[]]; simpl in *; auto.
Qed.

Lemma run_op_ok op w : queue_ok (queue w) -> queue_ok (queue (run_op op w)).
Proof.
  intros Hok. destruct op as [c|]; cbn [run_op].
  - destruct c; cbn [code].
    + simpl. destruct (has _ _) eqn:Hh; simpl; [done|]. destruct (_ && _); simpl; [|done].
      by apply queue_ok_insert_effect; [apply has_false| | | |].
    + rewrite exec_bind. unfold mbind, M_bind.
      enough (Hr : queue_ok (queue (exec (register_worker w0 caps) w).2)) by
        (destruct (exec (register_worker w0 caps) w) as [[]]; done).
      unfold register_worker. rewrite exec_bind. unfold mbind, M_bind. simpl.
      repeat case_match; simplify_eq/=; try done. apply queue_ok_capabilities. by apply (queue_ok_same (queue w)).
    + simpl. repeat case_match; simplify_eq/=; by apply (queue_ok_same (queue w)).
    + by apply queue_ok_claim_one.
    + simpl. by apply queue_ok_alter.
    + simpl. destruct (alter _ _ _ !! _); simpl; [|by apply queue_ok_alter].
      destruct (has _ _); simpl; [by apply queue_ok_alter|].
      eapply queue_ok_same; [..|by apply (queue_ok_alter (queue w) effect_id
        (complete_row (canonical_json output) (sha256_hex (canonical_json output)) (clock (qtime w))))];
        reflexivity.
    + simpl. by apply queue_ok_alter.
  - rewrite exec_reap. simpl. apply queue_ok_reap_list; [done|by apply expired_live|by apply expired_nodup].
Qed.

(** C8: Whatever operations run one after the other, the queue keeps its
    promises: an effect is attempted at most [max_attempts] times, a pending
    effect has an attempt left and no open lease, and no effect is ever under two
    open leases. *)
Theorem queue_invariant (ops : list Op) (w : QWorld) (Hok : queue_ok (queue w)) :
  queue_ok (queue (fold_left (fun w op => run_op op w) ops w)).
Proof.
  revert w Hok. induction ops as [|op ops IH]; intros w Hok; simpl; [done|]. by apply IH, run_op_ok.
Qed.

(** A claim run alone hands out the oldest pending effect of a supported
    type in the workspace, under a lease of its own: when there is none it
    answers nothing and changes nothing; otherwise, for a registered worker and a
    fresh claim row, it answers that effect, which is then claimed by the worker
    with one more attempt. *)
Theorem claim_one_spec (worker ws : string) (types : list string) (w : QWorld)
  (Hok : queue_ok (queue w)) (Hworker : has (workers (queue w)) worker = true)
  (Hid : claims (queue w) !! ("clm_" +:+ ulid (qseq w)) = None)
  (Hstamp : forall k c, claims (queue w) !! k = Some c -> cl_claimed_at c <> clock (S (S (qtime w)))) :
  match (exec (claim_one worker ws types) w).1 with
  | Ok (Some l) =>
      exists e, effects (queue w) !! ls_effect_id l = Some e /\ claimable ws types e = true /\
        (forall k e', effects (queue w) !! k = Some e' -> claimable ws types e' = true ->
           cmp_le (cmp:=String.compare) (eff_created_at e) (eff_created_at e') = true) /\
        l = mkLease (eff_id e) worker (eff_effect_type e) (eff_input_inline e)
              (clock_plus LEASE_DURATION_SECONDS (qtime w)) /\
        effects (queue (exec (claim_one worker ws types) w).2) =
          <[eff_id e := claim_row worker (clock (S (qtime w))) e]> (effects (queue w))
  | Ok None =>
      (forall k e, effects (queue w) !! k = Some e -> claimable ws types e = false) /\
      (exec (claim_one worker ws types) w).2 = w
  | Err _ => False
  end.
Proof.
  destruct types as [|t ts].
  { split; [|done]. intros k e _. unfold claimable.
    rewrite (bool_decide_eq_false_2 (_ ∈ [])) by apply not_elem_of_nil. apply andb_false_r. }
  rewrite exec_claim_one. destruct (next_effect ws (t :: ts) (queue w)) as [e|] eqn:Hn.
  - destruct (next_effect_Some _ _ _ _ Hok Hn) as (He & Hc & Hle). cbv zeta. unfold try_claim. simpl.
    assert (Hp : eff_status e = EPending).
    { unfold claimable in Hc. apply andb_true_iff in Hc as [[_ Hp]%andb_true_iff _].
      by apply bool_decide_eq_true in Hp. }
    rewrite He, (bool_decide_eq_true_2 _ Hp), Hworker. simpl. unfold insert_claim. simpl.
    rewrite (proj2 (has_false _ _) Hid).
    rewrite (proj1 (not_true_iff_false (existsb _ _))).
    2:{ intros (c & Hin & Hb)%existsb_exists.
        apply list_elem_of_In, rows_lookup in Hin as [k Hk]. apply (Hstamp k c Hk).
        apply andb_true_iff in Hb as [_ Hb]. by apply String.eqb_eq. }
    rewrite (proj2 (has_true (<[eff_id e := _]> _) (eff_id e))) by (rewrite lookup_insert_eq; eauto).
    rewrite Hworker. simpl. exists e.
    split; [exact He|]. split; [exact Hc|]. split; [exact Hle|]. split; reflexivity.
  - split; [by apply next_effect_None|done].
Qed.

(** ** What a reaping does *)

(** Effect [k] has an open lease that expired before [at_]. *)
Definition overdue (at_ : string) (q : Queue) (k : string) : bool :=
  existsb (fun x => String.eqb (ex_effect_id x) k) (expired_claims at_ q).

Lemma overdue_true at_ q k :
  overdue at_ q k = true <-> exists x, x ∈ expired_claims at_ q /\ ex_effect_id x = k.
Proof.
  unfold overdue. rewrite existsb_exists. split.
  - intros (x & Hin%list_elem_of_In & <-%String.eqb_eq). eauto.
  - intros (x & Hin%list_elem_of_In & <-). exists x. by rewrite String.eqb_refl.
Qed.

Lemma fold_reap_effects at_ xs q k :
  NoDup (map ex_effect_id xs) ->
  effects (fold_left (reap_one at_) xs q) !! k =
  match List.find (fun x => String.eqb (ex_effect_id x) k) xs with
  | Some x => retry_row at_ x <$> effects q !! k
  | None => effects q !! k
  end.
Proof.
  revert q. induction xs as [|x xs IH]; intros q Hnd; simpl; [done|].
  apply NoDup_cons in Hnd as [Hnin Hnd]. rewrite IH by done. simpl.
  destruct (String.eqb_spec (ex_effect_id x) k) as [<-|Hne].
  - rewrite lookup_alter_eq. destruct (List.find _ xs) as [y|] eqn:Hf; [|done].
    apply List.find_some in Hf as [Hin Heq%String.eqb_eq]. exfalso. apply Hnin.
    rewrite <- Heq. apply list_elem_of_In, in_map, Hin.
  - by rewrite lookup_alter_ne.
Qed.

Lemma fold_reap_open at_ xs q c r :
  claims (fold_left (reap_one at_) xs q) !! c = Some r -> cl_released_at r = None ->
  claims q !! c = Some r.
Proof.
  revert q. induction xs as [|x xs IH]; intros q; simpl; [done|].
  intros Hc Hn. apply IH in Hc; [|done]. apply reap_one_claims in Hc as (r0 & Hr0 & _ & _ & Hx).
  by destruct (Hx Hn) as [-> _].
Qed.

Lemma live_nodup_effects q xs :
  queue_ok q -> Forall (live q) xs -> NoDup (map ex_claim_id xs) -> NoDup (map ex_effect_id xs).
Proof.
  intros Hok. induction xs as [|x xs IH]; intros Hl Hnd; simpl; [constructor|].
  apply Forall_cons in Hl as [Hx Hxs]. apply NoDup_cons in Hnd as [Hnin Hnd].
  constructor; [|auto]. intros (y & Heq & Hy)%list_elem_of_fmap. apply Hnin, list_elem_of_fmap.
  exists y. split; [|done]. rewrite Forall_forall in Hxs.
  destruct Hx as (r & e & Hr & Hre & Hro & _), (Hxs _ Hy) as (r' & e' & Hr' & Hre' & Hro' & _).
  eapply (qo_open _ Hok); eauto. congruence.
Qed.

(** The row a reaping leaves. *)
Definition reaped (at_ : string) (q : Queue) (k : string) (e : Effect) : Effect :=
  if overdue at_ q k then
    if eff_attempt_count e <? eff_max_attempts e then release_row at_ e
    else fail_row "exceeded max_attempts" at_ e
  else e.

Lemma reaped_effects at_ q : queue_ok q -> forall k,
  effects (fold_left (reap_one at_) (expired_claims at_ q) q) !! k = reaped at_ q k <$> effects q !! k.
Proof.
  intros Hok k. pose proof (expired_live at_ _ Hok) as Hl. pose proof (expired_nodup at_ _ Hok) as Hnd.
  rewrite fold_reap_effects by (by eapply live_nodup_effects). unfold reaped, overdue.
  destruct (List.find _ _) as [x|] eqn:Hf.
  - apply List.find_some in Hf as [Hin Heq].
    rewrite (proj2 (existsb_exists _ _)) by eauto. apply String.eqb_eq in Heq as <-.
    rewrite Forall_forall in Hl. apply list_elem_of_In, Hl in Hin as (r & e & _ & _ & _ & -> & Ha & Hm).
    simpl. unfold retry_row. rewrite Ha, Hm. by destruct (_ <? _).
  - rewrite (proj1 (not_true_iff_false (existsb _ _))); [by destruct (effects q !! k)|].
    intros (x & Hin & Hx)%existsb_exists. by rewrite (List.find_none _ _ Hf x Hin) in Hx.
Qed.

(** A reaping takes back exactly the overdue effects, each once: an effect
    in flight whose open lease expired goes back to pending when it has an
    attempt left and fails otherwise, every other effect is untouched, the count
    is the number of effects taken back, and afterwards nothing is overdue. *)
Theorem reap_expired_spec (w : QWorld) (Hok : queue_ok (queue w)) :
  let at_ := clock (qtime w) in
  let w' := (exec reap_expired w).2 in
  (exec reap_expired w).1 =
    Ok (length (List.filter (overdue at_ (queue w)) (map fst (map_to_list (effects (queue w)))))) /\
  (forall k, effects (queue w') !! k = reaped at_ (queue w) k <$> effects (queue w) !! k) /\
  (forall k, overdue at_ (queue w') k = false).
Proof.
  intros at_ w'. subst w'. rewrite exec_reap. simpl. fold at_.
  pose proof (expired_live at_ _ Hok) as Hl. pose proof (expired_nodup at_ _ Hok) as Hnd.
  pose proof (live_nodup_effects _ _ Hok Hl Hnd) as Hne.
  pose proof (reaped_effects at_ (queue w) Hok) as Heff.
  split; [|split; [exact Heff|]].
  - f_equal. rewrite <- (length_map ex_effect_id). apply Permutation_length, NoDup_Permutation; [done| |].
    + apply NoDup_ListNoDup, List.NoDup_filter, NoDup_ListNoDup, NoDup_fst_map_to_list.
    + intros k. rewrite !list_elem_of_In, List.filter_In, <- !list_elem_of_In, overdue_true.
      rewrite list_elem_of_fmap. split; [intros (x & -> & Hx)|intros (_ & x & Hx & <-); eauto].
      split; [|eauto]. rewrite Forall_forall in Hl. destruct (Hl x Hx) as (r & e & _ & _ & _ & He & _).
      apply list_elem_of_fmap. exists (ex_effect_id x, e). split; [done|]. by apply elem_of_map_to_list.
  - intros k. apply not_true_iff_false. intros (x & Hx & _)%overdue_true.
    apply elem_expired_claims in Hx as (c & r & Hc & Hx).
    apply expired_claim_Some in Hx as (e' & He' & Hlt & Hr & Hfl & _).
    apply fold_reap_open in Hc; [|done]. rewrite Heff in He'.
    destruct (effects (queue w) !! cl_effect_id r) as [e|] eqn:He; [|done]. injection He' as <-.
    unfold reaped in Hfl. destruct (overdue at_ (queue w) (cl_effect_id r)) eqn:Ho; [by destruct (_ <? _)|].
    apply not_true_iff_false in Ho. apply Ho, overdue_true. simpl in Hfl.
    exists (mkExpired (cl_effect_id r) (cl_id r) (eff_attempt_count e) (eff_max_attempts e)).
    split; [|done]. apply elem_expired_claims. exists c, r. split; [done|].
    apply expired_claim_Some. eauto 10.
Qed.
End ops.
