(* ===== verification/EffectsDemo.v ===== *)
(** * Concrete runs of the effect queue

    Witnesses for the queue's theorems, and schedules that show where concurrent
    reapers break them. *)

From S2P Require Import Prelude Str Json Core Policy Storage EngineDemo Prog Effects EffectsRace EffectsInv.
#[local] Open Scope string_scope.
#[local] Open Scope list_scope.
#[local] Open Scope Z_scope.

#[local] Existing Instance demo_env.
#[local] Existing Instance the_serde.
#[local] Existing Instance demo_sha256.

#[local] Instance key_order : RowOrder :=
  Build_RowOrder (fun A m => map snd (map_to_list m)) (fun A m => Permutation_refl _).
(** A lease of 60 seconds lasts six ticks. *)
#[local] Instance tick_lease : LeaseClock :=
  Build_LeaseClock (fun s n => ticks (n + Z.to_nat (s / 10))%nat).

Definition a_worker (id : string) : Worker := mkWorker id "ws" "bot" id None None "online" None "" None.
Definition empty_queue : QWorld :=
  mkQWorld (mkQueue ∅ ∅ ∅ ∅ ∅ ∅ {["ws"]} {["bot"]} {["cmd"]}) 0 0.
Definition enqueue_one : Op := OCall (CEnqueue "ws" "cmd" "bot" "shell.run" JNull RLow).
Definition ops (l : list Op) (w : QWorld) : QWorld := fold_left (fun w op => run_op op w) l w.

(** One pending effect, three workers. *)
Definition one_pending : QWorld :=
  ops [OCall (CRegister (a_worker "w1") []); OCall (CRegister (a_worker "w2") []);
       OCall (CRegister (a_worker "w3") []); enqueue_one] empty_queue.
Definition claim_by (worker : string) : Call := CClaim worker "ws" ["shell.run"].

Lemma empty_queue_ok : queue_ok (queue empty_queue).
Proof. split; by intros. Qed.

Lemma queue_invariant_witness :
  queue_ok (queue (ops [OCall (claim_by "w1"); OCall (CStart "eff_0")] one_pending)) /\
  (eff_status <$> effects (queue (ops [OCall (claim_by "w1"); OCall (CStart "eff_0")] one_pending))
     !! "eff_0") = Some ERunning.
Proof.
  split; [|vm_compute; reflexivity].
  exact (queue_invariant _ _ (queue_invariant _ _ empty_queue_ok)).
Defined.

Lemma one_pending_ok : queue_ok (queue one_pending).
Proof. do 4 apply run_op_ok. exact empty_queue_ok. Qed.

Definition first_lease : Lease := mkLease "eff_0" "w1" "shell.run" (Some "null") (ticks 7).

Lemma claim_one_spec_witness :
  (exec (claim_one "w1" "ws" ["shell.run"]) one_pending).1 = Ok (Some first_lease) /\
  exists e, effects (queue one_pending) !! ls_effect_id first_lease = Some e /\ claimable "ws" ["shell.run"] e = true.
Proof.
  assert (Hr : (exec (claim_one "w1" "ws" ["shell.run"]) one_pending).1 = Ok (Some first_lease))
    by (vm_compute; reflexivity).
  assert (Hw : has (workers (queue one_pending)) "w1" = true) by (vm_compute; reflexivity).
  assert (Hc : claims (queue one_pending) = ∅) by (vm_compute; reflexivity).
  pose proof (claim_one_spec "w1" "ws" ["shell.run"] one_pending one_pending_ok Hw) as Hs.
  rewrite Hc, Hr in Hs. split; [done|].
  destruct Hs as (e & He & Hcl & _); [done|by intros k c|].
  exists e. split; [exact He|exact Hcl].
Defined.

Lemma claims_exclusive_witness :
  let pool := run_schedule [0; 1; 0; 1; 0; 1; 0; 1; 0; 1; 0; 1; 0; 1]%nat
                (map code [claim_by "w1"; claim_by "w2"]) one_pending in
  map answer pool.1 = [Some (Ok (Some first_lease)); Some (Ok None)] /\
  held "eff_0" "w1" (queue pool.2).
Proof.
  intros pool. split; [vm_compute; reflexivity|].
  destruct (claims_exclusive [claim_by "w1"; claim_by "w2"] one_pending pool.2 pool.1) as [_ Hheld].
  { unfold pool. rewrite <- surjective_pairing. apply run_schedule_steps. }
  destruct (pool.1 !! 0%nat) as [p|] eqn:Hp; [|vm_compute in Hp; discriminate].
  apply (Hheld 0%nat p first_lease Hp).
  assert (Heq : answer <$> (pool.1 !! 0%nat) =
    Some (Some (Ok (Some first_lease))))
    by (vm_compute; reflexivity).
  rewrite Hp in Heq. by injection Heq.
Defined.

(** The effect is claimed by [w1], whose lease has run out. *)
Definition lease_ran_out : QWorld :=
  mkQWorld (queue (run_op (OCall (claim_by "w1")) one_pending)) 5 20.

Lemma lease_ran_out_ok : queue_ok (queue lease_ran_out).
Proof. apply (run_op_ok (OCall (claim_by "w1")) one_pending one_pending_ok). Qed.

Lemma reap_expired_spec_witness :
  overdue (ticks 20) (queue lease_ran_out) "eff_0" = true /\
  overdue (ticks 20) (queue (exec reap_expired lease_ran_out).2) "eff_0" = false.
Proof.
  split; [vm_compute; reflexivity|].
  destruct (reap_expired_spec lease_ran_out lease_ran_out_ok) as (_ & _ & Hnone). apply Hnone.
Defined.

(** ** Races with the reaper *)

Definition status_in (w : QWorld) : option EffectStatus := eff_status <$> effects (queue w) !! "eff_0".
Definition open_leases (w : QWorld) : list string :=
  map cl_worker_id (List.filter (fun c => bool_decide (cl_released_at c = None)) (rows (claims (queue w)))).
Definition reaper : prog QWorld ActantError (option Lease) := reap_expired ≫= fun _ => mret None.

(** Two reapers read the same expired lease; between their writes [w2] claims
    the effect.  The second reaper takes it away from [w2], whose lease is live,
    and [w3] gets it too: two open leases on one effect. *)
Example reapers_race_two_leases :
  let pool := [reaper; reaper; code (claim_by "w2"); code (claim_by "w3")] in
  let sched := [0;0; 1;1;1;1; 2;2;2;2;2;2;2; 0;0; 3;3;3;3;3;3;3]%nat in
  let r := run_schedule sched pool lease_ran_out in
  open_leases r.2 = ["w2"; "w3"] /\ status_in r.2 = Some EClaimed.
Proof. vm_compute. auto. Qed.

(** The worker completes between the reaper's read and its write: the succeeded
    effect is pending again and will run a second time. *)
Example reaper_revives_completed :
  let pool := [reaper; code (CComplete "eff_0" JNull)] in
  let r := run_schedule [0;0; 1;1;1;1; 0;0]%nat pool lease_ran_out in
  status_in (run_schedule [0;0; 1;1;1;1]%nat pool lease_ran_out).2 = Some ESucceeded /\
  status_in r.2 = Some EPending.
Proof. vm_compute. auto. Qed.

(** ** What the operations do not check *)

(** A heartbeat does not extend the lease: the effect is reaped right after. *)
Example heartbeat_keeps_no_lease :
  status_in (ops [OCall (CHeartbeat "w1" 1); OReap] lease_ran_out) = Some EPending.
Proof. vm_compute. auto. Qed.

(** A failure is final although two attempts are left. *)
Example fail_never_retries :
  let w := ops [OCall (claim_by "w1"); OCall (CFail "eff_0" "boom"); OReap; OCall (claim_by "w2")] one_pending in
  status_in w = Some EFailed /\
  (fun e => (eff_attempt_count e, eff_max_attempts e)) <$> effects (queue w) !! "eff_0" = Some (1, 3).
Proof. vm_compute. auto. Qed.

(** Completing does not release the claim, and starting a completed effect sets
    it running again; the reaper then puts it back in the queue. *)
Example start_revives_completed :
  let w := ops [OCall (claim_by "w1"); OCall (CComplete "eff_0" JNull)] one_pending in
  status_in w = Some ESucceeded /\ open_leases w = ["w1"] /\
  status_in (run_op OReap (mkQWorld (queue (run_op (OCall (CStart "eff_0")) w)) 9 30)) = Some EPending.
Proof. vm_compute. auto. Qed.

(** A capability is dropped when its id collides with another worker's. *)
Example capability_id_collision :
  let w := ops [OCall (CRegister (a_worker "gpu-a") ["run"]); OCall (CRegister (a_worker "gpu") ["a-run"])]
             empty_queue in
  map cp_worker_id (rows (capabilities (queue w))) = ["gpu-a"].
Proof. vm_compute. auto. Qed.
