(* ===== verification/Worker.v ===== *)
(** * The worker loop ([actant-worker-protocol/src/lib.rs])

    A worker registers, then claims, executes and heartbeats until it is told to
    stop.  Its rounds are programs over the effect queue.  What a handler does
    when it is called is a parameter; it may depend on the moment of the call.
    The sleep between polls and the shutdown channel appear as the number of
    rounds the worker gets. *)

From S2P Require Import Prelude Str Json Core Storage Prog Effects EffectsRace EffectsInv.
#[local] Open Scope string_scope.
#[local] Open Scope list_scope.
#[local] Open Scope Z_scope.

#[local] Notation Q A := (prog QWorld ActantError A).

Record WorkerDescriptor := mkWorkerDescriptor {
  wd_workspace_id : string; wd_actor_id : string; wd_name : string; wd_capabilities : list string
}.

(** The trait [Handler]. *)
Record Handler := mkHandler {
  h_effect_type : string;
  h_effect_types : list string;
  h_handle : nat -> Json -> result ActantError Json
}.

Record WorkerRunner := mkWorkerRunner {
  descriptor : WorkerDescriptor; worker_id : string; handlers : list Handler
}.

Definition set_known_actors (x : gset string) (q : Queue) : Queue :=
  mkQueue (effects q) (claims q) (results q) (workers q) (capabilities q) (heartbeats q)
    (known_workspaces q) x (known_commands q).

Section worker.
Context `{SerdeJson} `{Sha256} `{Env} `{RowOrder} `{LeaseClock} (pkg_version : string).

Definition new (d : WorkerDescriptor) (hs : list Handler) : Q WorkerRunner :=
  id ← fresh_id "wrk"; mret (mkWorkerRunner d id hs).

Definition register (r : WorkerRunner) : Q unit :=
  beat ← now;
  created ← now;
  register_worker
    (mkWorker (worker_id r) (wd_workspace_id (descriptor r)) (wd_actor_id (descriptor r))
       (wd_name (descriptor r)) None (Some pkg_version) "online" (Some beat) created None)
    (wd_capabilities (descriptor r)).

Definition maybe_ensure_actor (r : WorkerRunner) : Q unit :=
  known ← select (fun q => bool_decide (wd_actor_id (descriptor r) ∈ known_actors q));
  if known : bool then mret tt
  else
    _ ← now;
    write (fun q =>
      if bool_decide (wd_actor_id (descriptor r) ∈ known_actors q) then Err (unique_failed "actor.id")
      else if bool_decide (wd_workspace_id (descriptor r) ∈ known_workspaces q)
      then Ok (set_known_actors ({[wd_actor_id (descriptor r)]} ∪ known_actors q) q)
      else Err fk_failed).

Definition find_handler (r : WorkerRunner) (effect_type : string) : option Handler :=
  List.find (fun h => String.eqb (h_effect_type h) effect_type) (handlers r).

(** The input of a lease: its JSON, or an empty object. *)
Definition lease_input (l : Lease) : Json :=
  default (JObject []) (s ← ls_input_inline l; from_str s).

(** Calling a handler touches no table; its error is a value. *)
Definition call (h : Handler) (input : Json) : Q (result ActantError Json) :=
  stmt (fun w => (Ok (h_handle h (qtime w) input), w)).

Definition execute (r : WorkerRunner) (l : Lease) : Q unit :=
  match find_handler r (ls_effect_type l) with
  | None => ignore (fail (ls_effect_id l) "no handler for effect_type")
  | Some h =>
      ignore (start (ls_effect_id l));;
      out ← call h (lease_input l);
      match out with
      | Ok output => ignore (complete (ls_effect_id l) output)
      | Err e => ignore (fail (ls_effect_id l) (display e))
      end
  end.

(** One turn of the loop of [run]. *)
Definition round (r : WorkerRunner) : Q unit :=
  lease ← claim_one (worker_id r) (wd_workspace_id (descriptor r)) (wd_capabilities (descriptor r));
  match lease with
  | Some l => execute r l
  | None => mret tt
  end;;
  ignore (heartbeat (worker_id r) 0).

Fixpoint rounds (r : WorkerRunner) (n : nat) : Q unit :=
  match n with
  | O => mret tt
  | S n' => round r;; rounds r n'
  end.

(** [run], shut down after [n] rounds. *)
Definition run (r : WorkerRunner) (n : nat) : Q unit :=
  register r;; ignore (maybe_ensure_actor r);; rounds r n.

(** ** What a worker makes of an effect *)

(** The row of a claimed effect once it is executed at time [t]. *)
Definition settle (r : WorkerRunner) (l : Lease) (t : nat) (e : Effect) : Effect :=
  match find_handler r (ls_effect_type l) with
  | None => fail_row "no handler for effect_type" (clock t) e
  | Some h =>
      match h_handle h t (lease_input l) with
      | Ok output =>
          let canon := canonical_json output in
          complete_row canon (sha256_hex canon) (clock t) (start_row e)
      | Err x => fail_row (display x) (clock t) (start_row e)
      end
  end.

Lemma settle_fields r l t e :
  eff_id (settle r l t e) = eff_id e /\ eff_attempt_count (settle r l t e) = eff_attempt_count e /\
  eff_max_attempts (settle r l t e) = eff_max_attempts e /\
  (eff_status (settle r l t e) = ESucceeded \/ eff_status (settle r l t e) = EFailed).
Proof. unfold settle. repeat case_match; repeat split; simpl; auto. Qed.

Lemma settle_not_pending r l t e : eff_status (settle r l t e) <> EPending.
Proof. destruct (settle_fields r l t e) as (_ & _ & _ & [-> | ->]); done. Qed.

(** Two states that differ in the outcome of one effect at most. *)
Record beside (w w' : QWorld) : Prop := {
  bs_claims : claims (queue w') = claims (queue w);
  bs_workers : forall k, has (workers (queue w)) k = true -> has (workers (queue w')) k = true;
  bs_seq : (qseq w <= qseq w')%nat
}.
#[local] Instance beside_preorder : PreOrder beside.
Proof.
  split; [by intros w; split|]. intros a b c [C1 W1 S1] [C2 W2 S2].
  split; [congruence|auto|lia].
Qed.

Lemma exec_start k w :
  exec (start k) w = (Ok tt, with_queue (fun q => set_effects (alter start_row k (effects q)) q) w).
Proof. done. Qed.

Lemma exec_fail k err w :
  exec (fail k err) w = (Ok tt, mkQWorld
    (set_effects (alter (fail_row err (clock (qtime w))) k (effects (queue w))) (queue w))
    (qseq w) (S (qtime w))).
Proof. done. Qed.

Lemma exec_complete k output w :
  let canon := canonical_json output in
  effects (queue (exec (complete k output) w).2) =
    alter (complete_row canon (sha256_hex canon) (clock (qtime w))) k (effects (queue w)) /\
  beside w (exec (complete k output) w).2.
Proof.
  simpl. repeat case_match; simplify_eq/=; (split; [done|]); split; simpl; auto.
Qed.

Lemma exec_execute r l w :
  exists w', exec (execute r l) w = (Ok tt, w') /\ beside w w' /\
    effects (queue w') = alter (settle r l (qtime w)) (ls_effect_id l) (effects (queue w)).
Proof.
  unfold execute, settle. destruct (find_handler r (ls_effect_type l)) as [h|] eqn:Hh.
  - rewrite exec_bind. unfold mbind at 1, M_bind. rewrite exec_ignore, exec_start. cbn [snd].
    unfold call, stmt. cbn [mbind prog_bind exec]. cbn [qtime with_queue].
    destruct (h_handle h (qtime w) (lease_input l)) as [out|x]; rewrite exec_ignore.
    + destruct (exec_complete (ls_effect_id l) out (with_queue (fun q => set_effects (alter start_row (ls_effect_id l) (effects q)) q) w)) as [He Hb].
      eexists. split; [done|]. split; [by destruct Hb; split|].
      rewrite He. simpl. by rewrite alter_alter_eq.
    + rewrite exec_fail. eexists. split; [done|]. split; [by split|]. simpl. by rewrite alter_alter_eq.
  - rewrite exec_ignore, exec_fail. eexists. split; [done|]. by split.
Qed.

Lemma exec_beat wid n w :
  exists w', exec (ignore (heartbeat wid n)) w = (Ok tt, w') /\ beside w w' /\
    effects (queue w') = effects (queue w).
Proof.
  rewrite exec_ignore. eexists. split; [done|]. simpl.
  assert (Hw : forall f k, has (workers (queue w)) k = true -> has (alter f wid (workers (queue w))) k = true).
  { intros f k [x Hx]%has_true. apply has_true, lookup_alter_is_Some. eauto. }
  repeat case_match; simplify_eq/=; (split; [|done]); split; simpl; auto.
Qed.

(** ** Draining the queue *)

Section drain.
Context (r : WorkerRunner).
#[local] Notation ws := (wd_workspace_id (descriptor r)).
#[local] Notation caps := (wd_capabilities (descriptor r)).
#[local] Notation mine := (claimable ws caps).

(** What holds between the rounds of a worker that runs alone: its row is there,
    no claim row waits for the ids it will draw, and what it claimed is over. *)
Record drainable (w : QWorld) : Prop := {
  dr_ok : queue_ok (queue w);
  dr_worker : has (workers (queue w)) (worker_id r) = true;
  dr_ids : forall n, (qseq w <= n)%nat -> claims (queue w) !! ("clm_" +:+ ulid n) = None;
  dr_mine : forall k c, claims (queue w) !! k = Some c -> cl_worker_id c = worker_id r ->
    not_pending (cl_effect_id c) (queue w);
}.

(** What the worker makes of effect [e] when it claims it at [t1] and runs it at [t2]. *)
Definition handled (t1 t2 : nat) (expires : string) (e : Effect) : Effect :=
  settle r (mkLease (eff_id e) (worker_id r) (eff_effect_type e) (eff_input_inline e) expires) t2
    (claim_row (worker_id r) (clock t1) e).

Lemma claimable_pending types e : claimable ws types e = true -> eff_status e = EPending.
Proof.
  unfold claimable. intros [[_ Hp]%andb_true_iff _]%andb_true_iff. by apply bool_decide_eq_true in Hp.
Qed.

Lemma handled_not_mine t1 t2 x e : mine (handled t1 t2 x e) = false.
Proof.
  destruct (mine _) eqn:Hm; [|done]. apply claimable_pending in Hm. by apply settle_not_pending in Hm.
Qed.

Lemma claimable_nil e : claimable ws [] e = false.
Proof.
  unfold claimable. rewrite (bool_decide_eq_false_2 (_ ∈ [])) by apply not_elem_of_nil.
  apply andb_false_r.
Qed.

(** A claim of a worker between its rounds. *)
Lemma exec_claim w (Hw : drainable w) :
  (exec (claim_one (worker_id r) ws caps) w = (Ok None, w) /\
    forall k e, effects (queue w) !! k = Some e -> mine e = false) \/
  exists k e c t, effects (queue w) !! k = Some e /\ mine e = true /\ eff_id e = k /\
    let q := set_effects (<[k := claim_row (worker_id r) (clock t) e]> (effects (queue w))) (queue w) in
    cl_id c = "clm_" +:+ ulid (qseq w) /\ cl_effect_id c = k /\ cl_worker_id c = worker_id r /\
    exists t' x, exec (claim_one (worker_id r) ws caps) w =
      (Ok (Some (mkLease k (worker_id r) (eff_effect_type e) (eff_input_inline e) x)),
       mkQWorld (set_claims (<[cl_id c := c]> (claims q)) q) (S (qseq w)) t').
Proof.
  destruct Hw as [Hok Hwk Hids Hmine]. destruct caps as [|t ts] eqn:Hcaps.
  { left. split; [done|]. intros k e _. apply claimable_nil. }
  rewrite exec_claim_one. destruct (next_effect ws (t :: ts) (queue w)) as [e|] eqn:Hn.
  2:{ left. split; [done|]. by apply next_effect_None. }
  right. destruct (next_effect_Some _ _ _ _ Hok Hn) as (He & Hc & _).
  pose proof (claimable_pending _ _ Hc) as Hp. cbv zeta. unfold try_claim. simpl.
  rewrite He, (bool_decide_eq_true_2 _ Hp), Hwk. simpl. unfold insert_claim. simpl.
  rewrite (proj2 (has_false _ _) (Hids _ (le_n _))).
  rewrite (proj1 (not_true_iff_false (existsb _ _))).
  2:{ intros (c & Hin & Hb)%existsb_exists. apply list_elem_of_In, rows_lookup in Hin as [k Hk].
      apply andb_true_iff in Hb as [[He'%String.eqb_eq Hw'%String.eqb_eq]%andb_true_iff _].
      destruct (Hmine k c Hk Hw') as (e' & Hx & Hnp). congruence. }
  rewrite (proj2 (has_true (<[eff_id e := _]> _) (eff_id e))) by (rewrite lookup_insert_eq; eauto).
  rewrite Hwk. simpl.
  eexists (eff_id e), e, (mkClaimRow ("clm_" +:+ ulid (qseq w)) _ _ _ _ _), _.
  split; [done|]. split; [done|]. split; [done|]. simpl. repeat split; [..|by do 2 eexists]; done.
Qed.

Context (ulid_inj : forall m n, ulid m = ulid n -> m = n).

Lemma drainable_idle w w' :
  drainable w -> beside w w' -> effects (queue w') = effects (queue w) -> drainable w'.
Proof.
  intros [Hok Hwk Hids Hmine] [Hc Hw Hs] He. split.
  - by eapply queue_ok_same.
  - auto.
  - intros n Hn. rewrite Hc. apply Hids. lia.
  - intros k c Hk Hwc. unfold not_pending. rewrite He. rewrite Hc in Hk. by apply (Hmine k c).
Qed.

(** A claimed effect that was executed. *)
Lemma drainable_busy w w' k e c e' :
  drainable w -> queue_ok (queue w') -> (qseq w < qseq w')%nat ->
  (forall x, has (workers (queue w)) x = true -> has (workers (queue w')) x = true) ->
  cl_id c = "clm_" +:+ ulid (qseq w) -> cl_effect_id c = k ->
  claims (queue w') = <[cl_id c := c]> (claims (queue w)) ->
  eff_status e' <> EPending -> effects (queue w) !! k = Some e ->
  effects (queue w') = <[k := e']> (effects (queue w)) -> drainable w'.
Proof.
  intros [Hok Hwk Hids Hmine] Hok' Hs Hw Hid Hk Hc Hp He He'. split; [done|auto| |].
  - intros n Hn. rewrite Hc, lookup_insert_ne; [apply Hids; lia|].
    rewrite Hid. intros Heq. apply (inj _), ulid_inj in Heq. lia.
  - intros k' c' Hk' Hwc. unfold not_pending. rewrite He'.
    destruct (decide (k = cl_effect_id c')) as [<-|Hne].
    { exists e'. by rewrite lookup_insert_eq. }
    rewrite Hc in Hk'. apply lookup_insert_Some in Hk' as [[_ ->]|[_ Hk']]; [done|].
    destruct (Hmine k' c' Hk' Hwc) as (x & Hx & Hpx). exists x. by rewrite lookup_insert_ne.
Qed.

Lemma exec_round w (Hw : drainable w) :
  exists w', exec (round r) w = (Ok tt, w') /\ drainable w' /\
    ((effects (queue w') = effects (queue w) /\
      forall k e, effects (queue w) !! k = Some e -> mine e = false) \/
     exists k e t1 t2 x, effects (queue w) !! k = Some e /\ mine e = true /\
       effects (queue w') = <[k := handled t1 t2 x e]> (effects (queue w))).
Proof.
  unfold round. rewrite exec_bind. unfold mbind at 1, M_bind.
  pose proof (queue_ok_claim_one (worker_id r) ws caps w (dr_ok _ Hw)) as Hok.
  destruct (exec_claim w Hw) as [[-> Hn]|(k & e & c & t & He & Hm & Hid & Hcl & Hce & Hcw & t' & x & Hx)].
  - destruct (exec_beat (worker_id r) 0 w) as (w' & Hb & Hbs & Hbe). simpl. exists w'.
    split; [exact Hb|]. split; [by eapply drainable_idle|]. by left.
  - rewrite Hx in Hok |- *. rewrite exec_bind. unfold mbind at 1, M_bind.
    set (l := mkLease k _ _ _ x). set (w1 := mkQWorld _ _ t') in *.
    destruct (exec_execute r l w1) as (w2 & -> & Hb2 & He2).
    destruct (exec_beat (worker_id r) 0 w2) as (w3 & -> & Hb3 & He3).
    simpl in He2. rewrite alter_insert_eq in He2. exists w3. split; [done|].
    assert (Hb : beside w1 w3) by (by etrans). destruct Hb as [Hbc Hbw Hbs]. simpl in Hbc, Hbw, Hbs.
    rewrite He2 in He3. split.
    + eapply (drainable_busy w w3); [done| |lia|done|exact Hcl|exact Hce|exact Hbc| |exact He|exact He3];
        [|apply settle_not_pending].
      eapply (queue_ok_same (set_effects (alter (settle r l t') k (effects (queue w1))) (queue w1))).
      * simpl. by rewrite alter_insert_eq.
      * done.
      * apply queue_ok_alter; [|exact Hok]. intros e'.
        destruct (settle_fields r l t' e') as (-> & -> & -> & _). repeat split. apply settle_not_pending.
    + right. exists k, e, t, t', x. repeat split; [done..|]. rewrite He3. unfold handled. by rewrite Hid.
Qed.

(** How many effects wait for the worker. *)
Definition waiting (q : Queue) : nat := size (filter (fun kv : string * Effect => mine kv.2 = true) (effects q)).

Lemma waiting_none q : waiting q = 0%nat -> forall k e, effects q !! k = Some e -> mine e = false.
Proof.
  unfold waiting. intros Hz%map_size_empty_inv k e He. destruct (mine e) eqn:Hm; [|done].
  assert (Hl : filter (fun kv : string * Effect => mine kv.2 = true) (effects q) !! k = Some e)
    by (by apply map_lookup_filter_Some).
  by rewrite Hz, lookup_empty in Hl.
Qed.

Lemma waiting_insert q q' k e e' :
  effects q !! k = Some e -> mine e = true -> mine e' = false ->
  effects q' = <[k := e']> (effects q) -> waiting q = S (waiting q').
Proof.
  intros He Hm Hm' Hq. unfold waiting. rewrite Hq, map_filter_insert_False by (simpl; by rewrite Hm').
  rewrite map_filter_delete. set (m := filter _ _).
  assert (Hk : m !! k = Some e) by (by apply map_lookup_filter_Some).
  rewrite map_size_delete_Some by eauto.
  assert (size m <> 0%nat) by (intros Hz%map_size_empty_inv; by rewrite Hz, lookup_empty in Hk). lia.
Qed.

(** C9: A worker that runs alone drains the queue: with as many rounds as
    effects wait for it, its loop ends without error, no effect of its types in
    its workspace is pending any more, each one that was has been claimed once and
    has the outcome of the first handler of its type (or failed for want of one),
    and no other effect is touched. *)
Theorem worker_drains (n : nat) (w : QWorld) (Hw : drainable w)
  (Hn : (waiting (queue w) <= n)%nat) :
  exists w', exec (rounds r n) w = (Ok tt, w') /\
    (forall k e, effects (queue w') !! k = Some e -> mine e = false) /\
    (forall k e, effects (queue w) !! k = Some e ->
       if mine e then exists t1 t2 x, effects (queue w') !! k = Some (handled t1 t2 x e)
       else effects (queue w') !! k = Some e) /\
    dom (effects (queue w')) = dom (effects (queue w)).
Proof.
  revert w Hw Hn. induction n as [|n IH]; intros w Hw Hn.
  { assert (Hz : waiting (queue w) = 0%nat) by lia. exists w. split; [done|].
    pose proof (waiting_none _ Hz) as Hno. repeat split; [done|].
    intros k e He. by rewrite (Hno k e He). }
  cbn [rounds]. rewrite exec_bind. unfold mbind, M_bind.
  destruct (exec_round w Hw) as (w1 & -> & Hw1 & [[He1 Hno]|(k & e & t1 & t2 & x & He & Hm & He1)]).
  - destruct (IH w1 Hw1) as (w' & -> & Hd & Hout & Hdom).
    { enough (waiting (queue w1) = 0%nat) by lia. unfold waiting.
      apply map_size_empty_iff, map_empty. intros k. apply map_lookup_filter_None_2. right.
      intros e He. rewrite He1 in He. simpl. by rewrite (Hno k e He). }
    rewrite He1 in Hout, Hdom. by exists w'.
  - pose proof (waiting_insert (queue w) (queue w1) k e _ He Hm (handled_not_mine t1 t2 x e) He1) as Hcount.
    destruct (IH w1 Hw1) as (w' & -> & Hd & Hout & Hdom); [lia|].
    rewrite He1 in Hout, Hdom. exists w'. split; [done|]. split; [done|]. split.
    + intros k' e' He'. destruct (decide (k = k')) as [<-|Hne].
      * replace e' with e by congruence. rewrite Hm. exists t1, t2, x.
        specialize (Hout k _ (lookup_insert_eq _ _ _)). by rewrite handled_not_mine in Hout.
      * apply Hout. by rewrite lookup_insert_ne.
    + rewrite Hdom, dom_insert_L. assert (k ∈ dom (effects (queue w))) by (apply elem_of_dom; eauto). set_solver.
Qed.
End drain.
End worker.
