(* ===== verification/Workers.v ===== *)
(** * The bundled workers ([actant-workers/src])

    One handler per kind of effect, the manager that hosts them, and the path check
    of the file worker.  What a handler does outside — the file system, a process, a
    mailbox, a web hook, a browser, an HTTP provider — is a parameter with its own
    state; the recording mailer, poster and browser are modelled.  The Chrome driver
    is in Cdp.v, the loop that calls handlers in Worker.v. *)

From S2P Require Import Prelude Str Json Core Storage Effects Worker.
#[local] Open Scope string_scope.
#[local] Open Scope list_scope.
#[local] Open Scope Z_scope.

Definition text_of (k : string) (input : Json) : option string := jget k input ≫= as_str.
(** [.ok_or_else(|| InvalidInput("missing ..".into()))?]. *)
Definition need {St} (k : string) (what : string) (input : Json) : M St ActantError string :=
  match text_of k input with Some s => mret s | None => throw (InvalidInput ("missing " +:+ what)) end.

(** ** Paths ([std::path] on Unix) *)

Inductive Component := RootDir | CurDir | ParentDir | Normal (seg : string).
Definition component_of (seg : string) : option Component :=
  if String.eqb seg "" || String.eqb seg "." then None
  else if String.eqb seg ".." then Some ParentDir else Some (Normal seg).
(** A dot counts at the very start only. *)
Definition components (path : string) : list Component :=
  let segs := split_char "/"%char path in
  (if starts_with "/" path then [RootDir]
   else match segs with "." :: _ => [CurDir] | _ => [] end) ++ omap component_of segs.
Definition is_absolute (path : string) : bool := starts_with "/" path.
(** [PathBuf::push], and [join]. *)
Definition push_path (base rel : string) : string :=
  if is_absolute rel then rel
  else if String.eqb base "" || ends_with "/" base then base +:+ rel else base +:+ "/" +:+ rel.

Definition nul : Ascii.ascii := "000"%char.
Fixpoint normalize (candidate : string) (cs : list Component) (normalized : string) : result ActantError string :=
  match cs with
  | [] => Ok normalized
  | RootDir :: _ => Err (InvalidInput ("path component escapes root: " +:+ candidate))
  | ParentDir :: _ => Err (InvalidInput ("parent-dir traversal rejected: " +:+ candidate))
  | CurDir :: cs' => normalize candidate cs' normalized
  | Normal seg :: cs' => normalize candidate cs' (push_path normalized seg)
  end.
Definition validate_path (base candidate : string) : result ActantError string :=
  if contains_char nul candidate then Err (InvalidInput "path contains NUL byte")
  else if is_absolute candidate then Err (InvalidInput ("absolute paths are rejected: " +:+ candidate))
  else
    match normalize candidate (components candidate) "" with
    | Ok normalized =>
        if String.eqb normalized "" then Err (InvalidInput "empty path") else Ok (push_path base normalized)
    | Err e => Err e
    end.

(** ** Files and the shell *)

Section file.
Context {Fs : Type} (fs_write : string -> string -> Fs -> result string unit * Fs) (fs_read : string -> Fs -> result string string * Fs).
Definition file_types : list string := ["file.read"; "file.write"].
Definition file_handle (input : Json) : M Fs ActantError Json :=
  path ← need "path" "path" input;
  match text_of "contents" input with
  | Some contents =>
      map_err (fun e => Internal ("write: " +:+ e)) (fs_write path contents);;
      mret (jobj [("written", JBool true); ("path", JString path)])
  | None =>
      body ← (map_err (fun e => Internal ("read: " +:+ e)) (fs_read path) : M Fs ActantError string);
      mret (jobj [("path", JString path); ("contents", JString body)])
  end.
End file.

(** The exit code, when the process was not killed, and the two streams. *)
Record Output := mkOutput { exit_code : option Z; out_stdout : string; out_stderr : string }.
Section shell.
Context {Os : Type} (spawn_sh : string -> Os -> result string Output * Os) (lossy : string -> string).
Definition json_i64 (z : Z) : Json := JNumber (if z <? 0 then NegInt z else PosInt z).
Definition shell_handle (input : Json) : M Os ActantError Json :=
  command ← need "command" "command" input;
  out ← (map_err (fun e => Internal ("spawn: " +:+ e)) (spawn_sh command) : M Os ActantError Output);
  mret (jobj [("exit", json_i64 (default (-1) (exit_code out))); ("stdout", JString (lossy (out_stdout out)));
              ("stderr", JString (lossy (out_stderr out)))]).
End shell.

(** ** Mail, Slack and the browser *)

Record Mail := mkMail { m_to : list string; m_subject : string; m_body : string }.
(** [RecordingMailer]: the messages sent so far. *)
Definition record_mail (m : Mail) : M (list Mail) ActantError unit := fun sent => (Ok tt, sent ++ [m]).
Section email.
Context {St : Type} (send_mail : Mail -> M St ActantError unit).
Definition email_handle (input : Json) : M St ActantError Json :=
  match (v ← jget "to" input; as_array v) with
  | None => throw (InvalidInput "missing to")
  | Some arr =>
      let to : list string := omap as_str arr in
      if bool_decide (to = []) then throw (InvalidInput "to is empty")
      else
        send_mail (mkMail to (default "" (text_of "subject" input)) (default "" (text_of "body" input)));;
        mret (jobj [("sent", JBool true); ("recipients", JArray (List.map JString to))])
  end.
End email.

Record Post := mkPost { p_webhook_url : string; p_text : string; p_channel : option string }.
Definition record_post (p : Post) : M (list Post) ActantError unit := fun sent => (Ok tt, sent ++ [p]).
(** [HttpPoster]: the web hook answered with a status, or the request failed. *)
Section slack.
Context {St : Type} (http_post : string -> Json -> St -> result string Z * St).
Definition post_http (p : Post) : M St ActantError unit :=
  (map_err (fun e => Internal ("slack post: " +:+ e))
     (http_post (p_webhook_url p)
        (jobj [("text", JString (p_text p)); ("channel", match p_channel p with Some c => JString c | None => JNull end)]))
   : M St ActantError Z);;
  mret tt.
Context (post : Post -> M St ActantError unit).
Definition slack_handle (input : Json) : M St ActantError Json :=
  url ← need "webhook_url" "webhook_url" input;
  post (mkPost url (default "" (text_of "text" input)) (text_of "channel" input));;
  mret (jobj [("posted", JBool true)]).
End slack.

Inductive Action := Navigate (url : string) | Click (sel : string) | Type_ (sel text : string) | Screenshot.
(** [EmulatorDriver]: a title, and the actions so far. *)
Definition emulate (title : string) (a : Action) : M (list Action) ActantError Json :=
  fun done_ => (Ok match a with
    | Navigate _ => jobj [("title", JString title)]
    | Click sel => jobj [("clicked", JString sel)]
    | Type_ sel text => jobj [("typed", JString text); ("into", JString sel)]
    | Screenshot => jobj [("hash", JString "stub")]
    end, done_ ++ [a]).
Section browser.
Context {St : Type} (drive : Action -> M St ActantError Json).
Definition browser_types : list string := ["browser.navigate"; "browser.click"; "browser.type"; "browser.screenshot"].
Definition browser_action (input : Json) : M St ActantError Action :=
  let kind := default "navigate" (text_of "op" input) in
  if String.eqb kind "navigate" then url ← need "url" "url" input; mret (Navigate url)
  else if String.eqb kind "click" then sel ← need "selector" "selector" input; mret (Click sel)
  else if String.eqb kind "type" then
    sel ← need "selector" "selector" input; text ← need "text" "text" input; mret (Type_ sel text)
  else if String.eqb kind "screenshot" then mret Screenshot
  else throw (InvalidInput ("unknown browser op: " +:+ kind)).
Definition browser_handle (input : Json) : M St ActantError Json :=
  a ← browser_action input; drive a.
End browser.

(** ** Models *)

Inductive Provider := Mock | OpenAi (base_url api_key : string) | Ollama (base_url : string).
Definition ollama : Provider := Ollama "http://localhost:11434".
Record CostRates := mkCostRates { input_per_1k : f64; output_per_1k : f64 }.
Definition compute_cost_usd (tokens_in tokens_out : Z) (r : CostRates) : f64 :=
  f64_add (f64_mul (f64_div (f64_of_Z tokens_in) (f64_of_Z 1000)) (input_per_1k r))
          (f64_mul (f64_div (f64_of_Z tokens_out) (f64_of_Z 1000)) (output_per_1k r)).

(** [&s[..n]] panics inside a character. *)
Definition is_char_boundary (n : nat) (s : string) : bool :=
  match String.get n s with None => (n =? String.length s)%nat | Some b => negb (Z.land (byte b) 192 =? 128) end.
Inductive Outcome := Answered (r : result ActantError Json) | Panics.
Section model.
(** A provider's answer: JSON, or what failed, sending or reading it. *)
Context {St : Type} (chat : string -> option string -> Json -> St -> (string + (string + Json)) * St).
Definition chat_request (model prompt : string) : Json :=
  jobj [("model", JString model);
        ("messages", JArray [jobj [("role", JString "user"); ("content", JString prompt)]])].
Definition chat_with (name url : string) (key : option string) (model prompt : string) (s : St) : Outcome * St :=
  let '(a, s') := chat url key (chat_request model prompt) s in
  (Answered match a with
   | inl e => Err (Internal (name +:+ ": " +:+ e))
   | inr (inl e) => Err (Internal (name +:+ " parse: " +:+ e))
   | inr (inr body) => Ok body
   end, s').
Definition model_handle (p : Provider) (input : Json) (s : St) : Outcome * St :=
  let prompt := default "" (text_of "prompt" input) in
  let model := default "mock" (text_of "model" input) in
  match p with
  | Mock =>
      let len := str_len prompt in
      let cut := Nat.min (String.length prompt) 80 in
      if is_char_boundary cut prompt then
        (Answered (Ok (jobj [("model", JString model); ("tokens_in", JNumber (PosInt (len mod 2 ^ 32 / 4)));
           ("tokens_out", JNumber (PosInt (Z.max (len mod 2 ^ 32 / 8) 4)));
           ("summary", JString ("[mock] received: " +:+ String.substring 0 cut prompt)); ("raw", JString prompt)])), s)
      else (Panics, s)
  | OpenAi base key => chat_with "openai" (base +:+ "/chat/completions") (Some key) model prompt s
  | Ollama base => chat_with "ollama" (base +:+ "/v1/chat/completions") None model prompt s
  end.
End model.

(** ** MCP over standard input and output *)

Record JsonRpcError := mkJsonRpcError { je_code : Z; je_message : string }.
Record JsonRpcResponse := mkJsonRpcResponse { jr_id : option Z; jr_result : option Json; jr_error : option JsonRpcError }.
Definition decode_rpc_error (v : Json) : option JsonRpcError :=
  match struct_fields [("code", false); ("message", false); ("data", true)] v with
  | Some [c; m; d] => c ← de as_i64 c; m ← de as_str m; _ ← de_option Some d; Some (mkJsonRpcError c m)
  | _ => None
  end.
Definition decode_rpc (v : Json) : option JsonRpcResponse :=
  match struct_fields [("jsonrpc", false); ("id", false); ("result", true); ("error", true)] v with
  | Some [j; i; r; e] =>
      _ ← de_option as_str j; i ← de_option as_u64 i; r ← de_option Some r; e ← de_option decode_rpc_error e;
      Some (mkJsonRpcResponse i r e)
  | _ => None
  end.
Definition rpc_request (id : Z) (method : string) (params : Json) : Json :=
  jobj [("jsonrpc", JString "2.0"); ("id", JNumber (PosInt id)); ("method", JString method); ("params", params)].

Definition show_int (z : Z) : string := if z <? 0 then "-" +:+ show_Z (- z) else show_Z z.
(** What the next read of the child's output gives: a line, or a failure. *)
Abbreviation Reads := (list (string + string)).
Section mcp.
Context `{SerdeJson} (bad_frame : string -> string) (debug : string -> string) (pkg_version : string).

(** [Ok] with what is left to read; the list is as long as the child goes on. *)
Fixpoint read_response (want_id : Z) (r : Reads) : result ActantError (Json * Reads) :=
  match r with
  | [] => Err (Internal "mcp child closed stdout before responding")
  | inl e :: _ => Err (Internal ("read stdout: " +:+ e))
  | inr line :: rest =>
      if String.eqb (trim line) "" then read_response want_id rest
      else
        match (v ← from_str line; decode_rpc v) with
        | None => Err (Internal ("decode mcp frame " +:+ debug line +:+ ": " +:+ bad_frame line))
        | Some frame =>
            if bool_decide (jr_id frame <> Some want_id) then read_response want_id rest
            else
              match jr_error frame with
              | Some e => Err (Internal ("mcp error " +:+ show_int (je_code e) +:+ ": " +:+ je_message e))
              | None => Ok (default JNull (jr_result frame), rest)
              end
        end
  end.

(** The child: what a line written to it makes of it, and what it has printed. *)
Context {Child : Type} (spawn : string -> list string -> result string Child)
  (write_line : string -> Child -> result string Child) (printed : Child -> Reads) (keep : Reads -> Child -> Child).
Definition send_frame (v : Json) (c : Child) : result ActantError Child :=
  match write_line (to_string v) c with Ok c' => Ok c' | Err e => Err (Internal e) end.
Definition ask (id : Z) (method : string) (params : Json) (c : Child) : result ActantError (Json * Child) :=
  c1 ← send_frame (rpc_request id method params) c;
  a ← read_response id (printed c1);
  mret (a.1, keep a.2 c1).
Definition call_inner (program : string) (args : list string) (tool : string) (arguments : Json) : result ActantError Json :=
  match spawn program args with
  | Err e => Err (Internal ("spawn " +:+ program +:+ ": " +:+ e))
  | Ok c =>
      a ← ask 1 "initialize" (jobj [("protocolVersion", JString "2024-11-05"); ("capabilities", JObject []);
            ("clientInfo", jobj [("name", JString "actant-workers"); ("version", JString pkg_version)])]) c;
      b ← ask 2 "tools/call" (jobj [("name", JString tool); ("arguments", arguments)]) a.2;
      mret b.1
  end.
(** [tokio::time::timeout]: whether the deadline passes first. *)
Definition mcp_call (late : Z -> bool) (shown : Z -> string) (timeout_ms : Z) (program : string) (args : list string)
    (tool : string) (arguments : Json) : result ActantError Json :=
  if late timeout_ms then Err (Internal ("mcp.call timed out after " +:+ shown timeout_ms))
  else call_inner program args tool arguments.
Definition mcp_handle (late : Z -> bool) (shown : Z -> string) (input : Json) : result ActantError Json :=
  match (match jget "program" input with Some v => as_str v | None => text_of "server" input end) with
  | None => Err (InvalidInput "missing program/server")
  | Some program =>
      let args := match jget "args" input with Some (JArray l) => omap as_str l | _ => [] end in
      match text_of "tool" input with
      | None => Err (InvalidInput "missing tool")
      | Some tool =>
          let arguments := default JNull (jget "arguments" input) in
          let timeout_ms := default 15000 (jget "timeout_ms" input ≫= as_u64) in
          res ← mcp_call late shown timeout_ms program args tool arguments;
          mret (jobj [("program", JString program); ("tool", JString tool); ("result", res)])
      end
  end.
End mcp.

(** ** The manager *)

Record ManagerConfig := mkManagerConfig {
  mc_shell : bool; mc_file : bool; mc_model : bool; mc_email : bool; mc_slack : bool; mc_browser : bool; mc_mcp : bool
}.
Definition all_workers : ManagerConfig := mkManagerConfig true true true true true true true.
Definition any_enabled (c : ManagerConfig) : bool :=
  mc_shell c || mc_file c || mc_model c || mc_email c || mc_slack c || mc_browser c || mc_mcp c.
Definition manager_capabilities (c : ManagerConfig) : list string :=
  (if mc_shell c then ["shell.run"] else []) ++ (if mc_file c then ["file.read"; "file.write"] else [])
  ++ (if mc_model c then ["model.call"] else []) ++ (if mc_email c then ["email.send"] else [])
  ++ (if mc_slack c then ["slack.post"] else []) ++ (if mc_browser c then ["browser.navigate"] else [])
  ++ (if mc_mcp c then ["mcp.call"] else []).

(** The handlers the binary hosts, each with its types and what a call gives. *)
Section manager.
Context (handle : string -> nat -> Json -> result ActantError Json).
Definition hosted (c : ManagerConfig) : list Handler :=
  let host t types := [mkHandler t types (handle t)] in
  (if mc_shell c then host "shell.run" [] else []) ++ (if mc_file c then host "file.read" file_types else [])
  ++ (if mc_model c then host "model.call" [] else []) ++ (if mc_email c then host "email.send" [] else [])
  ++ (if mc_slack c then host "slack.post" [] else []) ++ (if mc_browser c then host "browser.navigate" browser_types else [])
  ++ (if mc_mcp c then host "mcp.call" [] else []).
Definition manager_runner (c : ManagerConfig) (ws actor name id : string) : WorkerRunner :=
  mkWorkerRunner (mkWorkerDescriptor ws actor name (manager_capabilities c)) id (hosted c).
(** [main]: the configuration the flags give. *)
Definition manager_main (all : bool) (flags : ManagerConfig) (ws actor name id : string) : result string WorkerRunner :=
  let c := if all then all_workers else flags in
  if negb (any_enabled c) then Err "no workers selected; pass --all or one of --shell/--file/..."
  else Ok (manager_runner c ws actor name id).
End manager.

(** ** Where an accepted path leads *)

Lemma split_char_sep c a b : split_char c (a +:+ String c b) = split_char c a ++ split_char c b.
Proof.
  induction a as [|x a IH]; simpl.
  - by rewrite Ascii.eqb_refl.
  - destruct (Ascii.eqb x c); [by rewrite IH|]. rewrite IH.
    destruct (split_char c a) as [|h t] eqn:Ha; [by apply split_char_nonnil in Ha|]. done.
Qed.
(** A name that is no separator, no dot and no parent. *)
Definition plain_name (s : string) : Prop :=
  s <> "" /\ s <> "." /\ s <> ".." /\ contains_char "/"%char s = false.
Lemma plain_component s : plain_name s -> component_of s = Some (Normal s).
Proof.
  intros (H1 & H2 & H3 & _). unfold component_of.
  destruct (String.eqb_spec s ""), (String.eqb_spec s "."), (String.eqb_spec s ".."); done.
Qed.
Lemma starts_head a x : starts_with "/" (String a x) = Ascii.eqb "/"%char a.
Proof. unfold starts_with. cbn [strip_prefix]. by destruct (Ascii.eqb "/"%char a). Qed.
Lemma plain_start s : plain_name s -> starts_with "/" s = false.
Proof.
  intros (_ & _ & _ & Hc). destruct s as [|a s]; [done|]. simpl in Hc. apply orb_false_elim in Hc as [Ha _].
  rewrite starts_head, Ascii.eqb_sym. exact Ha.
Qed.

Lemma path_segments n ns : Forall plain_name (n :: ns) -> split_char "/"%char (join "/" (n :: ns)) = n :: ns.
Proof.
  revert n. induction ns as [|m ns IH]; intros n Hp; apply Forall_cons in Hp as [Hn Hp].
  - simpl. by apply split_char_none, Hn.
  - change (join "/" (n :: m :: ns)) with (n +:+ String "/"%char (join "/" (m :: ns))).
    rewrite split_char_sep, (IH m Hp). by rewrite (split_char_none _ n) by apply Hn.
Qed.

Lemma split_char_no c x s : In s (split_char c x) -> contains_char c s = false.
Proof.
  revert s. induction x as [|a x IH]; intros s; simpl; [by intros [<-|[]]|].
  destruct (Ascii.eqb_spec a c) as [->|Hne]; [intros [<-|Hs]; [done|by apply IH]|].
  destruct (split_char c x) as [|h t] eqn:Hx; [by apply split_char_nonnil in Hx|].
  intros [<-|Hs]; [|apply IH; by right]. simpl. destruct (Ascii.eqb_spec a c); [done|]. apply IH. by left.
Qed.
Lemma ends_with_contains a s : ends_with (String a "") s = true -> contains_char a s = true.
Proof.
  induction s as [|b s IH]; [done|]. simpl. intros [H|H]%orb_prop; [|by rewrite (IH H), orb_true_r].
  apply andb_prop in H as [H _]. by rewrite Ascii.eqb_sym, H.
Qed.

Lemma join_snoc acc n : acc <> [] -> join "/" (acc ++ [n]) = join "/" acc +:+ "/" +:+ n.
Proof.
  induction acc as [|a [|b acc] IH]; [done|done|]. intros _. change ((a :: b :: acc) ++ [n]) with (a :: (b :: acc) ++ [n]).
  change (join "/" (a :: (b :: acc) ++ [n])) with (a +:+ "/" +:+ join "/" ((b :: acc) ++ [n])). rewrite IH by done.
  change (join "/" (a :: b :: acc)) with (a +:+ "/" +:+ join "/" (b :: acc)). by rewrite !append_assoc.
Qed.
(** Names joined by separators end in a name. *)
Lemma ends_with_join n ns : Forall plain_name (n :: ns) -> ends_with "/" (join "/" (n :: ns)) = false.
Proof.
  revert n. induction ns as [|m ns IH]; intros n Hp; apply Forall_cons in Hp as [Hn Hp].
  - simpl. destruct (ends_with "/" n) eqn:He; [|done]. apply ends_with_contains in He. destruct Hn as (_ & _ & _ & Hc). by rewrite Hc in He.
  - specialize (IH m Hp). change (join "/" (n :: m :: ns)) with (n +:+ "/" +:+ join "/" (m :: ns)).
    assert (Hb : forall a b, b <> "" -> ends_with "/" b = false -> ends_with "/" (a +:+ b) = false).
    { intros a b Hb Heb. induction a as [|x a IHa]; [done|]. change (String x a +:+ b) with (String x (a +:+ b)).
      cbn [ends_with]. rewrite IHa. destruct (String.eqb_spec "/" (String x (a +:+ b))) as [[= _ Hab]|]; [|done].
      destruct a, b; done. }
    apply Forall_cons in Hp as [Hm _]. assert (Hj : join "/" (m :: ns) <> "").
    { destruct Hm as (Hm & _). destruct ns; [done|]. simpl. by destruct m. }
    apply Hb; [done|]. apply Hb; [done|exact IH].
Qed.
Lemma push_join acc n : Forall plain_name acc -> plain_name n -> push_path (join "/" acc) n = join "/" (acc ++ [n]).
Proof.
  intros Ha Hn. unfold push_path, is_absolute. rewrite (plain_start n Hn). destruct acc as [|a acc]; [done|].
  rewrite ends_with_join, join_snoc by done. rewrite orb_false_r. destruct (String.eqb_spec (join "/" (a :: acc)) "") as [He|_]; [|done].
  exfalso. apply Forall_cons in Ha as [(Ha & _) _]. destruct acc; simpl in He; [done|]. by destruct a.
Qed.

Definition names_of (cs : list Component) : list string := omap (fun c => match c with Normal s => Some s | _ => None end) cs.
Lemma normalize_spec cand cs acc :
  Forall plain_name acc -> (forall s, In (Normal s) cs -> plain_name s) ->
  match normalize cand cs (join "/" acc) with
  | Ok out => out = join "/" (acc ++ names_of cs) /\ ~ In ParentDir cs /\ ~ In RootDir cs
  | Err _ => In ParentDir cs \/ In RootDir cs
  end.
Proof.
  revert acc. induction cs as [|c cs IH]; intros acc Ha Hs; [change (names_of []) with (@nil string); rewrite app_nil_r; repeat split; intros []|].
  destruct c as [| | |n]; simpl.
  - by right; left.
  - specialize (IH acc Ha (fun s Hin => Hs s (or_intror Hin))). destruct (normalize _ _ _).
    + destruct IH as (-> & H1 & H2). split; [done|]. split; intros [?|?]; done.
    + destruct IH; [left|right]; by right.
  - by left; left.
  - assert (Hn : plain_name n) by (apply Hs; by left). rewrite push_join by done.
    specialize (IH (acc ++ [n]) ltac:(apply Forall_app; auto) (fun s Hin => Hs s (or_intror Hin))). destruct (normalize _ _ _).
    + destruct IH as (-> & H1 & H2). rewrite <- app_assoc. split; [done|]. split; intros [?|?]; done.
    + destruct IH; [left|right]; by right.
Qed.

Lemma component_plain seg s : contains_char "/"%char seg = false -> component_of seg = Some (Normal s) -> plain_name s.
Proof.
  intros Hc. unfold component_of. destruct (String.eqb_spec seg ""), (String.eqb_spec seg "."); try done.
  simpl. destruct (String.eqb_spec seg ".."); [done|]. by intros [= <-].
Qed.
Lemma components_plain path s : In (Normal s) (components path) -> plain_name s.
Proof.
  unfold components. intros [Hd|Hin]%in_app_or.
  - destruct (starts_with "/" path); [by destruct Hd|]. repeat case_match; try done. by destruct Hd.
  - apply list_elem_of_In, list_elem_of_omap in Hin as (seg & Hseg & Hc). apply list_elem_of_In, split_char_no in Hseg.
    by eapply component_plain.
Qed.
Lemma relative_no_root path : is_absolute path = false -> ~ In RootDir (components path).
Proof.
  unfold is_absolute, components. intros ->. intros [Hd|Hin]%in_app_or.
  - repeat case_match; try done. by destruct Hd.
  - apply list_elem_of_In, list_elem_of_omap in Hin as (seg & _ & Hc). unfold component_of in Hc. repeat case_match; done.
Qed.

Lemma ends_with_slash s : ends_with "/" s = true -> exists b, s = b +:+ String "/"%char "".
Proof.
  induction s as [|a s IH]; [done|]. cbn [ends_with]. intros [He%String.eqb_eq|He]%orb_prop.
  - injection He as <- <-. by exists "".
  - destruct (IH He) as [b ->]. by exists (String a b).
Qed.

(** Appending names to a path appends them to its components. *)
Lemma components_push base n ns :
  Forall plain_name (n :: ns) ->
  components (push_path base (join "/" (n :: ns))) = components base ++ List.map Normal (n :: ns).
Proof.
  intros Hp. assert (Hn : plain_name n) by (by apply Forall_cons in Hp as [? _]).
  assert (Ho : omap component_of (n :: ns) = List.map Normal (n :: ns)).
  { clear Hn. induction (n :: ns) as [|m l IH]; [done|]. apply Forall_cons in Hp as [Hm Hp].
    cbn [omap list_omap List.map]. rewrite plain_component by done. f_equal. by apply IH. }
  assert (Hst : starts_with "/" (join "/" (n :: ns)) = false).
  { destruct ns as [|m ns]; [by apply plain_start|]. pose proof (plain_start n Hn) as Hs. destruct n as [|a n]; [by destruct Hn|].
    change (join "/" (String a n :: m :: ns)) with (String a (n +:+ "/" +:+ join "/" (m :: ns))). by rewrite starts_head in *. }
  pose proof (path_segments n ns Hp) as Hsp. clear Hp. revert Hst Hsp. generalize (join "/" (n :: ns)). intros J Hst Hsp.
  unfold push_path, is_absolute. rewrite Hst.
  assert (Hhead : forall b x y, b <> "" -> starts_with "/" (b +:+ String x y) = starts_with "/" b)
    by (intros [|c b] x y Hb; [done|]; change (String c b +:+ String x y) with (String c (b +:+ String x y)); by rewrite !starts_head).
  assert (Hdot : forall b, b <> "" -> match split_char "/"%char b ++ n :: ns with "." :: _ => [CurDir] | _ => [] end
    = match split_char "/"%char b with "." :: _ => [CurDir] | _ => [] end).
  { intros b _. destruct (split_char "/"%char b) eqn:Hb; [by apply split_char_nonnil in Hb|done]. }
  destruct (String.eqb_spec base "") as [->|Hb].
  - cbn [orb]. rewrite append_nil. unfold components. rewrite Hst, Hsp, Ho. destruct Hn as (_ & Hd & _).
    replace (match n :: ns with "." :: _ => [CurDir] | _ => [] end) with (@nil Component); [done|].
    clear -Hd. repeat case_match; subst; done.
  - cbn [orb]. destruct (ends_with "/" base) eqn:He.
    + destruct (ends_with_slash base He) as [b ->]. destruct (String.eqb_spec b "") as [->|Hne].
      * unfold components. rewrite append_assoc, !append_cons, !append_nil, starts_head. change (Ascii.eqb "/" "/") with true.
        change (String "/"%char J) with ("" +:+ String "/"%char J). rewrite split_char_sep, Hsp. rewrite omap_app, Ho. done.
      * rewrite append_assoc, append_cons, append_nil. unfold components. rewrite !Hhead, !split_char_sep, Hsp by done.
        rewrite !omap_app, Ho. change (omap component_of (split_char "/"%char "")) with (@nil Component).
        rewrite app_nil_r, app_assoc. f_equal. f_equal. destruct (starts_with "/" b); [done|]. rewrite Hdot by done.
        by destruct (split_char "/"%char b) eqn:Hs; [apply split_char_nonnil in Hs|].
    + rewrite append_cons, append_nil. unfold components. rewrite Hhead, split_char_sep, Hsp by done. rewrite omap_app, Ho, app_assoc.
      f_equal. f_equal. destruct (starts_with "/" base); [done|]. by apply Hdot.
Qed.

(** [validate_path] accepts a candidate exactly when it has no NUL byte, is not
    absolute, climbs nowhere and names something; the path it returns is the base
    followed by the names of the candidate, each a plain name, so that it is under
    the base component by component. *)
Theorem validate_path_spec (base candidate : string) :
  match validate_path base candidate with
  | Ok p =>
      contains_char nul candidate = false /\ is_absolute candidate = false /\ ~ In ParentDir (components candidate) /\
      names_of (components candidate) <> [] /\ Forall plain_name (names_of (components candidate)) /\
      p = push_path base (join "/" (names_of (components candidate))) /\
      components p = components base ++ List.map Normal (names_of (components candidate))
  | Err _ =>
      contains_char nul candidate = true \/ is_absolute candidate = true \/ In ParentDir (components candidate) \/
      names_of (components candidate) = []
  end.
Proof.
  unfold validate_path. destruct (contains_char nul candidate) eqn:Hn; [by left|].
  destruct (is_absolute candidate) eqn:Ha; [by right; left|].
  pose proof (normalize_spec candidate (components candidate) [] (Forall_nil_2 _) (components_plain candidate)) as Hs.
  change (join "/" []) with "" in Hs. cbn [app] in Hs. destruct (normalize candidate (components candidate) "") as [out|e].
  - destruct Hs as (-> & Hp & _). assert (Hplain : Forall plain_name (names_of (components candidate))).
    { apply List.Forall_forall. intros x Hx. unfold names_of in Hx. apply list_elem_of_In, list_elem_of_omap in Hx as (c & Hc & Hcx).
      destruct c; try done. injection Hcx as ->. by apply (components_plain candidate), list_elem_of_In. }
    destruct (names_of (components candidate)) as [|n ns] eqn:Hnames; [right; right; by right|].
    destruct (String.eqb_spec (join "/" (n :: ns)) "") as [He|_].
    + exfalso. apply Forall_cons in Hplain as [(Hn0 & _) _]. destruct ns; simpl in He; [done|]. by destruct n.
    + split_and!; try done. by apply components_push.
  - destruct Hs as [Hp|Hr]; [right; right; by left|]. exfalso. by apply (relative_no_root candidate).
Qed.

(** ** What the manager serves *)

(** Of the types a manager claims work for, every one but [file.write] has a handler:
    an effect of that type is taken from the queue and failed. *)
Theorem manager_serves (handle : string -> nat -> Json -> result ActantError Json) (c : ManagerConfig)
    (ws actor name id cap : string) :
  In cap (manager_capabilities c) ->
  (find_handler (manager_runner handle c ws actor name id) cap = None <-> cap = "file.write").
Proof.
  destruct c as [[] [] [] [] [] [] []]; simpl; intros Hin;
    repeat (destruct Hin as [<-|Hin]; [split; done|]); destruct Hin.
Qed.

(** ** Reading a response *)

Section mcp_reads.
Context `{SerdeJson} (bad_frame debug : string -> string).
(** A line the loop passes over: blank, or a frame with another id or none. *)
Definition passed_over (want : Z) (line : string) : Prop :=
  trim line = "" \/ exists f, (v ← from_str line; decode_rpc v) = Some f /\ jr_id f <> Some want.
(** The loop passes over everything up to the first frame with its id, which decides;
    a child that never sends one is read to its end. *)
Theorem read_response_spec (want : Z) (pre : list string) (line : string) (f : JsonRpcResponse) (rest : Reads) :
  Forall (passed_over want) pre -> trim line <> "" -> (v ← from_str line; decode_rpc v) = Some f -> jr_id f = Some want ->
  read_response bad_frame debug want (List.map inr pre ++ inr line :: rest)
    = match jr_error f with
      | Some e => Err (Internal ("mcp error " +:+ show_int (je_code e) +:+ ": " +:+ je_message e))
      | None => Ok (default JNull (jr_result f), rest)
      end /\
  read_response bad_frame debug want (List.map inr pre) = Err (Internal "mcp child closed stdout before responding").
Proof.
  intros Hpre Hline Hf Hid. induction Hpre as [|l pre Hl _ [IH1 IH2]].
  - split; [|done]. simpl. destruct (String.eqb_spec (trim line) ""); [done|]. simpl in Hf. rewrite Hf, Hid.
    by rewrite bool_decide_false by (intros Hne; by apply Hne).
  - cbn [List.map app read_response]. destruct Hl as [Hb|(g & Hg & Hne)].
    + by rewrite Hb.
    + destruct (String.eqb (trim l) ""); [done|]. rewrite Hg. by rewrite bool_decide_true by done.
Qed.
End mcp_reads.

(** ** Where the workers do not do what they say *)

(** An effect that is allowed to read writes, when its input has contents. *)
Example read_effect_writes :
  let w path contents := fun fs : list (string * string) => (Ok tt : result string unit, (path, contents) :: fs) in
  let r path := fun fs : list (string * string) => (Err "absent" : result string string, fs) in
  (file_handle w r (jobj [("path", JString "/etc/passwd"); ("contents", JString "root::0:0")]) []).2
    = [("/etc/passwd", "root::0:0")].
Proof. reflexivity. Qed.
(** The path it gets is not one the check accepts. *)
Example handled_path_not_checked : validate_path "/work" "/etc/passwd" = Err (InvalidInput "absolute paths are rejected: /etc/passwd").
Proof. reflexivity. Qed.
(** A web hook that refuses the post. *)
Example refused_post_is_posted :
  (slack_handle (post_http (fun _ _ (s : unit) => (Ok 404, s)))
     (jobj [("webhook_url", JString "https://hooks"); ("text", JString "hi")]) tt).1 = Ok (jobj [("posted", JBool true)]).
Proof. reflexivity. Qed.
(** A prompt with a character across its eightieth byte. *)
Fixpoint repeat_char (n : nat) (s : string) : string := match n with O => s | S n' => String "a"%char (repeat_char n' s) end.
Definition e_acute : string := String "195"%char (String "169"%char "").
Example prompt_panics :
  (model_handle (fun _ _ _ (s : unit) => (inl "", s)) Mock (jobj [("prompt", JString (repeat_char 79 e_acute))]) tt).1 = Panics.
Proof. vm_compute. reflexivity. Qed.
