(* ===== verification/Cdp.v ===== *)
(** * The Chrome driver ([actant-workers/src/browser/cdp.rs])

    Calls over one WebSocket: a call takes the next id, leaves a waiter under it and
    sends its frame; the receive pump hands every frame with an id to its waiter.
    [run_events] interleaves calls, frames and givers-up in any order.  The actions
    are written over a call that is a parameter, with a clock and sleeps; the launch
    is the list of what it does to the machine, given how each step goes.  Chrome,
    the socket and the file system are parameters. *)

From S2P Require Import Prelude Str Json Core Workers.
#[local] Open Scope string_scope.
#[local] Open Scope list_scope.
#[local] Open Scope Z_scope.

(** ** Calls and the pump *)

Record Conn := mkConn {
  next_id : Z; pending : gset Z;   (* the waiters the pump knows *)
  given_up : gset Z;               (* calls that no longer wait *)
  delivered : gmap Z Json; sink_open : bool
}.
Definition boot : Conn := mkConn 1 ∅ ∅ ∅ true.
Definition frame_id (v : Json) : option Z := jget "id" v ≫= as_u64.
Definition rpc_frame (id : Z) (method : string) (params : Json) (session : option string) : Json :=
  jobj ([("id", JNumber (PosInt id)); ("method", JString method); ("params", params)]
        ++ match session with Some s => [("sessionId", JString s)] | None => [] end).

Inductive ConnEvent :=
| Call (sent : bool)       (* a call begins; whether its frame goes out *)
| Arrives (v : Json)       (* the pump reads a frame *)
| GivesUp (id : Z)         (* a waiter's timeout *)
| CloseSink.

(** [rpc]: the waiter is there before the frame is sent, and stays when that fails. *)
Definition begin_call (sent : bool) (c : Conn) : Conn :=
  let id := next_id c in
  mkConn (id + 1) ({[id]} ∪ pending c)
    (if sent && sink_open c then given_up c ∖ {[id]} else {[id]} ∪ given_up c) (delivered c) (sink_open c).
(** The pump: a frame whose id nobody waits for is dropped, and so is one whose
    waiter has given up; an event without an id is ignored. *)
Definition pump (v : Json) (c : Conn) : Conn :=
  match frame_id v with
  | Some id =>
      if bool_decide (id ∈ pending c)
      then mkConn (next_id c) (pending c ∖ {[id]}) (given_up c)
             (if bool_decide (id ∈ given_up c) then delivered c else <[id := v]> (delivered c)) (sink_open c)
      else c
  | None => c
  end.
Definition conn_step (e : ConnEvent) (c : Conn) : Conn :=
  match e with
  | Call sent => begin_call sent c
  | Arrives v => pump v c
  | GivesUp id => mkConn (next_id c) (pending c) ({[id]} ∪ given_up c) (delivered c) (sink_open c)
  | CloseSink => mkConn (next_id c) (pending c) (given_up c) (delivered c) false
  end.
Fixpoint run_events (es : list ConnEvent) (c : Conn) : Conn :=
  match es with [] => c | e :: es' => run_events es' (conn_step e c) end.

(** What a call returns, once it has its reply. *)
Section texts.
Context `{SerdeJson}.
Definition rpc_result (method : string) (reply : Json) : result ActantError Json :=
  match jget "error" reply with
  | Some err => Err (Internal ("cdp rpc " +:+ method +:+ " error: " +:+ to_string err))
  | None => Ok (default JNull (jget "result" reply))
  end.
Definition json_string (s : string) : string := to_string (JString s).

(** ** The actions *)

Section actions.
Context {St : Type} (rpc : string -> Json -> M St ActantError Json).
(** The monotonic clock, in milliseconds, and sleeping. *)
Context (instant : St -> Z) (sleep : Z -> St -> St).
#[local] Abbreviation Act A := (M St ActantError A).

Definition evaluate (expression : string) : Act Json :=
  rpc "Runtime.evaluate" (jobj [("expression", JString expression); ("returnByValue", JBool true)]).
Definition value_text (r : Json) : string :=
  default "" (x ← jget "result" r; v ← jget "value" x; as_str v).

(** [None]: out of fuel. *)
Fixpoint poll (fuel : nat) (deadline : Z) (s : St) : option (result ActantError unit * St) :=
  match fuel with
  | O => None
  | S f =>
      match evaluate "document.readyState" s with
      | (Err e, s1) => Some (Err e, s1)
      | (Ok r, s1) =>
          if String.eqb (value_text r) "complete" then Some (Ok tt, s1)
          else if deadline <=? instant s1 then Some (Ok tt, s1)
          else poll f deadline (sleep 50 s1)
      end
  end.
Definition poll_fuel : nat := 402.
Definition navigate (url : string) : Act Json :=
  _ ← rpc "Page.navigate" (jobj [("url", JString url)]);
  (fun s => match poll poll_fuel (instant s + 20000) s with
            | Some a => a
            | None => (Err (Internal "unreachable"), s)
            end);;
  t ← evaluate "document.title";
  mret (jobj [("title", JString (value_text t)); ("url", JString url)]).

Definition raise_details (what : string) (r : Json) : Act unit :=
  match jget "exceptionDetails" r with
  | Some exc => throw (Internal (what +:+ " failed: " +:+ to_string exc))
  | None => mret tt
  end.
Definition click_script (selector : string) : string :=
  "(() => { const el = document.querySelector(" +:+ json_string selector
  +:+ "); if (!el) { throw new Error('selector not found'); } el.click(); return true; })()".
Definition click (selector : string) : Act Json :=
  r ← evaluate (click_script selector);
  raise_details "click" r;;
  mret (jobj [("clicked", JString selector)]).
Definition type_script (selector text : string) : string :=
  "(() => { const el = document.querySelector(" +:+ json_string selector
  +:+ "); if (!el) { throw new Error('selector not found'); } el.focus(); el.value = " +:+ json_string text
  +:+ "; el.dispatchEvent(new Event('input', { bubbles: true })); el.dispatchEvent(new Event('change', { bubbles: true })); return true; })()".
Definition type_text (selector text : string) : Act Json :=
  r ← evaluate (type_script selector text);
  raise_details "type" r;;
  mret (jobj [("typed", JString text); ("into", JString selector)]).

(** The number of equals signs at the end, and the bytes a base64 text stands for;
    on 64-bit words the subtraction wraps in a release build. *)
Fixpoint trailing_equals (s : string) : Z :=
  match s with
  | EmptyString => 0
  | String a s' => if all_chars (Ascii.eqb "="%char) s then str_len s else trailing_equals s'
  end.
Definition png_bytes (b64 : string) : Z :=
  if String.eqb b64 "" then 0 else (str_len b64 / 4 * 3 - trailing_equals b64) mod 2 ^ 64.
Definition screenshot : Act Json :=
  r ← rpc "Page.captureScreenshot" (jobj [("format", JString "png")]);
  match text_of "data" r with
  | None => throw (Internal "captureScreenshot: missing data")
  | Some b64 =>
      dims ← evaluate "JSON.stringify({w: window.innerWidth, h: window.innerHeight})";
      let v := x ← jget "result" dims; y ← jget "value" x; t ← as_str y; from_str t in
      let side k := default 0 (d ← v; x ← jget k d; as_u64 x) in
      mret (jobj [("bytes", JNumber (PosInt (png_bytes b64))); ("width", JNumber (PosInt (side "w")));
                  ("height", JNumber (PosInt (side "h"))); ("format", JString "png")])
  end.
Definition run_action (a : Action) : Act Json :=
  match a with
  | Navigate url => navigate url
  | Click sel => click sel
  | Type_ sel text => type_text sel text
  | Screenshot => screenshot
  end.
End actions.
End texts.

(** ** Finding Chrome *)

Section machine.
Context (var : string -> option string) (path_dirs : list string) (exists_ is_file : string -> bool).
Definition which_on_path (prog : string) : option string :=
  List.find is_file (List.map (fun dir => push_path dir prog) path_dirs).
Definition chrome_names : list string := ["google-chrome"; "google-chrome-stable"; "chromium"; "chromium-browser"; "chrome"].
Definition bundles : list string :=
  ["/Applications/Google Chrome.app/Contents/MacOS/Google Chrome"; "/Applications/Chromium.app/Contents/MacOS/Chromium";
   "/Applications/Microsoft Edge.app/Contents/MacOS/Microsoft Edge"].
Fixpoint first_some {A B} (f : A -> option B) (l : list A) : option B :=
  match l with [] => None | x :: l' => match f x with Some y => Some y | None => first_some f l' end end.
Definition resolve_chrome_binary : option string :=
  match (p ← var "CHROME_PATH"; if negb (String.eqb p "") && exists_ p then Some p else None) with
  | Some p => Some p
  | None =>
      match first_some which_on_path chrome_names with
      | Some p => Some p
      | None => List.find exists_ bundles
      end
  end.
End machine.

(** The text from the first occurrence on, and up to the first white space. *)
Fixpoint from_first (p s : string) : option string :=
  if starts_with p s then Some s else match s with EmptyString => None | String _ s' => from_first p s' end.
Fixpoint up_to_space (s : string) : string :=
  if (0 <? ws_len s)%nat then "" else match s with EmptyString => "" | String a s' => String a (up_to_space s') end.
(** The lines Chrome prints: a line or a failure, as long as it prints. *)
Fixpoint parse_devtools_url (lines : list (string + string)) : result ActantError string :=
  match lines with
  | [] => Err (Internal "chrome stderr closed before DevTools URL")
  | inl e :: _ => Err (Internal ("chrome stderr read: " +:+ e))
  | inr line :: rest =>
      match from_first "ws://" line with
      | Some tail => Ok (up_to_space tail)
      | None => parse_devtools_url rest
      end
  end.

(** ** Launching *)

(** What a launch does to the machine; a child that is dropped is killed. *)
Inductive Did := MadeDir | SpawnedChrome | KilledChrome | RemovedDir | StartedPump | AbortedPump.
#[global] Instance Did_eq_dec : EqDecision Did.
Proof. solve_decision. Defined.
(** How each step goes; the URL is [None] when its ten seconds pass first. *)
Record Steps := mkSteps {
  s_binary : option string; s_mkdir : option string; s_spawn : option string; s_stderr : bool;
  s_url : option (result ActantError string); s_connect : option string; s_rpc : string -> result ActantError Json
}.
Definition tear_down : list Did := [AbortedPump; KilledChrome; RemovedDir].
(** [bootstrap_try!] around the four calls. *)
Definition bootstrap (rpc : string -> result ActantError Json) : result ActantError (string * string) :=
  res ← rpc "Target.createTarget";
  target ← match text_of "targetId" res with
           | Some t => Ok t | None => Err (Internal "Target.createTarget: missing targetId") end;
  res ← rpc "Target.attachToTarget";
  session ← match text_of "sessionId" res with
            | Some t => Ok t | None => Err (Internal "Target.attachToTarget: missing sessionId") end;
  _ ← rpc "Page.enable";
  _ ← rpc "Runtime.enable";
  mret (target, session).
Definition launch_headless (s : Steps) : result ActantError (string * string) * list Did :=
  match s_binary s with
  | None => (Err (Internal "no Chrome/Chromium binary found; set CHROME_PATH or install Chrome"), [])
  | Some _ =>
      match s_mkdir s with
      | Some e => (Err (Internal ("create user-data-dir: " +:+ e)), [])
      | None =>
          match s_spawn s with
          | Some e => (Err (Internal ("spawn chrome: " +:+ e)), [MadeDir])
          | None =>
              if negb (s_stderr s) then (Err (Internal "chrome stderr unavailable"), [MadeDir; SpawnedChrome; KilledChrome])
              else
                match s_url s with
                | None => (Err (Internal "timed out waiting 10s for DevTools listening line"),
                           [MadeDir; SpawnedChrome; KilledChrome; RemovedDir])
                | Some (Err e) => (Err e, [MadeDir; SpawnedChrome; KilledChrome; RemovedDir])
                | Some (Ok url) =>
                    match s_connect s with
                    | Some e => (Err (Internal ("ws connect " +:+ url +:+ ": " +:+ e)), [MadeDir; SpawnedChrome; KilledChrome])
                    | None =>
                        match bootstrap (s_rpc s) with
                        | Ok ids => (Ok ids, [MadeDir; SpawnedChrome; StartedPump])
                        | Err e => (Err e, [MadeDir; SpawnedChrome; StartedPump] ++ tear_down)
                        end
                    end
                end
          end
      end
  end.
(** [close], once it has asked the target to close. *)
Definition close (c : Conn) : Conn * list Did := (conn_step CloseSink c, tear_down).

(** ** Replies find their callers *)

Lemma run_events_app a b c : run_events (a ++ b) c = run_events b (run_events a c).
Proof. revert c. induction a as [|e a IH]; intros c; [done|]. apply IH. Qed.

(** Waiters and replies are under ids that were given out, and no call has both. *)
Record conn_ok (c : Conn) : Prop := {
  ok_first : 1 <= next_id c;
  ok_pending : forall k, k ∈ pending c -> 1 <= k < next_id c /\ delivered c !! k = None;
  ok_delivered : forall k v, delivered c !! k = Some v -> 1 <= k < next_id c /\ frame_id v = Some k
}.
Lemma boot_ok : conn_ok boot.
Proof. split; [done|intros k; set_solver|by intros k v]. Qed.
Lemma step_ok e c : conn_ok c -> conn_ok (conn_step e c).
Proof.
  intros [H1 Hp Hd]. destruct e as [sent|v|id|]; simpl; [| |by split|by split].
  - split; simpl; [lia| |].
    + intros k [->%elem_of_singleton|Hk]%elem_of_union.
      * split; [lia|]. destruct (delivered c !! next_id c) eqn:He; [|done]. apply Hd in He. lia.
      * destruct (Hp k Hk). split; [lia|done].
    + intros k v Hv. destruct (Hd k v Hv). split; [lia|done].
  - unfold pump. destruct (frame_id v) as [id|] eqn:Hf; [|by split].
    destruct (bool_decide_reflect (id ∈ pending c)) as [Hin|_]; [|by split]. destruct (Hp id Hin) as [Hid Hn].
    split; simpl; [done| |].
    + intros k [Hk Hne]%elem_of_difference. destruct (Hp k Hk) as [? Hdk]. split; [done|].
      destruct (bool_decide _); [done|]. rewrite lookup_insert_ne; [done|set_solver].
    + intros k w. destruct (bool_decide _); [apply Hd|]. intros [[<- <-]|[_ Hw]]%lookup_insert_Some; [done|by apply Hd].
Qed.
Lemma run_ok es c : conn_ok c -> conn_ok (run_events es c).
Proof. revert c. induction es as [|e es IH]; intros c Hc; [done|]. apply IH, step_ok, Hc. Qed.

(** Nothing is said to a call twice, and its waiter stays until its frame comes. *)
Lemma delivered_stays e c k v : conn_ok c -> delivered c !! k = Some v -> delivered (conn_step e c) !! k = Some v.
Proof.
  intros Hc Hv. destruct e as [sent|w|id|]; simpl; try done. unfold pump. destruct (frame_id w) as [id|]; [|done].
  destruct (bool_decide_reflect (id ∈ pending c)) as [Hin|_]; [|done]. simpl. destruct (bool_decide _); [done|].
  rewrite lookup_insert_ne; [done|]. intros ->. apply (ok_pending c Hc) in Hin as [_ Hn]. congruence.
Qed.
Definition leaves_alone (k : Z) (e : ConnEvent) : Prop :=
  match e with Arrives v => frame_id v <> Some k | GivesUp id => id <> k | _ => True end.
Lemma waiter_stays e c k :
  conn_ok c -> leaves_alone k e -> k ∈ pending c -> k ∉ given_up c ->
  k ∈ pending (conn_step e c) /\ k ∉ given_up (conn_step e c).
Proof.
  intros Hc He Hk Hg. destruct e as [sent|v|id|]; simpl in *; [| |split; [done|set_solver]|done].
  - pose proof (ok_pending c Hc k Hk) as [? _]. split; [set_solver|]. destruct (sent && sink_open c); [set_solver|].
    intros [->%elem_of_singleton|?]%elem_of_union; [lia|done].
  - unfold pump. destruct (frame_id v) as [id|]; [|done]. destruct (bool_decide (id ∈ pending c)); [|done]. simpl.
    split; [|done]. apply elem_of_difference. split; [done|]. intros ->%elem_of_singleton. by apply He.
Qed.

(** However calls, frames and timeouts interleave: a call whose frame went out and
    that still waits gets the first frame with its id, whatever came before or
    after, and a reply is only ever delivered to the call that has its id. *)
Theorem rpc_replies_matched (a m b : list ConnEvent) (v : Json) (k : Z) :
  k = next_id (run_events a boot) -> sink_open (run_events a boot) = true ->
  Forall (leaves_alone k) m -> frame_id v = Some k ->
  let c := run_events (a ++ Call true :: m ++ Arrives v :: b) boot in
  delivered c !! k = Some v /\ (forall j w, delivered c !! j = Some w -> frame_id w = Some j).
Proof.
  intros Hk Hopen Hm Hv c. split.
  - unfold c. rewrite run_events_app. cbn [run_events]. rewrite run_events_app. cbn [run_events].
    pose proof (run_ok a boot boot_ok) as Hok. set (c0 := run_events a boot) in *.
    assert (Hw : forall m c1, Forall (leaves_alone k) m -> conn_ok c1 -> k ∈ pending c1 -> k ∉ given_up c1 ->
              conn_ok (run_events m c1) /\ k ∈ pending (run_events m c1) /\ k ∉ given_up (run_events m c1)).
    { clear. intros m. induction m as [|e m IH]; intros c1 Hm Hc Hp Hg; [done|]. apply Forall_cons in Hm as [He Hm].
      destruct (waiter_stays e c1 k Hc He Hp Hg). apply IH; [done|by apply step_ok|done..]. }
    destruct (Hw m (conn_step (Call true) c0) Hm (step_ok _ _ Hok)) as (Hok1 & Hp1 & Hg1).
    { simpl. set_solver. } { simpl. rewrite Hopen. simpl. set_solver. }
    assert (Hgot : delivered (conn_step (Arrives v) (run_events m (conn_step (Call true) c0))) !! k = Some v).
    { simpl. unfold pump. rewrite Hv, bool_decide_true by done. simpl. rewrite bool_decide_false by done. by rewrite lookup_insert_eq. }
    pose proof (step_ok (Arrives v) _ Hok1) as Hok2. revert Hgot Hok2.
    generalize (conn_step (Arrives v) (run_events m (conn_step (Call true) c0))). clear. intros c1 Hgot Hok.
    revert c1 Hgot Hok. induction b as [|e b IH]; intros c1 Hgot Hok; [done|]. apply IH; [by apply delivered_stays|by apply step_ok].
  - intros j w Hj. eapply ok_delivered; [apply run_ok, boot_ok|exact Hj].
Qed.

(** A waiter whose call timed out stays with the pump until a frame comes, if ever. *)
Example timed_out_waiter_stays : pending (run_events [Call true; GivesUp 1; Call false] boot) = {[1; 2]}.
Proof. vm_compute. reflexivity. Qed.

(** ** Waiting for a page *)

Section waiting.
Context `{SerdeJson} {St : Type} (rpc : string -> Json -> M St ActantError Json) (instant : St -> Z) (sleep : Z -> St -> St).
(** A monotonic clock, and a sleep that lasts at least as long as asked. *)
Hypothesis rpc_forward : forall m p s, instant s <= instant (rpc m p s).2.
Hypothesis sleep_lasts : forall d s, instant s + d <= instant (sleep d s).

Lemma poll_ends fuel deadline s :
  deadline - instant s <= 50 * (Z.of_nat fuel - 2) -> (2 <= fuel)%nat -> is_Some (poll rpc instant sleep fuel deadline s).
Proof.
  revert s. induction fuel as [|f IH]; intros s Hf Hn; [lia|]. simpl. unfold evaluate.
  pose proof (rpc_forward "Runtime.evaluate" (jobj [("expression", JString "document.readyState"); ("returnByValue", JBool true)]) s) as Hr.
  destruct (rpc _ _ s) as [[r|e] s1]; simpl in Hr; [|by eexists].
  destruct (String.eqb _ _); [by eexists|]. destruct (Z.leb_spec deadline (instant s1)) as [|Hlt]; [by eexists|].
  pose proof (sleep_lasts 50 s1). destruct f as [|[|f]]; [lia|lia|]. apply IH; lia.
Qed.
(** Navigation asks for the page's state at most 402 times: the twenty seconds pass
    before.  The fuel is enough. *)
Theorem navigate_ends (s : St) : is_Some (poll rpc instant sleep poll_fuel (instant s + 20000) s).
Proof. apply poll_ends; unfold poll_fuel; lia. Qed.
End waiting.

(** ** The size of a picture *)

Lemma trailing_equals_pad s p :
  contains_char "="%char s = false -> all_chars (Ascii.eqb "="%char) p = true -> trailing_equals (s +:+ p) = str_len p.
Proof.
  intros Hs Hp. induction s as [|a s IH].
  - rewrite append_nil. destruct p as [|a p]; [done|]. cbn [trailing_equals]. by rewrite Hp.
  - simpl in Hs. apply orb_false_elim in Hs as [Ha Hs]. rewrite append_cons. cbn [trailing_equals all_chars].
    rewrite Ascii.eqb_sym, Ha. by apply IH.
Qed.
(** The base64 text of [n] bytes has four digits for three bytes, and is padded to
    a multiple of four: the size the screenshot reports is [n]. *)
Theorem png_bytes_exact (digits pad : string) (n : Z) :
  0 < n < 2 ^ 62 -> contains_char "="%char digits = false -> all_chars (Ascii.eqb "="%char) pad = true ->
  str_len pad = (- n) mod 3 -> str_len (digits +:+ pad) = 4 * ((n + 2) / 3) -> png_bytes (digits +:+ pad) = n.
Proof.
  intros Hn Hd Hp Hpad Hlen. unfold png_bytes. destruct (String.eqb_spec (digits +:+ pad) "") as [He|_].
  - rewrite He in Hlen. change (str_len "") with 0 in Hlen. Z.div_mod_to_equations. lia.
  - rewrite trailing_equals_pad by done. rewrite Hlen, Hpad.
    replace (4 * ((n + 2) / 3) / 4) with ((n + 2) / 3) by (symmetry; rewrite Z.mul_comm; by apply Z.div_mul).
    rewrite Z.mod_small; Z.div_mod_to_equations; lia.
Qed.

(** ** Leaving nothing behind *)

(** A launch that fails leaves no Chrome and no pump running, and removes its
    directory unless it failed to spawn, to get the error stream or to connect. *)
Theorem launch_cleans_up (s : Steps) :
  let '(r, log) := launch_headless s in
  match r with
  | Ok _ => log = [MadeDir; SpawnedChrome; StartedPump]
  | Err _ =>
      (In SpawnedChrome log -> In KilledChrome log) /\ (In StartedPump log -> In AbortedPump log) /\
      (In MadeDir log -> In RemovedDir log \/ is_Some (s_spawn s) \/ s_stderr s = false \/ is_Some (s_connect s))
  end.
Proof.
  unfold launch_headless, tear_down. destruct (s_binary s); [|simpl; tauto]. destruct (s_mkdir s); [simpl; tauto|].
  destruct (s_spawn s) as [e|] eqn:Hsp; [simpl; intuition (eauto; done)|]. destruct (s_stderr s) eqn:Hst; [|simpl; intuition (eauto; done)].
  destruct (s_url s) as [[u|e]|]; [|simpl; intuition (eauto; done)..].
  destruct (s_connect s) as [e|] eqn:Hc; [simpl; intuition (eauto; done)|].
  destruct (bootstrap (s_rpc s)) as [ids|e]; [done|simpl; intuition (eauto; done)].
Qed.
(** When the socket cannot be opened the directory stays. *)
Example failed_connect_leaves_dir :
  (launch_headless (mkSteps (Some "chrome") None None true (Some (Ok "ws://x")) (Some "refused") (fun _ => Ok JNull))).2
    = [MadeDir; SpawnedChrome; KilledChrome].
Proof. reflexivity. Qed.

(** ** The address Chrome prints *)

Lemma from_first_prefix p s t : from_first p s = Some t -> starts_with p t = true.
Proof.
  induction s as [|a s IH]; cbn [from_first].
  - destruct (starts_with p "") eqn:H; [|done]. by intros [= <-].
  - destruct (starts_with p (String a s)) eqn:H; [by intros [= <-]|exact IH].
Qed.
(** The address is that of the first line that has one: the lines before it are
    passed over, and so is the end of the output. *)
Theorem devtools_url_spec (pre : list string) (line tail : string) (rest : list (string + string)) :
  Forall (fun l => from_first "ws://" l = None) pre -> from_first "ws://" line = Some tail ->
  parse_devtools_url (List.map inr pre ++ inr line :: rest) = Ok (up_to_space tail) /\
  parse_devtools_url (List.map inr pre) = Err (Internal "chrome stderr closed before DevTools URL").
Proof.
  intros Hpre Hl. induction Hpre as [|l pre Hn _ [IH1 IH2]]; simpl; [by rewrite Hl|]. rewrite Hn. by split.
Qed.
Example devtools_line :
  parse_devtools_url [inr "starting"; inr "DevTools listening on ws://127.0.0.1:9222/devtools/browser/x now"]
    = Ok "ws://127.0.0.1:9222/devtools/browser/x".
Proof. vm_compute. reflexivity. Qed.
