(* ===== verification/Sync.v ===== *)
(** * Chronicle sync ([actant-sync])

    [events_after] pages through a workspace's events in [(created_at, id)]
    order; [SyncRunner::run_once] pumps them to a destination.  The runner's
    theorems are proved against the destination contract of [destination.rs], a
    class that the filesystem destination implements (SyncFs.v). *)

From S2P Require Import Prelude Str Json Core Storage Chain.
#[local] Open Scope string_scope.
#[local] Open Scope list_scope.

Inductive SyncError :=
| CursorMismatch (persisted asked : option string)
| Io (msg : string)
| Backend (backend message : string)
| SStorage (msg : string)
| Serialize (msg : string)
| Unavailable (msg : string).

(** ** Reading the Chronicle *)

Definition ekey (e : AgentEvent) : string * string := (ev_created_at e, ev_id e).
#[local] Notation kcmp := (lex_cmp String.compare String.compare).
Definition key_lt (a b : AgentEvent) : Prop := kcmp (ekey a) (ekey b) = Lt.

(** The workspace's events, [ORDER BY created_at ASC, id ASC]. *)
Definition feed (ws : string) (l : Ledger) : list AgentEvent :=
  List.map er_event (select_events (in_scope ws None) l).

(** [created_at > ? OR (created_at = ? AND id > ?)]. *)
Definition newer (created id : string) (e : AgentEvent) : bool :=
  cmp_lt (cmp:=String.compare) created (ev_created_at e)
  || (String.eqb (ev_created_at e) created && cmp_lt (cmp:=String.compare) id (ev_id e)).

(** [SELECT created_at FROM agent_event WHERE id = ? AND workspace_id = ?]. *)
Definition cursor_created_at (ws : string) (since : option string) (l : Ledger) : option string :=
  id ← since;
  r ← events l !! id;
  if String.eqb (ev_workspace_id (er_event r)) ws then Some (ev_created_at (er_event r)) else None.

(** The rows after the cursor, without the limit. *)
Definition pending (ws : string) (since : option string) (l : Ledger) : list AgentEvent :=
  match since, cursor_created_at ws since l with
  | Some id, Some created => List.filter (newer created id) (feed ws l)
  | _, _ => feed ws l
  end.

Definition events_after (l : Ledger) (ws : string) (since : option string) (limit : nat) :
    list AgentEvent := take limit (pending ws since l).

(** [missing_in]: the ids of [a] that [b] does not have. *)
Definition missing_in (a b : list AgentEvent) : list string :=
  List.map ev_id (List.filter (fun e => negb (existsb (String.eqb (ev_id e)) (List.map ev_id b))) a).

(** ** The destination contract *)

Class Destination (D : Type) := {
  push : string -> option string -> list AgentEvent -> D -> result SyncError (option string) * D;
  cursor : string -> D -> result SyncError (option string) * D;
}.

(** What a destination promises: [cur] is the cursor it persists, [holds] says an
    event is durably stored.  A push that fails leaves the cursor alone, or, when only
    its answer was lost, at the last event of a batch that is stored whole. *)
Class DestinationLaws (D : Type) `{Destination D} := {
  cur : D -> string -> option string;
  holds : D -> string -> AgentEvent -> Prop;
  storable : AgentEvent -> Prop;
  cursor_law : forall ws d, let '(r, d') := cursor ws d in
    cur d' ws = cur d ws /\ (forall e, holds d ws e -> holds d' ws e) /\
    (forall c, r = Ok c -> c = cur d ws);
  push_law : forall ws since batch d, batch <> [] -> Forall storable batch ->
    NoDup (List.map ev_id batch) ->
    let '(r, d') := push ws since batch d in
    (forall e, storable e -> holds d ws e ->
       (forall x, In x batch -> ev_id x = ev_id e -> x = e) -> holds d' ws e) /\
    match r with
    | Ok c => c = ev_id <$> last batch /\ cur d' ws = c /\ forall e, In e batch -> holds d' ws e
    | Err _ => cur d' ws = cur d ws \/ (cur d' ws = ev_id <$> last batch /\ forall e, In e batch -> holds d' ws e)
    end;
}.

(** ** The runner *)

Record SyncStats := mkSyncStats { events_pushed : nat; batches : nat; final_cursor : option string }.

Section runner.
Context {D : Type} `{Destination D}.

(** The loop of [run_once] over an unchanging store; [None] when the fuel is out. *)
Fixpoint run_loop (fuel : nat) (ws : string) (l : Ledger) (batch_size : nat) (stats : SyncStats)
    (d : D) : option (result SyncError SyncStats * D) :=
  match fuel with
  | O => None
  | S fuel' =>
      match cursor ws d with
      | (Err e, d1) => Some (Err e, d1)
      | (Ok c, d1) =>
          match events_after l ws c batch_size with
          | [] => Some (Ok (mkSyncStats (events_pushed stats) (batches stats) c), d1)
          | batch =>
              match push ws c batch d1 with
              | (Err e, d2) => Some (Err e, d2)
              | (Ok c', d2) =>
                  let stats' := mkSyncStats (events_pushed stats + length batch)
                                  (S (batches stats)) c' in
                  if (length batch <? batch_size)%nat then Some (Ok stats', d2)
                  else run_loop fuel' ws l batch_size stats' d2
              end
          end
      end
  end.
Definition run_once (fuel : nat) (ws : string) (l : Ledger) (batch_size : nat) (d : D) :
    option (result SyncError SyncStats * D) :=
  run_loop fuel ws l batch_size (mkSyncStats 0 0 None) d.
End runner.

(** ** Order of the feed *)

Lemma newer_lt c id e : newer c id e = true <-> kcmp (c, id) (ekey e) = Lt.
Proof.
  unfold newer, cmp_lt, lex_cmp, ekey. simpl.
  destruct (String.compare c (ev_created_at e)) eqn:Hc; simpl.
  - apply (cmp_eq_iff (cmp:=String.compare)) in Hc as ->. rewrite String.eqb_refl. simpl.
    by destruct (String.compare id (ev_id e)).
  - done.
  - destruct (String.eqb_spec (ev_created_at e) c) as [<-|]; [|done].
    by rewrite cmp_refl in Hc.
Qed.

Lemma feed_elem ws l e :
  In e (feed ws l) <-> exists k r, events l !! k = Some r /\ er_event r = e /\ ev_workspace_id e = ws.
Proof.
  unfold feed. rewrite in_map_iff. split.
  - intros (r & <- & Hr%list_elem_of_In). apply select_events_elem, table_rows_elem in Hr as [[k Hk] Hs].
    unfold in_scope in Hs. rewrite andb_true_r in Hs. apply String.eqb_eq in Hs. eauto.
  - intros (k & r & Hk & <- & Hws). exists r. split; [done|].
    apply list_elem_of_In, select_events_elem, table_rows_elem. split; [eauto|].
    unfold in_scope. by rewrite andb_true_r, Hws, String.eqb_refl.
Qed.

Lemma filter_sublist {A} (f : A -> bool) l : sublist (List.filter f l) l.
Proof. induction l as [|x l IH]; simpl; [constructor|]. destruct (f x); by constructor. Qed.

Lemma feed_nodup ws l : keyed l -> NoDup (List.map ev_id (feed ws l)).
Proof.
  intros Hk. unfold feed, select_events. rewrite map_map, merge_sort_Permutation.
  eapply sublist_NoDup; [|apply fmap_sublist, filter_sublist].
  change (NoDup (List.map (fun r => ev_id (er_event r)) (map snd (map_to_list (events l))))).
  rewrite map_map, (map_ext_in _ fst); [apply NoDup_fst_map_to_list|].
  intros [k r] Hin%list_elem_of_In%elem_of_map_to_list. exact (Hk _ _ Hin).
Qed.

Lemma feed_sorted ws l : keyed l -> StronglySorted key_lt (feed ws l).
Proof.
  intros Hk. pose proof (feed_nodup ws l Hk) as Hnd. revert Hnd. unfold feed. rewrite map_map.
  pose proof (select_events_sorted (in_scope ws None) l) as Hs. revert Hs.
  induction (select_events (in_scope ws None) l) as [|r rs IH]; intros Hs Hnd; simpl; constructor.
  - apply IH; [by inversion Hs|by apply NoDup_cons in Hnd as [_ ?]].
  - apply NoDup_cons in Hnd as [Hnin _]. inversion Hs as [|? ? _ Hall]; subst.
    apply Forall_forall. intros e (r' & -> & Hr')%list_elem_of_fmap.
    rewrite Forall_forall in Hall. specialize (Hall _ Hr'). rewrite event_le_key in Hall.
    unfold key_lt, ekey. fold (row_key r) (row_key r'). unfold cmp_le in Hall.
    destruct (kcmp (row_key r) (row_key r')) eqn:Hc; [|done|done].
    apply (cmp_eq_iff (cmp:=kcmp)) in Hc. unfold row_key in Hc. injection Hc as _ Hid.
    exfalso. apply Hnin. apply list_elem_of_fmap. by exists r'.
Qed.

(** Events of a feed are told apart by their ids. *)
Lemma feed_same ws l a b :
  keyed l -> In a (feed ws l) -> In b (feed ws l) -> ev_id a = ev_id b -> a = b.
Proof.
  intros Hk (ka & ra & Ha & <- & _)%feed_elem (kb & rb & Hb & <- & _)%feed_elem Heq.
  rewrite (Hk _ _ Ha), (Hk _ _ Hb) in Heq. subst. congruence.
Qed.

(** Cutting a sorted feed at one of its events. *)
Lemma filter_newer pre x post :
  StronglySorted key_lt (pre ++ x :: post) ->
  List.filter (newer (ev_created_at x) (ev_id x)) (pre ++ x :: post) = post.
Proof.
  intros Hs. rewrite List.filter_app. simpl.
  assert (Hx : newer (ev_created_at x) (ev_id x) x = false).
  { apply not_true_iff_false. rewrite newer_lt. unfold ekey. by rewrite cmp_refl. }
  rewrite Hx, filter_none, filter_every; [done| |].
  - intros y Hy. apply newer_lt. apply StronglySorted_app_1_r in Hs. inversion Hs as [|? ? _ Hall]; subst.
    rewrite Forall_forall in Hall. by apply Hall, list_elem_of_In.
  - intros y Hy%list_elem_of_In. apply not_true_iff_false. rewrite newer_lt. intros Hlt.
    pose proof (StronglySorted_app_1_elem_of _ _ _ y x Hs Hy ltac:(by left)) as Hyx.
    unfold key_lt in Hyx. pose proof (cmp_lt_trans (cmp:=kcmp) _ _ _ Hyx Hlt) as Hc.
    by rewrite cmp_refl in Hc.
Qed.

Lemma pending_after ws l pre x post :
  keyed l -> feed ws l = pre ++ x :: post -> pending ws (Some (ev_id x)) l = post.
Proof.
  intros Hk Hf. assert (Hin : In x (feed ws l)) by (rewrite Hf; apply in_elt).
  apply feed_elem in Hin as (k & r & Hr & <- & Hws). pose proof (Hk _ _ Hr) as Hid.
  unfold pending, cursor_created_at. simpl. rewrite Hid, Hr. simpl.
  rewrite Hws, String.eqb_refl, Hf, <- Hid. apply filter_newer. rewrite <- Hf. by apply feed_sorted.
Qed.

Lemma pending_suffix ws c l : keyed l -> exists pre, feed ws l = pre ++ pending ws c l.
Proof.
  intros Hk. unfold pending. destruct c as [id|]; [|by exists []].
  destruct (cursor_created_at ws (Some id) l) as [created|] eqn:Hc; [|by exists []].
  unfold cursor_created_at in Hc. simpl in Hc. destruct (events l !! id) as [r|] eqn:Hr; [|done].
  simpl in Hc. destruct (String.eqb_spec (ev_workspace_id (er_event r)) ws) as [Hws|]; [|done].
  injection Hc as <-. assert (Hin : In (er_event r) (feed ws l)) by (apply feed_elem; eauto).
  apply in_split in Hin as (pre & post & Hf). exists (pre ++ [er_event r]).
  rewrite <- (Hk _ _ Hr), Hf, filter_newer; [by rewrite <- app_assoc|].
  rewrite <- Hf. by apply feed_sorted.
Qed.

(** ** What the runner guarantees *)

Section guarantees.
Context {D : Type} `{DestinationLaws D}.
Context (ws : string) (l : Ledger) (Hkeyed : keyed l)
  (Hstorable : Forall storable (feed ws l)) (batch_size : nat) (Hsize : (0 < batch_size)%nat).

(** Everything up to the destination's cursor is stored there. *)
Definition synced (d : D) : Prop :=
  forall e, In e (feed ws l) -> In e (pending ws (cur d ws) l) \/ holds d ws e.

(** The events of the workspace stored in [d] are stored in [d']. *)
Definition extends (d d' : D) : Prop :=
  forall e, In e (feed ws l) -> holds d ws e -> holds d' ws e.

Lemma storable_feed e : In e (feed ws l) -> storable e.
Proof. intros Hin%list_elem_of_In. by eapply Forall_forall in Hstorable. Qed.

Lemma pending_in c e : In e (pending ws c l) -> In e (feed ws l).
Proof. destruct (pending_suffix ws c l Hkeyed) as [pre ->]. intros. apply in_app_iff. by right. Qed.

(** A batch pushed after the cursor [c]. *)
Lemma push_batch since c d :
  let batch := take batch_size (pending ws c l) in
  batch <> [] -> synced d -> cur d ws = c ->
  let '(r, d') := push ws since batch d in
  extends d d' /\ synced d' /\
  match r with
  | Ok c' => c' = cur d' ws /\ pending ws (cur d' ws) l = drop batch_size (pending ws c l)
  | Err _ => True
  end.
Proof.
  intros batch Hne Hs Hc.
  assert (Hin : forall e, In e batch -> In e (feed ws l)).
  { intros e He. apply (pending_in c). rewrite <- (take_drop batch_size (pending ws c l)).
    apply in_app_iff. by left. }
  assert (Hsub : sublist (List.map ev_id batch) (List.map ev_id (feed ws l))).
  { destruct (pending_suffix ws c l Hkeyed) as [pre ->]. apply fmap_sublist.
    etrans; [apply sublist_take|]. by apply sublist_inserts_l. }
  pose proof (push_law ws since batch d Hne) as Hp.
  destruct (push ws since batch d) as [r d'].
  destruct Hp as [Hframe Hr].
  { apply Forall_forall. intros e He%list_elem_of_In. by apply storable_feed, Hin. }
  { by eapply sublist_NoDup; [apply feed_nodup|]. }
  assert (Hext : extends d d').
  { intros e He Hh. apply Hframe; [by apply storable_feed|done|].
    intros x Hx Heq. by eapply feed_same; eauto. }
  assert (Hmoved : cur d' ws = ev_id <$> last batch -> (forall e, In e batch -> holds d' ws e) ->
    synced d' /\ pending ws (cur d' ws) l = drop batch_size (pending ws c l)).
  { intros Hcur Hall. assert (Hp' : pending ws (cur d' ws) l = drop batch_size (pending ws c l)).
    { rewrite Hcur. destruct (pending_suffix ws c l Hkeyed) as [pre Hpre].
      destruct (exists_last Hne) as (b0 & x & Hb). fold batch in Hb. rewrite Hb, last_snoc. simpl.
      apply (pending_after ws l (pre ++ b0)); [done|].
      rewrite Hpre, <- app_assoc. f_equal.
      rewrite <- (take_drop batch_size (pending ws c l)) at 1. fold batch. rewrite Hb, <- app_assoc. done. }
    split; [|done]. intros e He. rewrite Hp'. destruct (Hs e He) as [Hpend|Hh]; [|right; auto].
    rewrite Hc, <- (take_drop batch_size (pending ws c l)) in Hpend. apply in_app_iff in Hpend as [?|?]; auto. }
  split; [done|]. destruct r as [c'|err].
  - destruct Hr as (Hc' & Hcur & Hall). destruct (Hmoved (eq_trans Hcur Hc') Hall) as [Hs' Hp']. split; [done|]. by split; [rewrite Hcur|].
  - split; [|done]. destruct Hr as [Hr|[Hcur Hall]]; [|by apply Hmoved].
    intros e He. destruct (Hs e He) as [?|?]; [left|right; auto]. congruence.
Qed.

(** What is known when the loop stops. *)
Definition loop_post (stats : SyncStats) (d : D) (o : option (result SyncError SyncStats * D)) : Prop :=
  exists r d', o = Some (r, d') /\ extends d d' /\ synced d' /\
    forall s, r = Ok s ->
      (forall e, In e (feed ws l) -> holds d' ws e) /\
      events_pushed s = (events_pushed stats + length (pending ws (cur d ws) l))%nat /\
      final_cursor s = cur d' ws.

Lemma run_loop_spec fuel stats d :
  synced d -> (length (pending ws (cur d ws) l) < fuel)%nat ->
  loop_post stats d (run_loop fuel ws l batch_size stats d).
Proof.
  revert stats d. induction fuel as [|fuel IH]; intros stats d Hs Hfuel; [lia|]. simpl.
  pose proof (cursor_law ws d) as Hcl. destruct (cursor ws d) as [[c|err] d1];
    destruct Hcl as (Hc1 & Hh1 & Hc).
  2:{ exists (Err err), d1. split; [done|]. split; [by intros e _; auto|]. split; [|done].
      intros e He. rewrite Hc1. destruct (Hs e He); auto. }
  specialize (Hc c eq_refl). subst c.
  assert (Hs1 : synced d1) by (intros e He; rewrite Hc1; destruct (Hs e He); auto).
  unfold events_after. destruct (take batch_size (pending ws (cur d ws) l)) as [|e0 b] eqn:Hb.
  { assert (Hnil : pending ws (cur d ws) l = []).
    { destruct (pending ws (cur d ws) l); [done|]. destruct batch_size; [lia|done]. }
    eexists _, d1. split; [reflexivity|]. split; [by intros e _; auto|]. split; [done|].
    intros s [= <-]. simpl. rewrite Hnil. split; [|split; [simpl; lia|done]].
    intros e He. destruct (Hs1 e He) as [Hp|?]; [|done]. by rewrite Hc1, Hnil in Hp. }
  pose proof (push_batch (cur d ws) (cur d ws) d1) as Hp. simpl in Hp. rewrite Hb in Hp.
  specialize (Hp ltac:(done) Hs1 Hc1). destruct (push ws (cur d ws) (e0 :: b) d1) as [[c'|err] d2];
    destruct Hp as (Hx2 & Hs2 & Hcur).
  2:{ exists (Err err), d2. split; [done|]. split; [by intros e He Hh; apply Hx2; auto|]. done. }
  destruct Hcur as [-> Hpend].
  assert (Hlen : (length (e0 :: b) + length (pending ws (cur d2 ws) l) = length (pending ws (cur d ws) l))%nat).
  { rewrite Hpend, <- Hb, <- length_app. by rewrite take_drop. }
  destruct (S (length b) <? batch_size)%nat eqn:Hshort; change (S (length b)) with (length (e0 :: b)) in *.
  - assert (Hnil : drop batch_size (pending ws (cur d ws) l) = []).
    { apply Nat.ltb_lt in Hshort. rewrite <- Hb, length_take in Hshort. apply drop_ge. lia. }
    eexists _, d2. split; [reflexivity|]. split; [by intros e He Hh; apply Hx2; auto|]. split; [done|].
    intros s [= <-]. simpl. rewrite Hpend, Hnil in Hlen. simpl in Hlen.
    split; [|split; [lia|done]].
    intros e He. destruct (Hs2 e He) as [Hp|?]; [|done]. by rewrite Hpend, Hnil in Hp.
  - destruct (IH (mkSyncStats (events_pushed stats + length (e0 :: b)) (S (batches stats)) (cur d2 ws)) d2)
      as (r & d' & Hrun & Hx & Hs' & Hok); [done|simpl in Hlen; lia|].
    exists r, d'. split; [exact Hrun|]. split; [by intros e He Hh; apply Hx, Hx2; auto|].
    split; [done|]. intros s Hr. destruct (Hok s Hr) as (Hall & Hn & Hf).
    split; [done|]. split; [|done]. rewrite Hn. simpl in *. lia.
Qed.

End guarantees.

(** ** Tail mode *)

Section tail.
Context {D : Type} `{DestinationLaws D}.
Context (ws : string) (batch_size : nat) (Hsize : (0 < batch_size)%nat).

(** [run_tail]: a run over what the store holds at each round until the token is
    cancelled; a round that fails leaves the sums as they are. *)
Fixpoint run_tail (ls : list Ledger) (acc : SyncStats) (d : D) : option (SyncStats * D) :=
  match ls with
  | [] => Some (acc, d)
  | l :: ls' =>
      match run_once (S (length (feed ws l))) ws l batch_size d with
      | None => None
      | Some (Err _, d') => run_tail ls' acc d'
      | Some (Ok s, d') =>
          run_tail ls' (mkSyncStats (events_pushed acc + events_pushed s) (batches acc + batches s) (final_cursor s)) d'
      end
  end.

Lemma run_tail_app ls ls' acc d :
  run_tail (ls ++ ls') acc d = '(acc', d') ← run_tail ls acc d; run_tail ls' acc' d'.
Proof.
  revert acc d. induction ls as [|l ls IH]; intros acc d; simpl; [done|].
  destruct (run_once _ ws l batch_size d) as [[[s|e] d']|]; [apply IH|apply IH|done].
Qed.

Definition admissible (l : Ledger) : Prop := keyed l /\ Forall storable (feed ws l).
(** The store has new events, after all it had. *)
Definition grows (l l' : Ledger) : Prop := exists new, feed ws l' = feed ws l ++ new.
(** The cursor is an event of the store. *)
Definition known (l : Ledger) (d : D) : Prop :=
  forall id, cur d ws = Some id -> exists e, In e (feed ws l) /\ ev_id e = id.

Lemma run_loop_known l fuel stats d : admissible l -> known l d ->
  match run_loop fuel ws l batch_size stats d with Some (_, d') => known l d' | None => True end.
Proof.
  intros [Hk Hst]. revert stats d. induction fuel as [|fuel IH]; intros stats d Hd; simpl; [done|].
  pose proof (cursor_law ws d) as Hcl. destruct (cursor ws d) as [[c|err] d1]; destruct Hcl as (Hc1 & _ & Hc);
    assert (Hd1 : known l d1) by (unfold known; by rewrite Hc1); [|done].
  destruct (events_after l ws c batch_size) as [|e0 b] eqn:Hb; [done|].
  destruct (pending_suffix ws c l Hk) as [pre Hpre].
  assert (Hsub : sublist (e0 :: b) (feed ws l)).
  { rewrite Hpre, <- Hb. apply sublist_inserts_l, sublist_take. }
  pose proof (push_law ws c (e0 :: b) d1 ltac:(done)) as Hp. destruct (push ws c (e0 :: b) d1) as [r d2].
  destruct Hp as [_ Hr].
  { apply Forall_forall. intros x Hx. eapply Forall_forall; [exact Hst|]. by eapply elem_of_sublist. }
  { eapply sublist_NoDup; [by apply feed_nodup|]. by apply fmap_sublist. }
  assert (Hlast : cur d2 ws = ev_id <$> last (e0 :: b) -> known l d2).
  { intros Hcur id. rewrite Hcur. destruct (last (e0 :: b)) as [x|] eqn:Hl; [|done].
    intros [= <-]. exists x. split; [|done]. apply list_elem_of_In. eapply elem_of_sublist; [|exact Hsub].
    apply last_Some in Hl as [l' ->]. apply elem_of_app. right. by left. }
  destruct r as [c'|err]; [|destruct Hr as [Hr|[Hr _]]; [unfold known in *; by rewrite Hr|by apply Hlast]].
  assert (Hd2 : known l d2) by (apply Hlast; destruct Hr as (-> & -> & _); done).
  destruct (_ <? batch_size)%nat; [done|]. by apply IH.
Qed.
Lemma synced_grows l l' d : admissible l -> admissible l' -> grows l l' -> known l d -> synced ws l d -> synced ws l' d.
Proof.
  intros [Hk _] [Hk' _] [new Hn] Hd Hs e. rewrite Hn. destruct (cur d ws) as [id|] eqn:Hc.
  - destruct (Hd id Hc) as (x & Hx & <-). apply in_split in Hx as (pre & post & Hf).
    assert (Hp : pending ws (Some (ev_id x)) l' = post ++ new).
    { apply (pending_after ws l' pre x); [done|]. by rewrite Hn, Hf, <- app_assoc. }
    unfold synced in Hs. rewrite Hc, (pending_after ws l pre x post Hk Hf) in Hs. rewrite Hp.
    intros [He|He]%in_app_iff; [|left; apply in_app_iff; by right].
    destruct (Hs e He) as [?|?]; [left; apply in_app_iff; by left|by right].
  - rewrite <- Hn. intros He. by left.
Qed.

(** While the store grows at its end, a tail misses nothing: whatever rounds fail,
    the destination keeps what it held and has every event up to its cursor, and
    when the last round succeeds it has every event. *)
Theorem tail_misses_nothing (l0 : Ledger) (ls : list Ledger) (acc : SyncStats) (d : D) :
  Forall admissible (l0 :: ls) -> (forall i l l', (l0 :: ls) !! i = Some l -> (l0 :: ls) !! S i = Some l' -> grows l l') ->
  known l0 d -> synced ws l0 d ->
  exists l acc1 d1 r d', last (l0 :: ls) = Some l /\
    run_tail (removelast (l0 :: ls)) acc d = Some (acc1, d1) /\ run_once (S (length (feed ws l))) ws l batch_size d1 = Some (r, d') /\
    (exists acc', run_tail (l0 :: ls) acc d = Some (acc', d')) /\
    synced ws l d' /\ (forall e, In e (feed ws l0) -> holds d ws e -> holds d' ws e) /\
    (forall s, r = Ok s -> forall e, In e (feed ws l) -> holds d' ws e).
Proof.
  revert l0 acc d. induction ls as [|l1 ls IH]; intros l0 acc d Ha Hg Hk Hs;
    pose proof (Forall_inv Ha) as Ha0; destruct Ha0 as [Hk0 Hst0];
    pose proof (run_loop_known l0 (S (length (feed ws l0))) (mkSyncStats 0 0 None) d (conj Hk0 Hst0) Hk) as Hkn;
    destruct (run_loop_spec ws l0 Hk0 Hst0 batch_size Hsize (S (length (feed ws l0))) (mkSyncStats 0 0 None) d Hs)
      as (r & d' & Hrun & Hx & Hs' & Hok).
  1, 3: destruct (pending_suffix ws (cur d ws) l0 Hk0) as [pre Hpre]; rewrite Hpre at 1; rewrite length_app; lia.
  - exists l0, acc, d, r, d'. split; [done|]. split; [done|]. split; [done|]. split.
    { simpl. unfold run_once at 1. rewrite Hrun. destruct r; eauto. }
    split; [done|]. split; [done|]. intros s Hr. apply (Hok s Hr).
  - rewrite Hrun in Hkn. inversion Ha as [|? ? _ Ha1]; subst. pose proof (Hg 0%nat l0 l1 eq_refl eq_refl) as Hg0.
    assert (Hk1 : known l1 d').
    { intros id Hid. destruct (Hkn id Hid) as (e & He & Hide). exists e. split; [|done]. destruct Hg0 as [new ->].
      apply in_app_iff. by left. }
    assert (Hs1 : synced ws l1 d').
    { eapply synced_grows; [by split| |exact Hg0|done|done]. by apply (Forall_inv Ha1). }
    assert (Hgo : exists acc0, forall rest, run_tail (l0 :: rest) acc d = run_tail rest acc0 d').
    { simpl. unfold run_once at 1. rewrite Hrun. destruct r; eauto. }
    destruct Hgo as [acc0 Hgo].
    destruct (IH l1 acc0 d' Ha1 (fun i l l' Hi Hi' => Hg (S i) l l' Hi Hi') Hk1 Hs1)
      as (l & acc1 & d1 & r' & d'' & Hl & Hb & Hlast & [acc' Hall] & Hs2 & Hh & Hok').
    exists l, acc1, d1, r', d''. split; [done|]. split; [by rewrite <- Hb, <- Hgo|]. split; [done|].
    split; [exists acc'; by rewrite Hgo|]. split; [done|]. split; [|done].
    intros e He Hhe. apply Hh; [destruct Hg0 as [new ->]; apply in_app_iff; by left|]. by apply Hx.
Qed.
End tail.
