(* ===== verification/SyncFs.v ===== *)
(** * The filesystem destination ([actant-sync/src/destination.rs],
    [destinations/fs.rs])

    Objects are files under [<workspace>/<YYYY-MM-DD>/<event id>.json] and the
    cursor is [<workspace>/_cursor.txt]; both are written to a sibling and
    renamed.  Every file-system call may fail, and a failed write may leave
    anything in the file it was writing.  The destination keeps the contract the
    runner relies on, for events whose ids are made of safe characters. *)

From S2P Require Import Prelude Str Json Core Storage Chain Sync.
#[local] Open Scope string_scope.
#[local] Open Scope list_scope.

(** ** Keys *)

Definition safe_char (c : Ascii.ascii) : bool :=
  is_alnum c || Ascii.eqb c "_" || Ascii.eqb c "-" || Ascii.eqb c ".".

(** One [_] per character: a continuation byte of UTF-8 yields nothing. *)
Definition continuation (c : Ascii.ascii) : bool := ((128 <=? byte c) && (byte c <? 192))%Z.
Fixpoint sanitize (raw : string) : string :=
  match raw with
  | "" => ""
  | String c s => if continuation c then sanitize s
                  else String (if safe_char c then c else "_"%char) (sanitize s)
  end.

(** [s.get(..n)]: the first [n] bytes, when they end at a character. *)
Definition str_get_to (n : nat) (s : string) : option string :=
  if (String.length s <? n)%nat then None
  else match String.substring n 1 s with
       | String c _ => if continuation c then None else Some (String.substring 0 n s)
       | "" => Some (String.substring 0 n s)
       end.

Definition partition_of (e : AgentEvent) : string :=
  default "0000-00-00" (str_get_to 10 (ev_created_at e)).
Definition key_for (workspace : string) (e : AgentEvent) : string :=
  sanitize workspace +:+ "/" +:+ partition_of e +:+ "/" +:+ sanitize (ev_id e) +:+ ".json".
Definition cursor_key (workspace : string) : string := sanitize workspace +:+ "/_cursor.txt".

(** ** The file system *)

(** Whether the [n]th call fails, with which message, and what a failed write
    leaves behind. *)
Class FsFaults := { io_error : nat -> option string; torn : nat -> string -> option string }.
(** [serde_json::to_vec_pretty] of an event. *)
Class EventJson := event_json : AgentEvent -> result string string.

Record FsDest := mkFsDest { files : gmap string string; io_count : nat }.
#[local] Notation Fs A := (M FsDest SyncError A).

Section fs.
Context `{FsFaults} `{EventJson}.

Definition fs_call {A} (f : gmap string string -> A * gmap string string)
    (on_error : nat -> gmap string string -> gmap string string) : Fs A :=
  fun d => match io_error (io_count d) with
           | Some msg => (Err (Io msg), mkFsDest (on_error (io_count d) (files d)) (S (io_count d)))
           | None => let '(a, fs) := f (files d) in (Ok a, mkFsDest fs (S (io_count d)))
           end.
Definition create_dir_all : Fs unit := fs_call (fun fs => (tt, fs)) (fun _ fs => fs).
Definition fs_write (path body : string) : Fs unit :=
  fs_call (fun fs => (tt, <[path := body]> fs))
    (fun n fs => match torn n body with Some b => <[path := b]> fs | None => fs end).
Definition fs_rename (from to : string) : Fs unit :=
  fs_call (fun fs => (tt, match fs !! from with
                          | Some b => <[to := b]> (delete from fs)
                          | None => fs end)) (fun _ fs => fs).

(** [path.with_extension("json.tmp")] of [stem.json], and likewise for the cursor;
    the stem is not empty. *)
Definition tmp_of (path : string) : string := path +:+ ".tmp".

(** Write the sibling, then rename it. *)
Definition replace_file (path body : string) : Fs unit :=
  fs_write (tmp_of path) body;; fs_rename (tmp_of path) path.

Definition write_event (ws : string) (e : AgentEvent) : Fs unit :=
  let path := key_for ws e in
  create_dir_all;;
  bytes ← (fun d => match event_json e with
                    | Ok b => (Ok b, d) | Err msg => (Err (Serialize msg), d) end);
  replace_file path bytes.

Definition write_cursor (ws id : string) : Fs unit :=
  let path := cursor_key ws in
  create_dir_all;;
  replace_file path id.

Fixpoint write_events (ws : string) (batch : list AgentEvent) : Fs unit :=
  match batch with
  | [] => mret tt
  | e :: batch' => write_event ws e;; write_events ws batch'
  end.

(** The cursor in the file: nothing when it is blank. *)
Definition cursor_in (fs : gmap string string) (ws : string) : option string :=
  s ← fs !! cursor_key ws;
  if String.eqb (trim s) "" then None else Some (trim s).

Definition fs_cursor (ws : string) : Fs (option string) :=
  fs_call (fun fs => (cursor_in fs ws, fs)) (fun _ fs => fs).

Definition fs_push (ws : string) (since : option string) (batch : list AgentEvent) :
    Fs (option string) :=
  match last batch with
  | None => fs_cursor ws
  | Some final =>
      write_events ws batch;;
      write_cursor ws (ev_id final);;
      mret (Some (ev_id final))
  end.

#[export] Instance fs_destination : Destination FsDest := {| push := fs_push; cursor := fs_cursor |}.
End fs.

(** ** Safe ids *)

Lemma safe_ascii c : safe_char c = true -> ws_len (String c "") = 0%nat /\ continuation c = false /\
  forall s, ws_len (String c s) = 0%nat.
Proof.
  intros Hs. assert (Hb : (33 <= byte c < 128)%Z).
  { unfold safe_char, is_alnum, is_digit, is_upper, is_lower in Hs.
    destruct c as [[] [] [] [] [] [] [] []]; vm_compute in Hs |- *; try discriminate; split; congruence. }
  assert (Hw : forall s, ws_len (String c s) = 0%nat).
  { intros s. unfold ws_len.
    rewrite (proj2 (Z.eqb_neq (byte c) 32)) by lia.
    replace ((9 <=? byte c) && (byte c <=? 13))%Z with false by (symmetry; apply andb_false_iff; right; lia).
    simpl. destruct s as [|b [|b2 s]]; [done| |].
    - rewrite (proj2 (Z.eqb_neq (byte c) 194)) by lia. done.
    - rewrite (proj2 (Z.eqb_neq (byte c) 194)), (proj2 (Z.eqb_neq (byte c) 225)),
        (proj2 (Z.eqb_neq (byte c) 226)), (proj2 (Z.eqb_neq (byte c) 227)) by lia. done. }
  split; [apply Hw|]. split; [|exact Hw].
  unfold continuation. apply andb_false_iff. left. lia.
Qed.

Lemma sanitize_safe s : all_chars safe_char s = true -> sanitize s = s.
Proof.
  induction s as [|c s IH]; simpl; [done|]. intros [Hc Hs]%andb_true_iff.
  destruct (safe_ascii c Hc) as (_ & -> & _). by rewrite Hc, IH.
Qed.

Lemma trim_safe s : all_chars safe_char s = true -> trim s = s.
Proof.
  intros Hs. unfold trim, trim_start. destruct s as [|c s]; [done|]. cbn [trim_start_].
  simpl in Hs. apply andb_true_iff in Hs as [Hc Hs]. destruct (safe_ascii c Hc) as (_ & _ & Hw).
  rewrite Hw. clear Hw. revert c Hc. induction s as [|c' s IH]; intros c Hc.
  - cbn [trim_end all_ws]. by destruct (safe_ascii c Hc) as (-> & _).
  - cbn [trim_end]. cbn [all_ws]. destruct (safe_ascii c Hc) as (_ & _ & ->). f_equal.
    simpl in Hs. apply andb_true_iff in Hs as [Hc' Hs]. apply (IH Hs c' Hc').
Qed.

Lemma append_inj_length a b x y :
  String.length a = String.length b -> (a +:+ x)%string = (b +:+ y)%string -> a = b /\ x = y.
Proof.
  revert b. induction a as [|c a IH]; intros [|d b] Hl Heq; try done.
  rewrite !append_cons in Heq. injection Heq as -> Heq. injection Hl as Hl.
  by destruct (IH b Hl Heq) as [-> ->].
Qed.

Lemma append_length (a b : string) :
  String.length (a +:+ b) = (String.length a + String.length b)%nat.
Proof. induction a as [|c a IH]; [done|]. rewrite append_cons. simpl. by rewrite IH. Qed.

Lemma append_inj_r a b s : (a +:+ s)%string = (b +:+ s)%string -> a = b.
Proof.
  intros Heq. apply (append_inj_length a b s s); [|done].
  apply (f_equal String.length) in Heq. rewrite !append_length in Heq. lia.
Qed.

(** ** Keys do not clash *)

Definition has_suffix (s x : string) : Prop := exists p, x = (p +:+ s)%string.
Lemma has_suffix_app s p x : has_suffix s x -> has_suffix s (p +:+ x)%string.
Proof. intros [q ->]. exists (p +:+ q)%string. by rewrite append_assoc. Qed.
Lemma has_suffix_ne s t x y :
  String.length s = String.length t -> s <> t -> has_suffix s x -> has_suffix t y -> x <> y.
Proof.
  intros Hl Hne [p ->] [q ->] Heq. apply Hne. apply (append_inj_length p q); [|done].
  apply (f_equal String.length) in Heq. rewrite !append_length in Heq. lia.
Qed.

Lemma key_suffix ws e : has_suffix "json" (key_for ws e).
Proof. unfold key_for. do 5 apply has_suffix_app. by exists ".". Qed.
Lemma cursor_suffix ws : has_suffix ".txt" (cursor_key ws).
Proof. unfold cursor_key. apply has_suffix_app. by exists "/_cursor". Qed.
Lemma tmp_suffix p : has_suffix ".tmp" (tmp_of p).
Proof. by exists p. Qed.

Lemma key_tmp_ne ws e p : key_for ws e <> tmp_of p.
Proof. by eapply has_suffix_ne; [| |apply key_suffix|apply tmp_suffix]. Qed.
Lemma key_cursor_ne ws e ws' : key_for ws e <> cursor_key ws'.
Proof. by eapply has_suffix_ne; [| |apply key_suffix|apply cursor_suffix]. Qed.
Lemma cursor_tmp_ne ws p : cursor_key ws <> tmp_of p.
Proof. by eapply has_suffix_ne; [| |apply cursor_suffix|apply tmp_suffix]. Qed.

Lemma substring_length n s : (n <= String.length s)%nat -> String.length (String.substring 0 n s) = n.
Proof.
  revert s. induction n as [|n IH]; intros s Hl; destruct s as [|c s]; simpl in *; try lia.
  by rewrite IH by lia.
Qed.

Lemma partition_length e : String.length (partition_of e) = 10%nat.
Proof.
  unfold partition_of, str_get_to. destruct (Nat.ltb_spec (String.length (ev_created_at e)) 10); [done|].
  destruct (String.substring 10 1 (ev_created_at e)) as [|c s]; [by apply substring_length|].
  destruct (continuation c); [done|]. by apply substring_length.
Qed.

Definition fs_storable (e : AgentEvent) : Prop :=
  all_chars safe_char (ev_id e) = true /\ ev_id e <> "".

Lemma key_for_inj ws a b :
  fs_storable a -> fs_storable b -> key_for ws a = key_for ws b -> ev_id a = ev_id b.
Proof.
  intros [Ha _] [Hb _]. unfold key_for. rewrite (sanitize_safe _ Ha), (sanitize_safe _ Hb).
  intros Heq%append_inj_l%append_inj_l.
  apply append_inj_length in Heq as [_ Heq]; [|by rewrite !partition_length].
  by apply append_inj_l, append_inj_r in Heq.
Qed.

(** ** The contract *)

Section laws.
Context `{FsFaults} `{EventJson}.

Definition fs_holds (d : FsDest) (ws : string) (e : AgentEvent) : Prop :=
  exists body, event_json e = Ok body /\ files d !! key_for ws e = Some body.

Lemma replace_file_spec path body d :
  let '(r, d') := replace_file path body d in
  (forall p, p <> tmp_of path -> p <> path -> files d' !! p = files d !! p) /\
  match r with
  | Ok _ => files d' !! path = Some body
  | Err _ => path <> tmp_of path -> files d' !! path = files d !! path
  end.
Proof.
  unfold replace_file, mbind, M_bind, fs_write, fs_rename, fs_call.
  destruct (io_error (io_count d)) as [msg|]; simpl.
  - destruct (torn (io_count d) body); split; intros; by rewrite ?lookup_insert_ne by done.
  - destruct (io_error (S (io_count d))) as [msg|]; simpl.
    + split; intros; by rewrite lookup_insert_ne.
    + rewrite lookup_insert_eq. split; [|by rewrite lookup_insert_eq].
      intros p Hp1 Hp2. by rewrite lookup_insert_ne, lookup_delete_ne, lookup_insert_ne.
Qed.

Lemma write_event_spec ws x d :
  let '(r, d') := write_event ws x d in
  cursor_in (files d') ws = cursor_in (files d) ws /\
  (forall e, fs_storable e -> fs_storable x -> fs_holds d ws e -> (ev_id x = ev_id e -> x = e) ->
     fs_holds d' ws e) /\
  (r = Ok tt -> fs_holds d' ws x).
Proof.
  unfold write_event, mbind, M_bind, create_dir_all, fs_call.
  destruct (io_error (io_count d)) as [msg|]; simpl; [split; [done|]; split; [|done]; intros; done|].
  destruct (event_json x) as [b|msg] eqn:Hj; simpl; [|split; [done|]; split; [|done]; intros; done].
  pose proof (replace_file_spec (key_for ws x) b (mkFsDest (files d) (S (io_count d)))) as Hp.
  destruct (replace_file _ _ _) as [r d']. destruct Hp as [Hother Hr]. simpl in *.
  split; [|split].
  - unfold cursor_in. rewrite Hother; [done|apply cursor_tmp_ne|].
    intros Heq. by apply (key_cursor_ne ws x ws).
  - intros e He Hx (body & Hbody & Hf) Hsame.
    destruct (decide (key_for ws e = key_for ws x)) as [Heq|Hne].
    + assert (x = e) as <- by (apply Hsame; symmetry; by apply (key_for_inj ws)).
      exists b. split; [done|]. destruct r as [[]|]; [done|].
      rewrite Hr by apply key_tmp_ne. congruence.
    + exists body. split; [done|]. rewrite Hother; [done|apply key_tmp_ne|done].
  - intros ->. by exists b.
Qed.

Lemma write_events_spec ws batch d :
  Forall fs_storable batch -> NoDup (List.map ev_id batch) ->
  let '(r, d') := write_events ws batch d in
  cursor_in (files d') ws = cursor_in (files d) ws /\
  (forall e, fs_storable e -> fs_holds d ws e -> (forall x, In x batch -> ev_id x = ev_id e -> x = e) ->
     fs_holds d' ws e) /\
  (r = Ok tt -> forall e, In e batch -> fs_holds d' ws e).
Proof.
  revert d. induction batch as [|x batch IH]; intros d Hst Hnd; simpl.
  { split; [done|]. split; [auto|]. by intros _ e []. }
  apply Forall_cons in Hst as [Hx Hst]. apply NoDup_cons in Hnd as [Hnin Hnd].
  pose proof (write_event_spec ws x d) as Hw. unfold mbind, M_bind.
  destruct (write_event ws x d) as [[[]|err] d1]; destruct Hw as (Hc & Hk & Hok).
  2:{ split; [done|]. split; [|done]. intros e He Hh Hs. apply Hk; try done. apply Hs. by left. }
  specialize (IH d1 Hst Hnd). destruct (write_events ws batch d1) as [r d'].
  destruct IH as (Hc' & Hk' & Hok'). split; [congruence|]. split.
  - intros e He Hh Hs. apply Hk'; [done| |intros y Hy; apply Hs; by right].
    apply Hk; try done. apply Hs. by left.
  - intros -> e [<-|Hin]; [|by apply Hok']. apply Hk'; [done|by apply Hok|].
    intros y Hy Heq. exfalso. apply Hnin. rewrite <- Heq. apply list_elem_of_In, in_map, Hy.
Qed.

Lemma write_cursor_spec ws id d :
  let '(r, d') := write_cursor ws id d in
  (forall e, fs_holds d ws e -> fs_holds d' ws e) /\
  match r with
  | Ok _ => files d' !! cursor_key ws = Some id
  | Err _ => cursor_in (files d') ws = cursor_in (files d) ws
  end.
Proof.
  unfold write_cursor, mbind, M_bind, create_dir_all, fs_call.
  destruct (io_error (io_count d)) as [msg|]; simpl; [done|].
  pose proof (replace_file_spec (cursor_key ws) id (mkFsDest (files d) (S (io_count d)))) as Hp.
  destruct (replace_file _ _ _) as [r d']. destruct Hp as [Hother Hr]. simpl in *. split.
  - intros e (body & Hb & Hf). exists body. split; [done|].
    rewrite Hother; [done|apply key_tmp_ne|apply key_cursor_ne].
  - destruct r; [done|]. unfold cursor_in. by rewrite Hr by apply cursor_tmp_ne.
Qed.

(** The filesystem destination keeps the contract. *)
#[export] Program Instance fs_laws : DestinationLaws FsDest := {|
  cur := fun d ws => cursor_in (files d) ws;
  holds := fs_holds;
  storable := fs_storable;
|}.
Next Obligation.
  intros ws d. simpl. unfold fs_cursor, fs_call.
  destruct (io_error (io_count d)) as [msg|]; simpl; (split; [done|]); (split; [auto|]); congruence.
Qed.
Next Obligation.
  intros ws since batch d Hne Hst Hnd. simpl. unfold fs_push.
  destruct (last batch) as [final|] eqn:Hlast; [|by apply last_None in Hlast].
  pose proof (write_events_spec ws batch d Hst Hnd) as Hw. unfold mbind, M_bind.
  destruct (write_events ws batch d) as [[[]|err] d1]; destruct Hw as (Hc & Hk & Hok);
    [|split; [auto|by left]].
  pose proof (write_cursor_spec ws (ev_id final) d1) as Hcur.
  destruct (write_cursor ws (ev_id final) d1) as [[[]|err] d2]; destruct Hcur as [Hh Hcur].
  - split; [intros; by apply Hh, Hk|]. split; [done|]. split; [|intros; apply Hh; auto].
    assert (Hfin : fs_storable final).
    { rewrite Forall_forall in Hst. apply Hst. apply last_Some in Hlast as [b ->].
      apply elem_of_app. right. by left. }
    destruct Hfin as [Hsafe Hnon]. unfold cursor_in. rewrite Hcur. simpl.
    rewrite (trim_safe _ Hsafe). destruct (String.eqb_spec (ev_id final) ""); [done|done].
  - split; [intros; by apply Hh, Hk|]. left. simpl in *. congruence.
Qed.
End laws.
