(* ===== verification/Replay.v ===== *)
(** * Replay and conflict resolution ([actant-replay])

    [conflict.rs]: which of two concurrent writes wins.  [lib.rs]: checkpoints,
    replay runs and the diff each mode reports over the recorded session. *)

From S2P Require Import Prelude Str Hlc Json Core Storage Chain.
#[local] Open Scope string_scope.
#[local] Open Scope list_scope.
#[local] Open Scope Z_scope.

(** ** Conflict policy *)

Record ConflictPolicy := mkConflictPolicy { per_field_lww : gmap string (list string) }.

Definition default_for_projections : ConflictPolicy :=
  mkConflictPolicy (<["actor" := ["display_name"]]>
    (<["session" := ["title"; "phase"]]>
    (<["memory" := ["approved_at"; "rejected_at"; "last_verified_at"]]> ∅))).
Definition row_level_only : ConflictPolicy := mkConflictPolicy ∅.

Definition is_per_field (p : ConflictPolicy) (table field : string) : bool :=
  match per_field_lww p !! table with
  | Some fs => bool_decide (field ∈ fs)
  | None => false
  end.

(** The trait [HasHlc]. *)
Class HasHlc (T : Type) := { hlc_of : T -> Hlc; actor_of : T -> string }.

Section resolve.
Context {T : Type} `{HasHlc T}.

Definition resolve (p : ConflictPolicy) (table : string) (field : option string) (a b : T) : comparison :=
  match hlc_cmp (hlc_of a) (hlc_of b) with
  | Eq => String.compare (actor_of a) (actor_of b)
  | c => c
  end.

(** The stamp that decides. *)
Definition stamp (a : T) : Hlc * string := (hlc_of a, actor_of a).

Lemma resolve_lex p table field a b :
  resolve p table field a b = lex_cmp hlc_cmp String.compare (stamp a) (stamp b).
Proof. unfold resolve, stamp, lex_cmp. simpl. by destruct (hlc_cmp _ _). Qed.

(** Applying a write to a replica: [Less] means the new one wins. *)
Definition apply_write (p : ConflictPolicy) (table : string) (field : option string)
    (current : option T) (w : T) : option T :=
  Some match current with
       | Some c => match resolve p table field c w with Lt => w | _ => c end
       | None => w
       end.
Definition apply_writes (p : ConflictPolicy) (table : string) (field : option string) (ws : list T) : option T :=
  fold_left (apply_write p table field) ws None.
End resolve.

(** ** Diffs *)

Inductive ReplayMode := Recorded | Model | MPolicy | MMemory | Tool | LocalOnly | Experimental.

Record DiffEntry := mkDiffEntry { de_event_type : string; de_kind : string; de_summary : option string }.
Record ReplayDiff := mkReplayDiff { rd_run_id : string; rd_entries : list DiffEntry }.

Definition one_of (s : string) (l : list string) : bool := existsb (String.eqb s) l.
Definition entry (changed : bool) (e : AgentEvent) : DiffEntry :=
  mkDiffEntry (ev_event_type e) (if changed then "changed" else "identical") None.

Definition recorded_diff (events : list AgentEvent) : list DiffEntry := List.map (entry false) events.
Definition model_diff (events : list AgentEvent) : list DiffEntry :=
  List.map (fun e => entry (String.eqb (ev_event_type e) "model_call") e) events.
Definition policy_diff (events : list AgentEvent) : list DiffEntry :=
  List.map (fun e => entry (one_of (ev_event_type e)
    ["tool_call_requested"; "tool_call_approved"; "tool_call_denied"]) e) events.
Definition tool_diff (events : list AgentEvent) : list DiffEntry :=
  List.map (fun e => entry (one_of (ev_event_type e)
    ["tool_call_started"; "tool_call_finished"; "effect_observed"]) e) events.

(** The closure's flag [saw_excluded_in_context] is threaded through. *)
Fixpoint memory_diff_loop (excluded : list string) (saw : bool) (events : list AgentEvent) :
    list DiffEntry :=
  match events with
  | [] => []
  | e :: events' =>
      if String.eqb (ev_event_type e) "context_build" then
        if existsb (fun id => str_contains id (default "" (ev_payload_inline e))) excluded
        then entry true e :: memory_diff_loop excluded true events'
        else entry false e :: memory_diff_loop excluded saw events'
      else
        entry (one_of (ev_event_type e) ["tool_call_requested"; "model_call"] && saw) e
          :: memory_diff_loop excluded saw events'
  end.
Definition memory_diff (excluded : list string) (events : list AgentEvent) : list DiffEntry :=
  memory_diff_loop excluded false events.

Definition local_only_diff (events : list AgentEvent) : list DiffEntry :=
  List.map (fun e =>
    let payload := default "" (ev_payload_inline e) in
    if String.eqb (ev_event_type e) "model_call"
       && (str_contains "cloud" payload || str_contains "anthropic:" payload || str_contains "openai:" payload)
    then mkDiffEntry (ev_event_type e) "changed" (Some "would_route_local_only:cloud_model_call_forbidden")
    else entry false e) events.
Definition experimental_diff (events : list AgentEvent) : list DiffEntry :=
  List.map (fun e =>
    if one_of (ev_event_type e) ["tool_call_started"; "tool_call_finished"; "effect_observed"]
    then mkDiffEntry (ev_event_type e) "changed" (Some ("would_reinvoke:" +:+ ev_event_type e))
    else entry false e) events.

Fixpoint align_streams (a b : list AgentEvent) : list DiffEntry :=
  match a, b with
  | x :: a', y :: b' =>
      mkDiffEntry (ev_event_type x)
        (if String.eqb (ev_payload_hash x) (ev_payload_hash y) then "identical" else "changed") None
      :: align_streams a' b'
  | x :: a', [] =>
      mkDiffEntry (ev_event_type x) "missing" (Some "present in original, absent in replay")
      :: align_streams a' []
  | [], _ => List.map (fun y => mkDiffEntry (ev_event_type y) "extra" (Some "introduced by replay")) b
  end.

(** ** Checkpoints and runs *)

Record CheckpointRow := mkCheckpointRow {
  ck_id : string; ck_workspace_id : string; ck_event_id : string; ck_session_id : option string;
  ck_state_ref : string; ck_routes_ref : string; ck_perms_ref : string; ck_mem_ref : string;
  ck_created_at : string
}.
Record RunRow := mkRunRow {
  rr_id : string; rr_workspace_id : string; rr_checkpoint_id : string; rr_mode : string;
  rr_requested_by : string; rr_status : string; rr_started_at : string; rr_finished_at : option string
}.

Record RWorld := mkRWorld {
  rworld : World; checkpoints : gmap string CheckpointRow; runs : gmap string RunRow
}.
#[local] Notation RDB A := (M RWorld ActantError A).

(** A call that only concerns the ledger. *)
Definition on_ledger {A} (m : M World ActantError A) : RDB A :=
  fun w => let '(r, w') := m (rworld w) in (r, mkRWorld w' (checkpoints w) (runs w)).

(** [json_enum] of the mode: [rename_all = "lowercase"]. *)
Definition mode_name (m : ReplayMode) : string :=
  match m with
  | Recorded => "recorded" | Model => "model" | MPolicy => "policy" | MMemory => "memory"
  | Tool => "tool" | LocalOnly => "localonly" | Experimental => "experimental"
  end.

Definition mode_diff (mode : ReplayMode) (events : list AgentEvent) : list DiffEntry :=
  match mode with
  | Recorded => recorded_diff events
  | Model => model_diff events
  | MPolicy => policy_diff events
  | MMemory => memory_diff [] events
  | Tool => tool_diff events
  | LocalOnly => local_only_diff events
  | Experimental => experimental_diff events
  end.

Section runs.
Context `{Env}.

Definition insert_checkpoint (c : CheckpointRow) : RDB unit :=
  fun w =>
    let l := ledger (rworld w) in
    if has (checkpoints w) (ck_id c) then (Err (unique_failed "replay_checkpoint.id"), w)
    else if has (workspaces l) (ck_workspace_id c) && has (events l) (ck_event_id c)
            && has_opt (sessions l) (ck_session_id c)
    then (Ok tt, mkRWorld (rworld w) (<[ck_id c := c]> (checkpoints w)) (runs w))
    else (Err fk_failed, w).

Definition checkpoint (workspace event_id : string) : RDB string :=
  row ← on_ledger (read (fun l => r ← events l !! event_id;
          if String.eqb (ev_workspace_id (er_event r)) workspace then Some r else None));
  match row with
  | None => throw (NotFound ("event " +:+ event_id))
  | Some r =>
      cp_id ← on_ledger (new_id "chk");
      now ← on_ledger now_rfc3339;
      insert_checkpoint (mkCheckpointRow cp_id workspace event_id (ev_session_id (er_event r))
        ("snap:state:" +:+ event_id) ("snap:routes:" +:+ event_id) ("snap:perms:" +:+ event_id)
        ("snap:mem:" +:+ event_id) now);;
      mret cp_id
  end.

Definition insert_run (r : RunRow) : RDB unit :=
  fun w =>
    if has (runs w) (rr_id r) then (Err (unique_failed "replay_run.id"), w)
    else if has (workspaces (ledger (rworld w))) (rr_workspace_id r) && has (checkpoints w) (rr_checkpoint_id r)
            && has (actors (ledger (rworld w))) (rr_requested_by r)
    then (Ok tt, mkRWorld (rworld w) (checkpoints w) (<[rr_id r := r]> (runs w)))
    else (Err fk_failed, w).

Definition finish_run (id now : string) : RDB unit :=
  fun w => (Ok tt, mkRWorld (rworld w) (checkpoints w) (alter (fun r =>
    mkRunRow (rr_id r) (rr_workspace_id r) (rr_checkpoint_id r) (rr_mode r) (rr_requested_by r)
      "completed" (rr_started_at r) (Some now)) id (runs w))).

Definition run (requested_by checkpoint_id : string) (mode : ReplayMode) : RDB ReplayDiff :=
  fun w => (
    row ← (fun w => (Ok (checkpoints w !! checkpoint_id), w));
    match row with
    | None => throw (NotFound ("checkpoint " +:+ checkpoint_id))
    | Some c =>
        id ← on_ledger (new_id "rr");
        now ← on_ledger now_rfc3339;
        insert_run (mkRunRow id (ck_workspace_id c) checkpoint_id (mode_name mode) requested_by
          "running" now None);;
        entries ← match ck_session_id c with
                  | Some s => evs ← on_ledger (events_in_session s); mret (mode_diff mode evs)
                  | None => mret []
                  end;
        fin ← on_ledger now_rfc3339;
        finish_run id fin;;
        mret (mkReplayDiff id entries)
    end) w.
End runs.

(** ** Conflict resolution converges *)

Section converge.
Context {T : Type} `{HasHlc T} (p : ConflictPolicy) (table : string) (field : option string).

#[local] Notation scmp := (lex_cmp hlc_cmp String.compare).
#[local] Notation apply := (apply_write p table field).

Lemma apply_write_max (c : option T) w :
  exists r, apply c w = Some r /\ (r = w \/ c = Some r) /\
    cmp_le (cmp:=scmp) (stamp w) (stamp r) = true /\
    (forall x, c = Some x -> cmp_le (cmp:=scmp) (stamp x) (stamp r) = true).
Proof.
  unfold apply_write. destruct c as [c|]; [|exists w; split; [done|]; split; [by left|];
    split; [apply cmp_le_refl|done]].
  rewrite resolve_lex. eexists. split; [reflexivity|].
  assert (Hle : forall x y : T, cmp_le (cmp:=scmp) (stamp x) (stamp y) = true <-> scmp (stamp x) (stamp y) <> Gt).
  { intros x y. unfold cmp_le. by destruct (scmp _ _). }
  destruct (scmp (stamp c) (stamp w)) eqn:Hc.
  - split; [by right|]. apply (cmp_eq_iff (cmp:=scmp)) in Hc.
    split; [rewrite Hc; apply cmp_le_refl|]. intros x [= <-]. apply cmp_le_refl.
  - split; [by left|]. split; [apply cmp_le_refl|]. intros x [= <-]. apply Hle. congruence.
  - split; [by right|]. split; [|intros x [= <-]; apply cmp_le_refl].
    apply Hle. apply (cmp_gt_lt (cmp:=scmp)) in Hc. congruence.
Qed.

Lemma fold_writes_max ws (c : option T) :
  (c <> None \/ ws <> []) ->
  exists r, fold_left apply ws c = Some r /\ (In r ws \/ c = Some r) /\
    (forall x, In x ws \/ c = Some x -> cmp_le (cmp:=scmp) (stamp x) (stamp r) = true).
Proof.
  revert c. induction ws as [|w ws IH]; intros c Hne; simpl.
  - destruct c as [x|]; [|by destruct Hne]. exists x. split; [done|]. split; [by right|].
    intros y [[]|[= ->]]. apply cmp_le_refl.
  - destruct (apply_write_max c w) as (r1 & Hr1 & Hin1 & Hw & Hc). rewrite Hr1.
    destruct (IH (Some r1)) as (r & Hr & Hin & Hmax); [by left|]. exists r. split; [done|]. split.
    + destruct Hin as [?|[= <-]]; [by left; right|]. destruct Hin1 as [->|?]; [by left; left|by right].
    + assert (Hr1r : cmp_le (cmp:=scmp) (stamp r1) (stamp r) = true) by (apply Hmax; by right).
      intros x [[<-|Hx]|Hx]; [|apply Hmax; by left|].
      * by eapply (cmp_le_trans (cmp:=scmp)).
      * eapply (cmp_le_trans (cmp:=scmp)); [|done]. by apply Hc.
Qed.

End converge.

#[local] Instance pair_has_hlc : HasHlc (Hlc * string) := {| hlc_of := fst; actor_of := snd |}.


(** ** Diffs *)

Definition identical (d : DiffEntry) : bool := String.eqb (de_kind d) "identical".

(** Aligning two streams compares them position by position: every event of
    either side appears exactly once, the surplus of the original is missing, the
    surplus of the replay is extra, and the diff is all identical exactly when
    the streams carry the same payload hashes in the same order. *)
Theorem align_streams_spec (a b : list AgentEvent) :
  length (align_streams a b) = Nat.max (length a) (length b) /\
  List.length (List.filter (fun d => String.eqb (de_kind d) "missing") (align_streams a b)) =
    (length a - length b)%nat /\
  List.length (List.filter (fun d => String.eqb (de_kind d) "extra") (align_streams a b)) =
    (length b - length a)%nat /\
  (forallb identical (align_streams a b) = true <->
     List.map ev_payload_hash a = List.map ev_payload_hash b).
Proof.
  revert b. induction a as [|x a IH]; intros b.
  - simpl. rewrite length_map. split; [done|].
    assert (Hf : forall k l, List.filter (fun d => String.eqb (de_kind d) k)
      (List.map (fun y => mkDiffEntry (ev_event_type y) "extra" (Some "introduced by replay")) l) =
      if String.eqb "extra" k then
        List.map (fun y => mkDiffEntry (ev_event_type y) "extra" (Some "introduced by replay")) l else []).
    { intros k l. induction l as [|y l IHl]; [by destruct (String.eqb "extra" k)|].
      cbn [List.map List.filter de_kind]. rewrite IHl. by destruct (String.eqb "extra" k). }
    rewrite !Hf. clear Hf. simpl. rewrite length_map, Nat.sub_0_r. split; [done|]. split; [done|]. by destruct b.
  - destruct b as [|y b]; simpl.
    + destruct (IH []) as (Hl & Hm & He & _). rewrite Hl, Hm, He. simpl.
      split; [lia|]. split; [lia|]. split; [lia|]. by split.
    + destruct (IH b) as (Hl & Hm & He & Hi). rewrite Hl.
      unfold identical at 1. simpl.
      destruct (String.eqb_spec (ev_payload_hash x) (ev_payload_hash y)) as [Hxy|Hxy]; simpl;
        rewrite Hm, He; (split; [done|]); (split; [done|]); (split; [done|]).
      * rewrite Hi, Hxy. split; [by intros ->|by intros [= ->]].
      * split; [done|]. intros [=]. contradiction.
Qed.

(** ** Runs *)

(** The events of a session, in the order a replay walks them. *)
Definition session_events (s : string) (l : Ledger) : list AgentEvent :=
  List.map er_event (select_events (in_session s) l).

Lemma mode_diff_types mode evs : List.map de_event_type (mode_diff mode evs) = List.map ev_event_type evs.
Proof.
  assert (Hm : forall saw, List.map de_event_type (memory_diff_loop [] saw evs) = List.map ev_event_type evs).
  { induction evs as [|e evs IH]; intros saw; [done|]. simpl.
    destruct (String.eqb _ _); simpl; by rewrite IH. }
  destruct mode; [..|]; cbn [mode_diff]; try apply Hm; unfold recorded_diff, model_diff, policy_diff,
    tool_diff, local_only_diff, experimental_diff; rewrite map_map; apply map_ext; intros e;
    by repeat case_match.
Qed.

Lemma memory_diff_none evs : memory_diff [] evs = recorded_diff evs.
Proof.
  unfold memory_diff. induction evs as [|e evs IH]; [done|]. simpl.
  destruct (String.eqb _ _); [by rewrite IH|]. by rewrite andb_false_r, IH.
Qed.

Section run_props.
Context `{Env}.

(** A replay of an existing checkpoint by a known actor always completes:
    it reports one entry per event of the checkpoint's session, in order, by the
    rule of its mode; it records the run as completed; and it touches neither
    the ledger nor the checkpoints. *)
Theorem replay_run_completes (requested_by ck : string) (mode : ReplayMode) (w : RWorld)
  (c : CheckpointRow) (Hck : checkpoints w !! ck = Some c)
  (Hws : has (workspaces (ledger (rworld w))) (ck_workspace_id c) = true)
  (Hactor : has (actors (ledger (rworld w))) requested_by = true)
  (Hfresh : runs w !! ("rr" +:+ "_" +:+ ulid (seq (rworld w))) = None) :
  let evs := match ck_session_id c with Some s => session_events s (ledger (rworld w)) | None => [] end in
  exists d w', run requested_by ck mode w = (Ok d, w') /\
    rd_entries d = mode_diff mode evs /\
    List.map de_event_type (rd_entries d) = List.map ev_event_type evs /\
    ledger (rworld w') = ledger (rworld w) /\ checkpoints w' = checkpoints w /\
    exists r, runs w' !! rd_run_id d = Some r /\ rr_status r = "completed" /\
      rr_checkpoint_id r = ck /\ rr_mode r = mode_name mode /\ rr_requested_by r = requested_by /\
      rr_finished_at r <> None.
Proof.
  intros evs. unfold run, mbind, M_bind, on_ledger, insert_run, finish_run, now_rfc3339, new_id. simpl.
  rewrite Hck. simpl. rewrite (proj2 (has_false _ _) Hfresh), Hws, Hactor. simpl.
  assert (Hh : has (checkpoints w) ck = true) by (apply has_true; rewrite Hck; eauto).
  rewrite Hh. simpl.
  destruct (ck_session_id c) as [s|]; simpl; eexists _, _; (split; [reflexivity|]); simpl;
    (split; [reflexivity || by destruct mode|]); (split; [apply mode_diff_types || done|]);
    (split; [reflexivity|]); (split; [reflexivity|]);
    rewrite lookup_alter_eq, lookup_insert_eq; simpl; eexists; (split; [reflexivity|]); by repeat split.
Qed.
End run_props.
