(* ===== verification/Ffi.v ===== *)
(** * The embedded handle ([actant-ffi/src/lib.rs])

    What a Swift or Kotlin host calls: opening a store, dispatching a command,
    reading the events after a stamp and ingesting those of a peer.  The file
    system, the opening of the SQLite file with its migrations and serde's error
    texts are parameters. *)

From S2P Require Import Prelude Str Json Hlc Core Storage Policy Command LedgerInv Chain Effects.
#[local] Open Scope string_scope.
#[local] Open Scope list_scope.
#[local] Open Scope Z_scope.

(** ** Errors *)

Inductive FfiError :=
| FStorage (m : string) | FNotFound (m : string) | FInvalidInput (m : string) | FPermissionDenied (m : string)
| FApprovalRequired | FRateLimited | FIdempotentReplay.
Definition ffi_error_text (e : FfiError) : string :=
  match e with
  | FStorage m => "storage error: " +:+ m
  | FNotFound m => "not found: " +:+ m
  | FInvalidInput m => "invalid input: " +:+ m
  | FPermissionDenied m => "permission denied: " +:+ m
  | FApprovalRequired => "approval required"
  | FRateLimited => "rate limited"
  | FIdempotentReplay => "idempotent replay"
  end.
Definition from_error (e : ActantError) : FfiError :=
  match e with
  | Core.Storage s | Internal s | NotImplemented s => FStorage s
  | NotFound s => FNotFound s
  | InvalidInput s | Conflict s => FInvalidInput s
  | PermissionDenied s | PolicyHalt s | ApprovalDenied s => FPermissionDenied s
  | ApprovalRequired_ _ => FApprovalRequired
  | IdempotentReplay _ => FIdempotentReplay
  end.

(** ** Records *)

Record FfiOutcome := mkFfiOutcome { fo_command_id : string; fo_event_id : option string; fo_result_json : string }.
Record FfiEventRow := mkFfiRow {
  fr_id : string; fr_session_id : option string; fr_event_type : string; fr_payload_json : string;
  fr_payload_hash : string; fr_created_at : string; fr_device_id : string; fr_hlc_physical_ms : Z; fr_hlc_logical : Z
}.
Record FfiReport := mkFfiReport { fp_accepted : Z; fp_skipped : Z; fp_rejected : list string }.
Record ActantHandle := mkHandle { h_workspace : string; h_actor : string }.

(** Every call runs over the store the handle opened. *)
#[local] Abbreviation Ffi A := (M World FfiError A).
Definition on_store {A} (m : DB A) : Ffi A := map_err from_error m.

(** ** Opening *)

Inductive StorageConfig := InMemory | File (path : string).
(** [Path::extension], [Path::join], [create_dir_all] and [Storage::open]. *)
Class Paths := {
  extension : string -> option string; path_join : string -> string -> string;
  create_dir_all : string -> option string; open_store : StorageConfig -> result ActantError World
}.

Section handle.
Context `{Env} `{Sha256} `{SerdeJson} `{Regex} `{RowOrder} (json_error : string -> string).

Definition config_of `{Paths} (store_dir : string) : result FfiError StorageConfig :=
  if String.eqb store_dir "" || String.eqb store_dir ":memory:" then Ok InMemory
  else if bool_decide (extension store_dir = Some "sqlite") then Ok (File store_dir)
  else match create_dir_all store_dir with
       | Some e => Err (FStorage ("create store_dir: " +:+ e))
       | None => Ok (File (path_join store_dir "actantdb.sqlite"))
       end.
Definition bind_workspace (ws : string) : Ffi unit :=
  w ← on_store (get_workspace ws);
  match w with
  | Some _ => mret tt
  | None => now ← on_store now_rfc3339; on_store (insert_workspace (mkWorkspace ws ws now None))
  end.
Definition bind_actor (ws actor : string) : Ffi unit :=
  a ← on_store (get_actor actor);
  match a with
  | Some _ => mret tt
  | None => now ← on_store now_rfc3339; on_store (insert_actor (mkActor actor ws Human actor now None))
  end.
Definition open_handle `{Paths} (store_dir workspace_id actor_id : string) : result FfiError (ActantHandle * World) :=
  if String.eqb workspace_id "" then Err (FInvalidInput "workspace_id must not be empty")
  else if String.eqb actor_id "" then Err (FInvalidInput "actor_id must not be empty")
  else
    cfg ← config_of store_dir;
    match open_store cfg with
    | Err e => Err (from_error e)
    | Ok w =>
        match (bind_workspace workspace_id;; bind_actor workspace_id actor_id) w with
        | (Ok _, w') => Ok (mkHandle workspace_id actor_id, w')
        | (Err e, _) => Err e
        end
    end.

(** ** Dispatch *)

Definition ffi_dispatch (policy : PolicyDoc) (h : ActantHandle) (command_type input_json : string)
    (key : option string) : Ffi FfiOutcome :=
  match from_str input_json with
  | None => throw (FInvalidInput ("input_json: " +:+ json_error input_json))
  | Some input =>
      o ← on_store (dispatch policy (h_workspace h) (h_actor h) command_type input key);
      mret (mkFfiOutcome (co_command_id o) (co_event_id o) (to_string (co_result o)))
  end.

(** ** Reading *)

Definition stamp_cmp : Z * Z -> Z * Z -> comparison := lex_cmp Z.compare Z.compare.
(** [ORDER BY hlc_physical_ms, hlc_logical, created_at, id]. *)
Definition page_cmp (a b : EventRow) : comparison :=
  lex_cmp stamp_cmp (lex_cmp String.compare String.compare)
    (er_hlc a, (ev_created_at (er_event a), ev_id (er_event a)))
    (er_hlc b, (ev_created_at (er_event b), ev_id (er_event b))).
Definition page_le (a b : EventRow) : Prop := cmp_le (cmp:=page_cmp) a b = true.
#[export] Instance page_le_dec a b : Decision (page_le a b).
Proof. unfold page_le. apply _. Defined.

Definition in_workspace (ws : string) (r : EventRow) : bool := String.eqb (ev_workspace_id (er_event r)) ws.
Definition past_cursor (physical logical : option Z) (r : EventRow) : bool :=
  match physical, logical with
  | Some p, Some l =>
      let p := u64_as_i64 p in
      (p <? (er_hlc r).1) || (((er_hlc r).1 =? p) && (l <? (er_hlc r).2))
  | _, _ => true
  end.
Definition workspace_events (ws : string) (l : Ledger) : list EventRow :=
  merge_sort page_le (List.filter (in_workspace ws) (rows (events l))).
Definition ffi_row (r : EventRow) : FfiEventRow :=
  let e := er_event r in
  mkFfiRow (ev_id e) (ev_session_id e) (ev_event_type e) (default "{}" (ev_payload_inline e)) (ev_payload_hash e)
    (ev_created_at e) (er_device_id r) (Z.max (er_hlc r).1 0) (Z.max (er_hlc r).2 0 mod 2 ^ 32).
Definition page_size (limit : Z) : nat := Z.to_nat (Z.min (Z.max limit 1) 10000).
Definition events_since (h : ActantHandle) (physical logical : option Z) (limit : Z) : Ffi (list FfiEventRow) :=
  fun w => (Ok (List.map ffi_row (take (page_size limit)
    (List.filter (past_cursor physical logical) (workspace_events (h_workspace h) (ledger w))))), w).

(** ** Ingest *)

Definition ingest_event (h : ActantHandle) (row : FfiEventRow) : IngestEvent :=
  mkIngestEvent
    (mkAgentEvent (fr_id row) (h_workspace h) (h_actor h) (fr_session_id row) None (fr_event_type row) Audit SLow None
       (Some (fr_payload_json row)) None (fr_payload_hash row) (fr_payload_hash row) (fr_created_at row)
       None None None None None None None)
    (fr_payload_json row) (fr_device_id row) (mkHlc (fr_hlc_physical_ms row) (fr_hlc_logical row)).
Definition reject_text (r : IngestReject) : string :=
  show_Z (Z.of_nat (rej_index r)) +:+ ":" +:+ rej_reason r +:+
  match rej_event_id r with Some id => ":" +:+ id | None => "" end.
(** Without a clock to observe the stamps. *)
Definition ingest (h : ActantHandle) (rows : list FfiEventRow) : Ffi FfiReport :=
  '(rep, _) ← on_store (ingest_events (List.map (ingest_event h) rows));
  mret (mkFfiReport (accepted rep) (skipped rep) (List.map reject_text (rejected rep))).
End handle.

(** ** Pages *)

#[local] Instance page_cmp_total_key : TotalCmp (lex_cmp stamp_cmp (lex_cmp String.compare String.compare)).
Proof. unfold stamp_cmp. apply _. Qed.
#[local] Instance page_le_total : Total page_le.
Proof. intros a b. unfold page_le, page_cmp. apply (cmp_le_total (cmp:=lex_cmp stamp_cmp _)). Qed.
#[local] Instance page_le_trans : Transitive page_le.
Proof. intros a b c. unfold page_le, page_cmp. apply (cmp_le_trans (cmp:=lex_cmp stamp_cmp _)). Qed.
Lemma page_le_id a b : page_le a b -> page_le b a -> row_id a = row_id b.
Proof.
  unfold page_le, page_cmp. intros H1 H2.
  pose proof (cmp_le_antisym (cmp:=lex_cmp stamp_cmp (lex_cmp String.compare String.compare)) _ _ H1 H2) as He.
  by injection He.
Qed.

Section pages.
Context `{RowOrder}.

Lemma workspace_events_in ws l r :
  In r (workspace_events ws l) <-> In r (rows (events l)) /\ ev_workspace_id (er_event r) = ws.
Proof.
  unfold workspace_events. rewrite <- list_elem_of_In, merge_sort_Permutation, list_elem_of_In, List.filter_In.
  unfold in_workspace. by rewrite String.eqb_eq.
Qed.
Lemma workspace_events_sorted ws l : StronglySorted page_le (workspace_events ws l).
Proof. apply StronglySorted_merge_sort; apply _. Qed.
Lemma workspace_events_nodup ws l : keyed l -> List.NoDup (List.map row_id (workspace_events ws l)).
Proof.
  intros Hk. eapply Permutation_NoDup; [|by apply (keyed_rows_nodup (in_workspace ws) l)].
  apply Permutation_map. symmetry. apply merge_sort_Permutation.
Qed.

(** The stamps a store keeps: within the width of their columns, and one event each. *)
Definition stamps_ok (l : Ledger) : Prop :=
  forall k r, events l !! k = Some r -> 0 <= (er_hlc r).1 < 2 ^ 63 /\ 0 <= (er_hlc r).2 < 2 ^ 32.
Definition one_each (ws : string) (l : Ledger) : Prop := List.NoDup (List.map er_hlc (workspace_events ws l)).

Definition cursor_of (r : FfiEventRow) : option Z * option Z := (Some (fr_hlc_physical_ms r), Some (fr_hlc_logical r)).
(** The host's loop: a page, and the next one after the stamp of its last row. *)
Fixpoint pull_rows (fuel : nat) (h : ActantHandle) (cur : option Z * option Z) (limit : Z) (w : World) :
    option (list FfiEventRow) :=
  match fuel with
  | O => None
  | S f =>
      match events_since h cur.1 cur.2 limit w with
      | (Ok page, w') =>
          match last page with
          | None => Some []
          | Some r => rest ← pull_rows f h (cursor_of r) limit w'; Some (page ++ rest)
          end
      | (Err _, _) => None
      end
  end.

Definition stamp_lt (a b : EventRow) : Prop := stamp_cmp (er_hlc a) (er_hlc b) = Lt.

Lemma stamps_increase l : StronglySorted page_le l -> List.NoDup (List.map er_hlc l) -> StronglySorted stamp_lt l.
Proof.
  induction 1 as [|x l Hl IH Hx]; intros Hn; [constructor|]. cbn [List.map] in Hn. apply List.NoDup_cons_iff in Hn as [Hn Hd].
  constructor; [by apply IH|]. rewrite List.Forall_forall in *. intros y Hy. specialize (Hx y Hy).
  unfold page_le, page_cmp, cmp_le, lex_cmp in Hx. simpl in Hx. unfold stamp_lt.
  destruct (stamp_cmp (er_hlc x) (er_hlc y)) eqn:Hc; try done.
  apply (cmp_eq_iff (cmp:=lex_cmp Z.compare Z.compare)) in Hc. exfalso. apply Hn. rewrite Hc. by apply in_map.
Qed.

Definition stamp_ok (r : EventRow) : Prop := 0 <= (er_hlc r).1 < 2 ^ 63 /\ 0 <= (er_hlc r).2 < 2 ^ 32.
Lemma past_cursor_stamp x r : stamp_ok x ->
  past_cursor (cursor_of (ffi_row x)).1 (cursor_of (ffi_row x)).2 r =
  match stamp_cmp (er_hlc x) (er_hlc r) with Lt => true | _ => false end.
Proof.
  intros [Hp Hl]. unfold past_cursor, cursor_of, ffi_row, stamp_cmp, lex_cmp, u64_as_i64. simpl.
  rewrite !Z.max_l, (Z.mod_small (er_hlc x).2) by lia. rewrite (proj2 (Z.ltb_lt (er_hlc x).1 _)) by lia.
  destruct (Z.compare_spec (er_hlc x).1 (er_hlc r).1) as [He|He|He].
  - rewrite He, Z.ltb_irrefl, Z.eqb_refl. simpl. unfold Z.ltb. by destruct (_ ?= _).
  - by rewrite (proj2 (Z.ltb_lt _ _) He).
  - rewrite (proj2 (Z.ltb_ge _ _)) by lia. by rewrite (proj2 (Z.eqb_neq _ _)) by lia.
Qed.

(** After the last row of a page come the rows that follow it. *)
Lemma after_row p x q : StronglySorted stamp_lt (p ++ x :: q) -> stamp_ok x ->
  List.filter (past_cursor (cursor_of (ffi_row x)).1 (cursor_of (ffi_row x)).2) (p ++ x :: q) = q.
Proof.
  intros Hs Hx. apply StronglySorted_app in Hs as (Hpx & _ & Hxq). apply StronglySorted_inv in Hxq as [_ Hxq].
  rewrite List.Forall_forall in Hxq. rewrite List.filter_app.
  assert (Hf : forall l, (forall r, In r l -> stamp_cmp (er_hlc x) (er_hlc r) <> Lt) ->
    List.filter (past_cursor (cursor_of (ffi_row x)).1 (cursor_of (ffi_row x)).2) l = []).
  { induction l as [|r l IH]; intros Hl; [done|]. cbn [List.filter]. rewrite past_cursor_stamp by done.
    specialize (Hl r) as Hr. simpl in Hr. destruct (stamp_cmp _ _); [|by destruct Hr; [left|]|];
      apply IH; intros y Hy; apply Hl; by right. }
  assert (Hq : forall l, (forall r, In r l -> stamp_lt x r) ->
    List.filter (past_cursor (cursor_of (ffi_row x)).1 (cursor_of (ffi_row x)).2) l = l).
  { induction l as [|r l IH]; intros Hl; [done|]. cbn [List.filter]. rewrite past_cursor_stamp by done.
    pose proof (Hl r (or_introl eq_refl)) as Hr. unfold stamp_lt in Hr. rewrite Hr. f_equal. apply IH.
    intros y Hy. apply Hl. by right. }
  change (x :: q) with ([x] ++ q). rewrite List.filter_app, (Hq q Hxq).
  rewrite Hf; [rewrite Hf; [done|]|].
  - intros r [<-|[]] Hc. change (lex_cmp Z.compare Z.compare (er_hlc x) (er_hlc x) = Lt) in Hc. by rewrite cmp_refl in Hc.
  - intros r Hr Hc. assert (Hlt : stamp_lt r x) by (apply Hpx; [by apply list_elem_of_In|left]).
    unfold stamp_lt, stamp_cmp in *. rewrite (cmp_antisym (cmp:=lex_cmp Z.compare Z.compare) (er_hlc x)) in Hlt. by rewrite Hc in Hlt.
Qed.
Lemma pull_rows_from fuel h cur limit w :
  let L := workspace_events (h_workspace h) (ledger w) in
  StronglySorted stamp_lt L -> Forall stamp_ok L ->
  (exists p, L = p ++ List.filter (past_cursor cur.1 cur.2) L) ->
  (List.length (List.filter (past_cursor cur.1 cur.2) L) < fuel)%nat ->
  pull_rows fuel h cur limit w = Some (List.map ffi_row (List.filter (past_cursor cur.1 cur.2) L)).
Proof.
  intros L Hs Hok. revert cur. induction fuel as [|f IH]; intros cur [p Hp] Hf; [lia|].
  cbn [pull_rows]. unfold events_since. fold L. set (F := List.filter _ L) in *.
  set (n := page_size limit). assert (Hn : (1 <= n)%nat) by (unfold n, page_size; lia).
  transitivity (Some (List.map ffi_row (take n F) ++ List.map ffi_row (drop n F)));
    [|by rewrite <- List.map_app, take_drop].
  rewrite last_map. destruct (last (take n F)) as [x|] eqn:Hlast; simpl.
  - apply last_Some in Hlast as [q Hq]. assert (HF : F = q ++ x :: drop n F).
    { rewrite <- (take_drop n F) at 1. by rewrite Hq, <- app_assoc. }
    assert (HL : L = (p ++ q) ++ x :: drop n F) by (rewrite <- app_assoc, <- HF; exact Hp).
    assert (Hx : stamp_ok x).
    { rewrite List.Forall_forall in Hok. apply Hok. rewrite HL. apply in_or_app. right. by left. }
    assert (Hrest : List.filter (past_cursor (cursor_of (ffi_row x)).1 (cursor_of (ffi_row x)).2) L = drop n F).
    { rewrite HL. apply after_row; [by rewrite <- HL|done]. }
    change (cursor_of (ffi_row x)) with ((cursor_of (ffi_row x)).1, (cursor_of (ffi_row x)).2).
    rewrite IH; cbn [fst snd]; rewrite Hrest.
    + done.
    + exists ((p ++ q) ++ [x]). rewrite <- app_assoc. exact HL.
    + rewrite HF, length_app in Hf. simpl in Hf. lia.
  - apply last_None in Hlast. destruct F as [|y F']; [by destruct n|]. destruct n; [lia|done].
Qed.

(** A host that pulls from the start until nothing comes gets, after at most one
    round more than there are events, every event of its workspace exactly once,
    in the order of the stamps, whatever the page size: provided no two events of
    the workspace have the same stamp. *)
Theorem ffi_pull_gets_everything (h : ActantHandle) (limit : Z) (w : World) :
  keyed (ledger w) -> stamps_ok (ledger w) -> one_each (h_workspace h) (ledger w) ->
  let es := workspace_events (h_workspace h) (ledger w) in
  pull_rows (S (List.length es)) h (None, None) limit w = Some (List.map ffi_row es) /\
  List.NoDup (List.map row_id es) /\
  forall r, In r es <-> events (ledger w) !! row_id r = Some r /\ ev_workspace_id (er_event r) = h_workspace h.
Proof.
  intros Hk Hst Ho es. assert (Hall : List.filter (past_cursor None None) es = es).
  { clear. induction es as [|r es IH]; simpl; [done|]. by rewrite IH. }
  split; [|split].
  - rewrite pull_rows_from; cbn [fst snd]; change (workspace_events (h_workspace h) (ledger w)) with es.
    + by rewrite Hall.
    + apply stamps_increase; [apply workspace_events_sorted|exact Ho].
    + apply List.Forall_forall. intros r Hr. apply workspace_events_in in Hr as [[k Hr]%rows_In _]. exact (Hst k r Hr).
    + exists []. by rewrite Hall.
    + rewrite Hall. lia.
  - by apply workspace_events_nodup.
  - intros r. unfold es. rewrite workspace_events_in. split.
    + intros [Hr Hw]. split; [by apply keyed_row|done].
    + intros [Hr Hw]. split; [|done]. apply rows_In. by exists (row_id r).
Qed.
End pages.

(** ** What the host's own commands leave *)

(** The ledger has the events of [E0] and, beside them, only events without a stamp. *)
Record unstamped_since (E0 : gmap string EventRow) (w : World) : Prop := {
  us_keyed : keyed (ledger w);
  us_old : forall k r, E0 !! k = Some r -> events (ledger w) !! k = Some r;
  us_new : forall k r, events (ledger w) !! k = Some r -> E0 !! k = Some r \/ er_hlc r = (0, 0);
}.

Section local.
Context `{SerdeJson} `{Sha256} `{Regex} `{Env} `{RowOrder} (E0 : gmap string EventRow).

Lemma quiet_unstamped {A} (m : DB A) : quiet m -> preserves (unstamped_since E0) m.
Proof. intros Hq w [Hk Ho Hn]. destruct (Hq w) as [He _]. split; unfold keyed; rewrite He; done. Qed.

Lemma append_event_unstamped e : preserves (unstamped_since E0) (append_event e).
Proof.
  intros w [Hk Ho Hn]. unfold append_event, insert_row.
  destruct (has (events (ledger w)) (ev_id e)) eqn:Hh; [done|]. apply has_false in Hh.
  destruct (event_fk _ _); [|done]. simpl. split; simpl.
  - intros k r. simpl. destruct (decide (ev_id e = k)) as [<-|Hne].
    + rewrite lookup_insert_eq. by intros [= <-].
    + rewrite lookup_insert_ne by done. apply Hk.
  - intros k r Hr. rewrite lookup_insert_ne; [by apply Ho|].
    intros <-. apply Ho in Hr. congruence.
  - intros k r. destruct (decide (ev_id e = k)) as [<-|Hne].
    + rewrite lookup_insert_eq. intros [= <-]. by right.
    + rewrite lookup_insert_ne by done. apply Hn.
Qed.

Ltac unstamped_step :=
  match goal with
  | |- preserves _ (append_event _) => apply append_event_unstamped
  | |- preserves _ (_ ≫= _) => apply preserves_bind; [|intros ?]
  | |- preserves _ (mret _) => apply preserves_ret
  | |- preserves _ (throw _) => apply preserves_throw
  | |- preserves _ (lift_result _) => apply preserves_lift
  | |- preserves _ (read _) => apply quiet_unstamped, quiet_pure; intros w; split; [done|simpl; lia]
  | |- preserves _ now_rfc3339 => apply quiet_unstamped, quiet_pure; intros w; split; [done|simpl; lia]
  | |- preserves _ (new_id _) => apply quiet_unstamped, quiet_pure; intros w; split; [done|simpl; lia]
  | |- preserves _ (insert_row _ _ _ _ _ _) => by apply quiet_unstamped, quiet_insert_row
  | |- preserves _ (with_ledger _) => by apply quiet_unstamped, quiet_with_ledger
  | |- preserves _ (decide_approvals _ _ _) => apply quiet_unstamped, quiet_decide_approvals
  | |- preserves _ (match ?x with _ => _ end) => destruct x
  | |- preserves _ (if ?b then _ else _) => destruct b
  end.

Lemma handle_unstamped policy ws actor cmd ct input :
  preserves (unstamped_since E0) (handle policy ws actor cmd ct input).
Proof.
  unfold handle, create_session, append_message, request_tool_call, approve_tool_call,
    deny_tool_call, record_tool_result, propose_memory, approve_memory, reject_memory,
    session_exists, insert_message, upsert_tool, insert_tool_call, insert_approval_request,
    session_for_tool_call, approve_pending_tool_call, deny_pending_tool_call, complete_tool_call,
    set_tool_call_approval_request, update_tool_call, insert_memory_candidate, memory_candidate,
    insert_memory, approve_memory_candidate, reject_memory_candidate, update_candidate,
    ensure_actor, get_actor, insert_actor, insert_session, append_chronicle, last_event_hash.
  repeat unstamped_step.
Qed.

Lemma dispatch_unstamped policy ws actor ct input key :
  preserves (unstamped_since E0) (dispatch policy ws actor ct input key).
Proof.
  unfold dispatch, run_command, idempotency_lookup, ensure_workspace, ensure_actor, get_workspace,
    get_actor, insert_workspace, insert_actor, insert_command.
  repeat unstamped_step; [apply handle_unstamped|].
  unfold record_key. destruct key as [k|]; [|apply preserves_ret].
  apply quiet_unstamped, quiet_idempotency_record.
Qed.
End local.

Lemma filter_sorted {A} (R : A -> A -> Prop) (f : A -> bool) l : StronglySorted R l -> StronglySorted R (List.filter f l).
Proof.
  induction 1 as [|x l Hl IH Hx]; simpl; [constructor|]. destruct (f x); [|done]. constructor; [done|].
  rewrite List.Forall_forall in *. intros y [Hy _]%filter_In. auto.
Qed.
Lemma filter_nodup_map {A B} (g : A -> B) (f : A -> bool) l : List.NoDup (List.map g l) -> List.NoDup (List.map g (List.filter f l)).
Proof.
  induction l as [|x l IH]; simpl; [done|]. rewrite List.NoDup_cons_iff. intros [Hx Hl].
  destruct (f x); simpl; [|by apply IH]. constructor; [|by apply IH]. intros (y & Hg & [Hy _]%filter_In)%in_map_iff.
  apply Hx. rewrite <- Hg. by apply in_map.
Qed.

Section unseen.
Context `{SerdeJson} `{Sha256} `{Regex} `{Env} `{RowOrder} (json_error : string -> string).

(** Once a host has a cursor, whatever it dispatches itself never comes in a page:
    the engine writes its events without a stamp, and no stamp is past a cursor of
    at least zero that way. *)
Theorem dispatch_unseen (policy : PolicyDoc) (h : ActantHandle) (command_type input_json : string)
  (key : option string) (w : World) (p l limit : Z) :
  keyed (ledger w) -> 0 <= p < 2 ^ 63 -> 0 <= l ->
  (events_since h (Some p) (Some l) limit (ffi_dispatch json_error policy h command_type input_json key w).2).1 =
  (events_since h (Some p) (Some l) limit w).1.
Proof.
  intros Hk Hp Hl. set (w' := (ffi_dispatch _ _ _ _ _ _ w).2).
  assert (Hu : unstamped_since (events (ledger w)) w').
  { assert (Hw : unstamped_since (events (ledger w)) w) by (split; auto). subst w'. unfold ffi_dispatch.
    destruct (from_str input_json) as [input|]; [|done].
    pose proof (dispatch_unstamped (events (ledger w)) policy (h_workspace h) (h_actor h) command_type input key w Hw) as Hd.
    unfold mbind, M_bind, on_store, map_err. by destruct (dispatch _ _ _ _ _ _ w) as [[o|e] w1]. }
  clearbody w'. destruct Hu as [Hk' Ho Hn]. unfold events_since. cbn [fst]. do 3 f_equal.
  assert (Hin : forall r, In r (List.filter (past_cursor (Some p) (Some l)) (workspace_events (h_workspace h) (ledger w'))) <->
                          In r (List.filter (past_cursor (Some p) (Some l)) (workspace_events (h_workspace h) (ledger w)))).
  { intros r. rewrite !filter_In, !workspace_events_in, !rows_In. split; intros [[[k Hr] Hw] Hc]; (split; [split; [|done]|done]).
    - exists k. destruct (Hn k r Hr) as [Hr'|Hz]; [done|]. exfalso. unfold past_cursor, u64_as_i64 in Hc. rewrite Hz in Hc.
      simpl in Hc. rewrite (proj2 (Z.ltb_lt p _)) in Hc by lia. lia.
    - exists k. by apply Ho. }
  apply (StronglySorted_unique_strong page_le).
  - intros a b Ha%list_elem_of_In Hb%list_elem_of_In Hab Hba. apply Hin in Hb.
    apply filter_In in Ha as [[Ha _]%workspace_events_in _]. apply filter_In in Hb as [[Hb _]%workspace_events_in _].
    apply (row_unique (ledger w')); [done|done|done|by apply page_le_id].
  - apply filter_sorted, workspace_events_sorted.
  - apply filter_sorted, workspace_events_sorted.
  - apply Permutation.NoDup_Permutation; [..|exact Hin]; eapply List.NoDup_map_inv, (filter_nodup_map row_id), workspace_events_nodup; done.
Qed.

(** ** What a peer's events become *)

Definition row_ok (row : FfiEventRow) : Prop :=
  0 <= fr_hlc_physical_ms row < 2 ^ 63 /\ 0 <= fr_hlc_logical row < 2 ^ 32.

Lemma ffi_row_ingested h row : row_ok row -> ffi_row (ingest_row (ingest_event h row)) = row.
Proof.
  intros [Hp Hl]. destruct row. unfold ffi_row, ingest_row, ingest_event, u64_as_i64. simpl in *.
  rewrite (proj2 (Z.ltb_lt _ _)), !Z.max_l, Z.mod_small by lia. done.
Qed.


(** An event is bound to the actor of the handle it came through: two handles with
    different actors take the same row only if SHA-256 collides. *)
Theorem ingest_binds_actor (a b : ActantHandle) (row : FfiEventRow) (la lb : Ledger) :
  h_actor a <> h_actor b -> valid la (ingest_event a row) = true -> valid lb (ingest_event b row) = true ->
  exists x y, x <> y /\ sha256_hex x = sha256_hex y.
Proof.
  intros Hne Ha Hb.
  assert (Hd : forall l h, valid l (ingest_event h row) = true ->
    content_derived (fr_payload_json row) (mkHlc (fr_hlc_physical_ms row) (fr_hlc_logical row)) (h_actor h) = fr_id row).
  { intros l h Hv. apply String.eqb_eq. unfold valid, reject_reason in Hv.
    destruct (String.eqb (ie_device_id _) ""); [done|].
    destruct (String.eqb (content_derived _ _ _) _) eqn:He in Hv; [exact He|done]. }
  apply Hd in Ha, Hb. rewrite <- Hb in Ha. unfold content_derived in Ha. apply append_inj_l in Ha.
  do 2 eexists. split; [|exact Ha]. intros He. do 3 apply append_inj_l in He. congruence.
Qed.
End unseen.
