(* ===== verification/SyncReplayDemo.v ===== *)
(** * Concrete replays and sync runs

    Witnesses for the replay theorems over a ledger that the engine wrote, and for
    the runner's theorem on the filesystem destination, with and without faults;
    runs that show what a replay does not take into account and what sync does not
    deliver. *)

From S2P Require Import Prelude Str Json Core Storage Chain EngineDemo Sync SyncFs Replay Hlc Policy Command Effects EffectsDemo Ffi.
#[local] Open Scope string_scope.
#[local] Open Scope list_scope.
#[local] Open Scope Z_scope.

(** ** Replays *)

#[local] Existing Instance demo_env.
#[local] Existing Instance the_serde.
#[local] Existing Instance demo_sha256.
#[local] Existing Instance the_regex.

(** Two commands, and a checkpoint at the first event of the session. *)
Definition replays : RWorld := mkRWorld two_commands ∅ ∅.
Definition with_checkpoint : RWorld := (checkpoint "ws" "evt_1" replays).2.
Definition ck_row : CheckpointRow :=
  mkCheckpointRow "chk_7" "ws" "evt_1" (Some "s") "snap:state:evt_1" "snap:routes:evt_1"
    "snap:perms:evt_1" "snap:mem:evt_1" (ticks 11).

Lemma replay_run_completes_witness :
  (checkpoint "ws" "evt_1" replays).1 = Ok "chk_7" /\
  exists d w', run "alice" "chk_7" Recorded with_checkpoint = (Ok d, w') /\
    rd_entries d = recorded_diff (session_events "s" (ledger (rworld with_checkpoint))).
Proof.
  split; [vm_compute; reflexivity|].
  assert (Hck : checkpoints with_checkpoint !! "chk_7" = Some ck_row) by (vm_compute; reflexivity).
  assert (Hws : has (workspaces (ledger (rworld with_checkpoint))) (ck_workspace_id ck_row) = true)
    by (vm_compute; reflexivity).
  assert (Ha : has (actors (ledger (rworld with_checkpoint))) "alice" = true) by (vm_compute; reflexivity).
  assert (Hf : runs with_checkpoint !! ("rr" +:+ "_" +:+ ulid (seq (rworld with_checkpoint))) = None)
    by (vm_compute; reflexivity).
  destruct (replay_run_completes "alice" "chk_7" Recorded with_checkpoint ck_row Hck Hws Ha Hf)
    as (d & w' & Hrun & Hd & _).
  exists d, w'. split; [exact Hrun|exact Hd].
Defined.

(** A replay walks the whole session: events after the checkpoint are replayed too. *)
Example replay_ignores_checkpoint_event :
  (run "alice" "chk_7" Recorded with_checkpoint).1 =
  Ok (mkReplayDiff "rr_8" [mkDiffEntry "session_created" "identical" None;
                           mkDiffEntry "tool_call_requested" "identical" None]).
Proof. vm_compute. reflexivity. Qed.

(** A memory replay never reports a change: it excludes nothing. *)
Example memory_replay_is_recorded (evs : list AgentEvent) : mode_diff MMemory evs = mode_diff Recorded evs.
Proof. apply memory_diff_none. Qed.

Definition late_note (event_type : string) : AgentEvent :=
  mkAgentEvent "evt" "ws" "alice" None None event_type Observation SLow None None None "h" event_type
    "" None None None None None None None.
(** Streams with the same payload hashes align as identical whatever their events are. *)
Example align_ignores_event_type :
  let e := late_note "a" in
  let e' := late_note "b" in
  ev_event_type e <> ev_event_type e' /\ forallb identical (align_streams [e] [e']) = true.
Proof. vm_compute. split; [discriminate|reflexivity]. Qed.

(** ** Sync runs *)


(** The fourth call of the process fails. *)
#[local] Instance fourth_fails : FsFaults :=
  Build_FsFaults (fun n => if (n =? 4)%nat then Some "disk full" else None)
    (fun _ b => Some "torn").
#[local] Instance id_json : EventJson := fun e => Ok (ev_id e +:+ ":" +:+ ev_payload_hash e).

Definition no_files : FsDest := mkFsDest ∅ 0.
Definition store : Ledger := ledger two_commands.

Lemma keyed_check l :
  bool_decide (map_Forall (fun k r => ev_id (er_event r) = k) (events l)) = true -> keyed l.
Proof. intros Hb%bool_decide_eq_true k r Hr. by apply (Hb k r). Qed.

Lemma store_keyed : keyed store.
Proof. apply keyed_check. vm_compute. reflexivity. Qed.

Lemma store_storable : Forall fs_storable (feed "ws" store).
Proof.
  assert (Hb : forallb (fun e => all_chars safe_char (ev_id e) && negb (String.eqb (ev_id e) ""))
    (feed "ws" store) = true) by (vm_compute; reflexivity).
  rewrite forallb_forall in Hb. apply Forall_forall. intros e He%list_elem_of_In.
  apply Hb, andb_true_iff in He as [Hs Hn]. split; [done|]. intros Heq. by rewrite Heq in Hn.
Qed.

Lemma no_files_synced : synced "ws" store no_files.
Proof. intros e He. left. exact He. Qed.

(** The first run fails in the middle, the second resumes; no event is lost. *)
Definition first_run := run_once 3 "ws" store 1 no_files.
Definition after_first : FsDest := match first_run with Some (_, d) => d | None => no_files end.


Example second_run_resumes :
  (fst <$> run_once 3 "ws" store 1 after_first) = Some (Ok (mkSyncStats 2 2 (Some "evt_6"))) /\
  map fst (map_to_list (files after_first)) <> [].
Proof. vm_compute. split; [reflexivity|discriminate]. Qed.

(** ** What sync does not deliver *)

(** [store] with one more event, ingested later but stamped before the others. *)
Definition late_event : AgentEvent :=
  mkAgentEvent "evt_late" "ws" "alice" (Some "s") None "note" Observation SLow None (Some "{}") None
    "h" "h" "" None None None None None None None.
Definition store_with_late : Ledger :=
  set_events (<["evt_late" := mkEventRow late_event "phone" (0, 0)%Z]> (events store)) store.
Definition synced_dest : FsDest :=
  match run_once 3 "ws" store 10 (mkFsDest ∅ 10) with Some (_, d) => d | None => no_files end.

(** An event that arrives with a stamp before the cursor is never delivered: the
    next run reports that nothing is left. *)
Example late_event_skipped :
  (fst <$> run_once 4 "ws" store_with_late 10 synced_dest) = Some (Ok (mkSyncStats 0 0 (Some "evt_6"))) /\
  map ev_id (feed "ws" store_with_late) = ["evt_late"; "evt_1"; "evt_6"] /\
  files synced_dest !! key_for "ws" late_event = None.
Proof. vm_compute. auto. Qed.

(** A batch size of zero reports success without pushing anything. *)
Example zero_batch_pushes_nothing :
  (fst <$> run_once 4 "ws" store 0 no_files) = Some (Ok (mkSyncStats 0 0 None)).
Proof. vm_compute. auto. Qed.

(** Two workspaces can share a directory and a cursor. *)
Example workspaces_share_cursor : cursor_key "team/a" = cursor_key "team_a".
Proof. reflexivity. Qed.

(** ** The embedded handle *)

#[local] Existing Instance key_order.

#[local] Instance demo_paths : Paths := {|
  extension := fun s => if ends_with ".sqlite" s then Some "sqlite" else None;
  path_join := fun a b => a +:+ "/" +:+ b; create_dir_all := fun _ => None; open_store := fun _ => Ok (mkWorld empty_ledger 0 0) |}.
Definition opened : result FfiError (ActantHandle * World) := open_handle "/app" "ws" "alice".
Definition fresh_handle : World := match opened with Ok (_, w) => w | Err _ => two_commands end.
Definition phone : ActantHandle := mkHandle "ws" "alice".
(** A row of a peer, with the id its payload, stamp and actor give it. *)
Definition peer_row (payload : string) (ms : Z) (session : option string) : FfiEventRow :=
  mkFfiRow (content_derived payload (mkHlc ms 0) "alice") session "note" payload "hash" "t" "mac" ms 0.
Definition rows_ab : list FfiEventRow := [peer_row "a" 5 None; peer_row "b" 7 None].
Definition after_ingest : World := (ingest phone rows_ab two_commands).2.

Lemma two_commands_keyed : keyed (ledger two_commands).
Proof. apply keyed_check. vm_compute. reflexivity. Qed.


(** The host has pulled to the stamp of its last event; the command it then
    dispatches is in the ledger, and in no page. *)
Definition message_json : string := to_string (jobj [("session_id", JString "s"); ("role", JString "user"); ("body", JString "hi")]).
Lemma dispatch_unseen_witness :
  (events_since phone (Some 7) (Some 0) 100
     (ffi_dispatch (fun _ => "bad") (mkPolicyDoc "none" [] [] None) phone "append_message" message_json None after_ingest).2).1 =
  (events_since phone (Some 7) (Some 0) 100 after_ingest).1.
Proof.
  apply dispatch_unseen; [|split; vm_compute; congruence|vm_compute; congruence].
  apply keyed_check. vm_compute. reflexivity.
Defined.
(** From the first page on, the host's own events all have the stamp zero, and a
    page of one row is the last that comes. *)
Example own_events_stop_at_a_page :
  List.length (workspace_events "ws" (ledger two_commands)) = 2%nat /\
  List.length <$> pull_rows 9 phone (None, None) 1 two_commands = Some 1%nat.
Proof. vm_compute. split; reflexivity. Qed.

(** Two events of one stamp: the second is lost when a page ends between them. *)
Example page_splits_a_stamp :
  let w := (ingest phone [peer_row "a" 5 None; peer_row "b" 5 None] fresh_handle).2 in
  List.length (workspace_events "ws" (ledger w)) = 2%nat /\
  List.length <$> pull_rows 9 phone (None, None) 1 w = Some 1%nat /\
  List.length <$> pull_rows 9 phone (None, None) 2 w = Some 2%nat.
Proof. vm_compute. repeat split. Qed.

(** An event of a session that the peer has not: the call fails, with the rows
    before it already in. *)
Example unknown_session_fails :
  let r := ingest phone [peer_row "a" 5 None; peer_row "b" 7 (Some "elsewhere")] fresh_handle in
  r.1 = Err (FStorage "FOREIGN KEY constraint failed") /\
  List.map fr_payload_json (List.map ffi_row (workspace_events "ws" (ledger r.2))) = ["a"].
Proof. vm_compute. split; reflexivity. Qed.

(** What the engine wrote is refused by a peer: its id is not derived from its content. *)
Example own_events_refused :
  match events_since phone None None 10 two_commands with
  | (Ok page, _) => fp_accepted <$> (match ingest phone page fresh_handle with (Ok r, _) => Some r | _ => None end) = Some 0
  | _ => False
  end.
Proof. vm_compute. reflexivity. Qed.

Example open_binds :
  match opened with Ok (h, w) => h = phone /\ has (workspaces (ledger w)) "ws" = true /\ has (actors (ledger w)) "alice" = true
                  | Err _ => False end.
Proof. vm_compute. repeat split. Qed.
(** An actor of another workspace is taken as it is. *)
Example actor_of_another_workspace :
  match (bind_workspace "other";; bind_actor "other" "alice") two_commands with
  | (Ok _, w) => act_workspace_id <$> actors (ledger w) !! "alice" = Some "ws"
  | (Err _, _) => False
  end.
Proof. vm_compute. reflexivity. Qed.
