(* ===== verification/Circuit.v ===== *)
(** * The circuit breaker ([actant-reliability/src/circuit.rs])

    Instants are nanoseconds on the monotonic clock; each operation takes the
    reading it makes.  The breaker is shown to implement a specification on the
    history of outcomes: how many failures in a row, and when the last was. *)

From S2P Require Import Prelude.
#[local] Open Scope list_scope.
#[local] Open Scope Z_scope.

Inductive State := Closed | Open | HalfOpen.
#[global] Instance State_eq_dec : EqDecision State.
Proof. solve_decision. Defined.

Record Policy := mkPolicy { failure_threshold : Z; open_duration : Z }.

Record Breaker := mkBreaker {
  policy : Policy; state : State; failure_count : Z; opened_at : option Z
}.

Definition new (p : Policy) : Breaker := mkBreaker p Closed 0 None.

(** [t.elapsed()]: zero when the clock reads earlier. *)
Definition elapsed (t now : Z) : Z := Z.max 0 (now - t).

Definition current (now : Z) (b : Breaker) : State * Breaker :=
  let b' := match state b, opened_at b with
            | Open, Some t => if open_duration (policy b) <=? elapsed t now
                              then mkBreaker (policy b) HalfOpen (failure_count b) (opened_at b)
                              else b
            | _, _ => b
            end in
  (state b', b').

Definition allow (now : Z) (b : Breaker) : bool * Breaker :=
  let '(s, b') := current now b in
  (match s with Open => false | _ => true end, b').

Definition on_success (b : Breaker) : Breaker := mkBreaker (policy b) Closed 0 None.

Definition on_failure (now : Z) (b : Breaker) : Breaker :=
  let n := u32_saturating_add (failure_count b) 1 in
  if failure_threshold (policy b) <=? n
  then mkBreaker (policy b) Open n (Some now)
  else mkBreaker (policy b) (state b) n (opened_at b).

(** ** Runs *)

(** What a caller does, with the clock reading of the call. *)
Inductive Event := Allow (now : Z) | Success (now : Z) | Failure (now : Z).
Definition at_ (e : Event) : Z := match e with Allow t | Success t | Failure t => t end.

Definition step (b : Breaker) (e : Event) : Breaker :=
  match e with
  | Allow t => (allow t b).2
  | Success _ => on_success b
  | Failure t => on_failure t b
  end.
Definition run (b : Breaker) (es : list Event) : Breaker := fold_left step es b.

(** ** Specification: the failures since the last success *)

Record History := mkHistory { in_a_row : Z; last_failure : Z }.
Definition observe (h : History) (e : Event) : History :=
  match e with
  | Allow _ => h
  | Success _ => mkHistory 0 0
  | Failure t => mkHistory (in_a_row h + 1) t
  end.
Definition history (es : list Event) : History := fold_left observe es (mkHistory 0 0).

(** Calls are refused for [open_duration] after a failure that makes
    [failure_threshold] failures in a row. *)
Definition spec_allow (p : Policy) (h : History) (now : Z) : bool :=
  negb ((0 <? in_a_row h) && (failure_threshold p <=? in_a_row h)
        && (now <? last_failure h + open_duration p)).

(** Clock readings do not go back. *)
Fixpoint monotone (t : Z) (es : list Event) : Prop :=
  match es with [] => True | e :: es' => t <= at_ e /\ monotone (at_ e) es' end.

Record refines (p : Policy) (b : Breaker) (h : History) (t : Z) : Prop := {
  rf_policy : policy b = p;
  rf_nonneg : 0 <= in_a_row h;
  rf_count : failure_count b = Z.min (in_a_row h) u32_max;
  rf_state : match state b with
             | Closed => in_a_row h = 0 \/ in_a_row h < failure_threshold p
             | Open => 0 < in_a_row h /\ failure_threshold p <= in_a_row h /\ opened_at b = Some (last_failure h)
             | HalfOpen => 0 < in_a_row h /\ failure_threshold p <= in_a_row h /\
                 opened_at b = Some (last_failure h) /\ last_failure h + open_duration p <= t
             end;
  rf_past : last_failure h <= t \/ in_a_row h = 0;
}.

Section refinement.
Context (p : Policy) (Hthreshold : 0 <= failure_threshold p <= u32_max).

Lemma refines_later b h t t' : refines p b h t -> t <= t' -> refines p b h t'.
Proof.
  intros [Hp Hn Hc Hs Hl] Ht. split; try done; [|destruct Hl; [left|right]; lia].
  destruct (state b); intuition lia.
Qed.

Lemma allow_refines b h t :
  refines p b h t -> (allow t b).1 = spec_allow p h t /\ refines p (allow t b).2 h t.
Proof.
  intros Hr. pose proof Hr as [Hp Hn Hc Hs Hl]. unfold allow, current, spec_allow.
  destruct (state b) eqn:Hst.
  - rewrite Hst. split; [|done]. symmetry. apply negb_true_iff.
    apply andb_false_iff. left. apply andb_false_iff. destruct Hs; [left|right]; lia.
  - destruct Hs as (H0' & Hth & Ho). rewrite Ho, Hp. unfold elapsed.
    rewrite (proj2 (Z.ltb_lt _ _) H0'), (proj2 (Z.leb_le _ _) Hth). simpl.
    destruct (Z.leb_spec (open_duration p) (Z.max 0 (t - last_failure h))); simpl.
    + split; [symmetry; apply negb_true_iff; lia|]. split; simpl; try done.
      repeat split; try done; lia.
    + rewrite Hst. split; [|done]. symmetry. apply negb_false_iff. lia.
  - rewrite Hst. destruct Hs as (H0' & Hth & Ho & Hd). split; [|done].
    symmetry. apply negb_true_iff. apply andb_false_iff. right. lia.
Qed.

Lemma step_refines b h t e :
  refines p b h t -> t <= at_ e -> refines p (step b e) (observe h e) (at_ e).
Proof.
  intros Hr Ht. apply (refines_later _ _ _ _ Hr) in Ht as Hr'. destruct e as [u|u|u]; simpl in *.
  - by apply allow_refines.
  - destruct Hr as [Hp _ _ _ _]. split; simpl; first [done|lia|by left|by right].
  - destruct Hr' as [Hp Hn Hc Hs Hl]. unfold on_failure. rewrite Hp.
    assert (Hcount : u32_saturating_add (failure_count b) 1 = Z.min (in_a_row h + 1) u32_max).
    { rewrite Hc. unfold u32_saturating_add. lia. }
    rewrite Hcount. destruct (Z.leb_spec (failure_threshold p) (Z.min (in_a_row h + 1) u32_max));
      split; simpl; try done; try lia.
    + repeat split; lia.
    + destruct (state b); [right; lia|lia|lia].
Qed.

Lemma run_refines b h t es :
  refines p b h t -> monotone t es ->
  exists t', refines p (run b es) (fold_left observe es h) t' /\
    t' = match last es with Some e => at_ e | None => t end.
Proof.
  revert b h t. induction es as [|e es IH]; intros b h t Hr Hm; [by exists t|].
  destruct Hm as [Ht Hm]. destruct (IH _ _ _ (step_refines _ _ _ _ Hr Ht) Hm) as (t' & Hr' & Ht').
  exists t'. split; [exact Hr'|]. rewrite Ht', last_cons. by destruct (last es).
Qed.
End refinement.

(** C25: The breaker implements its specification: after any history of calls
    with a clock that does not go back, it refuses a call exactly while fewer
    than [open_duration] have passed since a failure that made at least
    [failure_threshold] failures in a row. *)
Theorem breaker_refines_spec (p : Policy) (es : list Event) (now : Z)
  (Hthreshold : 0 <= failure_threshold p <= u32_max)
  (Hclock : monotone 0 (es ++ [Allow now])) :
  (allow now (run (new p) es)).1 = spec_allow p (history es) now.
Proof.
  assert (H0 : refines p (new p) (mkHistory 0 0) 0) by (split; simpl; try done; try lia; by left).
  assert (Hsplit : forall t es', monotone t (es' ++ [Allow now]) -> monotone t es' /\
            match last es' with Some e => at_ e | None => t end <= now).
  { intros t es'. revert t. induction es' as [|e es' IH]; intros t; simpl; [tauto|].
    intros [Ht Hm]. destruct (IH _ Hm) as [Hm' Hl]. split; [done|].
    rewrite last_cons. by destruct (last es'). }
  destruct (Hsplit _ _ Hclock) as [Hm Hle].
  destruct (run_refines p Hthreshold _ _ _ es H0 Hm) as (t' & Hr & ->).
  by apply allow_refines, (refines_later _ Hthreshold _ _ _ _ Hr).
Qed.

Definition two_strikes : Policy := mkPolicy 2 20.

Lemma breaker_refines_spec_witness :
  (allow 10 (run (new two_strikes) [Failure 1; Failure 2])).1 = false /\
  (allow 30 (run (new two_strikes) [Failure 1; Failure 2; Allow 10])).1 =
    spec_allow two_strikes (history [Failure 1; Failure 2; Allow 10]) 30.
Proof.
  split; [reflexivity|].
  apply (breaker_refines_spec two_strikes [Failure 1; Failure 2; Allow 10] 30).
  - vm_compute. split; congruence.
  - simpl. lia.
Defined.

(** Half-open does not limit calls: every caller passes until an outcome is recorded. *)
Example half_open_passes_everyone :
  let b := run (new two_strikes) [Failure 1; Failure 2] in
  (allow 30 (run b [Allow 30; Allow 30; Allow 30])).1 = true /\ state (run b [Allow 30]) = HalfOpen.
Proof. split; reflexivity. Qed.
