(* ===== verification/Reliability.v ===== *)
(** * Locks and ingress ([actant-reliability/src/lock.rs, ingress.rs])

    Lease-based locks over the table [lock] and deduplicated ingestion over
    [ingress_event], as programs of SQL statements. *)

From S2P Require Import Prelude Str Json Core Storage Prog.
#[local] Open Scope string_scope.
#[local] Open Scope list_scope.
#[local] Open Scope Z_scope.

Record LockRow := mkLockRow {
  lk_id : string; lk_workspace_id : string; lk_resource_key : string; lk_owner : string;
  lk_expires_at : string; lk_created_at : string
}.
Record IngressRow := mkIngressRow {
  ig_id : string; ig_workspace_id : string; ig_source : string; ig_event_type : string;
  ig_payload : string; ig_signature_valid : Z; ig_dedupe_key : string; ig_received_at : string
}.
Record LockLease := mkLockLease { ll_id : string; ll_owner : string; ll_expires_at : string }.
Record IngressEvent := mkIngressEvent {
  in_source : string; in_event_type : string; in_dedupe_key : string; in_payload : Json
}.

Record RelWorld := mkRelWorld {
  locks : gmap string LockRow;
  ingress : gmap string IngressRow;
  rel_workspaces : gset string;   (* ids in the ledger's tables *)
  rel_actors : gset string;
  rel_seq : nat; rel_time : nat
}.
Definition set_locks x w := mkRelWorld x (ingress w) (rel_workspaces w) (rel_actors w) (rel_seq w) (rel_time w).
Definition set_ingress x w := mkRelWorld (locks w) x (rel_workspaces w) (rel_actors w) (rel_seq w) (rel_time w).
Definition tick w := mkRelWorld (locks w) (ingress w) (rel_workspaces w) (rel_actors w) (rel_seq w) (S (rel_time w)).
Definition draw w := mkRelWorld (locks w) (ingress w) (rel_workspaces w) (rel_actors w) (S (rel_seq w)) (rel_time w).

#[local] Notation R A := (prog RelWorld ActantError A).

Section reliability.
(** [stamp n] is the [n]th clock reading in RFC 3339, [stamp_plus s n] the same
    [s] seconds later. *)
Context `{SerdeJson} (ulid stamp : nat -> string) (stamp_plus : Z -> nat -> string).

(** ** Locks *)

Definition same_resource (workspace resource_key : string) (r : LockRow) : bool :=
  String.eqb (lk_workspace_id r) workspace && String.eqb (lk_resource_key r) resource_key.

Definition expired_lock (workspace now : string) (r : LockRow) : bool :=
  String.eqb (lk_workspace_id r) workspace && cmp_lt (cmp:=String.compare) (lk_expires_at r) now.

(** [DELETE FROM lock WHERE workspace_id = ? AND expires_at < ?]. *)
Definition delete_expired (workspace now : string) : R unit :=
  stmt (fun w => (Ok tt, set_locks (filter (fun kv => expired_lock workspace now kv.2 = false) (locks w)) w)).

(** The [INSERT]; [false] is any error: a taken key or a dangling parent. *)
Definition insert_lock (r : LockRow) : R bool :=
  stmt (fun w =>
    if has (locks w) (lk_id r)
       || existsb (fun kv => same_resource (lk_workspace_id r) (lk_resource_key r) kv.2) (map_to_list (locks w))
       || negb (bool_decide (lk_workspace_id r ∈ rel_workspaces w) && bool_decide (lk_owner r ∈ rel_actors w))
    then (Ok false, w)
    else (Ok true, set_locks (<[lk_id r := r]> (locks w)) w)).

(** The clock is read once, before the statements. *)
Definition acquire (workspace owner resource_key : string) (lease_seconds : Z) : R (option LockLease) :=
  '(now, expires_at) ← stmt (fun w => (Ok (stamp (rel_time w), stamp_plus lease_seconds (rel_time w)), tick w));
  id ← stmt (fun w => (Ok ("lk_" +:+ ulid (rel_seq w)), draw w));
  delete_expired workspace now;;
  ok ← insert_lock (mkLockRow id workspace resource_key owner expires_at now);
  mret (if ok : bool then Some (mkLockLease id owner expires_at) else None).

Definition release (lock_id : string) : R unit :=
  stmt (fun w => (Ok tt, set_locks (delete lock_id (locks w)) w)).

(** ** Ingress *)

Definition ingest (workspace : string) (event : IngressEvent) : R (option string) :=
  id ← stmt (fun w => (Ok ("ig_" +:+ ulid (rel_seq w)), draw w));
  received ← stmt (fun w => (Ok (stamp (rel_time w)), tick w));
  ok ← stmt (fun w =>
    if has (ingress w) id
       || existsb (fun kv => String.eqb (ig_workspace_id kv.2) workspace
                             && String.eqb (ig_source kv.2) (in_source event)
                             && String.eqb (ig_dedupe_key kv.2) (in_dedupe_key event))
            (map_to_list (ingress w))
       || negb (bool_decide (workspace ∈ rel_workspaces w))
    then (Ok false, w)
    else (Ok true, set_ingress (<[id := mkIngressRow id workspace (in_source event) (in_event_type event)
            (canonical_json (in_payload event)) 1 (in_dedupe_key event) received]> (ingress w)) w));
  mret (if ok : bool then Some id else None).

(** ** Mutual exclusion *)

(** What the threads of a pool do. *)
Inductive LockCall :=
| Acquire (workspace owner resource_key : string) (lease_seconds : Z)
| Release (lock_id : string).
Definition lock_code (c : LockCall) : R (option LockLease) :=
  match c with
  | Acquire ws owner key secs => acquire ws owner key secs
  | Release id => release id;; mret None
  end.

(** Time does not go back. *)
Fixpoint timed {A} (p : R A) : Prop :=
  match p with
  | Done _ => True
  | Stmt s k => forall w, (rel_time w <= rel_time (s w).2)%nat /\ forall b, (s w).1 = Ok b -> timed (k b)
  end.

Lemma timed_code c : timed (lock_code c).
Proof.
  destruct c; simpl; [|intros w; split; [done|]; by intros b _].
  intros w. split; [simpl; lia|]. intros [nw ex] [= <- <-]. simpl.
  intros w1. split; [simpl; lia|]. intros id [= <-]. simpl.
  intros w2. split; [simpl; lia|]. intros [] _. simpl.
  intros w3. destruct (_ || _); simpl; (split; [lia|done]).
Qed.

Lemma istep_timed pool w pool' w' :
  Forall timed pool -> istep (A:=option LockLease) (pool, w) (pool', w') ->
  Forall timed pool' /\ (rel_time w <= rel_time w')%nat.
Proof.
  intros Hp Hs. inversion Hs as [? ? i p p' ? Hi Hst]; subst.
  assert (Ht : timed p) by (by eapply Forall_lookup_1).
  destruct p as [res|B s k]; simpl in Hst; [done|]. destruct (Ht w) as [Hm Hk].
  destruct (s w) as [[b|e] w1] eqn:Hsw; simplify_eq/=; (split; [|done]); (apply Forall_insert; [done|first [exact (Hk _ eq_refl)|exact I]]).
Qed.

Lemma isteps_timed pool w pool' w' :
  Forall timed pool -> rtc (istep (A:=option LockLease)) (pool, w) (pool', w') ->
  (rel_time w <= rel_time w')%nat.
Proof.
  intros Hp Hr. remember (pool, w) as a eqn:Ha. remember (pool', w') as z eqn:Hz.
  revert pool w Hp Ha. induction Hr as [|a [pool1 w1] z Hs Hr IH]; intros pool w Hp ->; simplify_eq/=; [done|].
  destruct (istep_timed _ _ _ _ Hp Hs) as [Hp1 Hle]. specialize (IH eq_refl _ _ Hp1 eq_refl). lia.
Qed.

Section excluded.
(** While [r] is leased: no clock reading below [T] is past its expiry. *)
Context (r : LockRow) (T : nat)
  (unexpired : forall n, (n < T)%nat -> cmp_lt (cmp:=String.compare) (lk_expires_at r) (stamp n) = false).

(** A thread that keeps [r] as long as the clock stays below [T], and answers well. *)
Fixpoint harmless {A} (good : result ActantError A -> Prop) (p : R A) : Prop :=
  match p with
  | Done res => good res
  | Stmt s k => forall w, locks w !! lk_id r = Some r -> (rel_time (s w).2 <= T)%nat ->
      locks (s w).2 !! lk_id r = Some r /\ (exists b, (s w).1 = Ok b) /\
      forall b, (s w).1 = Ok b -> harmless good (k b)
  end.

(** What a call must not answer: a lease on [r]'s resource. *)
Definition may_answer (c : LockCall) (res : result ActantError (option LockLease)) : Prop :=
  match c with
  | Acquire ws _ key _ => same_resource ws key r = true -> res = Ok None
  | Release _ => True
  end.

Lemma harmless_code c :
  (forall id, c = Release id -> id <> lk_id r) -> harmless (may_answer c) (lock_code c).
Proof.
  intros Hc. destruct c as [ws owner key secs|id]; simpl.
  - intros w Hr Ht. simpl in Ht. split; [done|]. split; [eauto|]. intros [nw ex] [= <- <-]. simpl.
    intros w1 Hr1 Ht1. split; [done|]. split; [eauto|]. intros id [= <-]. simpl.
    intros w2 Hr2 Ht2. split.
    { simpl. apply map_lookup_filter_Some. split; [done|]. simpl. unfold expired_lock.
      rewrite (unexpired (rel_time w)) by lia. apply andb_false_r. }
    split; [eauto|]. intros [] _. simpl.
    intros w3 Hr3 Ht3. destruct (_ || _) eqn:Hb; simpl.
    + split; [done|]. split; [eauto|]. by intros b [= <-] Hs.
    + apply orb_false_iff in Hb as [[Hid%has_false Hex]%orb_false_iff _]. split.
      * rewrite lookup_insert_ne; [done|]. intros Heq. rewrite Heq in Hid. congruence.
      * split; [eauto|]. intros b [= <-] Hs. exfalso.
        apply not_true_iff_false in Hex. apply Hex, existsb_exists. exists (lk_id r, r).
        split; [|done]. by apply list_elem_of_In, elem_of_map_to_list.
  - intros w Hr _. split; [|by split; [eauto|]].
    simpl. rewrite lookup_delete_ne; [done|]. intros Heq. by apply (Hc id).
Qed.

Lemma istep_harmless goods pool w pool' w' :
  Forall2 harmless goods pool -> locks w !! lk_id r = Some r ->
  istep (A:=option LockLease) (pool, w) (pool', w') -> (rel_time w' <= T)%nat ->
  Forall2 harmless goods pool' /\ locks w' !! lk_id r = Some r.
Proof.
  intros Hp Hr Hs Ht. inversion Hs as [? ? i p p' ? Hi Hst]; subst.
  destruct (Forall2_lookup_r _ _ _ _ _ Hp Hi) as (g & Hg & Hh).
  destruct p as [res|B s k]; simpl in Hst; [done|]. specialize (Hh w Hr).
  destruct (s w) as [[b|e] w1] eqn:Hsw; simplify_eq/=; destruct (Hh Ht) as (Hr' & (b' & Hb') & Hk); [|done].
  split; [|done]. rewrite <- (list_insert_id goods i g) by done. apply Forall2_insert; [done|exact (Hk _ eq_refl)].
Qed.
End excluded.

(** C24: A lock excludes: while a lease is in the table and no clock reading is
    past its expiry, no concurrent attempt on the same resource gets a lease,
    however the statements interleave, and the lease stays in the table, as long
    as nobody releases it by its id. *)
Theorem lock_excludes (r : LockRow) (calls : list LockCall) (w w' : RelWorld)
  (pool' : list (R (option LockLease)))
  (Hleased : locks w !! lk_id r = Some r)
  (Hkeep : Forall (fun c => c <> Release (lk_id r)) calls)
  (Hrun : rtc istep (List.map lock_code calls, w) (pool', w'))
  (Hclock : forall n, (n < rel_time w')%nat -> cmp_lt (cmp:=String.compare) (lk_expires_at r) (stamp n) = false) :
  locks w' !! lk_id r = Some r /\
  forall i ws owner key secs p res, calls !! i = Some (Acquire ws owner key secs) ->
    same_resource ws key r = true -> pool' !! i = Some p -> answer p = Some res -> res = Ok None.
Proof.
  assert (Htimed : Forall timed (List.map lock_code calls)).
  { apply Forall_forall. intros p (c & -> & _)%list_elem_of_fmap. apply timed_code. }
  assert (Hharm : Forall2 (harmless r (rel_time w')) (List.map (may_answer r) calls) (List.map lock_code calls)).
  { clear - Hkeep Hclock. induction calls as [|c calls IH]; simpl; constructor.
    - apply harmless_code; [exact Hclock|]. intros id -> ->. by apply Forall_cons in Hkeep as [[] _].
    - apply IH. by apply Forall_cons in Hkeep as [_ ?]. }
  assert (Hend : Forall2 (harmless r (rel_time w')) (List.map (may_answer r) calls) pool' /\
            locks w' !! lk_id r = Some r).
  { remember (rel_time w') as T eqn:HT.
    remember (List.map lock_code calls, w) as a eqn:Ha. remember (pool', w') as z eqn:Hz.
    assert (Ha' : exists pool0, a = (pool0, w) /\ Forall timed pool0 /\
        Forall2 (harmless r T) (List.map (may_answer r) calls) pool0) by eauto.
    clear Ha Htimed Hharm. revert w Hleased Ha'.
    induction Hrun as [|a [pool1 w1] z Hs Hr IH]; intros w Hleased (pool0 & -> & Ht0 & Hh0).
    - by injection Hz as -> ->.
    - destruct (istep_timed _ _ _ _ Ht0 Hs) as [Ht1 _].
      pose proof Hr as Hr'. rewrite Hz in Hr'.
      pose proof (isteps_timed _ _ _ _ Ht1 Hr') as Hle.
      destruct (istep_harmless r T _ _ _ _ _ Hh0 Hleased Hs ltac:(lia)) as [Hh1 Hl1].
      apply (IH Hz w1 Hl1). eauto. }
  destruct Hend as [Hfinal Hrow]. split; [done|].
  intros i ws owner key secs p res Hi Hsame Hp Ha.
  destruct (Forall2_lookup_r _ _ _ _ _ Hfinal Hp) as (g & Hg & Hh).
  rewrite list_lookup_fmap, Hi in Hg. injection Hg as <-.
  destruct p as [res'|]; [|done]. injection Ha as ->. by apply Hh.
Qed.

(** ** Deduplication *)

Definition same_delivery (workspace : string) (event : IngressEvent) (g : IngressRow) : bool :=
  String.eqb (ig_workspace_id g) workspace && String.eqb (ig_source g) (in_source event)
  && String.eqb (ig_dedupe_key g) (in_dedupe_key event).
Definition delivered (workspace : string) (event : IngressEvent) (m : gmap string IngressRow) : Prop :=
  exists k g, m !! k = Some g /\ same_delivery workspace event g = true.

Lemma delivered_existsb ws ev m :
  existsb (fun kv => same_delivery ws ev kv.2) (map_to_list m) = true <-> delivered ws ev m.
Proof.
  rewrite existsb_exists. split.
  - intros ([k g] & Hin & Hs). exists k, g. split; [|done]. by apply elem_of_map_to_list, list_elem_of_In.
  - intros (k & g & Hk & Hs). exists (k, g). split; [|done]. by apply list_elem_of_In, elem_of_map_to_list.
Qed.

Lemma exec_ingest ws ev w :
  let id := "ig_" +:+ ulid (rel_seq w) in
  exec (ingest ws ev) w =
  (if has (ingress w) id || existsb (fun kv => same_delivery ws ev kv.2) (map_to_list (ingress w))
      || negb (bool_decide (ws ∈ rel_workspaces w))
   then (Ok None, tick (draw w))
   else (Ok (Some id), set_ingress (<[id := mkIngressRow id ws (in_source ev) (in_event_type ev)
           (canonical_json (in_payload ev)) 1 (in_dedupe_key ev) (stamp (rel_time w))]> (ingress w))
           (tick (draw w)))).
Proof. simpl. unfold same_delivery. by destruct (_ || _). Qed.

(** An external event is taken in once: into a known workspace, with a
    fresh id, [ingest] answers an id exactly when nothing with its source and
    dedupe key was taken in before, and afterwards no retry with that source and
    key, whatever its payload, is taken in or changes the table. *)
Theorem ingest_once (ws : string) (ev : IngressEvent) (w : RelWorld)
  (Hws : ws ∈ rel_workspaces w) (Hfresh : ingress w !! ("ig_" +:+ ulid (rel_seq w)) = None) :
  exists r w', exec (ingest ws ev) w = (Ok r, w') /\
    (is_Some r <-> ~ delivered ws ev (ingress w)) /\
    forall ev' w2, in_source ev' = in_source ev -> in_dedupe_key ev' = in_dedupe_key ev ->
      ingress w' ⊆ ingress w2 ->
      (exec (ingest ws ev') w2).1 = Ok None /\ ingress (exec (ingest ws ev') w2).2 = ingress w2.
Proof.
  assert (Hretry : forall ev' m w2, in_source ev' = in_source ev -> in_dedupe_key ev' = in_dedupe_key ev ->
    delivered ws ev m -> m ⊆ ingress w2 ->
    (exec (ingest ws ev') w2).1 = Ok None /\ ingress (exec (ingest ws ev') w2).2 = ingress w2).
  { intros ev' m w2 Hs Hk (k & g & Hg & Hd) Hsub. rewrite exec_ingest.
    rewrite (proj2 (delivered_existsb ws ev' (ingress w2))); [by rewrite orb_true_r|].
    exists k, g. split; [by eapply lookup_weaken|]. unfold same_delivery in *. by rewrite Hs, Hk. }
  rewrite exec_ingest. rewrite (proj2 (has_false _ _) Hfresh), (bool_decide_eq_true_2 _ Hws), orb_false_r. simpl orb.
  destruct (existsb _ _) eqn:He; eexists _, _; (split; [reflexivity|]).
  - apply delivered_existsb in He. split; [split; [by intros [? [=]]|done]|].
    intros ev' w2 Hs Hk Hsub. by eapply Hretry.
  - split.
    + split; [|eauto]. intros _ Hd%delivered_existsb. congruence.
    + intros ev' w2 Hs Hk Hsub. eapply Hretry; [done..| |exact Hsub]. simpl.
      eexists _, _. split; [apply lookup_insert_eq|]. unfold same_delivery. simpl. by rewrite !String.eqb_refl.
Qed.
End reliability.

(** ** Concrete runs *)

Fixpoint beats (n : nat) : string := match n with O => "" | S k => String "t"%char (beats k) end.
#[local] Instance demo_json : SerdeJson := demo_serde.
Definition demo_ulid (n : nat) : string := show_Z (Z.of_nat n).
Definition demo_plus (s : Z) (n : nat) : string := beats (n + Z.to_nat s)%nat.

Definition leased_row : LockRow := mkLockRow "lk_0" "ws" "file:/foo" "alice" (beats 30) (beats 0).
Definition leased_world : RelWorld :=
  mkRelWorld {["lk_0" := leased_row]} ∅ {["ws"]} {["alice"; "bob"]} 1 1.
Definition contenders : list LockCall :=
  [Acquire "ws" "bob" "file:/foo" 30; Acquire "ws" "alice" "file:/foo" 30].
Definition contest :=
  run_schedule [0; 1; 0; 1; 0; 1; 0; 1]%nat (List.map (lock_code demo_ulid beats demo_plus) contenders) leased_world.

Lemma lock_excludes_witness :
  List.map answer contest.1 = [Some (Ok None); Some (Ok None)] /\
  locks contest.2 !! lk_id leased_row = Some leased_row.
Proof.
  split; [vm_compute; reflexivity|].
  apply (lock_excludes demo_ulid beats demo_plus leased_row contenders leased_world contest.2 contest.1).
  - vm_compute. reflexivity.
  - repeat constructor; discriminate.
  - unfold contest. rewrite <- surjective_pairing. apply run_schedule_steps.
  - assert (Ht : rel_time contest.2 = 3%nat) by (vm_compute; reflexivity). rewrite Ht.
    intros n Hn. destruct n as [|[|[|n]]]; [reflexivity..|lia].
Defined.

Definition charge : IngressEvent := mkIngressEvent "stripe" "charge.created" "evt_1" JNull.
Definition forged_charge : IngressEvent := mkIngressEvent "stripe" "refund" "evt_1" (JBool true).

Lemma ingest_once_witness :
  exists r w', exec (ingest demo_ulid beats "ws" charge) leased_world = (Ok r, w') /\
    (exec (ingest demo_ulid beats "ws" forged_charge) w').1 = Ok None.
Proof.
  destruct (ingest_once demo_ulid beats "ws" charge leased_world) as (r & w' & Hrun & _ & Hretry).
  - vm_compute. reflexivity.
  - reflexivity.
  - exists r, w'. split; [exact Hrun|]. apply (Hretry forged_charge w' eq_refl eq_refl). reflexivity.
Defined.

(** An event for a workspace that does not exist is reported as a duplicate. *)
Example unknown_workspace_looks_duplicate :
  (exec (ingest demo_ulid beats "nowhere" charge) leased_world).1 = Ok None.
Proof. vm_compute. reflexivity. Qed.

(** A lock for an unknown owner looks like contention. *)
Example unknown_owner_looks_contended :
  (exec (acquire demo_ulid beats demo_plus "ws" "mallory" "file:/bar" 30) leased_world).1 = Ok None.
Proof. vm_compute. reflexivity. Qed.

(** Every event is stored as having a valid signature. *)
Example unsigned_event_marked_valid :
  ig_signature_valid <$> ingress (exec (ingest demo_ulid beats "ws" charge) leased_world).2 !! "ig_1" = Some 1.
Proof. vm_compute. reflexivity. Qed.
