(* ===== verification/Throttle.v ===== *)
(** * The token bucket ([actant-reliability/src/throttle.rs])

    Binary64 arithmetic throughout.  Instants are nanoseconds on the monotonic
    clock; an operation takes the readings it makes. *)

From S2P Require Import Prelude Json.
From Stdlib Require Import SpecFloat.
#[local] Open Scope list_scope.
#[local] Open Scope Z_scope.

(** ** [f64] and [Duration] as the standard library has them *)

(** [a.min(b)]: a NaN loses. *)
Definition f64_min (a b : f64) : f64 :=
  match a, b with
  | S754_nan, _ => b
  | _, S754_nan => a
  | _, _ => if f64_leb a b then a else b
  end.
Definition f64_max (a b : f64) : f64 :=
  match a, b with
  | S754_nan, _ => b
  | _, S754_nan => a
  | _, _ => if f64_leb a b then b else a
  end.

(** The value of a finite number as a fraction. *)
Definition f64_num (m : positive) (e : Z) : Z := Z.pos m * 2 ^ Z.max e 0.
Definition f64_den (e : Z) : Z := 2 ^ Z.max (- e) 0.

(** [x as u32]: truncation, saturating; NaN is 0. *)
Definition f64_to_u32 (x : f64) : Z :=
  match x with
  | S754_finite false m e => Z.min (f64_num m e / f64_den e) u32_max
  | S754_infinity false => u32_max
  | _ => 0
  end.

(** [Duration::as_secs_f64]. *)
Definition as_secs_f64 (ns : Z) : f64 :=
  f64_add (f64_of_Z (ns / 1000000000)) (f64_div (f64_of_Z (ns mod 1000000000)) (f64_of_Z 1000000000)).

(** Division rounded to the nearest, ties to even. *)
Definition div_nearest (n d : Z) : Z :=
  let q := n / d in
  let r := 2 * (n mod d) in
  if r <? d then q else if d <? r then q + 1 else if Z.even q then q else q + 1.

(** [Duration::from_secs_f64], in nanoseconds; [None] is its panic. *)
Definition from_secs_f64 (x : f64) : option Z :=
  match x with
  | S754_zero _ => Some 0
  | S754_finite false m e =>
      let ns := div_nearest (f64_num m e * 1000000000) (f64_den e) in
      if ns / 1000000000 <=? u64_max then Some ns else None
  | S754_finite true m e =>
      let ns := div_nearest (f64_num m e * 1000000000) (f64_den e) in
      if ns =? 0 then Some 0 else None
  | _ => None
  end.

(** ** The bucket *)

Record Policy := mkPolicy { limit : Z; refill_per_second : f64 }.
Record Bucket := mkBucket { policy : Policy; tokens : f64; last : Z }.

Definition new (now : Z) (p : Policy) : Bucket := mkBucket p (f64_of_Z (limit p)) now.

(** [refill] reads the clock twice. *)
Definition refill (now now' : Z) (b : Bucket) : Bucket :=
  let elapsed := as_secs_f64 (Z.max 0 (now - last b)) in
  mkBucket (policy b)
    (f64_min (f64_add (tokens b) (f64_mul elapsed (refill_per_second (policy b))))
       (f64_of_Z (limit (policy b))))
    now'.

Inductive Consumed := Taken | Wait (ns : Z) | Panicked.

Definition try_consume (n : Z) (now now' : Z) (b : Bucket) : Consumed * Bucket :=
  let b := refill now now' b in
  if n <=? f64_to_u32 (tokens b)
  then (Taken, mkBucket (policy b) (f64_sub (tokens b) (f64_of_Z n)) (last b))
  else
    let deficit := f64_sub (f64_of_Z n) (tokens b) in
    let secs := f64_div deficit (f64_max (refill_per_second (policy b)) (f64_ratio 1 1000)) in
    (match from_secs_f64 secs with Some ns => Wait ns | None => Panicked end, b).

(** ** Theorems *)

(** A burst of [k] requests for one token each at one instant. *)
Fixpoint burst (k : nat) (now : Z) (b : Bucket) : list Consumed * Bucket :=
  match k with
  | O => ([], b)
  | S k' =>
      let '(c, b1) := try_consume 1 now now b in
      let '(cs, b2) := burst k' now b1 in (c :: cs, b2)
  end.

Definition at_instant (now : Z) (b : Bucket) : Bucket := mkBucket (policy b) (tokens b) now.

(** Only differences of instants matter. *)
Lemma try_consume_shift n now b :
  try_consume n now now (at_instant now b) =
  ((try_consume n 0 0 (at_instant 0 b)).1,
   at_instant now (try_consume n 0 0 (at_instant 0 b)).2).
Proof.
  unfold try_consume, refill, at_instant; simpl. rewrite Z.sub_diag.
  by destruct (_ <=? _).
Qed.

Lemma try_consume_here n now b : at_instant now (try_consume n now now b).2 = (try_consume n now now b).2.
Proof. unfold try_consume, refill, at_instant; simpl. by destruct (_ <=? _). Qed.

Lemma burst_shift k now b :
  burst k now (at_instant now b) =
  ((burst k 0 (at_instant 0 b)).1, at_instant now (burst k 0 (at_instant 0 b)).2).
Proof.
  revert b; induction k as [|k IH]; intros b; simpl; [done|].
  rewrite try_consume_shift.
  pose proof (try_consume_here 1 0 (at_instant 0 b)) as Hhere.
  destruct (try_consume 1 0 0 (at_instant 0 b)) as [c b1]; simpl in *.
  rewrite IH, Hhere. by destruct (burst k 0 b1).
Qed.

Lemma burst_add a c now b :
  burst (a + c) now b =
  ((burst a now b).1 ++ (burst c now (burst a now b).2).1, (burst c now (burst a now b).2).2).
Proof.
  revert b; induction a as [|a IH]; intros b; simpl; [by destruct (burst c now b)|].
  destruct (try_consume 1 now now b) as [r b1]. rewrite IH.
  by destruct (burst a now b1).
Qed.

(** An empty bucket refuses every further request of the instant alike. *)
Lemma burst_stuck k now b r : try_consume 1 now now b = (r, b) -> burst k now b = (repeat r k, b).
Proof. intros H; induction k as [|k IH]; simpl; [done|]. by rewrite H, IH. Qed.

(** The bound for a policy, from its first [l] requests and the one after. *)
Lemma burst_bound (l : nat) p r k now :
  burst l 0 (new 0 p) = (repeat Taken l, (burst l 0 (new 0 p)).2) ->
  try_consume 1 0 0 (burst l 0 (new 0 p)).2 = (r, (burst l 0 (new 0 p)).2) ->
  (l <= k)%nat ->
  (burst k now (new now p)).1 = repeat Taken l ++ repeat r (k - l).
Proof.
  intros Hl Hr Hk.
  change (new now p) with (at_instant now (new 0 p)). rewrite burst_shift; simpl.
  change (at_instant 0 (new 0 p)) with (new 0 p).
  replace k with (l + (k - l))%nat at 1 by lia.
  by rewrite burst_add, (burst_stuck _ _ _ _ Hr), Hl.
Qed.

(** The server's policies ([LINK_RATE_LIMIT], [LOGIN_RATE_LIMIT] in
    actant-server/src/auth_routes.rs). *)
Definition sec : Z := 1000000000.
Definition LINK_RATE_LIMIT : Policy := mkPolicy 5 (f64_div (f64_of_Z 5) (f64_of_Z 60)).
Definition LOGIN_RATE_LIMIT : Policy := mkPolicy 10 (f64_div (f64_of_Z 10) (f64_of_Z 60)).



(** Refilling never leaves more than the limit. *)
Lemma refill_capped now now' b :
  tokens (refill now now' b) = f64_of_Z (limit (policy b)) \/
  f64_leb (tokens (refill now now' b)) (f64_of_Z (limit (policy b))) = true \/
  f64_of_Z (limit (policy b)) = S754_nan.
Proof.
  unfold refill, f64_min; simpl. generalize (f64_of_Z (limit (policy b))); intros l.
  generalize (f64_add (tokens b) (f64_mul (as_secs_f64 (Z.max 0 (now - last b)))
    (refill_per_second (policy b)))); intros t.
  destruct t, l; auto; case_match; auto.
Qed.

(** The wait a refused caller is told is the one after which it is served:
    not a second earlier, and then at once. *)
Example link_wait_is_exact :
  let b := (burst 6 0 (new 0 LINK_RATE_LIMIT)).2 in
  map (fun s => (try_consume 1 (s * sec) (s * sec) b).1) [1; 11; 12; 24] =
  [Wait (11 * sec); Wait (1 * sec); Taken; Taken].
Proof. vm_compute. reflexivity. Qed.
Example login_wait_is_exact :
  let b := (burst 11 0 (new 0 LOGIN_RATE_LIMIT)).2 in
  map (fun s => (try_consume 1 (s * sec) (s * sec) b).1) [5; 6; 12] =
  [Wait (1 * sec); Taken; Taken].
Proof. vm_compute. reflexivity. Qed.

(** A request for more tokens than the bucket holds is told a wait that never
    ends: [Wait] answers as if the bucket had no limit. *)
Example request_above_limit_never_served :
  let b := new 0 LINK_RATE_LIMIT in
  map (fun s => (try_consume 6 (s * sec) (s * sec) b).1) [0; 1000; 100000] =
  [Wait (12 * sec); Wait (12 * sec); Wait (12 * sec)].
Proof. vm_compute. reflexivity. Qed.
