(* ===== verification/Eval.v ===== *)
(** * The success-criteria language ([actant-eval/src/dsl.rs], lib.rs)

    [evaluate] runs every criterion over the events of a window and collects one
    message per failure; [resolve_path] reads [$.foo.bar[0].baz] against a payload.
    Printing of floats and of JSON is third-party or the standard library's. *)

From Stdlib Require Import SpecFloat.
From S2P Require Import Prelude Str Json.
#[local] Open Scope string_scope.
#[local] Open Scope list_scope.
#[local] Open Scope Z_scope.

Record Event := mkEvent {
  event_type : string; cost : option f64; latency_ms : option Z; payload : Json
}.
Inductive AssertOp := Eq_ | Ne | Lt_ | Le | Gt_ | Ge.
Inductive Criterion :=
| MustEmit (name : string) | MustNotEmit (name : string) | CostLe (limit : f64)
| LatencyLeMs (limit : Z) | Assert (jsonpath : string) (op : AssertOp) (value : Json).
Record EvalResult := mkEvalResult { passed : bool; failures : list string }.

(** Printing of an [f64]. *)
Class ShowF64 := show_f64 : f64 -> string.

(** ** Paths *)

(** [find(c)] with [split_at]: the part before [c], and the rest from [c] on. *)
Fixpoint split_at_char (c : Ascii.ascii) (s : string) : string * string :=
  match s with
  | EmptyString => ("", "")
  | String a s' => if Ascii.eqb a c then ("", s)
                   else let '(h, t) := split_at_char c s' in (String a h, t)
  end.

(** [Value::get(index)]. *)
Definition jnth (i : Z) (v : Json) : option Json :=
  match v with JArray l => nth_error l (Z.to_nat i) | _ => None end.

(** The [while] over [[N][M]...], with the length of the tail as fuel. *)
Fixpoint indices (fuel : nat) (tail : string) (cur : Json) : option Json :=
  match fuel, tail with
  | _, EmptyString => Some cur
  | O, _ => None
  | S k, _ =>
      rest ← strip_prefix "[" tail;
      match split_at_char "]"%char rest with
      | (inner, String _ after) => i ← parse_usize inner; cur' ← jnth i cur; indices k after cur'
      | (_, EmptyString) => None
      end
  end.

Definition segment (raw : string) (cur : Json) : option Json :=
  match raw with
  | EmptyString => None
  | _ => let '(key, rest) := split_at_char "["%char raw in
         cur' ← match key with EmptyString => Some cur | _ => jget key cur end;
         indices (String.length rest) rest cur'
  end.
Fixpoint segments (raws : list string) (cur : Json) : option Json :=
  match raws with
  | [] => Some cur
  | raw :: raws' => cur' ← segment raw cur; segments raws' cur'
  end.

Definition resolve_path (root : Json) (path : string) : option Json :=
  path' ← match strip_prefix "$." path with Some p => Some p | None => strip_prefix "$" path end;
  match path' with
  | EmptyString => Some root
  | _ => segments (split_char "."%char path') root
  end.

(** ** Comparison *)

Definition by_order (op : AssertOp) (o : option comparison) : bool :=
  match op, o with
  | Eq_, Some Eq | Lt_, Some Lt | Gt_, Some Gt => true
  | Le, Some (Eq | Lt) | Ge, Some (Eq | Gt) => true
  | Ne, o => match o with Some Eq => false | _ => true end
  | _, _ => false
  end.
(** Numbers as floats, strings by their bytes, anything else by equality only. *)
Definition compare (left : Json) (op : AssertOp) (right : Json) : bool :=
  match as_f64 left, as_f64 right with
  | Some a, Some b => by_order op (f64_partial_cmp a b)
  | _, _ =>
      match left, right with
      | JString a, JString b => by_order op (Some (String.compare a b))
      | _, _ => match op with
                | Eq_ => json_eqb left right
                | Ne => negb (json_eqb left right)
                | _ => false
                end
      end
  end.

(** ** Criteria *)

Section eval.
Context `{SerdeJson} `{ShowF64}.

Definition op_debug (op : AssertOp) : string :=
  match op with Eq_ => "Eq" | Ne => "Ne" | Lt_ => "Lt" | Le => "Le" | Gt_ => "Gt" | Ge => "Ge" end.

(** The first event whose payload has a value at the path. *)
Fixpoint first_resolved (path : string) (events : list Event) : option Json :=
  match events with
  | [] => None
  | e :: events' => match resolve_path (payload e) path with
                    | Some v => Some v
                    | None => first_resolved path events'
                    end
  end.

Definition evaluate_assert (path : string) (op : AssertOp) (expected : Json) (events : list Event) :
    result string unit :=
  resolved ← ok_or ("assert: jsonpath '" +:+ path +:+ "' did not resolve in any event")
               (first_resolved path events);
  if compare resolved op expected then Ok tt
  else Err ("assert: jsonpath '" +:+ path +:+ "' resolved to " +:+ to_string resolved
              +:+ " but expected " +:+ op_debug op +:+ " " +:+ to_string expected).

Definition emitted (name : string) (events : list Event) : bool :=
  List.existsb (fun e => String.eqb (event_type e) name) events.
(** [sum()] of floats starts from minus zero. *)
Definition total_cost (events : list Event) : f64 :=
  fold_left (fun t e => match cost e with Some c => f64_add t c | None => t end) events (S754_zero true).
Definition max_latency (events : list Event) : Z :=
  fold_left (fun m e => match latency_ms e with Some l => Z.max m l | None => m end) events 0.

Definition evaluate_one (c : Criterion) (events : list Event) : result string unit :=
  match c with
  | MustEmit name =>
      if emitted name events then Ok tt
      else Err ("must_emit: no event with type '" +:+ name +:+ "' observed")
  | MustNotEmit name =>
      if emitted name events then Err ("must_not_emit: forbidden event '" +:+ name +:+ "' observed")
      else Ok tt
  | CostLe limit =>
      if f64_leb (total_cost events) limit then Ok tt
      else Err ("cost_le: total cost " +:+ show_f64 (total_cost events) +:+ " exceeds limit " +:+ show_f64 limit)
  | LatencyLeMs limit =>
      if max_latency events <=? limit then Ok tt
      else Err ("latency_le_ms: max latency " +:+ show_Z (max_latency events) +:+ "ms exceeds limit "
                  +:+ show_Z limit +:+ "ms")
  | Assert path op value => evaluate_assert path op value events
  end.

Definition evaluate (all_of : list Criterion) (events : list Event) : EvalResult :=
  let failures := fold_left (fun fs c => match evaluate_one c events with
                                         | Ok _ => fs | Err d => fs ++ [d] end) all_of [] in
  mkEvalResult (match failures with [] => true | _ => false end) failures.

(** ** [run] of an eval case *)
Record EvalCase := mkEvalCase {
  expected_behavior : string; forbidden_behavior : option string; success_criteria : string
}.
Definition run (case : EvalCase) (actual : string) : bool :=
  str_contains (expected_behavior case) actual &&
  match forbidden_behavior case with Some f => negb (str_contains f actual) | None => true end.

(** ** What the criteria ask *)

Definition holds (events : list Event) (c : Criterion) : Prop :=
  match c with
  | MustEmit name => exists e, In e events /\ event_type e = name
  | MustNotEmit name => forall e, In e events -> event_type e <> name
  | CostLe limit => f64_leb (total_cost events) limit = true
  | LatencyLeMs limit => forall e l, In e events -> latency_ms e = Some l -> l <= limit
  | Assert path op value =>
      exists before e after v, events = before ++ e :: after /\
        (forall e', In e' before -> resolve_path (payload e') path = None) /\
        resolve_path (payload e) path = Some v /\ compare v op value = true
  end.

Lemma emitted_spec name events : emitted name events = true <-> exists e, In e events /\ event_type e = name.
Proof.
  unfold emitted. rewrite List.existsb_exists. by setoid_rewrite String.eqb_eq.
Qed.

Lemma max_latency_spec events limit m :
  0 <= m ->
  fold_left (fun m e => match latency_ms e with Some l => Z.max m l | None => m end) events m <= limit <->
  m <= limit /\ forall e l, In e events -> latency_ms e = Some l -> l <= limit.
Proof.
  revert m. induction events as [|e events IH]; intros m Hm; simpl; [naive_solver|].
  destruct (latency_ms e) as [l|] eqn:Hl; rewrite IH by lia.
  - split.
    + intros [? Hin]. split; [lia|]. intros e' l' [<-|?] ?; [|by eapply Hin]. simplify_eq. lia.
    + intros [? Hin]. pose proof (Hin e l (or_introl eq_refl) Hl). split; [lia|].
      intros e' l' ?. apply Hin. by right.
  - split; [|intros [? Hin]; split; [done|]; intros e' l' ?; apply Hin; by right]. intros [? Hin]. split; [done|]. intros e' l' [<-|?] ?; [congruence|by eapply Hin].
Qed.

Lemma first_resolved_spec path events v :
  first_resolved path events = Some v <->
  exists before e after, events = before ++ e :: after /\
    (forall e', In e' before -> resolve_path (payload e') path = None) /\ resolve_path (payload e) path = Some v.
Proof.
  induction events as [|e events IH]; simpl.
  - split; [done|]. by intros ([] & ? & ? & ? & _).
  - destruct (resolve_path (payload e) path) as [u|] eqn:Hr.
    + split; [intros [= ->]; by exists [], e, events|].
      intros ([|e0 before] & e' & after & [= <- ->] & Hb & Hv); [congruence|].
      rewrite (Hb e) in Hr; [done|by left].
    + rewrite IH. split.
      * intros (before & e' & after & -> & Hb & Hv). exists (e :: before), e', after.
        split; [done|]. split; [|done]. intros x [<-|Hx]; [done|by apply Hb].
      * intros ([|e0 before] & e' & after & [= <- ->] & Hb & Hv); [congruence|].
        exists before, e', after. split; [done|]. split; [|done]. intros x Hx. apply Hb. by right.
Qed.

(** A latency limit is unsigned. *)
Definition criterion_wf (c : Criterion) : Prop := match c with LatencyLeMs limit => 0 <= limit | _ => True end.

Lemma evaluate_one_ok c events : criterion_wf c -> is_ok (evaluate_one c events) = true <-> holds events c.
Proof.
  destruct c as [name|name|limit|limit|path op value]; simpl; intros Hwf.
  - rewrite <- emitted_spec. by destruct (emitted name events).
  - destruct (emitted name events) eqn:He; simpl.
    + apply emitted_spec in He as (e & Hin & Hn). split; [done|]. intros Hno. by destruct (Hno e Hin).
    + split; [|done]. intros _ e Hin Hn. assert (emitted name events = true) by (apply emitted_spec; eauto). congruence.
  - by destruct (f64_leb _ _).
  - pose proof (max_latency_spec events limit 0 ltac:(lia)) as Hs. fold (max_latency events) in Hs.
    destruct (Z.leb_spec (max_latency events) limit); simpl; split; try done.
    + intros _. by apply Hs.
    + intros Hl. assert (max_latency events <= limit) by (apply Hs; by split). lia.
  - unfold evaluate_assert. split.
    + destruct (first_resolved path events) as [v|] eqn:Hf; [simpl|done].
      destruct (compare v op value) eqn:Hc; [|done]. intros _.
      apply first_resolved_spec in Hf as (b & e & a & ? & ? & ?). by exists b, e, a, v.
    + intros (b & e & a & v & ? & ? & ? & Hc).
      assert (Hf : first_resolved path events = Some v) by (apply first_resolved_spec; by exists b, e, a).
      rewrite Hf. simpl. by rewrite Hc.
Qed.

(** The message of a criterion that fails. *)
Definition detail (events : list Event) (c : Criterion) : option string :=
  match evaluate_one c events with Ok _ => None | Err d => Some d end.

Lemma evaluate_failures all_of events : failures (evaluate all_of events) = omap (detail events) all_of.
Proof.
  unfold evaluate. simpl.
  assert (Hg : forall acc, fold_left (fun fs c => match evaluate_one c events with Ok _ => fs | Err d => fs ++ [d] end) all_of acc
                 = acc ++ omap (detail events) all_of).
  { induction all_of as [|c cs IH]; intros acc; simpl; [by rewrite app_nil_r|].
    unfold detail at 1. destruct (evaluate_one c events); rewrite IH; [done|]. by rewrite <- app_assoc. }
  apply Hg.
Qed.

(** [evaluate] passes exactly when every criterion of the list holds of the
    events: some event has the type, none has it, the costs add up to no more, no
    latency is above the limit, and the first event whose payload has a value at the
    path compares with the expected one.  Otherwise it reports one message per
    criterion that does not hold, in the order of the list, and goes on to the end. *)
Theorem evaluate_spec (all_of : list Criterion) (events : list Event) :
  Forall criterion_wf all_of ->
  (passed (evaluate all_of events) = true <-> Forall (holds events) all_of) /\
  failures (evaluate all_of events) = omap (detail events) all_of /\
  (forall c, In c all_of -> detail events c = None <-> holds events c).
Proof.
  intros Hwf. rewrite List.Forall_forall in Hwf.
  assert (Hd : forall c, In c all_of -> detail events c = None <-> holds events c).
  { intros c Hin. rewrite <- evaluate_one_ok by auto. unfold detail. by destruct (evaluate_one c events). }
  split; [|split; [apply evaluate_failures|done]].
  assert (Hp : passed (evaluate all_of events) = true <-> omap (detail events) all_of = []).
  { rewrite <- evaluate_failures. unfold evaluate. simpl. by destruct (fold_left _ _ _). }
  rewrite Hp, List.Forall_forall. clear Hp Hwf. induction all_of as [|c cs IH]; simpl; [done|].
  destruct (detail events c) as [d|] eqn:Hc.
  - split; [done|]. intros Ha. assert (detail events c = None) by (apply Hd; [by left|apply Ha; by left]). congruence.
  - rewrite IH by (intros; apply Hd; by right). split; [|auto]. intros Ha x [<-|Hx]; [|by apply Ha].
    by apply Hd; [left|].
Qed.

Lemma compare_ne v op w : op = Eq_ -> compare v Ne w = negb (compare v op w).
Proof.
  intros ->. unfold compare. destruct (as_f64 v), (as_f64 w); [by destruct (f64_partial_cmp _ _) as [[]|]| | |];
    destruct v, w; try done; simpl; by destruct (String.compare _ _).
Qed.
End eval.

(** ** A printed path resolves to what its steps lead to *)

Inductive Step := Key (k : string) | Index (i : Z).

Fixpoint navigate (steps : list Step) (v : Json) : option Json :=
  match steps with
  | [] => Some v
  | Key k :: steps' => v' ← jget k v; navigate steps' v'
  | Index i :: steps' => v' ← jnth i v; navigate steps' v'
  end.

(** A segment: a key, none for the root's own indices, and the indices behind it. *)
Record Segment := mkSegment { seg_key : option string; seg_indices : list Z }.
Definition steps_of (g : Segment) : list Step :=
  match seg_key g with Some k => [Key k] | None => [] end ++ List.map Index (seg_indices g).
Definition print_indices (ix : list Z) : string :=
  fold_right (fun i s => "[" +:+ show_Z i +:+ "]" +:+ s) "" ix.
Definition print_segment (g : Segment) : string := default "" (seg_key g) +:+ print_indices (seg_indices g).
Definition print_path (gs : list Segment) : string := "$." +:+ join "." (List.map print_segment gs).

(** Keys that a path can name, and indices of the machine's width. *)
Definition segment_ok (g : Segment) : Prop :=
  match seg_key g with
  | Some k => k <> "" /\ contains_char "."%char k = false /\ contains_char "["%char k = false
  | None => seg_indices g <> []
  end /\ Forall (fun i => 0 <= i <= u64_max) (seg_indices g).

Lemma split_at_char_app c a s :
  contains_char c a = false -> split_at_char c (a +:+ String c s) = (a, String c s).
Proof.
  induction a as [|x a IH]; simpl; intros Ha; [by rewrite Ascii.eqb_refl|].
  apply orb_false_elim in Ha as [Hx Ha]. by rewrite Hx, (IH Ha).
Qed.
Lemma split_at_char_none c a : contains_char c a = false -> split_at_char c a = (a, "").
Proof.
  induction a as [|x a IH]; simpl; intros Ha; [done|].
  apply orb_false_elim in Ha as [Hx Ha]. by rewrite Hx, (IH Ha).
Qed.

Lemma print_indices_cons i ix : print_indices (i :: ix) = "[" +:+ (show_Z i +:+ String "]" (print_indices ix)).
Proof. reflexivity. Qed.

Lemma indices_print ix : forall fuel cur,
  Forall (fun i => 0 <= i <= u64_max) ix -> (String.length (print_indices ix) <= fuel)%nat ->
  indices fuel (print_indices ix) cur = navigate (List.map Index ix) cur.
Proof.
  induction ix as [|i ix IH]; intros fuel cur Hok Hf; [by destruct fuel|].
  apply Forall_cons_1 in Hok as [Hi Hok]. rewrite print_indices_cons in *.
  destruct fuel as [|fuel]; [rewrite length_append in Hf; simpl in Hf; lia|].
  change (indices (S fuel) ("[" +:+ (show_Z i +:+ String "]" (print_indices ix))) cur) with
    (match split_at_char "]"%char (show_Z i +:+ String "]" (print_indices ix)) with
      | (inner, String _ after) => i ← parse_usize inner; cur' ← jnth i cur; indices fuel after cur'
      | (_, EmptyString) => None
      end).
  rewrite split_at_char_app by (apply show_Z_char; [lia|done]). rewrite parse_show_Z by done. simpl.
  destruct (jnth i cur) as [v|]; [|done]. simpl. apply IH; [done|].
  rewrite length_append in Hf. simpl in Hf. rewrite length_append in Hf. simpl in Hf. lia.
Qed.

Lemma navigate_app a b v : navigate (a ++ b) v = (v' ← navigate a v; navigate b v').
Proof.
  revert v. induction a as [|[k|i] a IH]; intros v; [done| |]; simpl.
  - destruct (jget k v); [apply IH|done].
  - destruct (jnth i v); [apply IH|done].
Qed.

Lemma print_indices_shape ix : print_indices ix = "" \/ exists s, print_indices ix = String "[" s.
Proof. destruct ix; [by left|]. rewrite print_indices_cons. right. by eexists. Qed.

Lemma segment_print g cur : segment_ok g -> segment (print_segment g) cur = navigate (steps_of g) cur.
Proof.
  destruct g as [[k|] ix]; unfold segment_ok, print_segment, steps_of; simpl; intros [Hk Hi].
  - destruct Hk as (Hne & _ & Hb).
    assert (Hs : split_at_char "["%char (k +:+ print_indices ix) = (k, print_indices ix)).
    { destruct (print_indices_shape ix) as [->|[s ->]]; [|by apply split_at_char_app].
      rewrite append_empty_r. by apply split_at_char_none. }
    unfold segment. destruct (k +:+ print_indices ix) eqn:He; [destruct k; [done|discriminate]|].
    rewrite Hs. destruct k as [|b k]; [done|]. destruct (jget (String b k) cur) as [v|]; [|done].
    simpl. by apply indices_print.
  - destruct ix as [|i ix]; [done|]. exact (indices_print (i :: ix) _ cur Hi (le_n _)).
Qed.

Lemma print_indices_no_dot ix :
  Forall (fun i => 0 <= i <= u64_max) ix -> contains_char "."%char (print_indices ix) = false.
Proof.
  induction ix as [|i ix IH]; intros Hi; [done|]. apply Forall_cons_1 in Hi as [? Hi].
  rewrite print_indices_cons, !contains_char_app, show_Z_char by (lia || done). simpl. by apply IH.
Qed.

Lemma segment_no_dot g : segment_ok g -> contains_char "."%char (print_segment g) = false.
Proof.
  intros [Hk Hi]. unfold print_segment. rewrite contains_char_app, print_indices_no_dot by done.
  rewrite orb_false_r. destruct (seg_key g) as [k|]; [|done]. by destruct Hk as (_ & ? & _).
Qed.

Lemma split_char_join c l :
  l <> [] -> Forall (fun x => contains_char c x = false) l -> split_char c (join (String c "") l) = l.
Proof.
  induction l as [|x l IH]; intros Hn Hl; [done|]. apply Forall_cons_1 in Hl as [Hx Hl].
  destruct l as [|y l]; [by apply split_char_none|].
  change (split_char c (x +:+ String c (join (String c "") (y :: l))) = x :: y :: l).
  rewrite split_char_app by done. f_equal. by apply IH.
Qed.

Lemma segments_print gs v :
  Forall segment_ok gs -> segments (List.map print_segment gs) v = navigate (List.concat (List.map steps_of gs)) v.
Proof.
  revert v. induction gs as [|g gs IH]; intros v Hg; [done|]. apply Forall_cons_1 in Hg as [Hg Hgs].
  simpl. rewrite navigate_app, segment_print by done. destruct (navigate (steps_of g) v); [by apply IH|done].
Qed.

(** A path printed from keys and indices resolves to the value those steps
    lead to, or to nothing exactly when one of them is missing, for keys without a
    dot or an opening bracket and indices of the machine's width. *)
Theorem resolve_printed_path (gs : list Segment) (root : Json) :
  gs <> [] -> Forall segment_ok gs ->
  resolve_path root (print_path gs) = navigate (List.concat (List.map steps_of gs)) root.
Proof.
  intros Hn Hg. unfold resolve_path, print_path. rewrite strip_prefix_app. simpl.
  rewrite <- segments_print by done.
  assert (Hs : split_char "."%char (join "." (List.map print_segment gs)) = List.map print_segment gs).
  { apply split_char_join; [by destruct gs|]. apply List.Forall_map. eapply Forall_impl; [exact Hg|]. apply segment_no_dot. }
  rewrite Hs. destruct (join "." (List.map print_segment gs)) eqn:Hj; [|done].
  simpl in Hs. rewrite <- Hs. simpl.
  destruct gs as [|g [|]]; [done| |discriminate]. injection Hs as Hs.
  exfalso. apply Forall_cons_1 in Hg as [[Hk _] _]. unfold print_segment in Hs.
  destruct (seg_key g) as [[|a k]|]; simpl in *; [by destruct Hk|discriminate|].
  destruct (seg_indices g); [done|]. by rewrite print_indices_cons in Hs.
Qed.

(** ** Concrete windows *)

Definition demo_payload : Json :=
  jobj [("events", JArray [jobj [("k", JString "v")]; jobj [("k", JNumber (PosInt 7))]]); ("n", JNumber (NegInt (-1)))].
Definition demo_events : list Event :=
  [mkEvent "tool_call_requested" (Some (f64_ratio 1 4)) None (jobj []);
   mkEvent "tool_call_finished" (Some (f64_ratio 1 2)) (Some 120) demo_payload].
Definition demo_criteria : list Criterion :=
  [MustEmit "tool_call_finished"; MustNotEmit "error"; CostLe (f64_ratio 1 2); LatencyLeMs 100;
   Assert "$.events[1].k" Ge (JNumber (PosInt 7))].

Lemma evaluate_spec_witness :
  let serde : SerdeJson := {| from_str _ := None; to_string _ := "json" |} in
  let show : ShowF64 := fun _ => "float" in
  failures (evaluate demo_criteria demo_events) =
    ["cost_le: total cost float exceeds limit float"; "latency_le_ms: max latency 120ms exceeds limit 100ms"] /\
  ~ Forall (holds demo_events) demo_criteria.
Proof.
  intros serde show. split; [vm_compute; reflexivity|].
  destruct (evaluate_spec demo_criteria demo_events) as (Hp & _); [repeat constructor; simpl; lia|].
  intros Hh. apply Hp in Hh. vm_compute in Hh. discriminate.
Defined.

Lemma resolve_printed_path_witness :
  let p := [mkSegment (Some "events") [1]; mkSegment (Some "k") []] in
  print_path p = "$.events[1].k" /\ resolve_path demo_payload (print_path p) = Some (JNumber (PosInt 7)).
Proof.
  intros p. split; [vm_compute; reflexivity|]. unfold p. rewrite resolve_printed_path; [vm_compute; reflexivity|done|].
  repeat constructor; simpl; try done; vm_compute; discriminate.
Defined.

(** The dot after the dollar sign may be left out; a bracket that is not closed, an
    empty segment and a key of an array resolve to nothing. *)
Example lenient_and_strict :
  resolve_path demo_payload "$n" = Some (JNumber (NegInt (-1))) /\ resolve_path demo_payload "$" = Some demo_payload /\
  resolve_path demo_payload "$.events[0" = None /\ resolve_path demo_payload "$..n" = None /\
  resolve_path demo_payload "$.events.k" = None /\ resolve_path demo_payload "n" = None /\
  resolve_path demo_payload "$.events[+0].k" = Some (JString "v").
Proof. vm_compute. repeat split. Qed.

(** Mixed types are neither less nor greater, and are unequal. *)
Example mixed_types :
  List.map (fun op => compare (JString "7") op (JNumber (PosInt 7))) [Eq_; Ne; Lt_; Le; Gt_; Ge]
  = [false; true; false; false; false; false].
Proof. reflexivity. Qed.
