(* ===== verification/Templates.v ===== *)
(** * Project templates ([actant-templates/src/render.rs], registry.rs)

    [substitute] replaces [{{key}}] in a text; [render] writes a bundled template
    into an empty directory, substituting in every path and every text file.  The
    bundle (the repository's templates/ directory) is a parameter; every
    file-system call may fail. *)

From S2P Require Import Prelude Str.
#[local] Open Scope string_scope.
#[local] Open Scope list_scope.
#[local] Open Scope Z_scope.

(** ** UTF-8 *)

Definition in_range (lo hi : Z) (a : Ascii.ascii) : bool := (lo <=? byte a) && (byte a <=? hi).
Definition cont : Ascii.ascii -> bool := in_range 128 191.
(** [std::str::from_utf8] accepts. *)
Fixpoint valid_utf8 (s : string) : bool :=
  match s with
  | EmptyString => true
  | String a s1 =>
      if byte a <? 128 then valid_utf8 s1
      else match s1 with
      | String b s2 =>
          if in_range 194 223 a then cont b && valid_utf8 s2
          else match s2 with
          | String c s3 =>
              if byte a =? 224 then in_range 160 191 b && cont c && valid_utf8 s3
              else if byte a =? 237 then in_range 128 159 b && cont c && valid_utf8 s3
              else if in_range 225 239 a then cont b && cont c && valid_utf8 s3
              else match s3 with
              | String d s4 =>
                  if byte a =? 240 then in_range 144 191 b && cont c && cont d && valid_utf8 s4
                  else if in_range 241 243 a then cont b && cont c && cont d && valid_utf8 s4
                  else if byte a =? 244 then in_range 128 143 b && cont c && cont d && valid_utf8 s4
                  else false
              | EmptyString => false
              end
          | EmptyString => false
          end
      | EmptyString => false
      end
  end.

Definition utf8_char_len (a : Ascii.ascii) : nat :=
  if byte a <? 192 then 1 else if byte a <? 224 then 2 else if byte a <? 240 then 3 else 4.

(** ** Substitution *)

Fixpoint find_close (s : string) : option (string * string) :=
  match s with
  | String a s' =>
      match strip_prefix "}}" s with
      | Some rest => Some ("", rest)
      | None => match find_close s' with Some (raw, rest) => Some (String a raw, rest) | None => None end
      end
  | EmptyString => None
  end.

Definition is_valid_key (s : string) : bool :=
  negb (String.eqb s "") && all_chars (fun c => is_alnum c || Ascii.eqb c "_"%char || Ascii.eqb c "."%char) s.

(** [&s[..n]] and [&s[n..]]. *)
Fixpoint str_take (n : nat) (s : string) : string :=
  match n, s with S k, String a s' => String a (str_take k s') | _, _ => "" end.
Fixpoint str_drop (n : nat) (s : string) : string :=
  match n, s with S k, String _ s' => str_drop k s' | _, _ => s end.

Abbreviation Vars := (gmap string string).
(** What a placeholder with the text [raw] between its braces becomes. *)
Definition fill (vars : Vars) (raw : string) : string :=
  let key := trim raw in
  match (if is_valid_key key then vars !! key else None) with
  | Some value => value
  | None => "{{" +:+ raw +:+ "}}"
  end.

(** The loop, from the remaining text. *)
Fixpoint substitute_from (fuel : nat) (s : string) (vars : Vars) : string :=
  match fuel, s with
  | S k, String a _ =>
      let push := str_take (utf8_char_len a) s +:+ substitute_from k (str_drop (utf8_char_len a) s) vars in
      match strip_prefix "{{" s with
      | Some after =>
          match find_close after with
          | Some (raw, rest) => fill vars raw +:+ substitute_from k rest vars
          | None => push
          end
      | None => push
      end
  | _, _ => ""
  end.
Definition substitute (text : string) (vars : Vars) : string := substitute_from (String.length text) text vars.

(** *** The loop ends at the end of the text *)

Lemma find_close_length s raw rest : find_close s = Some (raw, rest) -> s = raw +:+ "}}" +:+ rest.
Proof.
  revert raw. induction s as [|a s IH]; intros raw; [done|]. cbn [find_close].
  destruct (strip_prefix "}}" (String a s)) as [r|] eqn:Hp; [intros [= <- <-]; rewrite append_nil; by apply strip_prefix_Some|].
  destruct (find_close s) as [[raw' rest']|]; [|done]. intros [= <- ->]. rewrite append_cons. f_equal. by apply IH.
Qed.

Lemma take_drop_str n s : str_take n s +:+ str_drop n s = s.
Proof. revert s. induction n as [|n IH]; intros [|a s]; try done. simpl. by rewrite append_cons, IH. Qed.
Lemma drop_length n s : (String.length (str_drop n s) <= String.length s)%nat.
Proof. rewrite <- (take_drop_str n s) at 2. rewrite length_append. lia. Qed.
Lemma char_len_drop a s :
  (String.length (str_drop (utf8_char_len a) (String a s)) <= String.length s)%nat.
Proof.
  unfold utf8_char_len. repeat case_match; simpl; try lia; try apply drop_length.
  all: destruct s; simpl; try lia; pose proof (drop_length 1 s); pose proof (drop_length 2 s); simpl in *; lia.
Qed.

Lemma substitute_fuel vars : forall k1 k2 s,
  (String.length s <= k1)%nat -> (String.length s <= k2)%nat ->
  substitute_from k1 s vars = substitute_from k2 s vars.
Proof.
  induction k1 as [|k1 IH]; intros k2 s H1 H2; [destruct s; [by destruct k2|simpl in H1; lia]|].
  destruct k2 as [|k2]; [destruct s; [done|simpl in H2; lia]|]. destruct s as [|a s]; [done|].
  assert (Hpush : substitute_from k1 (str_drop (utf8_char_len a) (String a s)) vars
                  = substitute_from k2 (str_drop (utf8_char_len a) (String a s)) vars).
  { pose proof (char_len_drop a s). simpl in H1, H2. apply IH; lia. }
  cbn [substitute_from]. rewrite Hpush. destruct (strip_prefix "{{" (String a s)) as [after|] eqn:Hp; [|done].
  destruct (find_close after) as [[raw rest]|] eqn:Hf; [|done]. f_equal.
  apply strip_prefix_Some in Hp. apply find_close_length in Hf. subst after.
  assert (Hl := f_equal String.length Hp). rewrite !length_append in Hl. simpl in Hl, H1, H2. apply IH; lia.
Qed.

Lemma substitute_push vars a s :
  (forall after, strip_prefix "{{" (String a s) = Some after -> find_close after = None) ->
  substitute (String a s) vars =
  str_take (utf8_char_len a) (String a s) +:+ substitute (str_drop (utf8_char_len a) (String a s)) vars.
Proof.
  intros Hn. unfold substitute. cbn [String.length substitute_from].
  assert (Hf : substitute_from (String.length s) (str_drop (utf8_char_len a) (String a s)) vars
    = substitute_from (String.length (str_drop (utf8_char_len a) (String a s))) (str_drop (utf8_char_len a) (String a s)) vars).
  { apply substitute_fuel; [apply char_len_drop|lia]. }
  rewrite Hf. destruct (strip_prefix "{{" (String a s)) as [after|]; [|done]. by rewrite Hn.
Qed.

Lemma substitute_slot vars raw rest after :
  find_close after = Some (raw, rest) ->
  substitute ("{{" +:+ after) vars = fill vars raw +:+ substitute rest vars.
Proof.
  intros Hf. unfold substitute. rewrite append_cons. cbn [String.length substitute_from].
  rewrite <- (append_cons "{" "{" after). change (String "{" "{" +:+ after) with ("{{" +:+ after).
  rewrite strip_prefix_app, Hf. f_equal. apply find_close_length in Hf as ->.
  apply substitute_fuel; [|lia]. rewrite append_cons, append_nil. cbn [String.length]. rewrite !length_append. simpl. lia.
Qed.

Lemma substitute_empty_text vars : substitute "" vars = "".
Proof. reflexivity. Qed.

(** *** Without variables nothing changes *)
Lemma fill_none raw : fill ∅ raw = "{{" +:+ raw +:+ "}}".
Proof. unfold fill. rewrite lookup_empty. by destruct (is_valid_key _). Qed.

Lemma substitute_no_vars_from k s : (String.length s <= k)%nat -> substitute s ∅ = s.
Proof.
  revert s. induction k as [|k IH]; intros s Hk; [destruct s; [done|simpl in Hk; lia]|].
  destruct s as [|a s]; [done|].
  assert (Hpush : substitute (str_drop (utf8_char_len a) (String a s)) ∅ = str_drop (utf8_char_len a) (String a s)).
  { apply IH. pose proof (char_len_drop a s). simpl in Hk. lia. }
  destruct (strip_prefix "{{" (String a s)) as [after|] eqn:Hp.
  - destruct (find_close after) as [[raw rest]|] eqn:Hf.
    + apply strip_prefix_Some in Hp. rewrite Hp, (substitute_slot _ _ _ _ Hf), fill_none.
      apply find_close_length in Hf as ->. rewrite IH; [by rewrite !append_assoc|].
      apply (f_equal String.length) in Hp. rewrite !length_append in Hp. simpl in Hp, Hk. lia.
    + rewrite substitute_push; [rewrite Hpush; apply take_drop_str|]. intros x Hx. congruence.
  - rewrite substitute_push; [rewrite Hpush; apply take_drop_str|]. intros x Hx. congruence.
Qed.

(** *** A text read as literals and placeholders *)

Inductive Piece := Lit (s : string) | Slot (raw : string).
Definition print_piece (p : Piece) : string := match p with Lit s => s | Slot raw => "{{" +:+ raw +:+ "}}" end.
Definition fill_piece (vars : Vars) (p : Piece) : string :=
  match p with Lit s => s | Slot raw => fill vars raw end.
Definition concat_map {A} (f : A -> string) (l : list A) : string := fold_right (fun x s => f x +:+ s) "" l.

(** A literal is text without a double brace that could open a placeholder, a
    placeholder holds no closing brace. *)
Definition piece_ok (p : Piece) : Prop :=
  match p with
  | Lit s => valid_utf8 s = true /\ str_contains "{{" (s +:+ "{") = false
  | Slot raw => contains_char "}"%char raw = false
  end.

Lemma valid_utf8_char a s :
  valid_utf8 (String a s) = true ->
  (utf8_char_len a <= String.length (String a s))%nat /\ valid_utf8 (str_drop (utf8_char_len a) (String a s)) = true.
Proof.
  unfold utf8_char_len. destruct a as [[] [] [] [] [] [] [] []]; destruct s as [|b [|c [|d s]]];
    simpl; try done; intros Hv;
    repeat match type of Hv with (_ && _ = true) => apply andb_prop in Hv as [? Hv] end; (split; [lia|done]).
Qed.

Lemma take_str_app n a b : (n <= String.length a)%nat -> str_take n (a +:+ b) = str_take n a.
Proof.
  revert a. induction n as [|n IH]; intros [|c a] Hn; try done; [simpl in Hn; lia|].
  rewrite append_cons. simpl. f_equal. apply IH. simpl in Hn. lia.
Qed.
Lemma drop_str_app n a b : (n <= String.length a)%nat -> str_drop n (a +:+ b) = str_drop n a +:+ b.
Proof.
  revert a. induction n as [|n IH]; intros [|c a] Hn; try done; [simpl in Hn; lia|].
  rewrite append_cons. simpl. apply IH. simpl in Hn. lia.
Qed.
Lemma contains_drop p n s : str_contains p s = false -> str_contains p (str_drop n s) = false.
Proof.
  revert s. induction n as [|n IH]; intros [|a s] Hs; try done. apply IH.
  cbn [str_contains] in Hs. by apply orb_false_elim in Hs as [_ ?].
Qed.

(** A text that does not open a placeholder. *)
Lemma no_open a s rest :
  str_contains "{{" (String a s +:+ "{") = false -> strip_prefix "{{" (String a s +:+ rest) = None.
Proof.
  rewrite !append_cons. cbn [str_contains]. intros [Hs _]%orb_false_elim. unfold starts_with in Hs.
  cbn [strip_prefix] in *. destruct (Ascii.eqb "{" a); [|done].
  destruct s as [|b s]; [done|]. rewrite append_cons in *. cbn [strip_prefix] in *. by destruct (Ascii.eqb "{" b).
Qed.

Lemma substitute_lit vars lit rest :
  valid_utf8 lit = true -> str_contains "{{" (lit +:+ "{") = false ->
  substitute (lit +:+ rest) vars = lit +:+ substitute rest vars.
Proof.
  remember (String.length lit) as k eqn:Hk. revert lit Hk.
  induction (lt_wf k) as [k _ IH]. intros lit Hk Hv Hc. destruct lit as [|a lit]; [done|].
  destruct (valid_utf8_char a lit Hv) as [Hn Hv'].
  rewrite append_cons, substitute_push.
  - rewrite <- append_cons, take_str_app, drop_str_app by done.
    rewrite (IH (String.length (str_drop (utf8_char_len a) (String a lit)))); try done.
    + by rewrite <- append_assoc, take_drop_str.
    + pose proof (char_len_drop a lit). subst k. simpl. lia.
    + rewrite <- drop_str_app by done. by apply contains_drop.
  - intros x Hx. rewrite <- append_cons in Hx. rewrite no_open in Hx; done.
Qed.

Lemma find_close_slot raw rest :
  contains_char "}"%char raw = false -> find_close (raw +:+ "}}" +:+ rest) = Some (raw, rest).
Proof.
  induction raw as [|a raw IH]; intros Hc.
  - rewrite append_nil. simpl. done.
  - simpl in Hc. apply orb_false_elim in Hc as [Ha Hc]. rewrite append_cons. cbn [find_close strip_prefix].
    replace (Ascii.eqb "}" a) with false by (rewrite Ascii.eqb_sym; done). by rewrite (IH Hc).
Qed.

(** A text is substituted piece by piece: literals that open no placeholder
    come out as they are, and [{{raw}}] becomes the value of the key it trims to, or
    stays as it is when it names none.  The text of a value is not read again, and
    without variables every text is unchanged. *)
Theorem substitute_pieces (vars : Vars) (ps : list Piece) (text : string) :
  Forall piece_ok ps ->
  substitute (concat_map print_piece ps) vars = concat_map (fill_piece vars) ps /\
  substitute text ∅ = text.
Proof.
  intros Hps. split; [|by apply (substitute_no_vars_from (String.length text))].
  induction Hps as [|p ps Hp _ IH]; [done|]. unfold concat_map in *. simpl.
  destruct p as [s|raw]; simpl in *.
  - destruct Hp as [Hv Hc]. by rewrite substitute_lit, IH.
  - assert (Hf := find_close_slot raw (fold_right (fun x s => print_piece x +:+ s) "" ps) Hp).
    change (String "{" (String "{" (raw +:+ "}}"))) with ("{{" +:+ (raw +:+ "}}")).
    rewrite !append_assoc, (substitute_slot _ _ _ _ Hf), IH. done.
Qed.

Lemma substitute_pieces_witness :
  let vs : Vars := {["port" := "8400"; "a.b" := "{{port}}"]} in
  let ps := [Lit "say { "; Slot " port "; Lit "é "; Slot "a.b"; Slot "nobody"; Slot "1+2"; Lit "}}"] in
  Forall piece_ok ps /\
  concat_map (fill_piece vs) ps = "say { 8400é {{port}}{{nobody}}{{1+2}}}}" /\
  substitute (concat_map print_piece ps) vs = "say { 8400é {{port}}{{nobody}}{{1+2}}}}".
Proof.
  intros vs ps. assert (Hps : Forall piece_ok ps) by (repeat constructor). split; [done|].
  split; [vm_compute; reflexivity|]. destruct (substitute_pieces vs ps "" Hps) as [-> _]. vm_compute. reflexivity.
Defined.

(** A third brace, an unclosed placeholder, and one that runs to the next close. *)
Example not_substituted :
  let vs : Vars := {["port" := "8400"]} in
  substitute "{{{port}}}" vs = "{{{port}}}" /\ substitute "{{port} {{port" vs = "{{port} {{port" /\
  substitute "f({{a: 1}, {{port}})" vs = "f({{a: 1}, {{port}})" /\ substitute "{ {{port}}}" vs = "{ 8400}".
Proof. vm_compute. repeat split. Qed.
