(* ===== verification/TemplateRender.v ===== *)
(** * Rendering a bundled template ([actant-templates/src/registry.rs])

    The bundle is the repository's templates/ directory, embedded at compile time:
    a parameter.  A path is a string with slashes; every file-system call may fail
    and a failed write may leave anything in the file it was writing. *)

From S2P Require Import Prelude Str Json Templates.
#[local] Open Scope string_scope.
#[local] Open Scope list_scope.
#[local] Open Scope Z_scope.

Record Template := mkTemplate { tpl_name : string; version : Z; description : string }.
Record RenderRequest := mkRenderRequest {
  template : string; destination : string; project_name : string; port : Z; studio_port : Z;
  vars : list (string * string)
}.
Inductive TemplateError :=
| UnknownTemplate (name : string) | DestinationNotEmpty (path : string) | Io (path source : string).

Definition DEFAULT_PORT : Z := 8400.
Definition DEFAULT_STUDIO_PORT : Z := 8401.
Definition new_request (template destination project_name : string) : RenderRequest :=
  mkRenderRequest template destination project_name DEFAULT_PORT DEFAULT_STUDIO_PORT [].

#[local] Set Warnings "-register-all".
(** A file of a bundled directory under its path in the bundle, or a directory. *)
Inductive Entry := EFile (path contents : string) | EDir (entries : list Entry).

Definition builtin_template (name : string) : Template :=
  if String.eqb name "minimal" then
    mkTemplate "minimal" 1 "Smallest functional ActantDB project — embedded ledger + a no-op agent."
  else if String.eqb name "coding-agent" then
    mkTemplate "coding-agent" 1 "Coding agent with shell.run + file.write tools, wrapped through @actantdb/mastra."
  else mkTemplate name 1 ("Bundled template: " +:+ name).

(** Caller-supplied variables over the canonical ones. *)
Definition build_vars (req : RenderRequest) : Vars :=
  fold_left (fun m '(k, v) => <[k := v]> m) (vars req)
    (<["studio_port" := show_Z (studio_port req)]> (<["port" := show_Z (port req)]>
       (<["project_name" := project_name req]> ∅))).

(** ** Paths *)

(** [dest.join(rel)]: an absolute path replaces the destination. *)
Definition join_path (dest rel : string) : string :=
  if starts_with "/" rel || String.eqb dest "" then rel
  else if ends_with "/" dest then dest +:+ rel else dest +:+ "/" +:+ rel.
(** [path.parent()], of a path with a slash. *)
Fixpoint parent (p : string) : option string :=
  match p with
  | EmptyString => None
  | String a p' => match parent p' with
                   | Some d => Some (String a d)
                   | None => if Ascii.eqb a "/"%char then Some "" else None
                   end
  end.
(** Paths compare by their components. *)
Fixpoint list_cmp (a b : list string) : comparison :=
  match a, b with
  | [], [] => Eq
  | [], _ => Lt
  | _, [] => Gt
  | x :: a', y :: b' => match String.compare x y with Eq => list_cmp a' b' | c => c end
  end.
Definition path_le (a b : string) : Prop :=
  list_cmp (split_char "/"%char a) (split_char "/"%char b) <> Gt.
#[global] Instance path_le_dec : RelDecision path_le.
Proof. intros a b. unfold path_le. apply _. Defined.

Lemma list_cmp_refl a : list_cmp a a = Eq.
Proof. induction a as [|x a IH]; simpl; [done|]. by rewrite cmp_refl. Qed.
Lemma list_cmp_swap a b : list_cmp b a = CompOpp (list_cmp a b).
Proof.
  revert b. induction a as [|x a IH]; intros [|y b]; simpl; try done.
  rewrite (cmp_antisym (cmp:=String.compare) x y). destruct (String.compare x y); simpl; [apply IH|done..].
Qed.
#[global] Instance path_le_total : Total path_le.
Proof.
  intros a b. unfold path_le. rewrite (list_cmp_swap (split_char "/"%char a)).
  destruct (list_cmp _ _); simpl; [left|left|right]; done.
Qed.

(** ** The file system *)

Class TplFaults := { tpl_fails : nat -> option string; tpl_torn : nat -> string -> option string }.
Record TplFs := mkTplFs { t_files : gmap string string; t_dirs : gset string; t_calls : nat }.

Section render.
Context `{TplFaults} (bundle : list (string * list Entry)).
#[local] Abbreviation F A := (M TplFs TemplateError A).

Definition list_templates : list Template :=
  merge_sort (fun a b => String.compare (tpl_name a) (tpl_name b) <> Gt) (List.map (fun d => builtin_template d.1) bundle).
Definition get_dir (name : string) : option (list Entry) :=
  option_map snd (List.find (fun d => String.eqb d.1 name) bundle).
Definition get (name : string) : result TemplateError Template :=
  match get_dir name with
  | None => Err (UnknownTemplate name)
  | Some _ => Ok (builtin_template name)
  end.

Definition fs_call {A} (path : string) (f : TplFs -> A * TplFs) (on_error : nat -> TplFs -> TplFs) : F A :=
  fun w => match tpl_fails (t_calls w) with
           | Some e => let w' := on_error (t_calls w) w in (Err (Io path e), mkTplFs (t_files w') (t_dirs w') (S (t_calls w)))
           | None => let '(a, w') := f w in (Ok a, mkTplFs (t_files w') (t_dirs w') (S (t_calls w)))
           end.
Definition under (dest p : string) : bool := starts_with (dest +:+ "/") p.
(** Something lies below the directory. *)
Definition occupied (dest : string) (w : TplFs) : bool :=
  List.existsb (under dest) (List.map fst (map_to_list (t_files w)) ++ elements (t_dirs w)).
(** [read_dir]: a directory that does not exist passes. *)
Definition ensure_empty (dest : string) : F unit :=
  full ← fs_call dest (fun w => (occupied dest w, w)) (fun _ w => w);
  if (full : bool) then throw (DestinationNotEmpty dest) else mret tt.
Definition mkdir_p (path : string) : F unit :=
  fs_call path (fun w => (tt, mkTplFs (t_files w) ({[path]} ∪ t_dirs w) (t_calls w))) (fun _ w => w).
Definition write_file (path body : string) : F unit :=
  fs_call path (fun w => (tt, mkTplFs (<[path := body]> (t_files w)) (t_dirs w) (t_calls w)))
    (fun n w => match tpl_torn n body with
                | Some b => mkTplFs (<[path := b]> (t_files w)) (t_dirs w) (t_calls w)
                | None => w
                end).

(** The path below the destination and the body of a bundled file. *)
Definition target_of (root dest : string) (vs : Vars) (path : string) : string :=
  join_path dest (substitute (default path (strip_prefix (root +:+ "/") path)) vs).
Definition body_of (vs : Vars) (contents : string) : string :=
  if valid_utf8 contents then substitute contents vs else contents.

Fixpoint write_entry (root dest : string) (vs : Vars) (e : Entry) (written : list string) : F (list string) :=
  match e with
  | EFile path contents =>
      let target := target_of root dest vs path in
      (match parent target with Some d => mkdir_p d | None => mret tt end);;
      write_file target (body_of vs contents);;
      mret (written ++ [target])
  | EDir entries =>
      (fix write_dir (es : list Entry) (written : list string) : F (list string) :=
         match es with
         | [] => mret written
         | e :: es' => w ← write_entry root dest vs e written; write_dir es' w
         end) entries written
  end.

Definition render (req : RenderRequest) : F (list string) :=
  match get_dir (template req) with
  | None => throw (UnknownTemplate (template req))
  | Some entries =>
      ensure_empty (destination req);;
      mkdir_p (destination req);;
      written ← write_entry (template req) (destination req) (build_vars req) (EDir entries) [];
      mret (merge_sort path_le written)
  end.

(** ** The fixed project of [actantdb init] *)

Definition package_json `{SerdeJson} (name : string) : string :=
  to_string (jobj [("name", JString name); ("version", JString "0.0.1"); ("private", JBool true);
                   ("type", JString "module"); ("scripts", jobj [("demo", JString "node ./demo.mjs")])]).
Definition newline : string := String "010" "".
Definition readme (name : string) : string :=
  "# " +:+ name +:+ newline +:+ newline +:+ "Generated by `actantdb init`. Run the server:" +:+ newline
  +:+ newline +:+ "```" +:+ newline +:+ "actantdb serve --db ./actant.db" +:+ newline +:+ "```" +:+ newline.
(** The error of a call, here with the path it happened at. *)
Definition scaffold `{SerdeJson} (root name : string) : F unit :=
  mkdir_p root;;
  write_file (join_path root "package.json") (package_json name);;
  write_file (join_path root "README.md") (readme name).

(** ** What is written *)

(** The bundled files below an entry, in the order of the walk. *)
Fixpoint files_in (e : Entry) : list (string * string) :=
  match e with EFile p c => [(p, c)] | EDir es => List.concat (List.map files_in es) end.
Definition targets (root dest : string) (vs : Vars) (e : Entry) : list string :=
  List.map (fun pc => target_of root dest vs pc.1) (files_in e).
Definition put_all (root dest : string) (vs : Vars) (e : Entry) (m : gmap string string) : gmap string string :=
  fold_left (fun m pc => <[target_of root dest vs pc.1 := body_of vs pc.2]> m) (files_in e) m.

(** Induction on entries and the lists of entries in them. *)
Fixpoint entry_ind' (P : Entry -> Prop) (Hf : forall p c, P (EFile p c))
    (Hd : forall es, Forall P es -> P (EDir es)) (e : Entry) : P e :=
  match e with
  | EFile p c => Hf p c
  | EDir es => Hd es ((fix go (es : list Entry) : Forall P es :=
      match es with [] => Forall_nil_2 P | e :: es' => Forall_cons_2 P e es' (entry_ind' P Hf Hd e) (go es') end) es)
  end.

Lemma fs_call_inv {A} path (f : TplFs -> A * TplFs) g w r w' :
  fs_call path f g w = (r, w') ->
  (exists e, r = Err (Io path e) /\ t_files w' = t_files (g (t_calls w) w)) \/
  (exists a w1, r = Ok a /\ f w = (a, w1) /\ t_files w' = t_files w1 /\ t_dirs w' = t_dirs w1).
Proof.
  unfold fs_call. destruct (tpl_fails _); [intros [= <- <-]; left; eauto|].
  destruct (f w) as [a w1]. intros [= <- <-]. right. eauto 10.
Qed.

(** A walk that ends wrote every file; one that fails touched only targets. *)
Definition wrote (root dest : string) (vs : Vars) (e : Entry) (written : list string) (w : TplFs)
    (r : result TemplateError (list string)) (w' : TplFs) : Prop :=
  (forall p, ~ In p (targets root dest vs e) -> t_files w' !! p = t_files w !! p) /\
  match r with
  | Ok out => out = written ++ targets root dest vs e /\ t_files w' = put_all root dest vs e (t_files w)
  | Err err => exists p msg, err = Io p msg
  end.

Lemma targets_cons root dest vs e es :
  targets root dest vs (EDir (e :: es)) = targets root dest vs e ++ targets root dest vs (EDir es).
Proof. unfold targets. simpl. by rewrite List.map_app. Qed.
Lemma put_all_cons root dest vs e es m :
  put_all root dest vs (EDir (e :: es)) m = put_all root dest vs (EDir es) (put_all root dest vs e m).
Proof. unfold put_all. simpl. by rewrite fold_left_app. Qed.

Lemma wrote_cons root dest vs e es written w r1 w1 r w' :
  wrote root dest vs e written w r1 w1 ->
  match r1 with
  | Ok out => wrote root dest vs (EDir es) out w1 r w'
  | Err err => r = Err err /\ w' = w1
  end -> wrote root dest vs (EDir (e :: es)) written w r w'.
Proof.
  intros [Hk1 H1] H2. unfold wrote. rewrite targets_cons, put_all_cons. destruct r1 as [out|err].
  - destruct H1 as [-> Hf], H2 as [Hk2 H2]. split.
    + intros p Hp. rewrite in_app_iff in Hp. rewrite Hk2 by tauto. apply Hk1. tauto.
    + destruct r as [o|]; [|done]. destruct H2 as [-> ->]. by rewrite Hf, app_assoc.
  - destruct H2 as [-> ->]. split; [|done]. intros p Hp. rewrite in_app_iff in Hp. apply Hk1. tauto.
Qed.

Lemma write_entry_spec root dest vs e written w r w' :
  write_entry root dest vs e written w = (r, w') -> wrote root dest vs e written w r w'.
Proof.
  revert written w r w'. induction e as [path contents|es Hes] using entry_ind'; intros written w r w' Hw.
  - cbn [write_entry] in Hw. set (target := target_of root dest vs path) in *.
    assert (Hfile : forall w0, t_files w0 = t_files w ->
      (write_file target (body_of vs contents);; mret (written ++ [target])) w0 = (r, w') ->
      wrote root dest vs (EFile path contents) written w r w').
    { intros w0 Hw0 [(err & Hf & ->)|([] & w1 & Hf & Hr)]%M_bind_inv.
      - apply fs_call_inv in Hf as [(m & [= ->] & Hf)|(? & ? & ? & _)]; [|done]. split; [|eauto].
        intros p Hp. rewrite Hf. unfold targets in Hp. simpl in Hp.
        destruct (tpl_torn _ _); simpl; rewrite Hw0; [|done]. apply lookup_insert_ne. tauto.
      - apply fs_call_inv in Hf as [(? & ? & _)|([] & w2 & _ & [= <-] & Hfs & _)]; [done|]. injection Hr as <- <-.
        simpl in Hfs. unfold wrote. rewrite Hfs, Hw0. split; [|done].
        intros p Hp. apply lookup_insert_ne. unfold targets in Hp. simpl in Hp. tauto. }
    destruct (parent target) as [d|]; [|by eapply Hfile].
    apply M_bind_inv in Hw as [(err & Hm & ->)|([] & w1 & Hm & Hw)].
    + apply fs_call_inv in Hm as [(m & [= ->] & Hf)|(? & ? & ? & _)]; [|done]. split; [|eauto]. intros p _. by rewrite Hf.
    + apply fs_call_inv in Hm as [(? & ? & _)|([] & w2 & _ & [= <-] & Hfs & _)]; [done|]. by eapply Hfile.
  - revert written w Hw. induction Hes as [|e es He _ IH]; intros written w Hw.
    + injection Hw as <- <-. unfold wrote, targets, put_all. simpl. by rewrite app_nil_r.
    + cbn [write_entry] in Hw. apply M_bind_inv in Hw as [(err & Hm & ->)|(out & w1 & Hm & Hw)].
      * by eapply wrote_cons; [by apply He|].
      * eapply wrote_cons; [by apply He|]. simpl. by apply IH.
Qed.

(** A template's file at the path its name substitutes to. *)
Lemma put_all_lookup root dest vs e m p c :
  NoDup (targets root dest vs e) -> In (p, c) (files_in e) ->
  put_all root dest vs e m !! target_of root dest vs p = Some (body_of vs c).
Proof.
  unfold put_all, targets. revert m. induction (files_in e) as [|[q d] l IH]; simpl; intros m Hnd Hin; [done|].
  apply NoDup_cons in Hnd as [Hni Hnd]. destruct Hin as [[= -> ->]|Hin]; [|by apply IH].
  clear IH. assert (Hkeep : forall l (m : gmap string string), ~ In (target_of root dest vs p) (List.map (fun pc => target_of root dest vs pc.1) l) ->
    fold_left (fun m pc => <[target_of root dest vs pc.1 := body_of vs pc.2]> m) l m !! target_of root dest vs p
      = m !! target_of root dest vs p).
  { clear. induction l as [|x l IH]; intros m Hni; [done|]. simpl in *. rewrite IH by tauto.
    apply lookup_insert_ne. tauto. }
  rewrite Hkeep by (by rewrite list_elem_of_In in Hni). apply lookup_insert_eq.
Qed.

Lemma ensure_empty_inv dest w r w' :
  ensure_empty dest w = (r, w') ->
  t_files w' = t_files w /\
  match r with
  | Ok _ => occupied dest w = false /\ t_dirs w' = t_dirs w
  | Err (DestinationNotEmpty p) => p = dest /\ occupied dest w = true
  | Err err => exists msg, err = Io dest msg
  end.
Proof.
  unfold ensure_empty. intros [(err & Hf & ->)|(full & w1 & Hf & Hr)]%M_bind_inv.
  - apply fs_call_inv in Hf as [(m & [= ->] & Hf)|(? & ? & ? & _)]; [|done]. split; [done|eauto].
  - apply fs_call_inv in Hf as [(? & ? & _)|(a & w2 & [= ->] & [= <- <-] & Hfs & Hd)]; [done|].
    destruct (occupied dest w) eqn:Ho; injection Hr as <- <-; done.
Qed.

(** C31: Rendering refuses a template that is not bundled and a destination with
    anything in it, changing no file.  Otherwise a call that fails ends it, with no
    file touched but those the template has, and a run that ends answers every file
    of the bundle, in the order of their paths, has written exactly those, each with
    its variables filled in (or as it is, when it is no text), under a destination
    that was empty. *)
Theorem render_spec (req : RenderRequest) (w w' : TplFs) (r : result TemplateError (list string)) :
  render req w = (r, w') ->
  match get_dir (template req) with
  | None => r = Err (UnknownTemplate (template req)) /\ w' = w
  | Some entries =>
      let ts := targets (template req) (destination req) (build_vars req) (EDir entries) in
      (forall p, ~ In p ts -> t_files w' !! p = t_files w !! p) /\
      match r with
      | Ok out =>
          occupied (destination req) w = false /\ Permutation out ts /\ Sorted path_le out /\
          (NoDup ts -> forall p c, In (p, c) (files_in (EDir entries)) ->
             t_files w' !! target_of (template req) (destination req) (build_vars req) p
               = Some (body_of (build_vars req) c))
      | Err (DestinationNotEmpty p) =>
          p = destination req /\ occupied p w = true /\ t_files w' = t_files w
      | Err (Io _ _) => True
      | Err (UnknownTemplate _) => False
      end
  end.
Proof.
  unfold render. destruct (get_dir (template req)) as [entries|]; [|by intros [= <- <-]].
  intros [(err & He & ->)|([] & w1 & He & Hk)]%M_bind_inv; apply ensure_empty_inv in He as [Hf He].
  { rewrite Hf. split; [done|]. destruct err; [by destruct He|by destruct He as [-> ?]|done]. }
  destruct He as [Hocc _]. apply M_bind_inv in Hk as [(err & Hm & ->)|([] & w2 & Hm & Hk)].
  { apply fs_call_inv in Hm as [(m & [= ->] & Hm)|(? & ? & ? & _)]; [|done]. split; [|done]. intros p _. by rewrite Hm, Hf. }
  apply fs_call_inv in Hm as [(? & ? & _)|([] & w3 & _ & [= <-] & Hm & _)]; [done|]. simpl in Hm.
  apply M_bind_inv in Hk as [(err & Hw & ->)|(out & w4 & Hw & Hr)]; apply write_entry_spec in Hw as [Hkeep Hw].
  - destruct Hw as (p & msg & ->). split; [|done]. intros q Hq. by rewrite Hkeep, Hm, Hf.
  - destruct Hw as [-> Hput]. injection Hr as <- <-. split; [intros q Hq; by rewrite Hkeep, Hm, Hf|].
    split; [done|]. split; [apply merge_sort_Permutation|]. split; [apply Sorted_merge_sort; apply _|].
    intros Hnd p c Hin. rewrite Hput. by apply put_all_lookup.
Qed.
End render.

(** ** A concrete project *)

Definition demo_entries : list Entry :=
  [EFile "minimal/README.md" "# {{ project_name }}: {{{port}}} {{port}} {{who}} {{ 1+2 }}";
   EDir [EFile "minimal/src/{{project_name}}.mjs" "const P = {{project_name}};"];
   EFile "minimal/logo.png" (String "137" "{{port}}")].
Definition demo_bundle : list (string * list Entry) := [("minimal", demo_entries)].
Definition demo_request : RenderRequest :=
  mkRenderRequest "minimal" "out" "demo" DEFAULT_PORT DEFAULT_STUDIO_PORT [("port", "9000")].
#[local] Instance no_tpl_faults : TplFaults := {| tpl_fails _ := None; tpl_torn _ _ := None |}.
Definition clean_fs : TplFs := mkTplFs {["notes.txt" := "mine"]} ∅ 0.

(** The braces around a key that another brace touches are left in place, like an
    unknown key and a body that is no text. *)
Example rendered_files :
  (render demo_bundle demo_request clean_fs).1 = Ok ["out/README.md"; "out/logo.png"; "out/src/demo.mjs"] /\
  map_to_list (t_files (render demo_bundle demo_request clean_fs).2)
  ≡ₚ [("notes.txt", "mine"); ("out/README.md", "# demo: {{{port}}} 9000 {{who}} {{ 1+2 }}");
      ("out/src/demo.mjs", "const P = demo;"); ("out/logo.png", String "137" "{{port}}")].
Proof. split; [vm_compute; reflexivity|]. vm_compute. solve_Permutation. Qed.

Lemma render_spec_witness :
  t_files (render demo_bundle demo_request clean_fs).2 !! "out/src/demo.mjs" = Some "const P = demo;" /\
  t_files (render demo_bundle demo_request clean_fs).2 !! "notes.txt" = Some "mine".
Proof.
  pose proof (render_spec demo_bundle demo_request clean_fs (render demo_bundle demo_request clean_fs).2
    (render demo_bundle demo_request clean_fs).1 ltac:(apply surjective_pairing)) as Hs.
  assert (Hg : get_dir demo_bundle (template demo_request) = Some demo_entries) by reflexivity.
  assert (Ht : targets (template demo_request) (destination demo_request) (build_vars demo_request) (EDir demo_entries)
    = ["out/README.md"; "out/src/demo.mjs"; "out/logo.png"]) by (vm_compute; reflexivity).
  assert (Hok : is_ok (render demo_bundle demo_request clean_fs).1 = true) by (vm_compute; reflexivity).
  assert (Hp : target_of (template demo_request) (destination demo_request) (build_vars demo_request)
    "minimal/src/{{project_name}}.mjs" = "out/src/demo.mjs") by (vm_compute; reflexivity).
  assert (Hb : body_of (build_vars demo_request) "const P = {{project_name}};" = "const P = demo;") by (vm_compute; reflexivity).
  rewrite Hg in Hs. cbv zeta in Hs. rewrite Ht in Hs. destruct Hs as [Hkeep Hs]. split.
  - destruct (render demo_bundle demo_request clean_fs).1 as [out|]; [|discriminate Hok].
    destruct Hs as (_ & _ & _ & Hall). rewrite <- Hp, <- Hb. apply Hall; [|simpl; tauto].
    apply NoDup_ListNoDup. repeat constructor; simpl; intuition discriminate.
  - rewrite Hkeep; [reflexivity|]. simpl. intuition discriminate.
Defined.
