(* ===== verification/Auth.v ===== *)
(** * Credentials ([actant-auth])

    Linking codes ([link.rs]), session tokens ([session.rs]), passwords
    ([password.rs]) and HS256 tokens ([lib.rs]).  The byte stream of the operating
    system, SHA-256, base64, HMAC, argon2 and the codec serde derives for [Claims]
    are parameters. *)

From S2P Require Import Prelude Str Json Core.
#[local] Open Scope string_scope.
#[local] Open Scope list_scope.
#[local] Open Scope Z_scope.

(** [OsRng]: the [n]th byte drawn, in 0..255. *)
Class Rng := random_byte : nat -> Z.

(** The base64 crate's [URL_SAFE_NO_PAD]. *)
Class Base64 := {
  b64_encode : string -> string;
  b64_decode : string -> result string string;
}.
Class Base64Laws `{Base64} : Prop := {
  b64_round_trip : forall s, b64_decode (b64_encode s) = Ok s;
  b64_no_dot : forall s, contains_char "."%char (b64_encode s) = false;
}.

(** ** Linking codes *)

Definition ALPHABET : string := "abcdefghjkmnpqrstuvwxyz23456789".
Definition CODE_LEN : Z := 12.
Definition LINK_TTL_SECS : Z := 15 * 60.
Definition DISALLOWED_CHARS : string := "0oO1iIlL".

Record LinkCode := mkLinkCode { display : string; hash : string }.

(** Only ASCII letters and digits are kept, and those are one byte each. *)
Definition normalize_code (presented : string) : string :=
  to_ascii_lowercase (filter_chars is_alnum presented).

(** [c.to_ascii_lowercase() as u8] of a code point: the cast keeps 8 bits. *)
Definition is_allowed_char (c : Z) : bool :=
  let lc := (if (65 <=? c) && (c <=? 90) then c + 32 else c) mod 256 in
  contains_char (Ascii.ascii_of_N (Z.to_N lc)) ALPHABET.

(** The first character that is not allowed. *)
Fixpoint first_disallowed (s : string) : option Ascii.ascii :=
  match s with
  | EmptyString => None
  | String c s' => if is_allowed_char (byte c) then first_disallowed s' else Some c
  end.

Definition validate_shape (presented : string) : result ActantError unit :=
  let norm := normalize_code presented in
  if str_len norm =? CODE_LEN
  then match first_disallowed norm with
       | None => Ok tt
       | Some c => Err (InvalidInput ("linking code contains disallowed character '"
                                        +:+ String c "'"))
       end
  else Err (InvalidInput ("linking code must be " +:+ show_Z CODE_LEN
                            +:+ " characters (got " +:+ show_Z (str_len norm) +:+ ")")).

Section link.
Context `{Rng} `{Sha256}.

(** One draw: five bits of a byte, or none for the index past the alphabet. *)
Definition draw_char (b : Z) : option Ascii.ascii :=
  let idx := Z.land b 31 in
  if str_len ALPHABET <=? idx then None else String.get (Z.to_nat idx) ALPHABET.

(** The loop of [generate], from the byte at [pos]. *)
Fixpoint draw_chars (fuel pos : nat) (chars : string) : option (string * nat) :=
  if CODE_LEN <=? str_len chars then Some (chars, pos)
  else match fuel with
       | O => None
       | S f => match draw_char (random_byte pos) with
                | None => draw_chars f (S pos) chars
                | Some c => draw_chars f (S pos) (chars +:+ String c "")
                end
       end.

Definition hash_code (presented : string) : string := sha256_hex (normalize_code presented).

Definition dashed (chars : string) : string :=
  String.substring 0 4 chars +:+ "-" +:+ String.substring 4 4 chars +:+ "-"
    +:+ String.substring 8 4 chars.

(** [LinkCode::generate]; [fuel] bounds the bytes it may draw. *)
Definition generate (fuel pos : nat) : option (LinkCode * nat) :=
  '(chars, pos') ← draw_chars fuel pos "";
  Some (mkLinkCode (dashed chars) (hash_code (dashed chars)), pos').

Definition verify_link_code (stored_hash presented : string) : bool :=
  let candidate := hash_code presented in
  if str_len candidate =? str_len stored_hash then String.eqb candidate stored_hash else false.
End link.

(** ** Session tokens *)

Definition COOKIE_NAME : string := "actantdb_session".
Definition CSRF_HEADER : string := "X-CSRF-Token".
Definition SESSION_TTL_SECS : Z := 30 * 24 * 60 * 60.

Record SessionToken := mkSessionToken { plaintext : string; token_hash : string; csrf_secret : string }.

Definition verify_csrf (stored_secret presented : string) : bool :=
  if str_len stored_secret =? str_len presented then String.eqb stored_secret presented else false.

Section session.
Context `{Rng} `{Sha256} `{Base64}.

Definition hash_token (plain : string) : string := sha256_hex plain.

(** [fill_bytes] of [n] bytes. *)
Fixpoint random_bytes (pos n : nat) : string :=
  match n with
  | O => ""
  | S k => String (Ascii.ascii_of_N (Z.to_N (random_byte pos))) (random_bytes (S pos) k)
  end.
Definition random_b64 (pos n : nat) : string := b64_encode (random_bytes pos n).

(** [SessionToken::generate] from the byte at [pos]; it draws 64. *)
Definition new_session (pos : nat) : SessionToken * nat :=
  let plain := random_b64 pos 32 in
  (mkSessionToken plain (hash_token plain) (random_b64 (32 + pos) 32), (64 + pos)%nat).
End session.

(** ** Passwords *)

(** What argon2 answers to a password and a PHC string. *)
Inductive Argon2Verdict := Match | Mismatch | Malformed (m : string) | Failed (m : string).
Class Argon2 := {
  argon2_hash : string -> string -> result string string;   (* salt bytes, password *)
  argon2_verify : string -> string -> Argon2Verdict;         (* password, PHC string *)
}.
Class Argon2Laws `{Argon2} : Prop := {
  argon2_round_trip : forall salt p phc, argon2_hash salt p = Ok phc -> argon2_verify p phc = Match;
}.

Definition MIN_PASSWORD_LEN : Z := 8.
Definition SALT_LEN : nat := 16.

Section password.
Context `{Rng} `{Argon2}.

(** The salt is drawn from the byte at [pos] on. *)
Definition hash_password (pos : nat) (plain : string) : result ActantError string * nat :=
  if str_len plain <? MIN_PASSWORD_LEN
  then (Err (InvalidInput ("password must be at least " +:+ show_Z MIN_PASSWORD_LEN +:+ " characters")),
        pos)
  else (match argon2_hash (random_bytes pos SALT_LEN) plain with
        | Ok phc => Ok phc
        | Err e => Err (Internal ("argon2 hash: " +:+ e))
        end, (SALT_LEN + pos)%nat).

Definition verify_password (plain phc : string) : result ActantError bool :=
  match argon2_verify plain phc with
  | Match => Ok true
  | Mismatch => Ok false
  | Malformed e => Err (Internal ("argon2 parse stored hash: " +:+ e))
  | Failed e => Err (Internal ("argon2 verify: " +:+ e))
  end.
End password.

(** ** HS256 tokens *)

Record Claims := mkClaims {
  sub : string; iss : string; roles : list string; iat : Z; exp : Z
}.
Record Principal := mkPrincipal {
  p_workspace_id : string; p_actor_id : string; p_roles : list string; p_expires_at : Z
}.

(** [HmacSha256] ([None]: the key is refused) and the derived codec of [Claims]. *)
Class Jwt := {
  hmac_sha256 : string -> string -> option string;
  claims_to_string : Claims -> result string string;
  claims_from_slice : string -> result string Claims;
}.
Class JwtLaws `{Jwt} : Prop := {
  claims_round_trip : forall c s, claims_to_string c = Ok s -> claims_from_slice s = Ok c;
}.

Section jwt.
Context `{SerdeJson} `{Base64} `{Jwt}.

(** [impl From<serde_json::Error> for ActantError]. *)
Definition serde_error (e : string) : ActantError := InvalidInput e.

Definition jwt_header : string :=
  to_string (jobj [("alg", JString "HS256"); ("typ", JString "JWT")]).

Definition sign (claims : Claims) (secret : string) : result ActantError string :=
  let header_b64 := b64_encode jwt_header in
  match claims_to_string claims with
  | Err e => Err (serde_error e)
  | Ok json =>
      let signing_input := header_b64 +:+ "." +:+ b64_encode json in
      match hmac_sha256 secret signing_input with
      | None => Err (Internal "invalid key length")
      | Some tag => Ok (signing_input +:+ "." +:+ b64_encode tag)
      end
  end.

Definition verify (now : Z) (token secret : string) : result ActantError Claims :=
  match split_char "."%char token with
  | [h; c; s] =>
      let signing_input := h +:+ "." +:+ c in
      match b64_decode s with
      | Err e => Err (InvalidInput e)
      | Ok sig =>
          match hmac_sha256 secret signing_input with
          | None => Err (Internal "invalid key length")
          | Some tag =>
              if String.eqb sig tag then
                match b64_decode c with
                | Err e => Err (InvalidInput e)
                | Ok json =>
                    match claims_from_slice json with
                    | Err e => Err (serde_error e)
                    | Ok claims =>
                        if exp claims <? now then Err (PermissionDenied "token expired")
                        else Ok claims
                    end
                end
              else Err (PermissionDenied "invalid signature")
          end
      end
  | _ => Err (InvalidInput "malformed jwt")
  end.

Definition principal_from_claims (c : Claims) : Principal :=
  mkPrincipal (iss c) (sub c) (roles c) (exp c).
End jwt.

(** ** Theorems *)

Lemma normalize_app a b : normalize_code (a +:+ b) = normalize_code a +:+ normalize_code b.
Proof. unfold normalize_code, to_ascii_lowercase. by rewrite filter_chars_app, map_chars_app. Qed.

Definition in_alphabet (c : Ascii.ascii) : bool := contains_char c ALPHABET.

(** The characters of the alphabet, each a lower-case letter or a digit, are
    their own normal form. *)
Lemma all_ascii (P : Ascii.ascii -> bool) :
  forallb P (List.map Ascii.ascii_of_nat (seq 0 256)) = true -> forall c, P c = true.
Proof.
  intros H c. rewrite forallb_forall in H. apply H.
  rewrite <- (Ascii.ascii_nat_embedding c). apply in_map, in_seq.
  pose proof (Ascii.nat_ascii_bounded c). lia.
Qed.

Lemma alphabet_normal c : in_alphabet c = true -> is_alnum c = true /\ ascii_lower c = c.
Proof.
  pose proof (all_ascii (fun c => negb (in_alphabet c) || (is_alnum c && Ascii.eqb (ascii_lower c) c))
    ltac:(vm_compute; reflexivity) c) as H. simpl in H.
  intros Hc. rewrite Hc in H. simpl in H. apply andb_prop in H as [Ha Hl].
  split; [done|]. by apply Ascii.eqb_eq.
Qed.

(** On what [normalize_code] leaves, [is_allowed_char] is membership. *)
Lemma allowed_iff c : is_alnum c = true -> is_upper c = false ->
  is_allowed_char (byte c) = in_alphabet c.
Proof.
  pose proof (all_ascii (fun c => negb (is_alnum c) || is_upper c
    || Bool.eqb (is_allowed_char (byte c)) (in_alphabet c)) ltac:(vm_compute; reflexivity) c) as H.
  simpl in H. intros Ha Hu. rewrite Ha, Hu in H. simpl in H. by apply Bool.eqb_prop.
Qed.

Lemma normal_chars s :
  all_chars (fun c => is_alnum c && negb (is_upper c)) (normalize_code s) = true.
Proof.
  unfold normalize_code, to_ascii_lowercase. induction s as [|c s IH]; [done|]. simpl.
  destruct (is_alnum c) eqn:Hc; [|done]. simpl. rewrite IH, andb_true_r.
  pose proof (all_ascii (fun c => negb (is_alnum c) || (is_alnum (ascii_lower c) && negb (is_upper (ascii_lower c))))
    ltac:(vm_compute; reflexivity) c) as H. simpl in H. rewrite Hc in H. exact H.
Qed.

Lemma normalize_fixed s : all_chars in_alphabet s = true -> normalize_code s = s.
Proof.
  unfold normalize_code, to_ascii_lowercase.
  induction s as [|c s IH]; [done|]. simpl. intros [Hc Hs]%andb_prop.
  destruct (alphabet_normal c Hc) as [-> Hl]. simpl. by rewrite Hl, IH.
Qed.

Lemma first_disallowed_spec s :
  all_chars (fun c => is_alnum c && negb (is_upper c)) s = true ->
  match first_disallowed s with
  | None => all_chars in_alphabet s = true
  | Some c => exists a b, s = a +:+ String c b /\ all_chars in_alphabet a = true /\ in_alphabet c = false
  end.
Proof.
  induction s as [|c s IH]; simpl; [done|]. intros [[Ha Hu]%andb_prop Hs]%andb_prop.
  rewrite allowed_iff by (done || by apply negb_true_iff).
  destruct (in_alphabet c) eqn:Hc; [|by exists "", s].
  specialize (IH Hs). destruct (first_disallowed s) as [d|]; simpl; [|by rewrite IH].
  destruct IH as (a & b & -> & Ha' & Hd). exists (String c a), b.
  split; [done|]. simpl. by rewrite Hc, Ha'.
Qed.

(** [validate_shape] accepts exactly the presentations whose normal form
    is twelve characters of the alphabet; any other presentation is an
    [InvalidInput] that tells the length of the normal form when that is wrong,
    and otherwise its first character outside the alphabet. *)
Theorem validate_shape_spec (presented : string) :
  let norm := normalize_code presented in
  match validate_shape presented with
  | Ok _ => str_len norm = 12 /\ all_chars in_alphabet norm = true
  | Err e =>
      (str_len norm <> 12 /\
       e = InvalidInput ("linking code must be 12 characters (got " +:+ show_Z (str_len norm) +:+ ")"))
      \/
      (str_len norm = 12 /\ exists a c b,
         norm = a +:+ String c b /\ all_chars in_alphabet a = true /\ in_alphabet c = false /\
         e = InvalidInput ("linking code contains disallowed character '" +:+ String c "'"))
  end.
Proof.
  simpl. unfold validate_shape, CODE_LEN.
  destruct (Z.eqb_spec (str_len (normalize_code presented)) 12) as [Hl|Hl]; [|by left].
  pose proof (first_disallowed_spec _ (normal_chars presented)) as Hf.
  destruct (first_disallowed (normalize_code presented)) as [c|]; [|done].
  right. split; [done|]. destruct Hf as (a & b & Heq & Ha & Hc). by exists a, c, b.
Qed.

Section link_theorems.
Context `{Rng} `{Sha256}.

(** Every character of the alphabet is drawn by eight of the 256 bytes. *)
Definition bytes_drawing (c : Ascii.ascii) : nat :=
  length (List.filter (fun b => match draw_char b with Some d => Ascii.eqb c d | None => false end)
    (List.map Z.of_nat (seq 0 256))).

Lemma draw_uniform c : in_alphabet c = true -> bytes_drawing c = 8%nat.
Proof.
  pose proof (all_ascii (fun c => negb (in_alphabet c) || Nat.eqb (bytes_drawing c) 8)
    ltac:(vm_compute; reflexivity) c) as Hall. cbv beta in Hall.
  intros Hc. apply orb_prop in Hall as [Hall|Hall]; [by rewrite Hc in Hall|].
  by apply Nat.eqb_eq in Hall.
Qed.

Lemma draw_char_alphabet b c : draw_char b = Some c -> in_alphabet c = true.
Proof.
  unfold draw_char. destruct (_ <=? _); [discriminate|].
  generalize (Z.to_nat (Z.land b 31)). intros n Hn.
  assert (Hg : forallb (fun n => match String.get n ALPHABET with Some c => in_alphabet c | None => true end)
                 (seq 0 31) = true) by (vm_compute; reflexivity).
  destruct (le_lt_dec 31 n) as [Hle|Hlt].
  - do 31 (destruct n as [|n]; [lia|]). discriminate Hn.
  - rewrite forallb_forall in Hg. specialize (Hg n). rewrite Hn in Hg. apply Hg, in_seq. lia.
Qed.

(** How many of the [n] bytes from [pos] on give a character. *)
Fixpoint useful (pos n : nat) : nat :=
  match n with
  | O => O
  | S k => (match draw_char (random_byte pos) with Some _ => 1 | None => 0 end + useful (S pos) k)%nat
  end.

Lemma draw_chars_done fuel pos chars :
  (12 <= String.length chars + useful pos fuel)%nat -> is_Some (draw_chars fuel pos chars).
Proof.
  revert pos chars. induction fuel as [|f IH]; intros pos chars Hu; simpl in *; unfold str_len, CODE_LEN.
  - rewrite Nat.add_0_r in Hu. destruct (Z.leb_spec 12 (Z.of_nat (String.length chars))); [done|lia].
  - destruct (Z.leb_spec 12 (Z.of_nat (String.length chars))); [done|].
    destruct (draw_char (random_byte pos)) as [c|]; apply IH; [|lia].
    rewrite length_append. simpl. lia.
Qed.

Lemma draw_chars_spec fuel pos chars out pos' :
  draw_chars fuel pos chars = Some (out, pos') ->
  (String.length chars <= 12)%nat -> all_chars in_alphabet chars = true ->
  String.length out = 12%nat /\ all_chars in_alphabet out = true.
Proof.
  revert pos chars. induction fuel as [|f IH]; intros pos chars; simpl; unfold str_len, CODE_LEN;
    destruct (Z.leb_spec 12 (Z.of_nat (String.length chars))); intros Hd Hl Hc; try discriminate.
  1, 2: injection Hd as <- <-; split; [lia|done].
  destruct (draw_char (random_byte pos)) as [c|] eqn:Hdc; eapply IH; [exact Hd|..]; try done.
  - rewrite length_append. simpl. lia.
  - rewrite all_chars_app, Hc. simpl. by rewrite (draw_char_alphabet _ _ Hdc).
Qed.

Lemma dashed_normal chars :
  String.length chars = 12%nat -> all_chars in_alphabet chars = true ->
  normalize_code (dashed chars) = chars.
Proof.
  intros Hl Hc. unfold dashed.
  do 12 (destruct chars as [|? chars]; [discriminate Hl|]).
  destruct chars; [|discriminate Hl]. simpl String.substring.
  rewrite !normalize_app. change (normalize_code "-") with "". rewrite !append_nil.
  rewrite <- !normalize_app. by apply normalize_fixed.
Qed.

Lemma verify_link_code_eq stored p : verify_link_code stored p = String.eqb (hash_code p) stored.
Proof.
  unfold verify_link_code. destruct (String.eqb_spec (hash_code p) stored) as [->|Hn].
  - by rewrite Z.eqb_refl.
  - by destruct (_ =? _).
Qed.

Lemma verify_csrf_eq a b : verify_csrf a b = String.eqb a b.
Proof.
  unfold verify_csrf. destruct (String.eqb_spec a b) as [->|Hn]; [by rewrite Z.eqb_refl|].
  by destruct (_ =? _).
Qed.

(** C30: minting a linking code terminates as soon as twelve of the bytes drawn
    give a character; the code has the shape [validate_shape] asks, and what
    redeems it is exactly a string with its normal form (any case, dashes or
    spaces anywhere), up to a collision of SHA-256. *)
Theorem generate_redeemable (fuel pos : nat) :
  (12 <= useful pos fuel)%nat ->
  exists c pos', generate fuel pos = Some (c, pos') /\
    validate_shape (display c) = Ok tt /\
    (forall p, normalize_code p = normalize_code (display c) ->
       validate_shape p = Ok tt /\ verify_link_code (hash c) p = true) /\
    (forall p, verify_link_code (hash c) p = true ->
       normalize_code p = normalize_code (display c) \/
       exists x y, x <> y /\ sha256_hex x = sha256_hex y).
Proof.
  intros Hu. destruct (draw_chars_done fuel pos "" Hu) as [[chars pos'] Hd].
  destruct (draw_chars_spec _ _ _ _ _ Hd) as [Hl Hc]; [simpl; lia|done|].
  unfold generate. rewrite Hd. simpl. eexists _, _. split; [done|]. simpl.
  pose proof (dashed_normal chars Hl Hc) as Hn.
  assert (Hshape : forall p, normalize_code p = chars -> validate_shape p = Ok tt).
  { intros p Hp. pose proof (validate_shape_spec p) as Hs. simpl in Hs. rewrite Hp in Hs.
    destruct (validate_shape p) as [[]|e]; [done|]. unfold str_len in Hs. rewrite Hl in Hs.
    destruct Hs as [[? _]|(_ & a & c & b & -> & _ & Hbad & _)]; [done|].
    rewrite all_chars_app in Hc. simpl in Hc. rewrite Hbad in Hc.
    by rewrite andb_false_r in Hc. }
  split; [by apply Hshape|]. split.
  - intros p Hp. rewrite Hn in Hp. split; [by apply Hshape|].
    rewrite verify_link_code_eq. unfold hash_code. by rewrite Hp, Hn, String.eqb_refl.
  - intros p Hv. rewrite verify_link_code_eq in Hv. apply String.eqb_eq in Hv.
    unfold hash_code in Hv.
    destruct (String.eqb_spec (normalize_code p) (normalize_code (dashed chars))) as [He|He]; [by left|].
    right. by exists (normalize_code p), (normalize_code (dashed chars)).
Qed.
End link_theorems.

Lemma generate_redeemable_witness :
  let R : Rng := fun n => Z.of_nat n in
  let _ : Sha256 := fun s => s in
  (12 <= useful 0 12)%nat /\
  exists c pos', generate 12 0 = Some (c, pos') /\ display c = "abcd-efgh-jkmn" /\
    validate_shape "ABCD EFGH JKMN" = Ok tt /\
    verify_link_code (hash c) "ABCD EFGH JKMN" = true.
Proof.
  intros R S. assert (Hu : (12 <= useful 0 12)%nat) by (vm_compute; lia). split; [exact Hu|].
  destruct (generate_redeemable 12 0 Hu) as (c & pos' & Hg & _ & Hp & _).
  exists c, pos'. assert (Hd : display c = "abcd-efgh-jkmn").
  { vm_compute in Hg. by injection Hg as <- <-. }
  split; [exact Hg|]. split; [exact Hd|]. apply Hp. by rewrite Hd.
Defined.

Section jwt_theorems.
Context `{SerdeJson} `{Base64} `{Jwt}.

Lemma verify_iff now token secret c :
  verify now token secret = Ok c <->
  exists h b s tag json,
    split_char "."%char token = [h; b; s] /\ b64_decode s = Ok tag /\
    hmac_sha256 secret (h +:+ "." +:+ b) = Some tag /\
    b64_decode b = Ok json /\ claims_from_slice json = Ok c /\ now <= exp c.
Proof.
  unfold verify. split.
  - destruct (split_char "."%char token) as [|h [|b [|s [|]]]]; try discriminate.
    destruct (b64_decode s) as [sig|] eqn:Hs; [|discriminate].
    destruct (hmac_sha256 secret (h +:+ "." +:+ b)) as [tag|] eqn:Ht; [|discriminate].
    destruct (String.eqb_spec sig tag) as [->|]; [|discriminate].
    destruct (b64_decode b) as [json|] eqn:Hb; [|discriminate].
    destruct (claims_from_slice json) as [c'|] eqn:Hc; [|discriminate].
    destruct (Z.ltb_spec (exp c') now); [discriminate|]. intros [= ->].
    by exists h, b, s, tag, json.
  - intros (h & b & s & tag & json & -> & -> & -> & -> & -> & Hn).
    rewrite String.eqb_refl. destruct (Z.ltb_spec (exp c) now); [lia|done].
Qed.

Lemma sign_split c secret token :
  Base64Laws -> sign c secret = Ok token ->
  exists json tag, claims_to_string c = Ok json /\
    split_char "."%char token = [b64_encode jwt_header; b64_encode json; b64_encode tag] /\
    hmac_sha256 secret (b64_encode jwt_header +:+ "." +:+ b64_encode json) = Some tag.
Proof.
  intros HB. unfold sign. destruct (claims_to_string c) as [json|]; [|discriminate].
  destruct (hmac_sha256 _ _) as [tag|] eqn:Ht; [|discriminate]. intros [= <-].
  exists json, tag. split; [done|]. split; [|done].
  rewrite !append_assoc.
  change (split_char "." (b64_encode jwt_header +:+ String "."
            (b64_encode json +:+ String "." (b64_encode tag)))
          = [b64_encode jwt_header; b64_encode json; b64_encode tag]).
  by rewrite (split_char_app _ (b64_encode jwt_header)), (split_char_app _ (b64_encode json)),
    split_char_none by apply b64_no_dot.
Qed.

(** [verify] accepts a token with some claims exactly when it has three
    parts, the third decodes to the HMAC of the first two under the secret, the
    second decodes to the claims, and the claims have not expired (the second of
    expiry included).  A token made by [sign] is accepted with the claims it was
    made of until then, and then refused. *)
Theorem jwt_verify_spec (now : Z) (token secret : string) (c : Claims) :
  (verify now token secret = Ok c <->
   exists h b s tag json,
     split_char "."%char token = [h; b; s] /\ b64_decode s = Ok tag /\
     hmac_sha256 secret (h +:+ "." +:+ b) = Some tag /\
     b64_decode b = Ok json /\ claims_from_slice json = Ok c /\ now <= exp c) /\
  (Base64Laws -> JwtLaws -> sign c secret = Ok token ->
   verify now token secret =
     if exp c <? now then Err (PermissionDenied "token expired") else Ok c).
Proof.
  split; [apply verify_iff|]. intros HB HJ Hs.
  destruct (sign_split _ _ _ HB Hs) as (json & tag & Hj & Hsp & Ht).
  unfold verify. rewrite Hsp, !b64_round_trip, Ht, String.eqb_refl.
  by rewrite (claims_round_trip _ _ Hj).
Qed.
End jwt_theorems.

(** *** Concrete codecs for the witnesses *)

(** Base 16 instead of base 64. *)
Definition nibble (n : N) : Ascii.ascii := Ascii.ascii_of_N (97 + n).
Definition unnibble (c : Ascii.ascii) : N := (Ascii.N_of_ascii c - 97)%N.
Fixpoint hex16 (s : string) : string :=
  match s with
  | EmptyString => ""
  | String c s' => String (nibble (Ascii.N_of_ascii c / 16))
                     (String (nibble (Ascii.N_of_ascii c mod 16)) (hex16 s'))
  end.
Fixpoint unhex16 (s : string) : result string string :=
  match s with
  | EmptyString => Ok ""
  | String a (String b s') =>
      match unhex16 s' with
      | Ok r => Ok (String (Ascii.ascii_of_N (16 * unnibble a + unnibble b)) r)
      | Err e => Err e
      end
  | String _ EmptyString => Err "odd length"
  end.
Definition demo_b64 : Base64 := Build_Base64 hex16 unhex16.

Lemma nibbles c :
  Ascii.ascii_of_N (16 * unnibble (nibble (Ascii.N_of_ascii c / 16))
                    + unnibble (nibble (Ascii.N_of_ascii c mod 16))) = c /\
  Ascii.eqb (nibble (Ascii.N_of_ascii c / 16)) "." = false /\
  Ascii.eqb (nibble (Ascii.N_of_ascii c mod 16)) "." = false.
Proof.
  pose proof (all_ascii (fun c =>
    Ascii.eqb (Ascii.ascii_of_N (16 * unnibble (nibble (Ascii.N_of_ascii c / 16))
                    + unnibble (nibble (Ascii.N_of_ascii c mod 16)))) c
    && (negb (Ascii.eqb (nibble (Ascii.N_of_ascii c / 16)) ".")
        && negb (Ascii.eqb (nibble (Ascii.N_of_ascii c mod 16)) ".")))
    ltac:(vm_compute; reflexivity) c) as Hc. cbv beta in Hc.
  apply andb_prop in Hc as [H1 [H2 H3]%andb_prop].
  split; [by apply Ascii.eqb_eq in H1|]. split; by apply negb_true_iff.
Qed.

Lemma demo_b64_laws : @Base64Laws demo_b64.
Proof.
  constructor; intros s; simpl; induction s as [|c s IH]; try done; cbn [hex16 unhex16 contains_char];
    destruct (nibbles c) as (H1 & H2 & H3).
  - by rewrite IH, H1.
  - by rewrite H2, H3, IH.
Qed.

(** Claims of one shape, and a keyed checksum. *)
Definition demo_claims : Claims := mkClaims "act_alice" "ws_team" ["admin"] 1000 4600.
Definition demo_jwt : Jwt := {|
  hmac_sha256 key s := Some (show_Z (str_len key * 1000 + str_len s));
  claims_to_string c := if decide (sub c = "act_alice" /\ iss c = "ws_team" /\ roles c = ["admin"]
                                   /\ iat c = 1000 /\ exp c = 4600) then Ok "alice" else Err "unknown";
  claims_from_slice s := if String.eqb s "alice" then Ok demo_claims else Err "unknown";
|}.
Lemma demo_jwt_laws : @JwtLaws demo_jwt.
Proof.
  constructor. intros c s. simpl. case_decide as H; [|discriminate]. intros [= <-]. simpl.
  destruct c, H as (?&?&?&?&?); simpl in *; by subst.
Qed.

Lemma jwt_verify_spec_witness :
  let token := match @sign demo_serde demo_b64 demo_jwt demo_claims "key" with Ok t => t | Err _ => "" end in
  @verify demo_b64 demo_jwt 4600 token "key" = Ok demo_claims /\
  @verify demo_b64 demo_jwt 4601 token "key" = Err (PermissionDenied "token expired") /\
  @verify demo_b64 demo_jwt 4600 token "other" = Err (PermissionDenied "invalid signature").
Proof.
  intros token. split; [|split].
  - apply (@jwt_verify_spec demo_serde demo_b64 demo_jwt 4600 token "key" demo_claims);
      [exact demo_b64_laws|exact demo_jwt_laws|vm_compute; reflexivity].
  - apply (@jwt_verify_spec demo_serde demo_b64 demo_jwt 4601 token "key" demo_claims);
      [exact demo_b64_laws|exact demo_jwt_laws|vm_compute; reflexivity].
  - vm_compute. reflexivity.
Defined.

(** The cast of [is_allowed_char] keeps eight bits of the code point: U+0161
    passes for an [a].  [validate_shape] never asks about such a character. *)
Example allowed_by_truncation : is_allowed_char 353 = true /\ is_allowed_char 241 = false.
Proof. split; reflexivity. Qed.

(** The characters the alphabet leaves out are the letters and digits of
    [DISALLOWED_CHARS]. *)
Lemma disallowed_complete c :
  is_alnum c = true -> is_allowed_char (byte c) = negb (contains_char c DISALLOWED_CHARS).
Proof.
  pose proof (all_ascii (fun c => negb (is_alnum c)
    || Bool.eqb (is_allowed_char (byte c)) (negb (contains_char c DISALLOWED_CHARS)))
    ltac:(vm_compute; reflexivity) c) as Hc. cbv beta in Hc.
  intros Ha. apply orb_prop in Hc as [Hc|Hc]; [by rewrite Ha in Hc|]. by apply Bool.eqb_prop.
Qed.
