(* ===== verification/Primitives.v ===== *)
(** * Three small crates over the ledger

    Compensation plans ([actant-compensation/src/lib.rs]) say how the effect of a
    reversible tool is undone; they sit in a table of their own that refers to
    workspaces and effects.  Autonomy drift ([actant-drift/src/lib.rs]) scores a
    session from the events of its chronicle, in binary64, and writes a signal when
    the score exceeds a threshold; the JSON text of a score is serde's, a parameter.
    The tenant boundary ([actant-tenant/src/lib.rs]) is the context of an
    authenticated request: role checks, and the check that an event belongs to the
    principal's workspace. *)

From Stdlib Require Import SpecFloat.
From S2P Require Import Prelude Str Json Compat Core Storage Auth.
#[local] Open Scope string_scope.
#[local] Open Scope list_scope.
#[local] Open Scope Z_scope.

(** ** Compensation plans *)

Inductive UndoCapability := Irreversible | Reversible | Logical.
#[global] Instance UndoCapability_eq_dec : EqDecision UndoCapability.
Proof. solve_decision. Defined.

Record CompensationPlan := mkCompensationPlan {
  cp_id : string; cp_effect_id : string; cp_undo_capability : UndoCapability;
  cp_compensation_effect_type : option string; cp_pre_state_artifact_ref : option string
}.
Record PlanRow := mkPlanRow {
  pl_id : string; pl_workspace_id : string; pl_effect_id : string; pl_undo_capability : string;
  pl_compensation_effect_type : option string; pl_pre_state_artifact_ref : option string;
  pl_created_at : string; pl_consumed_at : option string
}.
(** The ledger, the ids of the effects, and the plans. *)
Record CompWorld := mkCompWorld { base : World; effect_ids : gset string; plans : gmap string PlanRow }.
#[local] Abbreviation Comp A := (M CompWorld ActantError A).

Definition on_base {A} (m : DB A) : Comp A :=
  fun w => let '(r, b) := m (base w) in (r, mkCompWorld b (effect_ids w) (plans w)).
Definition set_plans (x : gmap string PlanRow) (w : CompWorld) : CompWorld := mkCompWorld (base w) (effect_ids w) x.

Definition insert_plan (r : PlanRow) : Comp unit :=
  fun w =>
    if has (plans w) (pl_id r) then (Err (unique_failed "compensation_plan.id"), w)
    else if has (workspaces (ledger (base w))) (pl_workspace_id r) && bool_decide (pl_effect_id r ∈ effect_ids w)
    then (Ok tt, set_plans (<[pl_id r := r]> (plans w)) w)
    else (Err fk_failed, w).

Definition effect_type_of (u : UndoCapability) : option string :=
  match u with
  | Reversible => Some "file.restore"
  | Logical => Some "flag.unset"
  | Irreversible => None
  end.
Definition capability_text (u : UndoCapability) : string :=
  match u with Reversible => "reversible" | Logical => "logical" | Irreversible => "irreversible" end.

Section compensation.
Context `{Env}.

Definition generate (workspace effect : string) (undo_capability : UndoCapability)
    (pre_state_artifact_ref : option string) : Comp (option CompensationPlan) :=
  if bool_decide (undo_capability = Irreversible) then mret None
  else
    let compensation_effect_type := effect_type_of undo_capability in
    id ← on_base (new_id "comp");
    now ← on_base now_rfc3339;
    insert_plan (mkPlanRow id workspace effect (capability_text undo_capability) compensation_effect_type
      pre_state_artifact_ref now None);;
    mret (Some (mkCompensationPlan id effect undo_capability compensation_effect_type pre_state_artifact_ref)).

Definition consume (now : string) (r : PlanRow) : PlanRow :=
  mkPlanRow (pl_id r) (pl_workspace_id r) (pl_effect_id r) (pl_undo_capability r) (pl_compensation_effect_type r)
    (pl_pre_state_artifact_ref r) (pl_created_at r) (Some now).
Definition mark_consumed (plan_id : string) : Comp unit :=
  now ← on_base now_rfc3339;
  modify_st (fun w => set_plans (alter (consume now) plan_id (plans w)) w).

(** What the database holds: the streams move on, the tables are as before. *)
Definition same_tables (w w' : CompWorld) : Prop :=
  ledger (base w') = ledger (base w) /\ effect_ids w' = effect_ids w /\ plans w' = plans w.

(** An irreversible effect gets no plan and nothing happens; any other gets a new
    plan for itself, not consumed, whose inverse is that of its capability, or the
    call fails and the tables are as they were. *)
Theorem generate_spec (workspace effect : string) (u : UndoCapability) (pre : option string) (w w' : CompWorld)
    (r : result ActantError (option CompensationPlan)) :
  generate workspace effect u pre w = (r, w') ->
  match r with
  | Ok None => u = Irreversible /\ w' = w
  | Ok (Some p) =>
      u <> Irreversible /\ p = mkCompensationPlan (cp_id p) effect u (effect_type_of u) pre /\
      is_Some (effect_type_of u) /\ plans w !! cp_id p = None /\ effect ∈ effect_ids w /\
      is_Some (workspaces (ledger (base w)) !! workspace) /\
      exists now, plans w' = <[cp_id p := mkPlanRow (cp_id p) workspace effect (capability_text u)
                                 (effect_type_of u) pre now None]> (plans w)
  | Err _ => u <> Irreversible /\ same_tables w w'
  end.
Proof.
  unfold generate. case_bool_decide as Hu; [by intros [= <- <-]|].
  unfold mbind, M_bind, on_base, insert_plan. simpl. unfold has at 1. case_bool_decide as Hf; [by intros [= <- <-]|].
  destruct (has _ workspace && _) eqn:Hk; [|by intros [= <- <-]]. intros [= <- <-]. simpl.
  apply andb_prop in Hk as [Hw He%bool_decide_eq_true_1]. unfold has in Hw. apply bool_decide_eq_true_1 in Hw.
  split; [done|]. split; [done|]. split; [by destruct u|].
  split; [by apply eq_None_not_Some|]. split; [done|]. split; [done|]. by eexists.
Qed.

(** Marking a plan leaves every other plan alone, and only stamps that one. *)
Theorem mark_consumed_spec (plan_id : string) (w : CompWorld) :
  let w' := (mark_consumed plan_id w).2 in
  (mark_consumed plan_id w).1 = Ok tt /\ ledger (base w') = ledger (base w) /\ effect_ids w' = effect_ids w /\
  plans w' !! plan_id = consume (clock (time (base w))) <$> plans w !! plan_id /\
  (forall id, id <> plan_id -> plans w' !! id = plans w !! id).
Proof.
  cbv zeta. unfold mark_consumed, mbind, M_bind, on_base. simpl. split; [done|]. split; [done|]. split; [done|].
  split; [by rewrite lookup_alter_eq|]. intros id Hne. by rewrite lookup_alter_ne.
Qed.
End compensation.

(** ** Autonomy drift *)

Record DriftScore := mkDriftScore {
  score : f64; approval_density : f64; denial_rate : f64; error_rate : f64; tool_calls_seen : Z
}.
Definition exceeds (s : DriftScore) (threshold : f64) : bool := f64_ltb threshold (score s).

(** The counters of [score_session], as [u64]. *)
Record Counts := mkCounts {
  n_calls : Z; n_required : Z; n_denied : Z; n_finished : Z; n_errors : Z
}.
(** [json!] text looked for in a payload. *)
Definition status_error : string :=
  let q := String "034"%char "" in q +:+ "status" +:+ q +:+ ":" +:+ q +:+ "error" +:+ q.
Definition error_key : string := let q := String "034"%char "" in q +:+ "error" +:+ q +:+ ":".
Definition reports_error (e : AgentEvent) : bool :=
  match ev_payload_inline e with
  | Some p => str_contains status_error p || str_contains error_key p
  | None => false
  end.

Definition count_event (c : Counts) (e : AgentEvent) : Counts :=
  let t := ev_event_type e in
  if String.eqb t "tool_call_requested" then mkCounts (n_calls c + 1) (n_required c) (n_denied c) (n_finished c) (n_errors c)
  else if String.eqb t "approval_required" then mkCounts (n_calls c) (n_required c + 1) (n_denied c) (n_finished c) (n_errors c)
  else if String.eqb t "approval_denied" then mkCounts (n_calls c) (n_required c) (n_denied c + 1) (n_finished c) (n_errors c)
  else if String.eqb t "tool_call_finished" then
    mkCounts (n_calls c) (n_required c) (n_denied c) (n_finished c + 1) (n_errors c + if reports_error e then 1 else 0)
  else c.
Definition count_events (es : list AgentEvent) : Counts := fold_left count_event es (mkCounts 0 0 0 0 0).

Definition ratio (a b : Z) : f64 := if b =? 0 then f64_of_Z 0 else f64_div (f64_of_Z a) (f64_of_Z b).
Definition score_of (es : list AgentEvent) : DriftScore :=
  let c := count_events es in
  let density := ratio (n_required c) (n_calls c) in
  let denied := ratio (n_denied c) (n_required c) in
  let errors := ratio (n_errors c) (n_finished c) in
  mkDriftScore (f64_div (f64_add (f64_add density denied) errors) (f64_of_Z 3)) density denied errors (n_calls c).
Definition score_session (session : string) : DB DriftScore :=
  rows ← events_in_session session; mret (score_of rows).

(** ** The signal *)

Record SignalRow := mkSignalRow {
  ds_id : string; ds_workspace_id : string; ds_session_id : string; ds_actor_id : string;
  ds_score : f64; ds_components : string; ds_created_at : string
}.
Record DriftWorld := mkDriftWorld { below : World; signals : gmap string SignalRow }.
#[local] Abbreviation Drift A := (M DriftWorld ActantError A).
Definition on_ledger {A} (m : DB A) : Drift A :=
  fun w => let '(r, b) := m (below w) in (r, mkDriftWorld b (signals w)).
Definition insert_signal (r : SignalRow) : Drift unit :=
  fun w =>
    let l := ledger (below w) in
    if has (signals w) (ds_id r) then (Err (unique_failed "drift_signal.id"), w)
    else if has (workspaces l) (ds_workspace_id r) && has (sessions l) (ds_session_id r) && has (actors l) (ds_actor_id r)
    then (Ok tt, mkDriftWorld (below w) (<[ds_id r := r]> (signals w)))
    else (Err fk_failed, w).

Section drift.
Context `{Env} (encode : DriftScore -> string).

Definition record_if_drifting (workspace actor session : string) (threshold : f64) : Drift (option string) :=
  s ← on_ledger (score_session session);
  if negb (exceeds s threshold) then mret None
  else
    id ← on_ledger (new_id "ds");
    now ← on_ledger now_rfc3339;
    insert_signal (mkSignalRow id workspace session actor (score s) (encode s) now);;
    mret (Some id).

(** ** What the score counts *)

Definition of_type (t : string) (e : AgentEvent) : bool := String.eqb (ev_event_type e) t.
Definition number_of (f : AgentEvent -> bool) (es : list AgentEvent) : Z := Z.of_nat (length (List.filter f es)).

Lemma number_cons f e es : number_of f (e :: es) = number_of f es + if f e then 1 else 0.
Proof. unfold number_of. simpl. destruct (f e); simpl; lia. Qed.

Theorem counts_are_numbers (es : list AgentEvent) :
  count_events es = mkCounts (number_of (of_type "tool_call_requested") es) (number_of (of_type "approval_required") es)
    (number_of (of_type "approval_denied") es) (number_of (of_type "tool_call_finished") es)
    (number_of (fun e => of_type "tool_call_finished" e && reports_error e) es).
Proof.
  unfold count_events.
  assert (Hg : forall es c, fold_left count_event es c =
    mkCounts (n_calls c + number_of (of_type "tool_call_requested") es) (n_required c + number_of (of_type "approval_required") es)
      (n_denied c + number_of (of_type "approval_denied") es) (n_finished c + number_of (of_type "tool_call_finished") es)
      (n_errors c + number_of (fun e => of_type "tool_call_finished" e && reports_error e) es)).
  { clear es. induction es as [|e es IH]; intros c.
    - unfold number_of. destruct c. simpl. f_equal; lia.
    - cbn [fold_left]. rewrite IH, !number_cons. unfold count_event, of_type. cbv zeta beta.
      repeat match goal with |- context [String.eqb ?a ?b] => destruct (String.eqb_spec a b); [try congruence|] end;
        simpl; try (destruct (reports_error e)); simpl; f_equal; lia. }
  rewrite Hg. simpl. done.
Qed.

(** A signal is written exactly when the score of the session exceeds the
    threshold: a new row with the score; a failure, and a score below, leave the
    tables as they were. *)
Theorem drift_recorded (workspace actor session : string) (threshold : f64) (w w' : DriftWorld)
    (r : result ActantError (option string)) :
  record_if_drifting workspace actor session threshold w = (r, w') ->
  let s := score_of (List.map er_event (select_events (in_session session) (ledger (below w)))) in
  ledger (below w') = ledger (below w) /\
  match r with
  | Ok None => exceeds s threshold = false /\ signals w' = signals w
  | Ok (Some id) => exceeds s threshold = true /\ signals w !! id = None /\
      exists now, signals w' = <[id := mkSignalRow id workspace session actor (score s) (encode s) now]> (signals w)
  | Err _ => exceeds s threshold = true /\ signals w' = signals w
  end.
Proof.
  unfold record_if_drifting, score_session, events_in_session, mbind, M_bind, on_ledger. simpl.
  set (s := score_of _). destruct (exceeds s threshold); simpl; [|by intros [= <- <-]].
  unfold insert_signal. simpl. unfold has at 1. case_bool_decide as Hf; [by intros [= <- <-]|].
  destruct (_ && _); intros [= <- <-]; simpl; [|done]. split; [done|]. split; [done|].
  split; [by apply eq_None_not_Some|]. by eexists.
Qed.
End drift.

(** ** The tenant boundary *)

(** The storage handle of the context is the state of the computations. *)
Record TenantContext := mkTenantContext { principal : Principal }.
Definition workspace (c : TenantContext) : string := p_workspace_id (principal c).
Definition actor (c : TenantContext) : string := p_actor_id (principal c).

Definition has_role (c : TenantContext) (role : string) : bool :=
  List.existsb (fun r => String.eqb r role) (p_roles (principal c)).

(** [{:?}] of a vector of strings. *)
Definition debug_strings `{DebugString} (l : list string) : string :=
  "[" +:+ join ", " (List.map debug_string l) +:+ "]".
Definition require_role `{DebugString} (c : TenantContext) (role : string) : result ActantError unit :=
  if has_role c role then Ok tt
  else Err (PermissionDenied ("role " +:+ role +:+ " required; got " +:+ debug_strings (p_roles (principal c)))).

Definition assert_event_in_tenant (c : TenantContext) (event_id : string) : DB unit :=
  row ← read (fun l => events l !! event_id);
  match row with
  | None => throw (NotFound ("event " +:+ event_id))
  | Some r =>
      if negb (String.eqb (ev_workspace_id (er_event r)) (workspace c))
      then throw (PermissionDenied ("event " +:+ event_id +:+ " belongs to another tenant"))
      else mret tt
  end.

Record Group := mkGroup { g_name : string; g_roles : list string; g_members : list string }.
Definition contains (g : Group) (actor_id : string) : bool :=
  List.existsb (fun m => String.eqb m actor_id) (g_members g).

Lemma has_role_iff c role : has_role c role = true <-> In role (p_roles (principal c)).
Proof.
  unfold has_role. rewrite List.existsb_exists. split.
  - by intros (r & Hr & ->%String.eqb_eq).
  - intros Hr. exists role. by rewrite String.eqb_refl.
Qed.

(** The check passes exactly for an event of the principal's own workspace, changes
    nothing, and tells a missing event from a foreign one. *)
Theorem tenant_guard (c : TenantContext) (event_id : string) (w : World) :
  let '(r, w') := assert_event_in_tenant c event_id w in
  w' = w /\
  (r = Ok tt <-> exists e, events (ledger w) !! event_id = Some e /\ ev_workspace_id (er_event e) = workspace c) /\
  (forall m, r = Err (NotFound m) -> events (ledger w) !! event_id = None) /\
  (forall m, r = Err (PermissionDenied m) ->
     exists e, events (ledger w) !! event_id = Some e /\ ev_workspace_id (er_event e) <> workspace c).
Proof.
  unfold assert_event_in_tenant, mbind, M_bind. simpl.
  destruct (events (ledger w) !! event_id) as [e|]; simpl.
  - destruct (String.eqb_spec (ev_workspace_id (er_event e)) (workspace c)) as [He|Hn]; simpl; split; try done;
      (split; [split; [|]; try done; eauto|split; intros m; try done; eauto]).
    by intros (? & [= <-] & ?).
  - split; [done|]. split; [split; [done|by intros (? & ? & _)]|]. by split.
Qed.
