(* ===== verification/Server.v ===== *)
(** * The server's state, requests and responses ([actant-server/src/lib.rs])

    One value holds what the handlers share: the ledger, the tables of
    [migrations/0004_auth.sql], the token buckets and failure counters behind
    their mutexes, the subscription hub and the command counters, and the
    positions in the environment's streams (two clocks and the random bytes).  A
    handler is a program of atomic statements that answers a [Response], by value
    or by an early return. *)

From S2P Require Import Prelude Str Json Core Predicate Storage Throttle Auth Prog.
#[local] Open Scope string_scope.
#[local] Open Scope list_scope.
#[local] Open Scope Z_scope.

(** ** Responses and header maps *)

Record Response := mkResponse { status : Z; headers : list (string * string); body : Json }.

Definition json_response (st : Z) (b : Json) : Response := mkResponse st [] b.
Definition error_body (code : string) : Json := jobj [("error", JString code)].
Definition error_message (code message : string) : Json :=
  jobj [("error", JString code); ("message", JString message)].

Definition err_status (e : ActantError) : Z :=
  match e with
  | InvalidInput _ => 400
  | NotFound _ => 404
  | PermissionDenied _ => 403
  | ApprovalRequired_ _ => 202
  | ApprovalDenied _ => 403
  | IdempotentReplay _ => 200
  | Conflict _ => 409
  | NotImplemented _ => 501
  | PolicyHalt _ => 403
  | Core.Storage _ | Internal _ => 500
  end.

Definition err_response (e : ActantError) : Response :=
  json_response (err_status e)
    (jobj [("error", JString (code e)); ("code", JString (code e));
           ("message", JString (Core.display e)); ("hint", JString (hint e));
           ("fix", match fix_ e with Some f => JString f | None => JNull end)]).

(** A [HeaderMap]: names in lower case, a name possibly more than once. *)
Definition HeaderMap : Type := list (string * string).

Fixpoint header_find (name : string) (h : HeaderMap) : option string :=
  match h with
  | [] => None
  | (n, v) :: h' => if String.eqb name n then Some v else header_find name h'
  end.
(** [headers.get(name)]: the first value; the name is looked up in lower case. *)
Definition header_get (name : string) (h : HeaderMap) : option string :=
  header_find (to_ascii_lowercase name) h.
Definition contains_key (name : string) (h : HeaderMap) : bool :=
  bool_decide (is_Some (header_get name h)).

(** [HeaderValue::to_str]: visible ASCII, spaces and tabs only. *)
Definition to_str (v : string) : option string :=
  if all_chars (fun c => ((32 <=? byte c) && (byte c <? 127)) || (byte c =? 9)) v then Some v else None.
Definition header_str (name : string) (h : HeaderMap) : option string :=
  v ← header_get name h; to_str v.

(** The token of an [Authorization: Bearer] header. *)
Definition bearer (h : HeaderMap) : option string :=
  v ← header_str "authorization" h; strip_prefix "Bearer " v.

Inductive Method := GET | HEAD | OPTIONS | POST | PUT | PATCH | DELETE.
#[global] Instance Method_eq_dec : EqDecision Method.
Proof. solve_decision. Defined.
(** [matches!(method, GET | HEAD | OPTIONS)]. *)
Definition is_safe (m : Method) : bool :=
  match m with GET | HEAD | OPTIONS => true | _ => false end.

Fixpoint first_session_cookie (pieces : list string) : option string :=
  match pieces with
  | [] => None
  | piece :: rest =>
      match strip_prefix (COOKIE_NAME +:+ "=") (trim piece) with
      | Some EmptyString | None => first_session_cookie rest
      | Some v => Some v
      end
  end.
(** [extract_session_cookie]. *)
Definition extract_session_cookie (h : HeaderMap) : option string :=
  raw ← header_str "cookie" h; first_session_cookie (split_char ";"%char raw).

Definition build_session_cookie (token : string) (ttl_secs : Z) (secure : bool) : string :=
  COOKIE_NAME +:+ "=" +:+ token +:+ "; Path=/; HttpOnly; SameSite=Lax; Max-Age=" +:+ show_Z ttl_secs
    +:+ (if secure then "; Secure" else "").
Definition clear_session_cookie (secure : bool) : string :=
  COOKIE_NAME +:+ "=; Path=/; HttpOnly; SameSite=Lax; Max-Age=0" +:+ (if secure then "; Secure" else "").

(** ** State *)

Record OwnerRow := mkOwnerRow {
  ow_owner_actor_id : string; ow_password_hash : option string;
  ow_password_set_at : option string; ow_created_at : string
}.
Record CodeRow := mkCodeRow {
  lc_workspace_id : string; lc_expires_at : string; lc_claimed_at : option string;
  lc_claimed_by_actor_id : option string; lc_created_at : string
}.
Record SessionRow := mkSessionRow {
  st_owner_actor_id : string; st_workspace_id : string; st_csrf_secret : string;
  st_created_at : string; st_expires_at : string; st_revoked_at : option string
}.

(** The tables of [0004_auth.sql], by primary key. *)
Record AuthDb := mkAuthDb {
  workspace_owner : gmap string OwnerRow;
  link_code : gmap string CodeRow;
  session_token : gmap string SessionRow
}.
Definition set_owner (ws : string) (r : OwnerRow) (d : AuthDb) : AuthDb :=
  mkAuthDb (<[ws := r]> (workspace_owner d)) (link_code d) (session_token d).
Definition set_code (h : string) (r : CodeRow) (d : AuthDb) : AuthDb :=
  mkAuthDb (workspace_owner d) (<[h := r]> (link_code d)) (session_token d).
Definition set_codes (m : gmap string CodeRow) (d : AuthDb) : AuthDb :=
  mkAuthDb (workspace_owner d) m (session_token d).
Definition set_session (h : string) (r : SessionRow) (d : AuthDb) : AuthDb :=
  mkAuthDb (workspace_owner d) (link_code d) (<[h := r]> (session_token d)).

(** The buckets and counters behind mutexes. *)
Record Limiters := mkLimiters {
  lim_command : gmap string Bucket;   (* per workspace *)
  lim_link : gmap string Bucket;      (* per client address *)
  lim_login : gmap string Bucket;     (* per workspace and address *)
  login_failures : gmap string Z
}.

(** Readings and bytes drawn so far. *)
Record Drawn := mkDrawn { unix_reads : nat; instant_reads : nat; random_pos : nat }.

Record Server := mkServer {
  world : World; auth : AuthDb; limiters : Limiters; drawn : Drawn;
  hub : SubscribeHub; command_counts : gmap (string * string) Z
}.
Definition with_world (f : World -> World) (s : Server) : Server :=
  mkServer (f (world s)) (auth s) (limiters s) (drawn s) (hub s) (command_counts s).
Definition with_auth_db (f : AuthDb -> AuthDb) (s : Server) : Server :=
  mkServer (world s) (f (auth s)) (limiters s) (drawn s) (hub s) (command_counts s).
Definition with_limiters (f : Limiters -> Limiters) (s : Server) : Server :=
  mkServer (world s) (auth s) (f (limiters s)) (drawn s) (hub s) (command_counts s).
Definition with_drawn (f : Drawn -> Drawn) (s : Server) : Server :=
  mkServer (world s) (auth s) (limiters s) (f (drawn s)) (hub s) (command_counts s).
Definition with_hub (f : SubscribeHub -> SubscribeHub) (s : Server) : Server :=
  mkServer (world s) (auth s) (limiters s) (drawn s) (f (hub s)) (command_counts s).
Definition with_counts (f : gmap (string * string) Z -> gmap (string * string) Z) (s : Server) : Server :=
  mkServer (world s) (auth s) (limiters s) (drawn s) (hub s) (f (command_counts s)).

(** The fields of [AppState] that no request changes. *)
Record Config := mkConfig {
  auth_secret : option string; rate_policy : option Policy;
  local_mode : bool; tls_enabled : bool; trust_proxy : bool
}.
(** [AppState::new] and its builders. *)
Definition new_state : Config := mkConfig None None true false false.
Definition with_local_mode (b : bool) (c : Config) : Config :=
  mkConfig (auth_secret c) (rate_policy c) b (tls_enabled c) (trust_proxy c).
Definition with_tls_enabled (b : bool) (c : Config) : Config :=
  mkConfig (auth_secret c) (rate_policy c) (local_mode c) b (trust_proxy c).
Definition with_trust_proxy (b : bool) (c : Config) : Config :=
  mkConfig (auth_secret c) (rate_policy c) (local_mode c) (tls_enabled c) b.
Definition with_auth (secret : string) (c : Config) : Config :=
  mkConfig (Some secret) (rate_policy c) (local_mode c) (tls_enabled c) (trust_proxy c).
Definition with_rate_limit (p : Policy) (c : Config) : Config :=
  mkConfig (auth_secret c) (Some p) (local_mode c) (tls_enabled c) (trust_proxy c).

(** The clocks of the process and the [time] crate's RFC 3339 codec. *)
Class ServerEnv := {
  unix_clock : nat -> Z;               (* seconds of the wall clock *)
  instant : nat -> Z;                  (* nanoseconds of the monotonic clock *)
  iso_of_unix : Z -> option string;
  unix_of_iso : string -> option Z;
}.

(** ** Statements *)

Notation H A := (prog Server Response A).

(** A computation on the ledger as one statement of the server. *)
Definition on_world {E A} (m : M World E A) : M Server E A :=
  fun s => let '(r, w) := m (world s) in (r, with_world (fun _ => w) s).

(** A database transaction: an early return rolls its writes back.  What it drew
    from the environment stays drawn. *)
Definition transaction {E A} (m : M Server E A) : M Server E A :=
  fun s => match m s with
           | (Ok a, s') => (Ok a, s')
           | (Err e, s') => (Err e, with_auth_db (fun _ => auth s) s')
           end.

Definition update {E} (f : Server -> Server) : M Server E unit := modify_st f.
Definition look {E A} (f : Server -> A) : M Server E A := fun s => (Ok (f s), s).
Arguments update {E} f s /.
Arguments look {E A} f s /.

Section env.
Context `{Env} `{ServerEnv} `{Rng} `{Sha256} `{Base64}.

Definition now_iso {E} : M Server E string :=
  fun s => (Ok (clock (time (world s))),
            with_world (fun w => mkWorld (ledger w) (seq w) (S (time w))) s).
Definition unix_now {E} : M Server E Z :=
  fun s => (Ok (unix_clock (unix_reads (drawn s))),
            with_drawn (fun d => mkDrawn (S (unix_reads d)) (instant_reads d) (random_pos d)) s).
Definition instant_now {E} : M Server E Z :=
  fun s => (Ok (instant (instant_reads (drawn s))),
            with_drawn (fun d => mkDrawn (unix_reads d) (S (instant_reads d)) (random_pos d)) s).
(** A draw from the random bytes, from the current position on. *)
Definition draw {E A} (f : nat -> A * nat) : M Server E A :=
  fun s => let '(a, p) := f (random_pos (drawn s)) in
           (Ok a, with_drawn (fun d => mkDrawn (unix_reads d) (instant_reads d) p) s).

Definition unix_to_iso {E} (t : Z) : M Server E string :=
  match iso_of_unix t with Some s => mret s | None => now_iso end.

(** [is_past]: no clock reading when the text is no instant. *)
Definition is_past {E} (iso : string) : M Server E bool :=
  match unix_of_iso iso with
  | Some t => now ← unix_now; mret (t <? now)
  | None => mret true
  end.

(** ** Rate limits *)

Definition rate_limited (wait_ns : Z) : Response :=
  let secs := wait_ns / 1000000000 in
  mkResponse 429 [("retry-after", show_Z (Z.max secs 1))]
    (jobj [("error", JString "rate_limited"); ("retry_after_seconds", JNumber (PosInt secs))]).

(** A panic in a handler: axum closes the connection and nothing is answered. *)
Definition panicked : Response := mkResponse 0 [] JNull.

(** [map.entry(key).or_insert_with(|| Bucket::new(policy)).try_consume(1)] under
    the map's mutex; [try_consume] and [refill] read the clock as they go. *)
Definition consume (p : Policy) (get : Limiters -> gmap string Bucket)
    (put : gmap string Bucket -> Limiters -> Limiters) (key : string) : M Server Response unit :=
  m ← look (fun s => get (limiters s));
  b ← match m !! key with
      | Some b => mret b
      | None => t ← instant_now; mret (Throttle.new t p)
      end;
  t1 ← instant_now;
  t2 ← instant_now;
  let '(r, b') := try_consume 1 t1 t2 b in
  update (with_limiters (fun l => put (<[key := b']> (get l)) l));;
  match r with
  | Taken => mret tt
  | Wait ns => throw (rate_limited ns)
  | Panicked => throw panicked
  end.

Definition put_command m l := mkLimiters m (lim_link l) (lim_login l) (login_failures l).
Definition put_link m l := mkLimiters (lim_command l) m (lim_login l) (login_failures l).
Definition put_login m l := mkLimiters (lim_command l) (lim_link l) m (login_failures l).
Definition put_failures m l := mkLimiters (lim_command l) (lim_link l) (lim_login l) m.

(** [enforce_rate_limit]: per workspace, when a policy is installed. *)
Definition enforce_rate_limit (cfg : Config) (workspace_id : string) : H unit :=
  match rate_policy cfg with
  | Some p => stmt (consume p lim_command put_command workspace_id)
  | None => mret tt
  end.
(** [enforce_link_rate]: per client address. *)
Definition enforce_link_rate (ip : option string) : H unit :=
  stmt (consume LINK_RATE_LIMIT lim_link put_link (default "-" ip)).

(** The row a cookie names. *)
Definition session_row (token : string) : H (option SessionRow) :=
  stmt (look (fun s => session_token (auth s) !! hash_token token)).
End env.
