(* ===== verification/AuthRoutes.v ===== *)
(** * Linking, passwords and sessions ([actant-server/src/auth_routes.rs])

    The handlers of [/v1/auth/*], the resolver of principals and the minting of
    linking codes, statement by statement.  The transaction of [link_redeem] holds
    SQLite's write lock from its first statement on, so it is one atomic step
    here, with its rollback.  The delay [login] adds after repeated failures
    changes no state and is left out, with the counter that triggers it kept. *)

From S2P Require Import Prelude Str Json Core Storage Throttle Auth Prog Server.
#[local] Open Scope string_scope.
#[local] Open Scope list_scope.
#[local] Open Scope Z_scope.

Definition DEFAULT_WORKSPACE_ID : string := "ws_default".
Definition LOGIN_TIMING_PAD_AFTER : Z := 5.

Definition storage_error (e : string) : Response := err_response (Core.Storage e).
Definition sql_fk : string := "FOREIGN KEY constraint failed".
Definition sql_unique (what : string) : string := "UNIQUE constraint failed: " +:+ what.

(** ** Statements on the tables of [0004_auth.sql] *)

(** [INSERT OR IGNORE INTO workspace_owner]: the rows affected.  [OR IGNORE] does
    not cover foreign keys. *)
Definition insert_owner (ws : string) (r : OwnerRow) : M Server string Z :=
  fun s =>
    match workspace_owner (auth s) !! ws with
    | Some _ => (Ok 0, s)
    | None =>
        if has (workspaces (ledger (world s))) ws && has (actors (ledger (world s))) (ow_owner_actor_id r)
        then (Ok 1, with_auth_db (set_owner ws r) s)
        else (Err sql_fk, s)
    end.

(** [UPDATE link_code SET claimed_at, claimed_by_actor_id WHERE code_hash = ? AND
    claimed_at IS NULL]. *)
Definition claim_code (h now actor : string) : M Server string Z :=
  fun s =>
    match link_code (auth s) !! h with
    | Some r =>
        if lc_claimed_at r is Some _ then (Ok 0, s)
        else if has (actors (ledger (world s))) actor
        then (Ok 1, with_auth_db (set_code h
                (mkCodeRow (lc_workspace_id r) (lc_expires_at r) (Some now) (Some actor) (lc_created_at r))) s)
        else (Err sql_fk, s)
    | None => (Ok 0, s)
    end.

Definition insert_session_token (h : string) (r : SessionRow) : M Server string unit :=
  fun s =>
    match session_token (auth s) !! h with
    | Some _ => (Err (sql_unique "session_token.token_hash"), s)
    | None =>
        if has (actors (ledger (world s))) (st_owner_actor_id r)
           && has (workspaces (ledger (world s))) (st_workspace_id r)
        then (Ok tt, with_auth_db (set_session h r) s)
        else (Err sql_fk, s)
    end.

(** [UPDATE session_token SET revoked_at WHERE token_hash = ? AND revoked_at IS NULL]. *)
Definition revoke_row (now : string) (r : SessionRow) : SessionRow :=
  mkSessionRow (st_owner_actor_id r) (st_workspace_id r) (st_csrf_secret r) (st_created_at r)
    (st_expires_at r) (match st_revoked_at r with Some t => Some t | None => Some now end).
Definition revoke_session (h now : string) : M Server Response unit :=
  fun s =>
    match session_token (auth s) !! h with
    | Some r => (Ok tt, with_auth_db (set_session h (revoke_row now r)) s)
    | None => (Ok tt, s)
    end.

(** [UPDATE workspace_owner SET password_hash, password_set_at WHERE workspace_id
    = ? AND owner_actor_id = ?]. *)
Definition set_owner_password (ws actor phc now : string) : M Server Response Z :=
  fun s =>
    match workspace_owner (auth s) !! ws with
    | Some r =>
        if String.eqb (ow_owner_actor_id r) actor
        then (Ok 1, with_auth_db (set_owner ws
                (mkOwnerRow (ow_owner_actor_id r) (Some phc) (Some now) (ow_created_at r))) s)
        else (Ok 0, s)
    | None => (Ok 0, s)
    end.

(** ** Answers *)

Definition generic_link_miss (_inner : ActantError) : Response :=
  json_response 404 (error_message "invalid_code" "the linking code is not valid").
Definition already_claimed : Response :=
  json_response 409 (error_message "already_claimed" "this linking code has already been used").
Definition already_owned : Response :=
  json_response 409 (error_message "already_owned" "workspace ownership has already been claimed").
Definition link_expired : Response :=
  json_response 410 (error_message "expired" "this linking code has expired").
Definition unauthenticated : Response := json_response 401 (error_body "unauthenticated").
Definition invalid_token : Response := json_response 401 (error_body "invalid_token").
Definition revoked : Response := json_response 401 (error_body "revoked").
Definition expired : Response := json_response 401 (error_body "expired").
Definition csrf_required : Response :=
  json_response 403 (error_message "csrf_required" "X-CSRF-Token header is required for mutating routes").
Definition csrf_mismatch : Response :=
  json_response 403 (error_message "csrf_mismatch" "X-CSRF-Token does not match session").
Definition invalid_credentials : Response :=
  json_response 401 (error_message "invalid_credentials" "wrong password").
Definition no_owner_row : Response :=
  json_response 404 (error_message "no_owner_row" "owner row missing — link this workspace first").

Definition linked (csrf ws actor cookie : string) : Response :=
  mkResponse 200 [("set-cookie", cookie)]
    (jobj [("status", JString "linked"); ("needs_password", JBool true); ("csrf", JString csrf);
           ("workspace_id", JString ws); ("actor_id", JString actor)]).
Definition logged_in (csrf ws actor cookie : string) : Response :=
  mkResponse 200 [("set-cookie", cookie)]
    (jobj [("status", JString "ok"); ("csrf", JString csrf);
           ("workspace_id", JString ws); ("actor_id", JString actor)]).
Definition password_set : Response := json_response 200 (jobj [("status", JString "set")]).
Definition logged_out (cookie : string) : Response :=
  mkResponse 200 [("set-cookie", cookie)] (jobj [("status", JString "ok")]).

Section routes.
Context `{Env} `{ServerEnv} `{Rng} `{Sha256} `{Base64} `{Argon2} `{Jwt}.

(** A new session for the owner of a workspace, committed [SESSION_TTL_SECS] ahead. *)
Definition mint_session {E} : M Server E (SessionToken * string) :=
  session ← draw new_session;
  t ← unix_now;
  exp_iso ← unix_to_iso (t + SESSION_TTL_SECS);
  mret (session, exp_iso).

(** ** [POST /v1/auth/link] *)

Definition owner_actor_id : string := "act_system".

(** From [begin] to [commit]. *)
Definition link_tx (cfg : Config) (workspace_id code_hash : string) : M Server Response Response :=
  transaction (
    now ← now_iso;
    inserted ← map_err storage_error
      (insert_owner workspace_id (mkOwnerRow owner_actor_id None None now));
    ensure (negb (inserted =? 0)) already_owned;;
    upd ← map_err storage_error (claim_code code_hash now owner_actor_id);
    ensure (upd =? 1) already_claimed;;
    '(session, exp_iso) ← mint_session;
    map_err storage_error (insert_session_token (token_hash session)
      (mkSessionRow owner_actor_id workspace_id (csrf_secret session) now exp_iso None));;
    mret (linked (csrf_secret session) workspace_id owner_actor_id
            (build_session_cookie (plaintext session) SESSION_TTL_SECS (tls_enabled cfg)))).

Definition link_redeem (cfg : Config) (ip : option string) (code : string)
    (req_workspace : option string) : H Response :=
  enforce_link_rate ip;;
  match validate_shape code with
  | Err e => raise (generic_link_miss e)
  | Ok _ =>
      let code_hash := hash_code code in
      row ← stmt (look (fun s => link_code (auth s) !! code_hash));
      match row with
      | None => raise (generic_link_miss (NotFound "link_code"))
      | Some r =>
          if lc_claimed_at r is Some _ then raise already_claimed else
          past ← stmt (is_past (lc_expires_at r));
          if (past : bool) then raise link_expired else
          if match req_workspace with
             | Some p => negb (String.eqb p "") && negb (String.eqb p (lc_workspace_id r))
             | None => false
             end
          then raise (generic_link_miss (PermissionDenied "workspace_id does not match")) else
          if negb (verify_link_code code_hash code)
          then raise (generic_link_miss (PermissionDenied "mismatch")) else
          stmt (link_tx cfg (lc_workspace_id r) code_hash)
      end
  end.

(** ** Principals *)

Definition owner_principal (r : SessionRow) : Principal :=
  mkPrincipal (st_workspace_id r) (st_owner_actor_id r) ["owner"]
    (default 0 (unix_of_iso (st_expires_at r))).

(** The cookie path of [resolve_principal]. *)
Definition resolve_cookie (h : HeaderMap) : H Principal :=
  match extract_session_cookie h with
  | None => raise unauthenticated
  | Some token =>
      row ← session_row token;
      match row with
      | None => raise unauthenticated
      | Some r =>
          if st_revoked_at r is Some _ then raise revoked else
          past ← stmt (is_past (st_expires_at r));
          if (past : bool) then raise expired else mret (owner_principal r)
      end
  end.

(** [verify] reads the clock itself, after the signature; its one reading is drawn
    here first. *)
Definition resolve_principal (cfg : Config) (h : HeaderMap) : H Principal :=
  match bearer h, auth_secret cfg with
  | Some token, Some secret =>
      now ← stmt unix_now;
      match verify now token secret with
      | Ok claims => mret (principal_from_claims claims)
      | Err _ => raise invalid_token
      end
  | _, _ => resolve_cookie h
  end.

Definition presented_csrf (h : HeaderMap) : option string :=
  v ← match header_get CSRF_HEADER h with Some v => Some v | None => header_get "x-csrf-token" h end;
  to_str v.

Definition resolve_principal_for_mutation (cfg : Config) (h : HeaderMap) (m : Method) : H Principal :=
  if is_safe m then resolve_principal cfg h else
  match bearer h with
  | Some _ => resolve_principal cfg h
  | None =>
      match extract_session_cookie h with
      | None => raise unauthenticated
      | Some token =>
          match presented_csrf h with
          | None => raise csrf_required
          | Some presented =>
              row ← session_row token;
              match row with
              | None => raise unauthenticated
              | Some r =>
                  if st_revoked_at r is Some _ then raise revoked else
                  past ← stmt (is_past (st_expires_at r));
                  if (past : bool) then raise expired else
                  if negb (verify_csrf (st_csrf_secret r) presented) then raise csrf_mismatch
                  else mret (owner_principal r)
              end
          end
      end
  end.

(** ** [POST /v1/auth/password] *)

Definition set_password (cfg : Config) (h : HeaderMap) (password : string) : H Response :=
  principal ← resolve_principal_for_mutation cfg h POST;
  hashed ← stmt (draw (fun pos => hash_password pos password));
  match hashed with
  | Err e => raise (err_response e)
  | Ok phc =>
      now ← stmt now_iso;
      rows ← stmt (set_owner_password (p_workspace_id principal) (p_actor_id principal) phc now);
      mret (if rows =? 1 then password_set else no_owner_row)
  end.

(** ** [POST /v1/auth/login] *)

Definition login_key (workspace_id : string) (ip : option string) : string :=
  workspace_id +:+ "|" +:+ default "-" ip.

Definition count_failure (key : string) : M Server Response Z :=
  fun s =>
    let n := u32_saturating_add (default 0 (login_failures (limiters s) !! key)) 1 in
    (Ok n, with_limiters (fun l => put_failures (<[key := n]> (login_failures l)) l) s).
Definition clear_failures (key : string) : M Server Response unit :=
  update (with_limiters (fun l => put_failures (delete key (login_failures l)) l)).

Definition login_workspace (req_workspace : option string) : string :=
  match req_workspace with
  | Some v => if String.eqb v "" then DEFAULT_WORKSPACE_ID else v
  | None => DEFAULT_WORKSPACE_ID
  end.

(** Whether the password is the owner's, and who the owner is. *)
Definition check_owner (password : string) (row : option OwnerRow) : string * bool :=
  match row with
  | Some r =>
      (ow_owner_actor_id r,
       match ow_password_hash r with
       | Some phc => match verify_password password phc with Ok b => b | Err _ => false end
       | None => false
       end)
  | None => (owner_actor_id, false)
  end.

Definition login (cfg : Config) (ip : option string) (password : string)
    (req_workspace : option string) : H Response :=
  let workspace_id := login_workspace req_workspace in
  let key := login_key workspace_id ip in
  stmt (consume LOGIN_RATE_LIMIT lim_login put_login key);;
  row ← stmt (look (fun s => workspace_owner (auth s) !! workspace_id));
  let '(actor, ok) := check_owner password row in
  if negb ok then
    stmt (count_failure key);;
    raise invalid_credentials
  else
    stmt (clear_failures key);;
    minted ← stmt mint_session;
    let '(session, exp_iso) := minted in
    now ← stmt now_iso;
    stmt (map_err storage_error (insert_session_token (token_hash session)
      (mkSessionRow actor workspace_id (csrf_secret session) now exp_iso None)));;
    mret (logged_in (csrf_secret session) workspace_id actor
            (build_session_cookie (plaintext session) SESSION_TTL_SECS (tls_enabled cfg))).

(** ** [POST /v1/auth/logout] and [GET /v1/auth/me] *)

Definition logout (cfg : Config) (h : HeaderMap) : H Response :=
  match extract_session_cookie h with
  | Some plain =>
      now ← stmt now_iso;
      stmt (revoke_session (hash_token plain) now)
  | None => mret tt
  end;;
  mret (logged_out (clear_session_cookie (tls_enabled cfg))).

Definition whoami (cfg : Config) (h : HeaderMap) : H Response :=
  r ← attempt (resolve_principal cfg h);
  mret match r with
       | Ok p => json_response 200
           (jobj [("workspace_id", JString (p_workspace_id p)); ("actor_id", JString (p_actor_id p));
                  ("roles", JArray (List.map JString (p_roles p))); ("auth", JString "cookie_or_bearer")])
       | Err _ => unauthenticated
       end.

(** ** Minting a code at boot *)

(** [DELETE FROM link_code WHERE workspace_id = ? AND claimed_at IS NULL]. *)
Definition delete_unclaimed (ws : string) (d : AuthDb) : AuthDb :=
  set_codes (filter (fun kv : string * CodeRow =>
    ~ (lc_workspace_id kv.2 = ws /\ lc_claimed_at kv.2 = None)) (link_code d)) d.

Definition insert_link_code (h : string) (r : CodeRow) : M Server ActantError unit :=
  fun s =>
    match link_code (auth s) !! h with
    | Some _ => (Err (Core.Storage (sql_unique "link_code.code_hash")), s)
    | None =>
        if has (workspaces (ledger (world s))) (lc_workspace_id r)
        then (Ok tt, with_auth_db (set_code h r) s)
        else (Err (Core.Storage sql_fk), s)
    end.

(** [fuel] bounds the bytes [LinkCode::generate] may draw; [None] of [generate]
    is a loop that goes on. *)
Definition mint_link_code_for (fuel : nat) (ws : string) : prog Server ActantError (option string) :=
  claimed ← stmt (look (fun s => workspace_owner (auth s) !! ws));
  match claimed with
  | Some _ => mret None
  | None =>
      stmt (update (with_auth_db (delete_unclaimed ws)));;
      generated ← stmt (draw (fun pos => match generate fuel pos with
                                        | Some (c, pos') => (Some c, pos')
                                        | None => (None, (fuel + pos)%nat)
                                        end));
      match generated with
      | None => raise (Internal "out of fuel")
      | Some c =>
          t ← stmt unix_now;
          exp_iso ← stmt (unix_to_iso (t + LINK_TTL_SECS));
          now ← stmt now_iso;
          stmt (insert_link_code (hash c) (mkCodeRow ws exp_iso None None now));;
          mret (Some (display c))
      end
  end.

(** [seed_if_empty] of lib.rs. *)
Definition seed_if_empty : prog Server ActantError unit :=
  count ← stmt (look (fun s => size (workspaces (ledger (world s)))));
  if (0 <? Z.of_nat count) then mret tt else
  now ← stmt now_iso;
  stmt (on_world (insert_workspace (mkWorkspace DEFAULT_WORKSPACE_ID "default" now None)));;
  now2 ← stmt now_iso;
  stmt (on_world (insert_actor (mkActor owner_actor_id DEFAULT_WORKSPACE_ID System "system" now2 None))).

(** [bootstrap_with_mode], after the storage is open: the configuration and the
    code to print. *)
Definition bootstrap_with_mode (fuel : nat) (local tls trust : bool) :
    prog Server ActantError (Config * option string) :=
  let cfg := with_trust_proxy trust (with_tls_enabled tls (with_local_mode local new_state)) in
  seed_if_empty;;
  if local then mret (cfg, None) else
  c ← mint_link_code_for fuel DEFAULT_WORKSPACE_ID;
  mret (cfg, c).
End routes.
