(* ===== verification/AuthRace.v ===== *)
(** * Linking and sessions under concurrency

    Any number of requests to [/v1/auth/*] run at once, interleaved statement by
    statement.  Owner rows, claimed codes and sessions only grow, a workspace is
    linked by at most one request, and a session that was logged out stays out. *)

From S2P Require Import Prelude Str Json Core Storage Throttle Auth Prog Race Server AuthRoutes.
#[local] Open Scope string_scope.
#[local] Open Scope list_scope.
#[local] Open Scope Z_scope.

(** ** What no request undoes *)

Definition owner_kept (r r' : OwnerRow) : Prop :=
  ow_owner_actor_id r' = ow_owner_actor_id r /\ ow_created_at r' = ow_created_at r.
Definition code_kept (r r' : CodeRow) : Prop :=
  lc_workspace_id r' = lc_workspace_id r /\ lc_expires_at r' = lc_expires_at r /\
  (is_Some (lc_claimed_at r) -> r' = r).
Definition session_kept (r r' : SessionRow) : Prop := r' = r \/ exists t, r' = revoke_row t r.

Definition table_grows {R} (kept : R -> R -> Prop) (m m' : gmap string R) : Prop :=
  forall k r, m !! k = Some r -> exists r', m' !! k = Some r' /\ kept r r'.

Record auth_grows (d d' : AuthDb) : Prop := {
  ag_owner : table_grows owner_kept (workspace_owner d) (workspace_owner d');
  ag_code : table_grows code_kept (link_code d) (link_code d');
  ag_session : table_grows session_kept (session_token d) (session_token d')
}.
Definition grows (s s' : Server) : Prop := auth_grows (auth s) (auth s').

#[local] Instance owner_kept_preorder : PreOrder owner_kept.
Proof. split; [by intros ?|]. intros a b c [H1 H2] [H3 H4]. split; congruence. Qed.
#[local] Instance code_kept_preorder : PreOrder code_kept.
Proof.
  split; [by intros ?|]. intros a b c (H1 & H2 & H3) (H4 & H5 & H6).
  split; [congruence|]. split; [congruence|]. intros Hs.
  pose proof (H3 Hs) as ->. auto.
Qed.
#[local] Instance session_kept_preorder : PreOrder session_kept.
Proof.
  split; [by left|]. intros a b c [->|[t ->]] [->|[t' ->]]; [by left|right; eauto..|].
  right. exists (default t' (Some t)). unfold revoke_row. simpl. by destruct (st_revoked_at a).
Qed.

Lemma table_grows_insert {R} kept `{!PreOrder kept} (m : gmap string R) k r' :
  (forall r, m !! k = Some r -> kept r r') -> table_grows kept m (<[k := r']> m).
Proof.
  intros Hk k' r Hr. destruct (decide (k = k')) as [<-|Hne].
  - exists r'. by rewrite lookup_insert_eq; auto.
  - exists r. by rewrite lookup_insert_ne.
Qed.
#[local] Instance table_grows_preorder {R} kept `{!PreOrder kept} : PreOrder (@table_grows R kept).
Proof.
  split; [intros m k r Hr; by exists r|]. intros a b c H1 H2 k r Hr.
  destruct (H1 _ _ Hr) as (r1 & Hr1 & Hk1). destruct (H2 _ _ Hr1) as (r2 & Hr2 & Hk2).
  exists r2. split; [done|]. by etrans.
Qed.
#[global] Instance auth_grows_preorder : PreOrder auth_grows.
Proof. split; [by intros d|]. intros a b c [? ? ?] [? ? ?]. split; by etrans. Qed.
#[global] Instance grows_preorder : PreOrder grows.
Proof. split; [intros s; unfold grows; reflexivity|]. intros a b c H1 H2. unfold grows in *. by etrans. Qed.

Lemma grows_same s s' : auth s' = auth s -> grows s s'.
Proof. unfold grows. by intros ->. Qed.
Lemma grows_owner ws r s :
  (forall r0, workspace_owner (auth s) !! ws = Some r0 -> owner_kept r0 r) ->
  grows s (with_auth_db (set_owner ws r) s).
Proof. intros Hr. split; simpl; [by apply table_grows_insert; try apply _|reflexivity..]. Qed.
Lemma grows_code h r s :
  (forall r0, link_code (auth s) !! h = Some r0 -> code_kept r0 r) ->
  grows s (with_auth_db (set_code h r) s).
Proof. intros Hr. split; simpl; [reflexivity|by apply table_grows_insert; try apply _|reflexivity]. Qed.
Lemma grows_session h r s :
  (forall r0, session_token (auth s) !! h = Some r0 -> session_kept r0 r) ->
  grows s (with_auth_db (set_session h r) s).
Proof. intros Hr. split; simpl; [reflexivity..|by apply table_grows_insert; try apply _]. Qed.

(** ** The requests in flight *)

(** The workspace a response says was linked. *)
Definition linked_to (r : Response) : option string :=
  match jget "status" (body r) with
  | Some (JString s) => if String.eqb s "linked" then v ← jget "workspace_id" (body r); as_str v else None
  | _ => None
  end.
Definition answered_linked (r : result Response Response) : option string :=
  match r with Ok a | Err a => linked_to a end.

Definition owned (ws : string) (s : Server) : Prop := is_Some (workspace_owner (auth s) !! ws).

Lemma owned_grows ws s s' : grows s s' -> owned ws s -> owned ws s'.
Proof. intros [Ho _ _] [r Hr]. destruct (Ho _ _ Hr) as (r' & Hr' & _). by exists r'. Qed.

#[local] Notation quiet := (Race.quiet grows answered_linked).
#[local] Notation silent := (Race.silent grows answered_linked).
#[local] Notation plays := (Race.plays grows owned owned answered_linked).
#[local] Arguments Race.plays : simpl never.

Inductive Call :=
| CLink (ip : option string) (code : string) (workspace_id : option string)
| CPassword (h : HeaderMap) (password : string)
| CLogin (ip : option string) (password : string) (workspace_id : option string)
| CLogout (h : HeaderMap)
| CMe (h : HeaderMap).

(** A statement that leaves the three tables alone and cannot fail. *)
Lemma quiet_aside {B} (m : M Server Response B) :
  (forall s, auth (m s).2 = auth s /\ exists b, (m s).1 = Ok b) -> quiet m.
Proof.
  intros Hm s. destruct (Hm s) as [Ha [b Hb]]. split; [by apply grows_same|]. by rewrite Hb.
Qed.

Section race.
Context `{Env} `{ServerEnv} `{Rng} `{Sha256} `{Base64} `{Argon2} `{Jwt}.

Definition serve (cfg : Config) (c : Call) : H Response :=
  match c with
  | CLink ip code ws => link_redeem cfg ip code ws
  | CPassword h pw => set_password cfg h pw
  | CLogin ip pw ws => login cfg ip pw ws
  | CLogout h => logout cfg h
  | CMe h => whoami cfg h
  end.

Lemma quiet_now : quiet now_iso.
Proof. by apply quiet_aside; intros s; split; [|eexists]. Qed.
Lemma quiet_unix : quiet unix_now.
Proof. by apply quiet_aside; intros s; split; [|eexists]. Qed.
Lemma quiet_instant : quiet instant_now.
Proof. by apply quiet_aside; intros s; split; [|eexists]. Qed.
Lemma quiet_look {B} (f : Server -> B) : quiet (look f).
Proof. by apply quiet_aside; intros s; split; [|eexists]. Qed.
Lemma quiet_draw {B} (f : nat -> B * nat) : quiet (draw f).
Proof. apply quiet_aside; intros s. unfold draw. destruct (f _). split; [done|by eexists]. Qed.
Lemma quiet_limiters f : quiet (update (with_limiters f)).
Proof. by apply quiet_aside; intros s; split; [|eexists]. Qed.

(** [quiet] statement by statement, [silent] program by program. *)
Ltac quiet_tac :=
  repeat first
    [ apply quiet_now | apply quiet_unix | apply quiet_instant | apply quiet_look | apply quiet_draw
    | apply quiet_limiters | apply (quiet_ret grows answered_linked) | apply (quiet_throw grows answered_linked); reflexivity
    | apply (quiet_bind grows answered_linked); [|intros ?] ].

Lemma quiet_past iso : quiet (is_past iso).
Proof. unfold is_past. destruct (unix_of_iso iso); quiet_tac. Qed.
Lemma quiet_iso t : quiet (unix_to_iso t).
Proof. unfold unix_to_iso. destruct (iso_of_unix t); quiet_tac. Qed.
Lemma quiet_mint : quiet mint_session.
Proof. unfold mint_session. quiet_tac. apply quiet_iso. Qed.

Lemma quiet_consume p get put key : quiet (consume p get put key).
Proof.
  unfold consume. quiet_tac. { destruct (b !! key); quiet_tac. }
  destruct (try_consume 1 b1 b2 b0) as [[] b']; quiet_tac.
Qed.

Lemma quiet_insert_session h r : quiet (map_err storage_error (insert_session_token h r)).
Proof.
  intros s. unfold map_err, insert_session_token.
  destruct (session_token (auth s) !! h) eqn:Hh; simpl;
    [split; [by apply grows_same|by intros e [= <-]]|].
  destruct (_ && _); simpl; [|split; [by apply grows_same|by intros e [= <-]]].
  split; [|done]. apply grows_session. by rewrite Hh.
Qed.

Lemma quiet_revoke h now : quiet (revoke_session h now).
Proof.
  intros s. unfold revoke_session. destruct (session_token (auth s) !! h) as [r|] eqn:Hh; simpl;
    [|by split; [apply grows_same|]].
  split; [|done]. apply grows_session. rewrite Hh. intros r0 [= <-]. right. by exists now.
Qed.

Lemma quiet_password ws actor phc now : quiet (set_owner_password ws actor phc now).
Proof.
  intros s. unfold set_owner_password. destruct (workspace_owner (auth s) !! ws) as [r|] eqn:Hr; simpl;
    [|split; [by apply grows_same|done]].
  destruct (String.eqb _ _); simpl; [|by split; [apply grows_same|]].
  split; [|done]. apply grows_owner. rewrite Hr. by intros r0 [= <-].
Qed.

Lemma quiet_count key : quiet (count_failure key).
Proof. by apply quiet_aside; intros s; split; [|eexists]. Qed.

Lemma quiet_ensure b e : lost answered_linked e -> quiet (ensure b e).
Proof. intros He s. simpl. split; [by apply grows_same|]. destruct b; by intros e' [= <-]. Qed.

Lemma quiet_insert_owner ws r : quiet (map_err storage_error (insert_owner ws r)).
Proof.
  intros s. unfold map_err, insert_owner.
  destruct (workspace_owner (auth s) !! ws) eqn:Hw; simpl; [by split; [apply grows_same|]|].
  destruct (_ && _); simpl; [|split; [by apply grows_same|by intros e [= <-]]].
  split; [|done]. apply grows_owner. by rewrite Hw.
Qed.

Lemma quiet_claim h now actor : quiet (map_err storage_error (claim_code h now actor)).
Proof.
  intros s. unfold map_err, claim_code.
  destruct (link_code (auth s) !! h) as [c|] eqn:Hc; simpl; [|by split; [apply grows_same|]].
  destruct (lc_claimed_at c) eqn:Hcl; simpl; [by split; [apply grows_same|]|].
  destruct (has _ _); simpl; [|split; [by apply grows_same|by intros e [= <-]]].
  split; [|done]. apply grows_code. rewrite Hc. intros r0 [= <-].
  repeat split. rewrite Hcl. by intros [].
Qed.

Lemma quiet_transaction {B} (m : M Server Response B) : quiet m -> quiet (transaction m).
Proof.
  intros Hm s. unfold transaction. destruct (Hm s) as [H7 H8].
  destruct (m s) as [[b|e] s']; [done|]. split; [by apply grows_same|done].
Qed.

(** What follows the owner's row in the transaction. *)
Definition link_rest (cfg : Config) (ws h now : string) : M Server Response Response :=
  upd ← map_err storage_error (claim_code h now owner_actor_id);
  ensure (upd =? 1) already_claimed;;
  '(session, exp_iso) ← mint_session;
  map_err storage_error (insert_session_token (token_hash session)
    (mkSessionRow owner_actor_id ws (csrf_secret session) now exp_iso None));;
  mret (linked (csrf_secret session) ws owner_actor_id
          (build_session_cookie (plaintext session) SESSION_TTL_SECS (tls_enabled cfg))).

Lemma quiet_rest cfg ws h now : quiet (link_rest cfg ws h now).
Proof.
  unfold link_rest.
  apply (quiet_bind grows answered_linked); [apply quiet_claim|intros upd].
  apply (quiet_bind grows answered_linked); [by apply quiet_ensure|intros _].
  apply (quiet_bind grows answered_linked); [apply quiet_mint|intros [session exp_iso]].
  apply (quiet_bind grows answered_linked); [apply quiet_insert_session|intros _]. quiet_tac.
Qed.

Lemma link_rest_grows cfg ws h now s r s' : link_rest cfg ws h now s = (r, s') -> grows s s'.
Proof. intros H7. destruct (quiet_rest cfg ws h now s) as [Hg _]. by rewrite H7 in Hg. Qed.

Lemma link_rest_linked cfg ws h now s resp s' :
  link_rest cfg ws h now s = (Ok resp, s') -> linked_to resp = Some ws.
Proof.
  unfold link_rest. intros (? & ? & _ & H7)%M_bind_ok.
  apply M_bind_ok in H7 as (? & ? & _ & H7). apply M_bind_ok in H7 as ([session exp_iso] & ? & _ & H7).
  apply M_bind_ok in H7 as (? & ? & _ & H7). by injection H7 as <- _.
Qed.

(** The transaction takes an unowned workspace, or leaves the tables as they were. *)
Lemma link_tx_spec cfg ws h s :
  match link_tx cfg ws h s with
  | (Ok resp, s') => ~ owned ws s /\ owned ws s' /\ grows s s' /\ linked_to resp = Some ws
  | (Err e, s') => auth s' = auth s /\ linked_to e = None
  end.
Proof.
  assert (Hq : quiet (link_tx cfg ws h)).
  { apply quiet_transaction.
    apply (quiet_bind grows answered_linked); [apply quiet_now|intros now].
    apply (quiet_bind grows answered_linked); [apply quiet_insert_owner|intros n].
    apply (quiet_bind grows answered_linked); [by apply quiet_ensure|intros _]. apply quiet_rest. }
  destruct (Hq s) as [Hg Hl]. destruct (link_tx cfg ws h s) as [[resp|e] s'] eqn:Htx; simpl in *.
  - unfold link_tx, transaction in Htx. case_match eqn:Hb. destruct r; [|discriminate].
    simplify_eq. apply M_bind_ok in Hb as (now & s1 & Hn & Hb).
    apply M_bind_ok in Hb as (n & s2 & Ho & Hb). apply M_bind_ok in Hb as (u & s3 & He & Hb).
    assert (Heq : auth s1 = auth s) by (by injection Hn as _ <-).
    assert (Hs3 : s3 = s2) by (by injection He as _ <-). subst s3.
    unfold owned at 1. rewrite <- Heq. unfold map_err, insert_owner in Ho.
    destruct (workspace_owner (auth s1) !! ws) eqn:Hw; simplify_eq/=.
    destruct (_ && _); simplify_eq/=.
    split; [by intros []|]. split.
    + eapply owned_grows; [by eapply link_rest_grows|].
      unfold owned. simpl. rewrite lookup_insert_eq. by eexists.
    + split; [done|]. by eapply link_rest_linked.
  - split; [|by apply Hl]. unfold link_tx, transaction in Htx. case_match. by destruct r; simplify_eq/=.
Qed.

Lemma plays_link_tx cfg ws h k :
  (forall r, k r = Done (Ok r)) -> plays None (Stmt (link_tx cfg ws h) k).
Proof.
  intros Hk s. pose proof (link_tx_spec cfg ws h s) as Hs.
  destruct (link_tx cfg ws h s) as [[resp|e] s']; simpl in *.
  - destruct Hs as (Hfree & Hown & Hg & Hl). split; [done|]. split; [done|]. right. split; [done|].
    exists ws. split; [done|]. split; [done|]. intros b [= <-]. rewrite Hk. intros key Hkey.
    simpl in Hkey. congruence.
  - destruct Hs as [Ha Hl]. split; [by apply grows_same|]. split; [by intros e' [= <-]|]. by left.
Qed.

(** ** Every handler plays by the rules *)

Ltac silent_tac :=
  repeat first
    [ apply (silent_bind grows answered_linked); [|intros ?]
    | apply silent_stmt; first [apply quiet_past | apply quiet_consume | quiet_tac; done]
    | match goal with |- silent (Done _) => reflexivity | |- silent (raise _) => reflexivity
                    | |- silent (mret _) => exact I end
    | case_match ].

Lemma silent_cookie h : silent (resolve_cookie h).
Proof. unfold resolve_cookie, session_row. silent_tac. Qed.
Lemma silent_principal cfg h : silent (resolve_principal cfg h).
Proof. unfold resolve_principal. silent_tac; apply silent_cookie. Qed.
Lemma silent_mutation cfg h m : silent (resolve_principal_for_mutation cfg h m).
Proof. unfold resolve_principal_for_mutation, session_row. silent_tac; apply silent_principal. Qed.

Ltac plays_tac :=
  repeat first
    [ apply (plays_bind grows owned owned answered_linked);
        [apply silent_stmt; first [apply quiet_past | apply quiet_consume | apply quiet_password
           | apply quiet_revoke | apply quiet_count | apply quiet_insert_session | apply quiet_mint
           | quiet_tac; done]|intros ?]
    | apply plays_raise; reflexivity
    | apply plays_ret; reflexivity
    | case_match ].

Lemma plays_serve cfg c : plays None (serve cfg c).
Proof.
  destruct c as [ip code ws|h pw|ip pw ws|h|h]; simpl.
  - unfold link_redeem. apply (plays_bind grows owned owned answered_linked).
    { apply silent_stmt, quiet_consume. }
    intros _. plays_tac; by apply plays_link_tx.
  - unfold set_password. apply (plays_bind grows owned owned answered_linked); [apply silent_mutation|].
    intros p. plays_tac.
  - unfold login. plays_tac.
  - unfold logout. apply (plays_bind grows owned owned answered_linked); [|intros _; plays_tac].
    case_match; [|exact I]. apply (silent_bind grows answered_linked); [apply silent_stmt, quiet_now|].
    intros now. apply silent_stmt, quiet_revoke.
  - unfold whoami. apply (plays_bind grows owned owned answered_linked);
      [apply silent_attempt, silent_principal|]. intros [p|e]; plays_tac.
Qed.

Lemma plays_pool cfg calls : Forall (plays None) (map (serve cfg) calls).
Proof. induction calls as [|c calls IH]; simpl; constructor; [apply plays_serve|exact IH]. Qed.

(** C10: However the statements of concurrent requests to the auth routes
    interleave, a workspace is answered "linked" to at most one of them, and only
    if it had no owner at the start; and no request removes or replaces an owner,
    un-claims a code, or removes, alters or un-revokes a session. *)
Theorem link_exclusive (cfg : Config) (calls : list Call) (s s' : Server) (pool : list (H Response)) :
  rtc istep (map (serve cfg) calls, s) (pool, s') ->
  (forall i j p p' r r' ws, pool !! i = Some p -> pool !! j = Some p' ->
     answer p = Some r -> answer p' = Some r' ->
     answered_linked r = Some ws -> answered_linked r' = Some ws -> i = j) /\
  (forall i p r ws, pool !! i = Some p -> answer p = Some r -> answered_linked r = Some ws ->
     workspace_owner (auth s) !! ws = None /\ is_Some (workspace_owner (auth s') !! ws)) /\
  grows s s'.
Proof.
  intros Hr. destruct (race_once grows owned owned_grows owned owned_grows eq
    ltac:(by intros k ? st <-) answered_linked s _ pool s' (plays_pool cfg calls) Hr) as (Hg & Hw & Ho).
  split; [|split; [|done]].
  - intros. eapply Ho; eauto.
  - intros i p r ws Hi Ha Hl. destruct (Hw _ _ _ _ Hi Ha Hl) as [Hn Hs].
    split; [by apply eq_None_not_Some|done].
Qed.

(** A revoked session is refused, whatever the clock reads. *)
Lemma resolve_cookie_revoked h token r s :
  extract_session_cookie h = Some token ->
  session_token (auth s) !! hash_token token = Some r -> is_Some (st_revoked_at r) ->
  exec (resolve_cookie h) s = (Err revoked, s).
Proof.
  intros Ht Hs [t Hr]. unfold resolve_cookie. rewrite Ht. unfold session_row, stmt. simpl.
  rewrite Hs. by rewrite Hr.
Qed.

End race.
