(* ===== verification/AuthFlow.v ===== *)
(** * Linking, passwords and sessions, one request after the other

    What each handler of AuthRoutes.v does when nothing runs beside it: linking is
    all or nothing, a code minted at boot links the workspace once, a password
    that was set logs in, and a mutation needs the session's CSRF secret. *)

From S2P Require Import Prelude Str Json Core Storage Throttle Auth Prog Race Server AuthRoutes AuthRace.
#[local] Open Scope string_scope.
#[local] Open Scope list_scope.
#[local] Open Scope Z_scope.

Section flow.
Context `{Env} `{ServerEnv} `{Rng} `{Sha256} `{Base64} `{Argon2} `{Jwt}.

(** The tables after linking [ws] with the code [h], whose row was [r]. *)
Definition linked_tables (ws h now expires : string) (r : CodeRow) (session : SessionToken) (d : AuthDb) : AuthDb :=
  set_session (token_hash session)
    (mkSessionRow owner_actor_id ws (csrf_secret session) now expires None)
    (set_code h (mkCodeRow (lc_workspace_id r) (lc_expires_at r) (Some now) (Some owner_actor_id) (lc_created_at r))
       (set_owner ws (mkOwnerRow owner_actor_id None None now) d)).

(** What statements that only draw from the environment leave alone. *)
Definition beside (s s' : Server) : Prop :=
  auth s' = auth s /\ ledger (world s') = ledger (world s).
#[local] Instance beside_preorder : PreOrder beside.
Proof. split; [by intros ?|]. intros a b c [? ?] [? ?]. split; congruence. Qed.

Lemma unix_to_iso_beside {E} t s : exists iso s', @unix_to_iso _ _ E t s = (Ok iso, s') /\ beside s s'.
Proof. unfold unix_to_iso. destruct (iso_of_unix t); by eexists _, _. Qed.

Lemma mint_session_run {E} s :
  exists iso s', @mint_session _ _ _ _ _ E s = (Ok ((new_session (random_pos (drawn s))).1, iso), s') /\ beside s s'.
Proof.
  unfold mint_session. unfold mbind, M_bind. simpl.
  match goal with |- context [unix_to_iso ?t ?x] => destruct (@unix_to_iso_beside E t x) as (iso & s' & -> & Hb) end.
  by eexists iso, s'.
Qed.

(** A bucket is no table, and the token bucket reads the monotonic clock only. *)
Lemma consume_beside p get put key s :
  let s' := (consume p get put key s).2 in
  beside s s' /\ unix_reads (drawn s') = unix_reads (drawn s) /\ random_pos (drawn s') = random_pos (drawn s).
Proof.
  unfold consume, mbind, M_bind. simpl.
  destruct (get (limiters s) !! key) as [b|]; simpl; by destruct (try_consume _ _ _ _) as [[] b'].
Qed.

(** What [is_past] answers in a state. *)
Definition expired_at (s : Server) (iso : string) : bool :=
  match unix_of_iso iso with Some t => t <? unix_clock (unix_reads (drawn s)) | None => true end.
Lemma is_past_run {E} iso s :
  exists s', @is_past _ E iso s = (Ok (expired_at s iso), s') /\ beside s s' /\
    random_pos (drawn s') = random_pos (drawn s).
Proof. unfold is_past, expired_at. destruct (unix_of_iso iso); by eexists. Qed.

(** [link_tx] as one update of the tables. *)
Lemma link_tx_ok cfg ws h s resp s' :
  link_tx cfg ws h s = (Ok resp, s') ->
  let session := (new_session (random_pos (drawn s))).1 in
  let now := clock (time (world s)) in
  exists r iso, link_code (auth s) !! h = Some r /\ lc_claimed_at r = None /\
    workspace_owner (auth s) !! ws = None /\
    auth s' = linked_tables ws h now iso r session (auth s) /\
    resp = linked (csrf_secret session) ws owner_actor_id
             (build_session_cookie (plaintext session) SESSION_TTL_SECS (tls_enabled cfg)).
Proof.
  unfold link_tx, transaction. unfold mbind, M_bind. simpl.
  unfold map_err at 1, insert_owner. simpl.
  destruct (workspace_owner (auth s) !! ws) as [o|] eqn:Ho; simpl; [done|].
  destruct (_ && _); simpl; [|done].
  unfold map_err at 1, claim_code. simpl.
  destruct (link_code (auth s) !! h) as [c|] eqn:Hc; simpl; [|done].
  destruct (lc_claimed_at c) eqn:Hcl; simpl; [done|].
  destruct (has _ _); simpl; [|done].
  match goal with |- context [mint_session ?x] =>
    destruct (@mint_session_run Response x) as (iso & s1 & -> & Ha & Hl) end.
  simpl in *. unfold map_err, insert_session_token. rewrite Ha. simpl.
  destruct (session_token (auth s) !! _); simpl; [done|].
  destruct (_ && _); simpl; [|done]. intros [= <- <-]. exists c, iso.
  repeat split; try done. simpl. by rewrite Ha.
Qed.

(** [link_redeem] is all or nothing.  A request answered "linked" presented
    a well-formed code whose row was unclaimed and unexpired, for a workspace
    without an owner and not at odds with the one asked for; it gave the workspace
    its owner, claimed the code and opened the session whose token is in the
    cookie, and did nothing else.  A request answered anything else, rate limits
    and failing statements included, changed none of the tables. *)
Theorem link_redeem_all_or_nothing (cfg : Config) (ip : option string) (typed : string)
    (req : option string) (s s' : Server) (a : result Response Response) :
  exec (link_redeem cfg ip typed req) s = (a, s') ->
  match answered_linked a with
  | Some ws => exists r now iso,
      let session := (new_session (random_pos (drawn s))).1 in
      validate_shape typed = Ok tt /\
      link_code (auth s) !! hash_code typed = Some r /\ lc_workspace_id r = ws /\
      lc_claimed_at r = None /\ expired_at s (lc_expires_at r) = false /\
      workspace_owner (auth s) !! ws = None /\
      (req = None \/ req = Some "" \/ req = Some ws) /\
      auth s' = linked_tables ws (hash_code typed) now iso r session (auth s) /\
      a = Ok (linked (csrf_secret session) ws owner_actor_id
                (build_session_cookie (plaintext session) SESSION_TTL_SECS (tls_enabled cfg)))
  | None => auth s' = auth s
  end.
Proof.
  unfold link_redeem. rewrite exec_bind. unfold enforce_link_rate, stmt. unfold mbind at 1, M_bind at 1.
  simpl. destruct (consume_beside LINK_RATE_LIMIT lim_link put_link (default "-" ip) s) as ([Hau _] & Hun & Hrp).
  pose proof (quiet_consume LINK_RATE_LIMIT lim_link put_link (default "-" ip) s) as [_ Hlost].
  destruct (consume _ _ _ _ s) as [[[]|e] s1]; simpl in *;
    [|intros [= <- <-]; simpl; by rewrite (Hlost e eq_refl : linked_to e = None)].
  destruct (validate_shape typed) as [[]|e] eqn:Hshape; simpl; [|by intros [= <- <-]].
  rewrite Hau. destruct (link_code (auth s) !! hash_code typed) as [r|] eqn:Hr; simpl; [|by intros [= <- <-]].
  destruct (lc_claimed_at r) eqn:Hcl; simpl; [by intros [= <- <-]|].
  destruct (@is_past_run Response (lc_expires_at r) s1) as (s2 & -> & [Hau2 _] & Hrp2).
  assert (Hexp : expired_at s1 (lc_expires_at r) = expired_at s (lc_expires_at r))
    by (unfold expired_at; by rewrite Hun). rewrite Hexp.
  destruct (expired_at s (lc_expires_at r)) eqn:He; simpl; [intros [= <- <-]; simpl; congruence|].
  match goal with |- context [if ?b then raise (generic_link_miss (PermissionDenied "workspace_id does not match")) else _] =>
    destruct b eqn:Hreq end; simpl; [intros [= <- <-]; simpl; congruence|].
  destruct (negb (verify_link_code (hash_code typed) typed)); simpl; [intros [= <- <-]; simpl; congruence|].
  intros Hex. pose proof (link_tx_spec cfg (lc_workspace_id r) (hash_code typed) s2) as Hspec.
  destruct (link_tx cfg (lc_workspace_id r) (hash_code typed) s2) as [[resp|e] s3] eqn:Htx;
    simpl in *; injection Hex as <- <-; simpl.
  - destruct Hspec as (_ & _ & _ & ->).
    destruct (link_tx_ok _ _ _ _ _ _ Htx) as (r' & iso & Hr' & _ & Ho & Hs' & ->).
    rewrite Hau2, Hau in *. assert (r' = r) as -> by congruence.
    rewrite Hrp2, Hrp in *. exists r, (clock (time (world s2))), iso. repeat split; try done.
    destruct req as [p|]; [|by left]. right.
    destruct (String.eqb_spec p ""); [left; congruence|].
    destruct (String.eqb_spec p (lc_workspace_id r)); [right; congruence|done].
  - destruct Hspec as [-> ->]. congruence.
Qed.

(** ** From boot to the first owner *)

(** A server whose database was just created. *)
Definition fresh (s : Server) : Prop :=
  workspaces (ledger (world s)) = ∅ /\ actors (ledger (world s)) = ∅ /\
  auth s = mkAuthDb ∅ ∅ ∅.

(** The state after a boot that minted the code [c]. *)
Definition booted (s1 : Server) (c : LinkCode) (iso : string) : Prop :=
  has (workspaces (ledger (world s1))) DEFAULT_WORKSPACE_ID = true /\
  has (actors (ledger (world s1))) owner_actor_id = true /\
  exists created, auth s1 =
    mkAuthDb ∅ {[ hash c := mkCodeRow DEFAULT_WORKSPACE_ID iso None None created ]} ∅.

Lemma seed_run s :
  fresh s -> exists s1, exec seed_if_empty s = (Ok tt, s1) /\ auth s1 = auth s /\ drawn s1 = drawn s /\
    has (workspaces (ledger (world s1))) DEFAULT_WORKSPACE_ID = true /\
    has (actors (ledger (world s1))) owner_actor_id = true.
Proof.
  intros (Hw & Ha & _). unfold seed_if_empty, stmt. simpl. rewrite Hw, map_size_empty. simpl.
  unfold on_world, insert_workspace, insert_actor, insert_row. simpl. rewrite Hw.
  change (has (∅ : gmap string Workspace) DEFAULT_WORKSPACE_ID) with false. simpl. rewrite Ha.
  change (has (∅ : gmap string Actor) owner_actor_id) with false. unfold actor_fk. simpl.
  unfold has at 1. rewrite lookup_insert_eq. rewrite bool_decide_eq_true_2 by (by eexists). simpl.
  eexists. split; [done|]. simpl. repeat split; unfold has; rewrite lookup_insert_eq;
    apply bool_decide_eq_true_2; by eexists.
Qed.

Lemma mint_run fuel ws s iso :
  workspace_owner (auth s) !! ws = None -> link_code (auth s) = ∅ ->
  has (workspaces (ledger (world s))) ws = true ->
  (12 <= useful (random_pos (drawn s)) fuel)%nat ->
  iso_of_unix (unix_clock (unix_reads (drawn s)) + LINK_TTL_SECS) = Some iso ->
  exists c pos' s1, generate fuel (random_pos (drawn s)) = Some (c, pos') /\
    exec (mint_link_code_for fuel ws) s = (Ok (Some (display c)), s1) /\
    ledger (world s1) = ledger (world s) /\
    auth s1 = mkAuthDb (workspace_owner (auth s))
      {[ hash c := mkCodeRow ws iso None None (clock (time (world s))) ]} (session_token (auth s)).
Proof.
  intros Ho Hc Hws Hu Hiso.
  destruct (generate_redeemable fuel (random_pos (drawn s)) Hu) as (c & pos' & Hg & _).
  exists c, pos'. unfold mint_link_code_for, stmt, draw, unix_to_iso. simpl. rewrite Ho. simpl.
  rewrite Hg. simpl. rewrite Hiso. simpl. unfold insert_link_code, delete_unclaimed, set_codes. simpl.
  rewrite Hc, map_filter_empty, lookup_empty. simpl. rewrite Hws. simpl.
  eexists. split; [done|]. split; [done|]. simpl. split; [done|]. unfold set_code. simpl.
  by rewrite Hc, map_filter_empty, insert_empty.
Qed.

Lemma boot_run fuel tls trust s iso :
  fresh s -> (12 <= useful (random_pos (drawn s)) fuel)%nat ->
  iso_of_unix (unix_clock (unix_reads (drawn s)) + LINK_TTL_SECS) = Some iso ->
  exists c pos' s1, generate fuel (random_pos (drawn s)) = Some (c, pos') /\
    exec (bootstrap_with_mode fuel false tls trust) s =
      (Ok (mkConfig None None false tls trust, Some (display c)), s1) /\ booted s1 c iso.
Proof.
  intros Hf Hu Hiso. destruct (seed_run s Hf) as (s0 & Hs0 & Ha & Hd & Hws & Hact).
  destruct Hf as (_ & _ & Hau).
  destruct (mint_run fuel DEFAULT_WORKSPACE_ID s0 iso) as (c & pos' & s1 & Hg & Hm & Hl & Ha1);
    rewrite ?Ha, ?Hd, ?Hau; try done.
  exists c, pos', s1. rewrite Hd in Hg. split; [done|]. unfold bootstrap_with_mode. cbv zeta iota.
  rewrite exec_bind. unfold mbind at 1, M_bind at 1. rewrite Hs0, exec_bind.
  unfold mbind, M_bind. rewrite Hm. split; [done|]. unfold booted. rewrite Hl. split; [done|].
  split; [done|]. rewrite Ha1, Ha, Hau. by eexists.
Qed.

(** A well-formed code of a known row, once the rate limit lets it through. *)
Lemma link_redeem_row cfg ip typed r s s1 :
  exec (enforce_link_rate ip) s = (Ok tt, s1) -> validate_shape typed = Ok tt ->
  link_code (auth s) !! hash_code typed = Some r ->
  (is_Some (lc_claimed_at r) -> (exec (link_redeem cfg ip typed None) s).1 = Err already_claimed) /\
  (lc_claimed_at r = None -> expired_at s (lc_expires_at r) = false -> exists s2, beside s s2 /\
     exec (link_redeem cfg ip typed None) s = link_tx cfg (lc_workspace_id r) (hash_code typed) s2).
Proof.
  intros Hrate Hshape Hr. unfold enforce_link_rate, stmt in Hrate. simpl in Hrate.
  destruct (consume_beside LINK_RATE_LIMIT lim_link put_link (default "-" ip) s) as ([Hau Hle] & Hun & _).
  destruct (consume _ _ _ _ s) as [[[]|e] s0] eqn:Hc; [|discriminate Hrate].
  injection Hrate as <-. simpl in Hau, Hle, Hun. split.
  - intros [t Ht]. unfold link_redeem. rewrite exec_bind. unfold enforce_link_rate, stmt.
    unfold mbind at 1, M_bind at 1. simpl. rewrite Hc. simpl.
    rewrite Hshape. simpl. rewrite Hau, Hr. simpl. by rewrite Ht.
  - intros Hcl Hexp.
    destruct (@is_past_run Response (lc_expires_at r) s0) as (s2 & Hp & [Hau2 Hle2] & _).
    assert (He1 : expired_at s0 (lc_expires_at r) = false)
      by (rewrite <- Hexp; unfold expired_at; by rewrite Hun).
    exists s2. split; [split; congruence|]. unfold link_redeem. rewrite exec_bind.
    unfold enforce_link_rate, stmt. unfold mbind at 1, M_bind at 1. simpl.
    rewrite Hc. simpl. rewrite Hshape. simpl. rewrite Hau, Hr. simpl. rewrite Hcl. simpl. rewrite Hp, He1.
    simpl. rewrite verify_link_code_eq, String.eqb_refl. simpl.
    by destruct (link_tx _ _ _ s2) as [[]].
Qed.

Lemma link_tx_run cfg ws h r s :
  workspace_owner (auth s) !! ws = None -> link_code (auth s) !! h = Some r -> lc_claimed_at r = None ->
  session_token (auth s) = ∅ -> has (workspaces (ledger (world s))) ws = true ->
  has (actors (ledger (world s))) owner_actor_id = true ->
  exists resp s', link_tx cfg ws h s = (Ok resp, s').
Proof.
  intros Ho Hc Hcl Hse Hws Hact.
  unfold link_tx, transaction. unfold mbind, M_bind. simpl.
  unfold map_err at 1, insert_owner. simpl. rewrite Ho, Hws, Hact. simpl.
  unfold map_err at 1, claim_code. simpl. rewrite Hc, Hcl, Hact. simpl.
  match goal with |- context [mint_session ?x] =>
    destruct (@mint_session_run Response x) as (iso & s1 & -> & Ha & Hl) end.
  simpl in *. unfold map_err, insert_session_token. rewrite Ha, Hl. simpl.
  rewrite Hse, lookup_empty, Hws, Hact. simpl. by eexists _, _.
Qed.

(** C11: A server booted remote on an empty database prints a code, whatever the
    random bytes, once twelve of them are useful; any presentation of that code
    with its normal form, let through by the rate limit no later than fifteen
    minutes after, is answered "linked" for the default workspace; and every
    presentation after that is answered "already_claimed". *)
Theorem boot_code_links_once (fuel : nat) (tls trust : bool) (s : Server) (iso : string) :
  fresh s -> (12 <= useful (random_pos (drawn s)) fuel)%nat ->
  let T := unix_clock (unix_reads (drawn s)) + LINK_TTL_SECS in
  iso_of_unix T = Some iso -> unix_of_iso iso = Some T ->
  exists cfg code s1, exec (bootstrap_with_mode fuel false tls trust) s = (Ok (cfg, Some code), s1) /\
    forall typed ip s1', normalize_code typed = normalize_code code ->
      exec (enforce_link_rate ip) s1 = (Ok tt, s1') -> unix_clock (unix_reads (drawn s1)) <= T ->
      exists resp s2, exec (link_redeem cfg ip typed None) s1 = (Ok resp, s2) /\
        linked_to resp = Some DEFAULT_WORKSPACE_ID /\
        forall typed' ip' s2', normalize_code typed' = normalize_code code ->
          exec (enforce_link_rate ip') s2 = (Ok tt, s2') ->
          (exec (link_redeem cfg ip' typed' None) s2).1 = Err already_claimed.
Proof.
  intros Hf Hu T Hiso Hback.
  destruct (boot_run fuel tls trust s iso Hf Hu Hiso) as (c & pos' & s1 & Hg & Hboot & Hb).
  destruct (generate_redeemable fuel (random_pos (drawn s)) Hu) as (c' & ? & Hg' & _ & Hredeem & _).
  rewrite Hg in Hg'. injection Hg' as <- <-.
  eexists _, (display c), s1. split; [exact Hboot|]. intros typed ip s1' Htyped Hrate Htime.
  destruct (Hredeem typed Htyped) as [Hshape Hver].
  assert (Hhash : forall t, normalize_code t = normalize_code (display c) -> hash_code t = hash c).
  { intros t Ht. destruct (Hredeem t Ht) as [_ Hv]. rewrite verify_link_code_eq in Hv.
    by apply String.eqb_eq. }
  destruct Hb as (Hws & Hact & created & Hau).
  destruct (link_redeem_row (mkConfig None None false tls trust) ip typed
    (mkCodeRow DEFAULT_WORKSPACE_ID iso None None created) s1 s1' Hrate Hshape) as [_ Hrun].
  { rewrite Hau, (Hhash _ Htyped). simpl. by rewrite lookup_singleton_eq. }
  destruct Hrun as (s2 & [Ha2 Hl2] & Hex); [done| |].
  { unfold expired_at. simpl. rewrite Hback. apply Z.ltb_ge. exact Htime. }
  cbn [lc_workspace_id] in Hex. rewrite (Hhash _ Htyped) in Hex.
  destruct (link_tx_run (mkConfig None None false tls trust) DEFAULT_WORKSPACE_ID (hash c)
    (mkCodeRow DEFAULT_WORKSPACE_ID iso None None created) s2) as (resp & s3 & Htx);
    rewrite ?Ha2, ?Hl2, ?Hau; try done; [simpl; by rewrite lookup_singleton_eq|].
  exists resp, s3. rewrite Hex, Htx. split; [done|].
  pose proof (link_tx_spec (mkConfig None None false tls trust) DEFAULT_WORKSPACE_ID (hash c) s2) as Hspec.
  destruct (link_tx_ok _ _ _ _ _ _ Htx) as (r & iso' & _ & _ & _ & Ha3 & _).
  rewrite Htx in Hspec. destruct Hspec as (_ & _ & _ & Hlk). split; [done|].
  intros typed' ip' s2' Htyped' Hrate'.
  destruct (Hredeem typed' Htyped') as [Hshape' _].
  eapply link_redeem_row; [exact Hrate'|exact Hshape'| |].
  - rewrite Ha3, (Hhash _ Htyped'). simpl. by rewrite lookup_insert_eq.
  - simpl. by eexists.
Qed.

(** ** Sessions *)

(** A mutating request without a bearer token resolves to a principal
    exactly when its cookie names a session that is neither revoked nor expired
    and its CSRF header is that session's secret; the principal is the session's
    owner in the session's workspace.  Resolving changes no table. *)
Theorem mutation_needs_csrf (cfg : Config) (h : HeaderMap) (m : Method) (s : Server) (p : Principal) :
  is_safe m = false -> bearer h = None ->
  ((exec (resolve_principal_for_mutation cfg h m) s).1 = Ok p <->
   exists token r, extract_session_cookie h = Some token /\
     session_token (auth s) !! hash_token token = Some r /\
     st_revoked_at r = None /\ expired_at s (st_expires_at r) = false /\
     presented_csrf h = Some (st_csrf_secret r) /\ p = owner_principal r) /\
  auth (exec (resolve_principal_for_mutation cfg h m) s).2 = auth s.
Proof.
  intros Hm Hb. unfold resolve_principal_for_mutation. rewrite Hm, Hb.
  destruct (extract_session_cookie h) as [token|]; simpl; [|split; [|done]; split; [done|]; by intros (? & ? & ? & _)].
  destruct (presented_csrf h) as [csrf|]; simpl;
    [|split; [|done]; split; [done|]; by intros (? & ? & _ & _ & _ & _ & ? & _)].
  destruct (session_token (auth s) !! hash_token token) as [r|] eqn:Hr; simpl;
    [|split; [|done]; split; [done|]; intros (? & ? & [= <-] & Hr' & _); congruence].
  destruct (st_revoked_at r) eqn:Hrev; simpl;
    [split; [|done]; split; [done|]; intros (? & ? & [= <-] & Hr' & Hn & _); congruence|].
  destruct (@is_past_run Response (st_expires_at r) s) as (s2 & -> & [Hau2 _] & _).
  destruct (expired_at s (st_expires_at r)) eqn:Hexp; simpl;
    [split; [|done]; split; [done|]; intros (? & ? & [= <-] & Hr' & _ & Hn & _); congruence|].
  rewrite verify_csrf_eq. destruct (String.eqb_spec (st_csrf_secret r) csrf) as [<-|Hne]; simpl;
    (split; [|done]); split.
  - intros [= <-]. by exists token, r.
  - intros (? & ? & [= <-] & Hr' & _ & _ & _ & ->). congruence.
  - done.
  - intros (? & ? & [= <-] & Hr' & _ & _ & [= ->] & _). congruence.
Qed.

(** ** Passwords *)

Lemma login_owner cfg ip pw req r phc s s1 :
  let ws := login_workspace req in
  exec (stmt (consume LOGIN_RATE_LIMIT lim_login put_login (login_key ws ip))) s = (Ok tt, s1) ->
  workspace_owner (auth s) !! ws = Some r -> ow_password_hash r = Some phc ->
  (argon2_verify pw phc <> Match -> (exec (login cfg ip pw req) s).1 = Err invalid_credentials) /\
  (argon2_verify pw phc = Match ->
   let session := (new_session (random_pos (drawn s))).1 in
   has (actors (ledger (world s))) (ow_owner_actor_id r) = true ->
   has (workspaces (ledger (world s))) ws = true ->
   session_token (auth s) !! token_hash session = None ->
   exists s2, exec (login cfg ip pw req) s =
     (Ok (logged_in (csrf_secret session) ws (ow_owner_actor_id r)
            (build_session_cookie (plaintext session) SESSION_TTL_SECS (tls_enabled cfg))), s2) /\
     exists now iso, auth s2 = set_session (token_hash session)
       (mkSessionRow (ow_owner_actor_id r) ws (csrf_secret session) now iso None) (auth s)).
Proof.
  intros ws Hrate Hr Hphc. unfold stmt in Hrate. simpl in Hrate. fold ws in Hrate.
  destruct (consume_beside LOGIN_RATE_LIMIT lim_login put_login (login_key ws ip) s) as ([Hau Hle] & _ & Hrp).
  destruct (consume _ _ _ _ s) as [[[]|e] s0] eqn:Hc; [|discriminate Hrate].
  injection Hrate as <-. simpl in Hau, Hle, Hrp. split.
  - intros Hv. unfold login, stmt. fold ws. simpl. rewrite Hc. simpl. rewrite Hau, Hr.
    unfold check_owner, verify_password. rewrite Hphc.
    destruct (argon2_verify pw phc); [done|done..].
  - intros Hv session Hact Hws Hfree. unfold login, stmt. fold ws. simpl. rewrite Hc. simpl. rewrite Hau, Hr.
    unfold check_owner, verify_password. rewrite Hphc, Hv. simpl.
    match goal with |- context [mint_session ?x] =>
      destruct (@mint_session_run Response x) as (iso & s2 & -> & Ha2 & Hl2) end.
    simpl in *. unfold map_err, insert_session_token. rewrite Hrp. fold session.
    simpl. rewrite Ha2, Hau, Hfree, Hl2, Hle, Hact, Hws. simpl.
    eexists. split; [done|]. simpl. rewrite Ha2, Hau. by eexists _, _.
Qed.

(** A password that [set_password] has stored is the one that logs in: the
    same password is answered with a new session of the same owner in the same
    workspace, and a password argon2 does not match is answered
    "invalid_credentials". *)
Theorem password_round_trip (Hlaw : Argon2Laws) (cfg : Config) (h : HeaderMap) (pw : string)
    (s s1 s2 : Server) (ip req : option string) :
  exec (set_password cfg h pw) s = (Ok password_set, s1) ->
  exists p r phc, (exec (resolve_principal_for_mutation cfg h POST) s).1 = Ok p /\
    workspace_owner (auth s1) !! p_workspace_id p = Some r /\
    ow_owner_actor_id r = p_actor_id p /\ ow_password_hash r = Some phc /\
    (login_workspace req = p_workspace_id p ->
     exec (stmt (consume LOGIN_RATE_LIMIT lim_login put_login (login_key (login_workspace req) ip))) s1
       = (Ok tt, s2) ->
     (forall pw', argon2_verify pw' phc <> Match ->
        (exec (login cfg ip pw' req) s1).1 = Err invalid_credentials) /\
     (let session := (new_session (random_pos (drawn s1))).1 in
      has (actors (ledger (world s1))) (p_actor_id p) = true ->
      has (workspaces (ledger (world s1))) (p_workspace_id p) = true ->
      session_token (auth s1) !! token_hash session = None ->
      exists s3, exec (login cfg ip pw req) s1 =
        (Ok (logged_in (csrf_secret session) (p_workspace_id p) (p_actor_id p)
               (build_session_cookie (plaintext session) SESSION_TTL_SECS (tls_enabled cfg))), s3))).
Proof.
  intros Hset. unfold set_password in Hset. rewrite exec_bind in Hset.
  apply M_bind_ok in Hset as (p & s0 & Hp & Hset). unfold stmt in Hset. simpl in Hset.
  unfold draw, hash_password in Hset.
  destruct (str_len pw <? MIN_PASSWORD_LEN); simpl in Hset; [discriminate|].
  match type of Hset with context [argon2_hash ?salt pw] =>
    destruct (argon2_hash salt pw) as [phc|e] eqn:Hphc end; simpl in Hset; [|discriminate].
  unfold set_owner_password in Hset. simpl in Hset.
  destruct (workspace_owner (auth s0) !! p_workspace_id p) as [r0|] eqn:Hr0; simpl in Hset; [|discriminate].
  destruct (String.eqb_spec (ow_owner_actor_id r0) (p_actor_id p)) as [Hact|]; simpl in Hset; [|discriminate].
  apply (f_equal snd) in Hset. simpl in Hset. subst s1.
  exists p, (mkOwnerRow (ow_owner_actor_id r0) (Some phc) (Some (clock (time (world s0)))) (ow_created_at r0)), phc.
  split; [by rewrite Hp|]. split; [simpl; by rewrite lookup_insert_eq|]. split; [done|]. split; [done|].
  intros Hws Hrate. match goal with |- context [exec (login cfg ip _ req) ?x] => set (s1 := x) in * end.
  assert (Hrow : workspace_owner (auth s1) !! login_workspace req =
    Some (mkOwnerRow (ow_owner_actor_id r0) (Some phc) (Some (clock (time (world s0)))) (ow_created_at r0)))
    by (rewrite Hws; simpl; by rewrite lookup_insert_eq).
  split.
  - intros pw' Hne. by eapply (login_owner cfg ip pw' req).
  - intros session Ha Hw Hfree. rewrite <- Hact in Ha. rewrite <- Hws in Hw.
    destruct (login_owner cfg ip pw req _ phc s1 s2 Hrate Hrow eq_refl) as [_ Hok].
    destruct Hok as (s3 & Hex & _); [by eapply argon2_round_trip|done..|].
    exists s3. simpl in Hex. by rewrite <- Hact, <- Hws.
Qed.
End flow.
