(* ===== verification/HttpAuth.v ===== *)
(** * The chokepoint of the HTTP surface ([actant-server/src/lib.rs])

    [enforce_auth] decides which requests pass; [dispatch_command] is the route
    that hands a command to the engine, behind the rate limit and the chokepoint.
    The route runs alone here, since [dispatch] is a computation on the ledger. *)

From S2P Require Import Prelude Str Json Core Policy Predicate Storage Command Throttle Auth Prog Server AuthRoutes.
#[local] Open Scope string_scope.
#[local] Open Scope list_scope.
#[local] Open Scope Z_scope.

(** [auth_error]. *)
Definition auth_error (st : Z) (b : Json) : Response := json_response st b.
Definition reverse_proxy_message : string :=
  "the server is in local-mode but received a forwarded proxy header; pass --trust-proxy to honor it or bind non-loopback to enable full auth".

Definition enforce_local_auth_bypass (cfg : Config) (h : HeaderMap) : result Response bool :=
  if negb (local_mode cfg) || bool_decide (is_Some (auth_secret cfg)) then Ok false
  else
    let proxied := contains_key "x-forwarded-for" h || contains_key "forwarded" h
                   || contains_key "x-real-ip" h in
    if proxied && negb (trust_proxy cfg)
    then Err (auth_error 403 (error_message "reverse_proxy_detected" reverse_proxy_message))
    else Ok true.

Definition csrf_header (h : HeaderMap) : option string :=
  v ← match header_get "x-csrf-token" h with Some v => Some v | None => header_get "X-CSRF-Token" h end;
  to_str v.

Definition enforce_missing_auth (secret : option string) : result Response unit :=
  match secret with
  | Some _ => Err (auth_error 401 (error_body "missing_authorization"))
  | None => Ok tt
  end.

(** [prog] of a result. *)
Definition lift {A} (r : result Response A) : H A := Done r.

Section chokepoint.
Context `{SerdeJson} `{Regex} `{Env} `{ServerEnv} `{Rng} `{Sha256} `{Base64} `{Jwt}.

(** [enforce_bearer_auth], once the header has a token. *)
Definition enforce_bearer_auth (cfg : Config) (token workspace_id : string) : H unit :=
  match auth_secret cfg with
  | None => raise (auth_error 401 (error_body "bearer_not_configured"))
  | Some secret =>
      now ← stmt unix_now;
      match verify now token secret with
      | Ok claims =>
          if String.eqb (iss claims) workspace_id then mret tt
          else raise (auth_error 403 (jobj [("error", JString "workspace_mismatch");
                 ("iss", JString (iss claims)); ("workspace_id", JString workspace_id)]))
      | Err _ => raise (auth_error 401 (error_body "invalid_token"))
      end
  end.

Definition validate_session_auth (row : SessionRow) (h : HeaderMap) (m : Method) (workspace_id : string) :
    H unit :=
  if st_revoked_at row is Some _ then raise (auth_error 401 (error_body "revoked")) else
  match unix_of_iso (st_expires_at row) with
  | None => raise (auth_error 401 (error_body "invalid_session_expiry"))
  | Some exp =>
      now ← stmt unix_now;
      if exp <? now then raise (auth_error 401 (error_body "expired")) else
      if negb (String.eqb (st_workspace_id row) workspace_id)
      then raise (auth_error 403 (jobj [("error", JString "workspace_mismatch");
             ("session_workspace", JString (st_workspace_id row)); ("workspace_id", JString workspace_id)])) else
      if is_safe m then mret tt else
      match csrf_header h with
      | None => raise csrf_required
      | Some presented =>
          if verify_csrf (st_csrf_secret row) presented then mret tt else raise csrf_mismatch
      end
  end.

Definition enforce_auth (cfg : Config) (h : HeaderMap) (m : Method) (workspace_id : string) : H unit :=
  bypass ← lift (enforce_local_auth_bypass cfg h);
  if (bypass : bool) then mret tt else
  match bearer h with
  | Some token => enforce_bearer_auth cfg token workspace_id
  | None =>
      match extract_session_cookie h with
      | Some plain =>
          row ← session_row plain;
          match row with
          | None => raise (auth_error 401 (error_body "invalid_session"))
          | Some r => validate_session_auth r h m workspace_id
          end
      | None => lift (enforce_missing_auth (auth_secret cfg))
      end
  end.

(** ** [POST /v1/command] *)

Record CommandRequest := mkCommandRequest {
  cr_workspace : string; cr_actor : string; cr_command_type : string; cr_input : Json;
  cr_idempotency_key : option string
}.

(** [prom::record_command]. *)
Definition record_command (ws command_type : string) (m : gmap (string * string) Z) :
    gmap (string * string) Z :=
  <[(ws, command_type) := default 0 (m !! (ws, command_type)) + 1]> m.

(** [hub.publish], which stamps the message when the topic has a channel. *)
Definition publish_event (push : list RxItem -> Message -> list RxItem) (t : Topic) (payload : Json) :
    M Server Response unit :=
  found ← look (fun s => hub_get t (senders (hub s)));
  match found with
  | None => mret tt
  | Some _ => now ← now_iso; update (with_hub (publish push now t payload))
  end.

Definition command_response (o : CommandOutcome) : Response :=
  json_response 200
    (jobj [("command_id", JString (co_command_id o)); ("event_id", opt_json (co_event_id o));
           ("result", co_result o)]).

Definition dispatch_command (push : list RxItem -> Message -> list RxItem) (policy : PolicyDoc)
    (cfg : Config) (h : HeaderMap) (req : CommandRequest) : M Server Response Response :=
  exec (enforce_rate_limit cfg (cr_workspace req));;
  exec (enforce_auth cfg h POST (cr_workspace req));;
  update (with_counts (record_command (cr_workspace req) (cr_command_type req)));;
  outcome ← (fun s =>
    let '(r, w) := dispatch policy (cr_workspace req) (cr_actor req) (cr_command_type req)
                     (cr_input req) (cr_idempotency_key req) (world s) in
    (Ok r, with_world (fun _ => w) s));
  match outcome with
  | Ok o =>
      publish_event push (mkTopic (cr_workspace req) None "events")
        (jobj [("command_id", JString (co_command_id o)); ("event_id", opt_json (co_event_id o));
               ("result", co_result o)]);;
      mret (command_response o)
  | Err e => mret (err_response e)
  end.

(** ** Who passes *)

(** The clock's next reading. *)
Definition clock_of (s : Server) : Z := unix_clock (unix_reads (drawn s)).

Definition proxied (h : HeaderMap) : bool :=
  contains_key "x-forwarded-for" h || contains_key "forwarded" h || contains_key "x-real-ip" h.
(** The local bypass: loopback, no secret, and no sign of a proxy that is not trusted. *)
Definition trusted_local (cfg : Config) (h : HeaderMap) : Prop :=
  local_mode cfg = true /\ auth_secret cfg = None /\ (proxied h = false \/ trust_proxy cfg = true).
(** A token signed with the server's secret for the workspace, not expired. *)
Definition bearer_admitted (cfg : Config) (h : HeaderMap) (ws : string) (s : Server) : Prop :=
  exists token secret claims, bearer h = Some token /\ auth_secret cfg = Some secret /\
    verify (clock_of s) token secret = Ok claims /\ iss claims = ws.
(** A live session of the workspace, with its CSRF secret for a mutation. *)
Definition session_admitted (h : HeaderMap) (m : Method) (ws : string) (s : Server) : Prop :=
  exists plain r t, bearer h = None /\ extract_session_cookie h = Some plain /\
    session_token (auth s) !! hash_token plain = Some r /\ st_revoked_at r = None /\
    unix_of_iso (st_expires_at r) = Some t /\ clock_of s <= t /\ st_workspace_id r = ws /\
    (is_safe m = true \/ csrf_header h = Some (st_csrf_secret r)).
(** No credential at all, and no secret to ask for. *)
Definition anonymous_admitted (cfg : Config) (h : HeaderMap) : Prop :=
  bearer h = None /\ extract_session_cookie h = None /\ auth_secret cfg = None.

Definition admitted (cfg : Config) (h : HeaderMap) (m : Method) (ws : string) (s : Server) : Prop :=
  trusted_local cfg h \/
  ((local_mode cfg = false \/ is_Some (auth_secret cfg)) /\
   (bearer_admitted cfg h ws s \/ session_admitted h m ws s \/ anonymous_admitted cfg h)).

(** The first gate: passed by, refused, or left to the credentials. *)
Lemma local_bypass_spec cfg h :
  match enforce_local_auth_bypass cfg h with
  | Ok true => trusted_local cfg h
  | Ok false => local_mode cfg = false \/ is_Some (auth_secret cfg)
  | Err _ => local_mode cfg = true /\ auth_secret cfg = None /\ proxied h = true /\ trust_proxy cfg = false
  end.
Proof.
  unfold enforce_local_auth_bypass, trusted_local, proxied.
  destruct (local_mode cfg); simpl; [|by left].
  destruct (auth_secret cfg); simpl; [by right|].
  destruct (_ || _ || _); simpl; [|tauto]. destruct (trust_proxy cfg); simpl; tauto.
Qed.

Lemma enforce_bearer_spec cfg h token ws s :
  bearer h = Some token ->
  ((exec (enforce_bearer_auth cfg token ws) s).1 = Ok tt <-> bearer_admitted cfg h ws s).
Proof.
  intros Hb. unfold enforce_bearer_auth, bearer_admitted, clock_of. rewrite Hb.
  destruct (auth_secret cfg) as [secret|]; simpl; [|split; [done|]; by intros (? & ? & ? & _ & ? & _)].
  destruct (verify _ token secret) as [claims|e] eqn:Hv; simpl.
  - destruct (String.eqb_spec (iss claims) ws); simpl; split; try done.
    + intros _. by exists token, secret, claims.
    + intros (? & ? & ? & [= <-] & [= <-] & Hv' & ?). congruence.
  - split; [done|]. intros (? & ? & ? & [= <-] & [= <-] & Hv' & _). congruence.
Qed.

Lemma validate_session_spec r h m ws s :
  (exec (validate_session_auth r h m ws) s).1 = Ok tt <->
  st_revoked_at r = None /\ (exists t, unix_of_iso (st_expires_at r) = Some t /\ clock_of s <= t) /\
  st_workspace_id r = ws /\ (is_safe m = true \/ csrf_header h = Some (st_csrf_secret r)).
Proof.
  unfold validate_session_auth, clock_of.
  destruct (st_revoked_at r); simpl; [split; [done|]; by intros (? & _)|].
  destruct (unix_of_iso (st_expires_at r)) as [t|]; simpl; [|split; [done|]; by intros (_ & (? & ? & _) & _)].
  destruct (Z.ltb_spec t (unix_clock (unix_reads (drawn s)))) as [Hlt|Hge]; simpl;
    [split; [done|]; intros (_ & (? & [= <-] & ?) & _); lia|].
  destruct (String.eqb_spec (st_workspace_id r) ws) as [Hws|Hws]; simpl; [|split; [done|]; by intros (_ & _ & ? & _)].
  destruct (is_safe m); simpl; [split; [|done]; intros _; repeat split; try done; [by exists t|by left]|].
  destruct (csrf_header h) as [csrf|]; simpl; [|split; [done|]; by intros (_ & _ & _ & [?|?])].
  rewrite verify_csrf_eq. destruct (String.eqb_spec (st_csrf_secret r) csrf) as [<-|Hne]; simpl; split; try done.
  - intros _. split; [done|]. split; [by exists t|]. split; [done|by right].
  - intros (_ & _ & _ & [?|[= ->]]); done.
Qed.

Lemma enforce_auth_iff cfg h m ws s :
  (exec (enforce_auth cfg h m ws) s).1 = Ok tt <-> admitted cfg h m ws s.
Proof.
  unfold enforce_auth, admitted. pose proof (local_bypass_spec cfg h) as Hl.
  destruct (enforce_local_auth_bypass cfg h) as [[]|e]; simpl.
  - split; [by left|done].
  - assert (Hno : ~ trusted_local cfg h).
    { intros (Hm & Hs & _). destruct Hl as [?|[? ?]]; congruence. }
    destruct (bearer h) as [token|] eqn:Hb.
    + rewrite (enforce_bearer_spec cfg h token ws s Hb). split; [tauto|].
      intros [?|[_ [?|[(? & ? & ? & Hb' & _)|(Hb' & _)]]]]; [done|done|congruence..].
    + destruct (extract_session_cookie h) as [plain|] eqn:Hc.
      * assert (Hex : (exec (row ← session_row plain;
            match row with
            | None => raise (auth_error 401 (error_body "invalid_session"))
            | Some r => validate_session_auth r h m ws
            end) s).1 = Ok tt <-> session_admitted h m ws s).
        { unfold session_row, stmt, session_admitted. simpl. rewrite Hb, Hc.
          destruct (session_token (auth s) !! hash_token plain) as [r|] eqn:Hr; simpl.
          - rewrite validate_session_spec. split.
            + intros (Ha1 & (t & Ha2 & Ha3) & Ha4 & Ha5). by exists plain, r, t.
            + intros (? & ? & t & _ & [= <-] & Hr' & Ha1 & Ha2 & Ha3 & Ha4 & Ha5).
              rewrite Hr in Hr'. injection Hr' as <-. repeat split; try done. by exists t.
          - split; [done|]. intros (? & ? & ? & _ & [= <-] & Hr' & _). congruence. }
        rewrite Hex. split; [tauto|].
        intros [?|[_ [(? & ? & ? & Hb' & _)|[?|(_ & Hc' & _)]]]]; [done|congruence|done|congruence].
      * unfold lift, anonymous_admitted. rewrite Hb, Hc.
        destruct (auth_secret cfg) as [secret|] eqn:Hsec; simpl.
        -- split; [done|].
           intros [?|[_ [(? & ? & ? & Hb' & _)|[(? & ? & ? & _ & Hc' & _)|(_ & _ & ?)]]]]; congruence.
        -- split; [|done]. intros _. right. split; [|by right; right]. by destruct Hl as [?|[? ?]]; [left|].
  - split; [done|]. destruct Hl as (Hm & Hs & Hp & Ht).
    intros [(_ & _ & [?|?])|[[?|[? ?]] _]]; congruence.
Qed.

(** C12: [enforce_auth] lets a request pass exactly when it comes under the local
    bypass, or else carries a bearer token signed for the workspace, or has no
    bearer token and the cookie of a live session of the workspace, with the
    session's CSRF secret unless the method is safe, or carries no credential
    while no secret is configured.  A bearer token always decides alone: a request
    with a bad one does not fall back to its cookie. *)
Theorem enforce_auth_spec (cfg : Config) (h : HeaderMap) (m : Method) (ws : string) (s : Server) :
  (exec (enforce_auth cfg h m ws) s).1 = Ok tt <-> admitted cfg h m ws s.
Proof. apply enforce_auth_iff. Qed.

(** *** Nothing before the engine touches the ledger *)

(** What the gates leave as it was. *)
Definition gate_same (s s' : Server) : Prop :=
  world s' = world s /\ auth s' = auth s /\ hub s' = hub s /\ command_counts s' = command_counts s.

Lemma consume_same p get put key s :
  gate_same s (consume p get put key s).2 /\ clock_of (consume p get put key s).2 = clock_of s.
Proof.
  unfold consume, mbind, M_bind. simpl.
  destruct (get (limiters s) !! key) as [b|]; simpl; by destruct (try_consume _ _ _ _) as [[] b'].
Qed.

Lemma rate_limit_same cfg ws s :
  gate_same s (exec (enforce_rate_limit cfg ws) s).2 /\
  clock_of (exec (enforce_rate_limit cfg ws) s).2 = clock_of s.
Proof.
  unfold enforce_rate_limit. destruct (rate_policy cfg) as [p|]; [|done]. unfold stmt. simpl.
  pose proof (consume_same p lim_command put_command ws s) as Hc.
  by destruct (consume _ _ _ _ s) as [[[]|e] s'].
Qed.

Lemma enforce_auth_same cfg h m ws s : gate_same s (exec (enforce_auth cfg h m ws) s).2.
Proof.
  unfold enforce_auth. destruct (enforce_local_auth_bypass cfg h) as [[]|e]; [done| |done]. simpl.
  destruct (bearer h); [unfold enforce_bearer_auth; simpl; repeat (case_match; simpl; try done)|].
  destruct (extract_session_cookie h) as [plain|]; simpl.
  - destruct (session_token (auth s) !! hash_token plain); simpl; [|done]. unfold validate_session_auth. repeat (case_match; simpl; try done).
  - by destruct (enforce_missing_auth (auth_secret cfg)).
Qed.

Lemma admitted_same cfg h m ws s s' :
  auth s' = auth s -> clock_of s' = clock_of s -> admitted cfg h m ws s' -> admitted cfg h m ws s.
Proof. unfold admitted, bearer_admitted, session_admitted. by intros -> ->. Qed.

Lemma command_route_gated_ (push : list RxItem -> Message -> list RxItem) (policy : PolicyDoc)
    (cfg : Config) (h : HeaderMap) (req : CommandRequest) (s s' : Server) (a : result Response Response) :
  dispatch_command push policy cfg h req s = (a, s') ->
  ((exists e, a = Err e) /\ gate_same s s') \/
  (admitted cfg h POST (cr_workspace req) s /\
   (is_Some (auth_secret cfg) ->
      bearer_admitted cfg h (cr_workspace req) s \/ session_admitted h POST (cr_workspace req) s) /\
   auth s' = auth s /\
   command_counts s' = record_command (cr_workspace req) (cr_command_type req) (command_counts s) /\
   let '(r, w) := dispatch policy (cr_workspace req) (cr_actor req) (cr_command_type req)
                    (cr_input req) (cr_idempotency_key req) (world s) in
   ledger (world s') = ledger w /\
   a = Ok match r with Ok o => command_response o | Err e => err_response e end).
Proof.
  unfold dispatch_command. unfold mbind at 1, M_bind at 1.
  destruct (rate_limit_same cfg (cr_workspace req) s) as [(Hw1 & Ha1 & Hh1 & Hc1) Hu1].
  destruct (exec (enforce_rate_limit cfg (cr_workspace req)) s) as [[[]|e] s1]; simpl in *;
    [|intros [= <- <-]; left; by split; [eexists|]].
  unfold mbind at 1, M_bind at 1.
  destruct (enforce_auth_same cfg h POST (cr_workspace req) s1) as (Hw2 & Ha2 & Hh2 & Hc2).
  pose proof (enforce_auth_iff cfg h POST (cr_workspace req) s1) as Hadm.
  destruct (exec (enforce_auth cfg h POST (cr_workspace req)) s1) as [[[]|e] s2]; simpl in *;
    [|intros [= <- <-]; left; split; [by eexists|]; unfold gate_same; by repeat split; etrans].
  assert (Hs : admitted cfg h POST (cr_workspace req) s).
  { eapply admitted_same; [exact Ha1|exact Hu1|]. by apply Hadm. }
  intros Hrun. right. split; [done|]. split.
  { intros [sec Hsec]. destruct Hs as [(_ & Hn & _)|[_ [?|[?|(_ & _ & Hn)]]]]; [congruence|by left|by right|congruence]. }
  unfold mbind at 1, M_bind at 1 in Hrun. simpl in Hrun.
  unfold mbind at 1, M_bind at 1 in Hrun. simpl in Hrun. rewrite Hw2, Hw1 in Hrun.
  destruct (dispatch policy (cr_workspace req) (cr_actor req) (cr_command_type req) (cr_input req)
              (cr_idempotency_key req) (world s)) as [[o|e] w]; simpl in Hrun.
  - unfold publish_event, mbind, M_bind in Hrun. simpl in Hrun.
    destruct (hub_get _ _); simpl in Hrun; injection Hrun as <- <-; simpl; repeat split; congruence.
  - injection Hrun as <- <-. simpl. repeat split; congruence.
Qed.


(** What the server's binary starts, remote without a secret, lets anyone pass who
    shows no credential: the design promises 401 there. *)
Lemma remote_admits_anonymous tls trust h m ws s :
  bearer h = None -> extract_session_cookie h = None ->
  (exec (enforce_auth (mkConfig None None false tls trust) h m ws) s).1 = Ok tt.
Proof. intros Hb Hc. apply enforce_auth_iff. right. split; [by left|]. by right; right. Qed.

(** And a cookie without its CSRF secret is refused where none would have passed. *)
Lemma remote_refuses_worse_cookie tls trust h ws s plain :
  bearer h = None -> extract_session_cookie h = Some plain -> csrf_header h = None ->
  (exec (enforce_auth (mkConfig None None false tls trust) h POST ws) s).1 <> Ok tt.
Proof.
  intros Hb Hc Hcs Hex. apply enforce_auth_iff in Hex.
  destruct Hex as [(? & _)|[_ [(? & ? & ? & Hb' & _)|[(? & ? & ? & _ & _ & _ & _ & _ & _ & _ & [?|?])|(_ & ? & _)]]]];
    simpl in *; congruence.
Qed.
End chokepoint.
