(* ===== verification/AuthDemo.v ===== *)
(** * Concrete runs of the auth surface

    Witnesses for the theorems on linking, sessions, passwords and the chokepoint,
    and runs where the code and its design document part ways. *)

From S2P Require Import Prelude Str Json Core Policy Predicate Storage Command EngineDemo Throttle Auth Prog Server AuthRoutes AuthRace AuthFlow HttpAuth.
#[local] Open Scope string_scope.
#[local] Open Scope list_scope.
#[local] Open Scope Z_scope.

#[local] Existing Instance demo_env.
#[local] Existing Instance the_serde.
#[local] Existing Instance the_regex.
#[local] Existing Instance demo_sha256.
#[local] Existing Instance demo_b64.
#[local] Existing Instance demo_jwt.

(** The wall clock ticks once a reading from second 1000 on; the monotonic clock
    stands still; instants are written in decimal. *)
#[local] Instance demo_server_env : ServerEnv := {|
  unix_clock n := 1000 + Z.of_nat n; instant _ := 0;
  iso_of_unix t := Some (show_Z t); unix_of_iso := parse_usize
|}.
#[local] Instance demo_rng : Rng := fun n => Z.of_nat n mod 256.
(** A stand-in for argon2: the PHC string is a prefix and the password. *)
#[local] Instance demo_argon2 : Argon2 := {|
  argon2_hash _ p := Ok ("$demo$" +:+ p);
  argon2_verify p phc := match strip_prefix "$demo$" phc with
                         | Some q => if String.eqb p q then Match else Mismatch
                         | None => Malformed "no prefix"
                         end
|}.
Lemma demo_argon2_laws : Argon2Laws.
Proof.
  constructor. intros salt p phc [= <-]. cbv [argon2_verify demo_argon2].
  by rewrite strip_prefix_app, String.eqb_refl.
Qed.

Definition new_server : Server :=
  mkServer (mkWorld empty_ledger 0 0) (mkAuthDb ∅ ∅ ∅) (mkLimiters ∅ ∅ ∅ ∅) (mkDrawn 0 0 0) (mkHub []) ∅.
Definition remote : Config := mkConfig None None false true false.
Definition booted_server : Server := (exec (bootstrap_with_mode 12 false true false) new_server).2.
Definition the_code : string := "abcd-efgh-jkmn".
Definition redeem (s : Server) := exec (link_redeem remote (Some "10.0.0.1") "ABCD EFGH JKMN" None) s.
Definition linked_server : Server := (redeem booted_server).2.

Definition outcome (a : result Response Response) : Z * option string :=
  match a with
  | Ok r | Err r => (status r, v ← match jget "status" (body r) with Some x => Some x | None => jget "error" (body r) end; as_str v)
  end.

Lemma boot_code_links_once_witness :
  (exec (bootstrap_with_mode 12 false true false) new_server).1 = Ok (remote, Some the_code) /\
  exists resp s2, redeem booted_server = (Ok resp, s2) /\ linked_to resp = Some DEFAULT_WORKSPACE_ID /\
    (redeem s2).1 = Err already_claimed.
Proof.
  assert (Hb : exec (bootstrap_with_mode 12 false true false) new_server =
    (Ok (remote, Some the_code), booted_server)) by (vm_compute; reflexivity).
  split; [by rewrite Hb|].
  destruct (boot_code_links_once 12 true false new_server "1900") as (cfg & code & s1 & Hboot & Hlink);
    [repeat split|vm_compute; lia|vm_compute; reflexivity|vm_compute; reflexivity|].
  rewrite Hb in Hboot. injection Hboot as <- <- <-.
  destruct (Hlink "ABCD EFGH JKMN" (Some "10.0.0.1") (exec (enforce_link_rate (Some "10.0.0.1")) booted_server).2)
    as (resp & s2 & Hex & Hl & Hagain); [vm_compute; reflexivity|vm_compute; reflexivity|vm_compute; discriminate|].
  exists resp, s2. split; [exact Hex|]. split; [exact Hl|].
  assert (Hs2 : s2 = linked_server) by (unfold linked_server, redeem; by rewrite Hex).
  apply (Hagain "ABCD EFGH JKMN" (Some "10.0.0.1") (exec (enforce_link_rate (Some "10.0.0.1")) s2).2);
    [vm_compute; reflexivity|].
  rewrite Hs2. vm_compute. reflexivity.
Defined.

Lemma link_redeem_all_or_nothing_witness :
  outcome (redeem booted_server).1 = (200, Some "linked") /\
  answered_linked (redeem booted_server).1 = Some "ws_default" /\
  workspace_owner (auth booted_server) !! "ws_default" = None.
Proof.
  split; [vm_compute; reflexivity|]. split; [vm_compute; reflexivity|].
  pose proof (link_redeem_all_or_nothing remote (Some "10.0.0.1") "ABCD EFGH JKMN" None booted_server
    linked_server (redeem booted_server).1 ltac:(unfold linked_server, redeem; apply surjective_pairing)) as Hall.
  replace (answered_linked (redeem booted_server).1) with (Some "ws_default") in Hall by (vm_compute; reflexivity).
  destruct Hall as (r & now & iso & _ & _ & _ & _ & _ & Ho & _). exact Ho.
Defined.

(** Two browsers redeem the code at once; both read its row before either claims. *)
Definition two_links : list Call :=
  [CLink (Some "10.0.0.1") the_code None; CLink (Some "10.0.0.2") the_code None].
Definition race := run_schedule [0;1;0;1;0;1;0;1]%nat (map (serve remote) two_links) booted_server.

Lemma link_exclusive_witness :
  map (fun p => outcome <$> answer p) race.1 = [Some (200, Some "linked"); Some (409, Some "already_owned")] /\
  is_Some (workspace_owner (auth race.2) !! "ws_default").
Proof.
  split; [vm_compute; reflexivity|].
  destruct (link_exclusive remote two_links booted_server race.2 race.1) as (_ & Hw & _).
  { unfold race. rewrite <- surjective_pairing. apply run_schedule_steps. }
  destruct (race.1 !! 0%nat) as [p|] eqn:Hp; [|vm_compute in Hp; discriminate].
  assert (Ha : (p ← race.1 !! 0%nat; r ← answer p; answered_linked r) = Some "ws_default")
    by (vm_compute; reflexivity).
  rewrite Hp in Ha. simpl in Ha. destruct (answer p) as [r|] eqn:Hans; [|discriminate].
  by apply (Hw 0%nat p r "ws_default").
Defined.

(** ** Sessions *)

Definition the_session : SessionToken := (new_session (random_pos (drawn booted_server))).1.
Definition the_cookie : string * string := ("cookie", "theme=dark; actantdb_session=" +:+ plaintext the_session).
Definition csrf_of (c : string) : string * string := ("x-csrf-token", c).
Definition browser : HeaderMap := [the_cookie; csrf_of (csrf_secret the_session)].
Definition owner : Principal := mkPrincipal "ws_default" "act_system" ["owner"] 2593002.

Lemma mutation_needs_csrf_witness :
  (exec (resolve_principal_for_mutation remote browser POST) linked_server).1 = Ok owner /\
  auth (exec (resolve_principal_for_mutation remote browser POST) linked_server).2 = auth linked_server.
Proof.
  split; [vm_compute; reflexivity|].
  apply (mutation_needs_csrf remote browser POST linked_server owner); vm_compute; reflexivity.
Defined.

Example mutation_without_csrf :
  outcome ((r ← exec (resolve_principal_for_mutation remote [the_cookie] POST); mret (logged_out "")) linked_server).1
    = (403, Some "csrf_required") /\
  outcome ((r ← exec (resolve_principal_for_mutation remote [the_cookie; csrf_of "x"] POST); mret (logged_out "")) linked_server).1
    = (403, Some "csrf_mismatch").
Proof. vm_compute. auto. Qed.


(** ** Passwords *)

Definition pw_server : Server := (exec (set_password remote browser "correct horse") linked_server).2.

Lemma password_round_trip_witness :
  exists s3, exec (login remote (Some "10.0.0.9") "correct horse" None) pw_server =
    (Ok (logged_in (csrf_secret (new_session (random_pos (drawn pw_server))).1) "ws_default" "act_system"
       (build_session_cookie (plaintext (new_session (random_pos (drawn pw_server))).1) SESSION_TTL_SECS true)), s3).
Proof.
  assert (Hset : exec (set_password remote browser "correct horse") linked_server = (Ok password_set, pw_server))
    by (vm_compute; reflexivity).
  destruct (password_round_trip demo_argon2_laws remote browser "correct horse" linked_server pw_server
    (exec (stmt (consume LOGIN_RATE_LIMIT lim_login put_login (login_key "ws_default" (Some "10.0.0.9")))) pw_server).2
    (Some "10.0.0.9") None Hset) as (p & r & phc & Hp & _ & _ & _ & Hlogin).
  assert (Hown : (exec (resolve_principal_for_mutation remote browser POST) linked_server).1 = Ok owner)
    by (vm_compute; reflexivity).
  rewrite Hown in Hp. injection Hp as <-.
  destruct Hlogin as [_ Hok]; [reflexivity|vm_compute; reflexivity|].
  apply Hok; vm_compute; reflexivity.
Defined.

Example wrong_password :
  outcome (exec (login remote (Some "10.0.0.9") "wrong horse" None) pw_server).1 = (401, Some "invalid_credentials").
Proof. vm_compute. reflexivity. Qed.

(** Setting a password asks for no proof of the one before, and ends no session:
    the second password replaces the first, and the cookie still works. *)
Example password_replaced_without_proof :
  let s := (exec (set_password remote browser "second horse") pw_server).2 in
  outcome (exec (set_password remote browser "second horse") pw_server).1 = (200, Some "set") /\
  outcome (exec (login remote None "correct horse" None) s).1 = (401, Some "invalid_credentials") /\
  (exec (resolve_principal remote browser) s).1 = Ok owner.
Proof. vm_compute. auto. Qed.

(** A server without a secret ignores a bearer token, but its presence skips the
    CSRF check: the cookie alone then authorises a mutation. *)
Example bearer_header_skips_csrf :
  (exec (resolve_principal_for_mutation remote [("authorization", "Bearer x"); the_cookie] POST) linked_server).1
    = Ok owner /\
  outcome (exec (set_password remote [("authorization", "Bearer x"); the_cookie] "hijacked!") linked_server).1
    = (200, Some "set").
Proof. vm_compute. auto. Qed.

(** ** The chokepoint *)

Definition command (h : HeaderMap) (cfg : Config) (ws actor : string) :=
  dispatch_command (fun q m => q ++ [RxMsg m]) alpha_demo_policy cfg h
    (mkCommandRequest ws actor "create_session" (jobj [("title", JString "t")]) None).
Definition with_secret : Config := with_auth "key" remote.


(** Without a credential, and without a secret (the server's binary configures
    none), a remote server runs anyone's command in any workspace. *)
Example anonymous_command_runs :
  let r := command [] remote "ws_default" "act_mallory" booted_server in
  (outcome r.1).1 = 200 /\
  size (sessions (ledger (world r.2))) = 1%nat.
Proof. vm_compute. auto. Qed.
(** With one it is refused. *)
Example anonymous_command_refused :
  outcome (command [] with_secret "ws_default" "act_mallory" booted_server).1 = (401, Some "missing_authorization").
Proof. vm_compute. reflexivity. Qed.
(** The session of one workspace opens no other, but any actor of its own. *)
Example session_bound_to_workspace :
  outcome (command browser with_secret "ws_other" "act_alice" linked_server).1 = (403, Some "workspace_mismatch") /\
  (outcome (command browser with_secret "ws_default" "act_somebody_else" linked_server).1).1 = 200.
Proof. vm_compute. auto. Qed.
(** A bearer token that does not verify is not made up for by a good cookie. *)
Example bad_bearer_no_fallback :
  outcome (command (("authorization", "Bearer x") :: browser) with_secret "ws_default" "act_alice" linked_server).1
    = (401, Some "invalid_token").
Proof. vm_compute. reflexivity. Qed.

(** ** Guessing *)

Fixpoint guesses (n : nat) (s : Server) : list Z :=
  match n with
  | O => []
  | S k => let '(a, s') := exec (link_redeem remote (Some "10.0.0.1") "2345-6789-abcd" None) s in
           (outcome a).1 :: guesses k s'
  end.
Example guesses_are_limited : guesses 7 booted_server = [404; 404; 404; 404; 404; 429; 429].
Proof. vm_compute. reflexivity. Qed.
