(* ===== verification/AutoRest.v ===== *)
(** * The generated REST routes ([actant-server/src/auto_rest.rs], schema_introspect.rs)

    A request names a table and columns of the introspected schema; the handlers
    build a statement and bind its values.  [select_text], [update_text] and
    [delete_text] are the code's string building; a [Statement] is what the text
    says, and the tables are changed by what the statement means, as SQLite has
    it: comparison, LIKE and the coercion of a bound text are its own, a parameter.
    The tables here are the generic view of the database; the gates before the
    statement read the server's typed one. *)

From S2P Require Import Prelude Str Json Core Storage Throttle Auth Prog Server AuthRoutes HttpAuth.
#[local] Open Scope string_scope.
#[local] Open Scope list_scope.
#[local] Open Scope Z_scope.

(** ** The schema cache *)

Definition APPEND_ONLY_TABLES : list string := ["agent_event"; "command_record"].

Record ColumnMeta := mkColumnMeta { c_name : string; c_type : string; c_notnull : bool; c_pk : bool }.
Record TableMeta := mkTableMeta { t_name : string; columns : list ColumnMeta }.

(** [column_names] holds the names of [columns]. *)
Definition has_column (tbl : TableMeta) (name : string) : bool :=
  List.existsb (fun c => String.eqb (c_name c) name) (columns tbl).
Definition column (tbl : TableMeta) (name : string) : option ColumnMeta :=
  List.find (fun c => String.eqb (c_name c) name) (columns tbl).

(** [name LIKE 'p_%']: the letters of [p] in any case, then at least one character. *)
Definition like_prefix_more (p name : string) : bool :=
  match strip_prefix (to_ascii_lowercase p) (to_ascii_lowercase name) with
  | Some (String _ _) => true
  | _ => false
  end.

(** One table of [sqlite_master] with its [PRAGMA table_info]: is it exposed? *)
Definition exposed (tbl : TableMeta) : bool :=
  negb (like_prefix_more "sqlite" (t_name tbl)) && negb (like_prefix_more "schema" (t_name tbl))
  && negb (List.existsb (String.eqb (t_name tbl)) APPEND_ONLY_TABLES)
  && (has_column tbl "workspace_id" || String.eqb (t_name tbl) "workspace").

(** [SchemaCache::introspect] over the tables of the database. *)
Definition SchemaCache : Type := list (string * TableMeta).
Definition introspect (tables : list TableMeta) : SchemaCache :=
  fold_left (fun m t => if exposed t then bt_insert (t_name t) t m else m) tables [].
Definition table (cache : SchemaCache) (name : string) : option TableMeta := jlookup name cache.
Definition table_names (cache : SchemaCache) : list string := List.map fst cache.

(** ** Query parameters *)

Inductive FilterOp :=
| FEq (v : string) | FNe (v : string) | FLt (v : string) | FLe (v : string) | FGt (v : string)
| FGe (v : string) | FLike (v : string) | FIn (vs : list string) | FIsNull | FIsNotNull.
Record Filter := mkFilter { f_column : string; f_op : FilterOp; f_is_pk : bool }.

(** [splitn(2, c)]: up to the first [c], and the rest when there is one. *)
Fixpoint split_once (c : Ascii.ascii) (s : string) : string * option string :=
  match s with
  | EmptyString => ("", None)
  | String a s' =>
      if Ascii.eqb a c then ("", Some s')
      else let '(h, t) := split_once c s' in (String a h, t)
  end.

(** [split(',')], trimmed, without the empty ones. *)
Definition comma_list (s : string) : list string :=
  List.filter (fun x => negb (String.eqb x "")) (List.map trim (split_char ","%char s)).

Definition parse_op (value : string) : result string FilterOp :=
  let '(op, tail) := split_once "."%char value in
  let rest := default "" tail in
  if String.eqb op "eq" then Ok (FEq rest)
  else if String.eqb op "neq" then Ok (FNe rest)
  else if String.eqb op "lt" then Ok (FLt rest)
  else if String.eqb op "lte" then Ok (FLe rest)
  else if String.eqb op "gt" then Ok (FGt rest)
  else if String.eqb op "gte" then Ok (FGe rest)
  else if String.eqb op "like" then Ok (FLike rest)
  else if String.eqb op "in" then
    match comma_list (trim_end_matches ")"%char (trim_start_matches "("%char rest)) with
    | [] => Err "in.() requires at least one value"
    | items => Ok (FIn items)
    end
  else if String.eqb op "is" then
    if String.eqb rest "null" then Ok FIsNull
    else if String.eqb rest "not.null" then Ok FIsNotNull
    else Err ("unsupported is." +:+ rest)
  else Err ("unsupported filter op '" +:+ op
              +:+ "'; expected one of eq, neq, lt, gt, lte, gte, like, in, is").

Definition parse_filter (col value : string) (tbl : TableMeta) : result string Filter :=
  match column tbl col with
  | None => Err ("unknown column '" +:+ col +:+ "'")
  | Some c => op ← parse_op value; mret (mkFilter col op (c_pk c))
  end.

Definition parse_order (spec : string) (tbl : TableMeta) : result string (string * bool) :=
  let '(col, tail) := split_once "."%char spec in
  let dir := default "asc" tail in
  if negb (has_column tbl col) then Err ("unknown column '" +:+ col +:+ "' in order")
  else if String.eqb dir "asc" || String.eqb dir "" then Ok (col, true)
  else if String.eqb dir "desc" then Ok (col, false)
  else Err ("invalid order direction '" +:+ dir +:+ "'").

(** The first column of a selection that the table does not have. *)
Definition unknown_column (tbl : TableMeta) (names : list string) : option string :=
  List.find (fun n => negb (has_column tbl n)) names.

Definition build_select (select : option string) (tbl : TableMeta) : result string (list string) :=
  match select with
  | Some list =>
      if String.eqb list "*" || String.eqb list "" then Ok (List.map c_name (columns tbl))
      else let names := comma_list list in
           match unknown_column tbl names with
           | Some n => Err ("unknown column '" +:+ n +:+ "' in select")
           | None => Ok names
           end
  | None => Ok (List.map c_name (columns tbl))
  end.

(** [s.parse::<u32>()]. *)
Definition parse_u32 (s : string) : option Z :=
  n ← parse_usize s; if n <=? u32_max then Some n else None.

Record RequestParams := mkRequestParams {
  rp_workspace_id : string; rp_select : list string; rp_filters : list Filter;
  rp_order : option (string * bool); rp_limit : option Z; rp_offset : option Z
}.
(** What the loop over the parameters has seen. *)
Record Seen := mkSeen {
  s_workspace : option string; s_select : option string; s_order : option (string * bool);
  s_limit : option Z; s_offset : option Z; s_filters : list Filter
}.

Definition see (tbl : TableMeta) (kv : string * string) (a : Seen) : result string Seen :=
  let '(k, v) := kv in
  if String.eqb k "workspace_id" then
    Ok (mkSeen (Some v) (s_select a) (s_order a) (s_limit a) (s_offset a) (s_filters a))
  else if String.eqb k "select" then
    Ok (mkSeen (s_workspace a) (Some v) (s_order a) (s_limit a) (s_offset a) (s_filters a))
  else if String.eqb k "order" then
    o ← parse_order v tbl;
    mret (mkSeen (s_workspace a) (s_select a) (Some o) (s_limit a) (s_offset a) (s_filters a))
  else if String.eqb k "limit" then
    n ← ok_or "invalid limit" (parse_u32 v);
    mret (mkSeen (s_workspace a) (s_select a) (s_order a) (Some n) (s_offset a) (s_filters a))
  else if String.eqb k "offset" then
    n ← ok_or "invalid offset" (parse_u32 v);
    mret (mkSeen (s_workspace a) (s_select a) (s_order a) (s_limit a) (Some n) (s_filters a))
  else
    f ← parse_filter k v tbl;
    mret (mkSeen (s_workspace a) (s_select a) (s_order a) (s_limit a) (s_offset a) (s_filters a ++ [f])).

Fixpoint see_all (tbl : TableMeta) (params : list (string * string)) (a : Seen) : result string Seen :=
  match params with
  | [] => Ok a
  | kv :: params' => a' ← see tbl kv a; see_all tbl params' a'
  end.

Definition workspace_required : string := "workspace_id query parameter is required".
Definition parse (params : list (string * string)) (tbl : TableMeta) : result string RequestParams :=
  a ← see_all tbl params (mkSeen None None None None None []);
  ws ← ok_or workspace_required (s_workspace a);
  if String.eqb ws "" then Err workspace_required
  else cols ← build_select (s_select a) tbl;
       mret (mkRequestParams ws cols (s_filters a) (s_order a) (s_limit a) (s_offset a)).

Definition is_pk_eq (f : Filter) : bool :=
  f_is_pk f && match f_op f with FEq _ => true | _ => false end.
Definition implies_single_row (p : RequestParams) : bool := List.existsb is_pk_eq (rp_filters p).

(** ** The text of the statements *)

Definition quote : Ascii.ascii := "034"%char.
(** [escape_ident]: every quote doubled. *)
Fixpoint escape_ident (s : string) : string :=
  match s with
  | EmptyString => ""
  | String a s' => if Ascii.eqb a quote then String quote (String quote (escape_ident s'))
                   else String a (escape_ident s')
  end.
Definition ident (s : string) : string := String quote (escape_ident s +:+ String quote "").

(** The operator of a filter and the values it binds. *)
Definition op_text (op : FilterOp) : string :=
  match op with
  | FEq _ => " = ?" | FNe _ => " <> ?" | FLt _ => " < ?" | FLe _ => " <= ?" | FGt _ => " > ?"
  | FGe _ => " >= ?" | FLike _ => " LIKE ?"
  | FIn vs => " IN (" +:+ join ", " (List.map (fun _ => "?") vs) +:+ ")"
  | FIsNull => " IS NULL" | FIsNotNull => " IS NOT NULL"
  end.
Definition op_binds (op : FilterOp) : list string :=
  match op with
  | FEq v | FNe v | FLt v | FLe v | FGt v | FGe v | FLike v => [v]
  | FIn vs => vs
  | FIsNull | FIsNotNull => []
  end.
(** [Filter::append_to], for every filter. *)
Definition filter_text (f : Filter) : string := " AND " +:+ ident (f_column f) +:+ op_text (f_op f).
Definition filters_text (fs : list Filter) : string := String.concat "" (List.map filter_text fs).
Definition filters_binds (fs : list Filter) : list string := List.concat (List.map (fun f => op_binds (f_op f)) fs).

Definition select_text (tbl : TableMeta) (p : RequestParams) : string :=
  "SELECT " +:+ join ", " (List.map ident (rp_select p)) +:+ " FROM " +:+ ident (t_name tbl)
  +:+ " WHERE workspace_id = ?" +:+ filters_text (rp_filters p)
  +:+ match rp_order p with
      | Some (col, asc) => " ORDER BY " +:+ ident col +:+ (if asc then " ASC" else " DESC")
      | None => "" end
  +:+ match rp_limit p with Some n => " LIMIT " +:+ show_Z n | None => "" end
  +:+ match rp_offset p with Some n => " OFFSET " +:+ show_Z n | None => "" end.
Definition select_binds (p : RequestParams) : list string := rp_workspace_id p :: filters_binds (rp_filters p).

Definition update_text (tbl : TableMeta) (cols : list string) (fs : list Filter) : string :=
  "UPDATE " +:+ ident (t_name tbl) +:+ " SET " +:+ join ", " (List.map (fun c => ident c +:+ " = ?") cols)
  +:+ " WHERE workspace_id = ?" +:+ filters_text fs.
Definition delete_text (tbl : TableMeta) (fs : list Filter) : string :=
  "DELETE FROM " +:+ ident (t_name tbl) +:+ " WHERE workspace_id = ?" +:+ filters_text fs.
Definition insert_text (tbl : TableMeta) (cols : list string) : string :=
  "INSERT INTO " +:+ ident (t_name tbl) +:+ " (" +:+ join ", " (List.map ident cols)
  +:+ ") VALUES (" +:+ join ", " (List.map (fun _ => "?") cols) +:+ ")".

(** ** The tables and what the statements mean *)

Inductive SqlValue := VNull | VText (s : string) | VInt (n : Z) | VReal (x : f64) | VBlob (s : string).
#[global] Instance SqlValue_eq_dec : EqDecision SqlValue.
Proof. unfold EqDecision, Decision. unfold f64. repeat decide equality. Defined.

Abbreviation Row := (gmap string SqlValue).
Abbreviation RestDb := (gmap string (list Row)).

(** What is SQLite's own: the comparison of a column with a bound text (none when
    either is unknown), LIKE, the affinity a stored text takes, the order of a
    result, the columns an insert does not name, the constraints of the schema,
    and its messages.  The migrations declare no trigger and no cascade. *)
Class Sqlite := {
  sql_compare : ColumnMeta -> SqlValue -> string -> option comparison;
  sql_like : SqlValue -> string -> bool;
  sql_store : ColumnMeta -> string -> SqlValue;
  sql_order : string -> bool -> list Row -> list Row;
  sql_defaults : string -> Row;
  violated : RestDb -> option string;
  syntax_error : string; no_such_column : string;
}.
(** A TEXT column stores a bound text as it is and equals it exactly when it holds it; ordering only
    permutes. *)
Class SqliteLaws `{Sqlite} : Prop := {
  text_stored : forall c s, c_type c = "TEXT" -> sql_store c s = VText s;
  text_equal : forall c v s, c_type c = "TEXT" -> sql_compare c v s = Some Eq <-> v = VText s;
  order_permutes : forall col asc l, Permutation (sql_order col asc l) l;
}.

Record RestWorld := mkRestWorld { srv : Server; db : RestDb }.
Definition with_db (f : RestDb -> RestDb) (w : RestWorld) : RestWorld := mkRestWorld (srv w) (f (db w)).

Section rest.
Context `{Sqlite} `{SerdeJson} `{Env} `{ServerEnv} `{Rng} `{Sha256} `{Base64} `{Jwt}.

Definition cell (r : Row) (col : string) : SqlValue := default VNull (r !! col).

Definition op_holds (c : ColumnMeta) (v : SqlValue) (op : FilterOp) : bool :=
  let test f s := match sql_compare c v s with Some o => f o | None => false end in
  let same o := match o with Eq => true | _ => false end in
  match op with
  | FEq s => test same s
  | FNe s => test (fun o => negb (same o)) s
  | FLt s => test (fun o => match o with Lt => true | _ => false end) s
  | FLe s => test (fun o => match o with Gt => false | _ => true end) s
  | FGt s => test (fun o => match o with Gt => true | _ => false end) s
  | FGe s => test (fun o => match o with Lt => false | _ => true end) s
  | FLike s => sql_like v s
  | FIn vs => List.existsb (test same) vs
  | FIsNull => bool_decide (v = VNull)
  | FIsNotNull => negb (bool_decide (v = VNull))
  end.

Definition filter_holds (tbl : TableMeta) (r : Row) (f : Filter) : bool :=
  match column tbl (f_column f) with Some c => op_holds c (cell r (f_column f)) (f_op f) | None => false end.

(** [workspace_id = ? AND f1 AND ...]; a table without the column has no such statement. *)
Definition in_workspace (tbl : TableMeta) (ws : string) (r : Row) : bool :=
  filter_holds tbl r (mkFilter "workspace_id" (FEq ws) false).
Definition where_holds (tbl : TableMeta) (ws : string) (fs : list Filter) (r : Row) : bool :=
  in_workspace tbl ws r && List.forallb (filter_holds tbl r) fs.

Definition rows_of (t : string) (d : RestDb) : list Row := default [] (d !! t).

(** [ORDER BY], [LIMIT] and [OFFSET]. *)
Definition ordered (o : option (string * bool)) (rs : list Row) : list Row :=
  match o with Some (c, asc) => sql_order c asc rs | None => rs end.
Definition window (lim off : option Z) (rs : list Row) : list Row :=
  let rs := match off with Some n => drop (Z.to_nat n) rs | None => rs end in
  match lim with Some n => take (Z.to_nat n) rs | None => rs end.

(** The statements, by their meaning: an error leaves the tables alone. *)
Definition run_select (tbl : TableMeta) (p : RequestParams) : M RestWorld string (list Row) :=
  fun w =>
    if negb (has_column tbl "workspace_id") then (Err no_such_column, w)
    else match rp_select p, rp_limit p, rp_offset p with
         | [], _, _ => (Err syntax_error, w)
         | _, None, Some _ => (Err syntax_error, w)
         | _, lim, off =>
             let rs := List.filter (where_holds tbl (rp_workspace_id p) (rp_filters p)) (rows_of (t_name tbl) (db w)) in
             (Ok (window lim off (ordered (rp_order p) rs)), w)
         end.

(** A write that breaks a constraint is undone. *)
Definition commit (f : RestDb -> RestDb) (affected : nat) : M RestWorld string nat :=
  fun w => match violated (f (db w)) with
           | Some e => (Err e, w)
           | None => (Ok affected, with_db f w)
           end.

Definition set_cells (tbl : TableMeta) (cols : list (string * string)) (r : Row) : Row :=
  fold_left (fun r '(c, v) => match column tbl c with Some m => <[c := sql_store m v]> r | None => r end) cols r.

Definition run_update (tbl : TableMeta) (sets : list (string * string)) (ws : string) (fs : list Filter) :
    M RestWorld string nat :=
  fun w =>
    if negb (has_column tbl "workspace_id") then (Err no_such_column, w)
    else
      let rs := rows_of (t_name tbl) (db w) in
      commit (<[t_name tbl := List.map (fun r => if where_holds tbl ws fs r then set_cells tbl sets r else r) rs]>)
        (length (List.filter (where_holds tbl ws fs) rs)) w.
Definition run_delete (tbl : TableMeta) (ws : string) (fs : list Filter) : M RestWorld string nat :=
  fun w =>
    if negb (has_column tbl "workspace_id") then (Err no_such_column, w)
    else
      let rs := rows_of (t_name tbl) (db w) in
      commit (<[t_name tbl := List.filter (fun r => negb (where_holds tbl ws fs r)) rs]>)
        (length (List.filter (where_holds tbl ws fs) rs)) w.
Definition run_insert (tbl : TableMeta) (sets : list (string * string)) : M RestWorld string nat :=
  fun w =>
    if negb (List.forallb (fun kv => has_column tbl kv.1) sets) then (Err no_such_column, w)
    else commit (<[t_name tbl := rows_of (t_name tbl) (db w) ++ [set_cells tbl sets (sql_defaults (t_name tbl))]]>) 1 w.

(** ** Answers *)

Definition missing_cache_response : Response :=
  json_response 503 (error_message "schema_cache_unavailable"
    "auto-rest schema cache was not initialized; call AppState::with_schema_cache at boot").
Definition table_not_found (name : string) : Response :=
  json_response 404 (error_message "table_not_exposed"
    ("table '" +:+ name +:+ "' is not exposed via /rest/v1 (append-only, missing workspace_id, or unknown)")).
Definition bad_request (msg : string) : Response := json_response 400 (error_message "invalid_input" msg).
Definition storage_err (e : string) : Response :=
  json_response 500 (error_message "storage" (Core.display (Core.Storage e))).

(** [sqlite_value_to_json]. *)
Definition value_json (v : SqlValue) : Json :=
  match v with
  | VNull => JNull
  | VText s => JString s
  | VInt n => JNumber (if 0 <=? n then PosInt n else NegInt n)
  | VReal x => json_of_f64 x
  | VBlob _ => JNull
  end.
Definition row_to_json (cols : list string) (r : Row) : Json :=
  jobj (List.map (fun c => (c, value_json (cell r c))) cols).

Definition value_to_sql_string (v : Json) : string :=
  match v with
  | JString s => s
  | JBool b => if b then "1" else "0"
  | JNull => ""
  | other => to_string other
  end.

(** ** Handlers *)

Definition Handler A := M RestWorld Response A.
Definition on_server {A} (m : M Server Response A) : Handler A :=
  fun w => let '(r, s) := m (srv w) in (r, mkRestWorld s (db w)).
Definition with_table {A} (cache : option SchemaCache) (name : string) (k : TableMeta -> Handler A) : Handler A :=
  match cache with
  | None => throw missing_cache_response
  | Some c => match table c name with
              | None => throw (table_not_found name)
              | Some tbl => k tbl
              end
  end.
(** A statement's error becomes the answer. *)
Definition sql {A} (m : M RestWorld string A) : Handler A := map_err storage_err m.
Definition or_bad {A} (r : result string A) : Handler A :=
  match r with Ok a => mret a | Err e => throw (bad_request e) end.

Definition column_json (c : ColumnMeta) : Json :=
  jobj [("name", JString (c_name c)); ("type", JString (c_type c));
        ("notnull", JBool (c_notnull c)); ("pk", JBool (c_pk c))].
Definition list_tables (cache : option SchemaCache) : Handler Response :=
  match cache with
  | None => throw missing_cache_response
  | Some c => mret (json_response 200 (jobj [("tables", JArray (List.map JString (table_names c)))]))
  end.
Definition list_columns (cache : option SchemaCache) (name : string) : Handler Response :=
  with_table cache name (fun tbl =>
    mret (json_response 200
      (jobj [("table", JString (t_name tbl)); ("columns", JArray (List.map column_json (columns tbl)))]))).

(** A primary-key filter that matches one row answers the row itself. *)
Definition get_body (p : RequestParams) (rows : list Row) : Json :=
  let projected := List.map (row_to_json (rp_select p)) rows in
  match projected with
  | [one] => if implies_single_row p then one else JArray projected
  | _ => JArray projected
  end.

Definition handle_get (cfg : Config) (cache : option SchemaCache) (h : HeaderMap) (name : string)
    (params : list (string * string)) : Handler Response :=
  with_table cache name (fun tbl =>
    p ← or_bad (parse params tbl);
    on_server (exec (enforce_auth cfg h GET (rp_workspace_id p)));;
    rows ← sql (run_select tbl p);
    mret (json_response 200 (get_body p rows))).

(** The members of the body as columns to write. *)
Fixpoint project (patch : bool) (tbl : TableMeta) (obj : list (string * Json)) :
    result string (list (string * string)) :=
  match obj with
  | [] => Ok []
  | (k, v) :: obj' =>
      if patch && String.eqb k "workspace_id" then Err "workspace_id cannot be patched"
      else if negb (has_column tbl k)
      then Err ("unknown column '" +:+ k +:+ "' on table '" +:+ t_name tbl +:+ "'")
      else rest ← project patch tbl obj'; mret ((k, value_to_sql_string v) :: rest)
  end.

Definition workspace_id_from (params : list (string * string)) (body : Json) : option string :=
  match List.find (fun kv => String.eqb kv.1 "workspace_id" && negb (String.eqb kv.2 "")) params with
  | Some kv => Some kv.2
  | None => v ← jget "workspace_id" body; as_str v
  end.

Definition handle_post (cfg : Config) (cache : option SchemaCache) (h : HeaderMap) (name : string)
    (params : list (string * string)) (body : Json) : Handler Response :=
  with_table cache name (fun tbl =>
    match workspace_id_from params body with
    | None => throw (bad_request "workspace_id is required")
    | Some ws =>
        on_server (exec (enforce_rate_limit cfg ws));;
        on_server (exec (enforce_auth cfg h POST ws));;
        match body with
        | JObject obj =>
            cols ← or_bad (project false tbl obj);
            let cols := if List.existsb (fun kv => String.eqb kv.1 "workspace_id") cols then cols
                        else cols ++ [("workspace_id", ws)] in
            sql (run_insert tbl cols);;
            mret (json_response 201 (jobj [("ok", JBool true)]))
        | _ => throw (bad_request "request body must be a JSON object")
        end
    end).

Definition handle_patch (cfg : Config) (cache : option SchemaCache) (h : HeaderMap) (name : string)
    (params : list (string * string)) (body : Json) : Handler Response :=
  with_table cache name (fun tbl =>
    p ← or_bad (parse params tbl);
    on_server (exec (enforce_rate_limit cfg (rp_workspace_id p)));;
    on_server (exec (enforce_auth cfg h PATCH (rp_workspace_id p)));;
    match body with
    | JObject [] => throw (bad_request "PATCH body must include at least one column")
    | JObject obj =>
        cols ← or_bad (project true tbl obj);
        n ← sql (run_update tbl cols (rp_workspace_id p) (rp_filters p));
        mret (json_response 200 (jobj [("updated", JNumber (PosInt (Z.of_nat n)))]))
    | _ => throw (bad_request "request body must be a JSON object")
    end).

Definition handle_delete (cfg : Config) (cache : option SchemaCache) (h : HeaderMap) (name : string)
    (params : list (string * string)) : Handler Response :=
  with_table cache name (fun tbl =>
    p ← or_bad (parse params tbl);
    match rp_filters p with
    | [] => throw (bad_request "DELETE requires at least one filter (e.g. ?id=eq.X)")
    | fs =>
        on_server (exec (enforce_rate_limit cfg (rp_workspace_id p)));;
        on_server (exec (enforce_auth cfg h DELETE (rp_workspace_id p)));;
        n ← sql (run_delete tbl (rp_workspace_id p) fs);
        mret (json_response 200 (jobj [("deleted", JNumber (PosInt (Z.of_nat n)))]))
    end).

(** [mount]: the methods of [/rest/v1/{table}]; axum answers 405 to the others
    and serves HEAD as GET.  The body only matters to POST and PATCH. *)
Definition serve (cfg : Config) (cache : option SchemaCache) (h : HeaderMap) (m : Method) (name : string)
    (params : list (string * string)) (body : Json) : Handler Response :=
  match m with
  | GET | HEAD => handle_get cfg cache h name params
  | POST => handle_post cfg cache h name params body
  | PATCH => handle_patch cfg cache h name params body
  | DELETE => handle_delete cfg cache h name params
  | PUT | OPTIONS => throw (json_response 405 JNull)
  end.
End rest.
