(* ===== verification/RestText.v ===== *)
(** * The SQL text of the generated REST routes

    Reading a statement's text from the left, in and out of quoted identifiers:
    the placeholders outside quotes are as many as the values bound, whatever the
    names of the schema hold, and the text ends outside of a quoted identifier. *)

From S2P Require Import Prelude Str Json Core AutoRest.
#[local] Open Scope string_scope.
#[local] Open Scope list_scope.
#[local] Open Scope nat_scope.

(** The placeholders read, and whether a quoted identifier is open. *)
Fixpoint scan (inside : bool) (s : string) : nat * bool :=
  match s with
  | EmptyString => (O, inside)
  | String a s' =>
      if Ascii.eqb a quote then scan (negb inside) s'
      else let '(n, q) := scan inside s' in
           (if negb inside && Ascii.eqb a "?"%char then S n else n, q)
  end.

Lemma scan_app q a b :
  scan q (a +:+ b) = ((scan q a).1 + (scan (scan q a).2 b).1, (scan (scan q a).2 b).2).
Proof.
  revert q. induction a as [|x a IH]; intros q; simpl; [apply surjective_pairing|].
  destruct (Ascii.eqb x quote); [apply IH|]. rewrite IH.
  destruct (scan q a) as [n q1]. simpl. destruct (scan q1 b) as [k q2]. simpl.
  by destruct (negb q && _).
Qed.

(** A piece that starts and ends outside of quotes, with [n] placeholders. *)
Definition piece (n : nat) (s : string) : Prop := scan false s = (n, false).

Lemma piece_app n m a b : piece n a -> piece m b -> piece (n + m) (a +:+ b).
Proof. unfold piece. intros Ha Hb. rewrite scan_app, Ha. simpl. by rewrite Hb. Qed.

Lemma scan_escape s : scan true (escape_ident s) = (O, true).
Proof.
  induction s as [|a s IH]; [done|]. simpl. destruct (Ascii.eqb a quote) eqn:Ha; simpl; [done|].
  by rewrite Ha, IH.
Qed.
Lemma piece_ident s : piece 0 (ident s).
Proof. unfold piece, ident. simpl. by rewrite scan_app, scan_escape. Qed.

Lemma piece_join {A} sep (g : A -> string) k (l : list A) :
  piece 0 sep -> (forall x, piece k (g x)) -> piece (length l * k) (join sep (List.map g l)).
Proof.
  intros Hs Hg. induction l as [|x l IH]; [done|]. destruct l as [|y l].
  - simpl. rewrite Nat.add_0_r. apply Hg.
  - change (piece (k + (0 + length (y :: l) * k)) (g x +:+ sep +:+ join sep (List.map g (y :: l)))).
    apply piece_app; [apply Hg|]. by apply piece_app.
Qed.

Lemma piece_op op : piece (length (op_binds op)) (op_text op).
Proof.
  destruct op as [v|v|v|v|v|v|v|vs| |]; try done. simpl op_binds. simpl op_text.
  replace (length vs) with (0 + (length vs * 1 + 0)) by lia.
  apply piece_app; [done|]. apply piece_app; [|done]. by apply piece_join.
Qed.

Lemma piece_filters fs : piece (length (filters_binds fs)) (filters_text fs).
Proof.
  unfold filters_text, filters_binds. induction fs as [|f fs IH]; [done|].
  assert (Hf : piece (length (op_binds (f_op f))) (filter_text f)).
  { unfold filter_text. apply (piece_app 0 _ " AND "); [done|].
    apply (piece_app 0); [apply piece_ident|apply piece_op]. }
  simpl. rewrite List.length_app. destruct fs as [|g fs].
  - simpl. by rewrite Nat.add_0_r.
  - by apply piece_app.
Qed.

(** Digits are no placeholders. *)
Lemma scan_digits fuel n acc : (0 <= n)%Z -> scan false (show_digits fuel n acc) = scan false acc.
Proof.
  revert n acc. induction fuel as [|fuel IH]; intros n acc Hn; [done|].
  assert (Hd : scan false (String (Ascii.ascii_of_N (Z.to_N (48 + n mod 10))) acc) = scan false acc).
  { assert (Hr : (0 <= n mod 10 < 10)%Z) by (apply Z.mod_pos_bound; lia).
    assert (Hc : (n mod 10 = 0 \/ n mod 10 = 1 \/ n mod 10 = 2 \/ n mod 10 = 3 \/ n mod 10 = 4 \/
                  n mod 10 = 5 \/ n mod 10 = 6 \/ n mod 10 = 7 \/ n mod 10 = 8 \/ n mod 10 = 9)%Z) by lia.
    destruct (scan false acc) as [k q] eqn:Ha.
    by repeat (destruct Hc as [->|Hc]; [simpl; by rewrite Ha|]); rewrite Hc; simpl; rewrite Ha. }
  simpl. destruct (n <? 10)%Z; [done|]. rewrite IH; [done|]. apply Z.div_pos; lia.
Qed.
Lemma piece_number n : piece 0 (show_Z n).
Proof.
  assert (Hd : forall k m, (0 <= m)%Z -> piece 0 (show_digits k m "")).
  { intros k m Hm. unfold piece. by rewrite scan_digits. }
  unfold show_Z. destruct (Z.ltb_spec n 0); [apply (piece_app 0 0 "-"); [done|]|]; apply Hd; lia.
Qed.

Lemma piece_where fs : piece (S (length (filters_binds fs))) (" WHERE workspace_id = ?" +:+ filters_text fs).
Proof. apply (piece_app 1); [done|apply piece_filters]. Qed.

Ltac pieces := repeat (apply (piece_app 0); [first [done|apply piece_ident|apply piece_number]|]).

(** Every statement binds a value for each of its placeholders, and no identifier
    stays open, whatever names the schema holds. *)
Theorem placeholders_bound (tbl : TableMeta) (p : RequestParams) (cols : list string) (fs : list Filter) :
  scan false (select_text tbl p) = (length (select_binds p), false) /\
  scan false (update_text tbl cols fs) = (length cols + S (length (filters_binds fs)), false) /\
  scan false (delete_text tbl fs) = (S (length (filters_binds fs)), false) /\
  scan false (insert_text tbl cols) = (length cols, false).
Proof.
  change (piece (S (length (filters_binds (rp_filters p)))) (select_text tbl p) /\
          piece (length cols + S (length (filters_binds fs))) (update_text tbl cols fs) /\
          piece (S (length (filters_binds fs))) (delete_text tbl fs) /\
          piece (length cols) (insert_text tbl cols)).
  assert (Hids : forall l, piece 0 (join ", " (List.map ident l))).
  { intros l. rewrite <- (Nat.mul_0_r (length l)). apply piece_join; [done|apply piece_ident]. }
  split; [|split; [|split]].
  - unfold select_text. apply (piece_app 0); [done|]. apply (piece_app 0); [apply Hids|]. pieces.
    replace (S _) with (S (length (filters_binds (rp_filters p))) + 0) by lia.
    change (piece (1 + length (filters_binds (rp_filters p)) + 0)) with (piece (1 + (length (filters_binds (rp_filters p)) + 0))).
    apply (piece_app 1); [done|]. apply piece_app; [apply piece_filters|].
    apply (piece_app 0); [|apply (piece_app 0)].
    + destruct (rp_order p) as [[c []]|]; [pieces; done..|done].
    + destruct (rp_limit p); [by pieces; apply piece_number|done].
    + destruct (rp_offset p); [by pieces; apply piece_number|done].
  - unfold update_text. pieces. apply piece_app; [|apply piece_where].
    rewrite <- (Nat.mul_1_r (length cols)). apply piece_join; [done|].
    intros c. by apply (piece_app 0); [apply piece_ident|].
  - unfold delete_text. pieces. apply piece_where.
  - assert (Hq : piece (length cols * 1) (join ", " (List.map (fun _ => "?") cols))) by by apply piece_join.
    pose proof (piece_app _ 0 _ ")" Hq eq_refl) as Hp. rewrite Nat.add_0_r, Nat.mul_1_r in Hp.
    unfold insert_text. pieces. exact Hp.
Qed.

Example quoted_names_stay_quoted :
  let tbl := mkTableMeta (String quote "; DROP ?") [] in
  scan false (delete_text tbl [mkFilter (String "?" (String quote "")) (FIn ["a"; "b"]) false]) = (3, false).
Proof. reflexivity. Qed.
