(* ===== verification/RestIsolation.v ===== *)
(** * Workspace isolation of the generated REST routes ([actant-server/src/auto_rest.rs])

    A request sees and changes only rows of the workspace it was admitted for,
    except that an insert takes the workspace its body names. *)

From S2P Require Import Prelude Str Json Core Storage Throttle Auth Prog Server AuthRoutes HttpAuth AutoRest.
#[local] Open Scope string_scope.
#[local] Open Scope list_scope.
#[local] Open Scope Z_scope.

(** ** The schema cache exposes what [exposed] says *)

Lemma introspect_lookup tables name tbl :
  table (introspect tables) name = Some tbl -> In tbl tables /\ exposed tbl = true /\ t_name tbl = name.
Proof.
  unfold introspect, table.
  assert (Hgen : forall acc, (forall tbl, jlookup name acc = Some tbl -> In tbl tables /\ exposed tbl = true /\ t_name tbl = name) ->
    forall ts, incl ts tables ->
    forall tbl, jlookup name (fold_left (fun m t => if exposed t then bt_insert (t_name t) t m else m) ts acc) = Some tbl ->
    In tbl tables /\ exposed tbl = true /\ t_name tbl = name).
  { intros acc Hacc ts. revert acc Hacc. induction ts as [|t ts IH]; intros acc Hacc Hin tbl' Hl; [by apply Hacc|].
    simpl in Hl. apply (IH (if exposed t then bt_insert (t_name t) t acc else acc)) in Hl; [done| |by intros x Hx; apply Hin; right].
    intros t' Ht'. destruct (exposed t) eqn:He; [|by apply Hacc]. rewrite bt_insert_lookup in Ht'.
    destruct (String.eqb_spec name (t_name t)) as [->|]; [|by apply Hacc].
    injection Ht' as <-. split; [apply Hin; by left|done]. }
  apply (Hgen []); [done|apply incl_refl].
Qed.

(** Every database a server opens: the tables of its schema are scoped by text. *)
Definition scoped_by_text (tables : list TableMeta) : Prop :=
  forall tbl c, In tbl tables -> column tbl "workspace_id" = Some c -> c_type c = "TEXT".

Lemma has_column_find tbl name : has_column tbl name = true <-> is_Some (column tbl name).
Proof.
  unfold has_column, column. split.
  - intros Hex. destruct (List.find _ _) eqn:Hf; [done|]. exfalso.
    apply List.existsb_exists in Hex as (c & Hin & Hc). eapply List.find_none in Hf; [|done]. congruence.
  - intros [c Hf]. apply List.find_some in Hf as [? ?]. apply List.existsb_exists. eauto.
Qed.

Section isolation.
Context `{Sqlite} `{!SqliteLaws} `{SerdeJson} `{Env} `{ServerEnv} `{Rng} `{Sha256} `{Base64} `{Jwt}.

Definition of_workspace (ws : string) (r : Row) : bool := bool_decide (cell r "workspace_id" = VText ws).

Lemma in_workspace_spec tbl c ws r :
  column tbl "workspace_id" = Some c -> c_type c = "TEXT" -> in_workspace tbl ws r = of_workspace ws r.
Proof.
  intros Hc Ht. unfold in_workspace, filter_holds, of_workspace. simpl. rewrite Hc. simpl.
  pose proof (text_equal c (cell r "workspace_id") ws Ht) as He.
  case_bool_decide as Hw; destruct (sql_compare c _ ws) as [[]|]; intuition congruence.
Qed.

(** What a request for [ws] on [name] may not touch. *)
Definition outside_kept (name ws : string) (d d' : RestDb) : Prop :=
  (forall t, t <> name -> rows_of t d' = rows_of t d) /\
  List.filter (fun r => negb (of_workspace ws r)) (rows_of name d')
  = List.filter (fun r => negb (of_workspace ws r)) (rows_of name d).

Lemma outside_kept_refl name ws d : outside_kept name ws d d.
Proof. by split. Qed.

Lemma rows_of_insert t l d : rows_of t (<[t := l]> d) = l.
Proof. unfold rows_of. by rewrite lookup_insert_eq. Qed.
Lemma rows_of_insert_ne t t' l d : t' <> t -> rows_of t' (<[t := l]> d) = rows_of t' d.
Proof. intros Hne. unfold rows_of. by rewrite lookup_insert_ne. Qed.

Lemma set_cells_other tbl cols r name :
  ~ In name (List.map fst cols) -> cell (set_cells tbl cols r) name = cell r name.
Proof.
  unfold set_cells. revert r. induction cols as [|[c v] cols IH]; intros r Hni; [done|].
  simpl in *. rewrite IH by tauto. destruct (column tbl c) as [m|]; [|done].
  unfold cell. rewrite lookup_insert_ne; [done|]. tauto.
Qed.

Lemma set_cells_last tbl cols r name c v :
  column tbl name = Some c -> cell (set_cells tbl (cols ++ [(name, v)]) r) name = sql_store c v.
Proof.
  intros Hc. unfold set_cells. rewrite fold_left_app. simpl. rewrite Hc.
  unfold cell. by rewrite lookup_insert_eq.
Qed.

Lemma project_keys patch tbl obj cols :
  project patch tbl obj = Ok cols -> List.map fst cols = List.map fst obj.
Proof.
  revert cols. induction obj as [|[k v] obj IH]; intros cols; simpl; [by intros [= <-]|].
  destruct (patch && _); [done|]. destruct (negb _); [done|].
  destruct (project patch tbl obj) as [rest|]; [|done]. intros [= <-]. simpl. f_equal. by apply IH.
Qed.

Lemma project_patch tbl obj cols :
  project true tbl obj = Ok cols -> ~ In "workspace_id" (List.map fst cols).
Proof.
  revert cols. induction obj as [|[k v] obj IH]; intros cols; simpl; [intros [= <-]; tauto|].
  destruct (String.eqb_spec k "workspace_id") as [|Hne]; [done|]. destruct (negb _); [done|].
  destruct (project true tbl obj) as [rest|]; [|done]. intros [= <-] [Hk|Hin]; [done|]. by eapply IH.
Qed.

(** ** The gates *)

Lemma on_server_inv {A} (m : M Server Response A) w r w' :
  on_server m w = (r, w') -> db w' = db w /\ m (srv w) = (r, srv w').
Proof. unfold on_server. destruct (m (srv w)) as [r0 s]. by intros [= <- <-]. Qed.

(** A request that passed [enforce_auth] was admitted; the tables are untouched
    either way. *)
Lemma gate_inv cfg h m ws w r w' :
  on_server (exec (enforce_auth cfg h m ws)) w = (r, w') ->
  db w' = db w /\ (r = Ok tt -> admitted cfg h m ws (srv w)).
Proof.
  intros [Hdb Hm]%on_server_inv. split; [done|]. intros ->.
  apply enforce_auth_iff. by rewrite Hm.
Qed.

Lemma limited_gate_inv cfg h m ws w w1 w2 :
  on_server (exec (enforce_rate_limit cfg ws)) w = (Ok tt, w1) ->
  on_server (exec (enforce_auth cfg h m ws)) w1 = (Ok tt, w2) ->
  db w2 = db w /\ admitted cfg h m ws (srv w).
Proof.
  intros [Hdb Hl]%on_server_inv [Hdb' Ha]%gate_inv. split; [congruence|]. specialize (Ha eq_refl).
  destruct (rate_limit_same cfg ws (srv w)) as [(_ & Hau & _) Hck]. rewrite Hl in Hau, Hck.
  by eapply admitted_same.
Qed.

(** ** The statements *)

Lemma ordered_permutes o rs : Permutation (ordered o rs) rs.
Proof. destruct o as [[c asc]|]; [apply order_permutes|done]. Qed.

Lemma window_incl lim off (rs : list Row) : incl (window lim off rs) rs.
Proof.
  unfold window. intros x Hx.
  assert (Hd : In x (match off with Some n => drop (Z.to_nat n) rs | None => rs end)).
  { destruct lim as [n|]; [|done]. set (l := match off with Some _ => _ | None => _ end) in *.
    rewrite <- (take_drop (Z.to_nat n) l). apply in_or_app. by left. }
  destruct off as [n|]; [|done]. rewrite <- (take_drop (Z.to_nat n) rs). apply in_or_app. by right.
Qed.

(** The rows a query selects, before they are put in order and cut. *)
Definition selected (tbl : TableMeta) (p : RequestParams) (d : RestDb) : list Row :=
  List.filter (where_holds tbl (rp_workspace_id p) (rp_filters p)) (rows_of (t_name tbl) d).

Lemma run_select_inv tbl p w r w' :
  run_select tbl p w = (r, w') ->
  w' = w /\ forall rows, r = Ok rows ->
    rows = window (rp_limit p) (rp_offset p) (ordered (rp_order p) (selected tbl p (db w))).
Proof.
  unfold run_select. destruct (negb _); [by intros [= <- <-]|].
  destruct (rp_select p) as [|c cs]; [by intros [= <- <-]|].
  destruct (rp_limit p) as [n|], (rp_offset p) as [k|]; intros [= <- <-]; split; try done; by intros rows [= <-].
Qed.

Lemma selected_of_workspace tbl c p d r :
  column tbl "workspace_id" = Some c -> c_type c = "TEXT" -> In r (selected tbl p d) ->
  In r (rows_of (t_name tbl) d) /\ of_workspace (rp_workspace_id p) r = true.
Proof.
  intros Hc Ht [Hin Hw]%List.filter_In. split; [done|]. unfold where_holds in Hw.
  apply andb_prop in Hw as [Hw _]. by erewrite <- in_workspace_spec.
Qed.

Lemma filter_map_outside (P : Row -> bool) (f : Row -> Row) (hit : Row -> bool) l :
  (forall r, hit r = true -> P r = false /\ P (f r) = false) ->
  List.filter P (List.map (fun r => if hit r then f r else r) l) = List.filter P l.
Proof.
  intros Hh. induction l as [|r l IH]; [done|]. simpl. destruct (hit r) eqn:He; [|by rewrite IH].
  destruct (Hh r He) as [-> ->]. done.
Qed.

Lemma filter_filter_outside (P hit : Row -> bool) l :
  (forall r, hit r = true -> P r = false) ->
  List.filter P (List.filter (fun r => negb (hit r)) l) = List.filter P l.
Proof.
  intros Hh. induction l as [|r l IH]; [done|]. simpl. destruct (hit r) eqn:He; simpl; [|by rewrite IH].
  by rewrite (Hh r He).
Qed.

Lemma where_in tbl ws fs r :
  scoped_by_text [tbl] -> where_holds tbl ws fs r = true -> of_workspace ws r = true.
Proof.
  unfold where_holds. intros Hs [Hin _]%andb_prop.
  destruct (column tbl "workspace_id") as [c|] eqn:Hc.
  - erewrite <- in_workspace_spec; [done|done|]. eapply Hs; [by left|done].
  - unfold in_workspace, filter_holds in Hin. simpl in Hin. by rewrite Hc in Hin.
Qed.

Lemma replaced_outside name ws l (d : RestDb) :
  List.filter (fun r => negb (of_workspace ws r)) l = List.filter (fun r => negb (of_workspace ws r)) (rows_of name d) ->
  outside_kept name ws d (<[name := l]> d).
Proof.
  intros Hl. split; [intros t Ht; by apply rows_of_insert_ne|]. by rewrite rows_of_insert.
Qed.

(** What a statement for [ws] does: an error does nothing. *)
Definition confined {E A} (name ws : string) (w : RestWorld) (r : result E A) (w' : RestWorld) : Prop :=
  match r with Err _ => w' = w | Ok _ => outside_kept name ws (db w) (db w') end.

Lemma commit_confined name ws l n w r w' :
  List.filter (fun r => negb (of_workspace ws r)) l = List.filter (fun r => negb (of_workspace ws r)) (rows_of name (db w)) ->
  commit <[name := l]> n w = (r, w') -> confined name ws w r w'.
Proof.
  intros Hl. unfold commit. destruct (violated _); intros [= <- <-]; [done|]. by apply replaced_outside.
Qed.

Lemma run_update_confined tbl cols ws fs w r w' :
  scoped_by_text [tbl] -> ~ In "workspace_id" (List.map fst cols) ->
  run_update tbl cols ws fs w = (r, w') -> confined (t_name tbl) ws w r w'.
Proof.
  intros Hs Hni. unfold run_update. destruct (negb _); [by intros [= <- <-]|].
  apply commit_confined, filter_map_outside. intros x Hx%where_in; [|done].
  unfold of_workspace in *. rewrite set_cells_other by done. by rewrite Hx.
Qed.

Lemma run_delete_confined tbl ws fs w r w' :
  scoped_by_text [tbl] -> run_delete tbl ws fs w = (r, w') -> confined (t_name tbl) ws w r w'.
Proof.
  intros Hs. unfold run_delete. destruct (negb _); [by intros [= <- <-]|].
  apply commit_confined, filter_filter_outside. intros x Hx%where_in; [|done]. by rewrite Hx.
Qed.

(** An insert whose columns end with the workspace stores it. *)
Lemma run_insert_confined tbl cols ws w r w' :
  scoped_by_text [tbl] -> run_insert tbl (cols ++ [("workspace_id", ws)]) w = (r, w') ->
  confined (t_name tbl) ws w r w'.
Proof.
  intros Hs. unfold run_insert. destruct (List.forallb _ _) eqn:Hc; simpl; [|by intros [= <- <-]].
  apply commit_confined. rewrite List.filter_app. simpl.
  rewrite List.forallb_app in Hc. apply andb_prop in Hc as [_ Hc]. simpl in Hc. rewrite andb_true_r in Hc.
  apply has_column_find in Hc as [c Hc]. unfold of_workspace at 2. erewrite set_cells_last by done.
  rewrite text_stored by (eapply Hs; [by left|done]). rewrite bool_decide_true by done. by rewrite app_nil_r.
Qed.

(** ** The handlers *)

Lemma with_table_inv {A} tables name (k : TableMeta -> Handler A) w r w' :
  with_table (Some (introspect tables)) name k w = (r, w') ->
  ((exists e, r = Err e) /\ w' = w) \/
  exists tbl, In tbl tables /\ exposed tbl = true /\ t_name tbl = name /\ k tbl w = (r, w').
Proof.
  unfold with_table. destruct (table _ name) as [tbl|] eqn:Ht.
  - intros Hk. right. exists tbl. apply introspect_lookup in Ht as (? & ? & ?). done.
  - intros [= <- <-]. left. eauto.
Qed.

Lemma or_bad_ok {A} (x : result string A) w a w' : or_bad x w = (Ok a, w') -> w' = w /\ x = Ok a.
Proof. destruct x; simpl; intros [= <- <-]; done. Qed.
Lemma or_bad_err {A} (x : result string A) w e w' : or_bad x w = (Err e, w') -> w' = w.
Proof. destruct x; simpl; by intros [= <- <-]. Qed.

Lemma sql_ok {A} (m : M RestWorld string A) w a w' : sql m w = (Ok a, w') -> m w = (Ok a, w').
Proof. unfold sql, map_err. destruct (m w) as [[b|e] w0]; by intros [= <- <-]. Qed.
Lemma sql_err {A} (m : M RestWorld string A) w e w' : sql m w = (Err e, w') -> exists e', m w = (Err e', w').
Proof. unfold sql, map_err. destruct (m w) as [[b|e'] w0]; intros [= <- <-]; eauto. Qed.

(** A handler's run: an error leaves the tables alone, an answer touches only rows
    of a workspace the request was admitted for. *)
Definition isolated (cfg : Config) (h : HeaderMap) (m : Method) (name ws : string) (w : RestWorld)
    (r : result Response Response) (w' : RestWorld) : Prop :=
  match r with
  | Err _ => db w' = db w
  | Ok _ => admitted cfg h m ws (srv w) /\ outside_kept name ws (db w) (db w')
  end.

Lemma confined_isolated {A} cfg h m name ws (x : M RestWorld string A) k w w1 r w' :
  db w1 = db w -> admitted cfg h m ws (srv w) ->
  (forall r w', x w1 = (r, w') -> confined name ws w1 r w') ->
  (forall a, exists resp, k a = mret resp) ->
  (sql x ≫= k) w1 = (r, w') -> isolated cfg h m name ws w r w'.
Proof.
  intros Hdb Ha Hx Hk [(e & Hs & ->)|(a & w2 & Hs & Hm)]%M_bind_inv.
  - apply sql_err in Hs as [e' Hs]. apply Hx in Hs. simpl in *. congruence.
  - apply sql_ok in Hs. apply Hx in Hs. destruct (Hk a) as [resp Hr]. rewrite Hr in Hm. injection Hm as <- <-.
    simpl in *. by rewrite <- Hdb.
Qed.

Lemma scoped_one tables tbl : scoped_by_text tables -> In tbl tables -> scoped_by_text [tbl].
Proof. intros Hs Hin t c [<-|[]]. by apply Hs. Qed.

(** The two gates of a write, and then the rest. *)
Lemma gated_write cfg h m name ws (k : Handler Response) w r w' :
  (forall w1, db w1 = db w -> admitted cfg h m ws (srv w) -> forall r w', k w1 = (r, w') ->
     isolated cfg h m name ws w r w') ->
  (on_server (exec (enforce_rate_limit cfg ws));; on_server (exec (enforce_auth cfg h m ws));; k) w = (r, w') ->
  isolated cfg h m name ws w r w'.
Proof.
  intros Hk [(e & Hl & ->)|([] & w1 & Hl & Hm)]%M_bind_inv; [by apply on_server_inv in Hl as [? _]|].
  apply M_bind_inv in Hm as [(e & Ha & ->)|([] & w2 & Ha & Hm)].
  - apply on_server_inv in Hl as [Hl _], Ha as [Ha _]. simpl. congruence.
  - destruct (limited_gate_inv _ _ _ _ _ _ _ Hl Ha) as [Hdb Hadm]. by eapply Hk.
Qed.

Lemma handle_patch_isolated cfg tables h name params body w r w' :
  scoped_by_text tables -> handle_patch cfg (Some (introspect tables)) h name params body w = (r, w') ->
  exists ws, isolated cfg h PATCH name ws w r w'.
Proof.
  intros Hs [[[e ->] ->]|(tbl & Hin & _ & <- & Hk)]%with_table_inv; [by exists ""|].
  apply M_bind_inv in Hk as [(e & Hp%or_bad_err & ->)|(p & w1 & [-> Hp]%or_bad_ok & Hk)]; [exists ""; simpl; congruence|].
  exists (rp_workspace_id p). revert Hk. apply gated_write. intros w1 Hdb Ha r0 w0.
  destruct body as [| | | | |[|kv obj]]; try (by intros [= <- <-]).
  intros [(e & Hc%or_bad_err & ->)|(cols & w2 & [-> Hc]%or_bad_ok & Hk)]%M_bind_inv; [simpl; congruence|].
  revert Hk. apply confined_isolated; [done|done| |by eexists].
  intros r1 w3. apply run_update_confined; [by eapply scoped_one|by eapply project_patch].
Qed.

Lemma handle_delete_isolated cfg tables h name params w r w' :
  scoped_by_text tables -> handle_delete cfg (Some (introspect tables)) h name params w = (r, w') ->
  exists ws, isolated cfg h DELETE name ws w r w'.
Proof.
  intros Hs [[[e ->] ->]|(tbl & Hin & _ & <- & Hk)]%with_table_inv; [by exists ""|].
  apply M_bind_inv in Hk as [(e & Hp%or_bad_err & ->)|(p & w1 & [-> Hp]%or_bad_ok & Hk)]; [exists ""; simpl; congruence|].
  exists (rp_workspace_id p). destruct (rp_filters p) as [|f fs]; [by injection Hk as <- <-|].
  revert Hk. apply gated_write. intros w1 Hdb Ha r0 w0. apply confined_isolated; [done|done| |by eexists].
  intros r1 w3. apply run_delete_confined. by eapply scoped_one.
Qed.

Lemma handle_post_isolated cfg tables h name params body w r w' :
  scoped_by_text tables -> jget "workspace_id" body = None ->
  handle_post cfg (Some (introspect tables)) h name params body w = (r, w') ->
  exists ws, isolated cfg h POST name ws w r w'.
Proof.
  intros Hs Hb [[[e ->] ->]|(tbl & Hin & _ & <- & Hk)]%with_table_inv; [by exists ""|].
  destruct (workspace_id_from params body) as [ws|]; [exists ws|exists ""; by injection Hk as <- <-].
  revert Hk. apply gated_write. intros w1 Hdb Ha r0 w0.
  destruct body as [| | | | |obj]; try (by intros [= <- <-]).
  intros [(e & Hc%or_bad_err & ->)|(cols & w2 & [-> Hc]%or_bad_ok & Hk)]%M_bind_inv; [simpl; congruence|].
  simpl in Hb. rewrite jlookup_keys, <- (project_keys _ _ _ _ Hc) in Hb.
  revert Hk. destruct (List.existsb _ cols) eqn:He.
  { exfalso. apply Hb. apply List.existsb_exists in He as ([k v] & Hkv & Hk). simpl in Hk.
    apply String.eqb_eq in Hk as ->. by apply (List.in_map fst) in Hkv. }
  apply confined_isolated; [done|done| |by eexists].
  intros r1 w3. apply run_insert_confined. by eapply scoped_one.
Qed.

(** What a GET answers. *)
Definition reads_own (tables : list TableMeta) (name ws : string) (params : list (string * string)) (d : RestDb)
    (r : result Response Response) : Prop :=
  forall a, r = Ok a -> exists tbl p rows, In tbl tables /\ t_name tbl = name /\ parse params tbl = Ok p /\
    rp_workspace_id p = ws /\ a = json_response 200 (get_body p rows) /\
    rows = window (rp_limit p) (rp_offset p) (ordered (rp_order p) (selected tbl p d)) /\
    Forall (fun x => In x (rows_of name d) /\ of_workspace ws x = true) rows.

Lemma handle_get_isolated cfg tables h name params w r w' :
  scoped_by_text tables -> handle_get cfg (Some (introspect tables)) h name params w = (r, w') ->
  db w' = db w /\ exists ws, isolated cfg h GET name ws w r w' /\ reads_own tables name ws params (db w) r.
Proof.
  intros Hs [[[e ->] ->]|(tbl & Hin & _ & <- & Hk)]%with_table_inv; [by split; [|exists ""]|].
  apply M_bind_inv in Hk as [(e & Hp%or_bad_err & ->)|(p & w1 & [-> Hp]%or_bad_ok & Hk)]; [subst; by split; [|exists ""]|].
  apply M_bind_inv in Hk as [(e & Ha & ->)|([] & w1 & Ha & Hk)].
  { apply gate_inv in Ha as [Hdb _]. by split; [|exists ""]. }
  apply gate_inv in Ha as [Hdb Ha]. specialize (Ha eq_refl).
  apply M_bind_inv in Hk as [(e & Hq & ->)|(rows & w2 & Hq & Hk)].
  { apply sql_err in Hq as [e' [-> _]%run_select_inv]. by split; [|exists ""]. }
  apply sql_ok, run_select_inv in Hq as [-> Hrows]. specialize (Hrows _ eq_refl). injection Hk as <- <-.
  split; [done|]. exists (rp_workspace_id p). split; [split; [done|]; rewrite Hdb; apply outside_kept_refl|].
  intros a [= <-]. exists tbl, p, rows. rewrite Hdb in Hrows. do 6 (split; [done|]).
  apply List.Forall_forall. intros x Hx. rewrite Hrows in Hx. apply window_incl in Hx.
  rewrite ordered_permutes in Hx. apply List.filter_In in Hx as [Hx Hw]. split; [done|].
  by eapply where_in; [eapply scoped_one|].
Qed.

(** C15: A request to the generated routes stays inside the workspace it was
    admitted for.  A refused or failed one changes no table.  An answered one
    passed [enforce_auth] for some workspace, and every other table, and every row
    of any other workspace, is as before; a GET changes nothing at all and answers
    exactly the rows its filters, order and window select among the rows of that
    workspace.  An insert is covered when its body names no workspace. *)
Theorem rest_isolated (cfg : Config) (tables : list TableMeta) (h : HeaderMap) (m : Method) (name : string)
    (params : list (string * string)) (body : Json) (w w' : RestWorld) (r : result Response Response) :
  scoped_by_text tables -> (m = POST -> jget "workspace_id" body = None) ->
  serve cfg (Some (introspect tables)) h m name params body w = (r, w') ->
  exists ws, isolated cfg h (match m with HEAD => GET | _ => m end) name ws w r w' /\
    (is_safe m = true -> db w' = db w /\ reads_own tables name ws params (db w) r).
Proof.
  intros Hs Hb. destruct m; simpl.
  - intros (Hdb & ws & ? & ?)%handle_get_isolated; [by exists ws|done].
  - intros (Hdb & ws & ? & ?)%handle_get_isolated; [by exists ws|done].
  - intros [= <- <-]. by exists "".
  - intros [ws ?]%handle_post_isolated; [by exists ws|done|auto].
  - intros [= <- <-]. by exists "".
  - intros [ws ?]%handle_patch_isolated; [by exists ws|done].
  - intros [ws ?]%handle_delete_isolated; [by exists ws|done].
Qed.
End isolation.
