(* ===== verification/Studio.v ===== *)
(** * The Studio routes of the server ([actant-server/src/lib.rs])

    Permissions, setup reports, scout records, entities and their relations,
    memories and memory conflicts: the routes that read and write tables of their
    own next to the ledger.  A handler runs alone; an early return is a thrown
    [Response].  A table is a map from primary key to row, scanned in an arbitrary
    order, and [ORDER BY created_at DESC] sorts what the scan gives. *)

From Stdlib Require Import SpecFloat.
From S2P Require Import Prelude Str Json Core Policy Storage Command Effects Throttle Auth Prog Server AuthRoutes HttpAuth.
#[local] Open Scope string_scope.
#[local] Open Scope list_scope.
#[local] Open Scope Z_scope.

(** ** Tables *)

Record ArtifactRow := mkArtifactRow {
  ar_id : string; ar_workspace_id : string; ar_kind : string; ar_uri : string; ar_content_hash : string;
  ar_bytes : Z; ar_sensitivity : string; ar_created_by_actor_id : string; ar_created_at : string;
  ar_deleted_at : option string
}.
Record ScopeRow := mkScopeRow {
  sc_id : string; sc_workspace_id : string; sc_actor_id : string; sc_permission : string;
  sc_resource_pattern : option string; sc_sensitivity_ceiling : string; sc_allowed_actions : string;
  sc_granted_by_actor_id : option string; sc_expires_at : option string; sc_revoked_at : option string;
  sc_created_at : string
}.
Record EntityRow := mkEntityRow {
  en_id : string; en_workspace_id : string; en_type : string; en_canonical_name : string;
  en_aliases : string; en_sensitivity : string; en_source_events : string; en_capsule_id : option string;
  en_created_at : string
}.
Record RelationRow := mkRelationRow {
  re_id : string; re_workspace_id : string; re_source_entity : string; re_relation_type : string;
  re_target_entity : string; re_confidence : f64; re_evidence_events : string
}.
Record MemoryConflictRow := mkMemoryConflictRow {
  mf_id : string; mf_workspace_id : string; mf_a : string; mf_b : string; mf_conflict_type : string;
  mf_resolution_policy : option string; mf_last_resolved_at : option string; mf_detected_at : string
}.
(** The columns of a memory that the ledger's row leaves out; all NULL without one. *)
Record MemoryMarks := mkMemoryMarks {
  mm_last_used_at : option string; mm_expires_at : option string;
  mm_revoked_at : option string; mm_deleted_at : option string
}.
Definition unmarked : MemoryMarks := mkMemoryMarks None None None None.

Record Tables := mkTables {
  artifacts : gmap string ArtifactRow; scopes : gmap string ScopeRow; entities : gmap string EntityRow;
  relations : gmap string RelationRow; memory_conflicts : gmap string MemoryConflictRow;
  marks : gmap string MemoryMarks
}.
Definition set_artifacts x t := mkTables x (scopes t) (entities t) (relations t) (memory_conflicts t) (marks t).
Definition set_scopes x t := mkTables (artifacts t) x (entities t) (relations t) (memory_conflicts t) (marks t).
Definition set_entities x t := mkTables (artifacts t) (scopes t) x (relations t) (memory_conflicts t) (marks t).
Definition set_relations x t := mkTables (artifacts t) (scopes t) (entities t) x (memory_conflicts t) (marks t).

Record Studio := mkStudio { srv : Server; tabs : Tables }.
Definition with_tabs (f : Tables -> Tables) (s : Studio) : Studio := mkStudio (srv s) (f (tabs s)).
Definition the_ledger (s : Studio) : Ledger := ledger (world (srv s)).

#[local] Abbreviation Handler A := (M Studio Response A).
#[local] Abbreviation Query A := (M Studio ActantError A).

Definition on_server {E A} (m : M Server E A) : M Studio E A :=
  fun s => let '(r, v) := m (srv s) in (r, mkStudio v (tabs s)).
(** A computation on the ledger. *)
Definition on_db {A} (m : DB A) : Query A := on_server (on_world m).
Definition scan {A} (f : Studio -> A) : Query A := fun s => (Ok (f s), s).
(** An error of the storage becomes the answer. *)
Definition or_answer {A} (m : Query A) : Handler A := map_err err_response m.
Definition invalid {A} (msg : string) : Handler A := throw (err_response (InvalidInput msg)).

(** [INSERT INTO t], given the foreign keys. *)
Definition insert_into {A} (table : string) (get : Tables -> gmap string A)
    (set : gmap string A -> Tables -> Tables) (fk : Studio -> bool) (id : string) (row : A) : Query unit :=
  fun s =>
    if has (get (tabs s)) id then (Err (unique_failed (table +:+ ".id")), s)
    else if fk s then (Ok tt, with_tabs (fun t => set (<[id := row]> (get t)) t) s)
    else (Err fk_failed, s).

(** [ORDER BY] a column of texts, newest first. *)
Definition desc {A} (key : A -> string) (a b : A) : Prop := cmp_le (cmp:=String.compare) (key b) (key a) = true.
#[global] Instance desc_dec {A} (key : A -> string) a b : Decision (desc key a b).
Proof. unfold desc. apply _. Defined.
Definition newest_first {A} (key : A -> string) (l : list A) : list A := merge_sort (desc key) l.

Definition all_sensitivities : list Sensitivity := [Public; SLow; SMedium; SHigh; Secret; Regulated].
Definition parse_sensitivity (s : string) : result ActantError Sensitivity :=
  match List.find (fun x => String.eqb (sensitivity_json x) s) all_sensitivities with
  | Some x => Ok x
  | None => Err (InvalidInput ("invalid sensitivity '" +:+ s
                   +:+ "'; expected one of public|low|medium|high|secret|regulated"))
  end.

Definition event_uri : string := "actantdb://event/".
Definition event_id_from_uri (uri : string) : option string := strip_prefix event_uri uri.

Definition workspace_query_required (ws : string) : Handler unit :=
  if String.eqb ws "" then throw (json_response 400 (error_message "invalid_input" "workspace_id is required"))
  else mret tt.

Definition ok_json (b : Json) : Response := json_response 200 b.
Definition strings_json (l : list string) : Json := JArray (List.map JString l).

Section studio.
Context `{SerdeJson} `{Env} `{ServerEnv} `{Rng} `{Sha256} `{Base64} `{Jwt} `{RowOrder}.

(** The guards of the reading and of the writing routes. *)
Definition read_gate (cfg : Config) (h : HeaderMap) (ws : string) : Handler unit :=
  workspace_query_required ws;;
  on_server (exec (enforce_auth cfg h GET ws)).
Definition write_gate (cfg : Config) (h : HeaderMap) (m : Method) (ws : string) : Handler unit :=
  workspace_query_required ws;;
  on_server (exec (enforce_rate_limit cfg ws));;
  on_server (exec (enforce_auth cfg h m ws)).

(** ** Chronicle and artifacts *)

Definition append_chronicle_event (workspace_id actor_id event_type : string) (causality_kind : CausalityKind)
    (sensitivity : Sensitivity) (payload : Json) : DB (string * string) :=
  let payload_canon := canonical_json payload in
  let payload_hash := sha256_hex payload_canon in
  prev ← last_event_hash workspace_id None;
  let event_hash := chain_hash (default genesis prev) payload_hash in
  id ← new_id "evt";
  now ← now_rfc3339;
  append_event (mkAgentEvent id workspace_id actor_id None None event_type causality_kind sensitivity
    None (Some payload_canon) None payload_hash event_hash now None None None None None None None);;
  mret (id, now).

Definition ensure_workspace_actor (workspace_id actor_id : string) : DB unit :=
  ensure_workspace workspace_id;;
  ensure_actor actor_id workspace_id Human.

Definition artifact_fk (ws actor : string) (s : Studio) : bool :=
  has (workspaces (the_ledger s)) ws && has (actors (the_ledger s)) actor.
Definition write_report_event_and_artifact (workspace_id actor_id kind : string) (payload : Json)
    (content : string) (sensitivity : Sensitivity) : Query (string * string) :=
  on_db (ensure_workspace_actor workspace_id actor_id);;
  ev ← on_db (append_chronicle_event workspace_id actor_id kind Audit sensitivity payload);
  artifact_id ← on_db (new_id "art");
  insert_into "artifact" artifacts set_artifacts (artifact_fk workspace_id actor_id) artifact_id
    (mkArtifactRow artifact_id workspace_id kind (event_uri +:+ ev.1) (sha256_hex content)
       (Z.of_nat (String.length content)) (sensitivity_json sensitivity) actor_id ev.2 None);;
  mret (artifact_id, ev.1).

(** [SELECT payload_inline FROM agent_event WHERE id = ?], parsed. *)
Definition payload_of (event_id : string) (s : Studio) : option Json :=
  r ← events (the_ledger s) !! event_id;
  p ← ev_payload_inline (er_event r);
  from_str p.
Definition text_member (k : string) (v : option Json) : string :=
  default "" (x ← v; y ← jget k x; as_str y).

(** The artifacts of a kind that are not deleted, newest first. *)
Definition live_artifact (ws kind : string) (a : ArtifactRow) : bool :=
  String.eqb (ar_workspace_id a) ws && String.eqb (ar_kind a) kind && bool_decide (ar_deleted_at a = None).
Definition artifacts_of (ws kind : string) (s : Studio) : list ArtifactRow :=
  newest_first ar_created_at (List.filter (live_artifact ws kind) (rows (artifacts (tabs s)))).

(** ** Setup reports *)

Record CreateSetupReport := mkCreateSetupReport {
  sr_workspace_id : string; sr_actor_id : string; sr_content : string; sr_sensitivity : option string
}.
Definition report_payload (content actor : string) : Json :=
  jobj [("content", JString content); ("actor_id", JString actor)].
Definition written (ids : string * string) : Response :=
  ok_json (jobj [("artifact_id", JString ids.1); ("event_id", JString ids.2)]).

Definition create_setup_report (cfg : Config) (h : HeaderMap) (req : CreateSetupReport) : Handler Response :=
  write_gate cfg h POST (sr_workspace_id req);;
  if String.eqb (sr_actor_id req) "" then invalid "actor_id is required"
  else if String.eqb (sr_content req) "" then invalid "content is required"
  else
    sensitivity ← or_answer (lift_result (match sr_sensitivity req with
                                          | None => Ok SLow
                                          | Some s => parse_sensitivity s
                                          end));
    ids ← or_answer (write_report_event_and_artifact (sr_workspace_id req) (sr_actor_id req) "setup_report"
            (report_payload (sr_content req) (sr_actor_id req)) (sr_content req) sensitivity);
    mret (written ids).

Definition latest_report (s : Studio) (a : ArtifactRow) (event_id : string) : Json :=
  jobj [("artifact_id", JString (ar_id a)); ("event_id", JString event_id);
        ("content", JString (text_member "content" (payload_of event_id s)));
        ("content_hash", JString (ar_content_hash a)); ("bytes", JNumber (PosInt (ar_bytes a)));
        ("created_at", JString (ar_created_at a))].
Definition report_summary (s : Studio) (a : ArtifactRow) : option Json :=
  event_id ← event_id_from_uri (ar_uri a);
  Some (jobj [("artifact_id", JString (ar_id a)); ("event_id", JString event_id);
              ("content", JString (text_member "content" (payload_of event_id s)));
              ("created_at", JString (ar_created_at a))]).

Definition list_setup_reports (cfg : Config) (h : HeaderMap) (ws : string) (latest : option bool) :
    Handler Response :=
  read_gate cfg h ws;;
  s ← or_answer (scan id);
  if default false latest then
    match artifacts_of ws "setup_report" s with
    | [] => mret (ok_json (jobj [("report", JNull)]))
    | a :: _ =>
        match event_id_from_uri (ar_uri a) with
        | None => throw (err_response (Core.Storage
                    ("artifact " +:+ ar_id a +:+ " has unexpected uri " +:+ ar_uri a)))
        | Some event_id => mret (ok_json (jobj [("report", latest_report s a event_id)]))
        end
    end
  else mret (ok_json (jobj [("reports", JArray (omap (report_summary s) (take 100 (artifacts_of ws "setup_report" s))))])).

(** ** Scout records *)

Record CreateScoutRecord := mkCreateScoutRecord {
  cs_workspace_id : string; cs_actor_id : string; cs_source_id : string; cs_kind : string;
  cs_sensitivity : string; cs_content : string; cs_metadata : option Json
}.
Definition scout_payload (req : CreateScoutRecord) : Json :=
  jobj [("content", JString (cs_content req)); ("source_id", JString (cs_source_id req));
        ("kind", JString (cs_kind req)); ("actor_id", JString (cs_actor_id req));
        ("metadata", default JNull (cs_metadata req))].

Definition create_scout_record (cfg : Config) (h : HeaderMap) (req : CreateScoutRecord) : Handler Response :=
  write_gate cfg h POST (cs_workspace_id req);;
  if String.eqb (cs_actor_id req) "" then invalid "actor_id is required"
  else if String.eqb (cs_source_id req) "" then invalid "source_id is required"
  else if String.eqb (cs_kind req) "" then invalid "kind is required"
  else if String.eqb (cs_content req) "" then invalid "content is required"
  else
    sensitivity ← or_answer (lift_result (parse_sensitivity (cs_sensitivity req)));
    ids ← or_answer (write_report_event_and_artifact (cs_workspace_id req) (cs_actor_id req) "scout_record"
            (scout_payload req) (cs_content req) sensitivity);
    mret (written ids).

(** One row of the listing: the source filter is applied to the payload's source. *)
Definition scout_record (s : Studio) (source : option string) (a : ArtifactRow) : option Json :=
  event_id ← event_id_from_uri (ar_uri a);
  let payload := payload_of event_id s in
  let source_id := text_member "source_id" payload in
  if match source with
     | Some f => negb (String.eqb f "") && negb (String.eqb source_id f)
     | None => false
     end then None
  else Some (jobj [("artifact_id", JString (ar_id a)); ("event_id", JString event_id);
                   ("source_id", JString source_id); ("kind", JString (text_member "kind" payload));
                   ("sensitivity", JString (ar_sensitivity a));
                   ("content", JString (text_member "content" payload));
                   ("metadata", default JNull (x ← payload; jget "metadata" x));
                   ("created_at", JString (ar_created_at a))]).
Definition list_scout_records (cfg : Config) (h : HeaderMap) (ws : string) (source : option string) :
    Handler Response :=
  read_gate cfg h ws;;
  s ← or_answer (scan id);
  mret (ok_json (jobj [("records",
    JArray (omap (scout_record s source) (take 100 (artifacts_of ws "scout_record" s))))])).

(** ** Permissions *)

Record CreatePermission := mkCreatePermission {
  cp_workspace_id : string; cp_actor_id : string; cp_permission : string; cp_level : string;
  cp_scope : option string; cp_allowed_actions : option Json
}.
Definition scope_fk (r : ScopeRow) (s : Studio) : bool :=
  has (workspaces (the_ledger s)) (sc_workspace_id r) && has (actors (the_ledger s)) (sc_actor_id r)
  && has_opt (actors (the_ledger s)) (sc_granted_by_actor_id r).
(** The ledger refers to the ids of this table. *)
Definition insert_scope (r : ScopeRow) : Query unit :=
  insert_into "authority_scope" scopes set_scopes (scope_fk r) (sc_id r) r;;
  on_db (with_ledger (fun l => mkLedger (workspaces l) (actors l) (sessions l) (messages l) (events l)
    (commands l) (tools l) (tool_calls l) (approvals l) (candidates l) (memories l) (idems l)
    ({[sc_id r]} ∪ authority_scopes l) (policies l))).

Definition create_permission (cfg : Config) (h : HeaderMap) (req : CreatePermission) : Handler Response :=
  write_gate cfg h POST (cp_workspace_id req);;
  if String.eqb (cp_actor_id req) "" then invalid "actor_id is required"
  else if String.eqb (cp_permission req) "" then invalid "permission is required"
  else
    level ← or_answer (lift_result (parse_sensitivity (cp_level req)));
    actions ← match cp_allowed_actions req with
              | Some (JArray l) => mret (to_string (JArray l))
              | Some _ => invalid "allowed_actions must be a JSON array"
              | None => mret (to_string (strings_json ["*"]))
              end;
    id ← or_answer (on_db (new_id "auth"));
    now ← or_answer (on_db now_rfc3339);
    or_answer (insert_scope (mkScopeRow id (cp_workspace_id req) (cp_actor_id req) (cp_permission req)
      (cp_scope req) (sensitivity_json level) actions (Some (cp_actor_id req)) None None now));;
    mret (ok_json (jobj [("id", JString id)])).

Definition revoke_scope (now : string) (r : ScopeRow) : ScopeRow :=
  mkScopeRow (sc_id r) (sc_workspace_id r) (sc_actor_id r) (sc_permission r) (sc_resource_pattern r)
    (sc_sensitivity_ceiling r) (sc_allowed_actions r) (sc_granted_by_actor_id r) (sc_expires_at r)
    (Some now) (sc_created_at r).
(** [UPDATE ... WHERE id = ? AND workspace_id = ?]: whether a row was there. *)
Definition update_scope (id ws now : string) : Query bool :=
  fun s => match scopes (tabs s) !! id with
           | Some r =>
               if String.eqb (sc_workspace_id r) ws
               then (Ok true, with_tabs (fun t => set_scopes (<[id := revoke_scope now r]> (scopes t)) t) s)
               else (Ok false, s)
           | None => (Ok false, s)
           end.
Definition revoke_permission (cfg : Config) (h : HeaderMap) (ws scope_id : string) : Handler Response :=
  write_gate cfg h DELETE ws;;
  if String.eqb scope_id "" then invalid "authority_scope_id is required"
  else
    now ← or_answer (on_db now_rfc3339);
    found ← or_answer (update_scope scope_id ws now);
    if (found : bool) then mret (ok_json (jobj [("ok", JBool true)]))
    else throw (err_response (NotFound ("authority_scope " +:+ scope_id +:+ " in workspace " +:+ ws))).

Definition permission_json (r : ScopeRow) : Json :=
  let actions := match from_str (sc_allowed_actions r) with
                 | Some v => v
                 | None => strings_json [sc_allowed_actions r]
                 end in
  jobj [("id", JString (sc_id r)); ("workspace_id", JString (sc_workspace_id r));
        ("actor_id", JString (sc_actor_id r)); ("permission", JString (sc_permission r));
        ("resource_pattern", opt_json (sc_resource_pattern r));
        ("sensitivity_ceiling", JString (sc_sensitivity_ceiling r)); ("allowed_actions", actions);
        ("granted_by_actor_id", opt_json (sc_granted_by_actor_id r)); ("expires_at", opt_json (sc_expires_at r));
        ("revoked_at", opt_json (sc_revoked_at r)); ("created_at", JString (sc_created_at r))].
Definition active_scopes (ws : string) (s : Studio) : list ScopeRow :=
  newest_first sc_created_at
    (List.filter (fun r => String.eqb (sc_workspace_id r) ws && bool_decide (sc_revoked_at r = None))
       (rows (scopes (tabs s)))).
Definition list_permissions (cfg : Config) (h : HeaderMap) (ws : string) : Handler Response :=
  read_gate cfg h ws;;
  s ← or_answer (scan id);
  mret (ok_json (jobj [("permissions", JArray (List.map permission_json (active_scopes ws s)))])).

(** ** Entities and relations *)

Record CreateEntity := mkCreateEntity {
  ce_workspace_id : string; ce_type : string; ce_canonical_name : string; ce_aliases : option (list string);
  ce_sensitivity : option string; ce_capsule_id : option string; ce_source_events : option (list string)
}.
Definition json_text (l : option (list string)) : string := to_string (strings_json (default [] l)).
Definition create_entity (cfg : Config) (h : HeaderMap) (req : CreateEntity) : Handler Response :=
  write_gate cfg h POST (ce_workspace_id req);;
  if String.eqb (ce_type req) "" then invalid "type is required"
  else if String.eqb (ce_canonical_name req) "" then invalid "canonical_name is required"
  else
    sensitivity ← or_answer (lift_result (parse_sensitivity (default "low" (ce_sensitivity req))));
    id ← or_answer (on_db (new_id "ent"));
    now ← or_answer (on_db now_rfc3339);
    or_answer (insert_into "entity" entities set_entities
      (fun s => has (workspaces (the_ledger s)) (ce_workspace_id req)) id
      (mkEntityRow id (ce_workspace_id req) (ce_type req) (ce_canonical_name req) (json_text (ce_aliases req))
         (sensitivity_json sensitivity) (json_text (ce_source_events req)) (ce_capsule_id req) now));;
    mret (ok_json (jobj [("id", JString id)])).

(** A column of JSON, or an empty array when it is none. *)
Definition json_column (text : string) : Json := default (JArray []) (from_str text).
Definition entity_json (r : EntityRow) : Json :=
  jobj [("id", JString (en_id r)); ("workspace_id", JString (en_workspace_id r)); ("type", JString (en_type r));
        ("canonical_name", JString (en_canonical_name r)); ("aliases", json_column (en_aliases r));
        ("sensitivity", JString (en_sensitivity r)); ("source_events", json_column (en_source_events r));
        ("capsule_id", opt_json (en_capsule_id r)); ("created_at", JString (en_created_at r))].
(** A filter that is absent or empty lets everything pass. *)
Definition unless_empty (f : option string) (test : string -> bool) : bool :=
  match f with Some x => String.eqb x "" || test x | None => true end.
Definition entities_of (ws : string) (type : option string) (s : Studio) : list EntityRow :=
  take 500 (newest_first en_created_at
    (List.filter (fun r => String.eqb (en_workspace_id r) ws && unless_empty type (String.eqb (en_type r)))
       (rows (entities (tabs s))))).
Definition list_entities (cfg : Config) (h : HeaderMap) (ws : string) (type : option string) : Handler Response :=
  read_gate cfg h ws;;
  s ← or_answer (scan id);
  mret (ok_json (jobj [("entities", JArray (List.map entity_json (entities_of ws type s)))])).

Record CreateEntityRelation := mkCreateEntityRelation {
  cl_workspace_id : string; cl_source_entity : string; cl_relation_type : string; cl_target_entity : string;
  cl_confidence : f64; cl_evidence_events : option (list string)
}.
Definition default_confidence : f64 := f64_of_Z 1.
Definition is_finite_f64 (x : f64) : bool :=
  match x with S754_zero _ | S754_finite _ _ _ => true | _ => false end.
Definition in_unit (x : f64) : bool := is_finite_f64 x && (f64_leb (f64_of_Z 0) x && f64_leb x (f64_of_Z 1)).
Definition create_entity_relation (cfg : Config) (h : HeaderMap) (req : CreateEntityRelation) : Handler Response :=
  write_gate cfg h POST (cl_workspace_id req);;
  if String.eqb (cl_source_entity req) "" || String.eqb (cl_target_entity req) "" || String.eqb (cl_relation_type req) ""
  then invalid "source_entity, target_entity, relation_type are required"
  else if negb (in_unit (cl_confidence req)) then invalid "confidence must be in [0.0, 1.0]"
  else
    id ← or_answer (on_db (new_id "rel"));
    or_answer (insert_into "entity_relation" relations set_relations
      (fun s => has (workspaces (the_ledger s)) (cl_workspace_id req)
                && has (entities (tabs s)) (cl_source_entity req) && has (entities (tabs s)) (cl_target_entity req)) id
      (mkRelationRow id (cl_workspace_id req) (cl_source_entity req) (cl_relation_type req) (cl_target_entity req)
         (cl_confidence req) (json_text (cl_evidence_events req))));;
    mret (ok_json (jobj [("id", JString id)])).

Definition relation_json (r : RelationRow) : Json :=
  jobj [("id", JString (re_id r)); ("workspace_id", JString (re_workspace_id r));
        ("source_entity", JString (re_source_entity r)); ("relation_type", JString (re_relation_type r));
        ("target_entity", JString (re_target_entity r)); ("confidence", json_of_f64 (re_confidence r));
        ("evidence_events", json_column (re_evidence_events r))].
Definition relations_of (ws : string) (entity relation_type : option string) (s : Studio) : list RelationRow :=
  take 500 (newest_first re_id
    (List.filter (fun r => String.eqb (re_workspace_id r) ws
        && unless_empty relation_type (String.eqb (re_relation_type r))
        && unless_empty entity (fun e => String.eqb (re_source_entity r) e || String.eqb (re_target_entity r) e))
       (rows (relations (tabs s))))).
Definition list_entity_relations (cfg : Config) (h : HeaderMap) (ws : string) (entity relation_type : option string) :
    Handler Response :=
  read_gate cfg h ws;;
  s ← or_answer (scan id);
  mret (ok_json (jobj [("relations", JArray (List.map relation_json (relations_of ws entity relation_type s)))])).

(** ** Memories and their conflicts *)

Definition memory_json (s : Studio) (r : MemoryRow) : Json :=
  let m := default unmarked (marks (tabs s) !! mr_id r) in
  jobj [("id", JString (mr_id r)); ("workspace_id", JString (mr_workspace_id r)); ("text", JString (mr_text r));
        ("category", JString (mr_category r)); ("sensitivity", JString (mr_sensitivity r));
        ("confidence", match mr_confidence r with Some x => json_of_f64 x | None => JNull end);
        ("scope", JString (mr_scope r)); ("source_candidate_id", opt_json (mr_source_candidate_id r));
        ("usage_count", JNumber (if 0 <=? mr_usage_count r then PosInt (mr_usage_count r) else NegInt (mr_usage_count r)));
        ("last_used_at", opt_json (mm_last_used_at m)); ("expires_at", opt_json (mm_expires_at m));
        ("revoked_at", opt_json (mm_revoked_at m)); ("deleted_at", opt_json (mm_deleted_at m));
        ("created_at", JString (mr_created_at r)); ("status", JString "approved")].
Definition candidate_json (r : CandidateRow) : Json :=
  jobj [("id", JString (cr_id r)); ("workspace_id", JString (cr_workspace_id r)); ("text", JString (cr_text r));
        ("category", JString (cr_category r)); ("sensitivity", JString (cr_sensitivity r));
        ("confidence", json_of_f64 (cr_confidence r)); ("scope", JNull); ("source_candidate_id", JNull);
        ("usage_count", JNull); ("last_used_at", JNull); ("expires_at", JNull); ("revoked_at", JNull);
        ("deleted_at", JNull); ("created_at", JString (cr_created_at r));
        ("status", JString (match cr_status r with MRejected => "rejected" | _ => "pending" end))].

Definition one_of (s : string) (l : list string) : bool := List.existsb (String.eqb s) l.
(** The candidates each of the three queries selects. *)
Definition candidate_wanted (pending rejected : bool) (st : MemoryCandidateStatus) : bool :=
  match pending, rejected with
  | true, true => negb (bool_decide (st = MApproved))
  | true, false => bool_decide (st = MPendingReview) || bool_decide (st = MProposed) || bool_decide (st = MEdited)
  | false, true => bool_decide (st = MRejected)
  | false, false => false
  end.
Definition memories_of (ws : string) (s : Studio) : list MemoryRow :=
  newest_first mr_created_at (List.filter (fun r => String.eqb (mr_workspace_id r) ws) (rows (memories (the_ledger s)))).
Definition candidates_of (ws : string) (pending rejected : bool) (s : Studio) : list CandidateRow :=
  newest_first cr_created_at
    (List.filter (fun r => String.eqb (cr_workspace_id r) ws && candidate_wanted pending rejected (cr_status r))
       (rows (candidates (the_ledger s)))).
Definition list_memories (cfg : Config) (h : HeaderMap) (ws status : string) : Handler Response :=
  read_gate cfg h ws;;
  let approved := one_of status ["approved"; "all"] in
  let pending := one_of status ["pending"; "all"] in
  let rejected := one_of status ["rejected"; "all"] in
  if negb approved && negb pending && negb rejected
  then invalid ("unknown status '" +:+ status +:+ "'; expected approved|pending|rejected|all")
  else
    s ← or_answer (scan id);
    mret (ok_json (jobj [("memories", JArray
      ((if approved then List.map (memory_json s) (memories_of ws s) else [])
       ++ (if pending || rejected then List.map candidate_json (candidates_of ws pending rejected s) else [])))])).

Definition memory_conflict_json (r : MemoryConflictRow) : Json :=
  jobj [("id", JString (mf_id r)); ("workspace_id", JString (mf_workspace_id r)); ("memory_a_id", JString (mf_a r));
        ("memory_b_id", JString (mf_b r)); ("conflict_type", JString (mf_conflict_type r));
        ("resolution_policy", opt_json (mf_resolution_policy r));
        ("last_resolved_at", opt_json (mf_last_resolved_at r)); ("detected_at", JString (mf_detected_at r))].
Definition conflicts_of (ws : string) (s : Studio) : list MemoryConflictRow :=
  newest_first mf_detected_at
    (List.filter (fun r => String.eqb (mf_workspace_id r) ws) (rows (memory_conflicts (tabs s)))).
Definition list_memory_conflicts (cfg : Config) (h : HeaderMap) (ws : string) : Handler Response :=
  read_gate cfg h ws;;
  s ← or_answer (scan id);
  mret (ok_json (jobj [("conflicts", JArray (List.map memory_conflict_json (conflicts_of ws s)))])).
End studio.
