(* ===== verification/StudioIsolation.v ===== *)
(** * The Studio routes keep to the workspace they were admitted for

    What one request may change: new rows of its own workspace, and a revocation in
    it, once both gates let it pass; nothing at all otherwise. *)

From S2P Require Import Prelude Str Json Core Policy Storage Command LedgerInv Effects Throttle Auth Prog Server AuthRoutes HttpAuth Studio.
#[local] Open Scope string_scope.
#[local] Open Scope list_scope.
#[local] Open Scope Z_scope.

(** ** The requests of the routes *)

Inductive Call :=
| ListReports (ws : string) (latest : option bool)
| CreateReport (req : CreateSetupReport)
| ListRecords (ws : string) (source : option string)
| CreateRecord (req : CreateScoutRecord)
| ListPermissions (ws : string)
| GrantPermission (req : CreatePermission)
| RevokePermission (ws id : string)
| ListEntities (ws : string) (type : option string)
| AddEntity (req : CreateEntity)
| ListRelations (ws : string) (entity relation_type : option string)
| AddRelation (req : CreateEntityRelation)
| ListMemories (ws status : string)
| ListConflicts (ws : string).

Definition call_ws (c : Call) : string :=
  match c with
  | ListReports ws _ | ListRecords ws _ | ListPermissions ws | RevokePermission ws _
  | ListEntities ws _ | ListRelations ws _ _ | ListMemories ws _ | ListConflicts ws => ws
  | CreateReport r => sr_workspace_id r
  | CreateRecord r => cs_workspace_id r
  | GrantPermission r => cp_workspace_id r
  | AddEntity r => ce_workspace_id r
  | AddRelation r => cl_workspace_id r
  end.
Definition call_method (c : Call) : Method :=
  match c with
  | CreateReport _ | CreateRecord _ | GrantPermission _ | AddEntity _ | AddRelation _ => POST
  | RevokePermission _ _ => DELETE
  | _ => GET
  end.

Section isolation.
Context `{SerdeJson} `{Regex} `{Env} `{ServerEnv} `{Rng} `{Sha256} `{Base64} `{Jwt} `{RowOrder}.

(** The table of [router] for these paths. *)
Definition serve (cfg : Config) (h : HeaderMap) (c : Call) : M Studio Response Response :=
  match c with
  | ListReports ws latest => list_setup_reports cfg h ws latest
  | CreateReport r => create_setup_report cfg h r
  | ListRecords ws source => list_scout_records cfg h ws source
  | CreateRecord r => create_scout_record cfg h r
  | ListPermissions ws => list_permissions cfg h ws
  | GrantPermission r => create_permission cfg h r
  | RevokePermission ws id => revoke_permission cfg h ws id
  | ListEntities ws type => list_entities cfg h ws type
  | AddEntity r => create_entity cfg h r
  | ListRelations ws e t => list_entity_relations cfg h ws e t
  | AddRelation r => create_entity_relation cfg h r
  | ListMemories ws status => list_memories cfg h ws status
  | ListConflicts ws => list_memory_conflicts cfg h ws
  end.

(** ** What may change *)

(** Rows only come, and only of the workspace. *)
Definition grown {A} (wsof : A -> string) (ws : string) (m m' : gmap string A) : Prop :=
  m ⊆ m' /\ forall k a, m' !! k = Some a -> m !! k = Some a \/ wsof a = ws.
(** Rows of other workspaces stay as they are. *)
Definition others_kept {A} (wsof : A -> string) (ws : string) (m m' : gmap string A) : Prop :=
  forall k a, wsof a <> ws -> m !! k = Some a <-> m' !! k = Some a.

Record ledger_beside (ws : string) (l l' : Ledger) : Prop := {
  lb_workspaces : grown ws_id ws (workspaces l) (workspaces l');
  lb_actors : grown act_workspace_id ws (actors l) (actors l');
  lb_events : grown (fun r => ev_workspace_id (er_event r)) ws (events l) (events l');
  lb_scopes : authority_scopes l ⊆ authority_scopes l';
  lb_rest : l' = mkLedger (workspaces l') (actors l') (sessions l) (messages l) (events l') (commands l) (tools l)
    (tool_calls l) (approvals l) (candidates l) (memories l) (idems l) (authority_scopes l') (policies l);
}.
Record beside (ws : string) (s s' : Studio) : Prop := {
  bs_ledger : ledger_beside ws (the_ledger s) (the_ledger s');
  bs_artifacts : others_kept ar_workspace_id ws (artifacts (tabs s)) (artifacts (tabs s'));
  bs_scopes : others_kept sc_workspace_id ws (scopes (tabs s)) (scopes (tabs s'));
  bs_entities : others_kept en_workspace_id ws (entities (tabs s)) (entities (tabs s'));
  bs_relations : others_kept re_workspace_id ws (relations (tabs s)) (relations (tabs s'));
  bs_rest : memory_conflicts (tabs s') = memory_conflicts (tabs s) /\ marks (tabs s') = marks (tabs s) /\
    auth (srv s') = auth (srv s) /\ hub (srv s') = hub (srv s) /\ command_counts (srv s') = command_counts (srv s);
}.
(** Nothing but the clocks and the limiters. *)
Definition same_data (s s' : Studio) : Prop := gate_same (srv s) (srv s') /\ tabs s' = tabs s.

Lemma grown_refl {A} (f : A -> string) ws m : grown f ws m m.
Proof. split; [done|auto]. Qed.
Lemma grown_trans {A} (f : A -> string) ws a b c : grown f ws a b -> grown f ws b c -> grown f ws a c.
Proof.
  intros [Hs1 G1] [Hs2 G2]. split; [by etrans|]. intros k x Hk. apply G2 in Hk as [Hk|Hk]; [by apply G1|by right].
Qed.
Lemma grown_insert {A} (f : A -> string) ws (m : gmap string A) k a :
  m !! k = None -> f a = ws -> grown f ws m (<[k := a]> m).
Proof.
  intros Hk Ha. split; [by apply insert_subseteq|]. intros k' x. destruct (decide (k = k')) as [<-|Hne].
  - rewrite lookup_insert_eq. intros [= <-]. by right.
  - rewrite lookup_insert_ne by done. by left.
Qed.
Lemma others_refl {A} (f : A -> string) ws (m : gmap string A) : others_kept f ws m m.
Proof. done. Qed.
Lemma others_trans {A} (f : A -> string) ws a b c : others_kept f ws a b -> others_kept f ws b c -> others_kept f ws a c.
Proof. intros Hab Hbc k x Hx. by rewrite (Hab k x Hx), (Hbc k x Hx). Qed.
Lemma others_insert {A} (f : A -> string) ws (m : gmap string A) k a :
  (forall x, m !! k = Some x -> f x = ws) -> f a = ws -> others_kept f ws m (<[k := a]> m).
Proof.
  intros Hk Ha k' x Hx. destruct (decide (k = k')) as [<-|Hne].
  - rewrite lookup_insert_eq. split; [by intros ?%Hk|by intros [= ->]].
  - by rewrite lookup_insert_ne.
Qed.
#[local] Hint Resolve grown_refl others_refl : core.

#[global] Instance ledger_beside_preorder ws : PreOrder (ledger_beside ws).
Proof.
  split.
  - intros l. split; try done. by destruct l.
  - intros a b c [A1 A2 A3 A4 A5] [B1 B2 B3 B4 B5]. split; try (by eapply grown_trans); [by etrans|].
    rewrite B5, A5. by destruct a, b, c.
Qed.
#[global] Instance beside_preorder ws : PreOrder (beside ws).
Proof.
  split.
  - intros s. by split; try done.
  - intros a b c [A1 A2 A3 A4 A5 A6] [B1 B2 B3 B4 B5 B6].
    split; [by etrans|by eapply others_trans..|]. naive_solver congruence.
Qed.

Lemma same_beside ws s s' : same_data s s' -> beside ws s s'.
Proof.
  intros [(Hw & Ha & Hh & Hc) Ht]. split; [|by rewrite ?Ht..|by rewrite Ht].
  unfold the_ledger. by rewrite Hw.
Qed.

(** ** Handlers that keep to a workspace *)

Definition within {E A} (ws : string) (m : M Studio E A) : Prop := forall s, beside ws s (m s).2.
Definition db_within {A} (ws : string) (m : DB A) : Prop :=
  forall w, ledger_beside ws (ledger w) (ledger (m w).2).

Lemma within_bind {E A B} ws (m : M Studio E A) (f : A -> M Studio E B) :
  within ws m -> (forall a, within ws (f a)) -> within ws (m ≫= f).
Proof.
  intros Hm Hf s. unfold mbind, M_bind. specialize (Hm s).
  destruct (m s) as [[a|e] s1]; simpl in *; [|done]. etrans; [exact Hm|apply Hf].
Qed.
Lemma within_here {E A} ws (r : result E A) : within ws (fun s => (r, s)).
Proof. by intros s. Qed.
Lemma within_answer {A} ws (m : M Studio ActantError A) : within ws m -> within ws (or_answer m).
Proof. intros Hm s. specialize (Hm s). unfold or_answer, map_err. by destruct (m s) as [[a|e] s1]. Qed.
Lemma within_db {A} ws (m : DB A) : db_within ws m -> within ws (on_db m).
Proof.
  intros Hm s. specialize (Hm (world (srv s))). unfold on_db, on_server, on_world. simpl.
  destruct (m (world (srv s))) as [r w]. simpl in *. by split.
Qed.

Lemma db_bind {A B} ws (m : DB A) (f : A -> DB B) :
  db_within ws m -> (forall a, db_within ws (f a)) -> db_within ws (m ≫= f).
Proof.
  intros Hm Hf w. unfold mbind, M_bind. specialize (Hm w).
  destruct (m w) as [[a|e] w1]; simpl in *; [|done]. etrans; [exact Hm|apply Hf].
Qed.
Lemma db_same {A} ws (m : DB A) : (forall w, ledger (m w).2 = ledger w) -> db_within ws m.
Proof. intros Hm w. by rewrite Hm. Qed.
Lemma db_insert_row {A} ws t get set fk id (row : A) :
  (forall l, get l !! id = None -> ledger_beside ws l (set (<[id := row]> (get l)) l)) ->
  db_within ws (insert_row t get set fk id row).
Proof.
  intros Hext w. unfold insert_row. destruct (has (get (ledger w)) id) eqn:Hh; [done|].
  apply has_false in Hh. destruct (fk row (ledger w)); [|done]. simpl. by apply Hext.
Qed.

Ltac beside_tac := intros; split; simpl; try done; try (by apply grown_insert).

Lemma within_insert_into {A} (f : A -> string) ws t get set fk id (row : A) :
  f row = ws ->
  (forall s, others_kept f ws (get (tabs s)) (<[id := row]> (get (tabs s))) ->
     beside ws s (with_tabs (fun t => set (<[id := row]> (get t)) t) s)) ->
  within ws (insert_into t get set fk id row).
Proof.
  intros Hf Hset s. unfold insert_into. destruct (has (get (tabs s)) id) eqn:Hh; [done|].
  apply has_false in Hh. destruct (fk s); [|done]. simpl. apply Hset, others_insert; [congruence|done].
Qed.

Create HintDb studio.
Hint Resolve within_here within_answer within_db : studio.

Lemma db_new_id ws p : db_within ws (new_id p).
Proof. by apply db_same. Qed.
Lemma db_now ws : db_within ws now_rfc3339.
Proof. by apply db_same. Qed.
Lemma db_ensure ws actor : db_within ws (ensure_workspace_actor ws actor).
Proof.
  unfold ensure_workspace_actor, ensure_workspace, ensure_actor, get_workspace, get_actor.
  apply db_bind; [|intros []]; (apply db_bind; [by apply db_same|]); (intros [x|]; [by apply db_same|]);
    (apply db_bind; [apply db_now|]); intros now; apply db_insert_row; beside_tac.
Qed.
Lemma db_append ws actor t c sv p : db_within ws (append_chronicle_event ws actor t c sv p).
Proof.
  unfold append_chronicle_event, last_event_hash, append_event. apply db_bind; [by apply db_same|]. intros prev.
  apply db_bind; [apply db_new_id|]. intros eid. apply db_bind; [apply db_now|]. intros now.
  apply db_bind; [|by intros; apply db_same]. apply db_insert_row. beside_tac.
Qed.

Lemma within_report ws actor kind payload content sv :
  within ws (write_report_event_and_artifact ws actor kind payload content sv).
Proof.
  unfold write_report_event_and_artifact. apply within_bind; [apply within_db, db_ensure|]. intros [].
  apply within_bind; [apply within_db, db_append|]. intros ev.
  apply within_bind; [apply within_db, db_new_id|]. intros aid.
  apply within_bind; [|intros []; apply within_here].
  apply (within_insert_into ar_workspace_id); [done|]. by split.
Qed.
Lemma within_scope ws r : sc_workspace_id r = ws -> within ws (insert_scope r).
Proof.
  intros <-. unfold insert_scope. apply within_bind; [apply (within_insert_into sc_workspace_id); [done|]; by split|].
  intros []. apply within_db. intros w. simpl. beside_tac. set_solver.
Qed.
Lemma within_update ws id now : within ws (update_scope id ws now).
Proof.
  intros s. unfold update_scope. destruct (scopes (tabs s) !! id) as [r|] eqn:Hr; [|done].
  destruct (String.eqb_spec (sc_workspace_id r) ws) as [Hws|]; [|done]. simpl. split; try done. simpl.
  apply others_insert; [congruence|done].
Qed.

(** ** The gates *)

Lemma on_server_same {E A} (m : M Server E A) s r s' :
  on_server m s = (r, s') -> gate_same (srv s) (m (srv s)).2 -> same_data s s' /\ (m (srv s)) = (r, srv s').
Proof. unfold on_server. destruct (m (srv s)) as [r0 v]. by intros [= <- <-] Hs. Qed.

Lemma same_data_trans a b c : same_data a b -> same_data b c -> same_data a c.
Proof. unfold same_data, gate_same. intros [(?&?&?&?) ?] [(?&?&?&?) ?]. repeat split; congruence. Qed.

Definition gate_outcome (cfg : Config) (h : HeaderMap) (m : Method) (ws : string) (s s' : Studio)
    (r : result Response unit) : Prop :=
  same_data s s' /\ (r = Ok tt -> ws <> "" /\ admitted cfg h m ws (srv s)).

Lemma required_inv ws s r s' :
  workspace_query_required ws s = (r, s') -> s' = s /\ (r = Ok tt -> ws <> "").
Proof.
  unfold workspace_query_required. destruct (String.eqb_spec ws ""); intros [= <- <-]; by split.
Qed.
Lemma auth_inv cfg h m ws s r s' :
  on_server (exec (enforce_auth cfg h m ws)) s = (r, s') ->
  same_data s s' /\ (r = Ok tt -> admitted cfg h m ws (srv s)).
Proof.
  intros Hr. apply on_server_same in Hr as [Hs Hm]; [|apply enforce_auth_same]. split; [done|].
  intros ->. apply enforce_auth_iff. by rewrite Hm.
Qed.
Lemma read_gate_inv cfg h ws s r s' : read_gate cfg h ws s = (r, s') -> gate_outcome cfg h GET ws s s' r.
Proof.
  unfold read_gate. intros [(e & Hq & ->)|([] & s1 & Hq & Ha)]%M_bind_inv; apply required_inv in Hq as [-> Hne].
  - by split.
  - apply auth_inv in Ha as [Hs Ha]. split; [done|]. intros Hr. split; [by apply Hne|by apply Ha].
Qed.
Lemma write_gate_inv cfg h m ws s r s' : write_gate cfg h m ws s = (r, s') -> gate_outcome cfg h m ws s s' r.
Proof.
  unfold write_gate. intros [(e & Hq & ->)|([] & s1 & Hq & Hr)]%M_bind_inv; apply required_inv in Hq as [-> Hne].
  { by split. }
  destruct (rate_limit_same cfg ws (srv s)) as [Hg Hck].
  apply M_bind_inv in Hr as [(e & Hl & ->)|([] & s2 & Hl & Ha)]; apply on_server_same in Hl as [Hs Hl]; try done.
  apply auth_inv in Ha as [Hs2 Ha]. split; [by eapply same_data_trans|]. intros Hr. split; [by apply Hne|].
  specialize (Ha Hr). rewrite Hl in Hg, Hck. simpl in Hg, Hck. destruct Hg as (_ & Hau & _).
  by eapply admitted_same.
Qed.

(** What a request does: nothing, refused; or, admitted, only within its workspace. *)
Definition kept_to (cfg : Config) (h : HeaderMap) (m : Method) (ws : string) (s s' : Studio)
    (r : result Response Response) : Prop :=
  ((exists e, r = Err e) /\ same_data s s') \/
  (ws <> "" /\ admitted cfg h m ws (srv s) /\ if is_safe m then same_data s s' else beside ws s s').

Lemma studio_gated_read cfg h ws (k : M Studio Response Response) s r s' :
  (forall s, (k s).2 = s) -> (read_gate cfg h ws;; k) s = (r, s') -> kept_to cfg h GET ws s s' r.
Proof.
  intros Hk [(e & Hg & ->)|([] & s1 & Hg & Hr)]%M_bind_inv; apply read_gate_inv in Hg as [Hs Ha].
  - left. by split; [eexists|].
  - right. destruct (Ha eq_refl). split; [done|]. split; [done|]. simpl. specialize (Hk s1). by rewrite Hr in Hk; simpl in Hk; subst s1.
Qed.
Lemma studio_gated_write cfg h m ws (k : M Studio Response Response) s r s' :
  is_safe m = false -> within ws k -> (write_gate cfg h m ws;; k) s = (r, s') -> kept_to cfg h m ws s s' r.
Proof.
  intros Hm Hk [(e & Hg & ->)|([] & s1 & Hg & Hr)]%M_bind_inv; apply write_gate_inv in Hg as [Hs Ha].
  - left. by split; [eexists|].
  - right. destruct (Ha eq_refl). split; [done|]. split; [done|]. rewrite Hm. specialize (Hk s1). rewrite Hr in Hk.
    etrans; [by apply same_beside|done].
Qed.

Ltac within_tac :=
  repeat match goal with
  | |- within _ (_ ≫= _) => apply within_bind; [|intros ?]
  | |- within _ (if ?b then _ else _) => destruct b
  | |- within _ (match ?x with _ => _ end) => destruct x
  | |- within _ (or_answer _) => apply within_answer
  | |- within _ (on_db (new_id _)) => apply within_db, db_new_id
  | |- within _ (on_db now_rfc3339) => apply within_db, db_now
  | |- within _ (write_report_event_and_artifact _ _ _ _ _ _) => apply within_report
  | |- within _ (insert_scope _) => by apply within_scope
  | |- within _ (update_scope _ _ _) => apply within_update
  | |- within _ (insert_into "entity" _ _ _ _ _) => apply (within_insert_into en_workspace_id); [done|by split]
  | |- within _ (insert_into "entity_relation" _ _ _ _ _) => apply (within_insert_into re_workspace_id); [done|by split]
  | |- within _ _ => apply within_here
  end.

End isolation.
