(* ===== verification/StudioReports.v ===== *)
(** * What a report route writes, the listing gives back

    Setup reports and scout records are written as an event that carries the text
    and an artifact that points at it; the listings follow the pointer back. *)

From S2P Require Import Prelude Str Json Core Policy Storage Command LedgerInv Chain Effects Auth Prog Server AuthRoutes HttpAuth Studio StudioIsolation.
#[local] Open Scope string_scope.
#[local] Open Scope list_scope.
#[local] Open Scope Z_scope.

#[global] Instance desc_total {A} (key : A -> string) : Total (desc key).
Proof. intros a b. unfold desc. destruct (cmp_le_total (cmp:=String.compare) (key a) (key b)); auto. Qed.
#[global] Instance desc_trans {A} (key : A -> string) : Transitive (desc key).
Proof. intros a b c. unfold desc. intros Hab Hbc. by eapply (cmp_le_trans (cmp:=String.compare)). Qed.

(** The one strictly newest row comes first. *)
Lemma newest_first_head {A} (key : A -> string) (l : list A) a :
  In a l -> (forall x, In x l -> x = a \/ String.compare (key x) (key a) = Lt) ->
  exists rest, newest_first key l = a :: rest.
Proof.
  intros Ha Hx. unfold newest_first.
  pose proof (Sorted_merge_sort (desc key) l) as Hs. apply Sorted_StronglySorted in Hs; [|apply _].
  pose proof (merge_sort_Permutation (desc key) l) as Hp.
  destruct (merge_sort (desc key) l) as [|x rest].
  { apply Permutation_nil in Hp. by subst l. }
  exists rest. f_equal. assert (Hin : In x l) by (eapply Permutation_in; [exact Hp|by left]).
  destruct (Hx x Hin) as [->|Hlt]; [done|].
  apply (Permutation_in _ (Permutation_sym Hp)) in Ha as [->|Ha]; [done|].
  apply StronglySorted_inv in Hs as [_ Hs]. rewrite List.Forall_forall in Hs. specialize (Hs a Ha).
  unfold desc, cmp_le in Hs. apply (cmp_gt_lt (cmp:=String.compare)) in Hlt. by rewrite Hlt in Hs.
Qed.

Section reports.
Context `{SerdeJson} `{Regex} `{Env} `{ServerEnv} `{Rng} `{Sha256} `{Base64} `{Jwt} `{RowOrder}.

(** Every artifact is older than the stamps to come. *)
Definition artifacts_past (s : Studio) : Prop :=
  forall k a n, artifacts (tabs s) !! k = Some a -> (time (world (srv s)) <= n)%nat ->
    String.compare (ar_created_at a) (clock n) = Lt.

(** [append_chronicle_event] is the engine's [append_chronicle] without a session,
    which also answers the stamp it drew. *)
Lemma append_is_engines ws actor t c sv p w :
  append_chronicle_event ws actor t c sv p w
  = (id ← append_chronicle ws actor None t c sv p (mkEventBackrefs None None None None None None None);
     mret (id, clock (time w))) w.
Proof.
  unfold append_chronicle_event, append_chronicle, last_event_hash, append_event, insert_row, mbind, M_bind,
    read, new_id, now_rfc3339. simpl.
  destruct (has (events (ledger w)) _); [done|]. by destruct (event_fk _ _).
Qed.

Lemma append_inv ws actor t c sv p w id now w' :
  append_chronicle_event ws actor t c sv p w = (Ok (id, now), w') ->
  now = clock (time w) /\ (time w < time w')%nat /\
  exists r, events (ledger w') = <[id := r]> (events (ledger w)) /\ events (ledger w) !! id = None /\
    ev_payload_inline (er_event r) = Some (canonical_json p) /\ ev_event_type (er_event r) = t /\
    ev_event_hash (er_event r)
      = chain_hash (default genesis ((fun r => ev_event_hash (er_event r)) <$>
                      last (select_events (in_scope ws None) (ledger w)))) (ev_payload_hash (er_event r)).
Proof.
  unfold append_chronicle_event, last_event_hash, append_event, insert_row, mbind, M_bind, read, new_id,
    now_rfc3339. simpl.
  destruct (has (events (ledger w)) _) eqn:Hh; [done|]. destruct (event_fk _ _); [|done].
  simpl. intros [= <- <- <-]. split; [done|]. split; [simpl; lia|]. eexists. split; [done|].
  split; [by apply has_false|]. done.
Qed.

(** Making the workspace and the actor takes time and touches no event. *)
Lemma ensure_inv ws actor w w' r :
  ensure_workspace_actor ws actor w = (r, w') -> events (ledger w') = events (ledger w) /\ (time w <= time w')%nat.
Proof.
  unfold ensure_workspace_actor, ensure_workspace, ensure_actor, get_workspace, get_actor, insert_workspace,
    insert_actor, insert_row, mbind, M_bind, mret, M_ret, read, now_rfc3339. simpl.
  repeat (case_match; simplify_eq/=); intros; simplify_eq/=; (split; [done|lia]).
Qed.

Lemma on_db_inv {A} (m : DB A) s r s' :
  on_db m s = (r, s') -> tabs s' = tabs s /\ m (world (srv s)) = (r, world (srv s')).
Proof. unfold on_db, on_server, on_world. destruct (m (world (srv s))) as [r0 w]. by intros [= <- <-]. Qed.

(** What is there after a report was written. *)
Record report_there (ws kind : string) (payload : Json) (content actor : string) (sv : Sensitivity)
    (ids : string * string) (s s' : Studio) : Prop := {
  rt_fresh : artifacts (tabs s) !! ids.1 = None;
  rt_artifact : exists n, (time (world (srv s)) <= n < time (world (srv s')))%nat /\
    artifacts (tabs s') = <[ids.1 := mkArtifactRow ids.1 ws kind (event_uri +:+ ids.2) (sha256_hex content)
       (Z.of_nat (String.length content)) (sensitivity_json sv) actor (clock n) None]> (artifacts (tabs s));
  rt_event : exists r, events (the_ledger s') = <[ids.2 := r]> (events (the_ledger s)) /\
    events (the_ledger s) !! ids.2 = None /\ ev_payload_inline (er_event r) = Some (canonical_json payload) /\
    ev_event_type (er_event r) = kind;
}.

Lemma report_written ws actor kind payload content sv s ids s' :
  write_report_event_and_artifact ws actor kind payload content sv s = (Ok ids, s') ->
  report_there ws kind payload content actor sv ids s s'.
Proof.
  unfold write_report_event_and_artifact.
  intros [(? & _ & ?)|([] & s1 & He & Hr)]%M_bind_inv; [done|].
  apply on_db_inv in He as [Ht1 [Hev1 Htm1]%ensure_inv].
  apply M_bind_inv in Hr as [(? & _ & ?)|([eid now] & s2 & Ha & Hr)]; [done|].
  apply on_db_inv in Ha as [Ht2 (-> & Htm2 & r & Hev2 & Hf & Hp & Hk & _)%append_inv].
  apply M_bind_inv in Hr as [(? & _ & ?)|(aid & s3 & Hi & Hr)]; [done|].
  apply on_db_inv in Hi as [Ht3 [= <- Hw3]].
  apply M_bind_inv in Hr as [(? & _ & ?)|([] & s4 & Hi & Hr)]; [done|]. injection Hr as <- <-.
  unfold insert_into in Hi. destruct (has (artifacts (tabs s3)) _) eqn:Hh; [done|].
  destruct (artifact_fk _ _ _); [|done]. injection Hi as <-. apply has_false in Hh.
  unfold the_ledger. simpl in *. rewrite Ht3, Ht2, Ht1 in Hh. split; simpl.
  - done.
  - exists (time (world (srv s1))). rewrite <- Hw3. simpl. split; [lia|]. by rewrite Ht3, Ht2, Ht1.
  - exists r. unfold the_ledger. simpl. rewrite <- Hw3. simpl. rewrite Hev2, <- Hev1. done.
Qed.

(** The new artifact heads its listing, and its pointer leads to the payload. *)
Lemma report_heads ws kind payload content actor sv ids s s' :
  artifacts_past s -> report_there ws kind payload content actor sv ids s s' ->
  exists a rest, artifacts_of ws kind s' = a :: rest /\ ar_id a = ids.1 /\
    event_id_from_uri (ar_uri a) = Some ids.2 /\ ar_content_hash a = sha256_hex content /\
    ar_bytes a = Z.of_nat (String.length content) /\ payload_of ids.2 s' = from_str (canonical_json payload).
Proof.
  intros Hp [Hf (n & Hn & Ha) (r & He & _ & Hi & _)].
  set (a := mkArtifactRow _ _ _ _ _ _ _ _ _ _) in Ha.
  destruct (newest_first_head ar_created_at (List.filter (live_artifact ws kind) (rows (artifacts (tabs s')))) a)
    as [rest Hrest].
  - apply List.filter_In. split; [|unfold live_artifact; simpl; by rewrite !String.eqb_refl].
    apply rows_In. exists ids.1. by rewrite Ha, lookup_insert_eq.
  - intros x [[k Hk]%rows_In _]%List.filter_In. rewrite Ha in Hk. destruct (decide (ids.1 = k)) as [<-|Hne].
    + rewrite lookup_insert_eq in Hk. injection Hk as <-. by left.
    + rewrite lookup_insert_ne in Hk by done. right. eapply Hp; [exact Hk|lia].
  - exists a, rest. split; [exact Hrest|]. split; [done|].
    split; [exact (strip_prefix_app event_uri ids.2)|]. split; [done|]. split; [done|].
    unfold payload_of. rewrite He, lookup_insert_eq. simpl. by rewrite Hi.
Qed.

(** serde_json reads back the object it printed. *)
Class ReportTexts : Prop := report_reads : forall content actor,
  from_str (canonical_json (report_payload content actor)) = Some (report_payload content actor).

Lemma gate_then {A} (g : M Studio Response unit) (k : M Studio Response A) s r s' :
  (g;; k) s = (Ok r, s') -> exists s1, g s = (Ok tt, s1) /\ k s1 = (Ok r, s').
Proof. intros [(? & _ & ?)|([] & s1 & Hg & Hr)]%M_bind_inv; [done|]. eauto. Qed.
Lemma answer_ok {A} (m : M Studio ActantError A) s a s' : or_answer m s = (Ok a, s') -> m s = (Ok a, s').
Proof. unfold or_answer, map_err. destruct (m s) as [[x|e] s1]; [|done]. by intros [= <- <-]. Qed.

Lemma gate_past cfg h m ws s s1 :
  write_gate cfg h m ws s = (Ok tt, s1) -> world (srv s1) = world (srv s) /\ tabs s1 = tabs s.
Proof. intros [[(Hw & _) Ht] _]%write_gate_inv. done. Qed.

(** A setup report that is accepted is the latest one from then on: asked
    for it, the server answers the text that was sent, byte for byte, with its length
    and hash and the ids of the artifact and the event that were answered; the event
    is new, and nothing that was there is overwritten. *)
Theorem report_round_trip `{!ReportTexts} (cfg cfg2 : Config) (h h2 : HeaderMap) (req : CreateSetupReport)
    (s s1 s2 : Studio) (resp : Response) :
  artifacts_past s -> create_setup_report cfg h req s = (Ok resp, s1) ->
  read_gate cfg2 h2 (sr_workspace_id req) s1 = (Ok tt, s2) ->
  exists ids created, resp = written ids /\
    artifacts (tabs s) ⊆ artifacts (tabs s1) /\ events (the_ledger s) ⊆ events (the_ledger s1) /\
    events (the_ledger s) !! ids.2 = None /\
    (list_setup_reports cfg2 h2 (sr_workspace_id req) (Some true) s1).1
      = Ok (ok_json (jobj [("report",
          jobj [("artifact_id", JString ids.1); ("event_id", JString ids.2); ("content", JString (sr_content req));
                ("content_hash", JString (sha256_hex (sr_content req)));
                ("bytes", JNumber (PosInt (Z.of_nat (String.length (sr_content req)))));
                ("created_at", JString created)])])).
Proof.
  intros Hp Hc Hg. unfold create_setup_report in Hc. apply gate_then in Hc as (s0 & Hw & Hc).
  apply gate_past in Hw as [Hw Ht].
  destruct (String.eqb _ _); [done|]. destruct (String.eqb _ _); [done|].
  apply M_bind_inv in Hc as [(? & _ & ?)|(sv & s3 & Hsv & Hc)]; [done|].
  apply answer_ok in Hsv. injection Hsv as _ <-.
  apply M_bind_inv in Hc as [(? & _ & ?)|(ids & s4 & Hr & Hc)]; [done|]. injection Hc as <- <-.
  apply answer_ok, report_written in Hr.
  assert (Hp0 : artifacts_past s0) by (unfold artifacts_past; rewrite Hw, Ht; exact Hp).
  destruct (report_heads _ _ _ _ _ _ _ _ _ Hp0 Hr) as (a & rest & Hl & Hid & Hu & Hh & Hb & Hpay).
  destruct Hr as [Hf (n & _ & Ha) (r & He & Hfe & _)].
  exists ids, (ar_created_at a). split; [done|]. unfold the_ledger in *. rewrite Ht in Hf, Ha. rewrite Hw in He, Hfe.
  split; [rewrite Ha; by apply insert_subseteq|]. split; [rewrite He; by apply insert_subseteq|]. split; [done|].
  destruct (read_gate_inv _ _ _ _ _ _ Hg) as [[(Hw2 & _) Ht2] _].
  unfold list_setup_reports. unfold mbind at 1, M_bind at 1. rewrite Hg. simpl.
  assert (Hl2 : artifacts_of (sr_workspace_id req) "setup_report" s2 = a :: rest)
    by (unfold artifacts_of; rewrite Ht2; exact Hl).
  assert (Hp2 : payload_of ids.2 s2 = Some (report_payload (sr_content req) (sr_actor_id req)))
    by (unfold payload_of, the_ledger; rewrite Hw2; unfold payload_of in Hpay; rewrite <- report_reads; exact Hpay).
  unfold mbind, M_bind. simpl. rewrite Hl2, Hu. simpl. unfold latest_report. rewrite Hp2, Hid, Hh, Hb. done.
Qed.

(** A scout record that is accepted heads the listing for its source, with all that
    was sent: the limit of a hundred cannot cut the newest one off. *)
Theorem scout_round_trip (cfg cfg2 : Config) (h h2 : HeaderMap) (req : CreateScoutRecord)
    (s s1 s2 : Studio) (resp : Response) :
  from_str (canonical_json (scout_payload req)) = Some (scout_payload req) ->
  artifacts_past s -> create_scout_record cfg h req s = (Ok resp, s1) ->
  read_gate cfg2 h2 (cs_workspace_id req) s1 = (Ok tt, s2) ->
  exists ids sens created rest, resp = written ids /\
    (list_scout_records cfg2 h2 (cs_workspace_id req) (Some (cs_source_id req)) s1).1
      = Ok (ok_json (jobj [("records", JArray
          (jobj [("artifact_id", JString ids.1); ("event_id", JString ids.2);
                 ("source_id", JString (cs_source_id req)); ("kind", JString (cs_kind req));
                 ("sensitivity", JString sens); ("content", JString (cs_content req));
                 ("metadata", default JNull (cs_metadata req)); ("created_at", JString created)] :: rest))])).
Proof.
  intros Hread Hp Hc Hg. unfold create_scout_record in Hc. apply gate_then in Hc as (s0 & Hw & Hc).
  apply gate_past in Hw as [Hw Ht].
  destruct (String.eqb _ _); [done|]. destruct (String.eqb _ _); [done|].
  destruct (String.eqb _ _); [done|]. destruct (String.eqb _ _); [done|].
  apply M_bind_inv in Hc as [(? & _ & ?)|(sv & s3 & Hsv & Hc)]; [done|].
  apply answer_ok in Hsv. injection Hsv as _ <-.
  apply M_bind_inv in Hc as [(? & _ & ?)|(ids & s4 & Hr & Hc)]; [done|]. injection Hc as <- <-.
  apply answer_ok, report_written in Hr.
  assert (Hp0 : artifacts_past s0) by (unfold artifacts_past; rewrite Hw, Ht; exact Hp).
  destruct (report_heads _ _ _ _ _ _ _ _ _ Hp0 Hr) as (a & l & Hl & Hid & Hu & _ & _ & Hpay).
  destruct (read_gate_inv _ _ _ _ _ _ Hg) as [[(Hw2 & _) Ht2] _].
  assert (Hl2 : artifacts_of (cs_workspace_id req) "scout_record" s2 = a :: l)
    by (unfold artifacts_of; rewrite Ht2; exact Hl).
  assert (Hp2 : payload_of ids.2 s2 = Some (scout_payload req))
    by (unfold payload_of, the_ledger; rewrite Hw2; unfold payload_of in Hpay; rewrite <- Hread; exact Hpay).
  exists ids, (ar_sensitivity a), (ar_created_at a), (omap (scout_record s2 (Some (cs_source_id req))) (take 99 l)).
  split; [done|]. unfold list_scout_records. unfold mbind at 1, M_bind at 1. rewrite Hg.
  unfold mbind, M_bind. cbn [or_answer map_err scan id fst]. rewrite Hl2.
  change (take 100 (a :: l)) with (a :: take 99 l). cbn [omap list_omap].
  assert (Hrec : scout_record s2 (Some (cs_source_id req)) a = Some
    (jobj [("artifact_id", JString ids.1); ("event_id", JString ids.2);
           ("source_id", JString (cs_source_id req)); ("kind", JString (cs_kind req));
           ("sensitivity", JString (ar_sensitivity a)); ("content", JString (cs_content req));
           ("metadata", default JNull (cs_metadata req)); ("created_at", JString (ar_created_at a))])).
  { unfold scout_record. rewrite Hu. simpl. rewrite Hp2, Hid.
    change (text_member "source_id" (Some (scout_payload req))) with (cs_source_id req).
    rewrite String.eqb_refl, andb_false_r. done. }
  by rewrite Hrec.
Qed.
End reports.
