(* ===== verification/ReadRoutes.v ===== *)
(** * Reading the ledger over HTTP ([actant-server/src/lib.rs])

    Events of a session, pending approvals, the pull of a syncing peer, checkpoints
    and replays; and the routes of the Postgres router, over the tables as its code
    takes them (Backend.v shows what the schema it ships with does).  The SQLite routes
    of this file ask for no credential. *)

From S2P Require Import Prelude Str Json Core Policy Predicate Storage Command Chain Effects Replay Auth Prog Server AuthRoutes HttpAuth Studio.
#[local] Open Scope string_scope.
#[local] Open Scope list_scope.
#[local] Open Scope Z_scope.

#[local] Abbreviation Handler A := (M Server Response A).

Definition causality_json (c : CausalityKind) : string :=
  match c with
  | Observation => "observation" | Intent => "intent" | Effect_ => "effect" | Control => "control" | Audit => "audit"
  end.
(** [Serialize] of an [AgentEvent]. *)
Definition event_value (e : AgentEvent) : Json :=
  jobj [("id", JString (ev_id e)); ("workspace_id", JString (ev_workspace_id e));
        ("actor_id", JString (ev_actor_id e)); ("session_id", opt_json (ev_session_id e));
        ("parent_event_id", opt_json (ev_parent_event_id e)); ("event_type", JString (ev_event_type e));
        ("causality_kind", JString (causality_json (ev_causality_kind e)));
        ("sensitivity", JString (sensitivity_json (ev_sensitivity e)));
        ("authority_scope_id", opt_json (ev_authority_scope_id e));
        ("payload_inline", opt_json (ev_payload_inline e)); ("payload_ref", opt_json (ev_payload_ref e));
        ("payload_hash", JString (ev_payload_hash e)); ("event_hash", JString (ev_event_hash e));
        ("created_at", JString (ev_created_at e)); ("model_call_id", opt_json (ev_model_call_id e));
        ("tool_call_id", opt_json (ev_tool_call_id e)); ("workflow_run_id", opt_json (ev_workflow_run_id e));
        ("memory_id", opt_json (ev_memory_id e)); ("artifact_id", opt_json (ev_artifact_id e));
        ("command_id", opt_json (ev_command_id e)); ("effect_id", opt_json (ev_effect_id e))].

Definition events_json (es : list AgentEvent) : Response :=
  ok_json (jobj [("events", JArray (List.map event_value es))]).
Definition list_events (session_id : string) : Handler Response :=
  es ← map_err err_response (on_world (events_in_session session_id));
  mret (events_json es).

(** ** The pull of a syncing peer *)

Record SyncSinceRequest := mkSyncSinceRequest {
  ss_workspace_id : string; ss_since_event_id : string; ss_limit : Z
}.
Definition default_sync_limit : Z := 1000.
(** [x.clamp(1, 10_000)]. *)
Definition clamp_limit (n : Z) : Z := Z.min (Z.max n 1) 10000.

Definition by_id (a b : EventRow) : Prop := cmp_le (cmp:=String.compare) (row_id a) (row_id b) = true.
#[global] Instance by_id_dec a b : Decision (by_id a b).
Proof. unfold by_id. apply _. Defined.
(** [WHERE workspace_id = ? AND id > ?]. *)
Definition after_id (ws since : string) (r : EventRow) : bool :=
  String.eqb (ev_workspace_id (er_event r)) ws && cmp_lt (cmp:=String.compare) since (row_id r).

Definition sync_event (r : EventRow) : Json :=
  let e := er_event r in
  jobj [("id", JString (ev_id e)); ("event_type", JString (ev_event_type e)); ("actor_id", JString (ev_actor_id e));
        ("payload_hash", JString (ev_payload_hash e)); ("payload_inline", opt_json (ev_payload_inline e));
        ("created_at", JString (ev_created_at e))].
Definition sync_answer (rs : list EventRow) : Response :=
  ok_json (jobj [("events", JArray (List.map sync_event rs)); ("next_since", opt_json (row_id <$> last rs))]).

Section read.
Context `{SerdeJson} `{Regex} `{Env} `{ServerEnv} `{Rng} `{Sha256} `{Base64} `{Jwt} `{RowOrder}.

Definition ordered_after (ws since : string) (l : Ledger) : list EventRow :=
  merge_sort by_id (List.filter (after_id ws since) (rows (events l))).
Definition sync_rows (req : SyncSinceRequest) (l : Ledger) : list EventRow :=
  take (Z.to_nat (clamp_limit (ss_limit req))) (ordered_after (ss_workspace_id req) (ss_since_event_id req) l).
Definition sync_since (req : SyncSinceRequest) : Handler Response :=
  rs ← look (fun s => sync_rows req (ledger (world s)));
  mret (sync_answer rs).

(** ** Approvals *)

Definition approval_status_json (s : ApprovalStatus) : string :=
  match s with
  | APending => "pending" | AApproved => "approved" | ADenied => "denied" | AExpired => "expired"
  | AEscalated => "escalated" | ACancelled => "cancelled"
  end.
Definition oldest_first (a b : ApprovalRequest) : Prop :=
  cmp_le (cmp:=String.compare) (apr_created_at a) (apr_created_at b) = true.
#[global] Instance oldest_first_dec a b : Decision (oldest_first a b).
Proof. unfold oldest_first. apply _. Defined.
Definition pending_in (ws : string) (a : ApprovalRequest) : bool :=
  String.eqb (apr_workspace_id a) ws && bool_decide (apr_status a = APending).
Definition pending_approvals (ws : string) (l : Ledger) : list ApprovalRequest :=
  merge_sort oldest_first (List.filter (pending_in ws) (rows (approvals l))).
(** A row without a tool call does not decode as a text, and fails the query. *)
Definition approval_json (a : ApprovalRequest) : option Json :=
  t ← apr_tool_call_id a;
  Some (jobj [("id", JString (apr_id a)); ("tool_call_id", JString t);
              ("requested_by", JString (apr_requested_by_actor_id a));
              ("risk_level", JString (risk_json (apr_risk_level a))); ("summary", JString (apr_summary a));
              ("status", JString (approval_status_json (apr_status a)))]).
Context (decode_error : string).
Definition list_approvals (ws : string) : Handler Response :=
  rs ← look (fun s => pending_approvals ws (ledger (world s)));
  match mapM approval_json rs with
  | Some js => mret (ok_json (jobj [("approvals", JArray js)]))
  | None => throw (err_response (Core.Storage decode_error))
  end.

(** ** Replay *)

Definition on_replay {A} (m : M RWorld ActantError A) : M RWorld Response A := map_err err_response m.
Definition replay_checkpoint (workspace_id event_id : string) : M RWorld Response Response :=
  cp ← on_replay (checkpoint workspace_id event_id);
  mret (ok_json (jobj [("checkpoint_id", JString cp)])).
Definition replay_mode (mode : string) : option ReplayMode :=
  if String.eqb mode "recorded" then Some Recorded
  else if String.eqb mode "model" then Some Replay.Model
  else if String.eqb mode "policy" then Some MPolicy
  else if String.eqb mode "memory" then Some MMemory
  else None.
Definition diff_json (d : ReplayDiff) : Json :=
  jobj [("run_id", JString (rd_run_id d));
        ("entries", JArray (List.map (fun e => jobj [("event_type", JString (de_event_type e));
           ("kind", JString (de_kind e)); ("summary", opt_json (de_summary e))]) (rd_entries d)))].
Definition replay_run (actor_id checkpoint_id mode : string) : M RWorld Response Response :=
  match replay_mode mode with
  | None => throw (err_response (InvalidInput ("unknown replay mode: " +:+ mode)))
  | Some m => d ← on_replay (run actor_id checkpoint_id m); mret (ok_json (diff_json d))
  end.

(** ** The Postgres router *)

(** [PostgresAppState::new]; there is no [tls_enabled], which only the link and
    login routes read. *)
Definition pg_new_state : Config := new_state.
(** The same chokepoint and limiter over the other storage. *)
Definition enforce_pg_auth (cfg : Config) (h : HeaderMap) (m : Method) (ws : string) : H unit :=
  enforce_auth cfg h m ws.
Definition enforce_pg_rate_limit (cfg : Config) (ws : string) : H unit := enforce_rate_limit cfg ws.
Definition pg_events_auth_error : Response := auth_error 401 (error_body "session_not_authorized").

Definition pg_dispatch_command (policy : PolicyDoc) (cfg : Config) (h : HeaderMap) (req : CommandRequest) :
    Handler Response :=
  exec (enforce_pg_auth cfg h POST (cr_workspace req));;
  exec (enforce_pg_rate_limit cfg (cr_workspace req));;
  update (with_counts (record_command (cr_workspace req) (cr_command_type req)));;
  o ← map_err err_response (on_world (dispatch policy (cr_workspace req) (cr_actor req) (cr_command_type req)
        (cr_input req) (cr_idempotency_key req)));
  mret (command_response o).

Definition pg_list_events (cfg : Config) (h : HeaderMap) (session_id : string) : Handler Response :=
  found ← look (fun s => sessions (ledger (world s)) !! session_id);
  match found with
  | None => throw pg_events_auth_error
  | Some x =>
      map_err (fun _ => pg_events_auth_error) (exec (enforce_pg_auth cfg h GET (ses_workspace_id x)));;
      list_events session_id
  end.

Definition pg_sync_since (cfg : Config) (h : HeaderMap) (req : SyncSinceRequest) : Handler Response :=
  exec (enforce_pg_auth cfg h POST (ss_workspace_id req));;
  exec (enforce_pg_rate_limit cfg (ss_workspace_id req));;
  sync_since req.

Definition pg_not_implemented (path : string) : Response :=
  err_response (NotImplemented ("route " +:+ path
    +:+ " is SQLite-only; Postgres server mode exposes health, metadata, command, events, and sync routes")).

(** ** The commands the metadata route names *)

Definition metadata_commands : list string :=
  ["create_session"; "append_user_message"; "append_agent_message"; "request_tool_call"; "approve_tool_call";
   "deny_tool_call"; "record_tool_result"; "propose_memory"; "approve_memory"; "reject_memory"].

(** They are all the engine knows: any other is refused before it does anything. *)
Lemma other_commands_refused policy ws actor cmd ct input :
  ~ In ct metadata_commands ->
  handle policy ws actor cmd ct input = throw (InvalidInput ("unknown command_type: " +:+ ct)).
Proof.
  intros Hn. unfold handle, metadata_commands in *. simpl in Hn.
  repeat match goal with |- context [String.eqb ?a ?b] => destruct (String.eqb_spec a b); [subst; tauto|] end.
  done.
Qed.

(** ** A peer that pulls until nothing comes *)

(** The peer's loop: ask, keep the events, ask again after [next_since]. *)
Fixpoint pull (fuel : nat) (req : SyncSinceRequest) (s : Server) : option (list Json) :=
  match fuel with
  | O => None
  | S f =>
      match (sync_since req s).1 with
      | Ok a =>
          es ← (x ← jget "events" (body a); as_array x);
          match jget "next_since" (body a) ≫= as_str with
          | Some next => rest ← pull f (mkSyncSinceRequest (ss_workspace_id req) next (ss_limit req)) (sync_since req s).2;
                         Some (es ++ rest)
          | None => Some es
          end
      | Err _ => None
      end
  end.

#[local] Instance by_id_total : Total by_id.
Proof. intros a b. unfold by_id. destruct (cmp_le_total (cmp:=String.compare) (row_id a) (row_id b)); auto. Qed.
#[local] Instance by_id_trans : Transitive by_id.
Proof. intros a b c. unfold by_id. apply (cmp_le_trans (cmp:=String.compare)). Qed.

Lemma ordered_after_sorted ws since l : StronglySorted by_id (ordered_after ws since l).
Proof. apply Sorted_StronglySorted; [apply _|]. apply Sorted_merge_sort, _. Qed.
Lemma ordered_after_in ws since l r :
  In r (ordered_after ws since l) <-> In r (rows (events l)) /\ after_id ws since r = true.
Proof.
  unfold ordered_after. rewrite <- List.filter_In. split; apply Permutation_in;
    [|symmetry]; apply merge_sort_Permutation.
Qed.

Lemma ordered_after_nodup ws since l : keyed l -> List.NoDup (List.map row_id (ordered_after ws since l)).
Proof.
  intros Hk. eapply Permutation_NoDup; [|by apply (keyed_rows_nodup (after_id ws since))].
  apply Permutation_map. symmetry. apply merge_sort_Permutation.
Qed.

(** What stands after an element of the list has a greater id, what stands before
    it has none. *)
Lemma split_order ws since l p x q :
  keyed l -> ordered_after ws since l = p ++ x :: q ->
  (forall y, In y p -> cmp_lt (cmp:=String.compare) (row_id x) (row_id y) = false) /\
  (forall y, In y q -> cmp_lt (cmp:=String.compare) (row_id x) (row_id y) = true) /\
  StronglySorted by_id q /\ List.NoDup q.
Proof.
  intros Hk Hs. pose proof (ordered_after_sorted ws since l) as Hsort. rewrite Hs in Hsort.
  pose proof (ordered_after_nodup ws since l Hk) as Hnd. rewrite Hs, List.map_app in Hnd. simpl in Hnd.
  apply StronglySorted_app in Hsort as (Hpx & _ & Hxq). apply StronglySorted_inv in Hxq as [Hq Hxq].
  rewrite List.Forall_forall in Hxq. apply List.NoDup_remove in Hnd as [Hnd Hni].
  split; [|split; [|split; [done|]]].
  - intros y Hy. assert (Hle : by_id y x) by (apply Hpx; [by apply list_elem_of_In|left]).
    unfold by_id, cmp_le in Hle. unfold cmp_lt. destruct (String.compare (row_id x) (row_id y)) eqn:Hc; [done| |done].
    apply str_cmp_gt_lt in Hc. by rewrite Hc in Hle.
  - intros y Hy. assert (Hne : row_id x <> row_id y).
    { intros He. apply Hni, in_or_app. right. rewrite He. by apply List.in_map. }
    specialize (Hxq y Hy). unfold by_id, cmp_le in Hxq. unfold cmp_lt.
    destruct (String.compare (row_id x) (row_id y)) eqn:Hc; [|done|done]. by apply str_cmp_eq in Hc.
  - apply List.NoDup_app_remove_l in Hnd. by eapply List.NoDup_map_inv.
Qed.

Lemma cursor_moves a b c :
  cmp_lt (cmp:=String.compare) a b = true -> cmp_lt (cmp:=String.compare) b c = true ->
  cmp_lt (cmp:=String.compare) a c = true.
Proof.
  unfold cmp_lt. destruct (String.compare a b) eqn:Hab; [done| |done].
  destruct (String.compare b c) eqn:Hbc; [done| |done]. by rewrite (str_lt_trans _ _ _ Hab Hbc).
Qed.

(** The events after the last one of a page are the rest of the list. *)
Lemma after_last (l : Ledger) ws since p x q :
  keyed l -> ordered_after ws since l = p ++ x :: q -> ordered_after ws (row_id x) l = q.
Proof.
  intros Hk Hs. destruct (split_order _ _ _ _ _ _ Hk Hs) as (Hlow & Hhigh & Hq & Hnd).
  assert (Hmem : forall y, In y (p ++ x :: q) <-> In y (rows (events l)) /\ after_id ws since y = true)
    by (intros y; by rewrite <- Hs, ordered_after_in).
  assert (Hin : forall y, In y (ordered_after ws (row_id x) l) <-> In y q).
  { intros y. rewrite ordered_after_in. unfold after_id. split.
    - intros [Hy [Hw Hlt]%andb_prop]. assert (Hy2 : In y (p ++ x :: q)).
      { apply Hmem. split; [done|]. unfold after_id. rewrite Hw. simpl.
        destruct (proj1 (Hmem x) ltac:(apply in_or_app; right; by left)) as [_ [_ Hx]%andb_prop].
        by eapply cursor_moves. }
      apply in_app_or in Hy2 as [Hp|[<-|Hy2]]; [|exfalso|done].
      + apply Hlow in Hp. congruence.
      + unfold cmp_lt in Hlt. by rewrite str_cmp_refl in Hlt.
    - intros Hy. destruct (proj1 (Hmem y) ltac:(apply in_or_app; right; by right)) as [Hr [Hw _]%andb_prop].
      split; [done|]. rewrite Hw. simpl. by apply Hhigh. }
  apply (StronglySorted_unique_strong by_id); [| |done|].
  - intros y z Hy%list_elem_of_In Hz%list_elem_of_In Hyz Hzy. apply ordered_after_in in Hy as [Hy _].
    apply Hin, ordered_after_in in Hz as [Hz _]. apply (row_unique l); [done..|].
    by apply (cmp_le_antisym (cmp:=String.compare)).
  - apply ordered_after_sorted.
  - apply Permutation.NoDup_Permutation; [|done|exact Hin].
    eapply List.NoDup_map_inv. by apply ordered_after_nodup.
Qed.

(** One round of the loop. *)
Lemma pull_round f ws since limit s :
  let rs := sync_rows (mkSyncSinceRequest ws since limit) (ledger (world s)) in
  pull (S f) (mkSyncSinceRequest ws since limit) s =
    match last rs with
    | Some x => rest ← pull f (mkSyncSinceRequest ws (row_id x) limit) s; Some (List.map sync_event rs ++ rest)
    | None => Some (List.map sync_event rs)
    end.
Proof.
  intros rs. simpl. unfold sync_since, mbind, M_bind. simpl. fold rs. destruct (last rs) as [x|]; reflexivity.
Qed.

Lemma pull_pages fuel ws since limit s :
  keyed (ledger (world s)) -> (length (ordered_after ws since (ledger (world s))) < fuel)%nat ->
  pull fuel (mkSyncSinceRequest ws since limit) s
    = Some (List.map sync_event (ordered_after ws since (ledger (world s)))).
Proof.
  intros Hk. revert since. induction fuel as [|f IH]; intros since Hf; [lia|]. rewrite pull_round. simpl.
  unfold sync_rows. cbn [ss_limit ss_workspace_id ss_since_event_id].
  set (L := ordered_after ws since (ledger (world s))) in *.
  set (n := Z.to_nat (clamp_limit limit)). assert (Hn : (1 <= n)%nat) by (unfold n, clamp_limit; lia).
  transitivity (Some (List.map sync_event (take n L) ++ List.map sync_event (drop n L)));
    [|by rewrite <- List.map_app, take_drop].
  destruct (last (take n L)) as [x|] eqn:Hlast.
  - apply last_Some in Hlast as [p Hp]. assert (Hs : L = p ++ x :: drop n L).
    { rewrite <- (take_drop n L) at 1. by rewrite Hp, <- app_assoc. }
    pose proof (after_last _ _ _ _ _ _ Hk Hs) as Hrest. rewrite IH; [by rewrite Hrest|].
    rewrite Hrest. rewrite Hs, length_app in Hf. simpl in Hf. lia.
  - apply last_None in Hlast. destruct L as [|y L']; [by rewrite !firstn_nil, drop_nil|]. destruct n; [lia|done].
Qed.

(** C19: A peer that pulls with [next_since] until nothing comes gets, after at
    most one round more than there are events, every event of the workspace after
    its cursor exactly once, in the order of the ids, whatever the page size; and a
    page that is asked for again is the same. *)
Theorem pull_gets_everything (ws since : string) (limit : Z) (s : Server) :
  keyed (ledger (world s)) ->
  let es := ordered_after ws since (ledger (world s)) in
  pull (S (length es)) (mkSyncSinceRequest ws since limit) s = Some (List.map sync_event es) /\
  List.NoDup (List.map row_id es) /\ StronglySorted by_id es /\
  (forall r, In r es <-> events (ledger (world s)) !! row_id r = Some r /\ ev_workspace_id (er_event r) = ws /\
     cmp_lt (cmp:=String.compare) since (row_id r) = true) /\
  (forall req, (sync_since req s).2 = s).
Proof.
  intros Hk es. split; [apply pull_pages; [done|unfold es; lia]|]. split; [by apply ordered_after_nodup|].
  split; [apply ordered_after_sorted|]. split; [|done].
  intros r. unfold es. rewrite ordered_after_in. unfold after_id. split.
  - intros [Hr [Hw Hc]%andb_prop]. apply String.eqb_eq in Hw. apply keyed_row in Hr; [done|done].
  - intros (Hr & <- & Hc). rewrite String.eqb_refl, Hc. split; [|done]. apply rows_In. by exists (row_id r).
Qed.

(** The Postgres server shows the events of a session only to a request
    that [enforce_auth] admits to the workspace of that session, and answers any
    other with one and the same refusal, so that it does not tell whether the
    session exists; reading changes nothing but the clock. *)
Theorem pg_events_guarded (cfg : Config) (h : HeaderMap) (session_id : string) (s s' : Server)
    (r : result Response Response) :
  pg_list_events cfg h session_id s = (r, s') ->
  gate_same s s' /\
  match sessions (ledger (world s)) !! session_id with
  | Some x =>
      (admitted cfg h GET (ses_workspace_id x) s ->
         r = Ok (events_json (List.map er_event (select_events (in_session session_id) (ledger (world s)))))) /\
      (~ admitted cfg h GET (ses_workspace_id x) s -> r = Err pg_events_auth_error)
  | None => r = Err pg_events_auth_error
  end.
Proof.
  unfold pg_list_events. unfold mbind at 1, M_bind at 1. cbn [look].
  destruct (sessions (ledger (world s)) !! session_id) as [x|]; [|by intros [= <- <-]].
  unfold enforce_pg_auth. unfold mbind at 1, M_bind at 1, map_err at 1.
  pose proof (enforce_auth_iff cfg h GET (ses_workspace_id x) s) as Ha.
  pose proof (enforce_auth_same cfg h GET (ses_workspace_id x) s) as Hs.
  destruct (exec (enforce_auth cfg h GET (ses_workspace_id x)) s) as [[[]|e] s1]; simpl in Ha, Hs.
  - unfold list_events, mbind, M_bind, map_err, on_world, events_in_session, read. simpl. intros [= <- <-].
    destruct Hs as (Hw & Hau & Hh & Hc). split; [split; [by rewrite <- Hw; destruct s1|done]|]. rewrite Hw. tauto.
  - intros [= <- <-]. split; [done|]. split; [intros Hadm; by apply Ha in Hadm|done].
Qed.
End read.
