(* ===== verification/OAuth.v ===== *)
(** * OAuth start and state ([actant-server/src/lib.rs])

    The providers configured in the environment, the redirect that starts a sign-in
    and the signed state that comes back.  The environment of the process, HMAC,
    hexadecimal and Unicode's case are parameters. *)

From S2P Require Import Prelude Str Json Core Storage Auth Prog Server SyncFs.
#[local] Open Scope string_scope.
#[local] Open Scope list_scope.
#[local] Open Scope Z_scope.

#[local] Abbreviation Handler A := (M Server Response A).

(** [std::env::var], [String::to_lowercase], a text with its first character upper
    case, HMAC-SHA256, the hex crate, and why [HeaderValue::from_str] refuses a text. *)
Class OAuthEnv := {
  env_var : string -> option string;
  to_lowercase : string -> string;
  first_uppercase : string -> string;
  hmac : string -> string -> string;
  hex_encode : string -> string;
  hex_decode : string -> option string;
  header_error : string -> option string;
}.
Class OAuthLaws `{OAuthEnv} `{Env} : Prop := {
  hex_round : forall b, hex_decode (hex_encode b) = Some b;
  hex_plain : forall b, contains_char "."%char (hex_encode b) = false;
  ulid_plain : forall n, contains_char "."%char (ulid n) = false;
}.

Record AuthProviderConfig := mkAuthProviderConfig {
  ap_id : string; ap_label : string; ap_auth_url : string; ap_client_id : string; ap_scope : string
}.

Definition OAUTH_STATE_TTL_SECS : Z := 10 * 60.
Definition html_response (st : Z) (text : string) : Response :=
  mkResponse st [("content-type", "text/html; charset=utf-8")] (JString text).
Definition denied (msg : string) : Response := err_response (PermissionDenied msg).

(** [s.parse::<i64>()]. *)
Definition parse_i64 (s : string) : option Z :=
  match s with
  | EmptyString => None
  | String a s' =>
      let '(neg, body) := if Ascii.eqb a "-"%char then (true, s')
                          else if Ascii.eqb a "+"%char then (false, s') else (false, s) in
      match body with
      | EmptyString => None
      | _ => n ← parse_digits 0 body;
             if (neg : bool) then (if n <=? 2 ^ 63 then Some (- n) else None)
             else (if n <=? 2 ^ 63 - 1 then Some n else None)
      end
  end.

Section oauth.
Context `{Env} `{ServerEnv} `{OAuthEnv}.

Definition oauth_enabled : bool :=
  match env_var "ACTANTDB_OAUTH_ENABLED" with
  | None => false
  | Some v => List.existsb (String.eqb (to_ascii_lowercase (trim v))) ["1"; "true"; "yes"; "on"]
  end.

Definition oauth_state_secret : result Response string :=
  match env_var "ACTANTDB_OAUTH_STATE_SECRET" with
  | Some v => if negb (String.eqb (trim v) "") then Ok v
              else Err (html_response 501 "OAuth sign-in is not enabled: set ACTANTDB_OAUTH_ENABLED=true and ACTANTDB_OAUTH_STATE_SECRET.")
  | None => Err (html_response 501 "OAuth sign-in is not enabled: set ACTANTDB_OAUTH_ENABLED=true and ACTANTDB_OAUTH_STATE_SECRET.")
  end.

Definition signed_text (provider : string) (expires_at : Z) (nonce : string) : string :=
  provider +:+ "." +:+ show_Z expires_at +:+ "." +:+ nonce.
Definition oauth_state_signature (secret provider : string) (expires_at : Z) (nonce : string) : string :=
  hex_encode (hmac secret (signed_text provider expires_at nonce)).

Definition draw_ulid : Handler string :=
  fun s => (Ok (ulid (seq (world s))), with_world (fun w => mkWorld (ledger w) (S (seq w)) (time w)) s).

Definition new_oauth_state (provider : string) : Handler string :=
  secret ← lift_result oauth_state_secret;
  now ← unix_now;
  nonce ← draw_ulid;
  let expires_at := now + OAUTH_STATE_TTL_SECS in
  mret ("oauth." +:+ provider +:+ "." +:+ show_Z expires_at +:+ "." +:+ nonce +:+ "."
        +:+ oauth_state_signature secret provider expires_at nonce).

Definition verify_oauth_state (state provider : string) : Handler unit :=
  match split_char "."%char state with
  | [tag; state_provider; expires; nonce; signature] =>
      if negb (String.eqb tag "oauth") then throw (denied "invalid OAuth state") else
      match parse_i64 expires with
      | None => throw (denied "invalid OAuth state")
      | Some expires_at =>
          if negb (String.eqb state_provider provider) then throw (denied "OAuth state provider mismatch") else
          now ← unix_now;
          if expires_at <=? now then throw (denied "expired OAuth state") else
          secret ← lift_result oauth_state_secret;
          match hex_decode signature with
          | None => throw (denied "invalid OAuth state")
          | Some sig =>
              if String.eqb (hmac secret (signed_text state_provider expires_at nonce)) sig then mret tt
              else throw (denied "invalid OAuth state")
          end
      end
  | _ => throw (denied "invalid OAuth state")
  end.

(** ** Providers *)

(** One character of the key per character of the id. *)
Fixpoint provider_key (id : string) : string :=
  match id with
  | EmptyString => ""
  | String c s => if continuation c then provider_key s
                  else String (if is_alnum c then ascii_upper c else "_"%char) (provider_key s)
  end.

(** [split(['-', '_'])]. *)
Definition dash_to_bar (c : Ascii.ascii) : Ascii.ascii := if Ascii.eqb c "-"%char then "_"%char else c.
Definition title_case_provider (id : string) : string :=
  join " " (List.map first_uppercase
    (List.filter (fun p => negb (String.eqb p "")) (split_char "_"%char (map_chars dash_to_bar id)))).

Definition provider_config (provider : string) : option AuthProviderConfig :=
  let id := to_lowercase (trim provider) in
  if String.eqb id "" then None
  else
    let key := provider_key id in
    auth_url ← env_var ("ACTANTDB_OAUTH_" +:+ key +:+ "_AUTH_URL");
    client_id ← env_var ("ACTANTDB_OAUTH_" +:+ key +:+ "_CLIENT_ID");
    Some (mkAuthProviderConfig id
      (default (title_case_provider id) (env_var ("ACTANTDB_OAUTH_" +:+ key +:+ "_LABEL")))
      auth_url client_id
      (default "openid profile email" (env_var ("ACTANTDB_OAUTH_" +:+ key +:+ "_SCOPE")))).
Definition configured_auth_providers : list AuthProviderConfig :=
  match env_var "ACTANTDB_OAUTH_PROVIDERS" with
  | None => []
  | Some raw => omap provider_config (split_char ","%char raw)
  end.

Definition auth_providers : Response :=
  json_response 200 (jobj [("providers", JArray
    (if oauth_enabled
     then List.map (fun p => jobj [("id", JString (ap_id p)); ("label", JString (ap_label p))]) configured_auth_providers
     else []))]).

(** ** Percent encoding *)

Definition unreserved (c : Ascii.ascii) : bool :=
  is_alnum c || List.existsb (Ascii.eqb c) ["-"; "_"; "."; "~"]%char.
Definition upper_nibble (n : Z) : Ascii.ascii :=
  Ascii.ascii_of_N (Z.to_N (if n <? 10 then 48 + n else 55 + n)).
Fixpoint percent_encode (raw : string) : string :=
  match raw with
  | EmptyString => ""
  | String c s =>
      if unreserved c then String c (percent_encode s)
      else String "%"%char (String (upper_nibble (byte c / 16)) (String (upper_nibble (byte c mod 16)) (percent_encode s)))
  end.

(** ** Routes *)

Definition auth_oauth_start (provider : string) : Handler Response :=
  if negb oauth_enabled then throw (html_response 501 "OAuth sign-in is not enabled for this server.") else
  match List.find (fun p => String.eqb (ap_id p) provider) configured_auth_providers with
  | None => throw (err_response (NotFound ("unknown auth provider: " +:+ provider)))
  | Some config =>
      match env_var "ACTANTDB_PUBLIC_BASE_URL" with
      | None => throw (err_response (InvalidInput "ACTANTDB_PUBLIC_BASE_URL is required for OAuth redirects"))
      | Some base_url =>
          let redirect_uri := trim_end_matches "/"%char base_url +:+ "/v1/auth/oauth/" +:+ ap_id config +:+ "/callback" in
          state ← new_oauth_state (ap_id config);
          let location := ap_auth_url config +:+ "?response_type=code&client_id=" +:+ percent_encode (ap_client_id config)
            +:+ "&redirect_uri=" +:+ percent_encode redirect_uri +:+ "&scope=" +:+ percent_encode (ap_scope config)
            +:+ "&state=" +:+ percent_encode state in
          match header_error location with
          | None => mret (mkResponse 302 [("location", location)] JNull)
          | Some e => throw (err_response (InvalidInput ("invalid OAuth redirect URL: " +:+ e)))
          end
      end
  end.

Definition auth_oauth_callback (provider : string) (state : option string) : Handler Response :=
  match state with
  | None => throw (err_response (PermissionDenied "missing OAuth state"))
  | Some st =>
      verify_oauth_state st provider;;
      throw (err_response (NotImplemented ("OAuth callback for provider " +:+ provider
        +:+ " requires a token-exchange service with provider client secret storage")))
  end.

(** ** What verification accepts *)

Lemma verify_state_iff state provider s :
  (verify_oauth_state state provider s).1 = Ok tt <->
  exists expires e nonce signature secret,
    split_char "."%char state = ["oauth"; provider; expires; nonce; signature] /\
    parse_i64 expires = Some e /\ unix_clock (unix_reads (drawn s)) < e /\ oauth_state_secret = Ok secret /\
    hex_decode signature = Some (hmac secret (signed_text provider e nonce)).
Proof.
  unfold verify_oauth_state.
  destruct (split_char "."%char state) as [|tag [|prov [|expires [|nonce [|signature [|x rest]]]]]] eqn:Hp;
    try (split; [done|]; by intros (? & ? & ? & ? & ? & ? & _)).
  destruct (String.eqb_spec tag "oauth") as [->|Hn]; [|split; [done|]; by intros (? & ? & ? & ? & ? & [= ? ?] & _)].
  simpl. destruct (parse_i64 expires) as [e|] eqn:He; [|split; [done|]; by intros (? & ? & ? & ? & ? & [= <- <- <- <-] & ? & _); congruence].
  destruct (String.eqb_spec prov provider) as [->|Hn]; [|split; [done|]; by intros (? & ? & ? & ? & ? & [= ? ?] & _)].
  simpl. unfold mbind, M_bind. simpl.
  destruct (Z.leb_spec e (unix_clock (unix_reads (drawn s)))) as [Hle|Hlt].
  { split; [done|]. intros (? & ? & ? & ? & ? & [= <- <- <-] & He2 & ? & _). rewrite He in He2. injection He2 as ->. lia. }
  destruct oauth_state_secret as [secret|r] eqn:Hs; simpl;
    [|split; [done|]; by intros (? & ? & ? & ? & ? & _ & _ & _ & ? & _)].
  destruct (hex_decode signature) as [sig|] eqn:Hx; simpl.
  - destruct (String.eqb_spec (hmac secret (signed_text provider e nonce)) sig) as [<-|Hn].
    + split; [|done]. intros _. by exists expires, e, nonce, signature, secret.
    + split; [done|]. intros (? & ? & ? & ? & ? & [= <- <- <-] & He2 & _ & [= <-] & Hx2). congruence.
  - split; [done|]. intros (? & ? & ? & ? & ? & [= <- <- <-] & _ & _ & _ & Hx2). congruence.
Qed.

Lemma split_char_length c a s :
  length (split_char c (a +:+ String c s)) = (length (split_char c a) + length (split_char c s))%nat.
Proof.
  induction a as [|x a IH]; simpl; [by rewrite Ascii.eqb_refl|].
  destruct (Ascii.eqb x c); simpl; [by rewrite IH|].
  pose proof (split_char_nonnil c (a +:+ String c s)). pose proof (split_char_nonnil c a).
  destruct (split_char c (a +:+ String c s)), (split_char c a); simpl in *; congruence || lia.
Qed.
Lemma split_char_some c s : contains_char c s = true -> (2 <= length (split_char c s))%nat.
Proof.
  induction s as [|x s IH]; simpl; [done|]. intros Hc. destruct (Ascii.eqb x c); simpl in *.
  - pose proof (split_char_nonnil c s). destruct (split_char c s); simpl; [done|lia].
  - apply IH in Hc. destruct (split_char c s); simpl in *; lia.
Qed.

Lemma show_Z_no_dot n : 0 <= n -> contains_char "."%char (show_Z n) = false.
Proof. intros Hn. by apply show_Z_char. Qed.
Lemma parse_show_i64 n : 0 <= n <= 2 ^ 63 - 1 -> parse_i64 (show_Z n) = Some n.
Proof.
  intros Hn. pose proof (parse_digits_show n ltac:(lia)) as Hp. unfold show_Z in *.
  destruct (Z.ltb_spec n 0); [lia|].
  destruct (show_digits_head (S (Z.to_nat (Z.log2 n))) n "") as (a & s & Hs & Ha); [right; lia|].
  rewrite Hs in *. unfold parse_i64.
  replace (Ascii.eqb a "-"%char) with false by (destruct (Ascii.eqb_spec a "-"%char) as [->|]; [vm_compute in Ha|]; done).
  replace (Ascii.eqb a "+"%char) with false by (destruct (Ascii.eqb_spec a "+"%char) as [->|]; [vm_compute in Ha|]; done).
  rewrite Hp. simpl. destruct (Z.leb_spec n (2 ^ 63 - 1)); [done|lia].
Qed.

Lemma dot_app x : "." +:+ x = String "."%char x.
Proof. done. Qed.
Lemma oauth_app x : "oauth." +:+ x = "oauth" +:+ String "."%char x.
Proof. done. Qed.

(** The five pieces of a state, when the provider has no dot. *)
Lemma state_pieces `{!OAuthLaws} p e n sg :
  0 <= e -> contains_char "."%char p = false -> contains_char "."%char sg = false ->
  split_char "."%char ("oauth." +:+ p +:+ "." +:+ show_Z e +:+ "." +:+ ulid n +:+ "." +:+ sg)
    = ["oauth"; p; show_Z e; ulid n; sg].
Proof.
  intros He Hp Hs. rewrite oauth_app, !dot_app.
  rewrite split_char_app by done. rewrite split_char_app by done.
  rewrite split_char_app by by apply show_Z_no_dot. rewrite split_char_app by apply ulid_plain.
  by rewrite split_char_none.
Qed.

(** A state made for a provider is accepted back exactly for that provider,
    until ten minutes after it was made, under the same secret; for a provider with
    a dot in its name it never is. *)
Theorem oauth_state_round_trip `{!OAuthLaws} (provider p2 : string) (s s1 s2 : Server) (state : string) :
  let made := unix_clock (unix_reads (drawn s)) in
  0 <= made < 2 ^ 62 -> new_oauth_state provider s = (Ok state, s1) ->
  (verify_oauth_state state p2 s2).1 = Ok tt <->
  p2 = provider /\ contains_char "."%char provider = false /\
  unix_clock (unix_reads (drawn s2)) < made + OAUTH_STATE_TTL_SECS.
Proof.
  intros made Hm Hn. unfold new_oauth_state in Hn. destruct oauth_state_secret as [secret|] eqn:Hsec; [|done].
  unfold mbind, M_bind in Hn. simpl in Hn. fold made in Hn. injection Hn as <- _.
  set (e := made + OAUTH_STATE_TTL_SECS). set (n := seq _).
  assert (He : 0 <= e <= 2 ^ 63 - 1) by (unfold e, OAUTH_STATE_TTL_SECS; lia).
  rewrite verify_state_iff. destruct (contains_char "."%char provider) eqn:Hdot.
  - split; [|by intros (_ & ? & _)]. intros (ex & e' & n' & sg & sec & Hp & _). apply (f_equal length) in Hp.
    rewrite oauth_app, !dot_app in Hp. rewrite split_char_app in Hp by done.
    cbn [length] in Hp. rewrite !split_char_length in Hp. apply split_char_some in Hdot.
    pose proof (split_char_nonnil "."%char (show_Z e)). pose proof (split_char_nonnil "."%char (ulid n)).
    pose proof (split_char_nonnil "."%char (oauth_state_signature secret provider e (ulid n))).
    destruct (split_char "."%char (show_Z e)), (split_char "."%char (ulid n)),
      (split_char "."%char (oauth_state_signature secret provider e (ulid n))); simpl in *; congruence || lia.
  - rewrite state_pieces by (lia || done || apply hex_plain). split.
    + intros (ex & e' & n' & sg & sec & [= <- <- <- <-] & He' & Hlt & _). rewrite parse_show_i64 in He' by lia.
      by injection He' as <-.
    + intros (-> & _ & Hlt). exists (show_Z e), e, (ulid n), (oauth_state_signature secret provider e (ulid n)), secret.
      split; [done|]. split; [by apply parse_show_i64|]. split; [done|]. split; [done|]. apply hex_round.
Qed.

End oauth.

(** ** Percent encoding reads back *)

Definition nibble_of (c : Ascii.ascii) : Z := if is_digit c then byte c - 48 else byte c - 55.
Fixpoint percent_decode (s : string) : string :=
  match s with
  | String c s' =>
      if Ascii.eqb c "%"%char then
        match s' with
        | String h (String l t) => String (Ascii.ascii_of_N (Z.to_N (nibble_of h * 16 + nibble_of l))) (percent_decode t)
        | _ => String c (percent_decode s')
        end
      else String c (percent_decode s')
  | EmptyString => ""
  end.

Lemma nibble_round n : 0 <= n < 16 -> nibble_of (upper_nibble n) = n.
Proof.
  intros Hn. assert (Hall : forallb (fun k => nibble_of (upper_nibble (Z.of_nat k)) =? Z.of_nat k) (List.seq 0 16) = true)
    by (vm_compute; reflexivity).
  rewrite forallb_forall in Hall. specialize (Hall (Z.to_nat n)). rewrite Z2Nat.id in Hall by lia.
  apply Z.eqb_eq, Hall, in_seq. lia.
Qed.
Lemma byte_bounds c : 0 <= byte c < 256.
Proof. unfold byte. pose proof (Ascii.N_ascii_bounded c). lia. Qed.
Lemma byte_round c : Ascii.ascii_of_N (Z.to_N (byte c)) = c.
Proof. unfold byte. rewrite N2Z.id. apply Ascii.ascii_N_embedding. Qed.

(** Decoding gives the text back, so encoding is injective, and what is encoded has
    none of the characters that end a query parameter. *)
Theorem percent_round_trip (s : string) :
  percent_decode (percent_encode s) = s /\
  all_chars (fun c => unreserved c || Ascii.eqb c "%"%char) (percent_encode s) = true.
Proof.
  induction s as [|c s [IH1 IH2]]; [done|]. cbn [percent_encode]. destruct (unreserved c) eqn:Hu.
  - cbn [percent_decode all_chars]. rewrite Hu, IH2.
    destruct (Ascii.eqb_spec c "%"%char) as [->|]; [by vm_compute in Hu|]. by rewrite IH1.
  - pose proof (byte_bounds c) as Hb.
    assert (Hh : 0 <= byte c / 16 < 16) by (split; [apply Z.div_pos; lia|apply Z.div_lt_upper_bound; lia]).
    assert (Hl : 0 <= byte c mod 16 < 16) by (apply Z.mod_pos_bound; lia).
    assert (Hn : forall n, 0 <= n < 16 -> unreserved (upper_nibble n) = true).
    { intros n Hn. assert (Hall : forallb (fun k => unreserved (upper_nibble (Z.of_nat k))) (List.seq 0 16) = true)
        by (vm_compute; reflexivity).
      rewrite forallb_forall in Hall. specialize (Hall (Z.to_nat n)). rewrite Z2Nat.id in Hall by lia.
      apply Hall, in_seq. lia. }
    cbn [percent_decode all_chars Ascii.eqb]. simpl (Ascii.eqb "%" "%").
    rewrite !nibble_round, IH1, IH2, !Hn by done. split; [|by rewrite orb_true_r].
    f_equal. rewrite <- (byte_round c) at 3. do 2 f_equal. pose proof (Z.div_mod (byte c) 16 ltac:(lia)). lia.
Qed.
