(* ===== verification/Blob.v ===== *)
(** * Blob stores ([actant-objectstore])

    The trait [BlobStore] as a record of operations with the laws its
    documentation states, and the stores behind it: the in-memory store, the
    filesystem store with calls that may fail, and the router [Layered].  The S3
    and IPFS stores are in Cloud.v. *)

From S2P Require Import Prelude Str Json Sync SyncFs.
#[local] Open Scope string_scope.
#[local] Open Scope list_scope.

Inductive BlobError :=
| InvalidKey (key : string) | BNotFound (msg : string) | BIo (msg : string)
| BBackend (msg : string) | BUnavailable (msg : string).
Record BlobRef := mkBlobRef { uri : string; size : Z; content_hash : string }.

(** ** The trait *)

Record BlobStore (W : Type) := mkBlobStore {
  put : string -> string -> M W BlobError BlobRef;
  get : string -> M W BlobError string;
  delete_blob : string -> M W BlobError unit;
  exists_blob : string -> M W BlobError bool;
  presign_get : string -> M W BlobError (option string);
}.
Arguments put {W}. Arguments get {W}. Arguments delete_blob {W}. Arguments exists_blob {W}.
Arguments presign_get {W}.

(** What a store promises: [objects] is what it holds, [valid] the keys it takes,
    [uri_of] the locator it answers.  An object is found by its key or its
    locator, and an operation on one key leaves the others alone; a failed
    operation changes nothing, unless the store is a service whose answers can be
    lost ([answers_lost]): then it may have done its work. *)
Section laws.
Context {W : Type} (B : BlobStore W) (objects : W -> string -> option string)
  (valid : string -> Prop) (uri_of : string -> string) (answers_lost : Prop) `{Sha256}.

Definition locates (k loc : string) : Prop := loc = k \/ loc = uri_of k.
Definition others_kept (k : string) (w w' : W) : Prop :=
  forall k', valid k' -> k' <> k -> objects w' k' = objects w k'.
Definition unchanged (w w' : W) : Prop := forall k, valid k -> objects w' k = objects w k.
(** After an error of an operation that was to leave [o] at [k]. *)
Definition failed (k : string) (o : option string) (w w' : W) : Prop :=
  unchanged w w' \/ (answers_lost /\ objects w' k = o /\ others_kept k w w').

Record store_ok : Prop := {
  put_law : forall k body w, valid k -> let '(r, w') := put B k body w in
    match r with
    | Ok b => b = mkBlobRef (uri_of k) (str_len body) (sha256_hex body) /\
        objects w' k = Some body /\ others_kept k w w'
    | Err _ => failed k (Some body) w w'
    end;
  get_law : forall k loc w, valid k -> locates k loc -> let '(r, w') := get B loc w in
    unchanged w w' /\ match r with
                      | Ok b => objects w k = Some b
                      | Err (BNotFound _) => objects w k = None
                      | Err (BIo _) => True
                      | Err (BBackend _) => answers_lost
                      | Err _ => False
                      end;
  delete_law : forall k loc w, valid k -> locates k loc -> let '(r, w') := delete_blob B loc w in
    match r with
    | Ok _ => objects w' k = None /\ others_kept k w w'
    | Err _ => failed k None w w'
    end;
  exists_law : forall k loc w, valid k -> locates k loc -> let '(r, w') := exists_blob B loc w in
    unchanged w w' /\ match r with
                      | Ok b => b = bool_decide (is_Some (objects w k))
                      | Err _ => True
                      end;
}.

(** Operations on keys. *)
Inductive BlobOp := OPut (k body : string) | OGet (k : string) | ODelete (k : string) | OExists (k : string).
Definition op_key (o : BlobOp) : string :=
  match o with OPut k _ | OGet k | ODelete k | OExists k => k end.
Definition run_op (o : BlobOp) (w : W) : W :=
  match o with
  | OPut k body => (put B k body w).2
  | OGet k => (get B k w).2
  | ODelete k => (delete_blob B k w).2
  | OExists k => (exists_blob B k w).2
  end.

Lemma unchanged_others k w w' : unchanged w w' -> others_kept k w w'.
Proof. intros Hu k' Hv _. auto. Qed.

Lemma failed_others k o w w' : failed k o w w' -> others_kept k w w'.
Proof. intros [?|(_ & _ & ?)]; [by apply unchanged_others|done]. Qed.

Lemma run_op_others (Hok : store_ok) o w :
  valid (op_key o) -> others_kept (op_key o) w (run_op o w).
Proof.
  intros Hv. destruct o as [k body|k|k|k]; simpl in *.
  - pose proof (put_law Hok k body w Hv) as Hl. destruct (put B k body w) as [[b|e] w'];
      [by destruct Hl as (_ & _ & ?)|by eapply failed_others].
  - pose proof (get_law Hok k k w Hv (or_introl eq_refl)) as Hl.
    destruct (get B k w) as [r w']. destruct Hl as [Hl _]. by apply unchanged_others.
  - pose proof (delete_law Hok k k w Hv (or_introl eq_refl)) as Hl.
    destruct (delete_blob B k w) as [[b|e] w']; [by destruct Hl|by eapply failed_others].
  - pose proof (exists_law Hok k k w Hv (or_introl eq_refl)) as Hl.
    destruct (exists_blob B k w) as [r w']. destruct Hl as [Hl _]. by apply unchanged_others.
Qed.
End laws.

Lemma store_ok_weaken {W : Type} (B : BlobStore W) (objects : W -> string -> option string)
  (valid valid' : string -> Prop) (uri_of : string -> string) (answers_lost : Prop) `{Sha256} :
  (forall k, valid' k -> valid k) -> store_ok B objects valid uri_of answers_lost -> store_ok B objects valid' uri_of answers_lost.
Proof.
  intros Hsub [Hp Hg Hd He].
  assert (Hu : forall w w', unchanged objects valid w w' -> unchanged objects valid' w w')
    by (intros w w' Hk k Hv; auto).
  assert (Ho : forall k w w', others_kept objects valid k w w' -> others_kept objects valid' k w w')
    by (intros k w w' Hk k' Hv; auto).
  assert (Hf : forall k o w w', failed objects valid answers_lost k o w w' -> failed objects valid' answers_lost k o w w')
    by (intros k o w w' [?|(? & ? & ?)]; [left|right]; auto).
  split.
  - intros k body w Hv. specialize (Hp k body w (Hsub _ Hv)).
    destruct (put B k body w) as [[b|e] w']; [|auto]. destruct Hp as (? & ? & ?). auto.
  - intros k loc w Hv Hl. specialize (Hg k loc w (Hsub _ Hv) Hl).
    destruct (get B loc w) as [r w']. destruct Hg. auto.
  - intros k loc w Hv Hl. specialize (Hd k loc w (Hsub _ Hv) Hl).
    destruct (delete_blob B loc w) as [[b|e] w']; [|auto]. destruct Hd. auto.
  - intros k loc w Hv Hl. specialize (He k loc w (Hsub _ Hv) Hl).
    destruct (exists_blob B loc w) as [r w']. destruct He. auto.
Qed.

(** Whatever a store that keeps the contract is asked about other keys in
    between, an object that was put is found again, by its key or by the locator
    [put] answered, with the very bytes that were put. *)
Theorem blob_round_trip {W : Type} (B : BlobStore W) (objects : W -> string -> option string)
  (valid : string -> Prop) (uri_of : string -> string) `{Sha256}
  (answers_lost : Prop) (Hok : store_ok B objects valid uri_of answers_lost) (k body : string) (ref : BlobRef) (w w1 : W)
  (ops : list BlobOp) (Hput : put B k body w = (Ok ref, w1)) (Hvalid : valid k)
  (Hops : Forall (fun o => valid (op_key o) /\ op_key o <> k) ops) :
  let w2 := fold_left (fun w o => run_op B o w) ops w1 in
  forall loc, loc = k \/ loc = uri ref ->
    match (get B loc w2).1 with Ok b => b = body | Err (BIo _) => True | Err (BBackend _) => answers_lost | Err _ => False end.
Proof.
  pose proof (put_law _ _ _ _ _ Hok k body w Hvalid) as Hp. rewrite Hput in Hp.
  destruct Hp as (-> & Hobj & _). simpl.
  assert (Hkept : objects (fold_left (fun w o => run_op B o w) ops w1) k = Some body).
  { clear Hput. revert w1 Hobj. induction ops as [|o ops IH]; intros w1 Hobj; [done|].
    apply Forall_cons in Hops as [[Hv Hne] Hops]. simpl. apply IH; [done|].
    rewrite (run_op_others B objects valid uri_of answers_lost Hok o w1 Hv k Hvalid); [done|congruence]. }
  intros loc Hloc.
  pose proof (get_law _ _ _ _ _ Hok k loc (fold_left (fun w o => run_op B o w) ops w1) Hvalid Hloc) as Hg.
  destruct (get B loc _) as [[b|[]] w']; simpl in *; destruct Hg as [_ Hg]; congruence || done.
Qed.

(** ** The in-memory store *)

Section memory.
Context `{Sha256} (id : string).

Definition mem_uri_for (key : string) : string := "mem://" +:+ id +:+ "/" +:+ key.
Definition mem_key_from (key_or_uri : string) : result BlobError string :=
  match strip_prefix "mem://" key_or_uri with
  | Some rest => ok_or (InvalidKey key_or_uri) (strip_prefix (id +:+ "/") rest)
  | None => Ok key_or_uri
  end.

Definition memory_store : BlobStore (gmap string string) := {|
  put := fun key body w => (Ok (mkBlobRef (mem_uri_for key) (str_len body) (sha256_hex body)), <[key := body]> w);
  get := fun loc w => match mem_key_from loc with
                      | Err e => (Err e, w)
                      | Ok key => (ok_or (BNotFound key) (w !! key), w)
                      end;
  delete_blob := fun loc w => match mem_key_from loc with
                              | Err e => (Err e, w)
                              | Ok key => (Ok tt, delete key w)
                              end;
  exists_blob := fun loc w => match mem_key_from loc with
                              | Err e => (Err e, w)
                              | Ok key => (Ok (bool_decide (is_Some (w !! key))), w)
                              end;
  presign_get := fun _ w => (Ok None, w);
|}.

(** Any key that does not look like a locator. *)
Definition mem_valid (k : string) : Prop := strip_prefix "mem://" k = None.

Lemma mem_key_from_locates k loc :
  mem_valid k -> locates mem_uri_for k loc -> mem_key_from loc = Ok k.
Proof.
  unfold mem_valid, mem_key_from. intros Hv [->| ->]; [by rewrite Hv|].
  unfold mem_uri_for. rewrite strip_prefix_app.
  replace (id +:+ "/" +:+ k)%string with ((id +:+ "/") +:+ k)%string by apply append_assoc.
  by rewrite strip_prefix_app.
Qed.

Lemma memory_store_ok : store_ok memory_store (fun w k => w !! k) mem_valid mem_uri_for False.
Proof.
  split; simpl.
  - intros k body w Hv. split; [done|]. split; [apply lookup_insert_eq|].
    intros k' _ Hne. by apply lookup_insert_ne.
  - intros k loc w Hv Hloc. rewrite (mem_key_from_locates _ _ Hv Hloc). split; [done|].
    by destruct (w !! k).
  - intros k loc w Hv Hloc. rewrite (mem_key_from_locates _ _ Hv Hloc).
    split; [apply lookup_delete_eq|]. intros k' _ Hne. by apply lookup_delete_ne.
  - intros k loc w Hv Hloc. rewrite (mem_key_from_locates _ _ Hv Hloc). done.
Qed.
End memory.

(** ** The filesystem store *)

Definition is_safe_key (key : string) : bool :=
  if String.eqb key "" || String.eqb key "." || String.eqb key ".." || starts_with "." key then false
  else if str_contains ".." key then false
  else all_chars safe_char key.

(** A path under the root: directory and file name. *)
Definition path : Type := string * string.
Definition path_for (key : string) : result BlobError path :=
  if is_safe_key key
  then Ok (if (2 <=? String.length key)%nat then String.substring 0 2 key else "__", key)
  else Err (InvalidKey ("key " +:+ key +:+ " contains characters outside [A-Za-z0-9_-.]")).

(** [Path::file_stem]: what precedes the last dot, when that is not empty. *)
Fixpoint before_last_dot (s : string) : option string :=
  match s with
  | "" => None
  | String c s' => match before_last_dot s' with
                   | Some p => Some (String c p)
                   | None => if Ascii.eqb c "." then Some "" else None
                   end
  end.
Definition file_stem (name : string) : string :=
  match before_last_dot name with Some "" | None => name | Some p => p end.
Definition with_extension (ext : string) (p : path) : path := (p.1, file_stem p.2 +:+ "." +:+ ext).

(** [Path::file_name]: the last component, unless it is [..]. *)
Definition file_name (s : string) : option string :=
  match last (List.filter (fun c => negb (String.eqb c "" || String.eqb c ".")) (split_char "/" s)) with
  | Some c => if String.eqb c ".." then None else Some c
  | None => None
  end.

Record FsState := mkFsState { blobs : gmap path string; calls : nat }.

Section filesystem.
Context `{Sha256} `{FsFaults}.
(** [Url::from_file_path] of the root, without its scheme. *)
Context (root_url : string).
#[local] Notation FM A := (M FsState BlobError A).

(** A call that fails does so with an error other than "not found". *)
Definition call {A} (f : gmap path string -> A * gmap path string)
    (on_error : nat -> gmap path string -> gmap path string) : FM A :=
  fun w => match io_error (calls w) with
           | Some msg => (Err (BIo msg), mkFsState (on_error (calls w) (blobs w)) (S (calls w)))
           | None => let '(a, fs) := f (blobs w) in (Ok a, mkFsState fs (S (calls w)))
           end.

Definition fs_key_from (key_or_uri : string) : result BlobError string :=
  match strip_prefix "file://" key_or_uri with
  | Some rest => ok_or (InvalidKey ("URI " +:+ key_or_uri +:+ " has no basename")) (file_name rest)
  | None => Ok key_or_uri
  end.
Definition fs_uri_for (p : path) : string := "file://" +:+ root_url +:+ "/" +:+ p.1 +:+ "/" +:+ p.2.

(** The path a key or locator names. *)
Definition resolve (key_or_uri : string) : result BlobError path :=
  match fs_key_from key_or_uri with Ok key => path_for key | Err e => Err e end.

Definition filesystem_store : BlobStore FsState := {|
  put := fun key body =>
    p ← lift_result (path_for key);
    call (fun fs => (tt, fs)) (fun _ fs => fs);;
    let tmp := with_extension "tmp" p in
    call (fun fs => (tt, <[tmp := body]> fs))
      (fun n fs => match torn n body with Some b => <[tmp := b]> fs | None => fs end);;
    call (fun fs => (tt, match fs !! tmp with Some b => <[p := b]> (delete tmp fs) | None => fs end))
      (fun _ fs => fs);;
    mret (mkBlobRef (fs_uri_for p) (str_len body) (sha256_hex body));
  get := fun loc =>
    p ← lift_result (resolve loc);
    o ← call (fun fs => (fs !! p, fs)) (fun _ fs => fs);
    lift_result (ok_or (BNotFound p.2) o);
  delete_blob := fun loc =>
    p ← lift_result (resolve loc); call (fun fs => (tt, delete p fs)) (fun _ fs => fs);
  exists_blob := fun loc =>
    p ← lift_result (resolve loc);
    call (fun fs => (bool_decide (is_Some (fs !! p)), fs)) (fun _ fs => fs);
  presign_get := fun _ => mret None;
|}.

(** Keys without a dot, such as a hexadecimal hash. *)
Definition fs_valid (k : string) : Prop :=
  is_safe_key k = true /\ contains_char "." k = false.
Definition dir_of (k : string) : string :=
  if (2 <=? String.length k)%nat then String.substring 0 2 k else "__".
Definition fs_objects (w : FsState) (k : string) : option string := blobs w !! (dir_of k, k).

Lemma before_last_dot_none k : contains_char "." k = false -> before_last_dot k = None.
Proof.
  induction k as [|c k IH]; simpl; [done|]. intros [Hc Hk]%orb_false_iff.
  rewrite (IH Hk). by rewrite Hc.
Qed.

(** The sibling a put writes is not the file of a key. *)
Lemma tmp_not_key k k' : fs_valid k -> fs_valid k' -> with_extension "tmp" (dir_of k, k) <> (dir_of k', k').
Proof.
  intros [_ Hk] [_ Hk'] Heq. unfold with_extension, file_stem in Heq. simpl in Heq.
  rewrite (before_last_dot_none _ Hk) in Heq. injection Heq as _ <-.
  rewrite !contains_char_app, Hk in Hk'. done.
Qed.

Lemma safe_no_slash k : all_chars safe_char k = true -> split_char "/" k = [k].
Proof.
  induction k as [|c k IH]; [done|]. simpl. intros [Hc Hk]%andb_true_iff. rewrite (IH Hk).
  destruct (Ascii.eqb_spec c "/") as [->|]; [done|done].
Qed.

Lemma split_last p k : all_chars safe_char k = true ->
  exists l, split_char "/" (p +:+ "/" +:+ k)%string = l ++ [k].
Proof.
  intros Hk. induction p as [|c p [l IH]].
  - change ("" +:+ "/" +:+ k)%string with (String "/" k). exists [""]. cbn [split_char].
    by rewrite (safe_no_slash _ Hk).
  - rewrite append_cons. cbn [split_char]. rewrite IH.
    destruct (Ascii.eqb c "/"); [by exists ("" :: l)|]. destruct l as [|h t]; simpl.
    + exfalso. clear - IH. assert (Hlen : (1 < length (split_char "/" (p +:+ "/" +:+ k)%string))%nat).
      { clear IH. induction p as [|d p IHp].
        - change ("" +:+ "/" +:+ k)%string with (String "/" k). cbn [split_char Ascii.eqb].
          pose proof (split_char_nonnil "/"%char k).
          destruct (split_char "/" k); simpl in *; [done|lia].
        - rewrite append_cons. cbn [split_char].
          destruct (Ascii.eqb d "/"); simpl; [lia|].
          destruct (split_char "/" (p +:+ "/" +:+ k)%string); simpl in *; lia. }
      rewrite IH in Hlen. simpl in Hlen. lia.
    + by exists (String c h :: t).
Qed.

Lemma safe_key_chars k : is_safe_key k = true -> all_chars safe_char k = true /\ k <> "" /\ k <> "." /\ k <> "..".
Proof.
  unfold is_safe_key. destruct (String.eqb_spec k ""), (String.eqb_spec k "."), (String.eqb_spec k "..");
    simpl; try done. destruct (starts_with "." k); [done|]. by destruct (str_contains ".." k).
Qed.

Lemma path_for_valid k : fs_valid k -> path_for k = Ok (dir_of k, k).
Proof. intros [Hs _]. unfold path_for. by rewrite Hs. Qed.

Lemma resolve_locates k loc :
  fs_valid k -> locates (fun k => fs_uri_for (dir_of k, k)) k loc -> resolve loc = Ok (dir_of k, k).
Proof.
  intros Hv Hloc. destruct (safe_key_chars k (proj1 Hv)) as (Hc & Hn & Hd & Hdd).
  unfold resolve. enough (fs_key_from loc = Ok k) as -> by by apply path_for_valid.
  unfold fs_key_from. destruct Hloc as [->| ->].
  - destruct (strip_prefix "file://" k) as [r|] eqn:Hp; [|done].
    apply strip_prefix_Some in Hp. rewrite Hp in Hc. done.
  - unfold fs_uri_for. simpl fst. simpl snd. rewrite strip_prefix_app. unfold file_name.
    destruct (split_last (root_url +:+ "/" +:+ dir_of k) k Hc) as [l Hl].
    rewrite append_assoc in Hl.
    replace (("/" +:+ dir_of k) +:+ "/" +:+ k)%string with ("/" +:+ dir_of k +:+ "/" +:+ k)%string in Hl
      by (by rewrite append_assoc).
    rewrite Hl, List.filter_app. simpl.
    destruct (String.eqb_spec k ""), (String.eqb_spec k "."); simpl; try done.
    rewrite last_snoc. by destruct (String.eqb_spec k "..").
Qed.

Lemma filesystem_store_lawful :
  store_ok filesystem_store fs_objects fs_valid (fun k => fs_uri_for (dir_of k, k)) False.
Proof.
  split; simpl; unfold call, mbind, M_bind, lift_result.
  - intros k body w Hv. rewrite (path_for_valid k Hv). simpl.
    pose proof (fun k' Hv' => tmp_not_key k k' Hv Hv') as Htmp. unfold fs_objects, others_kept, failed, unchanged.
    destruct (io_error (calls w)) as [msg|]; simpl; [by left|].
    destruct (io_error (S (calls w))) as [msg|]; simpl.
    { left. intros k' Hk'. destruct (torn (S (calls w)) body); [|done]. by rewrite lookup_insert_ne by auto. }
    destruct (io_error (S (S (calls w)))) as [msg|]; simpl.
    { left. intros k' Hk'. by rewrite lookup_insert_ne by auto. }
    rewrite lookup_insert_eq. split; [done|]. split; [by rewrite lookup_insert_eq|].
    intros k' Hk' Hne. rewrite lookup_insert_ne by congruence.
    by rewrite lookup_delete_ne, lookup_insert_ne by auto.
  - intros k loc w Hv Hloc. rewrite (resolve_locates _ _ Hv Hloc). simpl.
    destruct (io_error (calls w)) as [msg|]; simpl; [done|].
    unfold fs_objects. by destruct (blobs w !! (dir_of k, k)).
  - intros k loc w Hv Hloc. rewrite (resolve_locates _ _ Hv Hloc). simpl.
    destruct (io_error (calls w)) as [msg|]; simpl; [by left|]. unfold fs_objects, others_kept. simpl.
    split; [apply lookup_delete_eq|]. intros k' _ Hne. rewrite lookup_delete_ne; [done|congruence].
  - intros k loc w Hv Hloc. rewrite (resolve_locates _ _ Hv Hloc). simpl.
    by destruct (io_error (calls w)) as [msg|].
Qed.
End filesystem.

(** The filesystem store keeps the contract for the keys the system uses
    (safe characters, no dot, like a hexadecimal hash), whichever of its calls
    fail and whatever a failed write leaves behind. *)
Theorem filesystem_store_ok `{Sha256} `{FsFaults} (root_url : string) :
  store_ok (filesystem_store root_url) fs_objects fs_valid (fun k => fs_uri_for root_url (dir_of k, k)) False.
Proof. apply filesystem_store_lawful. Qed.

(** ** The router *)

Fixpoint find_scheme (s : string) : option string :=
  match s with
  | "" => None
  | String c s' => if starts_with "://" s then Some ""
                   else match find_scheme s' with Some p => Some (String c p) | None => None end
  end.

Record Layered (W : Type) := mkLayered {
  default_store : BlobStore W; by_scheme : gmap string (BlobStore W)
}.
Arguments mkLayered {W}. Arguments default_store {W}. Arguments by_scheme {W}.

Section layered.
(** Whether the url crate accepts a string. *)
Context {W : Type} (url_parses : string -> bool).

Definition with_scheme (scheme : string) (store : BlobStore W) (l : Layered W) : Layered W :=
  mkLayered (default_store l) (<[scheme := store]> (by_scheme l)).

Definition parse_scheme (s : string) : option string :=
  scheme ← find_scheme s;
  if String.eqb scheme "" then None
  else if url_parses s || url_parses (scheme +:+ "://x") then Some scheme else None.

Definition route (l : Layered W) (key_or_uri : string) : BlobStore W :=
  match scheme ← parse_scheme key_or_uri; by_scheme l !! scheme with
  | Some store => store
  | None => default_store l
  end.

Definition layered_store (l : Layered W) : BlobStore W := {|
  put := fun key body => put (default_store l) key body;
  get := fun loc => get (route l loc) loc;
  delete_blob := fun loc => delete_blob (route l loc) loc;
  exists_blob := fun loc => exists_blob (route l loc) loc;
  presign_get := fun loc => presign_get (route l loc) loc;
|}.

(** The router keeps the contract of its default store for the keys it
    does not route away: when neither such a key nor its locator names a scheme
    that was registered. *)
Theorem layered_store_ok `{Sha256} (l : Layered W) (objects : W -> string -> option string)
  (valid : string -> Prop) (uri_of : string -> string)
  (answers_lost : Prop)
  (Hdefault : store_ok (default_store l) objects valid uri_of answers_lost)
  (Hroute : forall k, valid k -> forall loc scheme, loc = k \/ loc = uri_of k ->
     parse_scheme loc = Some scheme -> by_scheme l !! scheme = None) :
  store_ok (layered_store l) objects valid uri_of answers_lost.
Proof.
  assert (Hr : forall k loc, valid k -> locates uri_of k loc -> route l loc = default_store l).
  { intros k loc Hv Hloc. unfold route. destruct (parse_scheme loc) as [scheme|] eqn:Hp; [|done].
    simpl. by rewrite (Hroute k Hv loc scheme Hloc Hp). }
  destruct Hdefault as [Hp Hg Hd He]. split; simpl.
  - exact Hp.
  - intros k loc w Hv Hloc. rewrite (Hr k loc Hv Hloc). by apply Hg.
  - intros k loc w Hv Hloc. rewrite (Hr k loc Hv Hloc). by apply Hd.
  - intros k loc w Hv Hloc. rewrite (Hr k loc Hv Hloc). by apply He.
Qed.
End layered.

(** ** Concrete runs *)

#[local] Instance blob_sha : Sha256 := fun s => "h" +:+ s.
#[local] Instance no_faults : FsFaults := Build_FsFaults (fun _ => None) (fun _ _ => None).
Definition aux_put : M (gmap string string) BlobError BlobRef := put (memory_store "default") "a" "hello".

Lemma blob_round_trip_witness :
  (get (memory_store "default") "mem://default/a"
     (put (memory_store "default") "b" "x" (aux_put ∅).2).2).1 = Ok "hello" /\
  match (get (memory_store "default") "mem://default/a"
     (put (memory_store "default") "b" "x" (aux_put ∅).2).2).1 with
  | Ok b => b = "hello" | Err (BIo _) => True | Err (BBackend _) => False | Err _ => False end.
Proof.
  split; [reflexivity|].
  apply (blob_round_trip (memory_store "default") (fun w k => w !! k) mem_valid (mem_uri_for "default")
           False (memory_store_ok "default") "a" "hello" (mkBlobRef "mem://default/a" 5 "hhello") ∅
           (aux_put ∅).2 [OPut "b" "x"]); [reflexivity|reflexivity| |by right].
  repeat constructor. discriminate.
Defined.

(** Keys that do not look like a locator of any scheme. *)
Definition plain (k : string) : Prop := mem_valid k /\ find_scheme k = None.

Lemma layered_store_ok_witness :
  let l := mkLayered (memory_store "default") {["s3" := memory_store "aux"]} in
  store_ok (layered_store (fun _ => true) l) (fun w k => w !! k) plain (mem_uri_for "default") False /\
  (get (layered_store (fun _ => true) l) "mem://default/a" (aux_put ∅).2).1 = Ok "hello".
Proof.
  intros l. split; [|reflexivity].
  apply (layered_store_ok (fun _ => true) l).
  - apply (store_ok_weaken _ _ mem_valid); [by intros k []|]. apply memory_store_ok.
  - intros k [_ Hk] loc scheme [->| ->] Hp; unfold parse_scheme in Hp.
    + by rewrite Hk in Hp.
    + simpl in Hp. by injection Hp as <-.
Defined.

Lemma fs_valid_hash : fs_valid "9f86d081884c7d65".
Proof. split; reflexivity. Qed.

(** A put overwrites the sibling [stem.tmp] and renames it away: storing
    [report.txt] destroys the object [report.tmp]. *)
Example put_destroys_tmp_object :
  let st := filesystem_store "/blobs" in
  let w := (put st "report.txt" "new" (put st "report.tmp" "precious" (mkFsState ∅ 0)).2).2 in
  (get st "report.tmp" w).1 = Err (BNotFound "report.tmp") /\ (get st "report.txt" w).1 = Ok "new".
Proof. split; reflexivity. Qed.

(** Registering another store under the default store's own scheme, as the
    documentation of [Layered] does, makes the locators of the default unreadable. *)
Example layered_default_unreadable :
  let l := with_scheme "mem" (memory_store "aux") (mkLayered (memory_store "default") ∅) in
  let st := layered_store (fun _ => true) l in
  match put st "a" "hello" ∅ with
  | (Ok ref, w) => (get st (uri ref) w).1 = Err (InvalidKey "mem://default/a")
  | _ => False
  end.
Proof. reflexivity. Qed.
