(* ===== verification/Backend.v ===== *)
(** * Storage handles ([actant-storage/src/lib.rs], [backend.rs], [pg_repo.rs], [postgres.rs])

    Opening a database applies the migrations that it has not recorded.  Artifacts
    put their bytes in a blob store and a row in the ledger.  [StorageBackend] sends
    each operation to the SQLite repository (Storage.v) or to its Postgres mirror,
    which is modelled with the type check of Postgres: an INSERT is refused when a
    bound parameter has a type that its column does not take. *)

From S2P Require Import Prelude Str Json Core Storage Sync SyncFs Blob Prog.
#[local] Open Scope string_scope.
#[local] Open Scope list_scope.
#[local] Open Scope Z_scope.

(** ** Migrations *)

(** The database under its migrations, and which calls on [schema_migration] fail. *)
Class SqlDb := { SDb : Type; run_sql : string -> SDb -> result string unit * SDb; meta_error : nat -> option string }.

Record MigWorld `{SqlDb} := mkMigWorld { mg_db : SDb; recorded : list string; meta_calls : nat }.

Section migrations.
Context `{SqlDb}.
#[local] Abbreviation Mig A := (prog MigWorld ActantError A).

(** [str::lines]. *)
Definition strip_cr (s : string) : string := if ends_with (String "013" "") s then String.substring 0 (String.length s - 1) s else s.
Fixpoint drop_last_empty (l : list string) : list string :=
  match l with
  | [] => []
  | [x] => if String.eqb x "" then [] else [x]
  | x :: l' => x :: drop_last_empty l'
  end.
Definition lines (s : string) : list string := List.map strip_cr (drop_last_empty (split_char "010" s)).

Definition strip_comments (s : string) : string :=
  String.concat "" (List.map (fun line => if starts_with "--" (trim_start line) then "" else line +:+ String "010" "") (lines s)).
Definition first_line (s : string) : string := trim (default "" (head (lines s))).

(** A statement on [schema_migration]. *)
Definition meta {A} (f : MigWorld -> A * list string) : Mig A :=
  stmt (fun w => match meta_error (meta_calls w) with
                 | Some e => (Err (Core.Storage e), mkMigWorld _ (mg_db w) (recorded w) (S (meta_calls w)))
                 | None => let '(a, r) := f w in (Ok a, mkMigWorld _ (mg_db w) r (S (meta_calls w)))
                 end).
Definition run_statement (what sql : string) : Mig unit :=
  stmt (fun w => let '(r, d) := run_sql sql (mg_db w) in
    (match r with Ok _ => Ok tt | Err e => Err (Core.Storage (what +:+ first_line sql +:+ "`: " +:+ e)) end,
     mkMigWorld _ d (recorded w) (meta_calls w))).
Fixpoint run_pieces (what : string) (pieces : list string) : Mig unit :=
  match pieces with
  | [] => mret tt
  | raw :: rest =>
      if String.eqb (trim raw) "" then run_pieces what rest
      else run_statement what (trim raw);; run_pieces what rest
  end.
Definition apply_sql_script (what sql : string) : Mig unit := run_pieces what (split_char ";" (strip_comments sql)).

Definition is_recorded (name : string) (w : MigWorld) : bool := existsb (String.eqb name) (recorded w).
Definition record (name : string) : Mig unit :=
  stmt (fun w => match meta_error (meta_calls w) with
                 | Some e => (Err (Core.Storage e), mkMigWorld _ (mg_db w) (recorded w) (S (meta_calls w)))
                 | None => if is_recorded name w
                           then (Err (unique_failed "schema_migration.name"), mkMigWorld _ (mg_db w) (recorded w) (S (meta_calls w)))
                           else (Ok tt, mkMigWorld _ (mg_db w) (recorded w ++ [name]) (S (meta_calls w)))
                 end).
Fixpoint migrate (what : string) (ms : list (string * string)) : Mig unit :=
  match ms with
  | [] => mret tt
  | (name, sql) :: rest =>
      already ← meta (fun w => (is_recorded name w, recorded w));
      if (already : bool) then migrate what rest
      else apply_sql_script what sql;; record name;; migrate what rest
  end.
(** CREATE TABLE IF NOT EXISTS schema_migration, then the registry. *)
Definition run_migrations (what : string) (ms : list (string * string)) : Mig unit :=
  meta (fun w => (tt, recorded w));; migrate what ms.
Definition name_le (a b : string) : Prop := cmp_le (cmp:=String.compare) a b = true.
#[local] Instance name_le_dec a b : Decision (name_le a b).
Proof. unfold name_le. apply _. Defined.
Definition applied_migrations : Mig (list string) := meta (fun w => (merge_sort name_le (recorded w), recorded w)).

(** [MIGRATIONS], [PG_MIGRATIONS] and [bundled_migration_names]; the scripts are the files of src/migrations. *)
Definition migration_names : list string :=
  ["0001_initial"; "0002_extended_primitives"; "0003_ai_native_and_reliability"; "0004_auth"; "0006_pubsub"; "0007_replication"].
Definition pg_migration_names : list string :=
  ["pg_0001_initial"; "pg_0005_substrate_parity"; "pg_0002_extended_primitives"; "pg_0003_ai_native_and_reliability";
   "pg_0004_auth"; "pg_0006_pubsub"; "pg_0007_replication"].
Definition registry (script : string -> string) (names : list string) : list (string * string) :=
  List.map (fun n => (n, script n)) names.

(** ** What migrating does *)

Definition covered (ms : list (string * string)) (w : MigWorld) : Prop := Forall (fun m => is_recorded m.1 w = true) ms.

Lemma exec_cons {S E A B} (p : prog S E A) (f : A -> prog S E B) st :
  exec (p ≫= f) st = match exec p st with (Ok a, st') => exec (f a) st' | (Err e, st') => (Err e, st') end.
Proof. rewrite exec_bind. unfold mbind, M_bind. by destruct (exec p st) as [[]]. Qed.
Lemma exec_meta {A} (f : MigWorld -> A * list string) w :
  exec (meta f) w = match meta_error (meta_calls w) with
                    | Some e => (Err (Core.Storage e), mkMigWorld _ (mg_db w) (recorded w) (S (meta_calls w)))
                    | None => (Ok (f w).1, mkMigWorld _ (mg_db w) (f w).2 (S (meta_calls w)))
                    end.
Proof. unfold meta, stmt. simpl. destruct (meta_error _); [done|]. by destruct (f w). Qed.

Lemma run_pieces_recorded what ps w : recorded (exec (run_pieces what ps) w).2 = recorded w.
Proof.
  revert w. induction ps as [|p ps IH]; intros w; cbn [run_pieces]; [done|]. destruct (String.eqb (trim p) ""); [apply IH|].
  rewrite exec_cons. unfold run_statement, stmt. simpl. destruct (run_sql (trim p) (mg_db w)) as [[[]|e] d]; [|done].
  by rewrite IH.
Qed.

Lemma migrate_covered what ms w : covered ms w ->
  let '(_, w') := exec (migrate what ms) w in mg_db w' = mg_db w /\ recorded w' = recorded w.
Proof.
  revert w. induction ms as [|[name sql] ms IH]; intros w Hc; cbn [migrate]; [done|]. inversion Hc as [|? ? Hn Hr]; subst.
  rewrite exec_cons, exec_meta. destruct (meta_error (meta_calls w)); [done|]. simpl in *. rewrite Hn.
  specialize (IH (mkMigWorld _ (mg_db w) (recorded w) (S (meta_calls w))) Hr). by destruct (exec _ _).
Qed.
Lemma run_migrations_covered what ms w : covered ms w ->
  let '(_, w') := exec (run_migrations what ms) w in mg_db w' = mg_db w /\ recorded w' = recorded w.
Proof.
  intros Hc. unfold run_migrations. rewrite exec_cons, exec_meta. destruct (meta_error (meta_calls w)); [done|]. simpl.
  pose proof (migrate_covered what ms (mkMigWorld _ (mg_db w) (recorded w) (S (meta_calls w))) Hc) as Hm.
  by destruct (exec _ _).
Qed.

Lemma migrate_ok what ms w w' : exec (migrate what ms) w = (Ok tt, w') ->
  covered ms w' /\ (forall n, is_recorded n w = true -> is_recorded n w' = true).
Proof.
  revert w. induction ms as [|[name sql] ms IH]; intros w; cbn [migrate]; [by intros [= <-]; split; [constructor|]|].
  rewrite exec_cons, exec_meta. destruct (meta_error (meta_calls w)); [done|]. cbn [fst snd].
  destruct (is_recorded name w) eqn:Hn.
  { intros Hm. destruct (IH _ Hm) as [Hc Hk]. split; [|done]. constructor; [by apply Hk|done]. }
  rewrite exec_cons. pose proof (run_pieces_recorded what (split_char ";" (strip_comments sql))
    (mkMigWorld _ (mg_db w) (recorded w) (S (meta_calls w)))) as Hr.
  unfold apply_sql_script. destruct (exec (run_pieces _ _) _) as [[[]|e] w1]; [|done]. simpl in Hr.
  rewrite exec_cons. unfold record, stmt. cbn [exec]. destruct (meta_error (meta_calls w1)); [done|].
  destruct (is_recorded name w1); [done|]. intros Hm. destruct (IH _ Hm) as [Hc Hk].
  assert (Happ : forall n, is_recorded n w = true \/ n = name -> is_recorded n w' = true).
  { intros n Hor. apply Hk. unfold is_recorded. simpl. rewrite Hr, existsb_app, orb_true_iff. simpl.
    destruct Hor as [?| ->]; [by left|right]. by rewrite String.eqb_refl. }
  split; [constructor; [by apply Happ; right|done]|]. intros n Hin. apply Happ. by left.
Qed.

(** Opening a database that was opened before applies nothing: whatever calls fail,
    no statement of a script runs and the record stays as it is. *)
Theorem migrations_idempotent (what : string) (ms : list (string * string)) (w w1 : MigWorld) :
  exec (run_migrations what ms) w = (Ok tt, w1) ->
  let '(_, w2) := exec (run_migrations what ms) w1 in mg_db w2 = mg_db w1 /\ recorded w2 = recorded w1.
Proof.
  intros Hm. apply run_migrations_covered. unfold run_migrations in Hm. rewrite exec_cons, exec_meta in Hm.
  destruct (meta_error (meta_calls w)); [done|]. simpl in Hm. by destruct (migrate_ok _ _ _ _ Hm).
Qed.

Lemma is_recorded_take names j i n (w : MigWorld) : NoDup names -> recorded w = take j names -> names !! i = Some n ->
  is_recorded n w = bool_decide (i < j)%nat.
Proof.
  intros Hnd Hr Hi. unfold is_recorded. rewrite Hr. apply eq_true_iff_eq. rewrite existsb_exists, bool_decide_eq_true. split.
  - intros (x & Hx & ->%String.eqb_eq). apply list_elem_of_In, list_elem_of_lookup in Hx as [i' Hi'].
    apply lookup_take_Some in Hi' as [Hi' Hlt]. by rewrite (NoDup_lookup _ _ _ _ Hnd Hi Hi').
  - intros Hlt. exists n. split; [|apply String.eqb_refl]. apply list_elem_of_In, list_elem_of_lookup. exists i.
    by apply lookup_take_Some.
Qed.
Lemma migrate_prefix what pre ms w j : let names := List.map fst (pre ++ ms) in
  NoDup names -> recorded w = take j names -> (length pre <= j)%nat ->
  exists k, (j <= k)%nat /\ recorded (exec (migrate what ms) w).2 = take k names.
Proof.
  revert pre w j. induction ms as [|[name sql] ms IH]; intros pre w j names Hnd Hr Hj; cbn [migrate]; [by exists j|].
  assert (Hi : names !! length pre = Some name).
  { unfold names. rewrite List.map_app, lookup_app_r; rewrite length_map; [|lia]. by rewrite Nat.sub_diag. }
  assert (Hnames : names = List.map fst ((pre ++ [(name, sql)]) ++ ms)) by (unfold names; by rewrite <- app_assoc).
  rewrite exec_cons, exec_meta. destruct (meta_error (meta_calls w)); [by exists j|]. cbn [fst snd].
  rewrite (is_recorded_take names j _ name w Hnd Hr Hi). case_bool_decide as Hlt.
  { rewrite Hnames. apply (IH _ (mkMigWorld _ (mg_db w) (recorded w) (S (meta_calls w)))); [by rewrite <- Hnames|by rewrite <- Hnames|].
    rewrite length_app. simpl. lia. }
  assert (j = length pre) as -> by lia. rewrite exec_cons.
  pose proof (run_pieces_recorded what (split_char ";" (strip_comments sql))
    (mkMigWorld _ (mg_db w) (recorded w) (S (meta_calls w)))) as Hp.
  unfold apply_sql_script. destruct (exec (run_pieces _ _) _) as [[[]|e] w1]; [|by exists (length pre); rewrite Hp].
  simpl in Hp. rewrite exec_cons. unfold record, stmt. cbn [exec].
  destruct (meta_error (meta_calls w1)); [by exists (length pre); rewrite Hp|].
  rewrite (is_recorded_take names (length pre) (length pre) name w1 Hnd (eq_trans Hp Hr) Hi). rewrite bool_decide_eq_false_2 by lia.
  destruct (IH (pre ++ [(name, sql)]) (mkMigWorld _ (mg_db w1) (recorded w1 ++ [name]) (S (meta_calls w1))) (S (length pre)))
    as (k & Hk & Hrk).
  - by rewrite <- Hnames.
  - rewrite <- Hnames. simpl. rewrite Hp, Hr. symmetry. by apply take_S_r.
  - rewrite length_app. simpl. lia.
  - exists k. split; [lia|]. by rewrite Hnames.
Qed.

(** However often a database is opened and wherever opening fails, the recorded
    migrations are the first ones of the registry, in its order. *)
Theorem migrations_in_order (what : string) (ms : list (string * string)) (w : MigWorld) (j k : nat) :
  NoDup (List.map fst ms) -> recorded w = take j (List.map fst ms) ->
  exists i, (j <= i)%nat /\
    recorded (Nat.iter k (fun w => (exec (run_migrations what ms) w).2) w) = take i (List.map fst ms).
Proof.
  intros Hnd Hr. induction k as [|k IH]; [by exists j|]. destruct IH as (i & Hi & Hri).
  rewrite Nat.iter_succ. set (w1 := Nat.iter k _ w) in *. unfold run_migrations. rewrite exec_cons, exec_meta.
  destruct (meta_error (meta_calls w1)); [by exists i|]. cbn [fst snd].
  destruct (migrate_prefix what [] ms (mkMigWorld _ (mg_db w1) (recorded w1) (S (meta_calls w1))) i Hnd Hri) as (i' & Hle & Hrec);
    [simpl; lia|]. exists i'. split; [lia|done].
Qed.
End migrations.

(** ** Handles *)

Record ArtifactRow := mkArtifactRow {
  ar_workspace_id : string; ar_kind : string; ar_uri : string; ar_content_hash : string; ar_bytes : Z;
  ar_sensitivity : Sensitivity; ar_created_by : string; ar_created_at : string
}.
(** What a handle works on: the ledger, its artifact rows and the blob store. *)
Record Store (W : Type) := mkStore { st_world : World; st_artifacts : gmap string ArtifactRow; st_blobs : W }.
Arguments mkStore {W}. Arguments st_world {W}. Arguments st_artifacts {W}. Arguments st_blobs {W}.
(** sqlx panics when a column is read at a type it does not have. *)
Inductive Fault := Failed (e : ActantError) | Panicked (column : string).

Definition blob_display (e : BlobError) : string :=
  match e with
  | InvalidKey k => "invalid key: " +:+ k
  | BNotFound m => "not found: " +:+ m
  | BIo m => "io error: " +:+ m
  | BBackend m => "backend error: " +:+ m
  | BUnavailable m => "backend not available: " +:+ m
  end.

Section handles.
Context `{Env} `{Sha256} {W : Type} (B : BlobStore W).
#[local] Abbreviation St A := (M (Store W) Fault A).

Definition on_world {A} (m : DB A) : St A := fun s =>
  let '(r, w) := m (st_world s) in
  (match r with Ok a => Ok a | Err e => Err (Failed e) end, mkStore w (st_artifacts s) (st_blobs s)).
Definition on_blobs {A} (m : M W BlobError A) : St A := fun s =>
  let '(r, b) := m (st_blobs s) in
  (match r with Ok a => Ok a | Err e => Err (Failed (Core.Storage ("blob put: " +:+ blob_display e))) end,
   mkStore (st_world s) (st_artifacts s) b).

(** ** Artifacts on SQLite *)

Definition artifact_fk (a : ArtifactRow) (l : Ledger) : bool :=
  has (workspaces l) (ar_workspace_id a) && has (actors l) (ar_created_by a).
Definition insert_artifact (id : string) (a : ArtifactRow) : St unit := fun s =>
  if has (st_artifacts s) id then (Err (Failed (unique_failed "artifact.id")), s)
  else if artifact_fk a (ledger (st_world s)) then (Ok tt, mkStore (st_world s) (<[id := a]> (st_artifacts s)) (st_blobs s))
  else (Err (Failed fk_failed), s).
(** [put_artifact], with the INSERT of one backend. *)
Definition put_artifact_with (insert : string -> ArtifactRow -> St unit) (workspace_id actor_id kind body : string)
    (sensitivity : Sensitivity) : St string :=
  let hash := sha256_hex body in
  blob_ref ← on_blobs (put B hash body);
  id ← on_world (new_id "art");
  created_at ← on_world now_rfc3339;
  insert id (mkArtifactRow workspace_id kind (uri blob_ref) hash (str_len body) sensitivity actor_id created_at);;
  mret id.
Definition put_artifact := put_artifact_with insert_artifact.
Definition get_artifact_uri (id : string) : St (option string) := fun s => (Ok (ar_uri <$> st_artifacts s !! id), s).

(** ** The Postgres mirror *)

Inductive PgType := TEXT | TIMESTAMPTZ | JSONB | INT4 | INT8.
#[global] Instance PgType_eq_dec : EqDecision PgType.
Proof. solve_decision. Defined.
(** The type that sqlx declares for a bound value: [String], [&str] and options of
    them are TEXT, [i64] is INT8. *)
Inductive Bound := BText (t : option string) | BInt (n : Z).
Definition bound_type (b : Bound) : PgType := match b with BText _ => TEXT | BInt _ => INT8 end.
(** Assignment of Postgres: integers narrow, text becomes nothing else. *)
Definition assignable (b c : PgType) : bool :=
  bool_decide (b = c) || match b, c with INT8, INT4 => true | _, _ => false end.
(** TEXT holds no NUL, INT4 is bounded. *)
Definition storable_as (c : PgType) (b : Bound) : bool :=
  match b with
  | BText t => negb (contains_char "000" (default "" t))
  | BInt n => match c with INT4 => (- 2 ^ 31 <=? n) && (n <? 2 ^ 31) | _ => true end
  end.

(** The types of the columns in the files of src/migrations/pg. *)
Definition shipped_schema (table column : string) : PgType :=
  if existsb (String.eqb column) ["created_at"; "archived_at"; "disabled_at"; "closed_at"; "committed_at"]
  then if String.eqb table "artifact" then TEXT else TIMESTAMPTZ
  else if existsb (String.eqb column) ["payload_inline"; "input_inline"] then JSONB
  else if String.eqb column "bytes" then INT4 else TEXT.
(** Those that the documentation of the mirror speaks of: text as on SQLite. *)
Definition documented_schema (table column : string) : PgType := if String.eqb column "bytes" then INT4 else TEXT.

(** The type of a column of a table. *)
Context (schema : string -> string -> PgType).

Definition pg_failed (msg : string) : Fault := Failed (Core.Storage msg).
(** The check of a prepared statement, then of its values. *)
Definition pg_check (table : string) (binds : list (string * Bound)) : result Fault unit :=
  match List.find (fun '(c, b) => negb (assignable (bound_type b) (schema table c))) binds with
  | Some (c, _) => Err (pg_failed ("column " +:+ c +:+ " has another type than its expression"))
  | None => if forallb (fun '(c, b) => storable_as (schema table c) b) binds then Ok tt
            else Err (pg_failed "invalid value")
  end.
Definition checked (table : string) (binds : list (string * Bound)) (insert : St unit) : St unit := fun s =>
  match pg_check table binds with Ok _ => insert s | Err f => (Err f, s) end.
(** [row.get::<String, _>(column)]. *)
Definition get_text (table column : string) : St unit := fun s =>
  (if bool_decide (schema table column = TEXT) then Ok tt else Err (Panicked column), s).
Fixpoint get_texts (table : string) (columns : list string) : St unit :=
  match columns with [] => mret tt | c :: cs => get_text table c;; get_texts table cs end.
(** Reading the columns of a row when there is one. *)
Definition when_row {A} (o : option A) (read : St unit) : St unit := match o with Some _ => read | None => mret tt end.

Definition txt (s : string) : Bound := BText (Some s).
(** The variant of an enumeration, a word of serde's. *)
Definition word : Bound := BText (Some "word").

Definition workspace_columns (ws : Workspace) : list (string * Bound) :=
  [("id", txt (ws_id ws)); ("name", txt (ws_name ws)); ("created_at", txt (ws_created_at ws))].
Definition pg_insert_workspace (ws : Workspace) : St unit :=
  checked "workspace" (workspace_columns ws)
    (on_world (insert_workspace ws)).
Definition pg_get_workspace (id : string) : St (option Workspace) :=
  r ← on_world (get_workspace id);
  when_row r (get_texts "workspace" ["id"; "name"; "created_at"; "archived_at"]);;
  mret r.
Definition actor_columns (a : Actor) : list (string * Bound) :=
  [("id", txt (act_id a)); ("workspace_id", txt (act_workspace_id a)); ("kind", word);
   ("display_name", txt (act_display_name a)); ("created_at", txt (act_created_at a))].
Definition pg_insert_actor (a : Actor) : St unit :=
  checked "actor" (actor_columns a)
    (on_world (insert_actor a)).
Definition pg_get_actor (id : string) : St (option Actor) :=
  r ← on_world (get_actor id);
  when_row r (get_texts "actor" ["kind"; "id"; "workspace_id"; "display_name"; "created_at"; "disabled_at"]);;
  mret r.
Definition session_columns (x : Session) : list (string * Bound) :=
  [("id", txt (ses_id x)); ("workspace_id", txt (ses_workspace_id x)); ("title", BText (ses_title x));
   ("initiator_actor_id", txt (ses_initiator_actor_id x)); ("agent_actor_id", BText (ses_agent_actor_id x));
   ("status", word); ("created_at", txt (ses_created_at x))].
Definition pg_insert_session (x : Session) : St unit :=
  checked "session" (session_columns x)
    (on_world (insert_session x)).
(** Without a foreign key on the scope. *)
Definition pg_event_fk (r : EventRow) (l : Ledger) : bool :=
  let e := er_event r in
  has (workspaces l) (ev_workspace_id e) && has (actors l) (ev_actor_id e) && has_opt (sessions l) (ev_session_id e)
  && (bool_decide (ev_parent_event_id e = Some (ev_id e)) || has_opt (events l) (ev_parent_event_id e)).
Definition event_columns (e : AgentEvent) : list (string * Bound) :=
  [("id", txt (ev_id e)); ("workspace_id", txt (ev_workspace_id e)); ("actor_id", txt (ev_actor_id e));
   ("session_id", BText (ev_session_id e)); ("parent_event_id", BText (ev_parent_event_id e));
   ("event_type", txt (ev_event_type e)); ("causality_kind", word); ("sensitivity", word);
   ("authority_scope_id", BText (ev_authority_scope_id e)); ("payload_ref", BText (ev_payload_ref e));
   ("payload_inline", BText (ev_payload_inline e)); ("payload_hash", txt (ev_payload_hash e));
   ("model_call_id", BText (ev_model_call_id e)); ("tool_call_id", BText (ev_tool_call_id e));
   ("workflow_run_id", BText (ev_workflow_run_id e)); ("memory_id", BText (ev_memory_id e));
   ("artifact_id", BText (ev_artifact_id e)); ("command_id", BText (ev_command_id e));
   ("effect_id", BText (ev_effect_id e)); ("event_hash", txt (ev_event_hash e)); ("created_at", txt (ev_created_at e))].
Definition pg_append_event (e : AgentEvent) : St unit :=
  checked "agent_event" (event_columns e)
    (on_world (insert_row "agent_event" events set_events pg_event_fk (ev_id e) (mkEventRow e "_legacy_" (0, 0)))).
(** Postgres compares [created_at] and [id] in its own way. *)
Context (pg_event_le : EventRow -> EventRow -> Prop) `{!forall a b, Decision (pg_event_le a b)}.
Definition pg_select (f : AgentEvent -> bool) (l : Ledger) : list EventRow :=
  merge_sort pg_event_le (List.filter (fun r => f (er_event r)) (map snd (map_to_list (events l)))).
Definition pg_last_event_hash (workspace_id : string) (session_id : option string) : St (option string) :=
  r ← on_world (read (fun l => (fun r => ev_event_hash (er_event r)) <$> last (pg_select (in_scope workspace_id session_id) l)));
  when_row r (get_texts "agent_event" ["event_hash"]);;
  mret r.
(** Without a foreign key on the policy. *)
Definition pg_command_fk (c : CommandRecord) (l : Ledger) : bool :=
  has (workspaces l) (cmd_workspace_id c) && has (actors l) (cmd_actor_id c) && has_opt (sessions l) (cmd_session_id c).
Definition command_columns (c : CommandRecord) : list (string * Bound) :=
  [("id", txt (cmd_id c)); ("workspace_id", txt (cmd_workspace_id c)); ("actor_id", txt (cmd_actor_id c));
   ("session_id", BText (cmd_session_id c)); ("command_type", txt (cmd_command_type c));
   ("input_inline", BText (cmd_input_inline c)); ("input_hash", txt (cmd_input_hash c)); ("policy_id", BText (cmd_policy_id c));
   ("status", word); ("error", BText (cmd_error c)); ("created_at", txt (cmd_created_at c));
   ("committed_at", BText (cmd_committed_at c))].
Definition pg_insert_command (c : CommandRecord) : St unit :=
  checked "command_record"
    (command_columns c)
    (on_world (insert_row "command_record" commands set_commands pg_command_fk (cmd_id c) c)).
Definition pg_idempotency_lookup (workspace_id key : string) : St (option string) :=
  r ← on_world (read (fun l => idems l !! (workspace_id, key)));
  when_row r (get_texts "idempotency_record" ["result_ref"]);;
  mret (r ≫= id_result_ref).
Definition idem_columns (workspace_id actor_id key command_type input_hash : string) (result_ref : option string)
    (now : string) : list (string * Bound) :=
  [("workspace_id", txt workspace_id); ("idempotency_key", txt key); ("actor_id", txt actor_id);
   ("command_type", txt command_type); ("input_hash", txt input_hash); ("result_ref", BText result_ref); ("created_at", txt now)].
(** ON CONFLICT DO NOTHING. *)
Definition pg_idempotency_record (workspace_id actor_id key command_type input_hash : string) (result_ref : option string) :
    St unit :=
  now ← on_world now_rfc3339;
  let row := mkIdemRow actor_id command_type input_hash result_ref now in
  checked "idempotency_record"
    (idem_columns workspace_id actor_id key command_type input_hash result_ref now)
    (on_world (l ← read id;
      match idems l !! (workspace_id, key) with
      | Some _ => mret tt
      | None => if idem_fk row l then with_ledger (set_idems (<[(workspace_id, key) := row]> (idems l))) else throw fk_failed
      end)).
Definition artifact_columns (id : string) (a : ArtifactRow) : list (string * Bound) :=
  [("id", txt id); ("workspace_id", txt (ar_workspace_id a)); ("kind", txt (ar_kind a)); ("uri", txt (ar_uri a));
   ("content_hash", txt (ar_content_hash a)); ("bytes", BInt (ar_bytes a)); ("sensitivity", word);
   ("created_by_actor_id", txt (ar_created_by a)); ("created_at", txt (ar_created_at a))].
Definition pg_insert_artifact (id : string) (a : ArtifactRow) : St unit :=
  checked "artifact"
    (artifact_columns id a)
    (insert_artifact id a).
Definition pg_put_artifact := put_artifact_with pg_insert_artifact.
Definition pg_get_artifact_uri (id : string) : St (option string) :=
  r ← get_artifact_uri id; when_row r (get_texts "artifact" ["uri"]);; mret r.
Definition read_event_columns : list string :=
  ["causality_kind"; "sensitivity"; "id"; "workspace_id"; "actor_id"; "session_id"; "parent_event_id"; "event_type";
   "authority_scope_id"; "payload_ref"; "payload_inline"; "payload_hash"; "model_call_id"; "tool_call_id";
   "workflow_run_id"; "memory_id"; "artifact_id"; "command_id"; "effect_id"; "event_hash"; "created_at"].
Definition pg_events_in_session (session_id : string) : St (list AgentEvent) :=
  es ← on_world (read (fun l => List.map er_event (pg_select (in_session session_id) l)));
  when_row (head es) (get_texts "agent_event" read_event_columns);;
  mret es.

(** ** The backend *)

Inductive StorageBackend := Sqlite | Postgres.
Definition label (b : StorageBackend) : string := match b with Sqlite => "sqlite" | Postgres => "postgres" end.
Definition PG_NOT_IMPLEMENTED_HINT : string :=
  "this API exposes the SQLite connection pool; use StorageBackend methods for backend-neutral storage".
Definition sqlite_pool (b : StorageBackend) : result ActantError unit :=
  match b with Sqlite => Ok tt | Postgres => Err (NotImplemented PG_NOT_IMPLEMENTED_HINT) end.

(** The operations that both backends have. *)
Inductive RepoOp : Type -> Type :=
| InsertWorkspace (ws : Workspace) : RepoOp unit
| GetWorkspace (id : string) : RepoOp (option Workspace)
| InsertActor (a : Actor) : RepoOp unit
| GetActor (id : string) : RepoOp (option Actor)
| InsertSession (x : Session) : RepoOp unit
| AppendEvent (e : AgentEvent) : RepoOp unit
| LastEventHash (workspace_id : string) (session_id : option string) : RepoOp (option string)
| InsertCommand (c : CommandRecord) : RepoOp unit
| IdempotencyLookup (workspace_id key : string) : RepoOp (option string)
| IdempotencyRecord (workspace_id actor_id key command_type input_hash : string) (result_ref : option string) : RepoOp unit
| PutArtifact (workspace_id actor_id kind body : string) (sensitivity : Sensitivity) : RepoOp string
| GetArtifactUri (id : string) : RepoOp (option string)
| EventsInSession (session_id : string) : RepoOp (list AgentEvent).

Definition sqlite_call {A} (op : RepoOp A) : St A :=
  match op with
  | InsertWorkspace ws => on_world (insert_workspace ws)
  | GetWorkspace id => on_world (get_workspace id)
  | InsertActor a => on_world (insert_actor a)
  | GetActor id => on_world (get_actor id)
  | InsertSession x => on_world (insert_session x)
  | AppendEvent e => on_world (append_event e)
  | LastEventHash ws s => on_world (last_event_hash ws s)
  | InsertCommand c => on_world (insert_command c)
  | IdempotencyLookup ws k => on_world (idempotency_lookup ws k)
  | IdempotencyRecord ws a k t h r => on_world (idempotency_record ws a k t h r)
  | PutArtifact ws a k b s => put_artifact ws a k b s
  | GetArtifactUri id => get_artifact_uri id
  | EventsInSession s => on_world (events_in_session s)
  end.
Definition pg_call {A} (op : RepoOp A) : St A :=
  match op with
  | InsertWorkspace ws => pg_insert_workspace ws
  | GetWorkspace id => pg_get_workspace id
  | InsertActor a => pg_insert_actor a
  | GetActor id => pg_get_actor id
  | InsertSession x => pg_insert_session x
  | AppendEvent e => pg_append_event e
  | LastEventHash ws s => pg_last_event_hash ws s
  | InsertCommand c => pg_insert_command c
  | IdempotencyLookup ws k => pg_idempotency_lookup ws k
  | IdempotencyRecord ws a k t h r => pg_idempotency_record ws a k t h r
  | PutArtifact ws a k b s => pg_put_artifact ws a k b s
  | GetArtifactUri id => pg_get_artifact_uri id
  | EventsInSession s => pg_events_in_session s
  end.
(** [match self]: every method of the backend. *)
Definition call {A} (b : StorageBackend) (op : RepoOp A) : St A :=
  match b with Sqlite => sqlite_call op | Postgres => pg_call op end.

(** [seed_postgres_if_empty] of the server. *)
Definition seed_postgres_if_empty : St unit :=
  ws ← pg_get_workspace "ws_default";
  match ws with
  | Some _ => mret tt
  | None =>
      t ← on_world now_rfc3339;
      pg_insert_workspace (mkWorkspace "ws_default" "default" t None);;
      t' ← on_world now_rfc3339;
      pg_insert_actor (mkActor "act_system" "ws_default" System "system" t' None)
  end.

(** ** Artifacts are found again *)

Lemma bind_st {A C} (m : St A) (f : A -> St C) s :
  (m ≫= f) s = match m s with (Ok a, s') => f a s' | (Err e, s') => (Err e, s') end.
Proof. unfold mbind, M_bind. by destruct (m s) as [[]]. Qed.

Lemma put_artifact_run insert ws a kind body sens s :
  put_artifact_with insert ws a kind body sens s =
  match put B (sha256_hex body) body (st_blobs s) with
  | (Err e, b) => (Err (Failed (Core.Storage ("blob put: " +:+ blob_display e))), mkStore (st_world s) (st_artifacts s) b)
  | (Ok ref, b) =>
      let w := st_world s in
      let id := "art_" +:+ ulid (seq w) in
      match insert id (mkArtifactRow ws kind (uri ref) (sha256_hex body) (str_len body) sens a (clock (time w)))
              (mkStore (mkWorld (ledger w) (S (seq w)) (S (time w))) (st_artifacts s) b) with
      | (Ok _, s') => (Ok id, s')
      | (Err f, s') => (Err f, s')
      end
  end.
Proof.
  unfold put_artifact_with. rewrite bind_st. unfold on_blobs. destruct (put B _ body (st_blobs s)) as [[ref|e] b]; [|done].
  rewrite bind_st. cbn. rewrite bind_st. cbn. rewrite bind_st. by destruct (insert _ _ _) as [[[]|f] s'].
Qed.

(** An artifact that was stored is found again: its locator is that of the hash of
    its bytes, and the blob store answers those bytes for it.  A call that fails
    leaves the ledger and the artifact rows as they were. *)
Theorem artifact_round_trip (objects : W -> string -> option string) (valid : string -> Prop) (uri_of : string -> string) (answers_lost : Prop)
    (ws actor_id kind body : string) (sensitivity : Sensitivity) (s : Store W) :
  store_ok B objects valid uri_of answers_lost -> valid (sha256_hex body) ->
  match put_artifact ws actor_id kind body sensitivity s with
  | (Ok id, s') =>
      (get_artifact_uri id s').1 = Ok (Some (uri_of (sha256_hex body))) /\
      match (get B (uri_of (sha256_hex body)) (st_blobs s')).1 with
      | Ok bytes => bytes = body | Err (BIo _) => True | Err (BBackend _) => answers_lost | Err _ => False end /\
      ledger (st_world s') = ledger (st_world s) /\ st_artifacts s !! id = None /\
      (forall id', id' <> id -> st_artifacts s' !! id' = st_artifacts s !! id')
  | (Err _, s') => ledger (st_world s') = ledger (st_world s) /\ st_artifacts s' = st_artifacts s
  end.
Proof.
  intros Hok Hv. unfold put_artifact. rewrite put_artifact_run.
  pose proof (put_law _ _ _ _ _ Hok (sha256_hex body) body (st_blobs s) Hv) as Hp.
  destruct (put B _ body (st_blobs s)) as [[ref|e] b]; [|done]. destruct Hp as (-> & Hobj & _). simpl.
  unfold insert_artifact. simpl. destruct (has (st_artifacts s) _) eqn:Hh; [done|].
  destruct (artifact_fk _ _); [|done]. unfold get_artifact_uri. simpl. rewrite lookup_insert_eq. split; [done|].
  split; [|split; [done|]; split; [by apply has_false|]; intros id' Hne; by rewrite lookup_insert_ne].
  pose proof (get_law _ _ _ _ _ Hok (sha256_hex body) (uri_of (sha256_hex body)) b Hv (or_intror eq_refl)) as Hg.
  destruct (get B _ b) as [[bytes|[]] b']; simpl; destruct Hg as [_ Hg]; congruence || done.
Qed.
End handles.

(** ** The mirror with the columns that its documentation speaks of *)

Section backends.
Context `{Env} `{Sha256} {W : Type} (B : BlobStore W).

Definition clean (t : string) : Prop := contains_char "000" t = false.
(** What the environment and the blob store answer is text without NUL. *)
Record clean_answers : Prop := {
  ca_ulid : forall n, clean (ulid n); ca_clock : forall n, clean (clock n); ca_hash : forall s, clean (sha256_hex s);
  ca_uri : forall k b w ref w', clean k -> put B k b w = (Ok ref, w') -> clean (uri ref);
}.
Definition all_storable (table : string) (binds : list (string * Bound)) : Prop :=
  forallb (fun '(c, b) => storable_as (documented_schema table c) b) binds = true.
(** The operation binds text without NUL and integers in range, and names no scope or
    policy, on which only SQLite has a foreign key. *)
Definition plain {A} (op : RepoOp A) : Prop :=
  match op with
  | InsertWorkspace ws => all_storable "workspace" (workspace_columns ws)
  | InsertActor a => all_storable "actor" (actor_columns a)
  | InsertSession x => all_storable "session" (session_columns x)
  | AppendEvent e => all_storable "agent_event" (event_columns e) /\ ev_authority_scope_id e = None
  | InsertCommand c => all_storable "command_record" (command_columns c) /\ cmd_policy_id c = None
  | IdempotencyRecord ws a k t h r => all_storable "idempotency_record" (idem_columns ws a k t h r "")
  | PutArtifact ws a k body s => Forall clean [ws; a; k] /\ str_len body < 2 ^ 31
  | _ => True
  end.

Definition agree {A} (x y : result Fault A * Store W) : Prop :=
  x.2 = y.2 /\ match x.1, y.1 with Ok a, Ok b => a = b | Err _, Err _ => True | _, _ => False end.

Lemma documented_assignable table binds :
  (forall c b, In (c, b) binds -> bound_type b = TEXT /\ c <> "bytes" \/ bound_type b = INT8 /\ c = "bytes") ->
  all_storable table binds -> pg_check documented_schema table binds = Ok tt.
Proof.
  intros Hb Hs. unfold pg_check. destruct (List.find _ binds) as [[c b]|] eqn:Hf.
  - exfalso. apply List.find_some in Hf as [Hin Hne]. unfold documented_schema in Hne.
    destruct (Hb c b Hin) as [[Ht Hc]|[Ht ->]]; rewrite Ht in Hne.
    + by rewrite (proj2 (String.eqb_neq c "bytes") Hc) in Hne.
    + done.
  - unfold all_storable in Hs. by rewrite Hs.
Qed.
Lemma get_texts_documented table columns (s : Store W) :
  ~ In "bytes" columns -> get_texts documented_schema table columns s = (Ok tt, s).
Proof.
  revert s. induction columns as [|c cs IH]; intros s Hc; [done|]. cbn [get_texts]. rewrite bind_st. unfold get_text, documented_schema.
  rewrite (proj2 (String.eqb_neq c "bytes")) by (intros ->; apply Hc; by left). simpl. apply IH. intros Hin. apply Hc. by right.
Qed.
Lemma when_row_documented {A} (o : option A) table columns (s : Store W) :
  ~ In "bytes" columns -> when_row o (get_texts documented_schema table columns) s = (Ok tt, s).
Proof. intros Hc. destruct o; [by apply get_texts_documented|done]. Qed.
Lemma get_texts_keeps schema table columns (s : Store W) : (get_texts schema table columns s).2 = s.
Proof.
  revert s. induction columns as [|c cs IH]; intros s; [done|]. cbn [get_texts]. rewrite bind_st. unfold get_text.
  by case_bool_decide.
Qed.
Lemma when_row_keeps {A} schema (o : option A) table columns (s : Store W) : (when_row o (get_texts schema table columns) s).2 = s.
Proof. destruct o; [apply get_texts_keeps|done]. Qed.

Lemma agree_refl {A} (x : result Fault A * Store W) : agree x x.
Proof. split; [done|]. by destruct x as [[] ?]. Qed.

#[local] Abbreviation sqlite := (call B documented_schema event_le Sqlite).
#[local] Abbreviation postgres := (call B documented_schema event_le Postgres).

Lemma checked_documented table binds (ins : M (Store W) Fault unit) s :
  (forall c b, In (c, b) binds -> bound_type b = TEXT /\ c <> "bytes" \/ bound_type b = INT8 /\ c = "bytes") ->
  all_storable table binds -> checked documented_schema table binds ins s = ins s.
Proof. intros Hb Hs. unfold checked. by rewrite documented_assignable. Qed.
(** The columns of the statements, one by one. *)
Ltac columns_ok := intros ? ? Hin; simpl in Hin;
  repeat (destruct Hin as [[= <- <-]|Hin]; [first [left; split; [reflexivity|discriminate]|right; split; reflexivity]|]); destruct Hin.

(** A query whose row, when there is one, is read column by column. *)
Lemma read_row {A C R} schema (f : Ledger -> A) (row : A -> option C) (g : A -> R) table columns (s : Store W) :
  (r ← on_world (read f); when_row (row r) (get_texts schema table columns);; mret (g r)) s =
  ((match (when_row (row (f (ledger (st_world s)))) (get_texts schema table columns) s).1 with
    | Ok _ => Ok (g (f (ledger (st_world s)))) | Err e => Err e end), s).
Proof.
  rewrite bind_st. unfold on_world. destruct s as [w a b]. cbn -[when_row get_texts]. rewrite bind_st.
  pose proof (when_row_keeps schema (row (f (ledger w))) table columns (mkStore w a b)) as Hk.
  destruct (when_row _ _ _) as [[[]|e] s']; simpl in *; by subst.
Qed.
Lemma read_documented {A C R} (f : Ledger -> A) (row : A -> option C) (g : A -> R) table columns (s : Store W) :
  ~ In "bytes" columns ->
  (r ← on_world (read f); when_row (row r) (get_texts documented_schema table columns);; mret (g r)) s
  = on_world (read (fun l => g (f l))) s.
Proof. intros Hc. rewrite read_row, when_row_documented by done. by destruct s. Qed.

Lemma insert_fk_agree {A} table get set (fk fk' : A -> Ledger -> bool) id row s :
  (forall l, fk row l = fk' row l) ->
  on_world (insert_row table get set fk id row) s = (on_world (insert_row table get set fk' id row) s : result Fault unit * Store W).
Proof. intros Hfk. unfold on_world, insert_row. by rewrite Hfk. Qed.

Lemma storable_txt c t : clean t -> storable_as c (txt t) = true.
Proof. unfold storable_as, txt, clean. simpl. by intros ->. Qed.

Lemma put_artifact_agree ws a kind body sens s : clean_answers -> Forall clean [ws; a; kind] -> str_len body < 2 ^ 31 ->
  sqlite (PutArtifact ws a kind body sens) s = postgres (PutArtifact ws a kind body sens) s.
Proof.
  intros [Hu Hc Hh Huri] Hcl Hlen. simpl. unfold put_artifact, pg_put_artifact. rewrite !put_artifact_run.
  destruct (put B _ body (st_blobs s)) as [[ref|e] b] eqn:Hput; [|done]. unfold pg_insert_artifact.
  rewrite checked_documented; [done|columns_ok|].
  inversion Hcl as [|? ? H1 Hcl1]; subst. inversion Hcl1 as [|? ? H2 Hcl2]; subst. inversion Hcl2 as [|? ? H3 _]; subst.
  unfold all_storable, artifact_columns. cbn [forallb].
  assert (Hid : clean ("art_" +:+ ulid (seq (st_world s)))) by apply Hu.
  rewrite !storable_txt; eauto. simpl. rewrite andb_true_r. apply andb_true_iff. unfold str_len in *. split; lia.
Qed.

Lemma idempotency_agree ws a k t h r s : clean_answers -> plain (IdempotencyRecord ws a k t h r) ->
  sqlite (IdempotencyRecord ws a k t h r) s = postgres (IdempotencyRecord ws a k t h r) s.
Proof.
  intros Hcl Hp. simpl. unfold pg_idempotency_record. rewrite bind_st. unfold on_world at 2. simpl.
  rewrite checked_documented; [|columns_ok|].
  - unfold on_world, idempotency_record. simpl. by destruct (idems (ledger (st_world s)) !! (ws, k)).
  - unfold plain, all_storable, idem_columns in *. cbn [forallb] in *. rewrite !andb_true_iff in *. repeat split; try tauto.
    apply storable_txt, Hcl.
Qed.

(** With the columns of the documentation and byte-wise order the two backends agree
    on every operation: they leave the same store, and answer the same value or
    both an error. *)
Theorem backends_agree {A} (op : RepoOp A) (s : Store W) :
  clean_answers -> plain op -> agree (sqlite op s) (postgres op s).
Proof.
  intros Hcl Hp. assert (Heq : sqlite op s = postgres op s); [|rewrite Heq; apply agree_refl].
  destruct op; simpl in Hp.
  - simpl. unfold pg_insert_workspace. by rewrite checked_documented; [|columns_ok|].
  - symmetry. apply (read_documented _ (fun r => r) (fun r => r)). simpl. intuition discriminate.
  - simpl. unfold pg_insert_actor. by rewrite checked_documented; [|columns_ok|].
  - symmetry. apply (read_documented _ (fun r => r) (fun r => r)). simpl. intuition discriminate.
  - simpl. unfold pg_insert_session. by rewrite checked_documented; [|columns_ok|].
  - destruct Hp as [Hp Hs]. simpl. unfold pg_append_event. rewrite checked_documented; [|columns_ok|done].
    apply insert_fk_agree. intros l. unfold event_fk, pg_event_fk. simpl. rewrite Hs. apply andb_true_r.
  - symmetry. apply (read_documented _ (fun r => r) (fun r => r)). simpl. intuition discriminate.
  - destruct Hp as [Hp Hs]. simpl. unfold pg_insert_command. rewrite checked_documented; [|columns_ok|done].
    apply insert_fk_agree. intros l. unfold command_fk, pg_command_fk. rewrite Hs. apply andb_true_r.
  - symmetry. apply (read_documented _ (fun r => r) (fun r => r ≫= id_result_ref)). simpl. intuition discriminate.
  - by apply idempotency_agree.
  - destruct Hp. by apply put_artifact_agree.
  - simpl. unfold pg_get_artifact_uri. rewrite bind_st. cbn -[when_row get_texts]. rewrite bind_st, when_row_documented; [by destruct s|].
    intros [?|[]]. discriminate.
  - symmetry. apply (read_documented _ (@head _) (fun r => r)). simpl. intuition discriminate.
Qed.

(** ** The mirror with the columns that are shipped *)

Context (pg_event_le : EventRow -> EventRow -> Prop) `{!forall a b, Decision (pg_event_le a b)}.
#[local] Abbreviation shipped := (call B shipped_schema pg_event_le Postgres).

Lemma checked_refused table binds (ins : M (Store W) Fault unit) s c b :
  In (c, b) binds -> assignable (bound_type b) (shipped_schema table c) = false ->
  exists e, checked shipped_schema table binds ins s = (Err (Failed e), s).
Proof.
  intros Hin Ha. unfold checked, pg_check. destruct (List.find _ binds) as [[c' b']|] eqn:Hf; [by eexists|].
  exfalso. pose proof (List.find_none _ _ Hf _ Hin) as Hn. simpl in Hn. by rewrite Ha in Hn.
Qed.
Lemma created_at_refused table binds (ins : M (Store W) Fault unit) s t :
  table <> "artifact" -> In ("created_at", txt t) binds -> exists e, checked shipped_schema table binds ins s = (Err (Failed e), s).
Proof.
  intros Ht Hin. eapply checked_refused; [exact Hin|]. unfold shipped_schema. simpl.
  by rewrite (proj2 (String.eqb_neq _ _) Ht).
Qed.
(** The INSERTs of the ledger: refused, whatever the row. *)
Definition is_insert {A} (op : RepoOp A) : bool :=
  match op with
  | InsertWorkspace _ | InsertActor _ | InsertSession _ | AppendEvent _ | InsertCommand _ | IdempotencyRecord _ _ _ _ _ _ => true
  | _ => false
  end.
Definition refused {A} (x : result Fault A * Store W) : Prop := exists e, x.1 = Err (Failed e).

Lemma inserts_refused {A} (op : RepoOp A) s : is_insert op = true ->
  refused (shipped op s) /\ ledger (st_world (shipped op s).2) = ledger (st_world s).
Proof.
  destruct op; try done; intros _; simpl.
  1-5: unfold pg_insert_workspace, pg_insert_actor, pg_insert_session, pg_append_event, pg_insert_command;
    match goal with |- context [checked shipped_schema ?t ?bs ?i ?s1] =>
      edestruct (created_at_refused t bs i s1) as [err ->]; [done|simpl; tauto|split; [by exists err|done]] end.
  unfold pg_idempotency_record. rewrite bind_st. unfold on_world at 1. simpl.
  match goal with |- context [checked shipped_schema ?t ?bs ?i ?s1] =>
    edestruct (created_at_refused t bs i s1) as [err ->]; [done|simpl; tauto|split; [by exists err|done]] end.
Qed.

Lemma pg_keeps_ledger {A} (op : RepoOp A) s : ledger (st_world (shipped op s).2) = ledger (st_world s).
Proof.
  destruct (is_insert op) eqn:Hi; [by apply inserts_refused|].
  destruct op; try done; simpl.
  - unfold pg_get_workspace, get_workspace. by rewrite (read_row shipped_schema _ (fun r => r) (fun r => r)).
  - unfold pg_get_actor, get_actor. by rewrite (read_row shipped_schema _ (fun r => r) (fun r => r)).
  - unfold pg_last_event_hash. by rewrite (read_row shipped_schema _ (fun r => r) (fun r => r)).
  - unfold pg_idempotency_lookup. by rewrite (read_row shipped_schema _ (fun r => r) (fun r => r ≫= id_result_ref)).
  - unfold pg_put_artifact. rewrite put_artifact_run. destruct (put B _ body (st_blobs s)) as [[ref|e] b]; [|done].
    unfold pg_insert_artifact, checked. destruct (pg_check _ _ _); [|done]. unfold insert_artifact. cbn -[has].
    destruct (has _ _); [done|]. by destruct (artifact_fk _ _).
  - unfold pg_get_artifact_uri. rewrite bind_st. cbn -[when_row get_texts]. rewrite bind_st.
    match goal with |- context [when_row ?o ?r s] => pose proof (when_row_keeps shipped_schema o "artifact" ["uri"] s) as Hk;
      destruct (when_row o r s) as [[[]|e] s'] end; simpl in *; by subst.
  - unfold pg_events_in_session. by rewrite (read_row shipped_schema _ (@head _) (fun r => r)).
Qed.

(** A sequence of operations, whatever each answers. *)
Fixpoint run_ops (ops : list {A & RepoOp A}) (s : Store W) : Store W :=
  match ops with [] => s | op :: ops' => run_ops ops' (shipped (projT2 op) s).2 end.

(** On Postgres with the columns that are shipped nothing is ever recorded: whatever
    operations run, the ledger stays as it was, and every INSERT of the ledger is
    refused, because its RFC 3339 text is bound to a TIMESTAMPTZ column. *)
Theorem postgres_records_nothing {A} (ops : list {A & RepoOp A}) (s : Store W) (op : RepoOp A) :
  let s' := run_ops ops s in
  ledger (st_world s') = ledger (st_world s) /\ (is_insert op = true -> refused (shipped op s')).
Proof.
  simpl. split; [|intros Hi; by apply inserts_refused]. revert s. induction ops as [|o ops IH]; intros s; [done|].
  cbn [run_ops]. etrans; [apply IH|apply pg_keeps_ledger].
Qed.

(** The server on Postgres never comes up: seeding fails on a database without the
    default workspace, and panics on one that has it. *)
Theorem postgres_never_boots (s : Store W) :
  match (seed_postgres_if_empty shipped_schema s).1 with
  | Ok _ => False
  | Err (Failed _) => workspaces (ledger (st_world s)) !! "ws_default" = None
  | Err (Panicked column) => is_Some (workspaces (ledger (st_world s)) !! "ws_default") /\ column = "created_at"
  end.
Proof.
  unfold seed_postgres_if_empty, pg_get_workspace, get_workspace. rewrite bind_st, (read_row shipped_schema _ (fun r => r) (fun r => r)).
  destruct (workspaces (ledger (st_world s)) !! "ws_default") as [ws|] eqn:Hws; [by split|].
  unfold pg_insert_workspace. cbn -[checked]. rewrite bind_st. unfold on_world at 1. cbn -[checked]. rewrite bind_st.
  match goal with |- context [checked shipped_schema ?t ?bs ?i ?s1] =>
    edestruct (created_at_refused t bs i s1) as [e ->]; [done|simpl; tauto|done] end.
Qed.
End backends.

(** ** Runs *)

(** A database that knows its CREATE statements, and fails once, at its second statement. *)
#[local] Instance once_full : SqlDb := {|
  SDb := list string * nat; meta_error _ := None;
  run_sql s d := if (d.2 =? 1)%nat then (Err "disk full", (d.1, 2%nat))
                 else if existsb (String.eqb s) d.1 then (Err "already exists", (d.1, S d.2))
                 else (Ok tt, (d.1 ++ [s], S d.2)) |}.
Definition two_tables : list (string * string) := [("0001_initial", "CREATE a; CREATE b;")].
Definition new_db : MigWorld := mkMigWorld _ ([], 0%nat) [] 0.
(** Statements of a migration stay when a later one fails: the next opening fails at
    the first of them, and so does every one after it. *)
Example interrupted_migration_blocks :
  let w1 := exec (run_migrations "apply `" two_tables) new_db in
  let w2 := exec (run_migrations "apply `" two_tables) w1.2 in
  w1.1 = Err (Core.Storage "apply `CREATE b`: disk full") /\
  w2.1 = Err (Core.Storage "apply `CREATE a`: already exists") /\ recorded w2.2 = [].
Proof. vm_compute. auto. Qed.
(** A semicolon in a comment behind a statement cuts the statement. *)
Example trailing_comment_cuts :
  List.map trim (split_char ";" (strip_comments "CREATE a -- one; two" )) = ["CREATE a -- one"; "two"].
Proof. vm_compute. reflexivity. Qed.
(** Two processes open a new database: both find the migration missing, and the
    second runs into the tables of the first. *)
Definition at_rest : MigWorld := mkMigWorld _ ([], 2%nat) [] 0.
Example two_openers_collide :
  let r := run_schedule [0; 1; 0; 1; 0; 1; 0; 1; 0; 1]%nat
    [run_migrations "apply `" two_tables; run_migrations "apply `" two_tables] at_rest in
  List.map answer r.1 = [Some (Ok tt); Some (Err (Core.Storage "apply `CREATE a`: already exists"))].
Proof. vm_compute. reflexivity. Qed.

Lemma migrations_idempotent_witness :
  let w1 := (exec (run_migrations "apply `" two_tables) at_rest).2 in
  let '(_, w2) := exec (run_migrations "apply `" two_tables) w1 in mg_db w2 = mg_db w1 /\ recorded w2 = recorded w1.
Proof.
  apply (migrations_idempotent "apply `" two_tables at_rest (exec (run_migrations "apply `" two_tables) at_rest).2).
  vm_compute. reflexivity.
Defined.
Lemma migrations_in_order_witness :
  exists i, (0 <= i)%nat /\
    recorded (Nat.iter 3 (fun w => (exec (run_migrations "apply `" two_tables) w).2) new_db) = take i ["0001_initial"].
Proof.
  apply (migrations_in_order "apply `" two_tables new_db 0 3); [|reflexivity]. apply NoDup_singleton.
Defined.

#[local] Instance demo_env : Env := Build_Env (fun n => show_Z (Z.of_nat n)) (fun n => show_Z (Z.of_nat n)).
#[local] Instance demo_sha : Sha256 := fun s => "h" +:+ show_Z (str_len s).
Definition mem : BlobStore (gmap string string) := memory_store "m".
Definition no_rows : Store (gmap string string) := mkStore (mkWorld empty_ledger 0 0) ∅ ∅.
Definition seeded : Store (gmap string string) :=
  ((call mem documented_schema event_le Sqlite (InsertWorkspace (mkWorkspace "ws" "w" "t" None));;
    call mem documented_schema event_le Sqlite (InsertActor (mkActor "ann" "ws" Human "Ann" "t" None))) no_rows).2.

Definition stored := put_artifact mem "ws" "ann" "file" "hello" SLow seeded.
Lemma artifact_round_trip_witness :
  stored.1 = Ok "art_0" /\
  match stored with
  | (Ok id, s') =>
      (get_artifact_uri id s').1 = Ok (Some (mem_uri_for "m" (sha256_hex "hello"))) /\
      match (get mem (mem_uri_for "m" (sha256_hex "hello")) (st_blobs s')).1 with
      | Ok bytes => bytes = "hello" | Err (BIo _) => True | Err (BBackend _) => False | Err _ => False end /\
      ledger (st_world s') = ledger (st_world seeded) /\ st_artifacts seeded !! id = None /\
      (forall id', id' <> id -> st_artifacts s' !! id' = st_artifacts seeded !! id')
  | (Err _, s') => ledger (st_world s') = ledger (st_world seeded) /\ st_artifacts s' = st_artifacts seeded
  end.
Proof.
  split; [vm_compute; reflexivity|].
  exact (artifact_round_trip mem (fun w k => w !! k) mem_valid (mem_uri_for "m") False "ws" "ann" "file" "hello" SLow seeded
           (memory_store_ok "m") eq_refl).
Defined.
(** Of two artifacts of the same bytes there are two rows and one blob.  The blob of
    an artifact whose row is refused stays. *)
Example blob_without_row :
  let r := put_artifact mem "ws_gone" "ann" "file" "hello" SLow seeded in
  r.1 = Err (Failed fk_failed) /\ st_artifacts r.2 = ∅ /\ st_blobs r.2 !! "h5" = Some "hello".
Proof. vm_compute. auto. Qed.


(** ** The two backends *)

#[local] Instance plain_env : Env := Build_Env (fun _ => "u") (fun _ => "t").
#[local] Instance plain_sha : Sha256 := fun _ => "h".
Definition plain_mem : BlobStore (gmap string string) := memory_store "m".
Lemma mem_clean : clean_answers plain_mem.
Proof. split; try done. intros k b w ref w' Hk. simpl. intros [= <- _]. exact Hk. Qed.

Definition a_note : AgentEvent :=
  mkAgentEvent "evt_1" "ws" "ann" None None "note" Observation SLow None (Some "{}") None "h" "h" "t"
    None None None None None None None.
Lemma backends_agree_witness :
  agree (call plain_mem documented_schema event_le Sqlite (AppendEvent a_note) seeded)
        (call plain_mem documented_schema event_le Postgres (AppendEvent a_note) seeded).
Proof. apply (backends_agree plain_mem (AppendEvent a_note) seeded mem_clean). vm_compute. auto. Defined.
Lemma postgres_records_nothing_witness :
  let s' := run_ops plain_mem event_le [existT _ (InsertWorkspace (mkWorkspace "ws2" "w" "t" None));
                                        existT _ (AppendEvent a_note)] seeded in
  ledger (st_world s') = ledger (st_world seeded) /\
  (is_insert (AppendEvent a_note) = true -> refused (call plain_mem shipped_schema event_le Postgres (AppendEvent a_note) s')).
Proof.
  apply (postgres_records_nothing plain_mem event_le
    [existT _ (InsertWorkspace (mkWorkspace "ws2" "w" "t" None)); existT _ (AppendEvent a_note)] seeded (AppendEvent a_note)).
Defined.
(** Text with a NUL is a difference that stays with the documented columns. *)
Example nul_is_refused :
  let e := mkAgentEvent "evt_1" "ws" "ann" None None "note" Observation SLow None (Some (String "000" "")) None "h" "h" "t"
    None None None None None None None in
  (call plain_mem documented_schema event_le Sqlite (AppendEvent e) seeded).1 = Ok tt /\
  (call plain_mem documented_schema event_le Postgres (AppendEvent e) seeded).1 = Err (pg_failed "invalid value").
Proof. vm_compute. auto. Qed.
