(* ===== verification/Broker.v ===== *)
(** * The pub/sub broker ([actant-subscribe/src/broker.rs])

    Publishers insert a row and send on the live channel of their topic;
    a subscriber with a cursor joins the live channel, reads the rows after the
    cursor, and a task bridges both into one stream.  All of them interleave
    statement by statement.  The broadcast channel (tokio) and the id generator
    are parameters. *)

From S2P Require Import Prelude Str Json Core Storage Prog.
#[local] Open Scope string_scope.
#[local] Open Scope list_scope.
#[local] Open Scope Z_scope.

Record Envelope := mkEnvelope { en_id : string; en_topic : string; en_payload : Json; en_ts : string }.
Record MessageRow := mkMessageRow {
  mr_id : string; mr_workspace_id : string; mr_topic : string; mr_payload : string;
  mr_created_at : string
}.

(** [ORDER BY id]. *)
Definition id_le (a b : MessageRow) : Prop := cmp_le (cmp:=String.compare) (mr_id a) (mr_id b) = true.
#[global] Instance id_le_dec : RelDecision id_le.
Proof. intros a b. unfold id_le. apply _. Defined.

(** ** tokio's broadcast channel *)

Inductive Recv := RecvMsg (e : Envelope) | RecvLagged.

Class Broadcast := {
  chan : Type;
  channel : Z -> nat * chan;                       (* with its first receiver *)
  chan_subscribe : chan -> nat * chan;
  chan_send : Envelope -> chan -> chan;
  chan_recv : nat -> chan -> option Recv * chan;   (* [None]: it would wait *)
}.

(** Documented behaviour.  [joined] receivers are those handed out; [unread] is
    what a receiver that never lagged has still to receive, in order: it starts
    empty, a send appends to it, a receive takes its first element. *)
Class BroadcastLaws `{Broadcast} := {
  joined : nat -> chan -> Prop;
  unread : nat -> chan -> option (list Envelope);
  channel_unread : forall n, joined (channel n).1 (channel n).2 /\ unread (channel n).1 (channel n).2 = Some [];
  subscribe_joined : forall c, joined (chan_subscribe c).1 (chan_subscribe c).2 /\
    unread (chan_subscribe c).1 (chan_subscribe c).2 = Some [];
  subscribe_other : forall c rx, joined rx c ->
    joined rx (chan_subscribe c).2 /\ unread rx (chan_subscribe c).2 = unread rx c;
  send_unread : forall c rx e, joined rx c ->
    joined rx (chan_send e c) /\
    forall l, unread rx (chan_send e c) = Some l -> exists l0, unread rx c = Some l0 /\ l = l0 ++ [e];
  recv_unread : forall c rx, joined rx c ->
    joined rx (chan_recv rx c).2 /\
    forall l, unread rx (chan_recv rx c).2 = Some l ->
      match (chan_recv rx c).1 with
      | Some (RecvMsg e) => unread rx c = Some (e :: l)
      | Some RecvLagged => False
      | None => unread rx c = Some l
      end;
}.

(** ** The broker's state *)

(** Workspace and topic. *)
Notation Key := (string * string)%type.

Section broker.
Context `{SerdeJson} `{Broadcast}.
(** What the id generator answers at each call, the clock, the text of serde's
    errors, and the capacity of the channels. *)
Context (generate : nat -> result string string) (clock : nat -> string)
  (decode_error : string -> string) (capacity : Z).

(** A task that bridges the live channel to a subscriber; [fw_held] is the
    envelope it has received and not yet sent. *)
Record Forwarder := mkForwarder {
  fw_key : Key; fw_rx : nat; fw_bridge : nat; fw_held : option Envelope
}.

Record BWorld := mkBWorld {
  messages : gmap string MessageRow;
  workspaces : gset string;
  channels : gmap Key chan;
  bridges : list chan;
  forwarders : list Forwarder;
  bseq : nat; btime : nat
}.
Definition set_messages x w := mkBWorld x (workspaces w) (channels w) (bridges w) (forwarders w) (bseq w) (btime w).
Definition set_channels x w := mkBWorld (messages w) (workspaces w) x (bridges w) (forwarders w) (bseq w) (btime w).
Definition set_bridges x w := mkBWorld (messages w) (workspaces w) (channels w) x (forwarders w) (bseq w) (btime w).
Definition set_forwarders x w := mkBWorld (messages w) (workspaces w) (channels w) (bridges w) x (bseq w) (btime w).

#[local] Notation B A := (prog BWorld ActantError A).

(** A receiver a subscriber is given: on the live channel, or on a bridge. *)
Inductive Receiver := RxLive (k : Key) (rx : nat) | RxBridge (b : nat) (rx : nat).

(** [Broker::with_capacity] keeps at least one slot; [Broker::new]. *)
Definition with_capacity (n : Z) : Z := Z.max n 1.
Definition new : Z := with_capacity 256.

(** ** Publishing *)

Definition next_id : B string :=
  stmt (fun w =>
    let w' := mkBWorld (messages w) (workspaces w) (channels w) (bridges w) (forwarders w) (S (bseq w)) (btime w) in
    match generate (bseq w) with
    | Ok u => (Ok ("psm_" +:+ u), w')
    | Err m => (Err (Internal ("pubsub id generation: " +:+ m)), w')
    end).
Definition now : B string :=
  stmt (fun w => (Ok (clock (btime w)),
    mkBWorld (messages w) (workspaces w) (channels w) (bridges w) (forwarders w) (bseq w) (S (btime w)))).

Definition insert_message (r : MessageRow) : B unit :=
  stmt (fun w =>
    if has (messages w) (mr_id r) then (Err (unique_failed "pubsub_message.id"), w)
    else if bool_decide (mr_workspace_id r ∈ workspaces w)
    then (Ok tt, set_messages (<[mr_id r := r]> (messages w)) w)
    else (Err fk_failed, w)).

(** The fan-out, under the read lock: nothing when nobody ever subscribed. *)
Definition fan_out (k : Key) (env : Envelope) : B unit :=
  stmt (fun w => (Ok tt, set_channels (alter (chan_send env) k (channels w)) w)).

Definition publish (workspace_id topic : string) (payload : Json) : B Envelope :=
  if String.eqb topic "" then raise (InvalidInput "topic is required")
  else
    id ← next_id;
    ts ← now;
    insert_message (mkMessageRow id workspace_id topic (to_string payload) ts);;
    let env := mkEnvelope id topic payload ts in
    fan_out (workspace_id, topic) env;;
    mret env.

(** ** Replay and subscription *)

Definition decode (r : MessageRow) : result ActantError Envelope :=
  match from_str (mr_payload r) with
  | Some payload => Ok (mkEnvelope (mr_id r) (mr_topic r) payload (mr_created_at r))
  | None => Err (Core.Storage ("payload decode: " +:+ decode_error (mr_payload r)))
  end.

Fixpoint decode_all (rs : list MessageRow) : result ActantError (list Envelope) :=
  match rs with
  | [] => Ok []
  | r :: rs' => e ← decode r; es ← decode_all rs'; mret (e :: es)
  end.

(** [WHERE workspace_id = ? AND topic = ? AND id > ?]. *)
Definition after_cursor (k : Key) (cursor : string) (r : MessageRow) : bool :=
  String.eqb (mr_workspace_id r) k.1 && String.eqb (mr_topic r) k.2
  && cmp_lt (cmp:=String.compare) cursor (mr_id r).

Definition REPLAY_LIMIT : nat := Z.to_nat 10000.
Definition rows_after (k : Key) (cursor : string) (m : gmap string MessageRow) : list MessageRow :=
  List.filter (after_cursor k cursor) (map snd (map_to_list m)).

Definition replay_since (workspace_id topic cursor : string) : B (list Envelope) :=
  stmt (fun w =>
    (decode_all (take REPLAY_LIMIT (merge_sort id_le (rows_after (workspace_id, topic) cursor (messages w)))), w)).

(** [entry(key).or_insert_with(..)], under the write lock. *)
Definition open_channel (k : Key) : B unit :=
  stmt (fun w =>
    (Ok tt, match channels w !! k with
            | Some _ => w
            | None => set_channels (<[k := (channel capacity).2]> (channels w)) w
            end)).
Definition join_channel (k : Key) : B nat :=
  stmt (fun w => match channels w !! k with
                 | Some c => (Ok (chan_subscribe c).1, set_channels (<[k := (chan_subscribe c).2]> (channels w)) w)
                 | None => (Err (Internal "no channel"), w)
                 end).
Definition new_bridge : B (nat * nat) :=
  stmt (fun w => (Ok (length (bridges w), (channel capacity).1),
                  set_bridges (bridges w ++ [(channel capacity).2]) w)).
Definition send_bridge (b : nat) (e : Envelope) : B unit :=
  stmt (fun w => (Ok tt, set_bridges (alter (chan_send e) b (bridges w)) w)).
Definition spawn (f : Forwarder) : B unit :=
  stmt (fun w => (Ok tt, set_forwarders (forwarders w ++ [f]) w)).

Fixpoint fill_bridge (k : Key) (rx b brx : nat) (es : list Envelope) : B Receiver :=
  match es with
  | [] => spawn (mkForwarder k rx b None);; mret (RxBridge b brx)
  | e :: es' => send_bridge b e;; fill_bridge k rx b brx es'
  end.

Definition bridge_from (k : Key) (rx : nat) (cursor : string) : B Receiver :=
  '(b, brx) ← new_bridge;
  backfill ← replay_since k.1 k.2 cursor;
  fill_bridge k rx b brx backfill.

Definition subscribe (workspace_id topic : string) (since : option string) : B Receiver :=
  if String.eqb topic "" then raise (InvalidInput "topic is required")
  else
    let k := (workspace_id, topic) in
    open_channel k;;
    live_rx ← join_channel k;
    match since with
    | None => mret (RxLive k live_rx)
    | Some cursor => bridge_from k live_rx cursor
    end.

(** ** Runs *)

(** The other calls in flight: publishers, and subscribers without a cursor. *)
Inductive Call :=
| CPublish (workspace_id topic : string) (payload : Json)
| CListen (workspace_id topic : string).
Definition code (c : Call) : B (option Receiver) :=
  match c with
  | CPublish ws topic payload => publish ws topic payload;; mret None
  | CListen ws topic => rx ← subscribe ws topic None; mret (Some rx)
  end.
Definition subscriber (ws topic cursor : string) : B (option Receiver) :=
  rx ← subscribe ws topic (Some cursor); mret (Some rx).

(** The threads, the state, and what the client of thread 0 has received. *)
Record Sys := mkSys { pool : list (B (option Receiver)); world : BWorld; got : list Envelope }.

Inductive sys_step : Sys -> Sys -> Prop :=
| step_thread pool w g pool' w' :
    istep (pool, w) (pool', w') -> sys_step (mkSys pool w g) (mkSys pool' w' g)
| step_forward_recv pool w g i f c item c' :
    forwarders w !! i = Some f -> fw_held f = None -> channels w !! fw_key f = Some c ->
    chan_recv (fw_rx f) c = (item, c') ->
    let held := match item with Some (RecvMsg e) => Some e | _ => None end in
    sys_step (mkSys pool w g)
      (mkSys pool (set_channels (<[fw_key f := c']> (channels w))
         (set_forwarders (<[i := mkForwarder (fw_key f) (fw_rx f) (fw_bridge f) held]> (forwarders w)) w)) g)
| step_forward_send pool w g i f e :
    forwarders w !! i = Some f -> fw_held f = Some e ->
    sys_step (mkSys pool w g)
      (mkSys pool (set_bridges (alter (chan_send e) (fw_bridge f) (bridges w))
         (set_forwarders (<[i := mkForwarder (fw_key f) (fw_rx f) (fw_bridge f) None]> (forwarders w)) w)) g)
| step_client pool w g p b rx c item c' :
    pool !! 0%nat = Some p -> answer p = Some (Ok (Some (RxBridge b rx))) -> bridges w !! b = Some c ->
    chan_recv rx c = (item, c') ->
    sys_step (mkSys pool w g)
      (mkSys pool (set_bridges (<[b := c']> (bridges w)) w)
         (match item with Some (RecvMsg e) => g ++ [e] | _ => g end)).
End broker.
