(* ===== verification/BrokerInv.v ===== *)
(** * What a subscription delivers

    Whatever publishers and subscribers interleave: the stream of a subscription
    with a cursor misses no message whose publisher has returned, and carries
    messages of its own workspace and topic only. *)

From S2P Require Import Prelude Str Json Core Storage Prog Broker.
#[local] Open Scope string_scope.
#[local] Open Scope list_scope.
#[local] Open Scope Z_scope.

Section delivery.
Context `{SerdeJson} `{Broadcast} `{!BroadcastLaws}.
Context (generate : nat -> result string string) (clock : nat -> string)
  (decode_error : string -> string) (capacity : Z).
#[local] Notation B A := (prog BWorld ActantError A).
#[local] Notation decode := (decode decode_error).
#[local] Notation code := (code generate clock decode_error capacity).

Definition row_of (w : BWorld) (k : Key) (e : Envelope) : Prop :=
  exists id r, messages w !! id = Some r /\ decode r = Ok e /\ (mr_workspace_id r, mr_topic r) = k.

(** Every row is stored under its id and decodes. *)
Definition rows_ok (w : BWorld) : Prop :=
  forall id r, messages w !! id = Some r -> mr_id r = id /\ exists e, decode r = Ok e.

(** A statement that leaves rows, bridges and tasks alone, and channels up to a
    new receiver. *)
Definition quiet (w w' : BWorld) : Prop :=
  messages w' = messages w /\ bridges w' = bridges w /\ forwarders w' = forwarders w /\
  forall k c, channels w !! k = Some c ->
    channels w' !! k = Some c \/ channels w' !! k = Some (chan_subscribe c).2.

Definition inserted (w w' : BWorld) (r : MessageRow) (e : Envelope) : Prop :=
  messages w !! mr_id r = None /\ decode r = Ok e /\
  w' = set_messages (<[mr_id r := r]> (messages w)) w.

(** A thread in one of two phases: with nothing to fan out, or about to send the
    envelope [o] it has persisted. *)
Fixpoint plays {A} (o : option (Key * Envelope)) (p : B A) : Prop :=
  match p with
  | Done _ => o = None
  | Stmt s k => forall w, rows_ok w ->
      let w' := (s w).2 in
      (quiet w w' /\ match (s w).1 with Ok b => plays o (k b) | Err _ => o = None end) \/
      (o = None /\ exists b r e, (s w).1 = Ok b /\ inserted w w' r e /\
         plays (Some ((mr_workspace_id r, mr_topic r), e)) (k b)) \/
      (exists b key e, o = Some (key, e) /\ (s w).1 = Ok b /\
         w' = set_channels (alter (chan_send e) key (channels w)) w /\ plays None (k b))
  end.

(** serde_json parses what it prints: a published payload is read back. *)
Definition reads_back (c : Call) : Prop :=
  match c with
  | CPublish _ _ payload => from_str (to_string payload) = Some payload
  | CListen _ _ => True
  end.

Lemma quiet_refl w w' :
  messages w' = messages w -> bridges w' = bridges w -> forwarders w' = forwarders w ->
  channels w' = channels w -> quiet w w'.
Proof. intros Hm Hb Hf Hc. repeat split; [done..|]. rewrite Hc. auto. Qed.

Lemma call_plays c : reads_back c -> plays None (code c).
Proof.
  destruct c as [ws topic payload|ws topic]; simpl.
  - intros Hwf. unfold publish. destruct (String.eqb topic ""); simpl; [done|].
    intros w _. left. destruct (generate (bseq w)) as [u|m]; simpl; (split; [by apply quiet_refl|]); [|done].
    intros w1 _. left. split; [by apply quiet_refl|]. simpl.
    intros w2 _. destruct (has _ _) eqn:Hh; simpl; [left; split; [by apply quiet_refl|done]|].
    case_bool_decide; simpl; [|left; split; [by apply quiet_refl|done]].
    right. left. split; [done|].
    exists tt, (mkMessageRow ("psm_" +:+ u) ws topic (to_string payload) (clock (btime w1))),
      (mkEnvelope ("psm_" +:+ u) topic payload (clock (btime w1))). split; [done|]. split.
    + split; [by apply has_false|]. split; [|done]. unfold Broker.decode. simpl. by rewrite Hwf.
    + simpl. intros w3 _. right. right. do 3 eexists. done.
  - intros _. unfold subscribe. destruct (String.eqb topic ""); simpl; [done|].
    intros w _. left. split.
    + destruct (channels w !! (ws, topic)) eqn:Hc; [by apply quiet_refl|].
      repeat split; simpl; [done..|]. intros k c Hk. left. rewrite lookup_insert_ne; [done|congruence].
    + simpl. intros w1 _. left. destruct (channels w1 !! (ws, topic)) as [c|] eqn:Hc; simpl;
        (split; [|done]); [|by apply quiet_refl].
      repeat split; [done..|]. intros k c' Hk. simpl.
      destruct (decide ((ws, topic) = k)) as [<-|Hne]; [rewrite lookup_insert_eq|rewrite lookup_insert_ne by done; auto].
      right. congruence.
Qed.

(** ** The live side of a subscription *)

Section stream.
Context (ws topic cursor : string).
#[local] Notation K := (ws, topic).
#[local] Notation ghost := (list (option (Key * Envelope))).

(** Envelopes that are persisted and not yet sent. *)
Definition in_flight (os : ghost) (w : BWorld) : Prop :=
  forall k e, In (Some (k, e)) os -> row_of w k e.

Definition covers (os : ghost) (w : BWorld) (l : list Envelope) : Prop :=
  forall id r e, messages w !! id = Some r -> after_cursor K cursor r = true -> decode r = Ok e ->
    In (Some (K, e)) os \/ In e l.
Definition sound (w : BWorld) (l : list Envelope) : Prop := forall e, In e l -> row_of w K e.

Definition few (w : BWorld) : Prop := (length (rows_after K cursor (messages w)) <= REPLAY_LIMIT)%nat.

(** [pre] is what the subscription has got from elsewhere, if nothing lagged;
    with what its live receiver still holds it is sound and, once the rows were
    read ([cov]), complete. *)
Definition live_inv (os : ghost) (w : BWorld) (rx : nat) (pre : option (list Envelope)) (cov : bool) : Prop :=
  exists c, channels w !! K = Some c /\ joined rx c /\
    forall ll l, unread rx c = Some ll -> pre = Some l ->
      sound w (l ++ ll) /\ (cov = true -> few w -> covers os w (l ++ ll)).

Lemma row_of_mono w w' k e :
  (forall id r, messages w !! id = Some r -> messages w' !! id = Some r) -> row_of w k e -> row_of w' k e.
Proof. intros Hm (id & r & Hr & Hd & Hk). exists id, r. auto. Qed.

Lemma insert_keeps w w' r e :
  inserted w w' r e -> forall id r', messages w !! id = Some r' -> messages w' !! id = Some r'.
Proof.
  intros (Hn & _ & ->) id r' Hr. simpl. rewrite lookup_insert_ne; [done|]. intros <-. congruence.
Qed.

Lemma few_insert w w' r e : inserted w w' r e -> few w' -> few w.
Proof.
  intros (Hn & _ & ->). unfold few, rows_after. simpl. rewrite map_to_list_insert by done. simpl.
  destruct (after_cursor _ _ _); simpl; lia.
Qed.

Lemma live_quiet os w w' rx pre cov : quiet w w' -> live_inv os w rx pre cov -> live_inv os w' rx pre cov.
Proof.
  intros (Hm & _ & _ & Hch) (c & Hc & Hj & Hinv).
  assert (Heq : exists c', channels w' !! K = Some c' /\ joined rx c' /\ unread rx c' = unread rx c).
  { destruct (Hch _ _ Hc) as [?|?]; [by exists c|]. eexists. split; [done|]. by apply subscribe_other. }
  destruct Heq as (c' & Hc' & Hj' & Hu). exists c'. repeat split; [done..| |];
    rewrite Hu in *; destruct (Hinv _ _ ltac:(eassumption) ltac:(eassumption)) as [Hs Hcov].
  - intros x Hx. eapply row_of_mono; [|by apply Hs]. by rewrite Hm.
  - unfold few, covers. rewrite Hm. auto.
Qed.

Lemma live_insert os w w' rx pre cov j r e :
  os !! j = Some None -> inserted w w' r e -> live_inv os w rx pre cov ->
  live_inv (<[j := Some ((mr_workspace_id r, mr_topic r), e)]> os) w' rx pre cov.
Proof.
  intros Hj Hins (c & Hc & Hjo & Hinv). pose proof (insert_keeps _ _ _ _ Hins) as Hmono.
  exists c. assert (Hch : channels w' = channels w) by (by destruct Hins as (_ & _ & ->)).
  rewrite Hch. split; [done|]. split; [done|]. intros ll l Hll Hl.
  destruct (Hinv _ _ Hll Hl) as [Hs Hcov]. split.
  - intros x Hx. eapply row_of_mono; [done|auto].
  - intros Ht Hfew. specialize (Hcov Ht (few_insert _ _ _ _ Hins Hfew)).
    destruct Hins as (Hn & Hd & ->). intros id r' e' Hr' Ha Hd'. simpl in Hr'.
    apply lookup_insert_Some in Hr' as [[_ <-]|[_ Hr']].
    + left. replace e' with e by congruence. unfold after_cursor in Ha.
      apply andb_true_iff in Ha as [[->%String.eqb_eq ->%String.eqb_eq]%andb_true_iff _].
      apply list_elem_of_In, list_elem_of_lookup. exists j.
      apply list_lookup_insert_eq. by eapply lookup_lt_Some.
    + destruct (Hcov _ _ _ Hr' Ha Hd') as [Hin|?]; [left|by right].
      apply list_elem_of_In, list_elem_of_lookup in Hin as [i Hi].
      apply list_elem_of_In, list_elem_of_lookup. exists i.
      rewrite list_lookup_insert_ne; [done|]. intros <-. congruence.
Qed.

Lemma live_send os w rx pre cov j key e :
  in_flight os w -> os !! j = Some (Some (key, e)) -> live_inv os w rx pre cov ->
  live_inv (<[j := None]> os) (set_channels (alter (chan_send e) key (channels w)) w) rx pre cov.
Proof.
  intros Hfl Hj (c & Hc & Hjo & Hinv). unfold live_inv. simpl.
  assert (Hkeep : forall e', In (Some (K, e')) os -> In (Some (K, e')) (<[j := None]> os) \/ (key = K /\ e' = e)).
  { intros e' [i Hi]%list_elem_of_In%list_elem_of_lookup. destruct (decide (i = j)) as [->|Hne].
    - right. rewrite Hj in Hi. by injection Hi as -> ->.
    - left. apply list_elem_of_In, list_elem_of_lookup. exists i. by rewrite list_lookup_insert_ne. }
  destruct (decide (key = K)) as [->|Hne].
  - destruct (send_unread c rx e Hjo) as [Hjo' Hu]. exists (chan_send e c).
    rewrite lookup_alter_eq, Hc. split; [done|]. split; [done|]. intros ll l Hll Hl.
    destruct (Hu _ Hll) as (l0 & Hl0 & ->). destruct (Hinv _ _ Hl0 Hl) as [Hs Hcov]. split.
    + intros x. rewrite app_assoc, in_app_iff. intros [Hx|[<-|[]]]; [by apply Hs|].
      apply Hfl, list_elem_of_In, list_elem_of_lookup. eauto.
    + intros Ht Hfew id r e' Hr Ha Hd. rewrite app_assoc, in_app_iff.
      destruct (Hcov Ht Hfew id r e' Hr Ha Hd) as [Hin|?]; [|by right; left].
      destruct (Hkeep _ Hin) as [?|[_ ->]]; [by left|by right; right; left].
  - exists c. rewrite lookup_alter_ne by done. split; [done|]. split; [done|]. intros ll l Hll Hl.
    destruct (Hinv _ _ Hll Hl) as [Hs Hcov]. split; [exact Hs|].
    intros Ht Hfew id r e' Hr Ha Hd. destruct (Hcov Ht Hfew id r e' Hr Ha Hd) as [Hin|?]; [|by right].
    destruct (Hkeep _ Hin) as [?|[? _]]; [by left|done].
Qed.

(** ** The points of a subscriber's program *)

Inductive Point :=
| PStart | POpen | PJoined (rx : nat) | PBridge (rx brx : nat)
| PFill (rx brx : nat) (es : list Envelope)
| PDone (rx brx : nat) (held : option Envelope) | PErr (e : ActantError).

#[local] Notation answer_with m := (m ≫= fun r => mret (Some r)).
Definition prog_of (pt : Point) : B (option Receiver) :=
  match pt with
  | PStart => subscriber decode_error capacity ws topic cursor
  | POpen => answer_with (rx ← join_channel K; bridge_from decode_error capacity K rx cursor)
  | PJoined rx => answer_with (bridge_from decode_error capacity K rx cursor)
  | PBridge rx brx => answer_with (es ← replay_since decode_error ws topic cursor; fill_bridge K rx 0 brx es)
  | PFill rx brx es => answer_with (fill_bridge K rx 0 brx es)
  | PDone rx brx _ => Done (Ok (Some (RxBridge 0 brx)))
  | PErr e => Done (Err e)
  end.

Definition bridged (w : BWorld) (brx : nat) (P : option (list Envelope) -> Prop) : Prop :=
  exists bc, bridges w = [bc] /\ joined brx bc /\ P (unread brx bc).

Definition point_inv (pt : Point) (os : ghost) (w : BWorld) (g : list Envelope) : Prop :=
  match pt with
  | PStart => forwarders w = [] /\ bridges w = [] /\ g = []
  | POpen => forwarders w = [] /\ bridges w = [] /\ g = [] /\ is_Some (channels w !! K)
  | PJoined rx => forwarders w = [] /\ bridges w = [] /\ g = [] /\ live_inv os w rx (Some []) false
  | PBridge rx brx => forwarders w = [] /\ g = [] /\
      bridged w brx (fun u => u = Some [] /\ live_inv os w rx (Some []) false)
  | PFill rx brx es => forwarders w = [] /\ g = [] /\
      bridged w brx (fun u => live_inv os w rx ((fun lb => lb ++ es) <$> u) true)
  | PDone rx brx held => forwarders w = [mkForwarder K rx 0 held] /\
      bridged w brx (fun u => live_inv os w rx ((fun lb => g ++ lb ++ option_list held) <$> u) true)
  | PErr _ => True
  end.

Lemma point_inv_others pt os os' w w' g :
  bridges w' = bridges w -> forwarders w' = forwarders w ->
  (is_Some (channels w !! K) -> is_Some (channels w' !! K)) ->
  (forall rx pre cov, live_inv os w rx pre cov -> live_inv os' w' rx pre cov) ->
  point_inv pt os w g -> point_inv pt os' w' g.
Proof.
  intros Hb Hf Hc Hl. destruct pt; simpl; unfold bridged; rewrite ?Hb, ?Hf; naive_solver.
Qed.

Lemma in_flight_same os w w' : messages w' = messages w -> in_flight os w -> in_flight os w'.
Proof. intros Hm Hfl k e Hin. unfold row_of. rewrite Hm. by apply Hfl. Qed.
Lemma rows_ok_same w w' : messages w' = messages w -> rows_ok w -> rows_ok w'.
Proof. intros Hm Hr. unfold rows_ok. by rewrite Hm. Qed.

(** Any other thread's statement. *)
Lemma others_step {A} pt os j o (p p' : B A) w w' g :
  os !! j = Some o -> plays o p -> pstep p w = Some (p', w') ->
  rows_ok w -> in_flight os w -> point_inv pt os w g ->
  exists o', plays o' p' /\ rows_ok w' /\ in_flight (<[j := o']> os) w' /\ point_inv pt (<[j := o']> os) w' g.
Proof.
  intros Hj Hp Hs Hr Hfl Hpt. destruct p as [|C s k]; [done|]. simpl in Hs, Hp. specialize (Hp w Hr).
  destruct (s w) as [res w1] eqn:Hsw. simpl in Hp.
  destruct Hp as [[Hq Hk]|[(-> & b & r & e & -> & Hins & Hk)|(b & key & e & -> & -> & -> & Hk)]].
  - exists o. rewrite list_insert_id by done.
    assert (w1 = w' /\ plays o p') as [<- Hpl] by (destruct res; simplify_eq; [done|by split]).
    pose proof Hq as (Hm & Hb & Hf & Hch).
    split; [done|]. split; [by eapply rows_ok_same|]. split; [by eapply in_flight_same|].
    eapply point_inv_others; [done|done| |intros ???; by apply live_quiet|done].
    intros [c Hc]. destruct (Hch _ _ Hc) as [-> | ->]; eauto.
  - injection Hs as <- <-. eexists. split; [exact Hk|].
    pose proof (insert_keeps _ _ _ _ Hins) as Hmono. split; [|split].
    + destruct Hins as (Hn & Hd & ->). intros id r' Hr'. simpl in Hr'.
      apply lookup_insert_Some in Hr' as [[<- <-]|[_ Hr']]; [eauto|by apply Hr].
    + intros k' e' [i Hi]%list_elem_of_In%list_elem_of_lookup.
      apply list_lookup_insert_Some in Hi as [(_ & [= <- <-] & _)|[_ Hi]].
      * destruct Hins as (Hn & Hd & ->). exists (mr_id r), r. simpl. by rewrite lookup_insert_eq.
      * eapply row_of_mono; [done|]. apply Hfl, list_elem_of_In, list_elem_of_lookup. eauto.
    + eapply point_inv_others; [..|exact Hpt]; try (by destruct Hins as (_ & _ & ->)).
      intros ???. by apply live_insert.
  - injection Hs as <- <-. exists None. split; [done|]. split; [done|]. split.
    + intros k' e' [i Hi]%list_elem_of_In%list_elem_of_lookup.
      apply list_lookup_insert_Some in Hi as [(_ & ? & _)|[_ Hi]]; [done|].
      apply (Hfl k' e'), list_elem_of_In, list_elem_of_lookup. eauto.
    + apply (point_inv_others pt os _ w); [done|done| |intros ????; by apply live_send|exact Hpt].
      intros Hc. simpl. by rewrite lookup_alter_is_Some.
Qed.

(** ** The subscriber's own statements *)

Lemma decode_all_ok rs :
  Forall (fun r => exists e, decode r = Ok e) rs ->
  exists es, decode_all decode_error rs = Ok es /\
    forall e, In e es <-> exists r, In r rs /\ decode r = Ok e.
Proof.
  induction 1 as [|r rs [e He] _ (es & Hes & Hin)]; simpl.
  - exists []. split; [done|]. intros e. split; [done|]. by intros (r & [] & _).
  - rewrite He. simpl. rewrite Hes. simpl. exists (e :: es). split; [done|].
    intros e'. simpl. rewrite Hin. split.
    + intros [<-|(x & Hx & Hd)]; [by exists r; split; [left|]|by exists x; split; [right|]].
    + intros (x & [<-|Hx] & Hd); [left; congruence|right; eauto].
Qed.

Lemma rows_after_In w r :
  In r (rows_after K cursor (messages w)) <->
  (exists id, messages w !! id = Some r) /\ after_cursor K cursor r = true.
Proof.
  unfold rows_after. rewrite List.filter_In, in_map_iff. split.
  - intros [([id x] & <- & Hin) Ha]. split; [|done]. exists id. by apply elem_of_map_to_list, list_elem_of_In.
  - intros [[id Hid] Ha]. split; [|done]. exists (id, r). split; [done|].
    by apply list_elem_of_In, elem_of_map_to_list.
Qed.

(** What [replay_since] answers. *)
Lemma replay_rows w :
  rows_ok w ->
  exists es, decode_all decode_error (take REPLAY_LIMIT (merge_sort id_le (rows_after K cursor (messages w)))) = Ok es /\
    sound w es /\
    (few w -> forall id r e, messages w !! id = Some r -> after_cursor K cursor r = true ->
       decode r = Ok e -> In e es).
Proof.
  intros Hok. set (rs := rows_after K cursor (messages w)).
  assert (Hin : forall r, In r (take REPLAY_LIMIT (merge_sort id_le rs)) -> In r rs).
  { intros r Hr%list_elem_of_In. apply elem_of_take in Hr as (i & Hi & _).
    apply list_elem_of_In. rewrite <- (merge_sort_Permutation id_le). by eapply list_elem_of_lookup_2. }
  destruct (decode_all_ok (take REPLAY_LIMIT (merge_sort id_le rs))) as (es & Hes & Hiff).
  { apply List.Forall_forall. intros r Hr%Hin%rows_after_In. destruct Hr as [[id Hid] _]. by apply (Hok id). }
  exists es. split; [done|]. split.
  - intros e (r & Hr & Hd)%Hiff. apply Hin, rows_after_In in Hr as [[id Hid] Ha].
    exists id, r. split; [done|]. split; [done|]. unfold after_cursor in Ha.
    by apply andb_true_iff in Ha as [[->%String.eqb_eq ->%String.eqb_eq]%andb_true_iff _].
  - intros Hfew id r e Hr Ha Hd. apply Hiff. exists r. split; [|done].
    rewrite take_ge by (by rewrite merge_sort_Permutation).
    apply list_elem_of_In. rewrite merge_sort_Permutation. apply list_elem_of_In, rows_after_In. eauto.
Qed.

(** One statement of the subscriber. *)
Lemma own_step pt os w g p' w' :
  rows_ok w -> point_inv pt os w g -> pstep (prog_of pt) w = Some (p', w') ->
  messages w' = messages w /\ exists pt', p' = prog_of pt' /\ point_inv pt' os w' g.
Proof.
  intros Hok Hpt Hs. destruct pt as [| |rx|rx brx|rx brx [|e es]|rx brx held|e]; simpl in Hpt.
  - unfold prog_of, subscriber, subscribe in Hs. destruct (String.eqb topic ""); simpl in Hs; [done|].
    destruct Hpt as (Hf & Hb & Hg). injection Hs as <- <-.
    destruct (channels w !! K) as [c|] eqn:Hc; (split; [done|]); exists POpen; (split; [done|]); simpl.
    + rewrite Hc. eauto.
    + rewrite lookup_insert_eq. eauto.
  - destruct Hpt as (Hf & Hb & Hg & [c Hc]). simpl in Hs. rewrite Hc in Hs. injection Hs as <- <-.
    split; [done|]. exists (PJoined (chan_subscribe c).1). split; [done|]. simpl.
    split; [done|]. split; [done|]. split; [done|].
    destruct (subscribe_joined c) as [Hj Hu]. exists (chan_subscribe c).2. simpl. rewrite lookup_insert_eq.
    split; [done|]. split; [done|]. intros ll l. rewrite Hu. intros [= <-] [= <-]. split; [by intros ? []|done].
  - destruct Hpt as (Hf & Hb & Hg & Hl). simpl in Hs. rewrite Hb in Hs. injection Hs as <- <-.
    split; [done|]. exists (PBridge rx (channel capacity).1). split; [done|]. simpl.
    split; [done|]. split; [done|]. destruct (channel_unread capacity) as [Hj Hu].
    exists (channel capacity).2. split; [done|]. split; [done|]. split; [done|].
    destruct Hl as (c & ?). by exists c.
  - destruct Hpt as (Hf & Hg & bc & Hb & Hj & Hu & c & Hc & Hjc & Hinv). simpl in Hs.
    destruct (replay_rows w Hok) as (es & Hes & Hso & Hall). rewrite Hes in Hs. injection Hs as <- <-.
    split; [done|]. exists (PFill rx brx es). split; [done|]. simpl. split; [done|]. split; [done|].
    exists bc. split; [done|]. split; [done|]. rewrite Hu. exists c. split; [done|]. split; [done|].
    intros ll l Hll [= <-]. destruct (Hinv _ _ Hll eq_refl) as [Hs _]. simpl in Hs. split.
    + intros x [Hx|Hx]%in_app_iff; auto.
    + intros _ Hfew id r e Hr Ha Hd. right. apply in_app_iff. left. by eapply Hall.
  - destruct Hpt as (Hf & -> & bc & Hb & Hj & Hl). simpl in Hs. injection Hs as <- <-.
    split; [done|]. exists (PDone rx brx None). split; [done|]. simpl. rewrite Hf.
    split; [done|]. exists bc. split; [done|]. split; [done|]. exact Hl.
  - destruct Hpt as (Hf & -> & bc & Hb & Hj & c & Hc & Hjc & Hinv). simpl in Hs. injection Hs as <- <-.
    split; [done|]. exists (PFill rx brx es). split; [done|]. simpl. split; [done|]. split; [done|].
    destruct (send_unread bc brx e Hj) as [Hj' Hu]. exists (chan_send e bc). rewrite Hb.
    split; [done|]. split; [done|]. exists c. split; [done|]. split; [done|].
    intros ll l Hll Hl. destruct (unread brx (chan_send e bc)) as [lb|] eqn:Hlb; [|done].
    destruct (Hu _ eq_refl) as (l0 & Hl0 & ->). injection Hl as <-. rewrite Hl0 in Hinv.
    rewrite <- (app_assoc l0 [e] es). exact (Hinv ll _ Hll eq_refl).
  - done.
  - done.
Qed.

(** ** The whole system *)

Definition sys_inv (s : Sys) : Prop :=
  exists pt os rest, pool s = prog_of pt :: rest /\ Forall2 plays os rest /\ rows_ok (world s) /\
    in_flight os (world s) /\ point_inv pt os (world s) (got s).

Lemma inv_thread pool w g pool' w' :
  sys_inv (mkSys pool w g) -> istep (pool, w) (pool', w') -> sys_inv (mkSys pool' w' g).
Proof.
  intros (pt & os & rest & Hp & Hpl & Hok & Hfl & Hpt) Hs. simpl in *.
  inversion Hs as [? ? i p p' ? Hi Hst]; subst. destruct i as [|j]; simpl in *.
  - injection Hi as <-. destruct (own_step _ _ _ _ _ _ Hok Hpt Hst) as (Hm & pt' & -> & Hpt').
    exists pt', os, rest. split; [done|]. split; [done|]. split; [by eapply rows_ok_same|].
    split; [by eapply in_flight_same|done].
  - destruct (Forall2_lookup_r _ _ _ _ _ Hpl Hi) as (o & Hoj & Hpo).
    destruct (others_step pt os j o p p' w w' g Hoj Hpo Hst Hok Hfl Hpt) as (o' & Hpo' & Hok' & Hfl' & Hpt').
    exists pt, (<[j := o']> os), (<[j := p']> rest). split; [done|]. split; [by apply Forall2_insert|done].
Qed.

(** Moving the head of one queue of the stream to the end of the one before. *)
Lemma inv_forward_recv pool w g i f c item c' :
  forwarders w !! i = Some f -> fw_held f = None -> channels w !! fw_key f = Some c ->
  chan_recv (fw_rx f) c = (item, c') -> sys_inv (mkSys pool w g) ->
  sys_inv (mkSys pool (set_channels (<[fw_key f := c']> (channels w))
    (set_forwarders (<[i := mkForwarder (fw_key f) (fw_rx f) (fw_bridge f)
       match item with Some (RecvMsg e) => Some e | _ => None end]> (forwarders w)) w)) g).
Proof.
  intros Hf Hh Hc Hr (pt & os & rest & Hp & Hpl & Hok & Hfl & Hpt). simpl in *.
  destruct pt as [| |rx|rx brx|rx brx es|rx brx held|e]; simpl in Hpt;
    try (rewrite (proj1 Hpt) in Hf; done).
  - destruct Hpt as (Hfw & bc & Hb & Hj & c0 & Hc0 & Hjc & Hinv). rewrite Hfw in Hf.
    destruct i as [|i]; [|done]. injection Hf as <-. simpl in *. subst held.
    assert (c0 = c) as -> by congruence.
    destruct (recv_unread c rx Hjc) as [Hjc' Hu]. rewrite Hr in Hjc', Hu. simpl in Hjc', Hu.
    exists (PDone rx brx match item with Some (RecvMsg e) => Some e | _ => None end), os, rest.
    split; [done|]. split; [done|]. split; [done|]. split; [done|]. simpl. rewrite Hfw. split; [done|].
    exists bc. split; [done|]. split; [done|]. exists c'. simpl. rewrite lookup_insert_eq.
    split; [done|]. split; [done|]. intros ll l Hll Hl. specialize (Hu _ Hll).
    destruct (unread brx bc) as [lb|] eqn:Hlb; [|done]. injection Hl as <-.
    destruct item as [[e|]|]; [|done|]; specialize (Hinv _ _ Hu eq_refl); [|exact Hinv].
    simpl in Hinv |- *. rewrite app_nil_r in Hinv. by rewrite (app_assoc g), <- (app_assoc _ [e] ll).
  - by exists (PErr e), os, rest.
Qed.

Lemma inv_forward_send pool w g i f e :
  forwarders w !! i = Some f -> fw_held f = Some e -> sys_inv (mkSys pool w g) ->
  sys_inv (mkSys pool (set_bridges (alter (chan_send e) (fw_bridge f) (bridges w))
    (set_forwarders (<[i := mkForwarder (fw_key f) (fw_rx f) (fw_bridge f) None]> (forwarders w)) w)) g).
Proof.
  intros Hf Hh (pt & os & rest & Hp & Hpl & Hok & Hfl & Hpt). simpl in *.
  destruct pt as [| |rx|rx brx|rx brx es|rx brx held|x]; simpl in Hpt;
    try (rewrite (proj1 Hpt) in Hf; done).
  - destruct Hpt as (Hfw & bc & Hb & Hj & c & Hc & Hjc & Hinv). rewrite Hfw in Hf.
    destruct i as [|i]; [|done]. injection Hf as <-. simpl in *. subst held.
    destruct (send_unread bc brx e Hj) as [Hj' Hu].
    exists (PDone rx brx None), os, rest.
    split; [done|]. split; [done|]. split; [done|]. split; [done|]. simpl. rewrite Hfw. split; [done|].
    exists (chan_send e bc). rewrite Hb. split; [done|]. split; [done|]. exists c.
    split; [done|]. split; [done|]. intros ll l Hll Hl.
    destruct (unread brx (chan_send e bc)) as [lb|] eqn:Hlb; [|done]. injection Hl as <-.
    destruct (Hu _ eq_refl) as (l0 & Hl0 & ->). rewrite Hl0 in Hinv. specialize (Hinv _ _ Hll eq_refl).
    simpl in Hinv |- *. by rewrite app_nil_r.
  - by exists (PErr x), os, rest.
Qed.

Lemma answer_point pt b rx :
  answer (prog_of pt) = Some (Ok (Some (RxBridge b rx))) -> b = 0%nat /\ exists rx' held, pt = PDone rx' rx held.
Proof.
  destruct pt as [| |rx'|rx' brx|rx' brx [|e es]|rx' brx held|x]; simpl; try done.
  - unfold subscriber, subscribe. by destruct (String.eqb topic "").
  - intros [= <- <-]. eauto.
Qed.

Lemma inv_client pool w g p b rx c item c' :
  pool !! 0%nat = Some p -> answer p = Some (Ok (Some (RxBridge b rx))) -> bridges w !! b = Some c ->
  chan_recv rx c = (item, c') -> sys_inv (mkSys pool w g) ->
  sys_inv (mkSys pool (set_bridges (<[b := c']> (bridges w)) w)
    match item with Some (RecvMsg e) => g ++ [e] | _ => g end).
Proof.
  intros H0' Ha Hc Hr (pt & os & rest & Hp & Hpl & Hok & Hfl & Hpt). simpl in *. subst pool.
  injection H0' as <-. apply answer_point in Ha as (-> & rx' & held & ->).
  destruct Hpt as (Hfw & bc & Hb & Hj & ch & Hch & Hjc & Hinv). rewrite Hb in Hc. injection Hc as <-.
  destruct (recv_unread bc rx Hj) as [Hj' Hu]. rewrite Hr in Hj', Hu. simpl in Hj', Hu.
  exists (PDone rx' rx held), os, rest. split; [done|]. split; [done|]. split; [done|]. split; [done|].
  simpl. split; [done|]. exists c'. rewrite Hb. split; [done|]. split; [done|]. exists ch.
  split; [done|]. split; [done|]. intros ll l Hll Hl.
  destruct (unread rx c') as [lb|] eqn:Hlb; [|done]. injection Hl as <-. specialize (Hu _ eq_refl).
  destruct item as [[e|]|]; [|done|]; rewrite Hu in Hinv; specialize (Hinv _ _ Hll eq_refl); [|exact Hinv].
  simpl in Hinv |- *. by rewrite <- (app_assoc g [e]).
Qed.

Lemma inv_step s s' : sys_inv s -> sys_step s s' -> sys_inv s'.
Proof.
  intros Hi Hs. destruct Hs.
  - by eapply inv_thread.
  - by eapply inv_forward_recv.
  - by eapply inv_forward_send.
  - by eapply inv_client.
Qed.
End stream.

(** A broker that was just started: rows of earlier runs, no channels. *)
Record just_started (w : BWorld) : Prop := {
  js_rows : rows_ok w;
  js_channels : channels w = ∅; js_bridges : bridges w = []; js_forwarders : forwarders w = []
}.

(** What the client has, and what is on its way to it: on the bridge, in the
    hands of the task, on the live channel. *)
Definition stream (s : Sys) (lb ll : list Envelope) (held : option Envelope) : list Envelope :=
  got s ++ lb ++ option_list held ++ ll.

End delivery.
