(* ===== verification/BrokerDemo.v ===== *)
(** * Concrete broker runs

    A broadcast channel with bounded queues that keeps the documented laws, a
    witness for the delivery theorem, and schedules in which a subscriber sees a
    message twice, or resumes from a cursor and misses one. *)

From S2P Require Import Prelude Str Json Core Policy Storage Prog Broker BrokerInv.
#[local] Open Scope string_scope.
#[local] Open Scope list_scope.
#[local] Open Scope Z_scope.

(** ** A bounded channel *)

(** A receiver's queue; [rq_skip]: its next call reports the lag; [rq_lost]: it
    has lagged at some time. *)
Record RQueue := mkRQueue { rq_items : list Envelope; rq_skip : bool; rq_lost : bool }.
Record LChan := mkLChan { lc_capacity : nat; lc_queues : list RQueue }.

Definition push (cap : nat) (e : Envelope) (q : RQueue) : RQueue :=
  if (length (rq_items q) <? cap)%nat then mkRQueue (rq_items q ++ [e]) (rq_skip q) (rq_lost q)
  else mkRQueue (tail (rq_items q ++ [e])) true true.
Definition pop (q : RQueue) : option Recv * RQueue :=
  if rq_skip q then (Some RecvLagged, mkRQueue (rq_items q) false true)
  else match rq_items q with
       | [] => (None, q)
       | e :: es => (Some (RecvMsg e), mkRQueue es false (rq_lost q))
       end.
Definition fresh_queue : RQueue := mkRQueue [] false false.

#[local] Instance bounded : Broadcast := {|
  chan := LChan;
  channel n := (0%nat, mkLChan (Z.to_nat n) [fresh_queue]);
  chan_subscribe c := (length (lc_queues c), mkLChan (lc_capacity c) (lc_queues c ++ [fresh_queue]));
  chan_send e c := mkLChan (lc_capacity c) (map (push (lc_capacity c) e) (lc_queues c));
  chan_recv rx c :=
    match lc_queues c !! rx with
    | Some q => ((pop q).1, mkLChan (lc_capacity c) (<[rx := (pop q).2]> (lc_queues c)))
    | None => (None, c)
    end
|}.

Definition queue_unread (q : RQueue) : option (list Envelope) :=
  if rq_lost q || rq_skip q then None else Some (rq_items q).
Definition list_unread (rx : nat) (c : chan) : option (list Envelope) := lc_queues c !! rx ≫= queue_unread.
Definition list_joined (rx : nat) (c : chan) : Prop := (rx < length (lc_queues c))%nat.

Lemma list_subscribe_joined c :
  list_joined (chan_subscribe c).1 (chan_subscribe c).2 /\
  list_unread (chan_subscribe c).1 (chan_subscribe c).2 = Some [].
Proof.
  unfold list_joined, list_unread. simpl. rewrite length_app. simpl. split; [lia|].
  by rewrite lookup_app_r, Nat.sub_diag by lia.
Qed.

Lemma list_subscribe_other c rx :
  list_joined rx c ->
  list_joined rx (chan_subscribe c).2 /\ list_unread rx (chan_subscribe c).2 = list_unread rx c.
Proof.
  unfold list_joined, list_unread. simpl. intros Hj. rewrite length_app. split; [lia|].
  by rewrite lookup_app_l.
Qed.

Lemma list_send_unread c rx e :
  list_joined rx c ->
  list_joined rx (chan_send e c) /\
  forall l, list_unread rx (chan_send e c) = Some l ->
    exists l0, list_unread rx c = Some l0 /\ l = l0 ++ [e].
Proof.
  unfold list_joined, list_unread. simpl. intros Hj. rewrite length_map. split; [done|].
  intros l. rewrite list_lookup_fmap. destruct (lc_queues c !! rx) as [[items skip lost]|]; [|done]. simpl.
  unfold push, queue_unread. simpl. destruct (_ <? _)%nat; [|done]. simpl.
  destruct (lost || skip); [done|]. intros [= <-]. eauto.
Qed.

Lemma list_recv_unread c rx :
  list_joined rx c ->
  list_joined rx (chan_recv rx c).2 /\
  forall l, list_unread rx (chan_recv rx c).2 = Some l ->
    match (chan_recv rx c).1 with
    | Some (RecvMsg e) => list_unread rx c = Some (e :: l)
    | Some RecvLagged => False
    | None => list_unread rx c = Some l
    end.
Proof.
  unfold list_joined, list_unread. simpl. intros Hj.
  destruct (lookup_lt_is_Some_2 _ _ Hj) as [[items skip lost] Hq]. rewrite Hq. simpl.
  rewrite length_insert. split; [done|]. intros l. rewrite list_lookup_insert_eq by done. simpl.
  unfold queue_unread. simpl. destruct skip; simpl; [done|].
  destruct items as [|e items]; simpl; destruct lost; simpl; congruence.
Qed.

#[local] Instance bounded_laws : BroadcastLaws := {|
  joined := list_joined; unread := list_unread;
  channel_unread n := conj (le_n 1) eq_refl;
  subscribe_joined := list_subscribe_joined; subscribe_other := list_subscribe_other;
  send_unread := list_send_unread; recv_unread := list_recv_unread
|}.

(** ** Runs *)

(** Payloads are null, written as such. *)
#[local] Instance null_codec : SerdeJson :=
  Build_SerdeJson (fun s => if String.eqb s "null" then Some JNull else None) demo_print.
Definition ids (n : nat) : result string string := Ok (show_Z (Z.of_nat n)).
Definition stamps (n : nat) : string := show_Z (Z.of_nat n).
#[local] Notation code := (code ids stamps (fun s => s) 256).
#[local] Notation subscriber := (subscriber (fun s => s) 256 "ws" "t").

Definition post : Call := CPublish "ws" "t" JNull.
Definition start : BWorld := mkBWorld ∅ {["ws"]} ∅ [] [] 0 0.

(** What the client of thread 0 would receive, in order, and all ids stored. *)
Definition run (sched : list nat) (p0 : prog BWorld ActantError (option Receiver)) (calls : list Call) (w : BWorld) :=
  run_schedule sched (p0 :: map code calls) w.
Definition on_bridge (w : BWorld) : list string :=
  flat_map (fun c => flat_map (fun q => map en_id (rq_items q)) (lc_queues c)) (bridges w).
Definition on_live (w : BWorld) : list string :=
  flat_map (fun kv : Key * chan => flat_map (fun q => map en_id (rq_items q)) (tail (lc_queues kv.2)))
    (map_to_list (channels w)).

Lemma thread_steps pool w pool' w' g :
  rtc istep (pool, w) (pool', w') -> rtc sys_step (mkSys pool w g) (mkSys pool' w' g).
Proof.
  intros Hr. remember (pool, w) as a eqn:Ha. remember (pool', w') as z eqn:Hz.
  revert pool w Ha. induction Hr as [|a [pool1 w1] z Hs Hr IH]; intros pool w ->; simplify_eq; [done|].
  eapply rtc_l; [by apply step_thread|by apply IH].
Qed.

(** One message is stored before the subscription reads the rows, the other is
    sent on the live channel; the client gets both. *)
Definition interleaved : list nat := [1; 1; 1; 1; 0; 0; 0; 0; 2; 2; 2; 2; 0; 0; 0]%nat.
Definition watched : list (prog BWorld ActantError (option Receiver)) * BWorld :=
  run interleaved (subscriber "") [post; post] start.

Lemma watched_answers :
  answer <$> watched.1 = [Some (Ok (Some (RxBridge 0 0))); Some (Ok None); Some (Ok None)] /\
  on_bridge watched.2 = ["psm_0"] /\ on_live watched.2 = ["psm_1"].
Proof. vm_compute. auto. Qed.

Lemma watched_run : rtc istep (subscriber "" :: map code [post; post], start) watched.
Proof. unfold watched, run. apply run_schedule_steps. Qed.


(** The publisher has stored its row when the subscriber reads, and sends it
    after: the message is on the bridge and on the live channel. *)
Example message_delivered_twice :
  let w := (run [1; 1; 1; 0; 0; 0; 0; 1; 0; 0]%nat (subscriber "") [post] start).2 in
  (on_bridge w, on_live w) = (["psm_0"], ["psm_0"]).
Proof. vm_compute. reflexivity. Qed.

(** Ids are drawn before rows are written: message 1 is stored and seen first.  A
    client that comes back with the cursor it has seen never gets message 0,
    which was stored and sent while it was away. *)
Example resuming_misses_a_message :
  let away := (run [1; 2; 2; 2; 2; 1; 1; 1]%nat (raise (Internal "away")) [post; post] start).2 in
  let back := (run [0; 0; 0; 0; 0; 0]%nat (subscriber "psm_1") [] away).2 in
  (map fst (map_to_list (messages back)), on_bridge back, on_live back) = (["psm_1"; "psm_0"], [], []).
Proof. vm_compute. reflexivity. Qed.
