(* ===== verification/AuditExport.v ===== *)
(** * Audit export and retention ([actant-audit-export/src/lib.rs])

    Dumping a workspace's events as JSON lines, and purging those a retention
    policy gives up.  Reading RFC 3339 and the wall clock are parameters; a write
    may fail, and a DELETE fails when another row refers to the event. *)

From S2P Require Import Prelude Str Json Core Storage Effects Chain.
#[local] Open Scope string_scope.
#[local] Open Scope list_scope.
#[local] Open Scope Z_scope.

Record RetentionPolicy := mkRetentionPolicy { keep_days : Z; always_keep_at_least : Sensitivity }.
Definition default_policy : RetentionPolicy := mkRetentionPolicy 365 SHigh.

(** Instants in nanoseconds: what a text of RFC 3339 denotes, the readings of
    [now_utc()], and the earliest one there is, before which subtraction panics. *)
Class Instants := { instant_of : string -> option Z; utc : nat -> Z; earliest : Z }.
Definition day : Z := 86400 * 1000000000.

(** The sensitivity column as text, and how the purge reads it. *)
Definition parse_sensitivity (s : string) : Sensitivity :=
  if String.eqb s "public" then Public
  else if String.eqb s "low" then SLow
  else if String.eqb s "medium" then SMedium
  else if String.eqb s "high" then SHigh
  else if String.eqb s "secret" then Secret
  else if String.eqb s "regulated" then Regulated
  else SLow.
Lemma parse_sensitivity_json s : parse_sensitivity (sensitivity_json s) = s.
Proof. by destruct s. Qed.

Inductive AuditError := Failed (e : ActantError) | Panicked.
#[local] Abbreviation A_ X := (M World AuditError X).
Definition db {X} (m : DB X) : A_ X :=
  fun w => match m w with (Ok a, w') => (Ok a, w') | (Err e, w') => (Err (Failed e), w') end.

Section audit.
Context `{SerdeJson} `{RowOrder} `{Instants}.

(** Ids of events that rows of other tables refer to: workflow runs, replay
    checkpoints and diffs, audit events, interventions. *)
Context (referred : gset string).

(** ** Retention *)

(** [should_retain] at the instant [now]. *)
Definition retained_at (now : Z) (p : RetentionPolicy) (created_at : string) (sens : Sensitivity) : bool :=
  (rank (always_keep_at_least p) <=? rank sens) ||
  match instant_of created_at with
  | None => true
  | Some t => now - keep_days p * day <=? t
  end.
(** The clock is only read for a row that is not kept for its sensitivity and has
    an instant. *)
Definition should_retain (p : RetentionPolicy) (created_at : string) (sens : Sensitivity) : A_ bool :=
  fun w =>
    if rank (always_keep_at_least p) <=? rank sens then (Ok true, w)
    else match instant_of created_at with
         | None => (Ok true, w)
         | Some _ =>
             let now := utc (time w) in
             (if now - keep_days p * day <? earliest then Err Panicked
              else Ok (retained_at now p created_at sens), mkWorld (ledger w) (seq w) (S (time w)))
         end.

(** ** Purge *)

Definition child_of (id : string) (r : EventRow) : bool :=
  bool_decide (ev_parent_event_id (er_event r) = Some id) && negb (String.eqb (ev_id (er_event r)) id).
Definition referenced (id : string) (l : Ledger) : bool :=
  bool_decide (id ∈ referred) || List.existsb (child_of id) (map snd (map_to_list (events l))).
(** [DELETE FROM agent_event WHERE id = ?]. *)
Definition delete_event (id : string) : DB unit :=
  l ← read (fun l => l);
  if has (events l) id && referenced id l then throw fk_failed
  else with_ledger (set_events (delete id (events l))).

Definition in_workspace (ws : string) (r : EventRow) : bool := String.eqb (ev_workspace_id (er_event r)) ws.
Fixpoint purge_rows (p : RetentionPolicy) (rs : list EventRow) (purged : nat) : A_ nat :=
  match rs with
  | [] => mret purged
  | r :: rs' =>
      let e := er_event r in
      keep ← should_retain p (ev_created_at e) (parse_sensitivity (sensitivity_json (ev_sensitivity e)));
      if (keep : bool) then purge_rows p rs' purged
      else db (delete_event (ev_id e));; purge_rows p rs' (S purged)
  end.
Definition purge_by_policy (ws : string) (p : RetentionPolicy) : A_ nat :=
  rs ← db (read (fun l => List.filter (in_workspace ws) (rows (events l))));
  purge_rows p rs 0.

(** What a purge may do to the table: only rows of the list that the policy gives
    up, at some reading of the clock from the start on, go away. *)
Definition given_up (p : RetentionPolicy) (from to : nat) (r : EventRow) : Prop :=
  exists n, (from <= n < to)%nat /\
    retained_at (utc n) p (ev_created_at (er_event r)) (ev_sensitivity (er_event r)) = false.

Lemma should_retain_inv p created sens w r w' :
  should_retain p created sens w = (r, w') ->
  ledger w' = ledger w /\ (time w <= time w' <= S (time w))%nat /\ seq w' = seq w /\
  match r with
  | Ok keep => keep = true \/ (keep = false /\ time w' = S (time w) /\ retained_at (utc (time w)) p created sens = false)
  | Err err => err = Panicked
  end.
Proof.
  unfold should_retain. destruct (rank _ <=? rank sens); [intros [= <- <-]; split; [done|]; split; [lia|]; auto|].
  destruct (instant_of created); [|intros [= <- <-]; split; [done|]; split; [lia|]; auto].
  destruct (_ <? earliest); intros [= <- <-]; simpl; (split; [done|]; split; [lia|]; split; [done|]); [done|].
  destruct (retained_at _ _ _ _) eqn:Hr; auto.
Qed.

Lemma delete_event_inv id w r w' :
  db (delete_event id) w = (r, w') ->
  time w' = time w /\ seq w' = seq w /\
  match r with
  | Ok _ => ledger w' = set_events (delete id (events (ledger w))) (ledger w) /\
            (has (events (ledger w)) id = true -> referenced id (ledger w) = false)
  | Err err => err = Failed fk_failed /\ ledger w' = ledger w
  end.
Proof.
  unfold db, delete_event. unfold mbind, M_bind. simpl.
  destruct (has _ id), (referenced id _); simpl; intros [= <- <-]; simpl; repeat split; congruence.
Qed.

Definition without (gone : list EventRow) (m : gmap string EventRow) : gmap string EventRow :=
  fold_left (fun m r => delete (row_id r) m) gone m.
(** Some reading of the clock during the purge keeps the row. *)
Definition kept_by (p : RetentionPolicy) (from to : nat) (r : EventRow) : Prop :=
  exists n, (from <= n <= to)%nat /\
    retained_at (utc n) p (ev_created_at (er_event r)) (ev_sensitivity (er_event r)) = true.

Lemma retained_always p created sens now :
  (rank (always_keep_at_least p) <=? rank sens) = true \/ instant_of created = None ->
  retained_at now p created sens = true.
Proof. unfold retained_at. intros [-> | ->]; [done|apply orb_true_r]. Qed.

Lemma should_retain_kept p r w w' keep :
  should_retain p (ev_created_at (er_event r)) (parse_sensitivity (sensitivity_json (ev_sensitivity (er_event r)))) w
    = (Ok keep, w') ->
  ledger w' = ledger w /\ (time w <= time w')%nat /\
  if keep then kept_by p (time w) (time w') r else given_up p (time w) (time w') r.
Proof.
  rewrite parse_sensitivity_json. unfold should_retain, kept_by, given_up.
  destruct (rank _ <=? rank (ev_sensitivity (er_event r))) eqn:Hs.
  { intros [= <- <-]. split; [done|]. split; [lia|]. exists (time w). split; [lia|]. apply retained_always. auto. }
  destruct (instant_of (ev_created_at (er_event r))) eqn:Hi.
  2:{ intros [= <- <-]. split; [done|]. split; [lia|]. exists (time w). split; [lia|]. apply retained_always. auto. }
  destruct (_ <? earliest); [done|]. intros [= <- <-]. simpl. split; [done|]. split; [lia|].
  destruct (retained_at _ _ _ _) eqn:Hr; exists (time w); (split; [lia|done]).
Qed.

Lemma given_up_wider p a b a' b' r : (a' <= a)%nat -> (b <= b')%nat -> given_up p a b r -> given_up p a' b' r.
Proof. intros ? ? (n & ? & ?). exists n. split; [lia|done]. Qed.
Lemma kept_by_wider p a b a' b' r : (a' <= a)%nat -> (b <= b')%nat -> kept_by p a b r -> kept_by p a' b' r.
Proof. intros ? ? (n & ? & ?). exists n. split; [lia|done]. Qed.

(** A run of the loop: the rows it gave up are gone, the rest is as it was. *)
Definition purged_run (p : RetentionPolicy) (rs : list EventRow) (n : nat) (w : World)
    (r : result AuditError nat) (w' : World) : Prop :=
  (time w <= time w')%nat /\
  exists gone kept,
    ledger w' = set_events (without gone (events (ledger w))) (ledger w) /\
    Forall (given_up p (time w) (time w')) gone /\ incl gone rs /\
    match r with
    | Ok m => m = (n + length gone)%nat /\ Permutation (gone ++ kept) rs /\
              Forall (kept_by p (time w) (time w')) kept
    | Err err => err = Panicked \/ err = Failed fk_failed
    end.

Lemma purge_rows_run p rs n w r w' : purge_rows p rs n w = (r, w') -> purged_run p rs n w r w'.
Proof.
  revert n w. induction rs as [|x rs IH]; intros n w Hp.
  { injection Hp as <- <-. split; [lia|]. exists [], []. simpl. rewrite set_events_id.
    repeat split; try done; try constructor. apply incl_refl. }
  apply M_bind_inv in Hp as [(err & Hs & ->)|(keep & w1 & Hs & Hp)].
  { apply should_retain_inv in Hs as (Hl & Ht & _ & ->). split; [lia|]. exists [], [].
    rewrite Hl. simpl. rewrite set_events_id. (split; [done|]; split; [constructor|]; split; [apply incl_nil_l|auto]). }
  apply should_retain_kept in Hs as (Hl & Ht & Hk). destruct keep.
  - apply IH in Hp as (Ht' & gone & kept & He & Hg & Hi & Hr). split; [lia|]. exists gone, (x :: kept).
    rewrite He, Hl. split; [done|]. split; [|split; [by apply incl_tl|]].
    + eapply Forall_impl; [exact Hg|]. intros y. apply given_up_wider; lia.
    + destruct r as [m|]; [|done]. destruct Hr as (-> & Hperm & Hkept). split; [done|]. split.
      * rewrite <- Hperm. symmetry. apply Permutation_middle.
      * constructor; [eapply kept_by_wider; [| |exact Hk]; lia|].
        eapply Forall_impl; [exact Hkept|]. intros y. apply kept_by_wider; lia.
  - apply M_bind_inv in Hp as [(err & Hd & ->)|([] & w2 & Hd & Hp)]; apply delete_event_inv in Hd as (Ht2 & _ & Hd).
    + destruct Hd as [-> Hd]. split; [lia|]. exists [], []. rewrite Hd, Hl. simpl. rewrite set_events_id.
      split; [done|]. split; [constructor|]. split; [apply incl_nil_l|auto].
    + destruct Hd as [Hd _]. apply IH in Hp as (Ht' & gone & kept & He & Hg & Hi & Hr). split; [lia|].
      exists (x :: gone), kept. rewrite He, Hd, Hl. split; [by destruct (ledger w)|]. split; [|split].
      * constructor; [eapply given_up_wider; [| |exact Hk]; lia|].
        eapply Forall_impl; [exact Hg|]. intros y. apply given_up_wider; lia.
      * intros y [<-|Hy]; [by left|right; by apply Hi].
      * destruct r as [m|]; [|done]. destruct Hr as (-> & Hperm & Hkept). split; [simpl; lia|].
        split; [simpl; by constructor|]. eapply Forall_impl; [exact Hkept|]. intros y. apply kept_by_wider; lia.
Qed.

Lemma without_lookup gone m k :
  without gone m !! k = if List.existsb (fun r => String.eqb (row_id r) k) gone then None else m !! k.
Proof.
  unfold without. revert m. induction gone as [|r gone IH]; intros m; simpl; [done|]. rewrite IH.
  destruct (String.eqb_spec (row_id r) k) as [->|Hne]; simpl.
  - rewrite lookup_delete_eq. by destruct (List.existsb _ gone).
  - by rewrite lookup_delete_ne.
Qed.

Lemma without_size gone m :
  List.NoDup (List.map row_id gone) -> (forall r, In r gone -> is_Some (m !! row_id r)) ->
  size m = (size (without gone m) + length gone)%nat.
Proof.
  unfold without. revert m. induction gone as [|r gone IH]; intros m Hnd Hin; simpl; [lia|].
  apply List.NoDup_cons_iff in Hnd as [Hni Hnd]. destruct (Hin r (or_introl eq_refl)) as [x Hx].
  assert (Hs : size (delete (row_id r) m)
    = (size (fold_left (fun m r => delete (row_id r) m) gone (delete (row_id r) m)) + length gone)%nat).
  { apply IH; [done|]. intros y Hy. rewrite lookup_delete_ne; [apply Hin; by right|]. intros He. apply Hni.
    rewrite He. by apply List.in_map. }
  rewrite map_size_delete, Hx in Hs. assert (size m <> 0)%nat.
  { apply map_size_non_empty_iff. intros ->. by rewrite lookup_empty in Hx. }
  lia.
Qed.

(** C33: A purge takes away only events of its workspace that the policy gives up
    at some reading of the clock during the purge, whether it ends or fails on an
    event other rows refer to, and changes nothing else.  When it ends, it answers
    how many it took, and every event of the workspace that is left was kept by the
    policy at such a reading. *)
Theorem purge_spec (ws : string) (p : RetentionPolicy) (w w' : World) (r : result AuditError nat) :
  keyed (ledger w) -> purge_by_policy ws p w = (r, w') ->
  only_events (ledger w) (ledger w') /\
  (forall k, events (ledger w') !! k = events (ledger w) !! k \/
     (events (ledger w') !! k = None /\ exists row, events (ledger w) !! k = Some row /\
        ev_workspace_id (er_event row) = ws /\ given_up p (time w) (time w') row)) /\
  forall n, r = Ok n ->
    size (events (ledger w)) = (size (events (ledger w')) + n)%nat /\
    forall k row, events (ledger w') !! k = Some row -> ev_workspace_id (er_event row) = ws ->
      kept_by p (time w) (time w') row.
Proof.
  intros Hk Hp. unfold purge_by_policy, db, mbind, M_bind in Hp. simpl in Hp.
  set (rs := List.filter (in_workspace ws) (rows (events (ledger w)))) in *.
  apply purge_rows_run in Hp as (Ht & gone & kept & He & Hg & Hi & Hr).
  assert (Hrow : forall x, In x rs -> events (ledger w) !! row_id x = Some x /\ ev_workspace_id (er_event x) = ws).
  { intros x [Hx Hw]%List.filter_In. split; [by apply keyed_row|]. by apply String.eqb_eq in Hw. }
  rewrite He, events_set. split; [unfold only_events; by rewrite events_set|]. split.
  - intros k. rewrite without_lookup. destruct (List.existsb _ gone) eqn:Hx; [right|by left]. split; [done|].
    apply List.existsb_exists in Hx as (x & Hx & Hkx). apply String.eqb_eq in Hkx as <-.
    destruct (Hrow x) as [? ?]; [by apply Hi|]. exists x. split; [done|]. split; [done|].
    rewrite List.Forall_forall in Hg. by apply Hg.
  - intros n ->. destruct Hr as (-> & Hperm & Hkept). split.
    + apply without_size; [|intros x Hx; destruct (Hrow x) as [-> _]; [by apply Hi|done]].
      pose proof (keyed_rows_nodup (in_workspace ws) (ledger w) Hk) as Hnd. fold rs in Hnd.
      rewrite <- Hperm, List.map_app in Hnd. by apply List.NoDup_app_remove_r in Hnd.
    + intros k row. rewrite without_lookup. destruct (List.existsb _ gone) eqn:Hx; [done|]. intros Hl Hw.
      assert (Hin : In row rs).
      { apply List.filter_In. split; [|by apply String.eqb_eq]. rewrite rows_perm. apply List.in_map_iff.
        exists (k, row). split; [done|]. by apply list_elem_of_In, elem_of_map_to_list. }
      rewrite <- Hperm in Hin. apply in_app_or in Hin as [Hin|Hin].
      * exfalso. assert (Hy : List.existsb (fun r => String.eqb (row_id r) k) gone = true).
        { apply List.existsb_exists. exists row. split; [done|]. unfold row_id. rewrite (Hk _ _ Hl). by apply String.eqb_eq. }
        congruence.
      * rewrite List.Forall_forall in Hkept. by apply Hkept.
Qed.

(** ** Export *)

(** Whether the [n]th write to an output fails, and what of it is written then. *)
Context (write_fails : nat -> option string) (write_torn : nat -> string -> string).
Record Sink := mkSink { base : World; out : string; writes : nat }.
#[local] Abbreviation X_ Y := (M Sink ActantError Y).

Definition line (e : AgentEvent) : Json :=
  jobj [("id", JString (ev_id e)); ("actor", JString (ev_actor_id e)); ("event_type", JString (ev_event_type e));
        ("payload", match ev_payload_inline e with Some p => JString p | None => JNull end);
        ("sensitivity", JString (sensitivity_json (ev_sensitivity e))); ("created_at", JString (ev_created_at e))].
Definition line_text (e : AgentEvent) : string := to_string (line e) +:+ String "010" "".

Definition writeln (text : string) : X_ unit :=
  fun s => match write_fails (writes s) with
           | Some msg => (Err (Storage msg), mkSink (base s) (out s +:+ write_torn (writes s) text) (S (writes s)))
           | None => (Ok tt, mkSink (base s) (out s +:+ text) (S (writes s)))
           end.
(** [created_at >= from AND created_at < to], as texts. *)
Definition in_window (ws : string) (from to : option string) (e : AgentEvent) : bool :=
  String.eqb (ev_workspace_id e) ws
  && match from with Some t => cmp_le (cmp:=String.compare) t (ev_created_at e) | None => true end
  && match to with Some t => cmp_lt (cmp:=String.compare) (ev_created_at e) t | None => true end.
Fixpoint write_lines (es : list EventRow) (n : nat) : X_ nat :=
  match es with
  | [] => mret n
  | r :: es' => writeln (line_text (er_event r));; write_lines es' (S n)
  end.
Definition export_window (ws : string) (from to : option string) : X_ nat :=
  fun s => write_lines (select_events (in_window ws from to) (ledger (base s))) 0 s.
Definition export_workspace (ws : string) : X_ nat := export_window ws None None.

(** One output per workspace that is not archived; [chunk_factory] opens it. *)
Fixpoint export_all (chunk_factory : string -> result ActantError unit) (l : World) (ids : list string)
    (chunks : list (string * string)) (totals : list (string * nat)) :
    result ActantError (list (string * nat)) * list (string * string) :=
  match ids with
  | [] => (Ok totals, chunks)
  | id :: ids' =>
      match chunk_factory id with
      | Err e => (Err e, chunks)
      | Ok _ =>
          let '(r, s) := export_workspace id (mkSink l "" 0) in
          match r with
          | Err e => (Err e, chunks ++ [(id, out s)])
          | Ok n => export_all chunk_factory l ids' (chunks ++ [(id, out s)]) (totals ++ [(id, n)])
          end
      end
  end.
Definition nightly_export (chunk_factory : string -> result ActantError unit) (w : World) :
    result ActantError (list (string * nat)) * list (string * string) :=
  export_all chunk_factory w
    (List.map ws_id (List.filter (fun x => match ws_archived_at x with None => true | Some _ => false end)
       (rows (workspaces (ledger w))))) [] [].

Definition text_of (es : list EventRow) : string := fold_right (fun r s => line_text (er_event r) +:+ s) "" es.

(** The lines of a text that ends with a newline, and the documents on them. *)
Definition json_lines (s : string) : option (list Json) :=
  mapM from_str (List.filter (fun x => negb (String.eqb x "")) (split_char "010"%char s)).
(** What serde_json makes of an object of strings: compact, so without a newline,
    not empty, and read back as it was. *)
Class JsonLines : Prop := {
  one_line : forall e, contains_char "010"%char (to_string (line e)) = false /\ to_string (line e) <> "";
  reads_back : forall e, from_str (to_string (line e)) = Some (line e);
}.

Lemma write_lines_run es n s r s' :
  write_lines es n s = (r, s') ->
  base s' = base s /\
  match r with
  | Ok m => m = (n + length es)%nat /\ out s' = out s +:+ text_of es
  | Err err => exists whole e rest k msg, es = whole ++ e :: rest /\ write_fails k = Some msg /\ err = Storage msg /\
      out s' = out s +:+ text_of whole +:+ write_torn k (line_text (er_event e))
  end.
Proof.
  revert n s. induction es as [|x es IH]; intros n s Hr; simpl in Hr.
  { injection Hr as <- <-. split; [done|]. simpl. rewrite append_empty_r. split; [lia|done]. }
  unfold mbind, M_bind, writeln in Hr. destruct (write_fails (writes s)) as [msg|] eqn:Hf.
  - injection Hr as <- <-. split; [done|]. exists [], x, es, (writes s), msg. repeat split; done.
  - apply IH in Hr as [Hb Hr]. simpl in Hb. split; [done|]. simpl in Hr. destruct r as [m|err].
    + destruct Hr as [-> Hout]. rewrite Hout. simpl. rewrite append_assoc. split; [lia|done].
    + destruct Hr as (whole & e & rest & k & m & -> & Hk & -> & Hout). exists (x :: whole), e, rest, k, m.
      rewrite Hout. simpl. by rewrite !append_assoc.
Qed.

Lemma text_of_lines `{!JsonLines} es :
  List.filter (fun x => negb (String.eqb x "")) (split_char "010"%char (text_of es))
  = List.map (fun r => to_string (line (er_event r))) es.
Proof.
  induction es as [|r es IH]; [done|].
  change (text_of (r :: es)) with ((to_string (line (er_event r)) +:+ String "010" "") +:+ text_of es).
  rewrite append_assoc, append_cons, append_nil.
  destruct (one_line (er_event r)) as [Hno Hne]. rewrite split_char_app by done. cbn [List.filter List.map].
  destruct (String.eqb_spec (to_string (line (er_event r))) ""); [done|]. simpl. by rewrite IH.
Qed.

(** An export that ends has written one line per event of the workspace in
    the window, in the order of time and id, and answers how many; read line by line
    the output gives those events' documents back.  One that fails has written a
    whole prefix of them and a part of the next.  The ledger is only read. *)
Theorem export_window_spec `{!JsonLines} (ws : string) (from to : option string) (s s' : Sink)
    (r : result ActantError nat) :
  out s = "" -> export_window ws from to s = (r, s') ->
  let es := select_events (in_window ws from to) (ledger (base s)) in
  base s' = base s /\
  match r with
  | Ok n => n = length es /\ json_lines (out s') = Some (List.map (fun x => line (er_event x)) es)
  | Err err => exists whole e rest k msg, es = whole ++ e :: rest /\ write_fails k = Some msg /\ err = Storage msg /\
      out s' = text_of whole +:+ write_torn k (line_text (er_event e))
  end.
Proof.
  intros Ho Hr. unfold export_window in Hr. apply write_lines_run in Hr as [Hb Hr]. rewrite Ho in Hr.
  split; [done|]. destruct r as [n|err]; [|exact Hr]. destruct Hr as [-> Hout]. split; [done|].
  rewrite Hout. unfold json_lines. rewrite append_nil, text_of_lines. clear Hout.
  induction (select_events _ _) as [|x es IH]; [done|]. simpl. rewrite reads_back. simpl. by rewrite IH.
Qed.
End audit.
