(* ===== verification/ExportImport.v ===== *)
(** * Export and import of events ([actant-cli/src/cmd/export_import.rs])

    [actantdb export] writes the events, one JSON object a line, as a JSON array or
    as CSV; [actantdb import] reads the lines back.  Both see the event table as SQL
    has it: the thirteen columns they name, all texts, under the primary key and
    the foreign keys of migrations/0001.  Files that cannot be opened, read or
    written are left out; serde_json and the pretty printer are parameters. *)

From S2P Require Import Prelude Str Json Core Storage.
#[local] Open Scope string_scope.
#[local] Open Scope list_scope.

Record RawEvent := mkRawEvent {
  rw_id : string; rw_workspace_id : string; rw_actor_id : string; rw_session_id : option string;
  rw_parent_event_id : option string; rw_event_type : string; rw_causality_kind : string; rw_sensitivity : string;
  rw_payload_inline : option string; rw_payload_ref : option string; rw_payload_hash : string;
  rw_event_hash : string; rw_created_at : string
}.
(** The event table, and the keys it refers to. *)
Record EventDb := mkEventDb {
  event_rows : gmap string RawEvent; ws_ids : gset string; actor_ids : gset string; session_ids : gset string
}.
Definition set_event_rows (x : gmap string RawEvent) (d : EventDb) : EventDb :=
  mkEventDb x (ws_ids d) (actor_ids d) (session_ids d).

(** ** Export *)

Definition id_le (a b : RawEvent) : Prop := cmp_le (cmp:=String.compare) (rw_id a) (rw_id b) = true.
#[global] Instance id_le_dec a b : Decision (id_le a b).
Proof. unfold id_le. apply _. Defined.
Definition of_session (session : option string) (r : RawEvent) : bool :=
  match session with Some s => bool_decide (rw_session_id r = Some s) | None => true end.
Definition export_rows (session : option string) (d : EventDb) : list RawEvent :=
  merge_sort id_le (List.filter (of_session session) (List.map snd (map_to_list (event_rows d)))).

Definition redacted_text : string := "<redacted: secret>".
Definition redact (r : RawEvent) : RawEvent :=
  if String.eqb (rw_sensitivity r) "secret"
  then mkRawEvent (rw_id r) (rw_workspace_id r) (rw_actor_id r) (rw_session_id r) (rw_parent_event_id r)
         (rw_event_type r) (rw_causality_kind r) (rw_sensitivity r) (Some redacted_text) None
         (rw_payload_hash r) (rw_event_hash r) (rw_created_at r)
  else r.
Definition opt_text (o : option string) : Json := match o with Some s => JString s | None => JNull end.
Definition raw_json (r : RawEvent) : Json :=
  jobj [("id", JString (rw_id r)); ("workspace_id", JString (rw_workspace_id r)); ("actor_id", JString (rw_actor_id r));
        ("session_id", opt_text (rw_session_id r)); ("parent_event_id", opt_text (rw_parent_event_id r));
        ("event_type", JString (rw_event_type r)); ("causality_kind", JString (rw_causality_kind r));
        ("sensitivity", JString (rw_sensitivity r)); ("payload_inline", opt_text (rw_payload_inline r));
        ("payload_ref", opt_text (rw_payload_ref r)); ("payload_hash", JString (rw_payload_hash r));
        ("event_hash", JString (rw_event_hash r)); ("created_at", JString (rw_created_at r))].
Definition row_to_json (r : RawEvent) : Json := raw_json (redact r).

Definition newline : Ascii.ascii := "010"%char.
Definition dquote : Ascii.ascii := "034"%char.
Definition ln (s : string) : string := s +:+ String newline "".

Fixpoint double_quotes (s : string) : string :=
  match s with
  | EmptyString => ""
  | String c s' => if Ascii.eqb c dquote then String dquote (String dquote (double_quotes s'))
                   else String c (double_quotes s')
  end.
Definition csv (s : string) : string :=
  if contains_char ","%char s || contains_char dquote s || contains_char newline s
  then String dquote (double_quotes s +:+ String dquote "") else s.

Inductive ExportFormat := FJson | FNdjson | FCsv.

Section export.
Context `{SerdeJson} (to_string_pretty : Json -> string).

Definition member (k : string) (v : Json) : string := default "" (x ← jget k v; as_str x).
Definition csv_header : string := "id,created_at,event_type,actor_id,session_id,sensitivity,payload".
Definition csv_line (r : RawEvent) : string :=
  let obj := row_to_json r in
  join "," (List.map (fun k => csv (member k obj))
    ["id"; "created_at"; "event_type"; "actor_id"; "session_id"; "sensitivity"; "payload_inline"]).

Definition run_export (format : ExportFormat) (session : option string) (d : EventDb) : string :=
  let rows := export_rows session d in
  match format with
  | FNdjson => String.concat "" (List.map (fun r => ln (to_string (row_to_json r))) rows)
  | FJson => ln (to_string_pretty (JArray (List.map row_to_json rows)))
  | FCsv => ln csv_header +:+ String.concat "" (List.map (fun r => ln (csv_line r)) rows)
  end.

(** ** Import *)

(** [BufRead::lines]: without the newline, and without a last empty one.  A
    carriage return at the end is white space, trimmed below. *)
Fixpoint lines_of (ls : list string) : list string :=
  match ls with
  | [] => []
  | [last] => if String.eqb last "" then [] else [last]
  | l :: ls' => l :: lines_of ls'
  end.
Definition lines (text : string) : list string := lines_of (split_char newline text).

Definition run_id (v : Json) : option string :=
  match (x ← jget "workflow_run_id" v; as_str x) with
  | Some id => Some id
  | None => x ← jget "session_id" v; as_str x
  end.

(** Phase 1: the records, and the ids they name.  [bad_json] is serde's message. *)
Context (bad_json : string -> string).
Fixpoint read_records (lineno : Z) (ls : list string) : result ActantError (list Json) :=
  match ls with
  | [] => Ok []
  | line :: ls' =>
      let trimmed := trim line in
      if String.eqb trimmed "" then read_records (lineno + 1) ls'
      else match from_str trimmed with
           | None => Err (InvalidInput ("line " +:+ show_Z lineno +:+ ": bad JSON: " +:+ bad_json trimmed))
           | Some v => vs ← read_records (lineno + 1) ls'; mret (v :: vs)
           end
  end.
Definition run_ids (records : list Json) : list string := omap run_id records.

(** Phase 2: the first id, in the order of the set's iteration, whose session has events. *)
Context (iteration : list string -> list string).
Definition has_events (d : EventDb) (id : string) : bool :=
  List.existsb (fun kr => bool_decide (rw_session_id kr.2 = Some id)) (map_to_list (event_rows d)).
Definition refusing (id : string) : ActantError :=
  Conflict ("refusing to import: events already exist for session/run `" +:+ id +:+
            "`. Migrate to a fresh DB or remove the existing rows first.").

(** Phase 3: a value that is missing or no text takes its default. *)
Definition text_or (k fallback : string) (v : Json) : string := default fallback (x ← jget k v; as_str x).
Definition text_opt (k : string) (v : Json) : option string := x ← jget k v; as_str x.
Definition raw_of (v : Json) : RawEvent :=
  mkRawEvent (text_or "id" "" v) (text_or "workspace_id" "" v) (text_or "actor_id" "" v) (text_opt "session_id" v)
    (text_opt "parent_event_id" v) (text_or "event_type" "" v) (text_or "causality_kind" "audit" v)
    (text_or "sensitivity" "low" v) (text_opt "payload_inline" v) (text_opt "payload_ref" v)
    (text_or "payload_hash" "" v) (text_or "event_hash" "" v) (text_or "created_at" "" v).

Definition raw_fk (r : RawEvent) (d : EventDb) : bool :=
  bool_decide (rw_workspace_id r ∈ ws_ids d) && bool_decide (rw_actor_id r ∈ actor_ids d)
  && match rw_session_id r with Some s => bool_decide (s ∈ session_ids d) | None => true end
  && match rw_parent_event_id r with
     | Some p => String.eqb p (rw_id r) || bool_decide (is_Some (event_rows d !! p))
     | None => true
     end.
(** [INSERT OR IGNORE]: a key that is there is ignored, a dangling reference is not. *)
Definition insert_raw (r : RawEvent) (d : EventDb) : result ActantError Z * EventDb :=
  match event_rows d !! rw_id r with
  | Some _ => (Ok 0%Z, d)
  | None => if raw_fk r d then (Ok 1%Z, set_event_rows (<[rw_id r := r]> (event_rows d)) d) else (Err fk_failed, d)
  end.
Fixpoint insert_all (rs : list RawEvent) (d : EventDb) : result ActantError Z * EventDb :=
  match rs with
  | [] => (Ok 0%Z, d)
  | r :: rs' =>
      match insert_raw r d with
      | (Ok n, d1) =>
          match insert_all rs' d1 with
          | (Ok m, d2) => (Ok (n + m)%Z, d2)
          | (Err e, d2) => (Err e, d2)
          end
      | (Err e, d1) => (Err e, d1)
      end
  end.

(** The answer is the number of rows that were inserted. *)
Definition run_import (text : string) (d : EventDb) : result ActantError Z * EventDb :=
  match read_records 1 (lines text) with
  | Err e => (Err e, d)
  | Ok records =>
      match List.find (has_events d) (iteration (run_ids records)) with
      | Some id => (Err (refusing id), d)
      | None => insert_all (List.map raw_of records) d
      end
  end.

(** ** What an import restores *)

Lemma NoDup_map_inj {A B} (f : A -> B) l x y :
  List.NoDup (List.map f l) -> In x l -> In y l -> f x = f y -> x = y.
Proof.
  induction l as [|a l IH]; [done|]. simpl. intros Hn. inversion Hn as [|? ? Ha Hn']; subst.
  intros [->|Hx] [->|Hy] He; [done| | |by apply IH]; exfalso; apply Ha; [rewrite He|rewrite <- He]; by apply in_map.
Qed.
Lemma nodup_ids (f : RawEvent -> bool) (m : gmap string RawEvent) :
  (forall k r, m !! k = Some r -> rw_id r = k) ->
  List.NoDup (List.map rw_id (List.filter f (List.map snd (map_to_list m)))).
Proof.
  intros Hk. assert (Hm : List.NoDup (List.map rw_id (List.map snd (map_to_list m)))).
  { rewrite List.map_map. rewrite (map_ext_in _ fst); [apply NoDup_ListNoDup, NoDup_fst_map_to_list|].
    intros [k r] Hin. simpl. apply Hk. by apply elem_of_map_to_list, list_elem_of_In. }
  revert Hm. generalize (List.map snd (map_to_list m)). clear. induction l as [|r l IH]; [done|]. simpl. intros Hn.
  inversion Hn as [|? ? Hr Hn']; subst. destruct (f r); [|by apply IH]. simpl. constructor; [|by apply IH].
  intros Hin. apply Hr. apply in_map_iff in Hin as (x & <- & Hx). apply List.filter_In in Hx as [Hx _]. by apply in_map.
Qed.

(** What serde_json writes for an object of texts: one line that is not empty, is
    not trimmed, and reads back. *)
Class RowText : Prop := {
  row_line : forall r, contains_char newline (to_string (row_to_json r)) = false;
  row_trim : forall r, trim (to_string (row_to_json r)) = to_string (row_to_json r);
  row_some : forall r, to_string (row_to_json r) <> "";
  row_back : forall r, from_str (to_string (row_to_json r)) = Some (row_to_json r);
}.

Lemma lines_of_cons x l : l <> [] -> lines_of (x :: l) = x :: lines_of l.
Proof. by destruct l. Qed.
Lemma lines_export (f : RawEvent -> string) rs :
  (forall r, contains_char newline (f r) = false) ->
  lines (String.concat "" (List.map (fun r => ln (f r)) rs)) = List.map f rs.
Proof.
  intros Hf. unfold lines. induction rs as [|r rs IH]; [done|].
  assert (He : String.concat "" (List.map (fun r => ln (f r)) (r :: rs))
    = f r +:+ String newline (String.concat "" (List.map (fun r => ln (f r)) rs))).
  { cbn [List.map]. destruct rs as [|r' rs]; simpl; [unfold ln; done|]. unfold ln at 1. by rewrite append_assoc. }
  rewrite He, split_char_app by done. rewrite lines_of_cons by apply split_char_nonnil. by rewrite IH.
Qed.

Lemma read_exported `{!RowText} n rs :
  read_records n (List.map (fun r => to_string (row_to_json r)) rs) = Ok (List.map row_to_json rs).
Proof.
  revert n. induction rs as [|r rs IH]; intros n; [done|]. cbn [List.map read_records].
  rewrite row_trim. destruct (String.eqb_spec (to_string (row_to_json r)) "") as [He|_]; [by apply row_some in He|].
  rewrite row_back, IH. done.
Qed.

Lemma raw_of_json r : raw_of (raw_json r) = r.
Proof. destruct r as [? ? ? s p ? ? ? i f ? ? ?]. by destruct s, p, i, f. Qed.
Lemma run_id_json r : run_id (raw_json r) = rw_session_id r.
Proof. destruct r as [? ? ? s p ? ? ? i f ? ? ?]. by destruct s, p, i, f. Qed.
Lemma redact_keeps r : rw_id (redact r) = rw_id r /\ rw_workspace_id (redact r) = rw_workspace_id r /\
  rw_actor_id (redact r) = rw_actor_id r /\ rw_session_id (redact r) = rw_session_id r /\
  rw_parent_event_id (redact r) = rw_parent_event_id r.
Proof. unfold redact. by destruct (String.eqb _ _). Qed.

(** A row can be inserted where its references are, or were inserted before it. *)
Definition refers_to (d : EventDb) (before : list string) (r : RawEvent) : Prop :=
  rw_workspace_id r ∈ ws_ids d /\ rw_actor_id r ∈ actor_ids d /\
  (forall s, rw_session_id r = Some s -> s ∈ session_ids d) /\
  (forall p, rw_parent_event_id r = Some p ->
     p = rw_id r \/ is_Some (event_rows d !! p) \/ In p before).

(** The rows of [d], and those of [rs] under ids it does not have; of two rows with
    one id the first counts. *)
Definition with_rows (d : EventDb) (rs : list RawEvent) : EventDb :=
  set_event_rows (event_rows d ∪ list_to_map (List.map (fun r => (rw_id r, r)) rs)) d.
Definition find_row (k : string) (rs : list RawEvent) : option RawEvent :=
  List.find (fun r => String.eqb (rw_id r) k) rs.
Definition fresh_in (d : EventDb) (r : RawEvent) : bool := bool_decide (event_rows d !! rw_id r = None).

Lemma with_rows_lookup d rs k :
  event_rows (with_rows d rs) !! k = match event_rows d !! k with Some x => Some x | None => find_row k rs end.
Proof.
  unfold with_rows, find_row. cbn [event_rows set_event_rows]. rewrite lookup_union.
  replace ((list_to_map (List.map (fun r => (rw_id r, r)) rs) : gmap string RawEvent) !! k)
    with (List.find (fun r => String.eqb (rw_id r) k) rs); [by destruct (event_rows d !! k), (List.find _ rs)|].
  induction rs as [|r rs IH]; [done|]. simpl. destruct (String.eqb_spec (rw_id r) k) as [<-|Hne].
  - by rewrite lookup_insert_eq.
  - by rewrite lookup_insert_ne.
Qed.
Lemma with_rows_nil d : with_rows d [] = d.
Proof. destruct d. unfold with_rows, set_event_rows. simpl. f_equal. apply (right_id_L ∅ (∪)). Qed.
Lemma find_row_app k a b : find_row k (a ++ b) = match find_row k a with Some x => Some x | None => find_row k b end.
Proof. unfold find_row. induction a as [|x a IH]; [done|]. simpl. by destruct (String.eqb _ _). Qed.
Lemma find_row_none k rs : find_row k rs = None <-> ~ In k (List.map rw_id rs).
Proof.
  unfold find_row. induction rs as [|r rs IH]; simpl; [tauto|]. destruct (String.eqb_spec (rw_id r) k) as [->|Hne].
  - split; [done|]. intros Hn. exfalso. auto.
  - rewrite IH. tauto.
Qed.

Lemma raw_fk_with_rows d before r : refers_to d (List.map rw_id before) r -> raw_fk r (with_rows d before) = true.
Proof.
  intros (Hw & Ha & Hs & Hp). unfold raw_fk.
  change (ws_ids (with_rows d before)) with (ws_ids d). change (actor_ids (with_rows d before)) with (actor_ids d).
  change (session_ids (with_rows d before)) with (session_ids d).
  rewrite !bool_decide_true by done. rewrite !andb_true_l. apply andb_true_intro. split.
  - destruct (rw_session_id r); [by apply bool_decide_eq_true_2, Hs|done].
  - destruct (rw_parent_event_id r) as [p|]; [|done]. apply orb_true_intro.
    destruct (Hp p eq_refl) as [->|Hq]; [left; apply String.eqb_refl|right]. apply bool_decide_eq_true_2.
    rewrite with_rows_lookup. destruct Hq as [[y ->]|Hin]; [done|]. destruct (event_rows d !! p); [done|].
    destruct (find_row p before) eqn:Hf; [done|]. by apply find_row_none in Hf.
Qed.

Lemma insert_all_refers d before rs :
  List.NoDup (List.map rw_id (before ++ rs)) ->
  (forall pre r post, rs = pre ++ r :: post -> refers_to d (List.map rw_id (before ++ pre)) r) ->
  insert_all rs (with_rows d before) = (Ok (Z.of_nat (length (List.filter (fresh_in d) rs))), with_rows d (before ++ rs)).
Proof.
  revert before. induction rs as [|r rs IH]; intros before Hn Hr; [by rewrite app_nil_r|].
  assert (Hnew : find_row (rw_id r) before = None).
  { apply find_row_none. intros Hin. rewrite List.map_app in Hn. simpl in Hn. apply NoDup_remove_2 in Hn.
    apply Hn, in_or_app. by left. }
  specialize (IH (before ++ [r])). rewrite <- app_assoc in IH. simpl in IH.
  assert (Hr' : forall pre r0 post, rs = pre ++ r0 :: post -> refers_to d (List.map rw_id ((before ++ [r]) ++ pre)) r0).
  { intros pre r0 post ->. rewrite <- app_assoc. by apply (Hr (r :: pre) r0 post). }
  specialize (IH Hn Hr'). cbn [insert_all]. unfold insert_raw. rewrite with_rows_lookup, Hnew. cbn [List.filter].
  assert (Hone : forall k, find_row k [r] = if String.eqb (rw_id r) k then Some r else None).
  { intros k. unfold find_row. simpl. by destruct (String.eqb _ _). }
  destruct (event_rows d !! rw_id r) as [x|] eqn:Hd.
  - replace (fresh_in d r) with false by (unfold fresh_in; rewrite Hd; symmetry; by apply bool_decide_eq_false_2).
    replace (with_rows d before) with (with_rows d (before ++ [r])); [by rewrite IH|].
    unfold with_rows at 1 2, set_event_rows. f_equal. apply map_eq. intros k.
    pose proof (with_rows_lookup d (before ++ [r]) k) as Hl. pose proof (with_rows_lookup d before k) as Hl2.
    cbn [with_rows event_rows set_event_rows] in Hl, Hl2. rewrite Hl, Hl2, find_row_app, Hone.
    destruct (String.eqb_spec (rw_id r) k) as [<-|]; [by rewrite Hd|]. by destruct (event_rows d !! k), (find_row k before).
  - replace (fresh_in d r) with true by (unfold fresh_in; rewrite Hd; symmetry; by apply bool_decide_eq_true_2).
    rewrite raw_fk_with_rows; [|specialize (Hr [] r rs eq_refl); by rewrite app_nil_r in Hr].
    replace (set_event_rows (<[rw_id r := r]> (event_rows (with_rows d before))) (with_rows d before))
      with (with_rows d (before ++ [r])).
    + rewrite IH. f_equal. f_equal. simpl. lia.
    + unfold with_rows at 1 3, set_event_rows. cbn [ws_ids actor_ids session_ids]. f_equal. apply map_eq. intros k.
      pose proof (with_rows_lookup d (before ++ [r]) k) as Hl.
      cbn [with_rows event_rows set_event_rows] in Hl. rewrite Hl, find_row_app, Hone.
      destruct (String.eqb_spec (rw_id r) k) as [<-|Hne].
      * rewrite lookup_insert_eq, Hd. by rewrite Hnew.
      * rewrite lookup_insert_ne, with_rows_lookup by done. by destruct (event_rows d !! k), (find_row k before).
Qed.

Lemma fresh_redacted d rs : length (List.filter (fresh_in d) (List.map redact rs)) = length (List.filter (fresh_in d) rs).
Proof.
  induction rs as [|r rs IH]; [done|]. cbn [List.map List.filter].
  replace (fresh_in d (redact r)) with (fresh_in d r) by (unfold fresh_in; by rewrite (proj1 (redact_keeps r))).
  destruct (fresh_in d r); simpl; by rewrite IH.
Qed.

(** Whether every reference of an exported row can be resolved in the target: a
    parent is there already or exported before it. *)
Definition importable (d : EventDb) (rs : list RawEvent) : Prop :=
  (forall r s, In r rs -> rw_session_id r = Some s -> has_events d s = false) /\
  forall pre r post, rs = pre ++ r :: post -> refers_to d (List.map rw_id pre) r.

End export.
