(* ===== verification/AuditDemo.v ===== *)
(** * Concrete exports and purges

    A printer and parser of JSON that read each other back, standing in for
    serde_json; the witnesses of the audit theorems; a purge that breaks the hash
    chain; exports that come back, and some that do not. *)

From stdpp Require Import countable.
From Stdlib Require Import SpecFloat.
From S2P Require Import Prelude Str Json Hlc Core Storage Command Chain Effects EffectsDemo EngineDemo AuditExport ExportImport.
#[local] Open Scope string_scope.
#[local] Open Scope list_scope.
#[local] Open Scope Z_scope.

(** ** Any value as a decimal number *)

#[local] Abbreviation tree := (gen_tree (Z + string)).
Definition float_tree (x : f64) : tree :=
  match x with
  | S754_zero s => GenNode 0 [GenLeaf (inl (Z.b2z s))]
  | S754_infinity s => GenNode 1 [GenLeaf (inl (Z.b2z s))]
  | S754_nan => GenNode 2 []
  | S754_finite s m e => GenNode 3 [GenLeaf (inl (Z.b2z s)); GenLeaf (inl (Z.pos m)); GenLeaf (inl e)]
  end.
Definition tree_float (t : tree) : f64 :=
  match t with
  | GenNode 0 [GenLeaf (inl s)] => S754_zero (s =? 1)
  | GenNode 1 [GenLeaf (inl s)] => S754_infinity (s =? 1)
  | GenNode 3 [GenLeaf (inl s); GenLeaf (inl (Z.pos m)); GenLeaf (inl e)] => S754_finite (s =? 1) m e
  | _ => S754_nan
  end.
Fixpoint json_tree (v : Json) : tree :=
  match v with
  | JNull => GenNode 0 []
  | JBool b => GenNode 1 [GenLeaf (inl (Z.b2z b))]
  | JNumber (PosInt n) => GenNode 2 [GenLeaf (inl n)]
  | JNumber (NegInt n) => GenNode 3 [GenLeaf (inl n)]
  | JNumber (Float x) => GenNode 4 [float_tree x]
  | JString s => GenNode 5 [GenLeaf (inr s)]
  | JArray l => GenNode 6 (List.map json_tree l)
  | JObject m => GenNode 7 (List.map (fun kv => GenNode 8 [GenLeaf (inr kv.1); json_tree kv.2]) m)
  end.
Fixpoint tree_json (t : tree) : Json :=
  match t with
  | GenNode 1 [GenLeaf (inl b)] => JBool (b =? 1)
  | GenNode 2 [GenLeaf (inl n)] => JNumber (PosInt n)
  | GenNode 3 [GenLeaf (inl n)] => JNumber (NegInt n)
  | GenNode 4 [x] => JNumber (Float (tree_float x))
  | GenNode 5 [GenLeaf (inr s)] => JString s
  | GenNode 6 l => JArray (List.map tree_json l)
  | GenNode 7 l => JObject (List.map (fun t => match t with
                     | GenNode 8 [GenLeaf (inr k); v] => (k, tree_json v)
                     | _ => ("", JNull) end) l)
  | _ => JNull
  end.

Lemma tree_json_tree v : tree_json (json_tree v) = v.
Proof.
  induction v as [|b|n|s|l Hl|m Hm] using Json_rect'; try done; simpl.
  - by destruct b.
  - destruct n as [n|n|x]; simpl; try done. by destruct x as [[]|[]| |[] m e].
  - f_equal. induction Hl as [|v l Hv _ IH]; [done|]. simpl. by rewrite Hv, IH.
  - f_equal. induction Hm as [|[k v] m Hv _ IH]; [done|]. simpl in *. by rewrite Hv, IH.
Qed.

#[local] Instance number_codec : SerdeJson := {|
  to_string v := show_Z (Z.pos (encode (json_tree v)));
  from_str s := n ← parse_digits 0 s; match n with Z.pos p => tree_json <$> decode p | _ => None end
|}.

Lemma number_codec_round v : from_str (to_string v) = Some v.
Proof.
  unfold from_str, to_string, number_codec. rewrite parse_digits_show by lia. simpl.
  rewrite decode_encode. simpl. by rewrite tree_json_tree.
Qed.
Lemma number_codec_lines : JsonLines.
Proof.
  split; [|intros; apply number_codec_round]. intros e. split.
  - unfold to_string, number_codec. by apply show_Z_char.
  - intros He. pose proof (number_codec_round (line e)) as Hr. rewrite He in Hr. discriminate.
Qed.

(** ** A window of a ledger *)

#[local] Existing Instance key_order.
#[local] Existing Instance demo_env.
#[local] Existing Instance demo_sha256.

(** A day per character of the stamp; the purge runs in the middle of the ledger's days. *)
#[local] Instance demo_instants : Instants := {|
  instant_of s := if String.eqb s "" then None else Some (Z.of_nat (String.length s) * day);
  utc n := 9 * day + Z.of_nat n; earliest := - 1000 * day
|}.
Definition chronicled : AgentEvent -> string * string := fun e => (ev_event_type e, ev_created_at e).
Definition the_events : list AgentEvent := chronicle "ws" "s" (ledger two_commands).

Example demo_days : List.map chronicled the_events = [("session_created", "tttt"); ("tool_call_requested", "tttttttttt")].
Proof. vm_compute. reflexivity. Qed.

(** ** Witnesses *)

Definition two_days : RetentionPolicy := mkRetentionPolicy 2 SHigh.
Definition purged := purge_by_policy ∅ "ws" two_days two_commands.

Lemma demo_keyed : keyed (ledger two_commands).
Proof.
  assert (Hm : map_Forall (fun k r => ev_id (er_event r) = k) (events (ledger two_commands)))
    by (apply map_Forall_to_list; vm_compute; repeat constructor).
  exact Hm.
Qed.

Lemma purge_spec_witness :
  purged.1 = Ok 1%nat /\ size (events (ledger two_commands)) = 2%nat /\ size (events (ledger purged.2)) = 1%nat.
Proof.
  assert (Hok : purged.1 = Ok 1%nat) by (vm_compute; reflexivity). split; [exact Hok|].
  split; [vm_compute; reflexivity|].
  destruct (purge_spec ∅ "ws" two_days two_commands purged.2 purged.1 demo_keyed ltac:(apply surjective_pairing))
    as (_ & _ & Hn). destruct (Hn 1%nat Hok) as [Hs _].
  replace (size (events (ledger two_commands))) with 2%nat in Hs by (vm_compute; reflexivity). lia.
Defined.

Definition no_failures : nat -> option string := fun _ => None.
Definition exported := export_window no_failures (fun _ s => s) "ws" None None (mkSink two_commands "" 0).

Lemma export_window_spec_witness :
  exported.1 = Ok 2%nat /\ json_lines (out exported.2) = Some (List.map line the_events).
Proof.
  assert (Hok : exported.1 = Ok 2%nat) by (vm_compute; reflexivity). split; [exact Hok|].
  destruct (@export_window_spec number_codec no_failures (fun _ s => s) number_codec_lines "ws" None None
    (mkSink two_commands "" 0) exported.2 exported.1 eq_refl ltac:(apply surjective_pairing)) as [_ Hr].
  rewrite Hok in Hr. destruct Hr as [_ Hr]. rewrite Hr. vm_compute. reflexivity.
Defined.

(** ** What a purge does to the chain *)

(** The first event of a session goes, and the next one's hash no longer follows
    from genesis. *)
Example purge_breaks_the_chain :
  chain_ok genesis the_events /\ ~ chain_ok genesis (chronicle "ws" "s" (ledger purged.2)).
Proof. split; [vm_compute; auto|]. vm_compute. intros [Hc _]. discriminate. Qed.

(** An event another row refers to ends the purge half way, with an error. *)
Example purge_stops_at_reference :
  let out := purge_by_policy {["evt_1"]} "ws" (mkRetentionPolicy 0 Regulated) two_commands in
  out.1 = Err (Failed fk_failed).
Proof. vm_compute. reflexivity. Qed.

(** A policy meant to keep everything panics. *)
Example keep_for_ever_panics :
  (purge_by_policy ∅ "ws" (mkRetentionPolicy u32_max SHigh) two_commands).1 = Err Panicked.
Proof. vm_compute. reflexivity. Qed.

(** ** Exports that come back *)

(** A text of digits has nothing to trim. *)
Lemma digit_no_space a s : is_digit a = true -> ws_len (String a s) = 0%nat.
Proof.
  intros Ha. unfold is_digit in Ha. apply andb_prop in Ha as [H1a%Z.leb_le H2a%Z.leb_le]. cbn [ws_len].
  repeat match goal with |- context [(?x =? ?k)%Z] => lazymatch x with byte a => 
    replace (x =? k)%Z with false by (symmetry; apply Z.eqb_neq; lia) end end.
  replace (byte a <=? 13)%Z with false by (symmetry; apply Z.leb_gt; lia).
  rewrite andb_false_r. simpl. destruct s as [|b [|c s]]; done.
Qed.
Lemma trim_digits s : (forall a, contains_char a s = true -> is_digit a = true) -> trim s = s.
Proof.
  intros Hs. assert (Hstart : trim_start s = s).
  { destruct s as [|a s]; [done|]. unfold trim_start. cbn [trim_start_]. rewrite digit_no_space; [done|].
    apply Hs. simpl. by rewrite Ascii.eqb_refl. }
  unfold trim. rewrite Hstart. clear Hstart. induction s as [|a s IH]; [done|]. cbn [trim_end all_ws].
  rewrite digit_no_space by (apply Hs; simpl; by rewrite Ascii.eqb_refl).
  f_equal. apply IH. intros b Hb. apply Hs. simpl. rewrite Hb. by rewrite orb_true_r.
Qed.
#[local] Instance number_codec_rows : RowText.
Proof.
  split; intros r.
  - unfold to_string, number_codec. by apply show_Z_char.
  - unfold to_string, number_codec. apply trim_digits. intros a Ha. destruct (is_digit a) eqn:Hd; [done|].
    rewrite show_Z_char in Ha by done. done.
  - intros He. pose proof (number_codec_round (row_to_json r)) as Hr. rewrite He in Hr. discriminate.
  - apply number_codec_round.
Qed.

Definition event_row (id : string) (parent : option string) (sens payload : string) : RawEvent :=
  mkRawEvent id "ws" "bot" (Some "s") parent "user_message" "audit" sens (Some payload) None
    (sha256_hex payload) ("hash of " +:+ id) "t".
Definition table_of (rs : list RawEvent) : gmap string RawEvent := list_to_map (List.map (fun r => (rw_id r, r)) rs).
Definition recorded : EventDb :=
  mkEventDb (table_of [event_row "e2" (Some "e1") "low" "two"; event_row "e1" None "secret" "one"]) {["ws"]} {["bot"]} {["s"]}.
Definition same_keys : EventDb := mkEventDb ∅ {["ws"; "other"]} {["bot"]} {["s"]}.
Definition fresh_db : EventDb := mkEventDb ∅ ∅ ∅ ∅.
Definition import (text : string) (d : EventDb) := run_import (fun s => s) (fun l => l) text d.
Definition exported_text : string := run_export (fun _ => "") FNdjson None recorded.

Lemma recorded_rows : export_rows None recorded = [event_row "e1" None "secret" "one"; event_row "e2" (Some "e1") "low" "two"].
Proof. vm_compute. reflexivity. Qed.

(** A row, of a list of two, is the first or the second. *)
Lemma split_of_two {A} (P : list A -> A -> Prop) (a b : A) :
  P [] a -> P [a] b -> forall pre x post, [a; b] = pre ++ x :: post -> P pre x.
Proof.
  intros Ha Hb pre x post Hsp. destruct pre as [|p1 [|p2 pre]]; simpl in Hsp.
  - by injection Hsp as <- _.
  - by injection Hsp as <- <- _.
  - injection Hsp as _ _ Hsp. by destruct pre.
Qed.
Lemma demo_importable : importable same_keys (export_rows None recorded).
Proof.
  rewrite recorded_rows. split; [intros r s _ _; vm_compute; reflexivity|].
  apply (split_of_two (fun pre r => refers_to same_keys (List.map rw_id pre) r)).
  - split; [|split; [|split]].
    + vm_compute; done.
    + vm_compute; done.
    + intros s [= <-]. vm_compute; done.
    + intros p [=].
  - split; [|split; [|split]].
    + vm_compute; done.
    + vm_compute; done.
    + intros s [= <-]. vm_compute; done.
    + intros p [= <-]. right. right. by left.
Qed.
Lemma export_keyed k r : event_rows recorded !! k = Some r -> rw_id r = k.
Proof.
  unfold recorded, table_of. cbn [event_rows List.map]. intros Hl.
  apply elem_of_list_to_map_2, list_elem_of_In in Hl. by destruct Hl as [[= <- <-]|[[= <- <-]|[]]].
Qed.


(** ** What the pair of commands does not restore *)

(** The workspaces, actors and sessions are not exported: the fresh database the
    message asks for has none, and the first row is refused by its foreign keys,
    which [OR IGNORE] does not ignore. *)
Example import_needs_the_keys : import exported_text fresh_db = (Err fk_failed, fresh_db).
Proof. vm_compute. reflexivity. Qed.

(** The hash of a redacted payload is still that of the payload that was there. *)
Example redaction_breaks_the_hash :
  let r := redact (event_row "e1" None "secret" "one") in
  rw_payload_inline r = Some redacted_text /\ rw_payload_hash r <> sha256_hex redacted_text.
Proof. vm_compute. split; [done|discriminate]. Qed.

(** A line of another workspace stops the import after the rows before it. *)
Definition half : string :=
  ln (to_string (row_to_json (event_row "e1" None "low" "one")))
  +:+ ln (to_string (row_to_json (event_row "e9" (Some "e8") "low" "two"))).
Example import_is_not_atomic :
  (import half same_keys).1 = Err fk_failed /\ is_Some (event_rows (import half same_keys).2 !! "e1").
Proof. split; [vm_compute; reflexivity|]. apply (bool_decide_unpack _). vm_compute. exact I. Qed.
