(* ===== verification/Trigger.v ===== *)
(** * Workflow triggers ([actant-trigger/src/lib.rs])

    The scheduler decides at each tick which cron registrations fire; a fired one
    spawns a workflow run and its event.  Cron expressions, RFC 3339 and the
    ranges of the two date libraries are parameters. *)

From S2P Require Import Prelude Str Json Flow Hlc Core Storage Command Effects.
#[local] Open Scope string_scope.
#[local] Open Scope list_scope.
#[local] Open Scope Z_scope.

Inductive Trigger :=
| Cron (expression : string) | Event (source event_type : string) | Webhook (path : string) | Manual.
Record Registration := mkRegistration {
  r_id : string; r_name : string; r_trigger : Trigger; r_workflow_name : string;
  r_last_fired_at : option string; r_enabled : bool
}.
(** The registrations behind the lock. *)
Abbreviation Scheduler := (gmap string Registration).
Inductive FireAction := Fire (trigger_id workflow_name : string).

(** [cron::Schedule]: the first instant after a given one; the dates chrono and time
    can represent, and RFC 3339 on whole seconds ([from_rfc3339] drops fractions). *)
Class Dates := {
  cron_after : string -> option (Z -> option Z);
  chrono_ok : Z -> bool;
  to_rfc3339 : Z -> option string;
  from_rfc3339 : string -> option Z;
}.
(** The first scheduled instant after [t]; dates both libraries know print and read back. *)
Class DatesLaws `{Dates} : Prop := {
  after_later : forall e f t n, cron_after e = Some f -> f t = Some n -> t < n;
  after_first : forall e f t n m, cron_after e = Some f -> f t = Some n -> f (m - 1) = Some m -> t < m -> n <= m;
  after_own : forall e f t n, cron_after e = Some f -> f t = Some n -> f (n - 1) = Some n;
  after_some : forall e f t m, cron_after e = Some f -> f (m - 1) = Some m -> t < m -> is_Some (f t);
  rfc3339_back : forall t s, to_rfc3339 t = Some s -> from_rfc3339 s = Some t;
}.

Section trigger.
Context `{Dates}.

Definition validate (t : Trigger) : bool :=
  match t with Cron e => match cron_after e with Some _ => true | None => false end | _ => true end.

(** ** The scheduler *)

Definition new_scheduler : Scheduler := ∅.
Definition register (reg : Registration) (m : Scheduler) : Scheduler := <[r_id reg := reg]> m.
Definition list_registrations `{RowOrder} (m : Scheduler) : list Registration := rows m.
Definition disabled (r : Registration) : Registration :=
  mkRegistration (r_id r) (r_name r) (r_trigger r) (r_workflow_name r) (r_last_fired_at r) false.
Definition disable (id : string) (m : Scheduler) : Scheduler := alter disabled id m.

(** [from_timestamp(t, 0).unwrap_or(UNIX_EPOCH)]. *)
Definition date (t : Z) : Z := if chrono_ok t then t else 0.
Definition last_fire_secs (r : Registration) : Z := default 0 (r_last_fired_at r ≫= from_rfc3339).
Definition fired_at (stamp : string) (r : Registration) : Registration :=
  mkRegistration (r_id r) (r_name r) (r_trigger r) (r_workflow_name r) (Some stamp) (r_enabled r).

(** The scheduled instant of a registration that makes it fire at [now]. *)
Definition due (now : Z) (r : Registration) : option Z :=
  match r_enabled r, r_trigger r with
  | true, Cron e =>
      schedule ← cron_after e;
      next ← schedule (date (last_fire_secs r));
      if next <=? date now then Some next else None
  | _, _ => None
  end.

(** A tick over the registrations in the order the map yields them; a date the time
    crate cannot represent panics ([expect]), the registrations before it done. *)
Fixpoint tick_over (now : Z) (rs : list Registration) (out : list FireAction) (m : Scheduler) :
    option (list FireAction) * Scheduler :=
  match rs with
  | [] => (Some out, m)
  | r :: rs' =>
      match due now r with
      | None => tick_over now rs' out m
      | Some _ =>
          match to_rfc3339 (date now) with
          | None => (None, m)
          | Some stamp =>
              tick_over now rs' (out ++ [Fire (r_id r) (r_workflow_name r)]) (<[r_id r := fired_at stamp r]> m)
          end
      end
  end.
Definition tick `{RowOrder} (now : Z) (m : Scheduler) : option (list FireAction) * Scheduler :=
  tick_over now (rows m) [] m.

(** [run], given the readings of the clock until the shutdown is seen: every action
    goes to [on_fire] in order. *)
Fixpoint run `{RowOrder} (times : list Z) (m : Scheduler) : option (list (Z * FireAction)) * Scheduler :=
  match times with
  | [] => (Some [], m)
  | now :: times' =>
      match tick now m with
      | (None, m') => (None, m')
      | (Some out, m') =>
          let '(rest, m'') := run times' m' in
          (rest' ← rest; Some (List.map (pair now) out ++ rest'), m'')
      end
  end.

(** ** When a registration fires *)

(** [s] is an instant of the schedule [f]. *)
Definition scheduled (f : Z -> option Z) (s : Z) : Prop := f (s - 1) = Some s.
(** An enabled cron registration with an instant after [from], up to [to]. *)
Definition due_between (from to : Z) (r : Registration) : Prop :=
  r_enabled r = true /\ exists e f s, r_trigger r = Cron e /\ cron_after e = Some f /\ scheduled f s /\ from < s <= to.

Lemma due_spec `{!DatesLaws} now r :
  is_Some (due now r) <-> due_between (date (last_fire_secs r)) (date now) r.
Proof.
  unfold due, due_between. destruct (r_enabled r); [|split; [by intros []|by intros [? _]]].
  destruct (r_trigger r) as [e| | |]; try (split; [by intros []|by intros [_ (? & ? & ? & ? & _)]]).
  destruct (cron_after e) as [f|] eqn:He; simpl.
  2:{ split; [by intros []|]. intros [_ (e' & f & s & [= <-] & Hf & _)]. congruence. }
  destruct (f (date (last_fire_secs r))) as [n|] eqn:Hn; simpl.
  - destruct (Z.leb_spec n (date now)).
    + split; [|by eexists]. intros _. split; [done|]. exists e, f, n. split; [done|]. split; [done|].
      split; [by eapply after_own|]. split; [by eapply after_later|done].
    + split; [by intros []|]. intros [_ (e' & f' & s & [= <-] & Hf & Hs & Hb)]. simplify_eq.
      pose proof (after_first e f _ _ s He Hn Hs ltac:(lia)). lia.
  - split; [by intros []|]. intros [_ (e' & f' & s & [= <-] & Hf & Hs & Hb)]. simplify_eq.
    destruct (after_some e f (date (last_fire_secs r)) s He Hs ltac:(lia)) as [x Hx]. congruence.
Qed.

(** ** A tick *)

(** Registrations are kept under their own id. *)
Definition keyed_regs (m : Scheduler) : Prop := forall k r, m !! k = Some r -> r_id r = k.

Lemma register_keyed reg m : keyed_regs m -> keyed_regs (register reg m).
Proof.
  intros Hm k r. unfold register. destruct (decide (r_id reg = k)) as [<-|Hne].
  - rewrite lookup_insert_eq. by intros [= <-].
  - rewrite lookup_insert_ne by done. apply Hm.
Qed.
Lemma disable_keyed id m : keyed_regs m -> keyed_regs (disable id m).
Proof.
  intros Hm k r. unfold disable. destruct (decide (id = k)) as [<-|Hne].
  - rewrite lookup_alter_eq. intros (r0 & Hr & ->)%fmap_Some_1. exact (Hm _ _ Hr).
  - rewrite lookup_alter_ne by done. apply Hm.
Qed.

(** What a tick makes of a registration. *)
Definition after_tick (now : Z) (r : Registration) : Registration :=
  match due now r, to_rfc3339 (date now) with Some _, Some stamp => fired_at stamp r | _, _ => r end.
Definition fires (now : Z) (r : Registration) : list FireAction :=
  match due now r with Some _ => [Fire (r_id r) (r_workflow_name r)] | None => [] end.

Lemma tick_over_spec now rs out m res m' :
  List.NoDup (List.map r_id rs) -> (forall r, In r rs -> m !! r_id r = Some r) ->
  tick_over now rs out m = (Some res, m') ->
  res = out ++ List.concat (List.map (fires now) rs) /\
  (forall r, In r rs -> is_Some (due now r) -> is_Some (to_rfc3339 (date now))) /\
  (forall r, In r rs -> m' !! r_id r = Some (after_tick now r)) /\
  (forall k, ~ In k (List.map r_id rs) -> m' !! k = m !! k).
Proof.
  revert out m. induction rs as [|r rs IH]; intros out m Hnd Hin Ht.
  { injection Ht as <- <-. simpl. by rewrite app_nil_r. }
  simpl in Hnd. apply List.NoDup_cons_iff in Hnd as [Hni Hnd]. cbn [tick_over] in Ht.
  assert (Hrest : forall r', In r' rs -> r_id r' <> r_id r).
  { intros r' Hr' He. apply Hni. rewrite <- He. by apply List.in_map. }
  destruct (due now r) as [n|] eqn:Hd.
  - destruct (to_rfc3339 (date now)) as [stamp|] eqn:Hs; [|done].
    assert (Hf : fires now r = [Fire (r_id r) (r_workflow_name r)]) by (unfold fires; by rewrite Hd).
    assert (Ha : after_tick now r = fired_at stamp r) by (unfold after_tick; by rewrite Hd, Hs).
    apply IH in Ht as (-> & Hdue & Hl & Hk); [|done|].
    + split; [simpl; by rewrite Hf, <- app_assoc|]. split; [done|]. split.
      * intros r' [<-|Hr']; [|by apply Hl]. by rewrite Hk, lookup_insert_eq, Ha by done.
      * intros k Hnk. simpl in Hnk. rewrite Hk, lookup_insert_ne by tauto. done.
    + intros r' Hr'. rewrite lookup_insert_ne by (by apply not_eq_sym, Hrest). apply Hin. by right.
  - assert (Hf : fires now r = []) by (unfold fires; by rewrite Hd).
    assert (Ha : after_tick now r = r) by (unfold after_tick; by rewrite Hd).
    apply IH in Ht as (-> & Hdue & Hl & Hk); [|done|by intros; apply Hin; right].
    split; [simpl; by rewrite Hf|]. split; [intros r' [<-|?]; [by rewrite Hd; intros []|by apply Hdue]|]. split.
    + intros r' [<-|Hr']; [|by apply Hl]. rewrite Hk by done. rewrite Ha. apply Hin. by left.
    + intros k Hnk. simpl in Hnk. apply Hk. tauto.
Qed.

Lemma keyed_rows `{RowOrder} m :
  keyed_regs m -> List.NoDup (List.map r_id (rows m)) /\ forall r, In r (rows m) <-> m !! r_id r = Some r.
Proof.
  intros Hm. assert (Hin : forall r, In r (rows m) <-> m !! r_id r = Some r).
  { intros r. rewrite rows_perm, List.in_map_iff. split.
    - intros ([k x] & <- & Hx). simpl. assert (Hk : m !! k = Some x) by (by apply elem_of_map_to_list, list_elem_of_In).
      by rewrite (Hm _ _ Hk).
    - intros Hr. exists (r_id r, r). split; [done|]. by apply list_elem_of_In, elem_of_map_to_list. }
  split; [|done]. eapply Permutation_NoDup; [apply Permutation_map; symmetry; apply rows_perm|].
  assert (He : List.map r_id (map snd (map_to_list m)) = List.map fst (map_to_list m)).
  { rewrite List.map_map. apply List.map_ext_in. intros [k r] Hk. simpl. apply Hm.
    by apply elem_of_map_to_list, list_elem_of_In. }
  rewrite He. apply NoDup_ListNoDup, NoDup_fst_map_to_list.
Qed.

Lemma tick_facts `{RowOrder} now m out m' :
  keyed_regs m -> tick now m = (Some out, m') ->
  out = List.concat (List.map (fires now) (rows m)) /\ m' = after_tick now <$> m /\
  (forall k r, m !! k = Some r -> is_Some (due now r) -> is_Some (to_rfc3339 (date now))).
Proof.
  intros Hm Ht. destruct (keyed_rows m Hm) as [Hnd Hin].
  apply tick_over_spec in Ht as (-> & Hdue & Hl & Hk); [|done|intros r Hr; by apply Hin].
  split; [done|]. split.
  - apply map_eq. intros k. rewrite lookup_fmap. destruct (m !! k) as [r|] eqn:Hr; simpl.
    + pose proof (Hm _ _ Hr) as <-. by apply Hl, Hin.
    + rewrite Hk; [done|]. intros (r & <- & Hr')%List.in_map_iff. apply Hin in Hr'. congruence.
  - intros k r Hr. pose proof (Hm _ _ Hr) as <-. by apply Hdue, Hin.
Qed.

(** *** No instant fires twice *)

Lemma date_idem t : date (date t) = date t.
Proof. unfold date. destruct (chrono_ok t) eqn:Ht; [by rewrite Ht|]. by destruct (chrono_ok 0). Qed.

Lemma due_between_wider a b from to r r' :
  a <= from -> to <= b -> r_enabled r' = r_enabled r -> r_trigger r' = r_trigger r ->
  due_between from to r' -> due_between a b r.
Proof.
  unfold due_between. intros Ha Hb -> ->. intros (He & e & f & s & Ht & Hf & Hs & Hi).
  split; [done|]. exists e, f, s. repeat (split; [done|]). lia.
Qed.

Lemma after_tick_keeps now r :
  r_id (after_tick now r) = r_id r /\ r_enabled (after_tick now r) = r_enabled r /\
  r_trigger (after_tick now r) = r_trigger r.
Proof. unfold after_tick. destruct (due now r); [|done]. by destruct (to_rfc3339 _). Qed.

Lemma after_tick_keyed now m : keyed_regs m -> keyed_regs (after_tick now <$> m).
Proof.
  intros Hm k r. rewrite lookup_fmap. intros (r0 & Hr & ->)%fmap_Some_1.
  destruct (after_tick_keeps now r0) as [-> _]. exact (Hm _ _ Hr).
Qed.

(** A registration that fires has the instant of the tick as its last. *)
Lemma after_tick_fired `{!DatesLaws} now r :
  is_Some (due now r) -> is_Some (to_rfc3339 (date now)) -> date (last_fire_secs (after_tick now r)) = date now.
Proof.
  unfold after_tick. intros [n ->] [s Hs]. rewrite Hs. unfold last_fire_secs. simpl.
  rewrite (rfc3339_back _ _ Hs). simpl. apply date_idem.
Qed.

(** The last instant only moves on. *)
Lemma after_tick_later `{!DatesLaws} now r :
  date (last_fire_secs r) <= date (last_fire_secs (after_tick now r)).
Proof.
  destruct (due now r) as [n|] eqn:Hd; [|unfold after_tick; rewrite Hd; lia].
  destruct (to_rfc3339 (date now)) as [st|] eqn:Hs; [|unfold after_tick; rewrite Hd, Hs; lia].
  rewrite after_tick_fired by eauto.
  destruct (proj1 (due_spec now r)) as (_ & e & f & s & _ & _ & _ & Hi); [by eexists|lia].
Qed.

Lemma fires_in `{RowOrder} now m id wf :
  keyed_regs m -> In (Fire id wf) (List.concat (List.map (fires now) (rows m))) ->
  exists r, m !! id = Some r /\ is_Some (due now r).
Proof.
  intros Hm (l & (r & <- & Hr)%List.in_map_iff & Hin)%List.in_concat. unfold fires in Hin.
  destruct (due now r) as [n|] eqn:Hd; [|done]. destruct Hin as [[= <- <-]|[]]. exists r.
  split; [by apply keyed_rows|by eexists].
Qed.

Lemma run_cons `{RowOrder} now times m log m' :
  keyed_regs m -> run (now :: times) m = (Some log, m') ->
  exists rest, log = List.map (pair now) (List.concat (List.map (fires now) (rows m))) ++ rest /\
    run times (after_tick now <$> m) = (Some rest, m') /\
    (forall k r, m !! k = Some r -> is_Some (due now r) -> is_Some (to_rfc3339 (date now))).
Proof.
  intros Hm Hr. cbn [run] in Hr. destruct (tick now m) as [[out|] m1] eqn:Ht; [|done].
  apply tick_facts in Ht as (-> & -> & Hdates); [|done].
  destruct (run times _) as [[rest|] m2] eqn:Hrest; [|done]. injection Hr as <- <-. by exists rest.
Qed.

Lemma run_later `{RowOrder} `{!DatesLaws} times m log m' id r :
  keyed_regs m -> run times m = (Some log, m') -> m !! id = Some r ->
  forall t wf, In (t, Fire id wf) log -> due_between (date (last_fire_secs r)) (date t) r.
Proof.
  revert m log r. induction times as [|now times IH]; intros m log r Hm Hrun Hr t wf Hin.
  { by injection Hrun as <- _. }
  apply run_cons in Hrun as (rest & -> & Hrun & _); [|done]. apply in_app_or in Hin as [Hin|Hin].
  - apply List.in_map_iff in Hin as (a & [= -> ->] & Hin).
    apply fires_in in Hin as (r0 & Hr0 & Hd); [|done]. simplify_eq. by apply due_spec.
  - assert (Hb : due_between (date (last_fire_secs (after_tick now r))) (date t) (after_tick now r)).
    { eapply IH; [by apply after_tick_keyed|exact Hrun|by rewrite lookup_fmap, Hr|exact Hin]. }
    destruct (after_tick_keeps now r) as (_ & He & Ht).
    eapply due_between_wider; [apply after_tick_later| |exact He|exact Ht|exact Hb]. lia.
Qed.

(** Two firings of one registration, in the order of a run. *)
Definition apart (m : Scheduler) (x y : Z * FireAction) : Prop :=
  forall id w1 w2 r, x.2 = Fire id w1 -> y.2 = Fire id w2 -> m !! id = Some r -> due_between (date x.1) (date y.1) r.

Lemma pairs_app {X} (R : X -> X -> Prop) a b :
  ForallOrdPairs R a -> ForallOrdPairs R b -> (forall x y, In x a -> In y b -> R x y) -> ForallOrdPairs R (a ++ b).
Proof.
  intros Ha Hb Hab. induction Ha as [|x a Hx Ha IH]; [done|]. simpl. constructor.
  - apply Forall_app. split; [done|]. apply List.Forall_forall. intros y Hy. apply Hab; [by left|done].
  - apply IH. intros y z Hy Hz. apply Hab; [by right|done].
Qed.

(** One tick fires a registration once. *)
Lemma same_tick_apart now m rs :
  List.NoDup (List.map r_id rs) ->
  ForallOrdPairs (apart m) (List.map (pair now) (List.concat (List.map (fires now) rs))).
Proof.
  induction rs as [|r rs IH]; intros Hnd; [constructor|]. simpl in *. apply List.NoDup_cons_iff in Hnd as [Hni Hnd].
  unfold fires at 1. destruct (due now r); [|by apply IH]. simpl. constructor; [|by apply IH].
  apply List.Forall_forall. intros [t [i w]] Hin id w1 w2 r0 [= <- _] [= -> _] _. exfalso. apply Hni.
  apply List.in_map_iff in Hin as (a & [= _ ->] & Hin).
  apply List.in_concat in Hin as (l & (x & <- & Hx)%List.in_map_iff & Hin). unfold fires in Hin.
  destruct (due now x); [|done]. destruct Hin as [[= <- _]|[]]. by apply List.in_map.
Qed.

End trigger.

(** ** Spawning a run *)

Record WorkflowRun := mkWorkflowRun {
  wr_workflow_id : string; wr_workspace_id : string; wr_status : string; wr_started_at : string;
  wr_finished_at : option string
}.
(** The ledger, the ids of the workflow table and the runs. *)
Record SpawnWorld := mkSpawnWorld { sw : World; workflows : gset string; runs : gmap string WorkflowRun }.

Section spawn.
Context `{SerdeJson} `{Sha256} `{Env}.
#[local] Abbreviation S_ A := (M SpawnWorld ActantError A).
Definition on_ledger {A} (m : DB A) : S_ A :=
  fun s => let '(r, w) := m (sw s) in (r, mkSpawnWorld w (workflows s) (runs s)).

Definition insert_run (id : string) (row : WorkflowRun) : S_ unit :=
  fun s =>
    if has (runs s) id then (Err (unique_failed "workflow_run.id"), s)
    else if bool_decide (wr_workflow_id row ∈ workflows s) && has (Storage.workspaces (ledger (sw s))) (wr_workspace_id row)
    then (Ok tt, mkSpawnWorld (sw s) (workflows s) (<[id := row]> (runs s)))
    else (Err fk_failed, s).

Definition spawn_workflow_run (workspace_id workflow_id trigger_id : string) : S_ string :=
  run_id ← on_ledger (new_id "wfr");
  now ← on_ledger now_rfc3339;
  let payload_canon := canonical_json (jobj [("trigger_id", JString trigger_id);
        ("workflow_id", JString workflow_id); ("workflow_run_id", JString run_id)]) in
  let payload_hash := sha256_hex payload_canon in
  prev ← on_ledger (last_event_hash workspace_id None);
  event_id ← on_ledger (new_id "evt");
  on_ledger (append_event (mkAgentEvent event_id workspace_id "act_system" None None "workflow_run_started"
    Control SLow None (Some payload_canon) None payload_hash
    (chain_hash (default genesis prev) payload_hash) now None None (Some run_id) None None None None));;
  insert_run run_id (mkWorkflowRun workflow_id workspace_id "running" now None);;
  mret run_id.

(** What a spawn leaves: the event of a run, and its row unless the workflow or the
    workspace is missing, when the event of a run that never was stays. *)
Lemma spawn_facts workspace_id workflow_id trigger_id s r s' :
  spawn_workflow_run workspace_id workflow_id trigger_id s = (r, s') ->
  workflows s' = workflows s /\
  match r with
  | Ok id =>
      (exists now, runs s' = <[id := mkWorkflowRun workflow_id workspace_id "running" now None]> (runs s)) /\
      (exists k e, events (ledger (sw s')) !! k = Some e /\ ev_workflow_run_id (er_event e) = Some id /\
         ev_event_type (er_event e) = "workflow_run_started" /\ ev_workspace_id (er_event e) = workspace_id)
  | Err _ => runs s' = runs s
  end.
Proof.
  unfold spawn_workflow_run, on_ledger, mbind, M_bind, new_id, now_rfc3339, last_event_hash, append_event, insert_row. simpl.
  destruct (has (events _) _); [by intros [= <- <-]|]. destruct (event_fk _ _); [|by intros [= <- <-]].
  unfold insert_run. simpl. destruct (has (runs s) _); [by intros [= <- <-]|].
  destruct (bool_decide _ && _); [|by intros [= <- <-]]. intros [= <- <-]. simpl. split; [done|].
  split; [by eexists|]. eexists _, _. rewrite lookup_insert_eq. split; [done|]. simpl. done.
Qed.

(** [json_enum] of a step status. *)
Definition status_text (st : Flow.StepStatus) : string :=
  match st with
  | Flow.StPending => "pending" | Flow.StRunning => "running" | Flow.StSucceeded => "succeeded"
  | Flow.StFailed => "failed" | Flow.StSkipped => "skipped" | Flow.StAwaitingApproval => "awaitingapproval"
  end.
(** [persist_run] of actant-flow: one row, that starts and ends now. *)
Definition persist_run (workspace workflow_id : string) (run : Flow.Run) : S_ unit :=
  now ← on_ledger now_rfc3339;
  insert_run (Flow.r_id run) (mkWorkflowRun workflow_id workspace (status_text (Flow.r_status run)) now (Some now)).

(** A run is persisted once: its row has the status it was given, and a second call
    for it fails and changes no row. *)
Theorem persist_run_once (workspace workflow_id : string) (run run' : Flow.Run) (s s1 : SpawnWorld) :
  persist_run workspace workflow_id run s = (Ok tt, s1) -> Flow.r_id run' = Flow.r_id run ->
  (exists now, runs s1 = <[Flow.r_id run := mkWorkflowRun workflow_id workspace (status_text (Flow.r_status run)) now (Some now)]> (runs s)) /\
  runs s !! Flow.r_id run = None /\
  (persist_run workspace workflow_id run' s1).1 = Err (unique_failed "workflow_run.id") /\
  runs (persist_run workspace workflow_id run' s1).2 = runs s1.
Proof.
  unfold persist_run, on_ledger, now_rfc3339, mbind, M_bind, insert_run. simpl.
  destruct (has (runs s) (Flow.r_id run)) eqn:Hh; [done|].
  destruct (bool_decide _ && _); [|done]. intros [= <-] ->. simpl.
  assert (Hhas : forall (m : gmap string WorkflowRun) k v, has (<[k := v]> m) k = true)
    by (intros m k v; apply has_true; rewrite lookup_insert_eq; by eexists).
  rewrite Hhas. split; [by eexists|]. split; [by apply has_false|]. done.
Qed.
End spawn.
