(* ===== verification/MemoryStore.v ===== *)
(** * The memory store and its contradictions ([actant-memory/src/lib.rs])

    Active memories, revocation and deletion, and the detection of pairs that
    contradict each other.  Unicode's lower case and letter classes are a
    parameter; the rows come back in the order of the table's scan. *)

From S2P Require Import Prelude Str Json Core Storage Effects.
#[local] Open Scope string_scope.
#[local] Open Scope list_scope.
#[local] Open Scope Z_scope.

Record ConflictRow := mkConflictRow {
  cf_workspace_id : string; cf_a : string; cf_b : string; cf_type : string; cf_detected_at : string
}.
(** The memory and memory_conflict tables, the ids of the workspaces, and the
    positions in the streams of ULIDs and stamps. *)
Record MemWorld := mkMemWorld {
  mems : gmap string Memory; conflicts : gmap string ConflictRow; known : gset string;
  mseq : nat; mtime : nat
}.
#[local] Abbreviation D_ A := (M MemWorld ActantError A).

Section memory.
Context `{Env} `{RowOrder} `{Unicode}.

Definition draw_now : D_ string :=
  fun w => (Ok (clock (mtime w)), mkMemWorld (mems w) (conflicts w) (known w) (mseq w) (S (mtime w))).
Definition draw_ulid : D_ string :=
  fun w => (Ok (ulid (mseq w)), mkMemWorld (mems w) (conflicts w) (known w) (S (mseq w)) (mtime w)).
Definition with_mems (f : gmap string Memory -> gmap string Memory) : D_ unit :=
  modify_st (fun w => mkMemWorld (f (mems w)) (conflicts w) (known w) (mseq w) (mtime w)).

(** ** Lifecycle *)

Definition active (ws : string) (m : Memory) : bool :=
  String.eqb (mem_workspace_id m) ws && bool_decide (mem_revoked_at m = None) && bool_decide (mem_deleted_at m = None).
(** [ORDER BY created_at DESC]. *)
Definition newer_first (a b : Memory) : Prop := cmp_le (cmp:=String.compare) (mem_created_at b) (mem_created_at a) = true.
#[global] Instance newer_first_dec a b : Decision (newer_first a b).
Proof. unfold newer_first. apply _. Defined.
Definition active_rows (ws : string) (m : gmap string Memory) : list Memory :=
  merge_sort newer_first (List.filter (active ws) (rows m)).
Definition list_active (ws : string) : D_ (list Memory) := fun w => (Ok (active_rows ws (mems w)), w).

Definition revoked (now : string) (m : Memory) : Memory :=
  mkMemory (mem_id m) (mem_workspace_id m) (mem_text m) (mem_category m) (mem_sensitivity m)
    (mem_confidence m) (mem_scope m) (mem_source_candidate_id m) (mem_source_event_ids m)
    (mem_embedding_ref_id m) (mem_usage_count m) (mem_last_used_at m) (mem_expires_at m) (Some now)
    (mem_deleted_at m) (mem_created_at m).
Definition scrubbed (now : string) (m : Memory) : Memory :=
  mkMemory (mem_id m) (mem_workspace_id m) "" (mem_category m) (mem_sensitivity m)
    (mem_confidence m) (mem_scope m) (mem_source_candidate_id m) (mem_source_event_ids m)
    None (mem_usage_count m) (mem_last_used_at m) (mem_expires_at m) (mem_revoked_at m)
    (Some now) (mem_created_at m).
Definition revoke (id : string) : D_ unit := now ← draw_now; with_mems (alter (revoked now) id).
Definition delete_memory (id : string) : D_ unit := now ← draw_now; with_mems (alter (scrubbed now) id).

(** ** Contradictions *)

Definition tokens (s : string) : gset string := list_to_set (words (to_lowercase s)).
Definition jaccard (a b : string) : f64 :=
  let ta := tokens a in let tb := tokens b in
  if bool_decide (ta = ∅) && bool_decide (tb = ∅) then f64_of_Z 1
  else
    let i := f64_of_Z (Z.of_nat (size (ta ∩ tb))) in
    let u := f64_of_Z (Z.of_nat (size (ta ∪ tb))) in
    if f64_eqb u (f64_of_Z 0) then f64_of_Z 0 else f64_div i u.

Definition polarity_pairs : list (string * string) :=
  [("is not", "is "); ("always", "never"); ("must", "must not"); ("can", "cannot"); ("does not", "does ")].
Definition opposed_by (a b : string) (pq : string * string) : bool :=
  let '(p, q) := pq in
  (str_contains p a && str_contains q b && negb (str_contains p b))
  || (str_contains p b && str_contains q a && negb (str_contains p a)).
Definition opposing_polarity (a b : string) : bool :=
  List.existsb (opposed_by (to_lowercase a) (to_lowercase b)) polarity_pairs.

Definition contradict (threshold : f64) (a b : Memory) : bool :=
  negb (f64_ltb (jaccard (mem_text a) (mem_text b)) threshold) && opposing_polarity (mem_text a) (mem_text b).

(** [INSERT OR IGNORE]: a key or a pair that is there leaves the table alone; a
    memory or workspace that is not is an error.  Answers the rows written. *)
Definition has_pair (a b : string) (m : gmap string ConflictRow) : bool :=
  List.existsb (fun r => String.eqb (cf_a r) a && String.eqb (cf_b r) b) (map snd (map_to_list m)).
Definition insert_conflict (id : string) (row : ConflictRow) : D_ nat :=
  fun w =>
    if has (conflicts w) id || has_pair (cf_a row) (cf_b row) (conflicts w) then (Ok O, w)
    else if bool_decide (cf_workspace_id row ∈ known w) && has (mems w) (cf_a row) && has (mems w) (cf_b row)
    then (Ok 1%nat, mkMemWorld (mems w) (<[id := row]> (conflicts w)) (known w) (mseq w) (mtime w))
    else (Err fk_failed, w).

Definition record_conflict (ws : string) (a b : Memory) : D_ nat :=
  u ← draw_ulid;
  now ← draw_now;
  insert_conflict ("mc_" +:+ u) (mkConflictRow ws (mem_id a) (mem_id b) "polarity" now).

(** The inner loop, for one memory and the later ones. *)
Fixpoint against (ws : string) (threshold : f64) (a : Memory) (bs : list Memory) (inserted : nat) : D_ nat :=
  match bs with
  | [] => mret inserted
  | b :: bs' =>
      if contradict threshold a b then
        n ← record_conflict ws a b;
        against ws threshold a bs' (inserted + n)
      else against ws threshold a bs' inserted
  end.
Fixpoint all_pairs (ws : string) (threshold : f64) (ms : list Memory) (inserted : nat) : D_ nat :=
  match ms with
  | [] => mret inserted
  | a :: ms' => n ← against ws threshold a ms' inserted; all_pairs ws threshold ms' n
  end.
Definition detect_conflicts (ws : string) (threshold : f64) : D_ nat :=
  ms ← list_active ws;
  all_pairs ws threshold ms 0.

(** ** What counts as a contradiction *)

Lemma contains_prefix p q s : str_contains (p +:+ q) s = true -> str_contains p s = true.
Proof.
  assert (Hs : forall s, starts_with (p +:+ q) s = true -> starts_with p s = true).
  { unfold starts_with. induction p as [|a p IH]; intros [|b t]; simpl; try done.
    destruct (Ascii.eqb a b); [apply IH|done]. }
  induction s as [|a s IH]; cbn [str_contains]; rewrite !orb_true_iff; intros [Hp|Hp]; auto; try done.
Qed.

(** A text with "must not" has "must", so the pair never opposes anything; likewise
    "cannot" and "can". *)
Lemma pair_never_opposes p q a b : opposed_by a b (p, p +:+ q) = false.
Proof.
  unfold opposed_by. pose proof (contains_prefix p q a) as Ha. pose proof (contains_prefix p q b) as Hb.
  destruct (str_contains (p +:+ q) a); [rewrite (Ha eq_refl)|];
    (destruct (str_contains (p +:+ q) b); [rewrite (Hb eq_refl)|]); simpl;
    rewrite ?andb_false_r; try done; by destruct (str_contains p _).
Qed.

Lemma opposing_polarity_eq a b :
  opposing_polarity a b = List.existsb (opposed_by (to_lowercase a) (to_lowercase b))
    [("is not", "is "); ("always", "never"); ("does not", "does ")].
Proof.
  unfold opposing_polarity, polarity_pairs. cbn [List.existsb].
  pose proof (pair_never_opposes "must" " not" (to_lowercase a) (to_lowercase b)) as H1'.
  pose proof (pair_never_opposes "can" "not" (to_lowercase a) (to_lowercase b)) as H2'.
  change ("must" +:+ " not") with "must not" in H1'. change ("can" +:+ "not") with "cannot" in H2'. by rewrite H1', H2'.
Qed.

Lemma opposed_by_sym a b pq : opposed_by b a pq = opposed_by a b pq.
Proof. destruct pq as [p q]. unfold opposed_by. apply orb_comm. Qed.
Lemma contradict_sym th a b : contradict th b a = contradict th a b.
Proof.
  unfold contradict. f_equal.
  - f_equal. f_equal. unfold jaccard.
    assert (Hi : tokens (mem_text b) ∩ tokens (mem_text a) = tokens (mem_text a) ∩ tokens (mem_text b)) by set_solver.
    assert (Hu : tokens (mem_text b) ∪ tokens (mem_text a) = tokens (mem_text a) ∪ tokens (mem_text b)) by set_solver.
    by rewrite Hi, Hu, andb_comm.
  - unfold opposing_polarity. induction polarity_pairs as [|pq l IH]; [done|]. simpl. by rewrite opposed_by_sym, IH.
Qed.

(** ** The pairs that are recorded *)

Fixpoint later_pairs (ms : list Memory) : list (Memory * Memory) :=
  match ms with [] => [] | a :: ms' => List.map (pair a) ms' ++ later_pairs ms' end.
Definition contradictions (ws : string) (th : f64) (w : MemWorld) : list (Memory * Memory) :=
  List.filter (fun ab => contradict th ab.1 ab.2) (later_pairs (active_rows ws (mems w))).
Fixpoint record_all (ws : string) (ps : list (Memory * Memory)) (inserted : nat) : D_ nat :=
  match ps with
  | [] => mret inserted
  | ab :: ps' => n ← record_conflict ws ab.1 ab.2; record_all ws ps' (inserted + n)
  end.

Lemma record_all_app ws ps qs n w :
  record_all ws (ps ++ qs) n w = (m ← record_all ws ps n; record_all ws qs m) w.
Proof.
  revert n w. induction ps as [|ab ps IH]; intros n w; [done|]. simpl. unfold mbind, M_bind.
  destruct (record_conflict ws ab.1 ab.2 w) as [[k|e] w1]; [|done]. apply IH.
Qed.
Lemma against_pairs ws th a bs n w :
  against ws th a bs n w = record_all ws (List.filter (fun ab => contradict th ab.1 ab.2) (List.map (pair a) bs)) n w.
Proof.
  revert n w. induction bs as [|b bs IH]; intros n w; [done|]. simpl. destruct (contradict th a b); [|apply IH].
  simpl. unfold mbind, M_bind. destruct (record_conflict ws a b w) as [[k|e] w1]; [|done]. apply IH.
Qed.
Lemma all_pairs_eq ws th ms n w :
  all_pairs ws th ms n w = record_all ws (List.filter (fun ab => contradict th ab.1 ab.2) (later_pairs ms)) n w.
Proof.
  revert n w. induction ms as [|a ms IH]; intros n w; [done|]. simpl. rewrite List.filter_app, record_all_app.
  unfold mbind, M_bind. rewrite against_pairs. destruct (record_all ws _ n w) as [[k|e] w1]; [|done]. apply IH.
Qed.
Lemma detect_eq ws th w : detect_conflicts ws th w = record_all ws (contradictions ws th w) 0 w.
Proof. unfold detect_conflicts, list_active, mbind, M_bind. apply all_pairs_eq. Qed.

(** The generator has not yet given an id that is in the table. *)
Definition fresh_ids (w : MemWorld) : Prop :=
  (forall m n, ulid m = ulid n -> m = n) /\ forall k, (mseq w <= k)%nat -> conflicts w !! ("mc_" +:+ ulid k) = None.
Definition pair_in (ab : Memory * Memory) (w : MemWorld) : Prop :=
  has_pair (mem_id ab.1) (mem_id ab.2) (conflicts w) = true.
Definition writable (ws : string) (w : MemWorld) (ps : list (Memory * Memory)) : Prop :=
  ws ∈ known w /\ forall ab, In ab ps -> has (mems w) (mem_id ab.1) = true /\ has (mems w) (mem_id ab.2) = true.

Lemma has_pair_spec a b m : has_pair a b m = true <-> exists id r, m !! id = Some r /\ cf_a r = a /\ cf_b r = b.
Proof.
  unfold has_pair. rewrite List.existsb_exists. split.
  - intros (r & ([k x] & <- & Hin)%List.in_map_iff & Hr). apply andb_prop in Hr as [?%String.eqb_eq ?%String.eqb_eq].
    exists k, x. split; [|done]. by apply elem_of_map_to_list, list_elem_of_In.
  - intros (id & r & Hr & <- & <-). exists r. rewrite !String.eqb_refl. split; [|done]. apply List.in_map_iff.
    exists (id, r). split; [done|]. by apply list_elem_of_In, elem_of_map_to_list.
Qed.

Lemma record_conflict_spec ws a b w :
  fresh_ids w -> ws ∈ known w -> has (mems w) (mem_id a) = true -> has (mems w) (mem_id b) = true ->
  exists n w', record_conflict ws a b w = (Ok n, w') /\ mems w' = mems w /\ known w' = known w /\ fresh_ids w' /\
    if has_pair (mem_id a) (mem_id b) (conflicts w) then n = O /\ conflicts w' = conflicts w
    else n = 1%nat /\ exists id now, conflicts w !! id = None /\
           conflicts w' = <[id := mkConflictRow ws (mem_id a) (mem_id b) "polarity" now]> (conflicts w).
Proof.
  intros [Hinj Hfresh] Hws Ha Hb. unfold record_conflict, insert_conflict, draw_ulid, draw_now, mbind, M_bind. simpl.
  assert (Hid : conflicts w !! ("mc_" +:+ ulid (mseq w)) = None) by (apply Hfresh; lia).
  replace (has (conflicts w) _) with false by (symmetry; by apply has_false). simpl.
  destruct (has_pair _ _ _); simpl.
  - eexists _, _. split; [done|]. simpl. split; [done|]. split; [done|]. split; [|done].
    split; [done|]. simpl. intros k Hk. apply Hfresh. lia.
  - rewrite Ha, Hb, bool_decide_true by done. simpl. eexists _, _. split; [done|]. simpl. split; [done|]. split; [done|].
    split; [|by eauto]. split; [done|]. simpl. intros k Hk. rewrite lookup_insert_ne; [apply Hfresh; lia|].
    intros He. apply append_inj_l, Hinj in He. lia.
Qed.

(** A row a detection may write. *)
Definition conflict_of (ws : string) (ps : list (Memory * Memory)) (r : ConflictRow) : Prop :=
  exists ab now, In ab ps /\ r = mkConflictRow ws (mem_id ab.1) (mem_id ab.2) "polarity" now.

Record recorded (ws : string) (ps : list (Memory * Memory)) (w w' : MemWorld) (n : nat) : Prop := {
  rec_mems : mems w' = mems w; rec_known : known w' = known w; rec_fresh : fresh_ids w';
  rec_kept : forall id r, conflicts w !! id = Some r -> conflicts w' !! id = Some r;
  rec_new : forall id r, conflicts w' !! id = Some r -> conflicts w !! id = Some r \/ conflict_of ws ps r;
  rec_all : forall ab, In ab ps -> pair_in ab w';
  rec_count : size (conflicts w') = (size (conflicts w) + n)%nat;
}.

Lemma record_all_spec ws ps n w :
  fresh_ids w -> writable ws w ps -> exists k w', record_all ws ps n w = (Ok (n + k)%nat, w') /\ recorded ws ps w w' k.
Proof.
  revert n w. induction ps as [|ab ps IH]; intros n w Hf [Hws Hp].
  { exists O, w. split; [simpl; by rewrite Nat.add_0_r|]. split; try done; auto. }
  destruct (Hp ab (or_introl eq_refl)) as [Ha Hb].
  destruct (record_conflict_spec ws ab.1 ab.2 w Hf Hws Ha Hb) as (x & w1 & Hr & Hm & Hk & Hf1 & Hx).
  destruct (IH (n + x)%nat w1 Hf1) as (k & w' & Hall & [Rm Rk Rf Rkept Rnew Rall Rc]).
  { split; [by rewrite Hk|]. intros y Hy. rewrite Hm. apply Hp. by right. }
  exists (x + k)%nat, w'. split.
  { simpl. unfold mbind, M_bind. rewrite Hr, Hall. f_equal. f_equal. lia. }
  assert (Hkept1 : forall id r, conflicts w !! id = Some r -> conflicts w1 !! id = Some r).
  { intros id r Hi. destruct (has_pair _ _ _); destruct Hx as [_ Hx]; [by rewrite Hx|].
    destruct Hx as (id' & now & Hn & ->). rewrite lookup_insert_ne; [done|congruence]. }
  assert (Hin1 : pair_in ab w1).
  { unfold pair_in. destruct (has_pair _ _ (conflicts w)) eqn:Hh; destruct Hx as [_ Hx]; [by rewrite Hx|].
    destruct Hx as (id' & now & Hn & ->). apply has_pair_spec. exists id'. eexists. by rewrite lookup_insert_eq. }
  split.
  - congruence.
  - congruence.
  - done.
  - auto.
  - intros id r Hi. apply Rnew in Hi as [Hi|(y & now & Hy & ->)]; [|right; exists y, now; split; [by right|done]].
    destruct (has_pair _ _ _); destruct Hx as [_ Hx]; [left; by rewrite <- Hx|].
    destruct Hx as (id' & now & Hn & Hc). rewrite Hc in Hi. destruct (decide (id' = id)) as [<-|Hne].
    + rewrite lookup_insert_eq in Hi. injection Hi as <-. right. exists ab, now. split; [by left|done].
    + rewrite lookup_insert_ne in Hi by done. by left.
  - intros y [<-|Hy]; [|by apply Rall]. apply has_pair_spec in Hin1 as (id & r & Hi & He). apply has_pair_spec.
    exists id, r. split; [by apply Rkept|done].
  - rewrite Rc. destruct (has_pair _ _ _); destruct Hx as [-> Hx]; [by rewrite Hx|].
    destruct Hx as (id' & now & Hn & ->). rewrite map_size_insert, Hn. simpl. lia.
Qed.

Lemma record_all_present ws ps n w :
  fresh_ids w -> writable ws w ps -> (forall ab, In ab ps -> pair_in ab w) ->
  exists w', record_all ws ps n w = (Ok n, w') /\ conflicts w' = conflicts w.
Proof.
  revert n w. induction ps as [|ab ps IH]; intros n w Hf [Hws Hp] Hin; [by exists w|].
  destruct (Hp ab (or_introl eq_refl)) as [Ha Hb].
  destruct (record_conflict_spec ws ab.1 ab.2 w Hf Hws Ha Hb) as (x & w1 & Hr & Hm & Hk & Hf1 & Hx).
  pose proof (Hin ab (or_introl eq_refl)) as Hh. unfold pair_in in Hh. rewrite Hh in Hx. destruct Hx as [-> Hc].
  destruct (IH n w1 Hf1) as (w' & Hall & He).
  - split; [by rewrite Hk|]. intros y Hy. rewrite Hm. apply Hp. by right.
  - intros y Hy. unfold pair_in. rewrite Hc. apply Hin. by right.
  - exists w'. split; [|congruence]. simpl. unfold mbind, M_bind. by rewrite Hr, Nat.add_0_r.
Qed.

Lemma later_pairs_in ms ab : In ab (later_pairs ms) -> In ab.1 ms /\ In ab.2 ms.
Proof.
  induction ms as [|a ms IH]; simpl; [done|]. intros [Hin|Hin]%in_app_or; [|naive_solver].
  apply List.in_map_iff in Hin as (b & <- & Hb). simpl. auto.
Qed.

(** Memories are kept under their own id, in workspaces that exist. *)
Definition mems_ok (w : MemWorld) : Prop :=
  forall k m, mems w !! k = Some m -> mem_id m = k /\ mem_workspace_id m ∈ known w.

Lemma contradictions_writable ws th w :
  mems_ok w -> contradictions ws th w <> [] -> writable ws w (contradictions ws th w).
Proof.
  intros Hok Hne.
  assert (Hin : forall m, In m (active_rows ws (mems w)) -> has (mems w) (mem_id m) = true /\ ws ∈ known w).
  { intros m Hm. unfold active_rows in Hm. rewrite merge_sort_Permutation in Hm.
    apply List.filter_In in Hm as [[k Hk]%rows_In Hact].
    destruct (Hok _ _ Hk) as [He Hw]. split; [apply has_true; rewrite He; eauto|].
    unfold active in Hact. apply andb_prop in Hact as [[Hws _]%andb_prop _]. apply String.eqb_eq in Hws as <-. done. }
  assert (Hp : forall ab, In ab (contradictions ws th w) -> In ab.1 (active_rows ws (mems w)) /\ In ab.2 (active_rows ws (mems w))).
  { intros ab [Hab _]%List.filter_In. by apply later_pairs_in. }
  split.
  - destruct (contradictions ws th w) as [|ab ps]; [done|]. destruct (Hp ab (or_introl eq_refl)) as [Ha _].
    by apply Hin in Ha as [_ ?].
  - intros ab Hab. destruct (Hp ab Hab) as [Ha Hb]. split; by apply Hin.
Qed.

(** A detection always ends well on a consistent store: afterwards every
    contradicting pair of active memories of the workspace has its row, newer memory
    first, every row from before is kept and every new one is for such a pair, the
    answer is how many are new, and no memory is touched.  Asked again, it finds
    nothing new.  The pairs "must"/"must not" and "can"/"cannot" never oppose. *)
Theorem detect_conflicts_spec (ws : string) (threshold : f64) (w : MemWorld) :
  mems_ok w -> fresh_ids w ->
  (exists n w', detect_conflicts ws threshold w = (Ok n, w') /\
    recorded ws (contradictions ws threshold w) w w' n /\
    exists w2, detect_conflicts ws threshold w' = (Ok O, w2) /\ conflicts w2 = conflicts w') /\
  forall a b, opposing_polarity a b = List.existsb (opposed_by (to_lowercase a) (to_lowercase b))
    [("is not", "is "); ("always", "never"); ("does not", "does ")].
Proof.
  intros Hok Hf. split; [|apply opposing_polarity_eq]. rewrite detect_eq.
  destruct (contradictions ws threshold w) as [|p ps] eqn:Hc.
  { exists O, w. split; [done|]. split; [split; try done; auto|]. exists w. by rewrite detect_eq, Hc. }
  pose proof (contradictions_writable ws threshold w Hok) as Hw. rewrite Hc in Hw. specialize (Hw ltac:(done)).
  destruct (record_all_spec ws (p :: ps) 0 w Hf Hw) as (k & w' & Hr & Hrec). exists k, w'.
  split; [done|]. split; [done|]. destruct Hrec as [Rm Rk Rf _ _ Rall _].
  assert (Hc' : contradictions ws threshold w' = p :: ps) by (unfold contradictions in *; by rewrite Rm).
  rewrite detect_eq, Hc'. apply record_all_present; [done| |done].
  destruct Hw as [? Hw]. split; [by rewrite Rk|]. intros ab Hab. rewrite Rm. by apply Hw.
Qed.

(** Revoking or deleting a memory takes it out of the active ones and leaves
    every other memory as it was; a deleted one keeps neither its text nor its
    embedding.  An id that is not there changes no memory. *)
Theorem revoke_and_delete (id ws : string) (w : MemWorld) :
  mems_ok w ->
  (forall k, k <> id -> mems (revoke id w).2 !! k = mems w !! k /\ mems (delete_memory id w).2 !! k = mems w !! k) /\
  (mems w !! id = None -> mems (revoke id w).2 = mems w /\ mems (delete_memory id w).2 = mems w) /\
  (forall m, In m (active_rows ws (mems (revoke id w).2)) -> mem_id m <> id) /\
  (forall m, In m (active_rows ws (mems (delete_memory id w).2)) -> mem_id m <> id) /\
  (forall m, mems (delete_memory id w).2 !! id = Some m -> mem_text m = "" /\ mem_embedding_ref_id m = None).
Proof.
  intros Hok.
  assert (Hgone : forall f, (forall m, mem_id (f m) = mem_id m) -> (forall m, active ws (f m) = false) ->
    forall m, In m (active_rows ws (alter f id (mems w))) -> mem_id m <> id).
  { intros f Hid Hact m Hm He. unfold active_rows in Hm. rewrite merge_sort_Permutation in Hm.
    apply List.filter_In in Hm as [[k Hx]%rows_In Ha]. destruct (decide (k = id)) as [->|Hne].
    - rewrite lookup_alter_eq in Hx. apply fmap_Some_1 in Hx as (y & _ & ->). by rewrite Hact in Ha.
    - rewrite lookup_alter_ne in Hx by done. destruct (Hok _ _ Hx). congruence. }
  simpl. split; [intros k Hk; by rewrite !lookup_alter_ne by done|]. split; [|split; [|split]].
  - intros Hn. split; apply map_eq; intros k; (destruct (decide (k = id)) as [->|Hne];
      [by rewrite lookup_alter_eq, Hn|by rewrite lookup_alter_ne by done]).
  - apply Hgone; [done|]. intros m. unfold active. simpl. by rewrite andb_false_r.
  - apply Hgone; [done|]. intros m. unfold active. simpl. by rewrite andb_false_r.
  - intros m. rewrite lookup_alter_eq. intros (y & _ & ->)%fmap_Some_1. done.
Qed.
End memory.
