(* ===== verification/PrimitivesDemo.v ===== *)
(** * Runs of the small primitives: drift, compensation, tenancy, a store of
    contradicting memories, schedules and spawns, and a worker over the queue *)

From Stdlib Require Import SpecFloat.
From S2P Require Import Prelude Str Hlc Json Compat Core Policy Storage Command EngineDemo Prog Effects EffectsRace EffectsInv EffectsDemo Worker Auth Trigger MemoryStore Primitives.
#[local] Open Scope string_scope.
#[local] Open Scope list_scope.
#[local] Open Scope Z_scope.

(** ** Drift, compensation and tenancy *)

#[local] Existing Instance demo_env.

Definition ev (n t : string) (payload : option string) : AgentEvent :=
  mkAgentEvent n "ws" "bot" (Some "s") None t Audit SLow None payload None "h" "h" n None None None None None None None.
Definition with_events (es : list AgentEvent) : World :=
  mkWorld (set_events (list_to_map (List.map (fun e => (ev_id e, mkEventRow e "_legacy_" (0, 0))) es)) empty_ledger) 0 0.

(** Two approvals for one call: the density is 2, and the score more than 1,
    although both are documented to stay in [0, 1]. *)
Example score_past_one :
  let s := score_of [ev "1" "tool_call_requested" None; ev "2" "approval_required" None; ev "3" "approval_required" None;
                     ev "4" "approval_required" None; ev "5" "approval_required" None] in
  approval_density s = f64_of_Z 4 /\ exceeds s (f64_of_Z 1) = true.
Proof. vm_compute. auto. Qed.

(** A call that ended well with [error: null] counts as an error. *)
Example null_error_counted :
  let q := String "034"%char "" in
  let payload := "{" +:+ q +:+ "error" +:+ q +:+ ":null," +:+ q +:+ "status" +:+ q +:+ ":" +:+ q +:+ "ok" +:+ q +:+ "}" in
  error_rate (score_of [ev "1" "tool_call_finished" (Some payload)]) = f64_of_Z 1.
Proof. vm_compute. reflexivity. Qed.

Definition comp_world : CompWorld :=
  mkCompWorld (mkWorld (set_workspaces {["ws" := mkWorkspace "ws" "w" "t0" None]} empty_ledger) 0 0) {["eff"]} ∅.
(** A plan can be consumed twice, and one that is not there can be consumed. *)
Example consumed_twice :
  match Primitives.generate "ws" "eff" Reversible None comp_world with
  | (Ok (Some p), w1) =>
      let w2 := (mark_consumed (cp_id p) w1).2 in
      let '(again, w3) := mark_consumed (cp_id p) w2 in
      again = Ok tt /\ pl_consumed_at <$> plans w3 !! cp_id p <> pl_consumed_at <$> plans w2 !! cp_id p /\
      (mark_consumed "no such plan" w3).1 = Ok tt
  | _ => False
  end.
Proof. vm_compute. split; [reflexivity|]. split; [discriminate|reflexivity]. Qed.

(** ** A store of contradicting memories *)

#[local] Existing Instance key_order.

(** The ASCII part of Unicode. *)
Fixpoint ascii_words (s : string) (acc : string) : list string :=
  let flush := if String.eqb acc "" then [] else [acc] in
  match s with
  | EmptyString => flush
  | String a s' => if is_alnum a then ascii_words s' (acc +:+ String a EmptyString) else flush ++ ascii_words s' ""
  end.
#[local] Instance ascii_unicode : Unicode := {| to_lowercase := to_ascii_lowercase; words s := ascii_words s "" |}.

Definition demo_memory (id text created : string) (expires : option string) : Memory :=
  mkMemory id "ws" text "preference" SLow None "workspace" (Some "mcand") "[]" (Some "emb") 0 None expires None None created.
Definition demo_mems : MemWorld :=
  mkMemWorld (list_to_map (map (fun m => (mem_id m, m))
    [demo_memory "m1" "Deploys always run on Friday" "1" None;
     demo_memory "m2" "deploys never run on friday" "2" None;
     demo_memory "m3" "You must sign commits" "3" None;
     demo_memory "m4" "you must not sign commits" "4" None])) ∅ {["ws"]} 0 0.
Definition half : f64 := f64_div (f64_of_Z 1) (f64_of_Z 2).

Lemma demo_mems_ok : mems_ok demo_mems.
Proof.
  intros k m Hk. apply elem_of_list_to_map_2, list_elem_of_In in Hk. cbn [map In] in Hk.
  repeat destruct Hk as [Hk|Hk]; try done; injection Hk as <- <-; (split; [reflexivity|vm_compute; reflexivity]).
Qed.
Lemma demo_fresh m : fresh_ids (mkMemWorld m ∅ {["ws"]} 0 0).
Proof.
  split; [|by intros]. intros i j. simpl. intros H. apply (f_equal (parse_digits 0)) in H.
  rewrite !parse_digits_show in H by lia. injection H as H. lia.
Qed.

(** Only the pair of "always" and "never" is recorded, once. *)
Lemma detect_conflicts_spec_witness :
  exists w', detect_conflicts "ws" half demo_mems = (Ok 1%nat, w') /\
    has_pair "m2" "m1" (conflicts w') = true /\ mems w' = mems demo_mems.
Proof.
  destruct (detect_conflicts_spec "ws" half demo_mems demo_mems_ok (demo_fresh _)) as [(n & w' & He & Hr & _) _].
  exists w'. assert (Hn : fst (detect_conflicts "ws" half demo_mems) = Ok 1%nat) by (vm_compute; reflexivity).
  assert (Hp : has_pair "m2" "m1" (conflicts (snd (detect_conflicts "ws" half demo_mems))) = true) by (vm_compute; reflexivity).
  rewrite He in Hn, Hp. simpl in Hn, Hp. injection Hn as ->. split; [exact He|]. split; [exact Hp|]. apply Hr.
Defined.

(** Two that differ by "must" and "must not" only are not found. *)
Example must_not_unseen :
  opposing_polarity "You must sign commits" "you must not sign commits" = false /\
  opposing_polarity "it can fail" "it cannot fail" = false /\
  opposing_polarity "it is red" "it is not red" = true.
Proof. vm_compute. auto. Qed.

Lemma revoke_and_delete_witness :
  List.map mem_id (active_rows "ws" (mems (revoke "m1" demo_mems).2)) = ["m4"; "m3"; "m2"] /\
  mem_text <$> mems (delete_memory "m2" demo_mems).2 !! "m2" = Some "" /\
  mems (revoke "m1" demo_mems).2 !! "m2" = mems demo_mems !! "m2".
Proof.
  split; [vm_compute; reflexivity|]. split; [vm_compute; reflexivity|].
  destruct (revoke_and_delete "m1" "ws" demo_mems demo_mems_ok) as [Hk _].
  assert (Hne : "m2" <> "m1") by discriminate. destruct (Hk "m2" Hne) as [He _]. exact He.
Defined.

(** A memory whose expiry has passed is still active. *)
Example expired_still_active :
  In "m5" (List.map mem_id (active_rows "ws" (<["m5" := demo_memory "m5" "old" "0" (Some "1")]> (mems demo_mems)))).
Proof. vm_compute. tauto. Qed.

(** The same pair is recorded twice when the order of the two flips in between. *)
Definition flipped : MemWorld :=
  let w := (detect_conflicts "ws" half demo_mems).2 in
  mkMemWorld (<["m1" := demo_memory "m1" "Deploys always run on Friday" "9" None]> (mems w)) (conflicts w) (known w)
    (mseq w) (mtime w).
Example pair_in_both_orders :
  (detect_conflicts "ws" half flipped).1 = Ok 1%nat /\
  has_pair "m1" "m2" (conflicts (detect_conflicts "ws" half flipped).2) = true /\
  has_pair "m2" "m1" (conflicts (detect_conflicts "ws" half flipped).2) = true.
Proof. vm_compute. auto. Qed.

(** ** Schedules and spawns *)

#[local] Existing Instance the_serde.
#[local] Existing Instance demo_sha256.

(** A daily and an hourly schedule; dates are the seconds since the epoch. *)
Definition every (n t : Z) : option Z := Some ((t / n + 1) * n).
#[local] Instance demo_dates : Dates := {|
  cron_after e := if String.eqb e "0 0 0 * * * *" then Some (every 86400)
                  else if String.eqb e "0 0 * * * * *" then Some (every 3600) else None;
  chrono_ok t := (0 <=? t) && (t <? 2 ^ 40);
  to_rfc3339 t := if (0 <=? t) && (t <? 2 ^ 38) then Some (show_Z t) else None;
  from_rfc3339 s := parse_digits 0 s;
|}.
Lemma every_cases e f : cron_after e = Some f -> exists n, 0 < n /\ f = every n.
Proof.
  simpl. destruct (String.eqb _ _); [intros [= <-]; by exists 86400|].
  destruct (String.eqb _ _); [intros [= <-]; by exists 3600|done].
Qed.
Lemma every_bounds n t : 0 < n -> t < (t / n + 1) * n <= t + n.
Proof.
  intros Hn. pose proof (Z.div_mod t n ltac:(lia)). pose proof (Z.mod_pos_bound t n Hn). nia.
Qed.
#[local] Instance demo_dates_laws : DatesLaws.
Proof.
  split.
  - intros e f t m (n & Hn & ->)%every_cases [= <-]. by apply every_bounds.
  - intros e f t m k (n & Hn & ->)%every_cases [= <-] [= Hk] Hlt.
    rewrite <- Hk in *. pose proof (every_bounds n t Hn). pose proof (every_bounds n (k - 1) Hn).
    assert (t / n <= (k - 1) / n) by (apply Z.div_le_mono; lia). nia.
  - intros e f t m (n & Hn & ->)%every_cases [= <-]. unfold every. f_equal.
    replace ((t / n + 1) * n - 1) with ((n - 1) + (t / n) * n) by ring.
    rewrite Z.div_add by lia. rewrite Z.div_small by lia. lia.
  - intros e f t m (n & Hn & ->)%every_cases _ _. by eexists.
  - intros t s. simpl. destruct (_ && _) eqn:Ht; [|done]. intros [= <-]. apply parse_digits_show. lia.
Qed.

Definition cron_reg (id e : string) (last : option string) : Registration :=
  mkRegistration id "digest" (Cron e) "daily-digest" last true.
Definition demo_regs : Scheduler := register (cron_reg "t2" "0 0 * * * * *" (Some "0")) (register (cron_reg "t1" "0 0 0 * * * *" None) new_scheduler).

(** Ticks every twenty minutes around midnight, the clock once set back. *)
Definition demo_run := run [85000; 86400; 87600; 86000; 88800; 90001] demo_regs.
Example demo_log :
  demo_run.1 = Some [(85000, Fire "t2" "daily-digest"); (86400, Fire "t1" "daily-digest");
                     (86400, Fire "t2" "daily-digest"); (90001, Fire "t2" "daily-digest")].
Proof. vm_compute. reflexivity. Qed.


(** A registration that never fired is due at once, for every instant since 1970;
    instants missed while nothing ticked count once. *)
Example never_fired_is_due :
  (tick 86400000 (register (cron_reg "t1" "0 0 * * * * *" None) new_scheduler)).1 = Some [Fire "t1" "daily-digest"] /\
  (run [86400000; 86400001] (register (cron_reg "t1" "0 0 * * * * *" None) new_scheduler)).1
    = Some [(86400000, Fire "t1" "daily-digest")].
Proof. vm_compute. auto. Qed.

(** A date chrono knows and the time crate does not panics. *)
Example far_future_panics : (tick (2 ^ 39) demo_regs).1 = None.
Proof. vm_compute. reflexivity. Qed.

(** The workflow is missing: the Chronicle has the start of a run that is in no table. *)
Definition spawn_world : SpawnWorld :=
  mkSpawnWorld (run_all [open_session; ("ws", "act_system", "create_session", jobj [])] fresh) ∅ ∅.
Example spawn_leaves_event :
  let out := spawn_workflow_run "ws" "wf_gone" "t1" spawn_world in
  out.1 = Err fk_failed /\ runs out.2 = ∅ /\
  size (events (ledger (sw out.2))) = S (size (events (ledger (sw spawn_world)))).
Proof. vm_compute. auto. Qed.

(** ** A worker *)

(** Ids and stamps count in unary. *)
#[local] Instance unary_env : Env := Build_Env ticks ticks.
#[local] Existing Instance tick_lease.

(** As the file worker declares itself: [file.read] first, [file.write] too. *)
Definition file_handler : Handler :=
  mkHandler "file.read" ["file.read"; "file.write"] (fun _ input => Ok input).
Definition shell_handler : Handler :=
  mkHandler "shell.run" [] (fun _ _ => Err (InvalidInput "no")).
Definition file_worker : WorkerRunner :=
  mkWorkerRunner (mkWorkerDescriptor "ws" "bot" "file" ["file.read"; "file.write"; "shell.run"]) "wrk"
    [file_handler; shell_handler].

Definition queue_of (types : list string) : QWorld :=
  fold_left (fun w t => run_op (OCall (CEnqueue "ws" "cmd" "bot" t JNull RLow)) w) types
    (run_op (OCall (CRegister (a_worker "wrk") [])) empty_queue).
Definition outcomes (w : QWorld) : list (string * EffectStatus * option string) :=
  map (fun e => (eff_effect_type e, eff_status e, eff_error e)) (rows (effects (queue w))).

Lemma ulid_inj m n : ulid m = ulid n -> m = n.
Proof. simpl. revert n. induction m as [|m IH]; intros [|n] Heq; simplify_eq/=; auto. Qed.

Lemma queue_of_ok types : queue_ok (queue (queue_of types)).
Proof.
  unfold queue_of. generalize (run_op_ok (OCall (CRegister (a_worker "wrk") [])) empty_queue empty_queue_ok).
  generalize (run_op (OCall (CRegister (a_worker "wrk") [])) empty_queue).
  induction types as [|t types IH]; intros w Hok; cbn [fold_left]; [done|]. by apply IH, run_op_ok.
Qed.

Definition three_effects : QWorld := queue_of ["file.read"; "mail"; "shell.run"].

Lemma three_effects_drainable : drainable file_worker three_effects.
Proof.
  assert (Hc : claims (queue three_effects) = ∅) by (vm_compute; reflexivity).
  split; [apply queue_of_ok|vm_compute; reflexivity|intros n _; by rewrite Hc|].
  intros k c. by rewrite Hc.
Qed.

Lemma worker_drains_witness :
  outcomes (exec (rounds file_worker 2) three_effects).2 =
    [("shell.run", EFailed, Some "invalid input: no"); ("mail", EPending, None); ("file.read", ESucceeded, None)] /\
  exists w', exec (rounds file_worker 2) three_effects = (Ok tt, w').
Proof.
  split; [vm_compute; reflexivity|].
  destruct (worker_drains file_worker ulid_inj 2 three_effects three_effects_drainable) as (w' & Hw' & _);
    [vm_compute; lia|by exists w'].
Defined.

(** The worker advertises [file.write] and its handler serves it, but [execute]
    looks at [effect_type] only: the effect is claimed and failed. *)
Example second_type_not_served :
  In "file.write" (h_effect_types file_handler) /\
  outcomes (exec (rounds file_worker 1) (queue_of ["file.write"])).2 =
    [("file.write", EFailed, Some "no handler for effect_type")].
Proof. split; [vm_compute; auto|vm_compute; reflexivity]. Qed.

(** [run] would create the worker's actor, but registers first, and fails. *)
Example actor_ensured_too_late :
  let r := mkWorkerRunner (mkWorkerDescriptor "ws" "new actor" "w" []) "wrk" [] in
  let out := exec (Worker.run "0.1.0" r 3) empty_queue in
  out.1 = Err fk_failed /\ bool_decide ("new actor" ∈ known_actors (queue out.2)) = false /\
  bool_decide ("new actor" ∈ known_actors (queue (exec (maybe_ensure_actor r) empty_queue).2)) = true.
Proof. vm_compute. auto. Qed.

(** A worker that stops between the claim's [UPDATE] and its [INSERT] leaves an
    effect that is claimed under no lease: no reaping ever returns it. *)
Example cut_off_claim_is_stranded :
  let cut := (run_schedule [0; 0; 0; 0; 0]%nat [claim_one "wrk" "ws" ["file.read"]]
                (queue_of ["file.read"])).2 in
  outcomes cut = [("file.read", EClaimed, None)] /\ claims (queue cut) = ∅ /\
  forall t, exec reap_expired (mkQWorld (queue cut) (qseq cut) t) =
    (Ok 0%nat, mkQWorld (queue cut) (qseq cut) (S t)).
Proof.
  intros cut. split; [vm_compute; reflexivity|].
  assert (Hc : claims (queue cut) = ∅) by (vm_compute; reflexivity). split; [done|].
  intros t. rewrite exec_reap. cbn [queue qseq qtime].
  replace (expired_claims (clock t) (queue cut)) with (@nil Expired); [done|].
  unfold expired_claims. rewrite Hc. by vm_compute.
Qed.
