(* ===== verification/GraphQl.v ===== *)
(** * The GraphQL endpoint ([actant-server/src/graphql_api.rs])

    Every exposed table is a query field, and one mutation hands a command to the
    engine.  Parsing, validation and execution order are async-graphql's: a request
    is the field calls it comes to, with their coerced arguments.  The tables are
    the generic view of AutoRest.v, whose statements the resolvers build. *)

From Stdlib Require Import SpecFloat.
From S2P Require Import Prelude Str Json Core Policy Storage Command Throttle Auth Prog Server AuthRoutes HttpAuth AutoRest RestIsolation.
#[local] Open Scope string_scope.
#[local] Open Scope list_scope.
#[local] Open Scope Z_scope.

(** ** Values *)

#[local] Set Warnings "-register-all".

Inductive GqlValue :=
| GNull
| GNumber (n : Number)
| GString (s : string)
| GBoolean (b : bool)
| GEnum (s : string)
| GBinary (s : string)
| GList (l : list GqlValue)
| GObject (m : list (string * GqlValue)).

(** [IndexMap::insert]: in place when the key is there, else at the end. *)
Fixpoint ix_insert {A} (k : string) (v : A) (m : list (string * A)) : list (string * A) :=
  match m with
  | [] => [(k, v)]
  | (k', v') :: m' => if String.eqb k k' then (k', v) :: m' else (k', v') :: ix_insert k v m'
  end.

Definition i64_number (n : Z) : Number := if 0 <=? n then PosInt n else NegInt n.
Definition finite (x : f64) : bool := match x with S754_zero _ | S754_finite _ _ _ => true | _ => false end.
(** The arms of the two conversions for numbers: an [i64] stays, anything else is a float. *)
Definition number_to_gql (n : Number) : GqlValue :=
  match as_i64 (JNumber n) with
  | Some i => GNumber (i64_number i)
  | None => GNumber (if finite (num_as_f64 n) then Float (num_as_f64 n) else PosInt 0)
  end.
Definition number_to_json (n : Number) : Json :=
  match as_i64 (JNumber n) with
  | Some i => JNumber (i64_number i)
  | None => json_of_f64 (num_as_f64 n)
  end.

Fixpoint json_to_gql (v : Json) : GqlValue :=
  match v with
  | JNull => GNull
  | JBool b => GBoolean b
  | JNumber n => number_to_gql n
  | JString s => GString s
  | JArray a => GList (List.map json_to_gql a)
  | JObject o => GObject (fold_left (fun m '(k, x) => ix_insert k (json_to_gql x) m) o [])
  end.
Fixpoint gql_to_json (v : GqlValue) : Json :=
  match v with
  | GNull => JNull
  | GBoolean b => JBool b
  | GNumber n => number_to_json n
  | GString s => JString s
  | GEnum s => JString s
  | GList l => JArray (List.map gql_to_json l)
  | GObject o => JObject (fold_left (fun m '(k, x) => bt_insert k (gql_to_json x) m) o [])
  | GBinary _ => JNull
  end.

(** ** Requests *)

Abbreviation Args := (list (string * GqlValue)).
(** A root field a request selects, with its arguments as the schema coerces them. *)
Inductive FieldCall := QueryField (tbl : TableMeta) (args : Args) | CommandField (args : Args).
Record GqlRequest := mkGqlRequest { variables : Args; document : string }.

(** What is async-graphql's: how a value prints, what the accessors of an argument
    take, whether a schema builds, the calls a valid request comes to (or the
    response to an invalid one), when a failed field stops the next, and the
    response made of the answers. *)
Class GraphQl := {
  gql_display : GqlValue -> string;
  gql_string : GqlValue -> result string string;
  gql_i64 : GqlValue -> option Z;
  gql_object : GqlValue -> option Args;
  gql_missing : string -> string;
  schema_error : SchemaCache -> option string;
  root_calls : SchemaCache -> GqlRequest -> result Json (list FieldCall);
  goes_on : list (result string GqlValue) -> bool;
  gql_answer : GqlRequest -> list (result string GqlValue) -> Json;
}.
(** A string is taken as it is, and only fields of the schema are called. *)
Class GraphQlLaws `{GraphQl} : Prop := {
  string_taken : forall s, gql_string (GString s) = Ok s;
  calls_of_schema : forall cache req l tbl args,
    root_calls cache req = Ok l -> In (QueryField tbl args) l -> exists name, table cache name = Some tbl;
}.

(** The first request that has a variable [workspace_id], if it is a string. *)
Fixpoint first_workspace (reqs : list GqlRequest) : option string :=
  match reqs with
  | [] => None
  | r :: reqs' =>
      match jlookup "workspace_id" (variables r) with
      | Some v => match v with GString s => Some s | _ => None end
      | None => first_workspace reqs'
      end
  end.

Section graphql.
Context `{GraphQl} `{Sqlite} `{SerdeJson} `{Regex} `{Env} `{ServerEnv} `{Rng} `{Sha256} `{Base64} `{Jwt}.

#[local] Abbreviation Resolver A := (M RestWorld string A).

(** [ctx.args.try_get(name)?.string()?]. *)
Definition arg (name : string) (args : Args) : result string GqlValue :=
  match jlookup name args with Some v => Ok v | None => Err (gql_missing name) end.
Definition string_arg (name : string) (args : Args) : result string string :=
  v ← arg name args; gql_string v.
(** [.try_get(name).ok().and_then(...)]. *)
Definition opt_i64 (name : string) (args : Args) : option Z := v ← jlookup name args; gql_i64 v.
Definition opt_string (name : string) (args : Args) : option string :=
  v ← jlookup name args; match gql_string v with Ok s => Some s | Err _ => None end.

Definition gql_value_to_string (v : GqlValue) : string :=
  match v with
  | GString s => s
  | GNumber n => to_string (JNumber n)
  | GBoolean b => if b then "1" else "0"
  | GNull => ""
  | other => gql_display other
  end.

Definition unknown_gql_column (col : string) (tbl : TableMeta) : string :=
  "unknown column '" +:+ col +:+ "' on table '" +:+ t_name tbl +:+ "'".
Definition parse_order_by (spec : string) (tbl : TableMeta) : result string (string * bool) :=
  let '(col, tail) := split_once "."%char spec in
  let dir := default "asc" tail in
  if negb (has_column tbl col) then Err (unknown_gql_column col tbl)
  else if String.eqb dir "asc" || String.eqb dir "" then Ok (col, true)
  else if String.eqb dir "desc" then Ok (col, false)
  else Err ("invalid order direction '" +:+ dir +:+ "'").

(** Each member of [where] is an equality on a known column. *)
Fixpoint where_filters (tbl : TableMeta) (obj : Args) : result string (list Filter) :=
  match obj with
  | [] => Ok []
  | (k, v) :: obj' =>
      if negb (has_column tbl k) then Err (unknown_gql_column k tbl)
      else rest ← where_filters tbl obj'; mret (mkFilter k (FEq (gql_value_to_string v)) false :: rest)
  end.
Definition where_arg (tbl : TableMeta) (args : Args) : result string (list Filter) :=
  match jlookup "where" args with
  | None => Ok []
  | Some v => match gql_object v with None => Ok [] | Some obj => where_filters tbl obj end
  end.

Definition gql_params (tbl : TableMeta) (args : Args) : result string RequestParams :=
  ws ← string_arg "workspace_id" args;
  let limit := Z.min (Z.max (default 100 (opt_i64 "limit" args)) 1) 10000 in
  let offset := Z.max (default 0 (opt_i64 "offset" args)) 0 in
  filters ← where_arg tbl args;
  order ← match opt_string "order_by" args with
          | None => Ok None
          | Some spec => o ← parse_order_by spec tbl; mret (Some o)
          end;
  mret (mkRequestParams ws (List.map c_name (columns tbl)) filters order (Some limit) (Some offset)).

(** The text of the statement; its values are those of [select_binds]. *)
Definition gql_select_text (tbl : TableMeta) (p : RequestParams) : string :=
  "SELECT * FROM " +:+ ident (t_name tbl) +:+ " WHERE workspace_id = ?" +:+ filters_text (rp_filters p)
  +:+ match rp_order p with
      | Some (col, asc) => " ORDER BY " +:+ ident col +:+ (if asc then " ASC" else " DESC")
      | None => "" end
  +:+ match rp_limit p with Some n => " LIMIT " +:+ show_Z n | None => "" end
  +:+ match rp_offset p with Some n => " OFFSET " +:+ show_Z n | None => "" end.

Definition lift_string {A} (r : result string A) : Resolver A := fun w => (r, w).
Definition gql_rows (tbl : TableMeta) (rows : list Row) : GqlValue :=
  GList (List.map (fun r => json_to_gql (row_to_json (List.map c_name (columns tbl)) r)) rows).
Definition run_query (tbl : TableMeta) (args : Args) : Resolver GqlValue :=
  p ← lift_string (gql_params tbl args);
  rows ← run_select tbl p;
  mret (gql_rows tbl rows).

(** [state.engine.dispatch(...)], its error as a text. *)
Definition engine_dispatch (policy : PolicyDoc) (ws actor command_type : string) (input : Json)
    (key : option string) : Resolver CommandOutcome :=
  fun w =>
    let '(r, x) := dispatch policy ws actor command_type input key (world (srv w)) in
    (match r with Ok o => Ok o | Err e => Err (Core.display e) end,
     mkRestWorld (with_world (fun _ => x) (srv w)) (db w)).
Definition run_command (policy : PolicyDoc) (args : Args) : Resolver GqlValue :=
  ws ← lift_string (string_arg "workspace_id" args);
  actor ← lift_string (string_arg "actor_id" args);
  command_type ← lift_string (string_arg "command_type" args);
  input ← lift_string (arg "input" args);
  o ← engine_dispatch policy ws actor command_type (gql_to_json input) (opt_string "idempotency_key" args);
  mret (json_to_gql (jobj [("command_id", JString (co_command_id o)); ("event_id", opt_json (co_event_id o));
                           ("result", co_result o)])).

(** ** The handler *)

Definition run_field (policy : PolicyDoc) (c : FieldCall) : Resolver GqlValue :=
  match c with QueryField tbl args => run_query tbl args | CommandField args => run_command policy args end.
(** The calls of a request, one after the other: an error is a field's answer. *)
Fixpoint run_calls (policy : PolicyDoc) (calls : list FieldCall) (done : list (result string GqlValue)) :
    RestWorld -> list (result string GqlValue) * RestWorld :=
  match calls with
  | [] => fun w => (done, w)
  | c :: calls' => fun w =>
      let '(r, w1) := run_field policy c w in
      if goes_on (done ++ [r]) then run_calls policy calls' (done ++ [r]) w1 else (done ++ [r], w1)
  end.
Definition execute (policy : PolicyDoc) (cache : SchemaCache) (req : GqlRequest) (w : RestWorld) : Json * RestWorld :=
  match root_calls cache req with
  | Err invalid => (invalid, w)
  | Ok calls => let '(rs, w') := run_calls policy calls [] w in (gql_answer req rs, w')
  end.
Fixpoint execute_all (policy : PolicyDoc) (cache : SchemaCache) (reqs : list GqlRequest) (w : RestWorld) :
    list Json * RestWorld :=
  match reqs with
  | [] => ([], w)
  | r :: reqs' =>
      let '(j, w1) := execute policy cache r w in
      let '(js, w2) := execute_all policy cache reqs' w1 in
      (j :: js, w2)
  end.

Definition graphql_unavailable : Response :=
  json_response 503 (error_message "schema_cache_unavailable"
    "GraphQL requires schema cache; call AppState::with_schema_cache at boot").
Definition graphql_handler (policy : PolicyDoc) (cfg : Config) (cache : option SchemaCache) (h : HeaderMap)
    (reqs : list GqlRequest) : Handler Response :=
  match cache with
  | None => throw graphql_unavailable
  | Some c =>
      match first_workspace reqs with
      | Some ws => on_server (exec (enforce_auth cfg h POST ws))
      | None => mret tt
      end;;
      match schema_error c with
      | Some e => throw (json_response 500 (error_message "schema_build_failed" e))
      | None =>
          responses ← (fun w => let '(js, w') := execute_all policy c reqs w in (Ok js, w'));
          mret (json_response 200 (match responses with [one] => one | _ => JArray responses end))
      end
  end.
End graphql.

(** ** Numbers and objects through both conversions *)

Inductive exact : Json -> Prop :=
| exact_null : exact JNull
| exact_bool b : exact (JBool b)
| exact_pos n : 0 <= n <= 2 ^ 63 - 1 -> exact (JNumber (PosInt n))
| exact_neg n : n < 0 -> exact (JNumber (NegInt n))
| exact_float x : finite x = true -> exact (JNumber (Float x))
| exact_string s : exact (JString s)
| exact_array l : Forall exact l -> exact (JArray l)
| exact_object m : keys_sorted m -> Forall (fun kv => exact kv.2) m -> exact (JObject m).

Lemma ix_insert_new {A} k (v : A) m : ~ In k (List.map fst m) -> ix_insert k v m = m ++ [(k, v)].
Proof.
  induction m as [|[k' v'] m IH]; [done|]. simpl. intros Hni.
  destruct (String.eqb_spec k k') as [->|]; [tauto|]. f_equal. apply IH. tauto.
Qed.
Lemma ix_insert_all {A B} (f : A -> B) (m : list (string * A)) :
  List.NoDup (List.map fst m) ->
  fold_left (fun acc '(k, x) => ix_insert k (f x) acc) m [] = List.map (fun kv => (kv.1, f kv.2)) m.
Proof.
  assert (Hg : forall m acc, List.NoDup (List.map fst acc ++ List.map fst m) ->
    fold_left (fun acc '(k, x) => ix_insert k (f x) acc) m acc = acc ++ List.map (fun kv => (kv.1, f kv.2)) m).
  { clear m. induction m as [|[k x] m IH]; intros acc Hn; simpl; [by rewrite app_nil_r|].
    simpl in Hn. rewrite ix_insert_new.
    - rewrite IH, <- app_assoc; [done|]. by rewrite List.map_app, <- app_assoc.
    - apply NoDup_remove_2 in Hn. rewrite in_app_iff in Hn. tauto. }
  intros Hn. by apply (Hg m []).
Qed.
Lemma bt_insert_last {A} k (v : A) m : Forall (fun k' => String.compare k' k = Lt) (List.map fst m) ->
  bt_insert k v m = m ++ [(k, v)].
Proof.
  induction m as [|[k' v'] m IH]; [done|]. simpl. intros Hf. inversion Hf as [|? ? Hk Hf']; subst.
  replace (String.compare k k') with Gt by (by symmetry; apply str_cmp_gt_lt). by rewrite IH.
Qed.
Lemma bt_insert_all {A} (m acc : list (string * A)) :
  keys_sorted (acc ++ m) -> fold_left (fun acc '(k, x) => bt_insert k x acc) m acc = acc ++ m.
Proof.
  revert acc. induction m as [|[k x] m IH]; intros acc Hs; simpl; [by rewrite app_nil_r|].
  assert (Hk : Forall (fun k' => String.compare k' k = Lt) (List.map fst acc)).
  { unfold keys_sorted in Hs. rewrite List.map_app in Hs. clear IH. induction acc as [|[k' y] acc IH]; [done|].
    simpl in *. apply StronglySorted_inv in Hs as [Hs Hf]. constructor; [|by apply IH].
    rewrite List.Forall_forall in Hf. apply Hf, in_or_app. right. by left. }
  rewrite bt_insert_last by done. rewrite IH; [|by rewrite <- app_assoc]. by rewrite <- app_assoc.
Qed.

Lemma exact_number n : exact (JNumber n) -> gql_to_json (number_to_gql n) = JNumber n.
Proof.
  intros He. inversion He as [| |z Hz|z Hz|x Hx| | |]; subst; unfold number_to_gql; cbn [as_i64].
  - replace (z <=? 2 ^ 63 - 1) with true by (symmetry; apply Z.leb_le; lia). unfold i64_number.
    replace (0 <=? z) with true by (symmetry; apply Z.leb_le; lia). cbn [gql_to_json]. unfold number_to_json. cbn [as_i64].
    replace (z <=? 2 ^ 63 - 1) with true by (symmetry; apply Z.leb_le; lia). unfold i64_number.
    by replace (0 <=? z) with true by (symmetry; apply Z.leb_le; lia).
  - unfold i64_number. replace (0 <=? z) with false by (symmetry; apply Z.leb_gt; lia).
    cbn [gql_to_json]. unfold number_to_json. cbn [as_i64]. unfold i64_number.
    by replace (0 <=? z) with false by (symmetry; apply Z.leb_gt; lia).
  - cbn [num_as_f64]. rewrite Hx. cbn [gql_to_json]. unfold number_to_json. cbn [as_i64 num_as_f64].
    by destruct x.
Qed.

(** A JSON value with no unsigned integer past [i64] and no infinite float passes
    through GraphQL's values unchanged. *)
Theorem json_gql_round_trip (v : Json) : exact v -> gql_to_json (json_to_gql v) = v.
Proof.
  induction v as [ |b|n|s|l IH|m IH] using Json_rect'; intros He; try done.
  - by apply exact_number.
  - inversion He as [| | | | | |? Hl|]; subst. simpl. f_equal. rewrite List.map_map.
    clear He. induction l as [|x l IHl]; [done|]. simpl.
    apply Forall_cons in IH as [Hx IH]. apply Forall_cons in Hl as [Hex Hl].
    by rewrite (Hx Hex), IHl.
  - inversion He as [| | | | | | |? Hs Hm]; subst. simpl.
    rewrite (ix_insert_all json_to_gql) by by apply keys_sorted_NoDup.
    f_equal. rewrite <- (app_nil_l m) at 2. rewrite <- (bt_insert_all m []) by done.
    generalize (@nil (string * Json)). clear He Hs. induction m as [|[k x] m IHm]; intros acc; [done|]. simpl.
    apply Forall_cons in IH as [Hx IH]. apply Forall_cons in Hm as [Hex Hm]. simpl in *.
    rewrite (Hx Hex). by apply IHm.
Qed.

(** ** What a request can see *)

Section isolation.
Context `{GraphQl} `{Sqlite} `{!SqliteLaws} `{!GraphQlLaws} `{SerdeJson} `{Regex} `{Env} `{ServerEnv} `{Rng} `{Sha256} `{Base64} `{Jwt}.

(** The rows of a workspace in a table. *)
Definition own (ws t : string) (d : RestDb) : list Row := List.filter (of_workspace ws) (rows_of t d).
(** Two states of the server that differ at most in rows of other workspaces. *)
Definition agree (ws : string) (w1 w2 : RestWorld) : Prop :=
  srv w1 = srv w2 /\ forall t, own ws t (db w1) = own ws t (db w2).
Definition names (ws : string) (c : FieldCall) : Prop :=
  string_arg "workspace_id" (match c with QueryField _ args | CommandField args => args end) = Ok ws.
Definition all_name (cache : SchemaCache) (ws : string) (reqs : list GqlRequest) : Prop :=
  forall req calls, In req reqs -> root_calls cache req = Ok calls -> Forall (names ws) calls.

Lemma filter_and {A} (P Q : A -> bool) l :
  List.filter (fun x => P x && Q x) l = List.filter Q (List.filter P l).
Proof. induction l as [|x l IH]; [done|]. simpl. destruct (P x); simpl; by rewrite ?IH. Qed.

Lemma run_select_agree tbl p w1 w2 :
  scoped_by_text [tbl] -> agree (rp_workspace_id p) w1 w2 -> (run_select tbl p w1).1 = (run_select tbl p w2).1.
Proof.
  intros Hs [_ Ho]. unfold run_select. destruct (has_column tbl "workspace_id") eqn:Hc; [|done]. simpl.
  apply has_column_find in Hc as [c Hc].
  assert (Hw : forall d, List.filter (where_holds tbl (rp_workspace_id p) (rp_filters p)) (rows_of (t_name tbl) d)
    = List.filter (fun r => List.forallb (filter_holds tbl r) (rp_filters p)) (own (rp_workspace_id p) (t_name tbl) d)).
  { intros d. unfold own. rewrite <- filter_and. apply List.filter_ext. intros r. unfold where_holds.
    erewrite in_workspace_spec; [done|done|]. eapply Hs; [by left|done]. }
  rewrite !Hw, Ho. by destruct (rp_select p), (rp_limit p), (rp_offset p).
Qed.

Lemma gql_params_ws tbl args p ws :
  gql_params tbl args = Ok p -> string_arg "workspace_id" args = Ok ws -> rp_workspace_id p = ws.
Proof.
  unfold gql_params. intros Hp Hw. rewrite Hw in Hp. simpl in Hp. destruct (where_arg tbl args); [|done].
  simpl in Hp. destruct (opt_string "order_by" args) as [spec|]; [destruct (parse_order_by spec tbl)|];
    simpl in Hp; try done; by injection Hp as <-.
Qed.

Lemma run_query_agree tbl args ws w1 w2 :
  scoped_by_text [tbl] -> string_arg "workspace_id" args = Ok ws -> agree ws w1 w2 ->
  (run_query tbl args w1).1 = (run_query tbl args w2).1 /\ (run_query tbl args w1).2 = w1.
Proof.
  intros Hs Hn Ha. unfold run_query, mbind, M_bind, lift_string.
  destruct (gql_params tbl args) as [p|e] eqn:Hp; [|done].
  pose proof (gql_params_ws _ _ _ _ Hp Hn) as Hw. rewrite <- Hw in Ha.
  pose proof (run_select_agree tbl p w1 w2 Hs Ha) as He.
  destruct (run_select tbl p w1) as [r1 v1] eqn:H1r, (run_select tbl p w2) as [r2 v2] eqn:H2r. simpl in He. subst r2.
  apply run_select_inv in H1r as [-> _]. by destruct r1.
Qed.

Lemma run_command_agree policy args ws w1 w2 :
  agree ws w1 w2 ->
  (run_command policy args w1).1 = (run_command policy args w2).1 /\
  db (run_command policy args w1).2 = db w1 /\ srv (run_command policy args w1).2 = srv (run_command policy args w2).2.
Proof.
  intros [Hs _]. unfold run_command, mbind, M_bind, lift_string.
  destruct (string_arg "workspace_id" args); [|done]. destruct (string_arg "actor_id" args); [|done].
  destruct (string_arg "command_type" args); [|done]. destruct (arg "input" args); [|done].
  unfold engine_dispatch. rewrite <- Hs.
  destruct (dispatch _ _ _ _ _ _ _) as [[o|e] x]; done.
Qed.

Lemma run_field_agree policy c ws w1 w2 :
  (forall tbl args, c = QueryField tbl args -> scoped_by_text [tbl]) -> names ws c -> agree ws w1 w2 ->
  (run_field policy c w1).1 = (run_field policy c w2).1 /\
  db (run_field policy c w1).2 = db w1 /\ agree ws (run_field policy c w1).2 (run_field policy c w2).2.
Proof.
  intros Hs Hn Ha. assert (Hb : agree ws w2 w1) by (destruct Ha; by split).
  destruct c as [tbl args|args]; unfold names in Hn; cbn [run_field].
  - destruct (run_query_agree tbl args ws w1 w2) as [He H1w]; [by eapply Hs|done|done|].
    destruct (run_query_agree tbl args ws w2 w1) as [_ H2w]; [by eapply Hs|done|done|].
    by rewrite H1w, H2w.
  - destruct (run_command_agree policy args ws w1 w2 Ha) as (He & Hd1 & Hv).
    destruct (run_command_agree policy args ws w2 w1 Hb) as (_ & Hd2 & _).
    split; [done|]. split; [done|]. split; [done|]. rewrite Hd1, Hd2. apply Ha.
Qed.

(** Each part of a batch keeps the two states in step. *)
Definition in_step {A} (ws : string) (f : RestWorld -> A * RestWorld) : Prop :=
  forall w1 w2, agree ws w1 w2 -> (f w1).1 = (f w2).1 /\ db (f w1).2 = db w1 /\ agree ws (f w1).2 (f w2).2.

Lemma run_calls_in_step policy ws calls don :
  (forall tbl args, In (QueryField tbl args) calls -> scoped_by_text [tbl]) -> Forall (names ws) calls ->
  in_step ws (run_calls policy calls don).
Proof.
  revert don. induction calls as [|c calls IH]; intros don Hs Hn w1 w2 Ha; [done|]. simpl.
  apply Forall_cons in Hn as [Hc Hn].
  destruct (run_field_agree policy c ws w1 w2) as (He & Hd & Hg); [intros ? ? ->; eapply Hs; by left|done|done|].
  destruct (run_field policy c w1) as [r1 v1], (run_field policy c w2) as [r2 v2]. simpl in *. subst r2.
  destruct (goes_on (don ++ [r1])); [|done].
  destruct (IH (don ++ [r1]) (fun tbl args Hin => Hs tbl args (or_intror Hin)) Hn v1 v2 Hg) as (? & Hd2 & ?).
  split; [done|]. split; [congruence|done].
Qed.

Lemma execute_in_step policy tables ws req :
  scoped_by_text tables -> all_name (introspect tables) ws [req] ->
  in_step ws (execute policy (introspect tables) req).
Proof.
  intros Hs Hn w1 w2 Ha. unfold execute. destruct (root_calls _ req) as [calls|bad] eqn:Hc; [|done].
  destruct (run_calls_in_step policy ws calls []) with (w1 := w1) (w2 := w2) as (He & Hd & Hg); [|by eapply Hn; [left|]|done|].
  { intros tbl args Hin. apply (calls_of_schema _ _ _ _ _ Hc) in Hin as [n Hin]. apply introspect_lookup in Hin as (Hin & _).
    intros t c [<-|[]]. by apply Hs. }
  destruct (run_calls policy calls [] w1), (run_calls policy calls [] w2). simpl in *. by subst.
Qed.

Lemma execute_all_in_step policy tables ws reqs :
  scoped_by_text tables -> all_name (introspect tables) ws reqs ->
  in_step ws (execute_all policy (introspect tables) reqs).
Proof.
  intros Hs. induction reqs as [|req reqs IH]; intros Hn w1 w2 Ha; [done|]. simpl.
  destruct (execute_in_step policy tables ws req Hs) with (w1 := w1) (w2 := w2) as (He & Hd & Hg);
    [intros r l [<-|[]]; apply Hn; by left|done|].
  destruct (execute _ _ req w1) as [j1 v1], (execute _ _ req w2) as [j2 v2]. simpl in *. subst j2.
  destruct (IH (fun r l Hin => Hn r l (or_intror Hin)) v1 v2 Hg) as (Hjs & Hd2 & Hg2).
  destruct (execute_all _ _ reqs v1), (execute_all _ _ reqs v2). simpl in *. subst. split; [done|]. split; [congruence|done].
Qed.

End isolation.
