(* ===== verification/RestDemo.v ===== *)
(** * Concrete requests to the generated routes

    A stand-in for SQLite's comparisons, the witness of [rest_isolated], and
    requests whose answers its documentation does not promise. *)

From S2P Require Import Prelude Str Json Core Policy Storage Command EngineDemo Throttle Auth Prog Server AuthRoutes HttpAuth AuthDemo AutoRest RestIsolation GraphQl.
#[local] Open Scope string_scope.
#[local] Open Scope list_scope.
#[local] Open Scope Z_scope.

#[local] Existing Instance demo_env.
#[local] Existing Instance the_serde.
#[local] Existing Instance demo_sha256.
#[local] Existing Instance demo_b64.
#[local] Existing Instance demo_jwt.
#[local] Existing Instance demo_server_env.
#[local] Existing Instance demo_rng.

(** Text after numbers, blobs after text; numbers against numbers in a numeric column. *)
#[local] Instance demo_sqlite : Sqlite := {|
  sql_compare c v s :=
    match v with
    | VNull => None
    | VText t => Some (String.compare t s)
    | VInt n => if String.eqb (c_type c) "INTEGER"
                then Some (match parse_usize s with Some k => n ?= k | None => Lt end) else Some Lt
    | VReal _ => Some Lt
    | VBlob _ => Some Gt
    end;
  sql_like v s := bool_decide (v = VText s);
  sql_store c s := if String.eqb (c_type c) "INTEGER"
                   then match parse_usize s with Some k => VInt k | None => VText s end else VText s;
  sql_order _ asc l := if asc then l else List.rev l;
  sql_defaults _ := ∅;
  violated _ := None; syntax_error := "syntax error"; no_such_column := "no such column: workspace_id"
|}.
#[local] Instance demo_sqlite_laws : SqliteLaws.
Proof.
  split.
  - intros c s Hc. simpl. by rewrite Hc.
  - intros c v s Hc. simpl. rewrite Hc. simpl. destruct v; try (split; by intros [=]).
    split; [intros [= Hs%str_cmp_eq]; by rewrite Hs|intros [= ->]; by rewrite str_cmp_refl].
  - intros col [] l; simpl; [done|]. symmetry. apply Permutation_rev.
Qed.

Definition text_col (n : string) (pk : bool) : ColumnMeta := mkColumnMeta n "TEXT" true pk.
Definition memory_table : TableMeta :=
  mkTableMeta "memory" [text_col "id" true; text_col "workspace_id" false; text_col "body" false;
                        mkColumnMeta "uses" "INTEGER" false false].
Definition demo_tables : list TableMeta :=
  [memory_table; mkTableMeta "workspace" [text_col "id" true; text_col "name" false];
   mkTableMeta "agent_event" [text_col "id" true; text_col "workspace_id" false];
   mkTableMeta "schema_migration" [text_col "workspace_id" false];
   mkTableMeta "session_token" [text_col "token_hash" true; text_col "workspace_id" false; text_col "csrf_secret" false]].
Definition memory_row (id ws body : string) (uses : Z) : Row :=
  {["id" := VText id; "workspace_id" := VText ws; "body" := VText body; "uses" := VInt uses]}.
Definition demo_rest : RestWorld :=
  mkRestWorld linked_server
    {["memory" := [memory_row "m1" "ws_default" "likes tea" 3; memory_row "m2" "ws_other" "secret" 1;
                   memory_row "m3" "ws_default" "likes dogs" 9];
      "session_token" := [{["token_hash" := VText "h"; "workspace_id" := VText "ws_default"; "csrf_secret" := VText "c"]}]]}.

Definition rest (m : Method) (name : string) (params : list (string * string)) (body : Json) :=
  AutoRest.serve remote (Some (introspect demo_tables)) browser m name params body demo_rest.
Definition mine : string * string := ("workspace_id", "ws_default").
Definition answered (a : result Response Response * RestWorld) : Z * Json :=
  match a.1 with Ok r | Err r => (status r, body r) end.
Definition ids_of (a : result Response Response * RestWorld) : list SqlValue :=
  List.map (fun r => cell r "id") (rows_of "memory" (db a.2)).

Lemma demo_scoped : scoped_by_text demo_tables.
Proof. intros tbl c Hin. repeat (destruct Hin as [<-|Hin]; [by intros [= <-]|]). destruct Hin. Qed.

(** A delete with a filter that also matches another workspace's row. *)
Lemma rest_isolated_witness :
  answered (rest DELETE "memory" [mine; ("id", "neq.m1")] JNull) = (200, jobj [("deleted", JNumber (PosInt 1))]) /\
  ids_of (rest DELETE "memory" [mine; ("id", "neq.m1")] JNull) = [VText "m1"; VText "m2"] /\
  exists ws, isolated remote browser DELETE "memory" ws demo_rest
    (rest DELETE "memory" [mine; ("id", "neq.m1")] JNull).1 (rest DELETE "memory" [mine; ("id", "neq.m1")] JNull).2.
Proof.
  split; [vm_compute; reflexivity|]. split; [vm_compute; reflexivity|].
  destruct (rest_isolated remote demo_tables browser DELETE "memory" [mine; ("id", "neq.m1")] JNull demo_rest
    (rest DELETE "memory" [mine; ("id", "neq.m1")] JNull).2 (rest DELETE "memory" [mine; ("id", "neq.m1")] JNull).1)
    as (ws & Hi & _); [exact demo_scoped|discriminate|apply surjective_pairing|]. exists ws. exact Hi.
Defined.

(** ** Reads *)

Example get_filters_orders_and_cuts :
  answered (rest GET "memory" [mine; ("select", "id, uses"); ("uses", "gte.3"); ("order", "uses.desc"); ("limit", "1")] JNull)
    = (200, JArray [jobj [("id", JString "m3"); ("uses", JNumber (PosInt 9))]]) /\
  answered (rest GET "memory" [mine; ("select", "body"); ("id", "eq.m1")] JNull) = (200, jobj [("body", JString "likes tea")]) /\
  answered (rest GET "memory" [mine; ("id", "eq.m2")] JNull) = (200, JArray []).
Proof. vm_compute. auto. Qed.

Example append_only_hidden :
  table_names (introspect demo_tables) = ["memory"; "session_token"; "workspace"] /\
  (answered (rest GET "agent_event" [mine] JNull)).1 = 404.
Proof. vm_compute. auto. Qed.

(** The sessions' CSRF secrets are rows like any other. *)
Example csrf_secret_exposed :
  answered (rest GET "session_token" [mine; ("select", "csrf_secret")] JNull)
    = (200, JArray [jobj [("csrf_secret", JString "c")]]).
Proof. vm_compute. auto. Qed.

(** An offset without a limit, and a selection of commas, are no SQL; the
    [workspace] table is exposed and has no [workspace_id]. *)
Example statement_errors :
  (answered (rest GET "memory" [mine; ("offset", "1")] JNull)).1 = 500 /\
  (answered (rest GET "memory" [mine; ("select", ",")] JNull)).1 = 500 /\
  (answered (rest GET "workspace" [mine] JNull)).1 = 500.
Proof. vm_compute. auto. Qed.

(** ** Writes *)

(** The body's workspace wins over the one the request was admitted for. *)
Example insert_into_other_workspace :
  let out := rest POST "memory" [mine] (jobj [("id", JString "m4"); ("workspace_id", JString "ws_other"); ("body", JNull)]) in
  answered out = (201, jobj [("ok", JBool true)]) /\
  List.map (fun r => (cell r "workspace_id", cell r "body")) (List.filter (of_workspace "ws_other") (rows_of "memory" (db out.2)))
    = [(VText "ws_other", VText "secret"); (VText "ws_other", VText "")] /\
  (answered (rest POST "memory" [("workspace_id", "ws_other")] (jobj [("id", JString "m4")]))).1 = 403.
Proof. vm_compute. auto. Qed.

Example patch_refusals :
  (answered (rest PATCH "memory" [mine] (jobj [("workspace_id", JString "ws_other")]))).1 = 400 /\
  (answered (rest PATCH "memory" [mine] (jobj [("color", JString "red")]))).1 = 400 /\
  (answered (rest DELETE "memory" [mine] JNull)).1 = 400 /\
  answered (rest PATCH "memory" [mine; ("id", "in.(m1,m2)")] (jobj [("body", JString "x")]))
    = (200, jobj [("updated", JNumber (PosInt 1))]).
Proof. vm_compute. auto. Qed.

(** ** GraphQL batches that keep to their workspace, and some that do not *)

#[local] Existing Instance the_regex.

(** Three documents: memories of the workspace in the variable, the sessions of a
    workspace written into the document, and a command likewise. *)
Definition in_variable (req : GqlRequest) : Args :=
  [("workspace_id", default GNull (jlookup "workspace_id" (variables req))); ("limit", GNumber (PosInt 99999))].
Definition written_in : Args := [("workspace_id", GString "ws_default")].
Definition command_args : Args :=
  [("workspace_id", GString "ws_default"); ("actor_id", GString "act_system"); ("command_type", GString "create_session");
   ("input", GObject [])].
Definition demo_calls (cache : SchemaCache) (req : GqlRequest) : result Json (list FieldCall) :=
  if String.eqb (document req) "memories" then
    match table cache "memory" with Some t => Ok [QueryField t (in_variable req)] | None => Err JNull end
  else if String.eqb (document req) "sessions" then
    match table cache "session_token" with Some t => Ok [QueryField t written_in] | None => Err JNull end
  else if String.eqb (document req) "command" then Ok [CommandField command_args]
  else Err (JString "parse error").
#[local] Instance demo_graphql : GraphQl := {|
  gql_display _ := "";
  gql_string v := match v with GString s => Ok s | _ => Err "internal: not a string" end;
  gql_i64 v := match v with GNumber n => as_i64 (JNumber n) | _ => None end;
  gql_object v := match v with GObject m => Some m | _ => None end;
  gql_missing n := "internal: key " +:+ n +:+ " not found";
  schema_error _ := None; root_calls := demo_calls; goes_on _ := true;
  gql_answer _ rs := JArray (List.map (fun r => match r with Ok v => gql_to_json v | Err e => JString e end) rs)
|}.
#[local] Instance demo_graphql_laws : GraphQlLaws.
Proof.
  split; [done|]. intros cache req l tbl args. cbn [root_calls demo_graphql]. unfold demo_calls.
  destruct (String.eqb _ "memories"); [|destruct (String.eqb _ "sessions"); [|destruct (String.eqb _ "command")]];
    [destruct (table cache "memory") as [t|] eqn:Ht|destruct (table cache "session_token") as [t|] eqn:Ht| |];
    intros [= <-] [Hq|[]]; [injection Hq as <- <-; by exists "memory"|injection Hq as <- <-; by exists "session_token"|done].
Qed.

Definition graphql (h : HeaderMap) (reqs : list GqlRequest) (w : RestWorld) :=
  graphql_handler alpha_demo_policy with_secret (Some (introspect demo_tables)) h reqs w.
Definition in_ws (ws doc : string) : GqlRequest := mkGqlRequest [("workspace_id", GString ws)] doc.
Definition no_variable (doc : string) : GqlRequest := mkGqlRequest [] doc.
(** The same server with another secret in the other workspace. *)
Definition other_rest : RestWorld :=
  with_db (<["memory" := [memory_row "m1" "ws_default" "likes tea" 3; memory_row "m9" "ws_other" "another secret" 1;
                          memory_row "m3" "ws_default" "likes dogs" 9]]>) demo_rest.


(** Nobody is asked who they are when no variable is called [workspace_id]: the
    sessions' CSRF secrets are read, and a command runs. *)
Example reads_without_credentials :
  (answered (graphql [] [in_ws "ws_default" "sessions"] demo_rest)).1 = 401 /\
  answered (graphql [] [no_variable "sessions"] demo_rest)
    = (200, JArray [JArray [jobj [("token_hash", JString "h"); ("workspace_id", JString "ws_default");
                                  ("csrf_secret", JString "c")]]]) /\
  let out := graphql [] [no_variable "command"] demo_rest in
  (answered out).1 = 200 /\
  size (sessions (ledger (world (srv out.2)))) = S (size (sessions (ledger (world (srv demo_rest))))).
Proof. vm_compute. auto. Qed.
(** Nor is a second request of a batch looked at. *)
Example second_request_unchecked :
  (answered (graphql browser [in_ws "ws_default" "memories"; in_ws "ws_other" "memories"] demo_rest)).1 = 200 /\
  (answered (graphql browser [in_ws "ws_other" "memories"] demo_rest)).1 = 403.
Proof. vm_compute. auto. Qed.

(** An unsigned integer past [i64] comes back as the float next to it. *)
Example big_number_rounded :
  match gql_to_json (json_to_gql (JNumber (PosInt (2 ^ 63 + 1)))) with
  | JNumber (Float x) => x = f64_of_Z (2 ^ 63)
  | _ => False
  end.
Proof. vm_compute. reflexivity. Qed.
