(* ===== verification/Sdk.v ===== *)
(** * The Rust client ([sdks/rust/src])

    [ActantClient] turns a call into an HTTP request and the answer into a value or
    a typed error.  The client is polymorphic in what answers:
    [exchange] sends a request and returns a status and a body, or why there was
    none.  [served] is the exchange with this repository's server: the route table,
    the extractors and the handlers of the other files.

    Joining URLs, the texts of serde's errors and lossy UTF-8 decoding are
    parameters.  Streams are [forward]: what a subscription makes of the frames. *)

From S2P Require Import Prelude Str Json Core Policy Predicate Storage Command Chain Effects Engine Replay Auth Prog Server AuthRoutes HttpAuth Studio ReadRoutes.
#[local] Open Scope string_scope.
#[local] Open Scope list_scope.
#[local] Open Scope Z_scope.

(** ** Errors ([error.rs]) *)

Inductive SdkError :=
| SInvalidInput (message body : string)
| SNotFound (message body : string)
| SPermissionDenied (message body : string)
| SApprovalRequired (message body : string)
| SApprovalDenied (message body : string)
| SIdempotentReplay (message body : string)
| SRateLimited (retry_after_seconds : option Z) (body : string)
| SMissingAuthorization (message body : string)
| SInvalidToken (message body : string)
| SWorkspaceMismatch (message body : string)
| SInternal (message body : string)
| SHttp (status : Z) (kind message body : string)
| STransport (why : string)
| SInvalidUrl (why : string)
| SDecoding (message body : string)
| SWebSocket (why : string)
| SCancelled.

Record ErrBody := mkErrBody { eb_error : option string; eb_message : option string; eb_retry : option Z }.
Definition err_body (v : Json) : option ErrBody :=
  match struct_fields [("error", false); ("message", true); ("retry_after_seconds", true)] v with
  | Some [e; m; r] =>
      e ← de_option as_str e; m ← de_option as_str m; r ← de_option as_u64 r; Some (mkErrBody e m r)
  | _ => None
  end.

Section sdk.
Context `{SerdeJson} (lossy : string -> string).

Definition from_response (status : Z) (body : string) : SdkError :=
  let parsed := default (mkErrBody None None None) (from_str body ≫= err_body) in
  let kind := default ("http_" +:+ show_Z status) (eb_error parsed) in
  let message := default (lossy body) (eb_message parsed) in
  if String.eqb kind "invalid_input" then SInvalidInput message body
  else if String.eqb kind "not_found" then SNotFound message body
  else if String.eqb kind "permission_denied" then SPermissionDenied message body
  else if String.eqb kind "approval_required" then SApprovalRequired message body
  else if String.eqb kind "approval_denied" then SApprovalDenied message body
  else if String.eqb kind "idempotent_replay" then SIdempotentReplay message body
  else if String.eqb kind "rate_limited" then SRateLimited (eb_retry parsed) body
  else if String.eqb kind "missing_authorization" then SMissingAuthorization message body
  else if String.eqb kind "invalid_token" then SInvalidToken message body
  else if String.eqb kind "workspace_mismatch" then SWorkspaceMismatch message body
  else if String.eqb kind "internal" then SInternal message body
  else SHttp status kind message body.

(** [has_error_field]: the [Peek] struct, an [error] that is there and not null. *)
Definition has_error_field (body : string) : bool :=
  match from_str body with
  | Some v =>
      match struct_fields [("error", true)] v with
      | Some [e] => match de_option Some e with Some (Some _) => true | _ => false end
      | _ => false
      end
  | None => false
  end.

(** ** Requests ([client.rs]) *)

Record HttpRequest := mkHttpRequest {
  hr_method : Method; hr_url : string; hr_query : list (string * string);
  hr_headers : HeaderMap; hr_body : option string
}.
Record Client := mkClient {
  base_url : string; token : option string; default_workspace_id : option string; default_actor_id : option string
}.
Definition new_client (base : string) : Client := mkClient base None None None.
Definition with_token (t : string) (c : Client) : Client :=
  mkClient (base_url c) (Some t) (default_workspace_id c) (default_actor_id c).
Definition with_workspace_id (w : string) (c : Client) : Client :=
  mkClient (base_url c) (token c) (Some w) (default_actor_id c).
Definition with_actor_id (a : string) (c : Client) : Client :=
  mkClient (base_url c) (token c) (default_workspace_id c) (Some a).

(** [Url::join] on the base, and the path of a URL as the server sees it. *)
Class Url := { url_join : string -> string -> result string string; url_path : string -> string }.

Section client.
Context `{Url} {St : Type} (exchange : HttpRequest -> St -> result string (Z * string) * St) (serde_error : string -> string).
#[local] Abbreviation Call A := (M St SdkError A).

Definition join_url (c : Client) (path : string) : result SdkError string :=
  match url_join (base_url c) (trim_start_matches "/"%char path) with
  | Ok u => Ok u
  | Err e => Err (SInvalidUrl e)
  end.
Definition sdk_headers (c : Client) : HeaderMap :=
  [("accept", "application/json"); ("content-type", "application/json")]
  ++ match token c with Some t => [("authorization", "Bearer " +:+ t)] | None => [] end.
Definition send (c : Client) (m : Method) (path : string) (query : list (string * string)) (b : option Json) :
    Call (Z * string) :=
  url ← (lift_result (join_url c path) : Call string);
  map_err STransport (exchange (mkHttpRequest m url query (sdk_headers c) (to_string <$> b))).

Definition is_success (st : Z) : bool := (200 <=? st) && (st <? 300).
(** What an answer is to the caller. *)
Definition read_answer {A} (decode : Json -> option A) (answer : Z * string) : result SdkError A :=
  let '(st, b) := answer in
  if has_error_field b then Err (from_response st b)
  else if negb (is_success st) then Err (from_response st b)
  else match from_str (if String.eqb b "" then "null" else b) ≫= decode with
       | Some a => Ok a
       | None => Err (SDecoding (serde_error b) b)
       end.
Definition request_json {A} (decode : Json -> option A) (c : Client) (m : Method) (path : string)
    (query : list (string * string)) (b : option Json) : Call A :=
  answer ← send c m path query b;
  lift_result (read_answer decode answer).
(** [openapi] and [metrics] take the body as text, and look at the status only. *)
Definition request_text (c : Client) (path : string) : Call string :=
  answer ← send c GET path [] None;
  let '(st, b) := answer in
  if is_success st then mret (lossy b) else throw (from_response st b).

Definition quoted (s : string) : string := String "034"%char (s +:+ String "034"%char "").
Definition required (what : string) (o : option string) : result SdkError string :=
  match o with Some s => Ok s | None => Err (SInvalidInput what "") end.
Definition resolve_workspace_id (c : Client) (o : option string) : result SdkError string :=
  required ("workspace_id required (set via with_workspace_id or pass Some(" +:+ quoted "..." +:+ "))")
    (match o with Some w => Some w | None => default_workspace_id c end).
Definition resolve_actor_id (c : Client) (o : option string) : result SdkError string :=
  required ("actor_id required (set via with_actor_id or pass Some(" +:+ quoted "..." +:+ "))")
    (match o with Some a => Some a | None => default_actor_id c end).

(** ** Commands *)

Record SdkOutcome := mkSdkOutcome { so_command_id : string; so_event_id : option string; so_result : Json }.
Definition decode_outcome (v : Json) : option SdkOutcome :=
  match struct_fields [("command_id", false); ("event_id", true); ("result", false)] v with
  | Some [c; e; r] => c ← de as_str c; e ← de_option as_str e; r ← r; Some (mkSdkOutcome c e r)
  | _ => None
  end.
(** [CommandRequest]: the key is left out when there is none. *)
Definition command_json (req : CommandRequest) : Json :=
  jobj ([("workspace_id", JString (cr_workspace req)); ("actor_id", JString (cr_actor req));
         ("command_type", JString (cr_command_type req)); ("input", cr_input req)]
        ++ match cr_idempotency_key req with Some k => [("idempotency_key", JString k)] | None => [] end).
Definition sdk_dispatch (c : Client) (ws actor : option string) (command_type : string) (input : Json)
    (key : option string) : Call SdkOutcome :=
  w ← lift_result (resolve_workspace_id c ws);
  a ← lift_result (resolve_actor_id c actor);
  request_json decode_outcome c POST "/v1/command" [] (Some (command_json (mkCommandRequest w a command_type input key))).

Definition sdk_create_session (c : Client) (ws actor title : option string) : Call string :=
  resp ← sdk_dispatch c ws actor "create_session"
    (jobj match title with Some t => [("title", JString t)] | None => [] end) None;
  match jget "session_id" (so_result resp) ≫= as_str with
  | Some id => mret id
  | None => throw (SDecoding "create_session result missing session_id" (to_string (so_result resp)))
  end.
Definition append_user_message (c : Client) (ws actor : option string) (session text : string) : Call SdkOutcome :=
  sdk_dispatch c ws actor "append_user_message" (jobj [("session_id", JString session); ("text", JString text)]) None.
Definition append_agent_message (c : Client) (ws actor : option string) (session text : string) : Call SdkOutcome :=
  sdk_dispatch c ws actor "append_agent_message" (jobj [("session_id", JString session); ("text", JString text)]) None.
Definition request_tool_call (c : Client) (ws actor : option string) (session tool : string) (arguments : Json) :
    Call SdkOutcome :=
  sdk_dispatch c ws actor "request_tool_call"
    (jobj [("session_id", JString session); ("tool_name", JString tool); ("arguments", arguments)]) None.
Definition approve_tool_call (c : Client) (ws actor : option string) (tool_call scope : string) : Call SdkOutcome :=
  sdk_dispatch c ws actor "approve_tool_call" (jobj [("tool_call_id", JString tool_call); ("scope", JString scope)]) None.
Definition deny_tool_call (c : Client) (ws actor : option string) (tool_call reason : string) : Call SdkOutcome :=
  sdk_dispatch c ws actor "deny_tool_call" (jobj [("tool_call_id", JString tool_call); ("reason", JString reason)]) None.
Definition record_tool_result (c : Client) (ws actor : option string) (tool_call : string) (res : Json) :
    Call SdkOutcome :=
  sdk_dispatch c ws actor "record_tool_result" (jobj [("tool_call_id", JString tool_call); ("result", res)]) None.
(** The contracts' [Sensitivity] has no [Regulated]. *)
Inductive ContractSensitivity := CPublic | CLow | CMedium | CHigh | CSecret.
Definition contract_sensitivity (x : ContractSensitivity) : string :=
  match x with CPublic => "public" | CLow => "low" | CMedium => "medium" | CHigh => "high" | CSecret => "secret" end.
Definition propose_memory (c : Client) (ws actor : option string) (text category : string) (sens : ContractSensitivity)
    (confidence : f64) (evidence : Json) : Call SdkOutcome :=
  sdk_dispatch c ws actor "propose_memory"
    (jobj [("text", JString text); ("category", JString category); ("sensitivity", JString (contract_sensitivity sens));
           ("confidence", json_of_f64 confidence); ("evidence", evidence)]) None.
Definition approve_memory (c : Client) (ws actor : option string) (candidate : string) : Call SdkOutcome :=
  sdk_dispatch c ws actor "approve_memory" (jobj [("candidate_id", JString candidate)]) None.
Definition reject_memory (c : Client) (ws actor : option string) (candidate : string) (reason : option string) :
    Call SdkOutcome :=
  sdk_dispatch c ws actor "reject_memory"
    (jobj ([("candidate_id", JString candidate)]
           ++ match reason with Some r => [("reason", JString r)] | None => [] end)) None.

(** ** Queries *)

Record SdkEvent := mkSdkEvent {
  se_id : string; se_workspace_id : string; se_actor_id : string; se_session_id : option string;
  se_parent_event_id : option string; se_event_type : string; se_causality_kind : string; se_sensitivity : string;
  se_authority_scope_id : option string; se_payload_inline : option string; se_payload_ref : option string;
  se_payload_hash : string; se_event_hash : string; se_created_at : string;
  se_model_call_id : option string; se_tool_call_id : option string; se_workflow_run_id : option string;
  se_memory_id : option string; se_artifact_id : option string; se_command_id : option string; se_effect_id : option string
}.
Definition event_fields : list (string * bool) :=
  [("id", false); ("workspace_id", false); ("actor_id", false); ("session_id", true); ("parent_event_id", true);
   ("event_type", false); ("causality_kind", false); ("sensitivity", false); ("authority_scope_id", true);
   ("payload_inline", true); ("payload_ref", true); ("payload_hash", false); ("event_hash", false);
   ("created_at", false); ("model_call_id", true); ("tool_call_id", true); ("workflow_run_id", true);
   ("memory_id", true); ("artifact_id", true); ("command_id", true); ("effect_id", true)].
Definition decode_event (v : Json) : option SdkEvent :=
  match struct_fields event_fields v with
  | Some [id; w; a; se; pa; ty; ca; sn; au; pi; pr; ph; eh; cr; mc; tc; wr; me; ar; co; ef] =>
      id ← de as_str id; w ← de as_str w; a ← de as_str a; se ← de_option as_str se; pa ← de_option as_str pa;
      ty ← de as_str ty; ca ← de as_str ca; sn ← de as_str sn; au ← de_option as_str au; pi ← de_option as_str pi;
      pr ← de_option as_str pr; ph ← de as_str ph; eh ← de as_str eh; cr ← de as_str cr; mc ← de_option as_str mc;
      tc ← de_option as_str tc; wr ← de_option as_str wr; me ← de_option as_str me; ar ← de_option as_str ar;
      co ← de_option as_str co; ef ← de_option as_str ef;
      Some (mkSdkEvent id w a se pa ty ca sn au pi pr ph eh cr mc tc wr me ar co ef)
  | _ => None
  end.
(** A wrapper with one list. *)
Definition decode_list {A} (field : string) (f : Json -> option A) (v : Json) : option (list A) :=
  match struct_fields [(field, true)] v with Some [l] => de_default [] (de_vec f) l | _ => None end.
Definition sdk_events (c : Client) (session : string) : Call (list SdkEvent) :=
  request_json (decode_list "events" decode_event) c GET "/v1/events" [("session_id", session)] None.

Record PendingApproval := mkPendingApproval {
  pa_id : string; pa_tool_call_id : string; pa_requested_by : string; pa_risk_level : string; pa_summary : string; pa_status : string
}.
Definition decode_approval (v : Json) : option PendingApproval :=
  match struct_fields [("id", false); ("tool_call_id", false); ("requested_by", false); ("risk_level", false);
                       ("summary", false); ("status", false)] v with
  | Some [i; t; b; l; u; x] =>
      i ← de as_str i; t ← de as_str t; b ← de as_str b; l ← de as_str l; u ← de as_str u; x ← de as_str x;
      Some (mkPendingApproval i t b l u x)
  | _ => None
  end.
Definition sdk_approvals (c : Client) (ws : option string) : Call (list PendingApproval) :=
  w ← lift_result (resolve_workspace_id c ws);
  request_json (decode_list "approvals" decode_approval) c GET "/v1/approvals" [("workspace_id", w)] None.
Definition sdk_memories (c : Client) (ws : option string) (status : string) : Call (list Json) :=
  w ← lift_result (resolve_workspace_id c ws);
  request_json (decode_list "memories" Some) c GET "/v1/memories" [("workspace_id", w); ("status", status)] None.

(** [metadata_commands]: a list of structs with a name. *)
Definition decode_command (v : Json) : option string :=
  match struct_fields [("name", false)] v with Some [n] => de as_str n | _ => None end.
Definition decode_meta (v : Json) : option (list string) :=
  match struct_fields [("commands", false)] v with Some [l] => de (de_vec decode_command) l | _ => None end.
Definition sdk_metadata_commands (c : Client) : Call (list string) :=
  request_json decode_meta c GET "/v1/metadata/commands" [] None.

Record Healthz := mkHealthz {
  hz_status : option string; hz_phase : option string; hz_ok : option bool; hz_time : option string; hz_error : option string
}.
Definition decode_healthz (v : Json) : option Healthz :=
  match struct_fields [("status", true); ("phase", true); ("ok", true); ("time", true); ("error", true)] v with
  | Some [s; p; o; t; e] =>
      s ← de_option as_str s; p ← de_option as_str p; o ← de_option as_bool o; t ← de_option as_str t;
      e ← de_option as_str e; Some (mkHealthz s p o t e)
  | _ => None
  end.
Definition is_healthy (h : Healthz) : bool :=
  match hz_status h with Some "ok" => true | _ => default false (hz_ok h) end.
Definition sdk_healthz (c : Client) : Call Healthz := request_json decode_healthz c GET "/v1/healthz" [] None.
Definition healthz_startup (c : Client) : Call Healthz := request_json decode_healthz c GET "/v1/healthz/startup" [] None.
Definition healthz_live (c : Client) : Call Healthz := request_json decode_healthz c GET "/v1/healthz/live" [] None.
Definition sdk_healthz_ready (c : Client) : Call Healthz := request_json decode_healthz c GET "/v1/healthz/ready" [] None.
Definition openapi (c : Client) : Call string := request_text c "/v1/openapi.yaml".
Definition sdk_metrics (c : Client) : Call string := request_text c "/v1/metrics".

(** ** Replay and sync *)

Inductive SdkReplayMode := SRecorded | SModel | SPolicy | SMemory.
Definition mode_str (m : SdkReplayMode) : string :=
  match m with SRecorded => "recorded" | SModel => "model" | SPolicy => "policy" | SMemory => "memory" end.
Definition decode_checkpoint (v : Json) : option string :=
  match struct_fields [("checkpoint_id", false)] v with Some [i] => de as_str i | _ => None end.
Definition sdk_replay_checkpoint (c : Client) (ws : option string) (event_id : string) : Call string :=
  w ← lift_result (resolve_workspace_id c ws);
  request_json decode_checkpoint c POST "/v1/replay/checkpoint" []
    (Some (jobj [("workspace_id", JString w); ("event_id", JString event_id)])).

(** The contracts' [ReplayDiff] (actant-contracts/src/replay.rs). *)
Inductive DiffKind := DIdentical | DChanged | DMissing | DExtra.
Record ContractDiffEntry := mkContractDiffEntry { ce_kind : string; ce_diff : DiffKind; ce_a : option Json; ce_b : option Json }.
Record ContractDiff := mkContractDiff { cd_a : string; cd_b : string; cd_entries : list ContractDiffEntry }.
Definition decode_diff_kind (v : Json) : option DiffKind :=
  k ← unit_variant v;
  match k with
  | "identical" => Some DIdentical | "changed" => Some DChanged | "missing" => Some DMissing | "extra" => Some DExtra
  | _ => None
  end.
Definition decode_diff_entry (v : Json) : option ContractDiffEntry :=
  match struct_fields [("kind", false); ("diff", false); ("a", true); ("b", true)] v with
  | Some [k; d; a; b] =>
      k ← de as_str k; d ← de decode_diff_kind d; a ← de_option Some a; b ← de_option Some b;
      Some (mkContractDiffEntry k d a b)
  | _ => None
  end.
Definition decode_diff (v : Json) : option ContractDiff :=
  match struct_fields [("a", false); ("b", false); ("entries", false)] v with
  | Some [a; b; es] => a ← de as_str a; b ← de as_str b; es ← de (de_vec decode_diff_entry) es; Some (mkContractDiff a b es)
  | _ => None
  end.
Definition sdk_replay_run (c : Client) (actor : option string) (checkpoint_id : string) (mode : SdkReplayMode) : Call ContractDiff :=
  a ← lift_result (resolve_actor_id c actor);
  request_json decode_diff c POST "/v1/replay/run" []
    (Some (jobj [("actor_id", JString a); ("checkpoint_id", JString checkpoint_id); ("mode", JString (mode_str mode))])).

Record SyncEvent := mkSyncEvent {
  sy_id : string; sy_event_type : string; sy_actor_id : string; sy_payload_hash : string;
  sy_payload_inline : option string; sy_created_at : string
}.
Definition decode_sync_event (v : Json) : option SyncEvent :=
  match struct_fields [("id", false); ("event_type", false); ("actor_id", false); ("payload_hash", false);
                       ("payload_inline", true); ("created_at", false)] v with
  | Some [i; t; a; h; p; x] =>
      i ← de as_str i; t ← de as_str t; a ← de as_str a; h ← de as_str h; p ← de_option as_str p; x ← de as_str x;
      Some (mkSyncEvent i t a h p x)
  | _ => None
  end.
Definition decode_sync (v : Json) : option (list SyncEvent * option string) :=
  match struct_fields [("events", true); ("next_since", true)] v with
  | Some [l; n] => l ← de_default [] (de_vec decode_sync_event) l; n ← de_option as_str n; Some (l, n)
  | _ => None
  end.
Definition sync_json (req : SyncSinceRequest) : Json :=
  jobj [("workspace_id", JString (ss_workspace_id req)); ("since_event_id", JString (ss_since_event_id req));
        ("limit", JNumber (PosInt (ss_limit req)))].
Definition sdk_sync_since (c : Client) (ws : option string) (since : string) (limit : Z) :
    Call (list SyncEvent * option string) :=
  w ← lift_result (resolve_workspace_id c ws);
  request_json decode_sync c POST "/v1/sync/since" [] (Some (sync_json (mkSyncSinceRequest w since limit))).
End client.

(** ** Subscriptions ([subscribe.rs]) *)

(** What the socket yields: a text, bytes, a ping, a close frame, any other frame,
    or an error. *)
Inductive Frame := FText (t : string) | FBinary (b : string) | FPing | FClose | FOther | FFailed (why : string).
Record SdkMessage := mkSdkMessage { sm_topic : Topic; sm_payload : Json; sm_published_at : option string }.
Definition decode_topic (v : Json) : option Topic :=
  match struct_fields [("workspace_id", false); ("session_id", true); ("kind", false)] v with
  | Some [w; s; k] => w ← de as_str w; s ← de_option as_str s; k ← de as_str k; Some (mkTopic w s k)
  | _ => None
  end.
Definition decode_message (v : Json) : option SdkMessage :=
  match struct_fields [("topic", false); ("payload", false); ("published_at", true)] v with
  | Some [t; p; x] => t ← de decode_topic t; p ← p; x ← de_option as_str x; Some (mkSdkMessage t p x)
  | _ => None
  end.

Context (serde_error : string -> string).
Definition item (text : string) : result SdkError SdkMessage :=
  match from_str text ≫= decode_message with
  | Some m => Ok m
  | None => Err (SDecoding (serde_error text) text)
  end.
(** The task that reads the socket.  [listening n]: the stream has not been dropped
    when its item [n] is sent; [pongs]: whether each pong in turn can be sent. *)
Fixpoint forward (listening : nat -> bool) (pongs : nat -> bool) (sent pinged : nat) (frames : list Frame) :
    list (result SdkError SdkMessage) :=
  match frames with
  | [] => []
  | FText t :: fs | FBinary t :: fs =>
      if listening sent then item t :: forward listening pongs (S sent) pinged fs else []
  | FPing :: fs => if pongs pinged then forward listening pongs sent (S pinged) fs else []
  | FClose :: _ => []
  | FOther :: fs => forward listening pongs sent pinged fs
  | FFailed why :: _ => if listening sent then [Err (SWebSocket why)] else []
  end.
End sdk.
