(* ===== verification/SdkServer.v ===== *)
(** * The client and the server together

    [served] answers the client's requests with this repository's server: the route
    table of [router], the extractors, the handlers of HttpAuth.v and
    ReadRoutes.v.  The theorems say what the caller of the client gets, in terms of the
    ledger, for whatever the server does with the request. *)

From S2P Require Import Prelude Str Json Core Policy Predicate Storage Command Chain Effects Engine Replay Throttle Auth Prog Server AuthRoutes HttpAuth Studio ReadRoutes Sdk.
#[local] Open Scope string_scope.
#[local] Open Scope list_scope.
#[local] Open Scope Z_scope.

(** ** Texts that come back *)

(** The values serde_json reads back as they were: integers in their range, keys in
    the order of the map, no floating-point number (they may be off by a unit in
    the last place), and at most [depth] levels of arrays and objects. *)
Fixpoint ascending (ks : list string) : bool :=
  match ks with
  | k :: (k' :: _) as ks' => cmp_lt (cmp:=String.compare) k k' && ascending ks'
  | _ => true
  end.
Fixpoint readable (depth : nat) (v : Json) {struct depth} : bool :=
  match v with
  | JNull | JBool _ | JString _ => true
  | JNumber (PosInt n) => (0 <=? n) && (n <? 2 ^ 64)
  | JNumber (NegInt n) => (- 2 ^ 63 <=? n) && (n <? 0)
  | JNumber (Float _) => false
  | JArray l => match depth with O => false | S d => forallb (readable d) l end
  | JObject m =>
      match depth with O => false | S d => ascending (List.map fst m) && forallb (fun kv => readable d kv.2) m end
  end.
(** serde_json stops at 128 levels. *)
Class JsonText `{SerdeJson} : Prop := {
  text_back : forall v, readable 127 v = true -> from_str (to_string v) = Some v;
  text_some : forall v, to_string v <> "";
  empty_text : from_str "" = None;
}.

Lemma readable_object d m :
  readable (S d) (JObject m) = ascending (List.map fst m) && forallb (fun kv => readable d kv.2) m.
Proof. reflexivity. Qed.
Lemma readable_array d l : readable (S d) (JArray l) = forallb (readable d) l.
Proof. reflexivity. Qed.
Lemma readable_string d s : readable d (JString s) = true.
Proof. by destruct d. Qed.
Lemma readable_opt d o : readable d (opt_json o) = true.
Proof. by destruct d, o. Qed.
(** The members of an object in the order of their keys, and what is left to show. *)
Ltac spell :=
  cbn [cr_workspace cr_actor cr_command_type cr_input cr_idempotency_key app];
  match goal with |- context [jobj ?l] => let v := eval vm_compute in (jobj l) in change (jobj l) with v end.
Ltac readable_now :=
  rewrite readable_object; apply andb_true_intro; split; [reflexivity|];
  cbn [List.map forallb fst snd]; rewrite ?readable_string, ?readable_opt; cbn [andb];
  repeat (apply andb_true_intro; split); try assumption; try done.
Lemma readable_more d d' v : (d <= d')%nat -> readable d v = true -> readable d' v = true.
Proof.
  revert d' v. induction d as [|d IH]; intros d' v Hd; destruct v as [| |[]| |l|m], d' as [|d']; simpl; try done; try lia.
  - rewrite !List.forallb_forall. intros Hf x Hx. apply IH; [lia|auto].
  - intros [-> Hf]%andb_prop. simpl. rewrite List.forallb_forall in Hf |- *. intros x Hx. apply IH; [lia|auto].
Qed.

(** ** The server's side of the wire *)

(** Extracting a [CommandRequest] and a [SyncSinceRequest] from a body. *)
Definition command_request (v : Json) : option CommandRequest :=
  match struct_fields [("workspace_id", false); ("actor_id", false); ("command_type", false); ("input", false);
                       ("idempotency_key", true)] v with
  | Some [w; a; t; i; k] =>
      w ← de as_str w; a ← de as_str a; t ← de as_str t; i ← i; k ← de_option as_str k;
      Some (mkCommandRequest w a t i k)
  | _ => None
  end.
Definition as_u32 (v : Json) : option Z := n ← as_u64 v; if n <? 2 ^ 32 then Some n else None.
Definition sync_request (v : Json) : option SyncSinceRequest :=
  match struct_fields [("workspace_id", false); ("since_event_id", true); ("limit", true)] v with
  | Some [w; s; l] =>
      w ← de as_str w; s ← de_default "" as_str s; l ← de_default default_sync_limit as_u32 l;
      Some (mkSyncSinceRequest w s l)
  | _ => None
  end.
Definition metadata_json : Json := jobj [("commands", JArray (List.map JString metadata_commands))].
(** [healthz_ready]: whether the database answered, or why not. *)
Definition healthz_answer (down : option string) : Response :=
  match down with
  | None => ok_json (jobj [("phase", JString "ready"); ("ok", JBool true)])
  | Some e => json_response 503 (jobj [("phase", JString "ready"); ("ok", JBool false); ("error", JString e)])
  end.
Definition phase_answer (phase : string) : Response := ok_json (jobj [("phase", JString phase); ("ok", JBool true)]).

(** [Message], and the loop of a WebSocket: it ends at the first error, a lag too. *)
Definition topic_json (t : Topic) : Json :=
  jobj [("workspace_id", JString (t_workspace_id t)); ("session_id", opt_json (t_session_id t)); ("kind", JString (t_kind t))].
Definition message_json (m : Message) : Json :=
  jobj [("topic", topic_json (msg_topic m)); ("payload", msg_payload m); ("published_at", JString (msg_published_at m))].

Section wire.
Context `{SerdeJson} `{Regex} `{Env} `{ServerEnv} `{Rng} `{Sha256} `{Base64} `{Jwt} `{RowOrder} `{Url}.
Context (push : list RxItem -> Message -> list RxItem) (policy : PolicyDoc) (cfg : Config) (decode_error : string).
(** What the extractors answer to a request they cannot read, the routes modelled
    in other files, and why the database is down. *)
Context (rejection : string -> Response) (elsewhere : HttpRequest -> M Server Response Response) (down : option string).

Fixpoint run_subscription (items : list RxItem) : list string :=
  match items with
  | RxMsg m :: rest => to_string (message_json m) :: run_subscription rest
  | _ => []
  end.

Definition json_body {A} (decode : Json -> option A) (r : HttpRequest) (k : A -> M Server Response Response) :
    M Server Response Response :=
  match (t ← hr_body r; v ← from_str t; decode v) with
  | Some a => k a
  | None => throw (rejection (default "" (hr_body r)))
  end.
Definition query_arg (name : string) (r : HttpRequest) (k : string -> M Server Response Response) :
    M Server Response Response :=
  match jlookup name (hr_query r) with Some a => k a | None => throw (rejection name) end.

Definition router (r : HttpRequest) : M Server Response Response :=
  let path := url_path (hr_url r) in
  match hr_method r with
  | POST =>
      if String.eqb path "/v1/command" then json_body command_request r (dispatch_command push policy cfg (hr_headers r))
      else if String.eqb path "/v1/sync/since" then json_body sync_request r sync_since
      else elsewhere r
  | GET =>
      if String.eqb path "/v1/events" then query_arg "session_id" r list_events
      else if String.eqb path "/v1/approvals" then query_arg "workspace_id" r (list_approvals decode_error)
      else if String.eqb path "/v1/metadata/commands" then mret (ok_json metadata_json)
      else if String.eqb path "/v1/healthz" then
        now ← now_iso; mret (ok_json (jobj [("status", JString "ok"); ("time", JString now)]))
      else if String.eqb path "/v1/healthz/startup" then mret (phase_answer "startup")
      else if String.eqb path "/v1/healthz/live" then mret (phase_answer "live")
      else if String.eqb path "/v1/healthz/ready" then mret (healthz_answer down)
      else elsewhere r
  | _ => elsewhere r
  end.
(** A handler that panics closes the connection; any other answer travels. *)
Definition travels (a : Response) : result string (Z * string) :=
  if status a =? 0 then Err "connection closed before message completed" else Ok (status a, to_string (body a)).
Definition served (r : HttpRequest) (s : Server) : result string (Z * string) * Server :=
  match router r s with (Ok a, s') | (Err a, s') => (travels a, s') end.

Context `{!JsonText} (lossy serde_error : string -> string).

(** ** What an answer becomes *)

Definition typed (e : ActantError) (b : string) : SdkError :=
  let m := Core.display e in
  match e with
  | InvalidInput _ => SInvalidInput m b
  | NotFound _ => SNotFound m b
  | PermissionDenied _ => SPermissionDenied m b
  | ApprovalRequired_ _ => SApprovalRequired m b
  | ApprovalDenied _ => SApprovalDenied m b
  | IdempotentReplay _ => SIdempotentReplay m b
  | Conflict _ => SHttp 409 "conflict" m b
  | NotImplemented _ => SHttp 501 "not_implemented" m b
  | PolicyHalt _ => SHttp 403 "policy_halt" m b
  | Core.Storage _ => SHttp 500 "storage_error" m b
  | Internal _ => SHttp 500 "internal_error" m b
  end.

Lemma err_body_readable e : readable 127 (body (err_response e)) = true.
Proof. unfold err_response. cbn [body json_response]. by destruct (fix_ e). Qed.

Lemma read_err_response {A} (decode : Json -> option A) e :
  read_answer lossy serde_error decode (err_status e, to_string (body (err_response e)))
    = Err (typed e (to_string (body (err_response e)))).
Proof.
  unfold read_answer. replace (has_error_field (to_string (body (err_response e)))) with true.
  - f_equal. unfold from_response. rewrite text_back by apply err_body_readable. by destruct e.
  - unfold has_error_field. rewrite text_back by apply err_body_readable. by destruct e.
Qed.
(** A value whose fields the caller decodes. *)
Lemma read_ok {A} (decode : Json -> option A) (v : Json) a :
  readable 127 v = true -> match jget "error" v with None => True | _ => False end ->
  (exists m, v = JObject m) -> decode v = Some a ->
  read_answer lossy serde_error decode (200, to_string v) = Ok a.
Proof.
  intros Hv He [m ->] Ha. unfold read_answer, has_error_field. rewrite text_back by done. cbn [struct_fields List.map fst].
  simpl in He. destruct (jlookup "error" m); [done|]. cbn [de_option]. unfold is_success. cbn [negb andb Z.leb Z.ltb].
  destruct (String.eqb_spec (to_string (JObject m)) "") as [Hn|_]; [by apply text_some in Hn|].
  rewrite text_back by done. cbn. by rewrite Ha.
Qed.

(** ** Reaching the routes *)

(** The base URL has no path of its own. *)
Definition at_root (c : Client) : Prop :=
  forall p, exists u, url_join (base_url c) p = Ok u /\ url_path u = String "/"%char p.

Definition answer_of (r : result Response Response) : Response := match r with Ok a | Err a => a end.
Lemma request_served {A} (decode : Json -> option A) c m path query b s :
  at_root c ->
  exists u, url_path u = String "/"%char (trim_start_matches "/"%char path) /\
  request_json lossy served serde_error decode c m path query b s =
    let '(a, s') := router (mkHttpRequest m u query (sdk_headers c) (to_string <$> b)) s in
    (match travels (answer_of a) with Ok x => read_answer lossy serde_error decode x | Err e => Err (STransport e) end, s').
Proof.
  intros Hc. destruct (Hc (trim_start_matches "/"%char path)) as (u & Hj & Hp). exists u. split; [done|].
  unfold request_json, send, join_url. rewrite Hj. unfold mbind, M_bind, map_err, served, lift_result. simpl.
  destruct (router _ s) as [[a|a] s']; simpl; by destruct (travels a).
Qed.

(** ** Commands *)

(** A refusal of the gates is a 4xx, or no answer. *)
Definition refusal (e : Response) : Prop := status e = 0 \/ (400 <= status e /\ status e < 500).

Lemma rate_limit_refusal ws s e s' : exec (enforce_rate_limit cfg ws) s = (Err e, s') -> refusal e.
Proof.
  unfold enforce_rate_limit. destruct (rate_policy cfg) as [p|]; [|done]. unfold stmt, consume, mbind, M_bind. simpl.
  destruct (_ !! ws); simpl; destruct (try_consume _ _ _ _) as [[] b']; simpl; intros [= <- _]; (by left) || (right; simpl; lia).
Qed.
Lemma enforce_auth_refusal h m ws s e s' : exec (enforce_auth cfg h m ws) s = (Err e, s') -> refusal e.
Proof.
  
  unfold enforce_auth, enforce_local_auth_bypass.
  destruct (_ || _); [|destruct (_ && _); [|done]; simpl; intros [= <- _]; right; simpl; lia].
  simpl. destruct (bearer h) as [t|].
  - unfold enforce_bearer_auth. repeat (case_match; simpl); try (intros [= <- _]; right; simpl; lia); try done.
  - destruct (extract_session_cookie h) as [plain|]; simpl.
    + destruct (session_token _ !! _) as [row|]; simpl; [|intros [= <- _]; right; simpl; lia].
      unfold validate_session_auth. repeat (case_match; simpl); try (intros [= <- _]; right; simpl; lia); try done.
    + destruct (auth_secret cfg); simpl; [|done]. intros [= <- _]; right; simpl; lia.
Qed.
Lemma dispatch_refusal h req s e s' : dispatch_command push policy cfg h req s = (Err e, s') -> refusal e.
Proof.
  unfold dispatch_command. unfold mbind at 1, M_bind at 1.
  destruct (exec (enforce_rate_limit cfg (cr_workspace req)) s) as [[[]|e1] s1] eqn:Hr;
    [|intros [= <- _]; by eapply rate_limit_refusal].
  unfold mbind at 1, M_bind at 1.
  destruct (exec (enforce_auth cfg h POST (cr_workspace req)) s1) as [[[]|e2] s2] eqn:Ha;
    [|intros [= <- _]; by eapply enforce_auth_refusal].
  unfold mbind at 1, M_bind at 1. simpl. unfold mbind at 1, M_bind at 1. simpl.
  destruct (dispatch _ _ _ _ _ _ _) as [[o|er] w]; simpl; [|done].
  unfold publish_event, mbind, M_bind. simpl. by destruct (hub_get _ _).
Qed.

Lemma command_body_readable d req : readable d (cr_input req) = true -> readable (S d) (command_json req) = true.
Proof.
  intros Hi. destruct req as [w a t i [k|]]; unfold command_json; spell; readable_now.
Qed.
Lemma command_request_back req : command_request (command_json req) = Some req.
Proof. by destruct req as [w a t i [k|]]. Qed.
Lemma outcome_readable d o : readable d (co_result o) = true -> readable (S d) (body (command_response o)) = true.
Proof.
  intros Hr. destruct o as [i [e|] r]; unfold command_response; cbn [body json_response co_command_id co_event_id co_result] in *;
    spell; readable_now. by destruct d.
Qed.
#[local] Opaque readable.

(** A refused request is an error for the caller too. *)
Definition refused_with (e : Response) (r : SdkError) : Prop :=
  (status e = 0 /\ r = STransport "connection closed before message completed") \/
  r = from_response lossy (status e) (to_string (body e)).
Lemma read_refusal {A} (decode : Json -> option A) e :
  refusal e ->
  match travels e with
  | Ok x => exists r, read_answer lossy serde_error decode x = Err r /\ refused_with e r
  | Err w => refused_with e (STransport w)
  end.
Proof.
  unfold travels, refused_with. destruct (Z.eqb_spec (status e) 0) as [->|Hne]; [by left|].
  intros [?|Hs]; [lia|]. exists (from_response lossy (status e) (to_string (body e))). split; [|by right].
  unfold read_answer, is_success. destruct (has_error_field _); [done|].
  replace (status e <? 300) with false by lia. by rewrite andb_false_r.
Qed.

Lemma read_outcome o :
  readable 126 (co_result o) = true ->
  read_answer lossy serde_error decode_outcome (200, to_string (body (command_response o)))
    = Ok (mkSdkOutcome (co_command_id o) (co_event_id o) (co_result o)).
Proof.
  intros Hr. apply read_ok; [by apply outcome_readable| |by eexists|]; destruct o as [i [e|] r]; done.
Qed.

(** ** Reading *)

Definition sdk_event (e : AgentEvent) : SdkEvent :=
  mkSdkEvent (ev_id e) (ev_workspace_id e) (ev_actor_id e) (ev_session_id e) (ev_parent_event_id e) (ev_event_type e)
    (causality_json (ev_causality_kind e)) (sensitivity_json (ev_sensitivity e)) (ev_authority_scope_id e)
    (ev_payload_inline e) (ev_payload_ref e) (ev_payload_hash e) (ev_event_hash e) (ev_created_at e)
    (ev_model_call_id e) (ev_tool_call_id e) (ev_workflow_run_id e) (ev_memory_id e) (ev_artifact_id e)
    (ev_command_id e) (ev_effect_id e).
Lemma de_option_opt o : de_option as_str (Some (opt_json o)) = Some o.
Proof. by destruct o. Qed.
Lemma event_value_fields e :
  struct_fields event_fields (event_value e) = Some (List.map Some
    [JString (ev_id e); JString (ev_workspace_id e); JString (ev_actor_id e); opt_json (ev_session_id e);
     opt_json (ev_parent_event_id e); JString (ev_event_type e); JString (causality_json (ev_causality_kind e));
     JString (sensitivity_json (ev_sensitivity e)); opt_json (ev_authority_scope_id e); opt_json (ev_payload_inline e);
     opt_json (ev_payload_ref e); JString (ev_payload_hash e); JString (ev_event_hash e); JString (ev_created_at e);
     opt_json (ev_model_call_id e); opt_json (ev_tool_call_id e); opt_json (ev_workflow_run_id e);
     opt_json (ev_memory_id e); opt_json (ev_artifact_id e); opt_json (ev_command_id e); opt_json (ev_effect_id e)]).
Proof. reflexivity. Qed.
Lemma decode_event_value e : decode_event (event_value e) = Some (sdk_event e).
Proof.
  unfold decode_event. rewrite event_value_fields. cbn [List.map]. rewrite !de_option_opt. reflexivity.
Qed.
Lemma event_value_readable d e : readable (S d) (event_value e) = true.
Proof.
  unfold event_value.
  repeat match goal with |- context [opt_json ?o] =>
    let H := fresh in pose proof (readable_opt d o) as H; revert H; generalize (opt_json o); intros ? H end.
  spell. readable_now.
Qed.
Lemma mapM_decode {A B} (enc : A -> Json) (dec : Json -> option B) (f : A -> B) l :
  (forall x, dec (enc x) = Some (f x)) -> mapM dec (List.map enc l) = Some (List.map f l).
Proof. intros Hd. induction l as [|x l IH]; [done|]. simpl. by rewrite Hd, IH. Qed.
Lemma forallb_map_readable {A} d (enc : A -> Json) l :
  (forall x, readable d (enc x) = true) -> forallb (readable d) (List.map enc l) = true.
Proof. intros Hr. apply List.forallb_forall. intros v Hv. apply in_map_iff in Hv as (x & <- & _). apply Hr. Qed.

(** A route that answers without changing the server, read by the client. *)
Lemma read_served {A} (decode : Json -> option A) c m path query b s v a :
  at_root c -> (forall u, url_path u = String "/"%char (trim_start_matches "/"%char path) ->
    router (mkHttpRequest m u query (sdk_headers c) (to_string <$> b)) s = (Ok (ok_json v), s)) ->
  readable 127 v = true -> match jget "error" v with None => True | _ => False end ->
  (exists x, v = JObject x) -> decode v = Some a ->
  request_json lossy served serde_error decode c m path query b s = (Ok a, s).
Proof.
  intros Hc Hroute Hr He Ho Hd. destruct (request_served decode c m path query b s Hc) as (u & Hu & ->).
  rewrite (Hroute u Hu). cbn [answer_of]. change (travels (ok_json v)) with (Ok (200, to_string v) : result string _).
  cbn beta iota. by rewrite (read_ok decode v a).
Qed.

Lemma with_world_same s : with_world (fun _ => world s) s = s.
Proof. by destruct s. Qed.

(** The client's [events] is the session's part of the ledger, every column of it,
    in its order; and reading changes nothing. *)
Theorem sdk_events_spec (c : Client) (session : string) (s : Server) :
  at_root c ->
  sdk_events lossy served serde_error c session s
    = (Ok (List.map (fun r => sdk_event (er_event r)) (select_events (in_session session) (ledger (world s)))), s).
Proof.
  intros Hc. set (es := List.map er_event (select_events (in_session session) (ledger (world s)))).
  apply (read_served _ _ _ _ _ _ _ (jobj [("events", JArray (List.map event_value es))])); [done| | |done|by eexists|].
  - intros u Hu. unfold router, query_arg, list_events, events_in_session, read. cbn [hr_method hr_url hr_query]. rewrite Hu. simpl.
    unfold mbind, M_bind, map_err, on_world. simpl. by rewrite with_world_same.
  - change (jobj [("events", JArray (List.map event_value es))]) with (JObject [("events", JArray (List.map event_value es))]).
    readable_now. rewrite readable_array. apply forallb_map_readable, event_value_readable.
  - unfold decode_list. cbn. rewrite (mapM_decode event_value decode_event sdk_event) by apply decode_event_value.
    unfold es. by rewrite List.map_map.
Qed.

(** ** Answers the client cannot read *)

(** The server names its commands, the client expects objects that have a name. *)
Theorem metadata_never_decodes (c : Client) (s : Server) :
  at_root c ->
  sdk_metadata_commands lossy served serde_error c s
    = (Err (SDecoding (serde_error (to_string metadata_json)) (to_string metadata_json)), s).
Proof.
  intros Hc. unfold sdk_metadata_commands.
  destruct (request_served decode_meta c GET "/v1/metadata/commands" [] None s Hc) as (u & Hu & ->).
  unfold router. cbn [hr_method hr_url]. rewrite Hu. cbn [String.eqb Ascii.eqb Bool.eqb trim_start_matches mret M_ret answer_of].
  change (travels (ok_json metadata_json)) with (Ok (200, to_string metadata_json) : result string _). cbn beta iota.
  unfold read_answer, has_error_field. rewrite text_back by reflexivity. cbn [is_success negb andb Z.leb Z.ltb].
  destruct (String.eqb_spec (to_string metadata_json) "") as [Hn|_]; [by apply text_some in Hn|].
  by rewrite text_back by reflexivity.
Qed.
Lemma unreadable_answer {A} (decode : Json -> option A) v :
  readable 127 v = true -> match jget "error" v with None => True | _ => False end ->
  (exists m, v = JObject m) -> decode v = None ->
  read_answer lossy serde_error decode (200, to_string v) = Err (SDecoding (serde_error (to_string v)) (to_string v)).
Proof.
  intros Hv He [m ->] Ha. unfold read_answer, has_error_field. rewrite text_back by done. cbn [struct_fields List.map fst].
  simpl in He. destruct (jlookup "error" m); [done|]. cbn [de_option]. unfold is_success. cbn [negb andb Z.leb Z.ltb].
  destruct (String.eqb_spec (to_string (JObject m)) "") as [Hn|_]; [by apply text_some in Hn|].
  rewrite text_back by done. cbn. by rewrite Ha.
Qed.

Lemma diff_json_readable n d : readable (S (S (S n))) (diff_json d) = true.
Proof.
  assert (He : forall x, readable (S (S n)) (JArray (List.map (fun e => jobj [("event_type", JString (de_event_type e));
           ("kind", JString (de_kind e)); ("summary", opt_json (de_summary e))]) x)) = true).
  { intros x. rewrite readable_array. apply forallb_map_readable. intros e.
    change (jobj _) with (JObject [("event_type", JString (de_event_type e)); ("kind", JString (de_kind e)); ("summary", opt_json (de_summary e))]).
    readable_now. }
  unfold diff_json. specialize (He (rd_entries d)). revert He.
  generalize (JArray (List.map (fun e => jobj [("event_type", JString (de_event_type e));
           ("kind", JString (de_kind e)); ("summary", opt_json (de_summary e))]) (rd_entries d))). intros v Hv.
  change (jobj _) with (JObject [("entries", v); ("run_id", JString (rd_run_id d))]). readable_now.
Qed.
(** The server's replay diff names its run [run_id]; the contracts' has an [a] and a
    [b]: whatever the replay found, the caller has a decoding error. *)
Theorem replay_diff_never_decodes (d : ReplayDiff) :
  read_answer lossy serde_error decode_diff (200, to_string (body (ok_json (diff_json d))))
    = Err (SDecoding (serde_error (to_string (diff_json d))) (to_string (diff_json d))).
Proof. apply unreadable_answer; [apply diff_json_readable|done|by eexists|done]. Qed.

(** The reason of an unhealthy answer never reaches the [error] field that is there
    for it: an answer that has one is an error. *)
Theorem health_reason_unreachable (answer : Z * string) (m : list (string * Json)) (h : Healthz) :
  from_str answer.2 = Some (JObject m) ->
  read_answer lossy serde_error decode_healthz answer = Ok h -> hz_error h = None.
Proof.
  destruct answer as [st b]. cbn [snd]. intros Hb. unfold read_answer, has_error_field. rewrite Hb.
  cbn [struct_fields List.map fst]. destruct (de_option Some (jlookup "error" m)) as [[x|]|] eqn:He; [done| |].
  - destruct (negb (is_success st)); [done|]. destruct (String.eqb_spec b "") as [->|_]; [by rewrite empty_text in Hb|].
    rewrite Hb. cbn [mbind option_bind]. unfold decode_healthz. cbn [struct_fields List.map fst].
    assert (Hn : de_option as_str (jlookup "error" m) = Some None) by (by destruct (jlookup "error" m) as [[]|]).
    rewrite Hn. repeat match goal with |- context [de_option ?f (jlookup ?k m)] =>
      destruct (de_option f (jlookup k m)); cbn [mbind option_bind]; [|by intros [=]] end.
    by intros [= <-].
  - by destruct (jlookup "error" m) as [[]|].
Qed.

(** ** Streams *)

Definition sdk_message (m : Message) : SdkMessage := mkSdkMessage (msg_topic m) (msg_payload m) (Some (msg_published_at m)).
Lemma topic_json_fields t :
  topic_json t = JObject [("kind", JString (t_kind t)); ("session_id", opt_json (t_session_id t)); ("workspace_id", JString (t_workspace_id t))].
Proof. reflexivity. Qed.
Lemma message_json_fields m :
  message_json m = JObject [("payload", msg_payload m); ("published_at", JString (msg_published_at m)); ("topic", topic_json (msg_topic m))].
Proof. reflexivity. Qed.
Lemma decode_topic_json t : decode_topic (topic_json t) = Some t.
Proof. by destruct t as [w [x|] k]. Qed.
Lemma decode_message_json m : decode_message (message_json m) = Some (sdk_message m).
Proof.
  unfold decode_message. rewrite message_json_fields.
  change (struct_fields _ _) with (Some [Some (topic_json (msg_topic m)); Some (msg_payload m); Some (JString (msg_published_at m))]).
  cbn [de mbind option_bind]. by rewrite decode_topic_json.
Qed.
Lemma message_readable n m : readable (S n) (msg_payload m) = true -> readable (S (S n)) (message_json m) = true.
Proof.
  intros Hp. rewrite message_json_fields. readable_now. rewrite topic_json_fields. readable_now.
Qed.
Lemma message_item m :
  readable 126 (msg_payload m) = true -> item serde_error (to_string (message_json m)) = Ok (sdk_message m).
Proof.
  intros Hp. unfold item. rewrite text_back by by apply message_readable. cbn [mbind option_bind].
  by rewrite decode_message_json.
Qed.

(** What the hub queued for a socket arrives in the stream, message by message and
    in order, up to the first lag: there both the socket and the stream end, without
    an error for the reader. *)
Theorem stream_delivers (ms : list Message) (rest : list RxItem) (lagged : Z) :
  Forall (fun m => readable 126 (msg_payload m) = true) ms ->
  forward serde_error (fun _ => true) (fun _ => true) 0 0
    (List.map FText (run_subscription (List.map RxMsg ms ++ RxLagged lagged :: rest)) ++ [FClose])
    = List.map (fun m => Ok (sdk_message m)) ms.
Proof.
  assert (Hall : forall n, Forall (fun m => readable 126 (msg_payload m) = true) ms ->
    forward serde_error (fun _ => true) (fun _ => true) n 0
      (List.map FText (run_subscription (List.map RxMsg ms ++ RxLagged lagged :: rest)) ++ [FClose])
      = List.map (fun m => Ok (sdk_message m)) ms).
  { induction ms as [|m ms IH]; intros n Hms; [done|]. apply Forall_cons in Hms as [Hm Hms'].
    cbn [List.map app run_subscription forward]. rewrite (message_item m Hm). f_equal. by apply IH. }
  apply Hall.
Qed.
End wire.
