(* ===== verification/StudioDemo.v ===== *)
(** * Concrete requests to the Studio and reading routes

    Witnesses of their theorems, and answers that their documentation does not
    promise.
    At the end, a sign-in that starts and comes back, and a client that talks to a
    server. *)

From Stdlib Require Import SpecFloat.
From S2P Require Import Sdk SdkServer Prelude Str Json Hlc Core Policy Predicate Storage Command Chain EngineDemo Effects EffectsDemo Auth Prog Server AuthRoutes HttpAuth AuthDemo AuditDemo Studio StudioIsolation StudioReports ReadRoutes OAuth.
#[local] Open Scope string_scope.
#[local] Open Scope list_scope.
#[local] Open Scope Z_scope.

#[local] Existing Instance demo_env.
#[local] Existing Instance the_regex.
#[local] Existing Instance number_codec.
#[local] Existing Instance demo_sha256.
#[local] Existing Instance demo_b64.
#[local] Existing Instance demo_jwt.
#[local] Existing Instance demo_server_env.
#[local] Existing Instance demo_rng.
#[local] Existing Instance key_order.

#[local] Instance number_codec_reports : ReportTexts.
Proof. intros content actor. apply number_codec_round. Qed.

(** A server bound to the loopback, and requests without any header. *)
Definition empty_tables : Tables := mkTables ∅ ∅ ∅ ∅ ∅ ∅.
Definition studio0 : Studio := mkStudio new_server empty_tables.
Definition local : Config := new_state.
Definition secured : Config := with_auth "secret" new_state.
Definition ask (c : StudioIsolation.Call) (s : Studio) := StudioIsolation.serve local [] c s.
Definition then_ (s : Studio) (c : StudioIsolation.Call) : Studio := (ask c s).2.
Definition got {S} (a : result Response Response * S) : Z * Json :=
  match a.1 with Ok r | Err r => (status r, body r) end.

Definition a_report : CreateSetupReport := mkCreateSetupReport "ws" "ann" "all good" None.

Lemma report_round_trip_witness :
  exists ids created,
    (list_setup_reports local [] "ws" (Some true) (then_ studio0 (CreateReport a_report))).1
      = Ok (ok_json (jobj [("report",
          jobj [("artifact_id", JString ids.1); ("event_id", JString ids.2); ("content", JString "all good");
                ("content_hash", JString (sha256_hex "all good")); ("bytes", JNumber (PosInt 8));
                ("created_at", JString created)])])) /\
    ids.2 = "evt_0".
Proof.
  assert (Hc : exists resp, create_setup_report local [] a_report studio0 = (Ok resp, then_ studio0 (CreateReport a_report)) /\
    resp = written ("art_1", "evt_0")).
  { eexists. split; vm_compute; reflexivity. }
  destruct Hc as (resp & Hc & Hr).
  destruct (report_round_trip local local [] [] a_report studio0 (then_ studio0 (CreateReport a_report))
    (read_gate local [] "ws" (then_ studio0 (CreateReport a_report))).2 resp) as (ids & created & Hw & _ & _ & _ & Hl);
    [intros k a n Hk; unfold studio0, empty_tables in Hk; simpl in Hk; by rewrite lookup_empty in Hk|exact Hc
    |vm_compute; reflexivity|].
  exists ids, created. split; [exact Hl|]. rewrite Hr in Hw. injection Hw as _ Hw. by rewrite Hw.
Defined.

(** A grant by a stranger, and its revocation from another workspace. *)
Definition a_grant : CreatePermission := mkCreatePermission "ws" "ann" "file.read" "secret" None None.
Definition two_homes : Studio :=
  then_ (then_ studio0 (CreateReport a_report)) (CreateReport (mkCreateSetupReport "ws2" "bob" "other" None)).

Example revoked_only_at_home :
  let s := then_ two_homes (GrantPermission a_grant) in
  (got (ask (StudioIsolation.RevokePermission "ws2" "auth_4") s)).1 = 404 /\
  (got (ask (StudioIsolation.RevokePermission "ws" "auth_4") s)).1 = 200 /\
  List.map sc_id (active_scopes "ws" s) = ["auth_4"] /\
  active_scopes "ws" (then_ s (StudioIsolation.RevokePermission "ws" "auth_4")) = [].
Proof. vm_compute. auto. Qed.

(** Whoever grants, the grant is written down as the grantee's own; and revoking
    again moves the time of the revocation. *)
Example grantee_is_grantor :
  List.map sc_granted_by_actor_id (active_scopes "ws" (then_ two_homes (GrantPermission a_grant))) = [Some "ann"].
Proof. vm_compute. reflexivity. Qed.
Example second_revocation_moves_the_first :
  let s1 := then_ (then_ two_homes (GrantPermission a_grant)) (StudioIsolation.RevokePermission "ws" "auth_4") in
  let s2 := then_ s1 (StudioIsolation.RevokePermission "ws" "auth_4") in
  bool_decide (sc_revoked_at <$> scopes (tabs s1) !! "auth_4" = sc_revoked_at <$> scopes (tabs s2) !! "auth_4") = false.
Proof. vm_compute. reflexivity. Qed.

(** A report by an actor of another workspace is taken. *)
Example foreign_actor_reports :
  (got (ask (CreateReport (mkCreateSetupReport "ws" "bob" "hello" None)) two_homes)).1 = 200.
Proof. vm_compute. reflexivity. Qed.

(** An artifact whose pointer names another workspace's event shows its text. *)
Definition planted : Studio :=
  with_tabs (fun t => set_artifacts (<["art_x" := mkArtifactRow "art_x" "ws" "setup_report" "actantdb://event/evt_2"
    "h" 0 "low" "ann" "z" None]> (artifacts t)) t) two_homes.
Example pointer_reads_foreign_event :
  ev_workspace_id ∘ er_event <$> events (the_ledger planted) !! "evt_2" = Some "ws2" /\
  (r ← jget "report" (got (ask (ListReports "ws" (Some true)) planted)).2; x ← jget "content" r; as_str x) = Some "other".
Proof. vm_compute. auto. Qed.

(** A relation between entities of two workspaces. *)
Definition an_entity (ws name : string) : CreateEntity := mkCreateEntity ws "person" name None None None None.
Example relation_across_workspaces :
  let s := then_ (then_ two_homes (AddEntity (an_entity "ws" "Ann"))) (AddEntity (an_entity "ws2" "Bob")) in
  got (ask (AddRelation (mkCreateEntityRelation "ws" "ent_4" "knows" "ent_5" default_confidence None)) s)
    = (200, jobj [("id", JString "rel_6")]) /\
  (got (ask (AddRelation (mkCreateEntityRelation "ws" "ent_4" "knows" "ent_9" default_confidence None)) s)).1 = 500 /\
  (got (ask (AddRelation (mkCreateEntityRelation "ws" "ent_4" "knows" "ent_5" (f64_of_Z 2) None)) s)).1 = 400.
Proof. vm_compute. auto. Qed.

(** A revoked memory is listed as approved. *)
Definition forgotten : Studio :=
  mkStudio (with_world (fun w => mkWorld (set_memories {["m1" := mkMemoryRow "m1" "ws" "tea" "fact" "low" None "global" None "[]" 0 "t"]}
    (ledger w)) (seq w) (time w)) new_server)
    (mkTables ∅ ∅ ∅ ∅ ∅ {["m1" := mkMemoryMarks None None (Some "t1") None]}).
Example revoked_memory_listed :
  (ms ← jget "memories" (got (ask (ListMemories "ws" "approved") forgotten)).2; l ← as_array ms;
   m ← head l; st ← jget "status" m; rv ← jget "revoked_at" m; Some (st, rv)) = Some (JString "approved", JString "t1").
Proof. vm_compute. reflexivity. Qed.

(** The source filter looks only at the hundred newest records. *)
Definition event_with (id ws payload : string) : EventRow :=
  mkEventRow (mkAgentEvent id ws "ann" None None "scout_record" Audit SLow None (Some payload) None "" "" "" None None None
    None None None None) "_legacy_" (0, 0).
Definition source_payload (src : string) : string := to_string (jobj [("source_id", JString src)]).
Definition crowded : Studio :=
  mkStudio (with_world (fun w => mkWorld (set_events
      {["e_old" := event_with "e_old" "ws" (source_payload "mail"); "e_new" := event_with "e_new" "ws" (source_payload "web")]}
      (ledger w)) (seq w) (time w)) new_server)
    (mkTables (<["a_old" := mkArtifactRow "a_old" "ws" "scout_record" "actantdb://event/e_old" "h" 0 "low" "ann" "1" None]>
       (list_to_map (map (fun n => let id := show_Z (Z.of_nat n) in
          (id, mkArtifactRow id "ws" "scout_record" "actantdb://event/e_new" "h" 0 "low" "ann" "2" None)) (List.seq 0 100))))
     ∅ ∅ ∅ ∅ ∅).
Example old_source_unseen :
  jget "records" (got (ask (ListRecords "ws" (Some "mail")) crowded)).2 = Some (JArray []).
Proof. vm_compute. reflexivity. Qed.

(** ** Reading the ledger *)

Definition busy : Server :=
  with_world (fun _ => run_all [open_session; ("ws", "ann", "create_session", jobj []);
    ("ws", "ann", "append_user_message", jobj [("session_id", JString "s"); ("text", JString "hello")]);
    ("ws2", "bob", "create_session", jobj [])] fresh) new_server.
Lemma busy_keyed : keyed (ledger (world busy)).
Proof.
  assert (Hm : map_Forall (fun k r => ev_id (er_event r) = k) (events (ledger (world busy))))
    by (apply map_Forall_to_list; vm_compute; repeat constructor).
  exact Hm.
Qed.

Lemma pull_gets_everything_witness :
  length (ordered_after "ws" "" (ledger (world busy))) = 3%nat /\
  pull 4 (mkSyncSinceRequest "ws" "" 1) busy = Some (List.map sync_event (ordered_after "ws" "" (ledger (world busy)))).
Proof.
  assert (Hn : length (ordered_after "ws" "" (ledger (world busy))) = 3%nat) by (vm_compute; reflexivity).
  split; [exact Hn|]. destruct (pull_gets_everything "ws" "" 1 busy busy_keyed) as [Hp _]. rewrite Hn in Hp. exact Hp.
Defined.

(** An event replicated from a device is named by its hash, and may sort before
    the cursor of a peer that has already pulled. *)
Definition late : Server :=
  with_world (fun w => mkWorld (set_events (<["evt_0a" := event_with "evt_0a" "ws" "{}"]> (events (ledger w))) (ledger w))
    (seq w) (time w)) busy.
Example late_event_never_pulled :
  let cursor := match last (ordered_after "ws" "" (ledger (world busy))) with Some r => row_id r | None => "" end in
  pull 4 (mkSyncSinceRequest "ws" cursor 1) late = Some [] /\
  length (ordered_after "ws" "" (ledger (world late))) = 4%nat.
Proof. vm_compute. auto. Qed.

Lemma pg_events_guarded_witness :
  (pg_list_events secured [] "s" busy).1 = Err pg_events_auth_error /\
  (pg_list_events secured [] "no such session" busy).1 = Err pg_events_auth_error /\
  (got (pg_list_events local [] "s" busy)).1 = 200.
Proof.
  split; [vm_compute; reflexivity|]. split; [|vm_compute; reflexivity].
  destruct (pg_events_guarded secured [] "no such session" busy
    (pg_list_events secured [] "no such session" busy).2 (pg_list_events secured [] "no such session" busy).1)
    as [_ Hr]; [apply surjective_pairing|].
  assert (Hn : sessions (ledger (world busy)) !! "no such session" = None) by (vm_compute; reflexivity).
  rewrite Hn in Hr. exact Hr.
Defined.

(** The SQLite server answers what it refuses to admit. *)
Example events_without_credentials :
  (exec (enforce_auth secured [] GET "ws") busy).1 = Err (auth_error 401 (error_body "missing_authorization")) /\
  (got (list_events "s" busy)).1 = 200 /\
  (got (sync_since (mkSyncSinceRequest "ws" "" 10) busy)).1 = 200 /\
  (got (list_approvals "decode" "ws" busy)).1 = 200.
Proof. vm_compute. auto. Qed.

(** The workspace's events do not form one chain: a report's event follows the last
    event of the workspace, a session's the last of its session. *)
Definition mixed : Studio :=
  let s := then_ (mkStudio busy empty_tables) (CreateReport a_report) in
  mkStudio (with_world (fun w => run_all [("ws", "ann", "append_user_message",
    jobj [("session_id", JString "s"); ("text", JString "bye")])] w) (srv s)) (tabs s).
Fixpoint one_chain (prev : string) (es : list AgentEvent) : bool :=
  match es with
  | [] => true
  | e :: es' => String.eqb (ev_event_hash e) (chain_hash prev (ev_payload_hash e)) && one_chain (ev_event_hash e) es'
  end.
Example no_single_chain :
  one_chain genesis (chronicle "ws" "s" (the_ledger mixed)) = true /\
  one_chain genesis (List.map er_event (select_events (in_scope "ws" None) (the_ledger mixed))) = false.
Proof. vm_compute. auto. Qed.

(** ** A sign-in that starts and comes back *)

Definition variables (name : string) : option string :=
  if String.eqb name "ACTANTDB_OAUTH_ENABLED" then Some " Yes "
  else if String.eqb name "ACTANTDB_OAUTH_STATE_SECRET" then Some "k"
  else if String.eqb name "ACTANTDB_PUBLIC_BASE_URL" then Some "https://db.example//"
  else if String.eqb name "ACTANTDB_OAUTH_PROVIDERS" then Some "git-hub,, idp.corp,unset"
  else if String.eqb name "ACTANTDB_OAUTH_GIT_HUB_AUTH_URL" then Some "https://git/auth"
  else if String.eqb name "ACTANTDB_OAUTH_GIT_HUB_CLIENT_ID" then Some "a b"
  else if String.eqb name "ACTANTDB_OAUTH_IDP_CORP_AUTH_URL" then Some "https://idp/auth"
  else if String.eqb name "ACTANTDB_OAUTH_IDP_CORP_CLIENT_ID" then Some "c"
  else None.
Definition first_upper (s : string) : string :=
  match s with String c t => String (ascii_upper c) t | EmptyString => "" end.
(** A keyed stand-in for HMAC. *)
#[local] Instance demo_oauth : OAuthEnv := {|
  env_var := variables; to_lowercase := to_ascii_lowercase; first_uppercase := first_upper;
  hmac key text := hex_letters 4 (roll (key +:+ text));
  hex_encode := hex16;
  hex_decode s := match unhex16 s with Ok t => Some t | Err _ => None end;
  header_error _ := None
|}.
#[local] Instance demo_oauth_laws : OAuthLaws.
Proof.
  split.
  - intros b. cbn [hex_decode hex_encode demo_oauth].
    pose proof (@b64_round_trip _ demo_b64_laws b) as Hb. cbn [b64_encode b64_decode demo_b64] in Hb. by rewrite Hb.
  - intros b. exact (@b64_no_dot _ demo_b64_laws b).
  - intros n. apply show_Z_no_dot. lia.
Qed.

(** The state made at second 1000 comes back at second 1001, and is refused for
    another provider and after ten minutes. *)
Definition made := new_oauth_state "git-hub" new_server.
Definition the_state : string := match made.1 with Ok st => st | Err _ => "" end.
Definition server_at (reads : nat) : Server :=
  let s := new_server in mkServer (world s) (auth s) (limiters s) (mkDrawn reads 0 0) (hub s) (command_counts s).

Lemma oauth_state_round_trip_witness :
  (verify_oauth_state the_state "git-hub" (server_at 1)).1 = Ok tt /\
  ~ (verify_oauth_state the_state "gitlab" (server_at 1)).1 = Ok tt /\
  ~ (verify_oauth_state the_state "git-hub" (server_at 600)).1 = Ok tt.
Proof.
  assert (Hm : new_oauth_state "git-hub" new_server = (Ok the_state, made.2)) by (vm_compute; reflexivity).
  assert (Hr : 0 <= unix_clock (unix_reads (drawn new_server)) < 2 ^ 62) by (vm_compute; split; congruence).
  pose proof (fun p2 s2 => oauth_state_round_trip "git-hub" p2 new_server made.2 s2 the_state Hr Hm) as Hrt.
  split; [|split].
  - apply Hrt. split; [reflexivity|]. split; [vm_compute; reflexivity|]. vm_compute. reflexivity.
  - intros Hv. apply Hrt in Hv as [Hp _]. discriminate Hp.
  - intros Hv. apply Hrt in Hv as (_ & _ & Hlt). vm_compute in Hlt. discriminate Hlt.
Defined.

(** A provider with a dot is offered and started, and no callback is accepted. *)
Example dotted_provider :
  List.map ap_id configured_auth_providers = ["git-hub"; "idp.corp"] /\
  match new_oauth_state "idp.corp" new_server with
  | (Ok st, s1) => (verify_oauth_state st "idp.corp" s1).1 = Err (denied "invalid OAuth state")
  | _ => False
  end.
Proof. vm_compute. auto. Qed.

Example start_redirects :
  match (auth_oauth_start "git-hub" new_server).1 with
  | Ok r => status r = 302 /\
            starts_with "https://git/auth?response_type=code&client_id=a%20b&redirect_uri=https%3A%2F%2Fdb.example%2Fv1%2Fauth%2Foauth%2Fgit-hub%2Fcallback&scope=openid%20profile%20email&state=oauth.git-hub.1600."
              (match headers r with (_, l) :: _ => l | [] => "" end) = true
  | Err _ => False
  end.
Proof. vm_compute. auto. Qed.

(** ** A client talks to a server *)

#[local] Instance number_codec_text : JsonText.
Proof.
  split; [intros v _; apply number_codec_round| |done].
  intros v Hv. pose proof (number_codec_round v) as Hr. rewrite Hv in Hr. discriminate.
Qed.
(** A URL is its base and a path. *)
#[local] Instance demo_url : Url := {|
  url_join base p := Ok (base +:+ "/" +:+ p);
  url_path u := default u (strip_prefix "http://127.0.0.1:4555" u)
|}.

Definition the_client : Client := with_actor_id "ann" (with_workspace_id "ws" (new_client "http://127.0.0.1:4555")).
Lemma the_client_at_root : at_root the_client.
Proof. intros p. eexists. split; [reflexivity|]. by destruct p. Qed.

Definition push_all (q : list RxItem) (m : Message) : list RxItem := q ++ [RxMsg m].
Definition demo_server (r : HttpRequest) (s : Server) : result string (Z * string) * Server :=
  served push_all alpha_demo_policy local "" (fun _ => mkResponse 400 [] JNull) (fun _ => throw (mkResponse 404 [] JNull)) None r s.
Definition call_create (key : option string) (s : Server) :=
  sdk_dispatch (fun b => b) demo_server (fun b => b) the_client None None "create_session" (jobj [("title", JString "t")]) key s.
Definition the_dispatch (key : option string) (s : Server) :=
  dispatch alpha_demo_policy "ws" "ann" "create_session" (jobj [("title", JString "t")]) key (world s).

Lemma created : (the_dispatch None new_server).1
  = Ok (mkCommandOutcome "cmd_0" (Some "evt_2") (JObject [("session_id", JString "sess_1")])).
Proof. vm_compute. reflexivity. Qed.
Lemma not_refused key :
  match (dispatch_command push_all alpha_demo_policy local (sdk_headers the_client)
    (mkCommandRequest "ws" "ann" "create_session" (jobj [("title", JString "t")]) key) new_server).1 with
  | Ok _ => True | Err _ => False end.
Proof. destruct key; vm_compute; exact I. Qed.


(** The same key again: the caller is not told by an error, as the client's
    documentation says, and has not the first answer either. *)
Definition after_first : Server := with_world (fun _ => (the_dispatch (Some "k") new_server).2) new_server.
Example retry_is_no_error :
  (the_dispatch (Some "k") after_first).1
    = Ok (mkCommandOutcome "cmd_0" None (JObject [("idempotent_replay", JBool true)])).
Proof. vm_compute. reflexivity. Qed.

(** The server's own failures have the code [internal_error] or [storage_error]; the
    client's [Internal] is for [internal]. *)
Example internal_is_not_internal : forall m b, typed (Internal m) b = SHttp 500 "internal_error" ("internal error: " +:+ m) b.
Proof. reflexivity. Qed.

(** A server whose database is down: the reason becomes the kind of an HTTP error. *)
Example reason_is_the_kind :
  exists b, read_answer (fun b => b) (fun b => b) decode_healthz (503, to_string (body (healthz_answer (Some "locked"))))
    = Err (SHttp 503 "locked" b b).
Proof.
  eexists. unfold read_answer, has_error_field. rewrite number_codec_round. cbn [struct_fields].
  unfold from_response. rewrite number_codec_round. reflexivity.
Qed.
