(* ===== verification/Contracts.v ===== *)
(** * Contract types with behaviour ([actant-contracts/src/lib.rs], [models.rs], [policy.rs])

    Prompt templates, mandates to spend, capsules, trust profiles, the model
    registry, and the wire form of verdicts and decisions.  Costs and scores are
    binary64 with its rounding. *)

From Stdlib Require Import SpecFloat.
From S2P Require Import Prelude Str Json Core Retrieval Sdk.
#[local] Open Scope string_scope.
#[local] Open Scope list_scope.
#[local] Open Scope Z_scope.

(** ** Prompts *)

Record ActantPromptVersion := mkPromptVersion { version : Z; body : string }.
Record ActantPromptTemplate := mkPromptTemplate { pt_name : string; versions : list ActantPromptVersion }.

Definition prompt_value (vars : Json) (key : string) : string :=
  default "" (v ← jget (trim key) vars; as_str v).
(** The loop over the characters, outside braces or inside them with the key so
    far; a key that is never closed ends with the text. *)
Fixpoint interpolate_from (vars : Json) (key : option string) (s : string) : string :=
  match key, s with
  | None, EmptyString => EmptyString
  | Some k, EmptyString => prompt_value vars k
  | None, String "{" (String "{" s') => interpolate_from vars (Some "") s'
  | None, String c s' => String c (interpolate_from vars None s')
  | Some k, String "}" (String "}" s') => prompt_value vars k +:+ interpolate_from vars None s'
  | Some k, String c s' => interpolate_from vars (Some (k +:+ String c "")) s'
  end.
Definition interpolate_prompt (body : string) (vars : Json) : string := interpolate_from vars None body.

Definition latest (t : ActantPromptTemplate) : option ActantPromptVersion := last (versions t).
Definition render (t : ActantPromptTemplate) (n : Z) (vars : Json) : option string :=
  v ← List.find (fun v => version v =? n) (versions t);
  Some (interpolate_prompt (body v) vars).

(** ** Mandates *)

Record ActantAp2Mandate := mkMandate { holder : string; purpose : string; spend_limit_usd : f64 }.
Definition USD_EPSILON : f64 := f64_ratio 1 1000000.
Definition is_finite (x : f64) : bool := match x with S754_zero _ | S754_finite _ _ _ => true | _ => false end.
Definition f64_zero : f64 := f64_of_Z 0.
Definition permits (m : ActantAp2Mandate) (amount_usd : f64) : bool :=
  is_finite amount_usd && f64_leb f64_zero amount_usd && is_finite (spend_limit_usd m) &&
  f64_leb f64_zero (spend_limit_usd m) && f64_leb amount_usd (f64_add (spend_limit_usd m) USD_EPSILON).

(** ** Capsules *)

Inductive MemoryAllowed := Forbidden | MWorkspace | Global.
Record ActantCapsule := mkCapsule {
  cap_name : string; cap_sensitivity : ContractSensitivity; cloud_model_allowed : bool;
  memory_allowed : MemoryAllowed; upgrades_to_sensitivity : option ContractSensitivity
}.
Definition default_deny (name : string) : ActantCapsule := mkCapsule name CHigh false Forbidden None.
Definition public_okay (name : string) : ActantCapsule := mkCapsule name CLow true MWorkspace None.
Definition cloud_allowed (c : ActantCapsule) : bool :=
  cloud_model_allowed c && match cap_sensitivity c with CSecret => false | _ => true end.

(** ** Trust *)

Record ActantTrustProfile := mkTrust { area : string; tr_score : f64; tr_confidence : f64; sample_size : Z }.
Definition TRUST_PRIOR_COUNT : f64 := f64_of_Z 2.
Definition new_trust (area : string) : ActantTrustProfile := mkTrust area (f64_ratio 1 2) f64_zero 0.
Definition observe (success : bool) (t : ActantTrustProfile) : ActantTrustProfile :=
  let outcome := if success then f64_of_Z 1 else f64_zero in
  let n := f64_of_Z (sample_size t) in
  let score := f64_div (f64_add (f64_mul (tr_score t) (f64_add n TRUST_PRIOR_COUNT)) outcome)
                 (f64_add (f64_add n TRUST_PRIOR_COUNT) (f64_of_Z 1)) in
  let sample_size := (sample_size t + 1) mod 2 ^ 64 in
  let effective := f64_add (f64_of_Z sample_size) TRUST_PRIOR_COUNT in
  mkTrust (area t) score (f64_div effective (f64_add effective (f64_of_Z 10))) sample_size.
Definition auto_approve_at (t : ActantTrustProfile) (min_score min_confidence : f64) : bool :=
  f64_leb min_score (tr_score t) && f64_leb min_confidence (tr_confidence t).

(** ** The model registry *)

Record ActantModelInfo := mkModelInfo {
  mi_provider : string; mi_name : string; locality : string; privacy_class : string;
  cost_per_input_1k : f64; cost_per_output_1k : f64; latency_p50_ms : Z
}.
Definition ActantModelRegistry := list ActantModelInfo.
Definition register (m : ActantModelInfo) (r : ActantModelRegistry) : ActantModelRegistry := r ++ [m].

(** [Iterator::min_by]: the first of the least. *)
Definition min_by {A} (cmp : A -> A -> comparison) (l : list A) : option A :=
  match l with
  | [] => None
  | x :: l' => Some (fold_left (fun m y => match cmp m y with Gt => y | _ => m end) l' x)
  end.
Definition cloud_candidate (class : string) (m : ActantModelInfo) : bool :=
  String.eqb (locality m) "cloud" && String.eqb (privacy_class m) class && is_finite (cost_per_output_1k m).
Definition cheaper (a b : ActantModelInfo) : comparison :=
  match cmp_or_eq (cost_per_output_1k a) (cost_per_output_1k b) with
  | Eq => match String.compare (mi_provider a) (mi_provider b) with
          | Eq => String.compare (mi_name a) (mi_name b)
          | c => c
          end
  | c => c
  end.
Definition pick_cheapest_cloud (r : ActantModelRegistry) (class : string) : option ActantModelInfo :=
  min_by cheaper (List.filter (cloud_candidate class) r).
Definition is_local (m : ActantModelInfo) : bool := String.eqb (locality m) "local".
Definition pick_local (r : ActantModelRegistry) : option ActantModelInfo :=
  min_by (fun a b => latency_p50_ms a ?= latency_p50_ms b) (List.filter is_local r).

(** ** Verdicts and decisions on the wire ([policy.rs])

    An enum with an internal tag is an object with the tag and the fields, or an
    array of them in order. *)

Inductive PolicyVerdict :=
| PAllow (reason policy_snapshot : string)
| PConstrain (reason policy_snapshot : string) (constrained_input : Json) (hint : string)
| PRequireApproval (reason policy_snapshot : string) (hint : option string) (constrained_input : option Json)
| PBlock (reason policy_snapshot : string)
| PHalt (reason policy_snapshot : string).
Definition verdict_kind (v : PolicyVerdict) : string :=
  match v with
  | PAllow _ _ => "allow" | PConstrain _ _ _ _ => "constrain" | PRequireApproval _ _ _ _ => "require_approval"
  | PBlock _ _ => "block" | PHalt _ _ => "halt"
  end.
Inductive ApprovalDecision :=
| AApprove (approver scope : string)
| AApproveConstrained (approver scope : string) (accepted_input : Json)
| ADeny (approver reason : string).

(** [skip_serializing_if = "Option::is_none"]. *)
Definition unless_none {A} (k : string) (f : A -> Json) (x : option A) : list (string * Json) :=
  match x with Some x => [(k, f x)] | None => [] end.
Definition encode_verdict (v : PolicyVerdict) : Json :=
  jobj (("decision", JString (verdict_kind v)) ::
    match v with
    | PAllow r s | PBlock r s | PHalt r s => [("reason", JString r); ("policy_snapshot", JString s)]
    | PConstrain r s c h =>
        [("reason", JString r); ("policy_snapshot", JString s); ("constrained_input", c); ("hint", JString h)]
    | PRequireApproval r s h c =>
        [("reason", JString r); ("policy_snapshot", JString s)] ++ unless_none "hint" JString h ++
        unless_none "constrained_input" id c
    end).
Definition encode_decision (d : ApprovalDecision) : Json :=
  jobj match d with
  | AApprove a s => [("decision", JString "approve"); ("approver", JString a); ("scope", JString s)]
  | AApproveConstrained a s i =>
      [("decision", JString "approve_constrained"); ("approver", JString a); ("scope", JString s); ("accepted_input", i)]
  | ADeny a r => [("decision", JString "deny"); ("approver", JString a); ("reason", JString r)]
  end.

Definition tagged (tag : string) (v : Json) : option (string * Json) :=
  match v with
  | JObject m => t ← jlookup tag m; t ← as_str t; Some (t, v)
  | JArray (JString t :: l) => Some (t, JArray l)
  | _ => None
  end.
Definition two_texts {A} (f : string -> string -> A) (n1 n2 : string) (v : Json) : option A :=
  match struct_fields [(n1, false); (n2, false)] v with
  | Some [a; b] => a ← de as_str a; b ← de as_str b; Some (f a b)
  | _ => None
  end.
Definition decode_verdict (v : Json) : option PolicyVerdict :=
  '(t, v) ← tagged "decision" v;
  match t with
  | "allow" => two_texts PAllow "reason" "policy_snapshot" v
  | "block" => two_texts PBlock "reason" "policy_snapshot" v
  | "halt" => two_texts PHalt "reason" "policy_snapshot" v
  | "constrain" =>
      match struct_fields [("reason", false); ("policy_snapshot", false); ("constrained_input", false); ("hint", false)] v with
      | Some [r; s; c; h] => r ← de as_str r; s ← de as_str s; c ← c; h ← de as_str h; Some (PConstrain r s c h)
      | _ => None
      end
  | "require_approval" =>
      match struct_fields [("reason", false); ("policy_snapshot", false); ("hint", true); ("constrained_input", true)] v with
      | Some [r; s; h; c] =>
          r ← de as_str r; s ← de as_str s; h ← de_option as_str h; c ← de_option Some c; Some (PRequireApproval r s h c)
      | _ => None
      end
  | _ => None
  end.
Definition decode_decision (v : Json) : option ApprovalDecision :=
  '(t, v) ← tagged "decision" v;
  match t with
  | "approve" => two_texts AApprove "approver" "scope" v
  | "deny" => two_texts ADeny "approver" "reason" v
  | "approve_constrained" =>
      match struct_fields [("approver", false); ("scope", false); ("accepted_input", false)] v with
      | Some [a; s; i] => a ← de as_str a; s ← de as_str s; i ← i; Some (AApproveConstrained a s i)
      | _ => None
      end
  | _ => None
  end.

(** ** What a prompt renders *)

(** A body as its author sees it. *)
Inductive Segment := Text (s : string) | Var (key : string).
Definition segment_text (g : Segment) : string :=
  match g with Text s => s | Var k => "{{" +:+ k +:+ "}}" end.
Definition segment_value (vars : Json) (g : Segment) : string :=
  match g with Text s => s | Var k => prompt_value vars k end.
(** No brace in a text, no closing brace in a key. *)
Definition segment_ok (g : Segment) : Prop :=
  match g with Text s => contains_char "{" s = false | Var k => contains_char "}" k = false end.
Definition concat_texts (l : list string) : string := foldr String.append "" l.

Lemma interpolate_char vars c s : c <> "{"%char -> interpolate_from vars None (String c s) = String c (interpolate_from vars None s).
Proof. intros Hc. destruct c as [[] [] [] [] [] [] [] []]; try done. Qed.
Lemma interpolate_key_char vars k c s : c <> "}"%char ->
  interpolate_from vars (Some k) (String c s) = interpolate_from vars (Some (k +:+ String c "")) s.
Proof. intros Hc. destruct c as [[] [] [] [] [] [] [] []]; try done. Qed.

Lemma interpolate_text vars s rest : contains_char "{" s = false ->
  interpolate_from vars None (s +:+ rest) = s +:+ interpolate_from vars None rest.
Proof.
  induction s as [|c s IH]; [done|]. cbn [contains_char]. intros [Hc Hs]%orb_false_iff.
  rewrite append_cons, interpolate_char by (intros ->; done). by rewrite IH.
Qed.
Lemma interpolate_key vars k s rest : contains_char "}" s = false ->
  interpolate_from vars (Some k) (s +:+ "}}" +:+ rest) = prompt_value vars (k +:+ s) +:+ interpolate_from vars None rest.
Proof.
  revert k. induction s as [|c s IH]; intros k; [by rewrite append_empty_r|].
  cbn [contains_char]. intros [Hc Hs]%orb_false_iff.
  rewrite append_cons, interpolate_key_char by (intros ->; done). rewrite IH by done.
  by rewrite append_assoc.
Qed.

Lemma interpolate_var vars k rest : contains_char "}" k = false ->
  interpolate_from vars None (("{{" +:+ k +:+ "}}") +:+ rest) = prompt_value vars k +:+ interpolate_from vars None rest.
Proof. intros Hk. rewrite !append_assoc. exact (interpolate_key vars "" k rest Hk). Qed.

(** Rendering puts each variable's text in its place, once: the texts around are
    kept, and what a value holds is not expanded again. *)
Theorem interpolate_spec (vars : Json) (segments : list Segment) : Forall segment_ok segments ->
  interpolate_prompt (concat_texts (List.map segment_text segments)) vars =
  concat_texts (List.map (segment_value vars) segments).
Proof.
  unfold interpolate_prompt, concat_texts.
  induction 1 as [|[s|k] segments Hg Hs IH]; cbn [List.map foldr segment_text segment_value]; [done|by rewrite interpolate_text, IH|].
  by rewrite interpolate_var, IH.
Qed.

(** A body without two opening braces in a row is rendered as it is. *)
Lemma interpolate_plain vars s : str_contains "{{" s = false -> interpolate_prompt s vars = s.
Proof.
  unfold interpolate_prompt. induction s as [|c s IH]; [done|]. cbn [str_contains]. intros [Hp Hs]%orb_false_iff.
  destruct (Ascii.eqb_spec c "{") as [->|Hc]; [|by rewrite interpolate_char, IH].
  destruct s as [|d s]; [done|]. destruct (Ascii.eqb_spec d "{") as [->|Hd]; [done|].
  transitivity (String "{" (interpolate_from vars None (String d s))); [|by rewrite IH].
  destruct d as [[] [] [] [] [] [] [] []]; try done.
Qed.

(** ** The least model *)

Lemma min_by_none {A} (cmp : A -> A -> comparison) l : min_by cmp l = None <-> l = [].
Proof. by destruct l. Qed.

Lemma before_refl {A} (cmp : A -> A -> comparison) l a : ordered cmp l -> In a l -> before cmp a a = true.
Proof. intros [Ho _] Ha. specialize (Ho a a Ha Ha). unfold before. by destruct (cmp a a). Qed.

Lemma min_by_spec {A} (cmp : A -> A -> comparison) l m : ordered cmp l -> min_by cmp l = Some m ->
  In m l /\ forall y, In y l -> before cmp m y = true.
Proof.
  destruct l as [|x l]; [done|]. simpl. intros Ho [= <-].
  assert (Hg : forall l' x', ordered cmp (x' :: l') ->
    let g := fold_left (fun m y => match cmp m y with Gt => y | _ => m end) l' x' in
    In g (x' :: l') /\ forall y, In y (x' :: l') -> before cmp g y = true).
  { clear. induction l' as [|y l' IH]; intros x Ho.
    - split; [by left|]. intros y [<-|[]]. apply (before_refl _ [x]); [done|by left].
    - cbn [fold_left]. set (z := match cmp x y with Gt => y | _ => x end).
      assert (Hz : In z [x; y]) by (unfold z; destruct (cmp x y); simpl; auto).
      assert (Hsub : forall a, In a (z :: l') -> In a (x :: y :: l')) by (intros a [->|Ha]; simpl in *; tauto).
      destruct (IH z (ordered_sub cmp _ _ Hsub Ho)) as [Hin Hle]. split; [by apply Hsub|].
      assert (Hzx : before cmp z x = true /\ before cmp z y = true).
      { unfold z. pose proof (proj1 Ho) as Ha. destruct (cmp x y) eqn:Hc;
          (split; [|try by unfold before; rewrite Hc]); try (apply (before_refl _ _ _ Ho); simpl; tauto).
        unfold before. rewrite (Ha x y), Hc by (simpl; auto). done. }
      destruct Ho as [_ Ht].
      intros w [<-|[<-|Hw]]; [| |by apply Hle; right].
      + apply (Ht _ z); [by apply Hsub|apply Hsub; by left|simpl; auto|apply Hle; by left|apply Hzx].
      + apply (Ht _ z); [by apply Hsub|apply Hsub; by left|simpl; auto|apply Hle; by left|apply Hzx]. }
  by apply Hg.
Qed.

Definition cost_key (m : ActantModelInfo) : (Z * Z * Z) * (string * string) :=
  (order_key (cost_per_output_1k m), (mi_provider m, mi_name m)).
Definition cost_cmp : (Z * Z * Z) * (string * string) -> (Z * Z * Z) * (string * string) -> comparison :=
  lex_cmp key_cmp (lex_cmp String.compare String.compare).
#[local] Existing Instance key_cmp_total.
#[local] Instance cost_cmp_total : TotalCmp cost_cmp.
Proof. unfold cost_cmp. apply _. Qed.

Lemma cheaper_ordered l : Forall (fun m => is_finite (cost_per_output_1k m) = true) l -> ordered cheaper l.
Proof.
  intros Hf. rewrite List.Forall_forall in Hf. apply (ordered_by_key _ cost_cmp cost_key). intros a b Ha Hb.
  unfold cheaper. rewrite cmp_or_eq_key; [done|..]; [specialize (Hf a Ha)|specialize (Hf b Hb)];
    by destruct (cost_per_output_1k _).
Qed.

(** The cheapest cloud model of a class: there is one exactly when a cloud model of
    the class has a finite price, and then no other candidate is cheaper, nor as
    cheap with an earlier name. *)
Theorem pick_cheapest_cloud_spec (r : ActantModelRegistry) (class : string) :
  match pick_cheapest_cloud r class with
  | Some m => In m r /\ cloud_candidate class m = true /\
      forall m', In m' r -> cloud_candidate class m' = true ->
        f64_leb (cost_per_output_1k m) (cost_per_output_1k m') = true /\ before cheaper m m' = true
  | None => forall m, In m r -> cloud_candidate class m = false
  end.
Proof.
  unfold pick_cheapest_cloud. set (l := List.filter _ r).
  assert (Hf : Forall (fun m => is_finite (cost_per_output_1k m) = true) l).
  { apply List.Forall_forall. intros m (_ & Hc)%filter_In. unfold cloud_candidate in Hc.
    by apply andb_true_iff in Hc as [_ Hc]. }
  destruct (min_by cheaper l) as [m|] eqn:Hm.
  - destruct (min_by_spec _ _ _ (cheaper_ordered l Hf) Hm) as [Hin Hle].
    rewrite List.Forall_forall in Hf. pose proof (Hf m Hin) as Hfm.
    apply filter_In in Hin as [Hin Hc]. split; [done|]. split; [done|]. intros m' Hin' Hc'.
    assert (Hl : In m' l) by (by apply filter_In). pose proof (Hf m' Hl) as Hfm'. specialize (Hle m' Hl). split; [|done].
    unfold before, cheaper in Hle. unfold f64_leb, SFleb. unfold cmp_or_eq in Hle.
    destruct (SFcompare _ _) as [[]|] eqn:Hs; try done. clear -Hs Hfm Hfm'.
    destruct (cost_per_output_1k m) as [|[]| |[]], (cost_per_output_1k m') as [|[]| |[]]; try done;
      simpl in Hs; repeat case_match; done.
  - apply min_by_none in Hm. intros m Hin. destruct (cloud_candidate class m) eqn:Hc; [|done].
    assert (Hl : In m l) by (by apply filter_In). by rewrite Hm in Hl.
Qed.

(** The fastest local model likewise. *)
Theorem pick_local_spec (r : ActantModelRegistry) :
  match pick_local r with
  | Some m => In m r /\ is_local m = true /\
      forall m', In m' r -> is_local m' = true -> latency_p50_ms m <= latency_p50_ms m'
  | None => forall m, In m r -> is_local m = false
  end.
Proof.
  unfold pick_local. set (l := List.filter _ r). destruct (min_by _ l) as [m|] eqn:Hm.
  - apply min_by_spec in Hm as [Hin Hle]; [|by apply (ordered_by_key _ Z.compare latency_p50_ms)].
    apply filter_In in Hin as [Hin Hc]. split; [done|]. split; [done|]. intros m' Hin' Hc'.
    specialize (Hle m' (proj2 (filter_In _ _ _) (conj Hin' Hc'))). unfold before in Hle.
    destruct (Z.compare_spec (latency_p50_ms m) (latency_p50_ms m')); lia || done.
  - apply min_by_none in Hm. intros m Hin. destruct (is_local m) eqn:Hc; [|done].
    assert (Hl : In m l) by (by apply filter_In). by rewrite Hm in Hl.
Qed.

(** ** The wire *)

(** A null input is read back as no input. *)
Definition sendable (v : PolicyVerdict) : Prop :=
  match v with PRequireApproval _ _ _ (Some JNull) => False | _ => True end.

Theorem verdict_round_trip (v : PolicyVerdict) : sendable v -> decode_verdict (encode_verdict v) = Some v.
Proof.
  destruct v as [r s|r s c h|r s h c|r s|r s]; simpl; try done. destruct h, c as [[]|]; try done.
Qed.
Theorem decision_round_trip (d : ApprovalDecision) : decode_decision (encode_decision d) = Some d.
Proof. by destruct d. Qed.

(** A verdict's tag is its kind, the word the ledger's payloads use. *)
Theorem verdict_tag (v : PolicyVerdict) : jget "decision" (encode_verdict v) = Some (JString (verdict_kind v)).
Proof. destruct v as [r s|r s c h|r s h c|r s|r s]; try done. by destruct h, c. Qed.
