(* ===== verification/RetrievalDemo.v ===== *)
(** * Searches, encodings and picks

    Witnesses for the theorems of Retrieval.v, Embedders.v and Contracts.v over
    small indices, and runs that show where the code does not do what it says.
    At the end, changes of schemas that the compatibility check sees, and some it
    does not. *)

From Stdlib Require Import SpecFloat.
From S2P Require Import Prelude Str Json Compat Retrieval Embedders MemoryStore PrimitivesDemo Sdk Contracts TsEmit Policy EngineDemo.
#[local] Open Scope string_scope.
#[local] Open Scope list_scope.
#[local] Open Scope Z_scope.

#[local] Existing Instance ascii_unicode.
#[local] Instance demo_floats : Float32 := {| sum_from_minus := true; max_second := false; f32_ln x := f32_sub x f32_one |}.
#[local] Instance demo_sorting : Sorting := fun _ _ l => Some l.
#[local] Instance demo_sorting_laws : SortingLaws.
Proof. by intros A cmp l l' [= <-]. Qed.
(** Good enough for words of ASCII letters. *)
#[local] Instance demo_trim : TrimSymbols := fun s => s.

(** ** Searches *)

Definition emb (l : list (Z * Z)) : Embedding :=
  mkEmbedding "t" "t" (List.map (fun '(n, d) => f32_div (f32_of_Z n) (f32_of_Z d)) l).
Definition demo_index : ActantIndex :=
  insert_item (mkItem "dense" "semantic cache invalidation" (emb [(1, 1); (0, 1)]))
    (insert_item (mkItem "sparse" "postgres connection pool timeout retry" (emb [(9, 10); (1, 10)])) new_index).
Definition sparse_first : ActantSearchOptions :=
  mkSearchOptions Hybrid 1 (f32_ratio 1 4) (f32_ratio 3 4) (f32_ratio 20 100) true.

Definition numbersb (l : list f32) : bool := forallb (fun x => negb (is_nan x)) l.
Lemma numbers_check l : numbersb l = true -> numbers l.
Proof.
  unfold numbersb, numbers. rewrite forallb_forall, List.Forall_forall. intros Hl x Hx. by apply negb_true_iff, Hl.
Qed.
Lemma nodup_check l : bool_decide (NoDup l) = true -> NoDup (A:=string) l.
Proof. apply bool_decide_eq_true_1. Qed.
Lemma demo_index_ok : index_ok demo_index.
Proof. split; [by apply nodup_check; vm_compute|constructor]. Qed.

Example hybrid_search_uses_sparse_terms :
  List.map (fun h => it_id (sh_item h)) <$>
    search_with_options demo_index (emb [(1, 1); (0, 1)]) "postgres timeout" sparse_first = Some ["sparse"].
Proof. vm_compute. reflexivity. Qed.


(** The graph expands the query's "guard" to the items labelled with what it uses. *)
Definition policy_item : ActantIndexedItem := mkItem "policy" "permission checks" (emb [(0, 1); (1, 1)]).
Definition graph_index : ActantIndex :=
  add_relation (mkRelation "guard" "uses" "authority scope" (f32_ratio 9 10))
    (add_entity "policy" "authority scope" (insert_item policy_item new_index)).
Lemma graph_index_ok : index_ok graph_index.
Proof.
  apply index_reachable_ok. unfold graph_index.
  eapply rtc_l; [apply (StepInsert new_index policy_item)|]. eapply rtc_l; [apply StepEntity|].
  eapply rtc_l; [apply StepRelation|constructor].
Qed.
Lemma graph_score_spec_witness :
  graph_score graph_index policy_item ["guard"] = f32_ratio 9 10 /\
  f32_leb (graph_score graph_index policy_item ["guard"]) f32_one = true.
Proof. split; [vm_compute; reflexivity|]. apply (graph_score_spec graph_index policy_item ["guard"] graph_index_ok). Defined.

(** *** What goes wrong *)

(** The entity "R" has no word of two letters: every query names it, whatever it asks. *)
Definition one_letter_index : ActantIndex :=
  add_relation (mkRelation "R" "uses" "statistics" f32_one)
    (add_entity "policy" "C" (insert_item policy_item new_index)).
Example one_letter_entity_matches :
  graph_score one_letter_index policy_item
    (query_entities (tokenize "unrelated question") (relations one_letter_index)) = f32_one.
Proof. vm_compute. reflexivity. Qed.

(** The squares of large components overflow, and two equal vectors have no similarity. *)
Definition large : f32 := f32_of_Z (10 ^ 20).
Example large_vectors_nan : cosine [large] [large] = S754_nan /\ is_nan large = false.
Proof. vm_compute. split; reflexivity. Qed.
(** The squares of small components vanish. *)
Definition small : f32 := f32_div f32_one (f32_of_Z (10 ^ 30)).
Example small_vectors_zero : cosine [small] [small] = f32_zero /\ f32_ltb f32_zero small = true.
Proof. vm_compute. split; reflexivity. Qed.

(** One NaN among two numbers is enough for the sort to have no order to go by. *)
Example nan_disorders :
  consistent (by_score) [(f32_one, policy_item); (S754_nan, policy_item); (f32_zero, policy_item)] = false.
Proof. vm_compute. reflexivity. Qed.

(** Items of two providers are compared as if they shared a space. *)
Example providers_mixed :
  let a := mkItem "a" "x" (mkEmbedding "hash" "sha256-32d" [f32_one; f32_zero]) in
  List.map (fun h => it_id h.2) <$>
    search (insert_item a new_index) (mkEmbedding "openai" "text-embedding" [f32_one; f32_zero]) 1 = Some ["a"] /\
  cross_space_check "hash" "openai" <> Ok tt.
Proof. vm_compute. split; [reflexivity|discriminate]. Qed.

(** ** Encodings *)

Definition docs : list string := ["the quick brown fox"; "the lazy dog"; "the brown box"].
Lemma corpus_spec_witness :
  index_all ["the brown box"; "the lazy dog"; "the quick brown fox"] new_bm25 = index_all docs new_bm25 /\
  df (index_all docs new_bm25) !! token_id "the" = Some 3.
Proof.
  assert (Hp : docs ≡ₚ ["the brown box"; "the lazy dog"; "the quick brown fox"]).
  { unfold docs. by apply (Permutation_rev ["the quick brown fox"; "the lazy dog"; "the brown box"]). }
  destruct (corpus_spec docs _ Hp) as (H1 & _ & _ & H2). split; [exact H2|].
  etransitivity; [apply H1|]. vm_compute. reflexivity.
Defined.

Lemma dot_spec_witness :
  exists s, dot (encode (finalize (index_all docs new_bm25)) "brown fox")
                (encode (finalize (index_all docs new_bm25)) "the quick brown fox") = Some s /\ f32_ltb f32_zero s = true.
Proof.
  eexists. split.
  - apply dot_spec; apply encode_spec.
  - vm_compute. reflexivity.
Defined.

(** A term that all of sixteen million documents have gets the logarithm of one. *)
Example idf_not_positive :
  let enc := mkBm25 (f32_ratio 3 2) (f32_ratio 3 4) {[token_id "the" := 2 ^ 24]} (2 ^ 24) f32_one 0 true in
  idf enc (token_id "the") = f32_ln f32_one.
Proof. vm_compute. reflexivity. Qed.

(** Two models of one provider pass the check of spaces. *)
Example models_not_checked :
  let e m := openai_provider (fun _ _ _ _ => Err "offline") (mkOpenAi "https://api" "key" m 8) in
  check_cross_space (register_embedder "a" (e "small") (register_embedder "b" (e "large") new_registry)) "a" "b" = Ok tt.
Proof. vm_compute. reflexivity. Qed.

(** ** Prompts, mandates and models *)

Definition vars : Json := jobj [("name", JString "{{secret}}"); ("n", JNumber (PosInt 3))].
Lemma interpolate_spec_witness :
  interpolate_prompt "Hello {{ name }}!" vars = "Hello {{secret}}!".
Proof.
  apply (interpolate_spec vars [Text "Hello "; Var " name "; Text "!"]).
  repeat constructor.
Defined.

(** A number is rendered as nothing, and a brace before a variable becomes part of its name. *)
Example numbers_vanish : interpolate_prompt "{{n}} items" vars = " items".
Proof. vm_compute. reflexivity. Qed.
Example brace_before_variable : interpolate_prompt "{{{name}}}" vars = "}".
Proof. vm_compute. reflexivity. Qed.
(** What follows an open key is lost. *)
Example open_key_swallows : interpolate_prompt "Hi {{name, you owe me" vars = "Hi ".
Proof. vm_compute. reflexivity. Qed.

Example mandate_limits :
  let m := mkMandate "bot" "books" (f64_of_Z 10) in
  permits m (f64_of_Z 10) = true /\ permits m (f64_of_Z 11) = false /\ permits m S754_nan = false /\
  permits m (f64_of_Z (-1)) = false /\ permits m (f64_add (f64_of_Z 10) (f64_ratio 1 2000000)) = true.
Proof. vm_compute. repeat split. Qed.

Example cheapest_is_haiku :
  mi_name <$> pick_cheapest_cloud
    [mkModelInfo "openai" "gpt-4.1" "cloud" "public" (f64_ratio 1 100) (f64_ratio 3 100) 800;
     mkModelInfo "anthropic" "haiku" "cloud" "public" (f64_ratio 1 1000) (f64_ratio 5 1000) 400] "public" = Some "haiku".
Proof. vm_compute. reflexivity. Qed.

Lemma verdict_round_trip_witness :
  let v := PRequireApproval "destructive" "snap" (Some "narrow it") (Some (JString "rm build")) in
  sendable v /\ decode_verdict (encode_verdict v) = Some v.
Proof. split; [exact I|]. apply (verdict_round_trip (PRequireApproval _ _ (Some _) (Some (JString _)))). exact I. Defined.
(** A null input that the approver may accept is lost on the wire. *)
Example null_input_lost :
  decode_verdict (encode_verdict (PRequireApproval "r" "s" None (Some JNull))) = Some (PRequireApproval "r" "s" None None).
Proof. vm_compute. reflexivity. Qed.

(** ** Changes of schemas *)

#[local] Existing Instance the_serde.
#[local] Instance plain_debug : DebugString := fun s => s.

Definition str_type : Json := jobj [("type", JString "string")].
Definition thing (required : list string) (props : list (string * Json)) : Json :=
  jobj [("type", JString "object"); ("required", JArray (List.map JString required)); ("properties", jobj props)].
Definition v1 : Json := jobj [("Thing", thing ["id"] [("id", str_type)])].
Definition v2 : Json := jobj [("Thing", thing ["id"] [("id", str_type); ("label", str_type)]); ("Other", str_type)].
Definition v3 : Json := jobj [("Thing", thing ["id"] [("id", str_type); ("label", str_type); ("note", str_type)]);
                              ("Other", str_type)].

Lemma compat_checks_compose_witness :
  compatibility_violations v1 v3 = [] /\ compatibility_violations v3 v1 <> [].
Proof.
  split; [|vm_compute; discriminate].
  apply (compat_checks_compose v1 v2 v3); vm_compute; reflexivity.
Defined.

Example violations_of_removal :
  compatibility_violations v2 v1 = ["$.Other: type removed"; "$.Thing.properties.label: property removed"] /\
  compatibility_violations v1 (jobj [("Thing", thing ["id"; "kind"] [("id", str_type); ("kind", str_type)])])
    = ["$.Thing.required: new required field kind"].
Proof. vm_compute. auto. Qed.

(** A variant of a tagged union may go: only unions of plain strings are looked at. *)
Definition decision (tag : string) : Json := thing ["decision"] [("decision", jobj [("type", JString "string"); ("enum", JArray [JString tag])])].
Definition verdict (tags : list string) : Json := jobj [("PolicyVerdict", jobj [("oneOf", JArray (List.map decision tags))])].
Example variant_removed_unseen :
  compatibility_violations (verdict ["allow"; "block"; "halt"]) (verdict ["allow"]) = [].
Proof. vm_compute. reflexivity. Qed.
(** So may the type of the items of an array. *)
Definition list_of (t : string) : Json :=
  jobj [("Run", thing [] [("events", jobj [("type", JString "array"); ("items", jobj [("type", JString t)])])])].
Example items_changed_unseen : compatibility_violations (list_of "string") (list_of "integer") = [].
Proof. vm_compute. reflexivity. Qed.

(** ** TypeScript *)

Definition run_schema : Json :=
  jobj [("type", JString "object"); ("required", JArray [JString "zeta"; JString "alpha"]);
        ("properties", jobj [("zeta", str_type); ("alpha", jobj [("$ref", JString "#/definitions/Risk")]); ("beta", str_type)]);
        ("definitions", jobj [("Risk", jobj [("enum", JArray [JString "low"; JString "high"])])])].
Definition bundle : list (string * Json) := [("Run", run_schema); ("Thing", thing ["id"] [("id", str_type)])].

Lemma codegen_declares_once_witness :
  exists ds, incl bundle ds /\ List.NoDup (List.map fst ds) /\ In "Risk" (List.map fst ds) /\
    ~ In "Other" (List.map fst ds).
Proof.
  assert (Hn : List.NoDup (List.map fst bundle)) by (repeat constructor; simpl; intuition discriminate).
  destruct (codegen_declares_once bundle Hn) as (ds & texts & _ & _ & Hnd & Hincl & Hnames).
  exists ds. split; [exact Hincl|]. split; [exact Hnd|]. split.
  - apply Hnames. right. exists "Run", run_schema. split; [by left|]. vm_compute. by left.
  - intros [Hb|(t & sc & [[= <- <-]|[[= <- <-]|[]]] & Hd)]%Hnames; vm_compute in *; intuition discriminate.
Defined.

(** The comment above the sort says required properties keep the schema's order;
    they are sorted by name. *)
Example required_sorted_by_name : property_names run_schema = ["alpha"; "zeta"; "beta"].
Proof. vm_compute. reflexivity. Qed.
Example run_in_typescript :
  declaration "Run" run_schema
    = Ok ("export interface Run {" +:+ nl +:+ "  alpha: Risk;" +:+ nl +:+ "  zeta: string;" +:+ nl +:+ "  beta?: string;" +:+ nl +:+ "}").
Proof. vm_compute. reflexivity. Qed.
