(* ===== verification/Oidc.v ===== *)
(** * OpenID Connect ([actant-auth/src/oidc.rs])

    The cache of issuers with their keys, filled over HTTP by tasks that run side by
    side, and the verification of RS256 tokens with a key of the issuer.  The HTTP
    client, the monotonic clock, serde's error texts and the jsonwebtoken crate are
    parameters. *)

From S2P Require Import Prelude Str Json Core Auth Prog.
#[local] Open Scope string_scope.
#[local] Open Scope list_scope.
#[local] Open Scope Z_scope.

(** ** Documents *)

Record DiscoveryDoc := mkDiscovery { dd_issuer : string; jwks_uri : string; signing_algs : list string }.
Record Jwk := mkJwk {
  kid : string; jwk_alg : option string; kty : string; jwk_n : option string; jwk_e : option string;
  jwk_x : option string; jwk_y : option string; crv : option string
}.
Definition JwkSet := list Jwk.
Record CachedIssuer := mkCachedIssuer {
  ci_issuer : string; ci_discovery : DiscoveryDoc; ci_jwks : JwkSet; fetched_at : Z
}.

Definition decode_discovery (v : Json) : option DiscoveryDoc :=
  match struct_fields [("issuer", false); ("jwks_uri", false); ("id_token_signing_alg_values_supported", true)] v with
  | Some [i; u; a] =>
      i ← de as_str i; u ← de as_str u; a ← de_default [] (de_vec as_str) a; Some (mkDiscovery i u a)
  | _ => None
  end.
Definition decode_jwk (v : Json) : option Jwk :=
  match struct_fields [("kid", false); ("alg", true); ("kty", false); ("n", true); ("e", true); ("x", true);
                       ("y", true); ("crv", true)] v with
  | Some [k; a; t; n; e; x; y; c] =>
      k ← de as_str k; a ← de_option as_str a; t ← de as_str t; n ← de_option as_str n; e ← de_option as_str e;
      x ← de_option as_str x; y ← de_option as_str y; c ← de_option as_str c; Some (mkJwk k a t n e x y c)
  | _ => None
  end.
Definition decode_jwks (v : Json) : option JwkSet :=
  match struct_fields [("keys", false)] v with Some [ks] => de (de_vec decode_jwk) ks | _ => None end.

(** ** The resolver *)

(** The cache, and how often the clock was read and the network asked. *)
Record OidcWorld := mkOidcWorld { inner : list CachedIssuer; instants : nat; fetches : nat }.

(** The [n]th request for a URL, the [n]th reading of the clock in nanoseconds, and
    what serde says of a text it cannot read. *)
Class Web := {
  http_get : nat -> string -> result ActantError string; instant : nat -> Z;
  discovery_error : string -> string; jwks_error : string -> string;
}.
(** The jsonwebtoken crate: the [kid] of a header, a key from its components, and
    RS256 verification of a token that must name the issuer. *)
Class JsonWebToken := {
  Key : Type; decode_header : string -> result string (option string);
  from_rsa_components : string -> string -> result string Key;
  decode_rs256 : string -> string -> Key -> result string Claims;
}.

#[local] Abbreviation Oidc A := (prog OidcWorld ActantError A).

Section oidc.
Context `{SerdeJson} `{Web} `{JsonWebToken}.

Definition discovery_url (issuer : string) : string :=
  trim_end_matches "/" issuer +:+ "/.well-known/openid-configuration".

(** Under the read lock; the clock is read when the issuer is found. *)
Definition lookup_fresh (ttl : Z) (issuer : string) : M OidcWorld ActantError (option (DiscoveryDoc * JwkSet)) :=
  fun w =>
    match List.find (fun c => String.eqb (ci_issuer c) issuer) (inner w) with
    | Some c =>
        (Ok (if Z.max 0 (instant (instants w) - fetched_at c) <? ttl then Some (ci_discovery c, ci_jwks c) else None),
         mkOidcWorld (inner w) (S (instants w)) (fetches w))
    | None => (Ok None, w)
    end.
Definition fetch (url : string) : M OidcWorld ActantError string :=
  fun w => (http_get (fetches w) url, mkOidcWorld (inner w) (instants w) (S (fetches w))).
(** Under the write lock. *)
Definition replace (issuer : string) (d : DiscoveryDoc) (jwks : JwkSet) : M OidcWorld ActantError unit :=
  fun w => (Ok tt, mkOidcWorld
    (List.filter (fun c => negb (String.eqb (ci_issuer c) issuer)) (inner w) ++
     [mkCachedIssuer issuer d jwks (instant (instants w))]) (S (instants w)) (fetches w)).

Definition parse {A} (decode : Json -> option A) (error : string -> string) (what body : string) : Oidc A :=
  match from_str body ≫= decode with
  | Some a => mret a
  | None => raise (InvalidInput (what +:+ ": " +:+ error body))
  end.
Definition ensure_issuer (ttl : Z) (issuer : string) : Oidc (DiscoveryDoc * JwkSet) :=
  cached ← stmt (lookup_fresh ttl issuer);
  match cached with
  | Some dj => mret dj
  | None =>
      disc_body ← stmt (fetch (discovery_url issuer));
      discovery ← parse decode_discovery discovery_error "oidc discovery" disc_body;
      jwks_body ← stmt (fetch (jwks_uri discovery));
      jwks ← parse decode_jwks jwks_error "oidc jwks" jwks_body;
      stmt (replace issuer discovery jwks);;
      mret (discovery, jwks)
  end.
Definition cache_size (w : OidcWorld) : nat := List.length (inner w).
Definition new_ttl : Z := 3600 * 1000000000.

Definition or_raise {A} (o : option A) (e : ActantError) : Oidc A := match o with Some a => mret a | None => raise e end.
Definition ok_or {A} (r : result string A) (f : string -> ActantError) : Oidc A :=
  match r with Ok a => mret a | Err e => raise (f e) end.
Definition verify_rs256 (ttl : Z) (issuer token : string) : Oidc Claims :=
  '(_, jwks) ← ensure_issuer ttl issuer;
  header ← ok_or (decode_header token) (fun e => InvalidInput ("jwt header: " +:+ e));
  k ← or_raise header (InvalidInput "jwt missing kid");
  jwk ← or_raise (List.find (fun j => String.eqb (kid j) k) jwks) (PermissionDenied ("no jwk for kid " +:+ k));
  n ← or_raise (jwk_n jwk) (InvalidInput "jwk missing n");
  e ← or_raise (jwk_e jwk) (InvalidInput "jwk missing e");
  key ← ok_or (from_rsa_components n e) (fun err => InvalidInput ("jwk decode: " +:+ err));
  ok_or (decode_rs256 issuer token key) (fun e => PermissionDenied ("rs256 verify: " +:+ e)).

(** ** What the cache and the answers are made of *)

(** A body that a URL once answered, read as a document. *)
Definition served {A} (decode : Json -> option A) (url : string) (a : A) : Prop :=
  exists n body, http_get n url = Ok body /\ from_str body ≫= decode = Some a.
Definition genuine (issuer : string) (d : DiscoveryDoc) (jwks : JwkSet) : Prop :=
  served decode_discovery (discovery_url issuer) d /\ served decode_jwks (jwks_uri d) jwks.
Record cache_ok (w : OidcWorld) : Prop := {
  co_once : NoDup (List.map ci_issuer (inner w));
  co_genuine : Forall (fun c => genuine (ci_issuer c) (ci_discovery c) (ci_jwks c)) (inner w);
}.

(** A program whose statements keep the cache and that answers only what [Q] allows. *)
Fixpoint yields {A} (Q : A -> Prop) (p : Oidc A) : Prop :=
  match p with
  | Done (Ok a) => Q a
  | Done (Err _) => True
  | Stmt s k => forall w, cache_ok w -> cache_ok (s w).2 /\ forall b, (s w).1 = Ok b -> yields Q (k b)
  end.

Lemma yields_bind {A B} (Q : A -> Prop) (R : B -> Prop) (p : Oidc A) (f : A -> Oidc B) :
  yields Q p -> (forall a, Q a -> yields R (f a)) -> yields R (p ≫= f).
Proof.
  intros Hp Hf. revert Hp. induction p as [[a|e]|C s k IH]; [by apply Hf|done|].
  intros Hp w Hw. destruct (Hp w Hw) as [Hc Hk]. split; [done|]. intros b Hb. apply IH, Hk, Hb.
Qed.
Lemma yields_stmt {A} (Q : A -> Prop) (s : M OidcWorld ActantError A) :
  (forall w, cache_ok w -> cache_ok (s w).2 /\ forall a, (s w).1 = Ok a -> Q a) -> yields Q (stmt s).
Proof. done. Qed.

Lemma ensure_yields ttl issuer : yields (fun '(d, jwks) => genuine issuer d jwks) (ensure_issuer ttl issuer).
Proof.
  unfold ensure_issuer.
  apply (yields_bind (fun o => match o with Some (d, j) => genuine issuer d j | None => True end)).
  { apply yields_stmt. intros w [Ho Hg]. unfold lookup_fresh.
    destruct (List.find _ (inner w)) as [c|] eqn:Hf; [|by split; [|intros ? [= <-]]].
    apply List.find_some in Hf as [Hc Hid%String.eqb_eq].
    split; [by split|]. rewrite List.Forall_forall in Hg. intros o [= <-]. destruct (_ <? _); [|done]. rewrite <- Hid. by apply Hg. }
  intros [[d j]|] Hc; [done|].
  assert (Hfetch : forall url, yields (fun body => exists n, http_get n url = Ok body) (stmt (fetch url))).
  { intros url. apply yields_stmt. intros w [Ho Hg]. split; [by split|]. unfold fetch. simpl. eauto. }
  eapply yields_bind; [apply Hfetch|]. intros body [n Hn].
  eapply (yields_bind (fun d => served decode_discovery (discovery_url issuer) d)).
  { unfold parse. destruct (from_str body ≫= decode_discovery) eqn:Hd; [|done]. exists n, body. by rewrite Hn, Hd. }
  intros d Hd. eapply yields_bind; [apply Hfetch|]. intros body' [n' Hn'].
  eapply (yields_bind (fun j => served decode_jwks (jwks_uri d) j)).
  { unfold parse. destruct (from_str body' ≫= decode_jwks) eqn:Hj; [|done]. exists n', body'. by rewrite Hn', Hj. }
  intros jwks Hj. apply (yields_bind (fun _ => True)); [|done].
  apply yields_stmt. intros w [Ho Hg]. split; [|done]. unfold replace. split; simpl.
  - rewrite List.map_app. apply NoDup_app. split; [|split; [|apply NoDup_singleton]].
    + clear -Ho. induction (inner w) as [|c l IH]; simpl; [constructor|]. apply NoDup_cons in Ho as [Hc Hl].
      destruct (negb _); simpl; [|by apply IH]. apply NoDup_cons. split; [|by apply IH].
      intros (c' & Hid & [Hin _]%filter_In)%list_elem_of_In%in_map_iff. apply Hc, list_elem_of_In, in_map_iff. eauto.
    + intros x (c & <- & [_ Hne]%filter_In)%list_elem_of_In%in_map_iff Hx%list_elem_of_singleton.
      by rewrite Hx, String.eqb_refl in Hne.
  - apply Forall_app. split; [|by repeat constructor]. apply List.Forall_forall. intros c [Hin _]%filter_In.
    rewrite List.Forall_forall in Hg. by apply Hg.
Qed.

(** A token was verified: with a key of the issuer, for the issuer. *)
Definition verified (issuer token : string) (c : Claims) : Prop :=
  exists d jwks k jwk n e key,
    genuine issuer d jwks /\ decode_header token = Ok (Some k) /\ In jwk jwks /\ kid jwk = k /\
    jwk_n jwk = Some n /\ jwk_e jwk = Some e /\ from_rsa_components n e = Ok key /\
    decode_rs256 issuer token key = Ok c.

Lemma verify_yields ttl issuer token : yields (verified issuer token) (verify_rs256 ttl issuer token).
Proof.
  unfold verify_rs256. eapply yields_bind; [apply ensure_yields|]. intros [d jwks] Hg.
  destruct (decode_header token) as [[k|]|] eqn:Hh; try done. simpl.
  destruct (List.find _ jwks) as [jwk|] eqn:Hf; [|done]. apply List.find_some in Hf as [Hin Hk%String.eqb_eq]. simpl.
  destruct (jwk_n jwk) as [n|] eqn:Hn; [|done]. simpl. destruct (jwk_e jwk) as [e|] eqn:He; [|done]. simpl.
  destruct (from_rsa_components n e) as [key|] eqn:Hkey; [|done]. simpl.
  destruct (decode_rs256 issuer token key) as [c|] eqn:Hc; [|done]. simpl. by exists d, jwks, k, jwk, n, e, key.
Qed.

(** Threads that each answer only what their request allows go on doing so. *)
Lemma threads_yield (requests : list (string * string)) (st st' : list (Oidc Claims) * OidcWorld) :
  rtc istep st st' -> cache_ok st.2 -> Forall2 (fun r p => yields (verified r.1 r.2) p) requests st.1 ->
  cache_ok st'.2 /\ Forall2 (fun r p => yields (verified r.1 r.2) p) requests st'.1.
Proof.
  induction 1 as [|st st1 st2 Hs _ IH]; [done|]. intros Hc Hp. destruct Hs as [pool w i p p' w' Hi Hstep]. simpl in *.
  destruct p as [|B s k]; [done|]. simpl in Hstep.
  destruct (Forall2_lookup_r _ _ _ _ _ Hp Hi) as (r & Hr & Hy). destruct (Hy w Hc) as [Hc' Hk].
  assert (Hst : cache_ok w' /\ yields (verified r.1 r.2) p').
  { destruct (s w) as [[b|e] w1]; injection Hstep as <- <-; (split; [done|]); [by apply Hk|done]. }
  apply IH; [apply Hst|]. rewrite <- (list_insert_id requests i r Hr). apply Forall2_insert; [done|apply Hst].
Qed.

(** C39: Whatever the interleaving of any number of verifications, the cache has one
    entry for each issuer, fetched from that issuer's own document, and a token is
    accepted only when it verifies for its issuer under a key the issuer served. *)
Theorem verify_interleaved (ttl : Z) (requests : list (string * string)) (w : OidcWorld)
    (pool : list (Oidc Claims)) (w' : OidcWorld) :
  cache_ok w ->
  rtc istep (List.map (fun '(issuer, token) => verify_rs256 ttl issuer token) requests, w) (pool, w') ->
  cache_ok w' /\
  forall i issuer token c, requests !! i = Some (issuer, token) ->
    (p ← pool !! i; answer p) = Some (Ok c) -> verified issuer token c.
Proof.
  intros Hw Hsteps.
  assert (Hinv : cache_ok w' /\ Forall2 (fun r p => yields (verified r.1 r.2) p) requests pool).
  { apply (threads_yield requests (List.map (fun '(issuer, token) => verify_rs256 ttl issuer token) requests, w) _ Hsteps Hw).
    clear. induction requests as [|[issuer token] rs IH]; constructor; [apply verify_yields|done]. }
  destruct Hinv as [Hc Hp]. split; [done|]. intros i issuer token c Hr Ha.
  destruct (pool !! i) as [p|] eqn:Hi; [|done]. simpl in Ha.
  pose proof (Forall2_lookup_lr _ _ _ _ _ _ Hp Hr Hi) as Hy. destruct p as [[a|e]|]; try done.
  simpl in Ha. by injection Ha as <-.
Qed.

(** ** Alone *)

(** A fresh entry is answered without the network. *)
Theorem fresh_entry_answered (ttl : Z) (issuer : string) (w : OidcWorld) (c : CachedIssuer) :
  List.find (fun c => String.eqb (ci_issuer c) issuer) (inner w) = Some c ->
  instant (instants w) - fetched_at c < ttl -> 0 < ttl ->
  exec (ensure_issuer ttl issuer) w =
    (Ok (ci_discovery c, ci_jwks c), mkOidcWorld (inner w) (S (instants w)) (fetches w)).
Proof.
  intros Hf Hage Httl. unfold ensure_issuer. rewrite exec_bind. unfold mbind, M_bind. simpl. unfold lookup_fresh. rewrite Hf.
  rewrite (proj2 (Z.ltb_lt _ _)) by lia. done.
Qed.

(** A resolver with no time to live, which its [Default] is, asks the network every time. *)
Theorem no_ttl_always_fetches (issuer : string) (w : OidcWorld) :
  (fetches w < fetches (exec (ensure_issuer 0 issuer) w).2)%nat.
Proof.
  unfold ensure_issuer. rewrite exec_bind. unfold mbind at 1, M_bind. simpl. unfold lookup_fresh.
  assert (Hgo : forall w1, (fetches w <= fetches w1)%nat -> (fetches w < fetches (exec (
      disc_body ← stmt (fetch (discovery_url issuer));
      discovery ← parse decode_discovery discovery_error "oidc discovery" disc_body;
      jwks_body ← stmt (fetch (jwks_uri discovery));
      jwks ← parse decode_jwks jwks_error "oidc jwks" jwks_body;
      stmt (replace issuer discovery jwks);;
      mret (discovery, jwks)) w1).2)%nat).
  { intros w1 Hw1. simpl. destruct (http_get (fetches w1) (discovery_url issuer)) as [body|e]; simpl; [|lia].
    unfold parse. destruct (from_str body ≫= decode_discovery) as [d|]; simpl; [|lia].
    destruct (http_get _ (jwks_uri d)) as [body'|e]; simpl; [|lia].
    destruct (from_str body' ≫= decode_jwks) as [j|]; simpl; lia. }
  destruct (List.find _ (inner w)) as [c|]; [|by apply Hgo].
  rewrite (proj2 (Z.ltb_ge _ _)) by lia. by apply Hgo.
Qed.
End oidc.

(** ** An issuer *)

#[local] Instance demo_texts : SerdeJson := {|
  from_str s :=
    if String.eqb s "D" then Some (jobj [("issuer", JString "https://other"); ("jwks_uri", JString "https://keys")])
    else if String.eqb s "K" then
      Some (jobj [("keys", JArray [jobj [("kid", JString "k1"); ("kty", JString "RSA"); ("n", JString "n"); ("e", JString "AQAB")]])])
    else None;
  to_string _ := "" |}.
#[local] Instance demo_web : Web := {|
  http_get _ url := if String.eqb url "https://id/.well-known/openid-configuration" then Ok "D"
                    else if String.eqb url "https://keys" then Ok "K" else Err (NotFound url);
  instant n := Z.of_nat n * 1000000000; discovery_error _ := ""; jwks_error _ := "" |}.
(** A token is the name of its key. *)
#[local] Instance demo_tokens : JsonWebToken := {|
  Key := string; decode_header t := Ok (Some t); from_rsa_components n e := Ok n;
  decode_rs256 issuer t key := Ok (mkClaims "alice" issuer [] 0 10) |}.
Definition no_issuers : OidcWorld := mkOidcWorld [] 0 0.
Definition first_token : result ActantError Claims * OidcWorld := exec (verify_rs256 new_ttl "https://id" "k1") no_issuers.

(** The document names another issuer than the one it was asked of, and is taken. *)
Example discovery_issuer_not_compared :
  first_token.1 = Ok (mkClaims "alice" "https://id" [] 0 10) /\
  List.map (fun c => dd_issuer (ci_discovery c)) (inner first_token.2) = ["https://other"].
Proof. vm_compute. split; reflexivity. Qed.
(** The workspace of a token is its issuer: that of such a token is a URL. *)
Example workspace_is_the_issuer :
  match first_token.1 with Ok c => p_workspace_id (principal_from_claims c) = "https://id" | Err _ => False end.
Proof. vm_compute. reflexivity. Qed.
(** A key that the issuer brought in since is refused, without asking, until the hour is over. *)
Example rotated_key_refused :
  let r := exec (verify_rs256 new_ttl "https://id" "k2") first_token.2 in
  r.1 = Err (PermissionDenied "no jwk for kid k2") /\ fetches r.2 = fetches first_token.2.
Proof. vm_compute. split; reflexivity. Qed.
(** Two tasks that find nothing both fetch; the cache ends with one entry. *)
Example two_tasks_fetch_both :
  let r := run_schedule [0; 1; 0; 1; 0; 1; 0; 1]%nat
    [verify_rs256 new_ttl "https://id" "k1"; verify_rs256 new_ttl "https://id" "k1"] no_issuers in
  fetches r.2 = 4%nat /\ cache_size r.2 = 1%nat.
Proof. vm_compute. split; reflexivity. Qed.

Lemma verify_interleaved_witness :
  cache_ok (run_schedule [0; 1; 0; 1; 0; 1; 0; 1]%nat
    (List.map (fun '(issuer, token) => verify_rs256 new_ttl issuer token) [("https://id", "k1"); ("https://id", "k2")])
    no_issuers).2.
Proof.
  set (r := run_schedule _ _ _).
  apply (verify_interleaved new_ttl [("https://id", "k1"); ("https://id", "k2")] no_issuers r.1 r.2).
  - split; constructor.
  - rewrite <- surjective_pairing. apply run_schedule_steps.
Defined.
