(* ===== verification/Backup.v ===== *)
(** * Backups ([actant-storage/src/backup.rs], [backup] and [restore] of actant-cli/src/main.rs)

    Captures of SQLite's write-ahead log numbered by a counter in the database, the
    manifest that lists them, and the two commands that write and replay them.
    SQLite itself is a parameter: what a checkpoint does, what the log holds, and
    what putting a log beside a database makes of it.  So are the texts of serde and
    which calls of the file system fail, and what a failed write leaves. *)

From S2P Require Import Prelude Str Json Core Storage.
#[local] Open Scope string_scope.
#[local] Open Scope list_scope.
#[local] Open Scope Z_scope.

(** ** Increments and the manifest *)

Record WalIncrement := mkIncrement { inc_lsn : Z; inc_previous_lsn : Z; inc_bytes : string }.
Inductive EntryKind := Full | Incremental.
Record ManifestEntry := mkEntry {
  en_kind : EntryKind; en_file : string; en_lsn : Z; en_previous_lsn : Z; en_sha256 : string; en_size_bytes : Z;
  en_taken_at : string
}.
Record Manifest := mkManifest { mf_version : Z; entries : list ManifestEntry }.
Definition MANIFEST_VERSION : Z := 1.
Definition new_manifest : Manifest := mkManifest MANIFEST_VERSION [].
Definition is_full (e : ManifestEntry) : bool := match en_kind e with Full => true | Incremental => false end.
Definition manifest_last_lsn (m : Manifest) : Z := default 0 (en_lsn <$> last (entries m)).
Definition last_full (m : Manifest) : option ManifestEntry := List.find is_full (rev (entries m)).
Definition last_full_lsn (m : Manifest) : option Z := en_lsn <$> last_full m.
Definition last_full_taken_at (m : Manifest) : option string := en_taken_at <$> last_full m.

(** serde_json on the manifest and on an increment. *)
Class BackupText := {
  manifest_to_vec : Manifest -> result string string; manifest_from_slice : string -> result string Manifest;
  increment_to_vec : WalIncrement -> result string string; increment_from_slice : string -> result string WalIncrement;
}.
Class BackupTextLaws `{BackupText} : Prop := {
  manifest_read_back : forall m s, manifest_to_vec m = Ok s -> manifest_from_slice s = Ok m;
  increment_read_back : forall i s, increment_to_vec i = Ok s -> increment_from_slice s = Ok i;
}.

(** SQLite: a database with its log, as the process has it open.  What changes it
    answers whether it failed, and the database it leaves, also then. *)
Class SqliteDb := {
  Db : Type;
  file_backed : Db -> bool;
  wal_path : Db -> string;
  read_main : Db -> result string string;                   (* the bytes of the main file *)
  wal_bytes : Db -> string;                                 (* those of the log, none when it cannot be read *)
  open_db : Db -> result ActantError unit * Db;             (* [Storage::open], migrations included *)
  close_db : Db -> Db;
  copy_over : string -> Db -> result string unit * Db;      (* the main file overwritten, the log beside it left *)
  checkpoint_passive : Db -> result string unit * Db;
  checkpoint_truncate : Db -> result string unit * Db;
  ensure_table : Db -> result string unit * Db;             (* CREATE TABLE IF NOT EXISTS, INSERT OR IGNORE *)
  lsn_row : Db -> option Z;                                 (* the counter, when the row is there *)
  set_lsn : Z -> string -> Db -> result string unit * Db;   (* UPDATE *)
  put_wal : string -> Db -> result string unit * Db;        (* the log replaced under the database *)
  remove_wal : Db -> Db;
}.
(** What reads the counter, or makes room for it, does not change it. *)
Class SqliteDbLaws `{SqliteDb} : Prop := {
  ensure_sets : forall d, default 0 (lsn_row (ensure_table d).2) = default 0 (lsn_row d);
  open_keeps : forall d, lsn_row (open_db d).2 = lsn_row d;
}.

(** ** Capturing and applying *)

(** The database, the files, and the positions in the file-system calls and the clock. *)
Section backup.
Context `{Env} `{Sha256} `{BackupText} `{SqliteDb}.

Record Machine := mkMachine { db : Db; files : gmap string string; calls : nat; ticks : nat }.
#[local] Abbreviation Run A := (M Machine ActantError A).
Definition set_db (d : Db) (w : Machine) : Machine := mkMachine d (files w) (calls w) (ticks w).

Definition sql (what : string) (f : Db -> result string unit * Db) : Run unit :=
  fun w => let '(r, d) := f (db w) in
    (match r with Ok _ => Ok tt | Err e => Err (Core.Storage (what +:+ e)) end, set_db d w).
Definition quietly (f : Db -> Db) : Run unit := fun w => (Ok tt, set_db (f (db w)) w).
Definition now_text : Run string := fun w => (Ok (clock (ticks w)), mkMachine (db w) (files w) (calls w) (S (ticks w))).
Definition look {A} (f : Db -> A) : Run A := fun w => (Ok (f (db w)), w).
(** [i64 as u64]. *)
Definition i64_as_u64 (x : Z) : Z := x mod 2 ^ 64.

Definition ensure_backup_state : Run unit := sql "" ensure_table.
Definition last_lsn : Run Z :=
  ensure_backup_state;;
  look (fun d => i64_as_u64 (default 0 (lsn_row d))).
Definition write_lsn (n : Z) : Run unit := t ← now_text; sql "" (set_lsn (u64_as_i64 n) t).

Definition wal_frames_since (from_lsn : Z) : Run WalIncrement :=
  ensure_backup_state;;
  current ← last_lsn;
  if negb (from_lsn =? current) then
    throw (InvalidInput ("wal_frames_since: caller expected LSN " +:+ show_Z from_lsn +:+ " but storage is at " +:+ show_Z current))
  else
    sql "wal_checkpoint(PASSIVE): " checkpoint_passive;;
    bytes ← look (fun d => if file_backed d then wal_bytes d else "");
    sql "wal_checkpoint(TRUNCATE): " checkpoint_truncate;;
    write_lsn (current + 1);;
    mret (mkIncrement (current + 1) current bytes).

Definition apply_wal_frames (inc : WalIncrement) : Run unit :=
  let empty := String.eqb (inc_bytes inc) "" in
  fb ← look file_backed;
  (if empty then mret tt
   else if negb fb then throw (Core.Storage "apply_wal_frames: in-memory storage cannot accept WAL frames")
   else path ← look wal_path; sql ("write " +:+ path +:+ ": ") (put_wal (inc_bytes inc)));;
  ensure_backup_state;;
  current ← last_lsn;
  if negb (inc_previous_lsn inc =? current) then
    (if empty then mret tt else quietly remove_wal);;
    throw (InvalidInput ("apply_wal_frames: increment chains from LSN " +:+ show_Z (inc_previous_lsn inc)
             +:+ " but storage is at " +:+ show_Z current))
  else
    (if empty then mret tt else sql "wal_checkpoint(TRUNCATE): " checkpoint_truncate);;
    write_lsn (inc_lsn inc).

(** ** Files *)

(** Which calls fail, and what a failed write leaves. *)
Class DiskFaults := { disk_error : nat -> option string; disk_torn : nat -> string -> option string }.
Context `{DiskFaults}.

Definition disk {A} (what : string) (f : gmap string string -> result string (A * gmap string string))
    (on_error : nat -> gmap string string -> gmap string string) : Run A :=
  fun w => let fail e fs := (Err (Core.Storage (what +:+ e)), mkMachine (db w) fs (S (calls w)) (ticks w)) in
    match disk_error (calls w) with
    | Some e => fail e (on_error (calls w) (files w))
    | None => match f (files w) with
              | Ok (a, fs) => (Ok a, mkMachine (db w) fs (S (calls w)) (ticks w))
              | Err e => fail e (files w)
              end
    end.
Definition write_disk (what path body : string) : Run unit :=
  disk what (fun fs => Ok (tt, <[path := body]> fs))
    (fun n fs => match disk_torn n body with Some b => <[path := b]> fs | None => fs end).
Definition read_disk (what path : string) : Run string :=
  disk what (fun fs => match fs !! path with Some b => Ok (b, fs) | None => Err "No such file or directory" end) (fun _ fs => fs).
Definition rename_disk (what from to : string) : Run unit :=
  disk what (fun fs => match fs !! from with
                       | Some b => Ok (tt, <[to := b]> (delete from fs))
                       | None => Err "No such file or directory" end) (fun _ fs => fs).
(** [create_dir_all]. *)
Definition make_dir (what : string) : Run unit := disk what (fun fs => Ok (tt, fs)) (fun _ fs => fs).

Definition of_text {A} (what : string) (r : result string A) : Run A :=
  match r with Ok a => mret a | Err e => throw (Core.Storage (what +:+ e)) end.
Definition read_or_default (path : string) : Run Manifest :=
  there ← (fun w => (Ok (bool_decide (is_Some (files w !! path))), w));
  if negb there then mret new_manifest
  else
    bytes ← read_disk ("read " +:+ path +:+ ": ") path;
    m ← of_text "parse manifest: " (manifest_from_slice bytes);
    if negb (mf_version m =? MANIFEST_VERSION) then
      throw (Core.Storage ("unsupported manifest version " +:+ show_Z (mf_version m) +:+ " (this build understands "
               +:+ show_Z MANIFEST_VERSION +:+ ")"))
    else mret m.
(** [path.with_extension("json.tmp")] of a path that ends in [.json]. *)
Definition tmp_of (path : string) : string := path +:+ ".tmp".
Definition write_manifest (m : Manifest) (path : string) : Run unit :=
  bytes ← of_text "encode manifest: " (manifest_to_vec m);
  write_disk ("write " +:+ tmp_of path +:+ ": ") (tmp_of path) bytes;;
  rename_disk ("rename " +:+ path +:+ ": ") (tmp_of path) path.

(** ** The commands *)

(** [{lsn:020}]. *)
Fixpoint zeros (n : nat) : string := match n with O => "" | S n => String "0" (zeros n) end.
Definition padded (lsn : Z) : string := let s := show_Z lsn in zeros (20 - String.length s) +:+ s.
(** [Path::join] of a relative name. *)
Definition in_dir (dir name : string) : string :=
  if String.eqb dir "" then name else if ends_with "/" dir then dir +:+ name else dir +:+ "/" +:+ name.
Definition manifest_path (dir : string) : string := in_dir dir "manifest.json".
Definition open_storage : Run unit := fun w => let '(r, d) := open_db (db w) in (r, set_db d w).
Definition drop_storage : Run unit := quietly close_db.

(** [cli_errors::storage] around an error of the storage crate. *)
Definition for_cli {A} (action : string) (m : Run A) : Run A :=
  map_err (fun e => Core.Storage (action +:+ ": " +:+ display e)) m.

(** [backup --mode full]: one file. *)
Definition backup_full (to : string) : Run unit :=
  open_storage;;
  sql "wal checkpoint: " checkpoint_truncate;;
  drop_storage;;
  file ← look read_main;
  bytes ← of_text "copy backup: " file;
  write_disk "copy backup: " to bytes.

(** [backup --mode incremental]: a snapshot the first time, then an increment. *)
Definition backup_incremental (to : string) : Run unit :=
  make_dir "create backup dir: ";;
  manifest ← for_cli "read backup manifest" (read_or_default (manifest_path to));
  open_storage;;
  now_ts ← now_text;
  match last_full_lsn manifest with
  | None =>
      sql "wal checkpoint: " checkpoint_truncate;;
      lsn ← last_lsn;
      drop_storage;;
      main ← look read_main;
      bytes ← of_text "read sqlite database: " main;
      let file := "full-" +:+ padded lsn +:+ ".sqlite" in
      write_disk "write full backup: " (in_dir to file) bytes;;
      for_cli "write backup manifest" (write_manifest (mkManifest (mf_version manifest)
        (entries manifest ++ [mkEntry Full file lsn lsn (sha256_hex bytes) (str_len bytes) now_ts])) (manifest_path to))
  | Some _ =>
      let from_lsn := manifest_last_lsn manifest in
      inc ← wal_frames_since from_lsn;
      drop_storage;;
      bytes ← of_text "encode wal increment: " (increment_to_vec inc);
      let file := "wal-" +:+ padded (inc_lsn inc) +:+ ".json" in
      write_disk "write wal increment: " (in_dir to file) bytes;;
      for_cli "write backup manifest" (write_manifest (mkManifest (mf_version manifest)
        (entries manifest ++ [mkEntry Incremental file (inc_lsn inc) from_lsn (sha256_hex bytes) (str_len bytes) now_ts]))
        (manifest_path to))
  end.

(** The entries from the last full snapshot on. *)
Fixpoint from_last_full (es : list ManifestEntry) : option (ManifestEntry * list ManifestEntry) :=
  match es with
  | [] => None
  | e :: es' =>
      match from_last_full es' with
      | Some r => Some r
      | None => if is_full e then Some (e, es') else None
      end
  end.
Fixpoint replay (from : string) (stop current : Z) (es : list ManifestEntry) : Run Z :=
  match es with
  | [] => mret current
  | e :: es' =>
      if is_full e then replay from stop current es'
      else if stop <? en_lsn e then mret current
      else
        bytes ← read_disk "read wal increment: " (in_dir from (en_file e));
        match increment_from_slice bytes with
        | Err msg => throw (InvalidInput ("decode " +:+ en_file e +:+ ": " +:+ msg))
        | Ok inc => apply_wal_frames inc;; replay from stop (en_lsn e) es'
        end
  end.
Definition copy_database (what path : string) : Run unit :=
  bytes ← read_disk what path;
  sql what (copy_over bytes).
(** [restore] from a directory, answering the number it ends at. *)
Definition restore_dir (from : string) (at_lsn : option Z) : Run Z :=
  make_dir "create database dir: ";;
  manifest ← for_cli "read backup manifest" (read_or_default (manifest_path from));
  match entries manifest with
  | [] => throw (NotFound ("no entries in " +:+ from +:+ "/manifest.json"))
  | es =>
      match from_last_full es with
      | None => throw (NotFound "no full snapshot in manifest")
      | Some (full_entry, later) =>
          copy_database "restore full backup: " (in_dir from (en_file full_entry));;
          let stop := default u64_max at_lsn in
          if stop <? en_lsn full_entry then
            throw (InvalidInput ("requested at_lsn=" +:+ show_Z stop +:+ " is before the latest full snapshot lsn="
                     +:+ show_Z (en_lsn full_entry)))
          else
            open_storage;;
            n ← replay from stop (en_lsn full_entry) later;
            drop_storage;;
            mret n
      end
  end.
(** [restore] from one file. *)
Definition restore_file (from : string) : Run unit :=
  make_dir "create database dir: ";;
  copy_database "restore full backup: " from;;
  open_storage;;
  drop_storage.

(** ** The manifest is replaced whole *)

Definition on_file (path : string) (x : option string) (w : Machine) : Prop := files w !! path = x.

Lemma bind_run {A B} (m : Run A) (f : A -> Run B) w :
  (m ≫= f) w = match m w with (Ok a, w') => f a w' | (Err e, w') => (Err e, w') end.
Proof. unfold mbind, M_bind. by destruct (m w) as [[]]. Qed.

Lemma sql_run what f w : sql what f w =
  (match (f (db w)).1 with Ok _ => Ok tt | Err e => Err (Core.Storage (what +:+ e)) end, set_db (f (db w)).2 w).
Proof. unfold sql. by destruct (f (db w)). Qed.
Lemma sql_keeps_file path x what f : preserves (on_file path x) (sql what f).
Proof. intros w Hw. unfold sql. by destruct (f (db w)) as [[] d]. Qed.
Lemma disk_keeps_file {A} path x what (f : gmap string string -> result string (A * gmap string string)) g :
  (forall fs a fs', f fs = Ok (a, fs') -> fs' !! path = fs !! path) -> (forall n fs, g n fs !! path = fs !! path) ->
  preserves (on_file path x) (disk what f g).
Proof.
  intros Hf Hg w Hw. unfold disk, on_file in *. destruct (disk_error (calls w)); simpl; [by rewrite Hg|].
  destruct (f (files w)) as [[a fs]|e] eqn:He; simpl; [by rewrite (Hf _ _ _ He)|done].
Qed.
Lemma write_keeps_file path x what p b : p <> path -> preserves (on_file path x) (write_disk what p b).
Proof.
  intros Hne. apply disk_keeps_file.
  - intros fs a fs' [= _ <-]. by rewrite lookup_insert_ne.
  - intros n fs. destruct (disk_torn n b); [by rewrite lookup_insert_ne|done].
Qed.
Lemma read_keeps_file path x what p : preserves (on_file path x) (read_disk what p).
Proof. apply disk_keeps_file; [|done]. intros fs a fs' Hf. by destruct (fs !! p); [injection Hf as _ <-|]. Qed.
Lemma map_err_keeps {A} (P : Machine -> Prop) f (m : Run A) : preserves P m -> preserves P (map_err f m : Run A).
Proof. intros Hm w Hw. specialize (Hm w Hw). unfold map_err. by destruct (m w) as [[a|e] w']. Qed.
Lemma quiet_keeps_file {A} path x (m : Run A) : (forall w, files (m w).2 = files w) -> preserves (on_file path x) m.
Proof. intros Hm w Hw. unfold on_file. by rewrite Hm. Qed.
Lemma of_text_keeps {A} (P : Machine -> Prop) what (r : result string A) : preserves P (of_text what r : Run A).
Proof. intros w Hw. by destruct r. Qed.

Lemma tmp_ne path : tmp_of path <> path.
Proof.
  intros He. apply (f_equal String.length) in He. unfold tmp_of in He. rewrite length_append in He. simpl in He. lia.
Qed.

(** Writing the manifest replaces the file whole or leaves it as it was, whatever
    call fails and whatever a failed write leaves: after an error the old one is
    there, after a success the new one. *)
Theorem write_manifest_atomic (m : Manifest) (path : string) (w : Machine) :
  match write_manifest m path w with
  | (Ok _, w') => exists bytes, manifest_to_vec m = Ok bytes /\ files w' !! path = Some bytes
  | (Err _, w') => files w' !! path = files w !! path
  end /\
  db (write_manifest m path w).2 = db w /\
  forall p, p <> path -> p <> tmp_of path -> files (write_manifest m path w).2 !! p = files w !! p.
Proof.
  unfold write_manifest. rewrite bind_run. unfold of_text. destruct (manifest_to_vec m) as [bytes|e]; [|done]. simpl.
  unfold write_disk, rename_disk, disk. rewrite bind_run. simpl. pose proof (tmp_ne path) as Hne.
  destruct (disk_error (calls w)) as [e|]; simpl.
  { split; [|split; [done|]]; [|intros p Hp Ht]; (destruct (disk_torn (calls w) bytes); [by rewrite lookup_insert_ne|done]). }
  destruct (disk_error (S (calls w))) as [e|]; simpl.
  { split; [by rewrite lookup_insert_ne|split; [done|]]. intros p Hp Ht. by rewrite lookup_insert_ne. }
  rewrite lookup_insert_eq. simpl. split; [|split; [done|]].
  - exists bytes. split; [done|]. by rewrite lookup_insert_eq.
  - intros p Hp Ht. by rewrite lookup_insert_ne, lookup_delete_ne, lookup_insert_ne.
Qed.

(** ** The chain of increments *)

(** Each increment starts where the entry before it ended, and is one further. *)
Fixpoint linked (prev : option Z) (es : list ManifestEntry) : Prop :=
  match es with
  | [] => True
  | e :: es' =>
      match en_kind e with
      | Full => en_previous_lsn e = en_lsn e
      | Incremental => prev = Some (en_previous_lsn e) /\ en_lsn e = en_previous_lsn e + 1
      end /\ linked (Some (en_lsn e)) es'
  end.
Definition chain_ok (m : Manifest) : Prop := linked None (entries m).

Definition end_of (prev : option Z) (es : list ManifestEntry) : option Z :=
  match last es with Some e => Some (en_lsn e) | None => prev end.
Lemma linked_snoc prev es e : linked prev es -> linked (end_of prev es) [e] -> linked prev (es ++ [e]).
Proof.
  revert prev. induction es as [|x es IH]; intros prev; simpl; [done|]. intros [Hx Hes] He. split; [done|].
  apply IH; [done|]. unfold end_of in *. rewrite last_cons in He. by destruct (last es).
Qed.
Lemma linked_no_full prev es : linked prev es -> last_full (mkManifest 1 es) = None -> prev = None -> es = [].
Proof.
  destruct es as [|e es]; [done|]. unfold last_full. simpl. intros [He _] Hf ->. exfalso.
  assert (Hin : In e (rev es ++ [e])) by (apply in_or_app; right; by left).
  pose proof (List.find_none _ _ Hf e Hin) as Hn. unfold is_full in Hn. destruct (en_kind e); [done|]. by destruct He as [He _].
Qed.

(** The manifest that a reader of the directory finds. *)
Definition listed (dir : string) (w : Machine) : option Manifest :=
  match files w !! manifest_path dir with
  | None => Some new_manifest
  | Some b => match manifest_from_slice b with
              | Ok m => if mf_version m =? MANIFEST_VERSION then Some m else None
              | Err _ => None
              end
  end.
Definition storage_lsn (w : Machine) : Z := i64_as_u64 (default 0 (lsn_row (db w))).

Lemma in_dir_inj dir a b : in_dir dir a = in_dir dir b -> a = b.
Proof.
  unfold in_dir. destruct (String.eqb dir ""); [done|].
  destruct (ends_with "/" dir); [apply append_inj_l|]. intros He. do 2 apply append_inj_l in He. done.
Qed.
Lemma read_or_default_listed dir w :
  let '(r, w') := read_or_default (manifest_path dir) w in
  files w' = files w /\ db w' = db w /\ match r with Ok m => listed dir w = Some m | Err _ => True end.
Proof.
  unfold read_or_default, listed. rewrite bind_run. destruct (files w !! manifest_path dir) as [b|] eqn:Hf.
  - rewrite bool_decide_eq_true_2 by eauto. simpl. unfold read_disk, disk. rewrite bind_run.
    destruct (disk_error (calls w)); [done|]. rewrite Hf. simpl. destruct (manifest_from_slice b) as [m|e]; simpl; [|done].
    rewrite bind_run. simpl. by destruct (mf_version m =? MANIFEST_VERSION).
  - rewrite bool_decide_eq_false_2; [done|]. intros [? ?]; discriminate.
Qed.
Lemma listed_version dir w m : listed dir w = Some m -> mf_version m = MANIFEST_VERSION.
Proof.
  unfold listed. destruct (files w !! manifest_path dir) as [b|]; [|by intros [= <-]].
  destruct (manifest_from_slice b) as [m'|]; [|done]. destruct (Z.eqb_spec (mf_version m') MANIFEST_VERSION); [|done].
  by intros [= <-].
Qed.

(** What can happen to the manifest of [dir] when [rest] runs in the end. *)
Definition ends_in (dir : string) (m : Manifest) (Q : ManifestEntry -> Prop) (r : result ActantError unit * Machine) : Prop :=
  match r.1 with
  | Ok _ => exists e, Q e /\ listed dir r.2 = Some (mkManifest (mf_version m) (entries m ++ [e]))
  | Err _ => listed dir r.2 = Some m
  end.
Lemma ends_in_bind {A} dir m Q (s : Run A) (rest : A -> Run unit) (R : A -> Prop) w :
  listed dir w = Some m -> (files (s w).2 !! manifest_path dir = files w !! manifest_path dir) ->
  (forall a, (s w).1 = Ok a -> R a) ->
  (forall a w', R a -> listed dir w' = Some m -> ends_in dir m Q (rest a w')) ->
  ends_in dir m Q ((s ≫= rest) w).
Proof.
  intros Hl Hs Hr Hk. rewrite bind_run. assert (Hl' : listed dir (s w).2 = Some m) by (unfold listed in *; by rewrite Hs).
  destruct (s w) as [[a|e] w1]; simpl in *; [|done]. apply Hk; [by apply Hr|done].
Qed.
Lemma files_kept {A} dir (s : Run A) (w : Machine) :
  (forall x, preserves (on_file (manifest_path dir) x) s) -> files (s w).2 !! manifest_path dir = files w !! manifest_path dir.
Proof. intros Hs. by apply (Hs _ w). Qed.

Lemma wal_frames_since_quiet from w :
  let '(r, w') := wal_frames_since from w in
  files w' = files w /\ match r with Ok inc => inc_lsn inc = from + 1 /\ inc_previous_lsn inc = from | Err _ => True end.
Proof.
  unfold wal_frames_since, last_lsn, ensure_backup_state, write_lsn.
  rewrite bind_run, sql_run. destruct (ensure_table (db w)) as [[] d1]; simpl; [|done].
  rewrite !bind_run, sql_run. simpl. destruct (ensure_table d1) as [[] d2]; simpl; [|done].
  destruct (Z.eqb_spec from (i64_as_u64 (default 0 (lsn_row d2)))) as [<-|Hne]; simpl; [|done].
  rewrite bind_run, sql_run. simpl. destruct (checkpoint_passive d2) as [[] d3]; simpl; [|done].
  rewrite bind_run. simpl. rewrite bind_run, sql_run. simpl. destruct (checkpoint_truncate d3) as [[] d4]; simpl; [|done].
  rewrite !bind_run. simpl. rewrite sql_run. simpl. by destruct (set_lsn _ _ d4) as [[] d5].
Qed.
Context `{!BackupTextLaws}.

(** The rest of the command once the file of the entry is to be written. *)
Lemma record_entry_ends dir m (Q : ManifestEntry -> Prop) name body e what w :
  listed dir w = Some m -> name <> "manifest.json" -> Q e ->
  ends_in dir m Q ((write_disk what (in_dir dir name) body;;
    for_cli "write backup manifest"
      (write_manifest (mkManifest (mf_version m) (entries m ++ [e])) (manifest_path dir))) w).
Proof.
  intros Hl Hn Hq. apply (ends_in_bind _ _ _ _ _ (fun _ => True)); [done| |done|].
  - apply files_kept. intros x. apply write_keeps_file. intros He%in_dir_inj. done.
  - intros [] w1 _ Hl1. unfold for_cli, map_err, ends_in.
    pose proof (write_manifest_atomic (mkManifest (mf_version m) (entries m ++ [e])) (manifest_path dir) w1) as [Hm _].
    destruct (write_manifest _ _ w1) as [[[]|err] w2]; simpl; unfold listed in *; [|by rewrite Hm].
    destruct Hm as (bytes & Hb & ->). exists e. split; [done|]. rewrite (manifest_read_back _ _ Hb). simpl.
    apply listed_version in Hl1. by rewrite Hl1.
Qed.

Lemma name_ne_manifest p s : String.get 0 p <> Some "m"%char -> p <> "" -> p +:+ s <> "manifest.json".
Proof. destruct p; [done|]. intros Hp _ [= -> _]. by apply Hp. Qed.

(** What the entry of a backup is: the first one a snapshot of the storage, and from
    then on the increment that follows the last. *)
Definition next_entry (m : Manifest) (e : ManifestEntry) : Prop :=
  match last_full_lsn m with
  | None => en_kind e = Full /\ en_previous_lsn e = en_lsn e
  | Some _ => en_kind e = Incremental /\ en_previous_lsn e = manifest_last_lsn m /\ en_lsn e = manifest_last_lsn m + 1
  end.

Lemma backup_incremental_ends dir m w :
  listed dir w = Some m -> ends_in dir m (next_entry m) (backup_incremental dir w).
Proof.
  intros Hl. unfold backup_incremental.
  apply (ends_in_bind _ _ _ _ _ (fun _ => True)); [done|by apply files_kept; intros x; apply disk_keeps_file; [intros ??? [= _ <-]|]|done|].
  intros [] w1 _ Hl1. pose proof (read_or_default_listed dir w1) as Hr.
  apply (ends_in_bind _ _ _ _ _ (fun m' => m' = m)); [done| | |].
  { unfold for_cli, map_err. destruct (read_or_default _ w1) as [[m'|e] w2]; simpl; by destruct Hr as [-> _]. }
  { intros m'. unfold for_cli, map_err. destruct (read_or_default _ w1) as [[m1|e] w2]; simpl; [|done].
    intros [= <-]. destruct Hr as (_ & _ & Hr). congruence. }
  intros ? w2 -> Hl2.
  apply (ends_in_bind _ _ _ _ _ (fun _ => True)); [done| |done|].
  { unfold open_storage. by destruct (open_db (db w2)). }
  intros [] w3 _ Hl3. apply (ends_in_bind _ _ _ _ _ (fun _ => True)); [done|done|done|].
  intros now w4 _ Hl4. unfold next_entry. destruct (last_full_lsn m) eqn:Hf.
  - apply (ends_in_bind _ _ _ _ _ (fun inc => inc_lsn inc = manifest_last_lsn m + 1)); [done| | |].
    + pose proof (wal_frames_since_quiet (manifest_last_lsn m) w4) as Hq.
      destruct (wal_frames_since _ w4) as [r w5]. simpl. by destruct Hq as [-> _].
    + pose proof (wal_frames_since_quiet (manifest_last_lsn m) w4) as Hq.
      destruct (wal_frames_since _ w4) as [r w5]. intros inc [= ->]. apply Hq.
    + intros inc w5 Hi Hl5. apply (ends_in_bind _ _ _ _ _ (fun _ => True)); [done|done|done|].
      intros [] w6 _ Hl6. apply (ends_in_bind _ _ _ _ _ (fun _ => True)); [done|by destruct (increment_to_vec inc)|done|].
      intros bytes w7 _ Hl7. apply record_entry_ends; [done| |by rewrite Hi]. by apply name_ne_manifest.
  - apply (ends_in_bind _ _ _ _ _ (fun _ => True)); [done| |done|].
    { apply files_kept. intros x. apply sql_keeps_file. }
    intros [] w5 _ Hl5. apply (ends_in_bind _ _ _ _ _ (fun _ => True)); [done| |done|].
    { apply files_kept. intros x. unfold last_lsn. apply preserves_bind; [apply sql_keeps_file|]. intros []. by apply quiet_keeps_file. }
    intros lsn w6 _ Hl6. do 2 (apply (ends_in_bind _ _ _ _ _ (fun _ => True)); [done|done|done|]; intros ? ? _ ?).
    apply (ends_in_bind _ _ _ _ _ (fun _ => True)); [done| |done|].
    { by match goal with |- context [of_text _ ?r] => destruct r end. }
    intros bytes w8 _ Hl8. apply record_entry_ends; [done| |done]. by apply name_ne_manifest.
Qed.

(** C40: However often the backup runs and whatever fails, the manifest stays a chain that
    starts with a snapshot and in which each increment follows the entry before it:
    a run that fails leaves it as it was, and one that succeeds adds one entry. *)
Theorem backup_incremental_chain (dir : string) (m : Manifest) (w : Machine) :
  listed dir w = Some m -> chain_ok m ->
  match backup_incremental dir w with
  | (Err _, w') => listed dir w' = Some m
  | (Ok _, w') => exists e, listed dir w' = Some (mkManifest (mf_version m) (entries m ++ [e])) /\
                    chain_ok (mkManifest (mf_version m) (entries m ++ [e]))
  end.
Proof.
  intros Hl Hc. pose proof (backup_incremental_ends dir m w Hl) as He. unfold ends_in in He.
  destruct (backup_incremental dir w) as [[[]|err] w']; [|done]. destruct He as (e & Hn & Hl'). exists e. split; [done|].
  unfold chain_ok in *. simpl. apply linked_snoc; [done|]. unfold next_entry, last_full_lsn in Hn.
  destruct (last_full m) as [f|] eqn:Hf; simpl in Hn.
  - destruct Hn as (Hk & Hp & Hn). simpl. rewrite Hk. split; [|done]. rewrite Hp, Hn. split; [|done].
    unfold end_of, manifest_last_lsn. destruct (last (entries m)) eqn:Hlast; [done|].
    apply last_None in Hlast. unfold last_full in Hf. by rewrite Hlast in Hf.
  - destruct Hn as [Hk Hp]. simpl. by rewrite Hk.
Qed.

(** ** Out of step *)

Context `{!SqliteDbLaws}.

(** The database counts on from a number that the manifest does not end at. *)
Definition out_of_step (dir : string) (m : Manifest) (n : Z) (w : Machine) : Prop :=
  listed dir w = Some m /\ storage_lsn w = n.
Definition stuck (dir : string) (m : Manifest) (n : Z) (r : result ActantError unit * Machine) : Prop :=
  (exists e, r.1 = Err e) /\ out_of_step dir m n r.2.
Lemma stuck_bind {A} dir m n (s : Run A) (rest : A -> Run unit) (R : A -> Prop) w :
  out_of_step dir m n (s w).2 -> (forall a, (s w).1 = Ok a -> R a) ->
  (forall a w', R a -> out_of_step dir m n w' -> stuck dir m n (rest a w')) -> stuck dir m n ((s ≫= rest) w).
Proof.
  intros Hs Hr Hk. rewrite bind_run. destruct (s w) as [[a|e] w1]; simpl in *; [by apply Hk; [apply Hr|]|].
  split; [by exists e|done].
Qed.
Lemma backup_incremental_stuck dir m n w :
  out_of_step dir m n w -> last_full m <> None -> n <> manifest_last_lsn m -> stuck dir m n (backup_incremental dir w).
Proof.
  intros Hw Hf Hn. unfold backup_incremental.
  apply (stuck_bind _ _ _ _ _ (fun _ => True)); [|done|].
  { unfold make_dir, disk. by destruct (disk_error (calls w)). }
  intros [] w1 _ [Hl1 Hs1]. pose proof (read_or_default_listed dir w1) as Hr.
  apply (stuck_bind _ _ _ _ _ (fun m' => m' = m)).
  { unfold for_cli, map_err, out_of_step, listed, storage_lsn in *.
    destruct (read_or_default _ w1) as [[m'|e] w2]; simpl; by destruct Hr as (-> & -> & _). }
  { intros m'. unfold for_cli, map_err. destruct (read_or_default _ w1) as [[m1|e] w2]; simpl; [|done].
    intros [= <-]. destruct Hr as (_ & _ & Hr). congruence. }
  intros ? w2 -> [Hl2 Hs2]. apply (stuck_bind _ _ _ _ _ (fun _ => True)); [|done|].
  { unfold open_storage, out_of_step, storage_lsn in *. pose proof (open_keeps (db w2)) as Ho.
    destruct (open_db (db w2)) as [r d]. simpl in *. by rewrite Ho. }
  intros [] w3 _ Hw3. apply (stuck_bind _ _ _ _ _ (fun _ => True)); [done|done|].
  intros now w4 _ [Hl4 Hs4]. unfold last_full_lsn. destruct (last_full m); [|done]. simpl.
  assert (Hens : forall w, out_of_step dir m n w -> out_of_step dir m n (sql "" ensure_table w).2).
  { intros w' [Hl Hs]. rewrite sql_run. unfold out_of_step, storage_lsn in *. simpl. by rewrite ensure_sets. }
  apply (stuck_bind _ _ _ _ _ (fun _ => False)); [| |done]; unfold wal_frames_since, last_lsn, ensure_backup_state;
    rewrite bind_run; pose proof (Hens w4 (conj Hl4 Hs4)) as Hw5; destruct (sql "" ensure_table w4) as [[[]|e] w5]; try done;
    rewrite !bind_run; pose proof (Hens w5 Hw5) as Hw6; destruct (sql "" ensure_table w5) as [[[]|e] w6]; try done; simpl;
    destruct Hw6 as [Hl6 Hs6]; unfold storage_lsn in Hs6; simpl in Hs6; rewrite Hs6;
    rewrite (proj2 (Z.eqb_neq _ _)) by (simpl; congruence); done.
Qed.

(** Once the counter of the database is not what the manifest ends at, no later
    incremental backup to that directory succeeds, and none changes either. *)
Theorem out_of_step_forever (dir : string) (m : Manifest) (w : Machine) (k : nat) :
  listed dir w = Some m -> last_full m <> None -> storage_lsn w <> manifest_last_lsn m ->
  let w' := Nat.iter k (fun w => (backup_incremental dir w).2) w in
  listed dir w' = Some m /\ exists e, (backup_incremental dir w').1 = Err e.
Proof.
  intros Hl Hf Hn. simpl. assert (Hk : out_of_step dir m (storage_lsn w) (Nat.iter k (fun w => (backup_incremental dir w).2) w)).
  { induction k as [|k IH]; simpl; [done|]. by apply backup_incremental_stuck. }
  split; [apply Hk|]. by apply (backup_incremental_stuck dir m (storage_lsn w)).
Qed.

(** ** Restoring to a point *)

Lemma from_last_full_split es e later : from_last_full es = Some (e, later) ->
  exists before, es = before ++ e :: later /\ is_full e = true /\ Forall (fun e => is_full e = false) later.
Proof.
  revert e later. induction es as [|x es IH]; intros e later; simpl; [done|].
  destruct (from_last_full es) as [[e' l']|] eqn:Hes.
  - intros [= -> ->]. destruct (IH _ _ eq_refl) as (b & -> & Hf & Hl). by exists (x :: b).
  - destruct (is_full x) eqn:Hx; [|done]. intros [= -> ->]. exists []. split; [done|]. split; [done|].
    clear IH Hx. induction later as [|y l IH]; [done|]. simpl in Hes. destruct (from_last_full l) as [?|]; [done|].
    constructor; [by destruct (is_full y)|]. by apply IH.
Qed.
Lemma last_full_split before f later m : entries m = before ++ f :: later ->
  is_full f = true -> Forall (fun e => is_full e = false) later -> last_full m = Some f.
Proof.
  intros Hes Hf Hl. unfold last_full. rewrite Hes, List.rev_app_distr. simpl. rewrite <- !app_assoc.
  apply List.Forall_rev in Hl. induction Hl as [|e l He _ IH]; simpl; [by rewrite Hf|by rewrite He].
Qed.
Lemma linked_after prev before e later : linked prev (before ++ e :: later) -> linked (Some (en_lsn e)) later.
Proof. revert prev. induction before as [|x b IH]; intros prev; simpl; [by intros [_ ?]|]. intros [_ Hl]. by eapply IH. Qed.

Lemma replay_ends from stop current es w n w' :
  linked (Some current) es -> Forall (fun e => is_full e = false) es -> current <= stop ->
  replay from stop current es w = (Ok n, w') -> n = Z.min stop (default current (en_lsn <$> last es)) /\ current <= n.
Proof.
  revert current w. induction es as [|e es IH]; intros current w; simpl.
  { intros _ _ Hs [= <- _]. simpl. lia. }
  intros [He Hes] Hinc Hs. inversion Hinc as [|? ? Hnf Hrest]; subst. rewrite Hnf. unfold is_full in Hnf.
  destruct (en_kind e); [done|]. destruct He as [[= He] Hstep].
  assert (Hgrow : forall c es, linked (Some c) es -> Forall (fun e => is_full e = false) es -> c <= default c (en_lsn <$> last es)).
  { clear. intros c es. revert c. induction es as [|e es IH]; intros c Hl Hf; simpl; [lia|].
    destruct Hl as [He Hes]. inversion Hf as [|? ? Hnf Hrest]; subst. unfold is_full in Hnf. destruct (en_kind e); [done|].
    destruct He as [[= ->] Hstep]. specialize (IH _ Hes Hrest). rewrite last_cons. destruct (last es); simpl in *; lia. }
  pose proof (Hgrow _ _ Hes Hrest) as Hg. rewrite last_cons.
  destruct (Z.ltb_spec stop (en_lsn e)) as [Hlt|Hge].
  - intros [= <- _]. destruct (last es); simpl in *; lia.
  - rewrite bind_run. destruct (read_disk _ _ w) as [[bytes|err] w1]; [|done].
    destruct (increment_from_slice bytes) as [inc|]; [|done].
    rewrite bind_run. destruct (apply_wal_frames inc w1) as [[[]|err] w2]; [|done].
    intros Hr. destruct (IH _ _ Hes Hrest Hge Hr) as [-> Hle]. destruct (last es); simpl in *; lia.
Qed.

(** A restore that answers stops at the number it was asked for, or at the last one
    of the manifest when that is less, and is never before the last snapshot. *)
Theorem restore_point_in_time (from : string) (at_lsn : option Z) (m : Manifest) (w w' : Machine) (n : Z) :
  listed from w = Some m -> chain_ok m ->
  restore_dir from at_lsn w = (Ok n, w') ->
  n = Z.min (default u64_max at_lsn) (manifest_last_lsn m) /\
  exists f, last_full m = Some f /\ en_lsn f <= n.
Proof.
  intros Hl Hc. unfold restore_dir. rewrite bind_run.
  destruct (make_dir _ w) as [[[]|e] w1] eqn:Hm; [|done].
  assert (Hl1 : listed from w1 = Some m).
  { unfold make_dir, disk in Hm. destruct (disk_error (calls w)); [done|]. by injection Hm as <-. }
  pose proof (read_or_default_listed from w1) as Hr. rewrite bind_run. unfold for_cli at 1, map_err at 1.
  destruct (read_or_default _ w1) as [[m'|e] w2]; [|done]. destruct Hr as (_ & _ & Hr).
  assert (m' = m) as -> by congruence. clear Hl1 Hr.
  destruct (entries m) as [|x es] eqn:Hes; [done|]. rewrite <- Hes.
  destruct (from_last_full (entries m)) as [[f later]|] eqn:Hfl; [|done].
  rewrite bind_run. destruct (copy_database _ _ w2) as [[[]|e] w3]; [|done].
  destruct (Z.ltb_spec (default u64_max at_lsn) (en_lsn f)) as [|Hstop]; [done|].
  rewrite bind_run. destruct (open_storage w3) as [[[]|e] w4]; [|done].
  rewrite bind_run. destruct (replay _ _ _ _ w4) as [[n'|e] w5] eqn:Hrep; [|done].
  rewrite bind_run. simpl. intros [= -> _].
  destruct (from_last_full_split _ _ _ Hfl) as (before & Hsplit & Hff & Hlater).
  unfold chain_ok in Hc. rewrite Hsplit in Hc. apply linked_after in Hc.
  destruct (replay_ends _ _ _ _ _ _ _ Hc Hlater Hstop Hrep) as [-> Hle]. split.
  - f_equal. unfold manifest_last_lsn. rewrite Hsplit, last_app_cons, last_cons. by destruct (last later).
  - exists f. split; [|done]. by apply (last_full_split before f later).
Qed.
End backup.

(** ** A small database *)

Fixpoint bits (p : positive) : string :=
  match p with xH => "" | xO p => String "0" (bits p) | xI p => String "1" (bits p) end.
Fixpoint unbits (s : string) : option positive :=
  match s with
  | "" => Some xH
  | String "0" s => xO <$> unbits s
  | String "1" s => xI <$> unbits s
  | _ => None
  end.
Lemma unbits_bits p : unbits (bits p) = Some p.
Proof. induction p as [p IH|p IH|]; simpl; [by rewrite IH..|done]. Qed.
Definition text_of `{Countable A} (a : A) : string := bits (encode a).
Definition of_text_of `{Countable A} (s : string) : result string A :=
  match unbits s ≫= decode with Some a => Ok a | None => Err "not a document" end.
Lemma of_text_of_text `{Countable A} (a : A) : of_text_of (text_of a) = Ok a.
Proof. unfold of_text_of, text_of. rewrite unbits_bits. simpl. by rewrite decode_encode. Qed.

#[global] Instance EntryKind_eq_dec : EqDecision EntryKind. Proof. solve_decision. Defined.
#[global] Instance WalIncrement_eq_dec : EqDecision WalIncrement. Proof. solve_decision. Defined.
#[global] Instance ManifestEntry_eq_dec : EqDecision ManifestEntry. Proof. solve_decision. Defined.
#[global] Instance Manifest_eq_dec : EqDecision Manifest. Proof. solve_decision. Defined.
#[global] Instance EntryKind_countable : Countable EntryKind.
Proof.
  refine (inj_countable' (fun k => match k with Full => true | Incremental => false end)
            (fun b : bool => if b then Full else Incremental) _). by intros [].
Defined.
#[global] Instance WalIncrement_countable : Countable WalIncrement.
Proof.
  refine (inj_countable' (fun i => (inc_lsn i, inc_previous_lsn i, inc_bytes i))
            (fun '(l, p, b) => mkIncrement l p b) _). by intros [].
Defined.
#[global] Instance ManifestEntry_countable : Countable ManifestEntry.
Proof.
  refine (inj_countable' (fun e => (en_kind e, en_file e, en_lsn e, en_previous_lsn e, en_sha256 e, en_size_bytes e, en_taken_at e))
            (fun '(k, f, l, p, h, s, t) => mkEntry k f l p h s t) _). by intros [].
Defined.
#[global] Instance Manifest_countable : Countable Manifest.
Proof.
  refine (inj_countable' (fun m => (mf_version m, entries m)) (fun '(v, es) => mkManifest v es) _). by intros [].
Defined.
#[local] Instance demo_text : BackupText := {|
  manifest_to_vec m := Ok (text_of m); manifest_from_slice := of_text_of;
  increment_to_vec i := Ok (text_of i); increment_from_slice := of_text_of |}.
#[local] Instance demo_text_laws : BackupTextLaws.
Proof. split; intros ? ? [= <-]; apply of_text_of_text. Qed.

(** A database that is what was written to it, with its counter; the log is what was
    written since the last checkpoint. *)
Record Lines := mkLines { counter : option Z; settled : string; log : string }.
#[local] Instance demo_sqlite : SqliteDb := {|
  Db := Lines; file_backed _ := true; wal_path _ := "db-wal";
  read_main d := Ok (text_of (counter d, settled d)); wal_bytes := log;
  open_db d := (Ok tt, d); close_db d := d;
  copy_over b d := match of_text_of b with Ok (c, s) => (Ok tt, mkLines c s (log d)) | Err e => (Err e, d) end;
  checkpoint_passive d := (Ok tt, d);
  checkpoint_truncate d := (Ok tt, mkLines (counter d) (settled d +:+ log d) "");
  ensure_table d := (Ok tt, mkLines (Some (default 0 (counter d))) (settled d) (log d));
  lsn_row := counter;
  set_lsn n _ d := (Ok tt, mkLines ((fun _ => n) <$> counter d) (settled d) (log d));
  put_wal b d := (Ok tt, mkLines (counter d) (settled d) b);
  remove_wal d := mkLines (counter d) (settled d) "" |}.
#[local] Instance demo_sqlite_laws : SqliteDbLaws.
Proof. by split. Qed.
#[local] Instance demo_env : Env := Build_Env (fun _ => "") (fun _ => "t").
#[local] Instance demo_sha : Sha256 := fun _ => "h".
(** The call of the file system at one position fails. *)
Definition failing (n : option nat) : DiskFaults :=
  {| disk_error k := if bool_decide (Some k = n) then Some "no space" else None; disk_torn _ _ := None |}.

Definition add_line (line : string) (w : Machine) : Machine :=
  set_db (mkLines (counter (db w)) (settled (db w)) (log (db w) +:+ line)) w.
Definition empty_machine : Machine := mkMachine (mkLines None "" "") ∅ 0 0.
Definition back_up (fault : option nat) (w : Machine) : Machine := ((let _ := failing fault in backup_incremental "b") w).2.
(** A line, a snapshot, a line, an increment, a line, an increment. *)
Definition two_increments : Machine :=
  back_up None (add_line "c" (back_up None (add_line "b" (back_up None (add_line "a" empty_machine))))).
(** The second increment could not be written. *)
Definition lost_increment : Machine :=
  back_up (Some 11%nat) (add_line "c" (back_up None (add_line "b" (back_up None (add_line "a" empty_machine))))).
Definition restore_into (w : Machine) (at_lsn : option Z) : result ActantError Z * string :=
  let '(r, w') := (let _ := failing None in restore_dir "b" at_lsn) (mkMachine (mkLines None "old" "") (files w) 0 0) in
  (r, settled (db w')).

Example restored_to_each_point :
  restore_into two_increments None = (Ok 2, "abc") /\
  restore_into two_increments (Some 1) = (Ok 1, "ab") /\
  restore_into two_increments (Some 0) = (Ok 0, "a").
Proof. vm_compute. done. Qed.
(** A number before the snapshot is refused after the database was overwritten. *)
Example early_restore_overwrites :
  restore_into (back_up None (add_line "a" (set_db (mkLines (Some 5) "" "") empty_machine))) (Some 4) =
    (Err (InvalidInput "requested at_lsn=4 is before the latest full snapshot lsn=5"), "a").
Proof. vm_compute. done. Qed.
(** The snapshot is put under a log that is there: its lines are in the restored database. *)
Example stale_log_survives :
  let '(r, w') := (let _ := failing None in restore_dir "b" None)
                    (mkMachine (mkLines (Some 0) "old" "z") (files (back_up None (add_line "a" empty_machine))) 0 0) in
  r = Ok 0 /\ log (db w') = "z".
Proof. vm_compute. done. Qed.
(** The snapshot is not compared with the checksum and the size that the manifest has. *)
Example changed_snapshot_restored :
  let changed := text_of (Some 0, "forged") in
  let fs := <["b/full-00000000000000000000.sqlite" := changed]> (files (back_up None (add_line "a" empty_machine))) in
  restore_into (mkMachine (mkLines None "" "") fs 0 0) None = (Ok 0, "forged").
Proof. vm_compute. done. Qed.

#[local] Instance no_faults : DiskFaults := failing None.
Definition manifest_of (w : Machine) : Manifest := default new_manifest (listed "b" w).

Lemma backup_incremental_chain_witness :
  match backup_incremental "b" (add_line "d" two_increments) with
  | (Err _, w') => listed "b" w' = Some (manifest_of two_increments)
  | (Ok _, w') => exists e, listed "b" w' = Some (mkManifest 1 (entries (manifest_of two_increments) ++ [e])) /\
                    chain_ok (mkManifest 1 (entries (manifest_of two_increments) ++ [e]))
  end.
Proof.
  apply (backup_incremental_chain "b" (manifest_of two_increments) (add_line "d" two_increments)).
  - vm_compute. reflexivity.
  - vm_compute. tauto.
Defined.
(** The increment that could not be written is lost, and with it every later one. *)
Lemma out_of_step_forever_witness :
  let w' := Nat.iter 3 (fun w => (backup_incremental "b" w).2) lost_increment in
  listed "b" w' = Some (manifest_of lost_increment) /\ exists e, (backup_incremental "b" w').1 = Err e.
Proof.
  apply (out_of_step_forever "b" (manifest_of lost_increment) lost_increment 3); vm_compute; [reflexivity|discriminate|discriminate].
Defined.
Lemma restore_point_in_time_witness :
  1 = Z.min 1 (manifest_last_lsn (manifest_of two_increments)) /\
  exists f, last_full (manifest_of two_increments) = Some f /\ en_lsn f <= 1.
Proof.
  apply (restore_point_in_time "b" (Some 1) (manifest_of two_increments) two_increments
           (restore_dir "b" (Some 1) two_increments).2 1).
  - vm_compute. reflexivity.
  - vm_compute. tauto.
  - transitivity ((restore_dir "b" (Some 1) two_increments).1, (restore_dir "b" (Some 1) two_increments).2).
    { apply surjective_pairing. }
    apply (f_equal (fun r => (r, _))). vm_compute. reflexivity.
Defined.
