(* ===== verification/Cli.v ===== *)
(** * The command line and the start of the server ([actant-cli/src], [actant-server/src/bin/server.rs])

    When the server may start and what it trusts; the read-only guard of
    [actantdb sql]; the live views [tail] and [watch]; [shell], [explain],
    [status] and [doctor]; the consent to telemetry; and the commands of main.rs that
    read the ledger.  What a command prints is a list of lines. *)

From S2P Require Import Backend OAuth Workers Policy ReadRoutes PredicateParse Predicate Throttle Auth Server AuthRoutes HttpAuth Command Json Core Storage Prog Prelude Str.
#[local] Open Scope string_scope.
#[local] Open Scope list_scope.
#[local] Open Scope Z_scope.

(** [cli_errors::storage]. *)
Definition storage_error {A} (action : string) (r : result string A) : result ActantError A :=
  match r with Ok a => Ok a | Err e => Err (Core.Storage (action +:+ ": " +:+ e)) end.

(** ** Addresses, as the standard library parses them *)

Definition to_digit (radix : Z) (c : Ascii.ascii) : option Z :=
  let v := if is_digit c then byte c - 48 else if is_lower c then byte c - 87 else if is_upper c then byte c - 55 else 99 in
  if v <? radix then Some v else None.
Fixpoint read_digits (radix : Z) (max : nat) (acc : Z) (s : string) {struct s} : option (Z * string) :=
  match s with
  | EmptyString => Some (acc, s)
  | String c s' =>
      match to_digit radix c, max with
      | None, _ => Some (acc, s)
      | Some _, O => None
      | Some d, S max' => read_digits radix max' (acc * radix + d) s'
      end
  end.
Definition read_number (radix : Z) (max : nat) (allow_zero_prefix : bool) (limit : Z) (s : string) : option (Z * string) :=
  '(n, rest) ← read_digits radix max 0 s;
  let count := (String.length s - String.length rest)%nat in
  if (count =? 0)%nat then None
  else if negb allow_zero_prefix && starts_with "0" s && (1 <? count)%nat then None
  else if n <=? limit then Some (n, rest) else None.
Definition read_separator {A} (sep : string) (index : nat) (inner : string -> option (A * string)) (s : string) :
    option (A * string) :=
  match index with O => inner s | S _ => s' ← strip_prefix sep s; inner s' end.
Definition read_octet : string -> option (Z * string) := read_number 10 3 false 255.
Definition read_ipv4 (s : string) : option (list Z * string) :=
  '(a, s) ← read_separator "." 0 read_octet s;
  '(b, s) ← read_separator "." 1 read_octet s;
  '(c, s) ← read_separator "." 2 read_octet s;
  '(d, s) ← read_separator "." 3 read_octet s;
  Some ([a; b; c; d], s).
(** The groups from [index] on, whether they end in an embedded IPv4 address, and the rest. *)
Fixpoint read_groups (index slots : nat) (s : string) : list Z * bool * string :=
  match slots with
  | O => ([], false, s)
  | S k =>
      match (if (1 <=? k)%nat then read_separator ":" index read_ipv4 s else None) with
      | Some ([a; b; c; d], s') => ([a * 256 + b; c * 256 + d], true, s')
      | _ =>
          match read_separator ":" index (read_number 16 4 true 65535) s with
          | Some (g, s') => let '(gs, v4, r) := read_groups (S index) k s' in (g :: gs, v4, r)
          | None => ([], false, s)
          end
      end
  end.
Definition read_ipv6 (s : string) : option (list Z * string) :=
  let '(front, v4, s) := read_groups 0 8 s in
  if (length front =? 8)%nat then Some (front, s)
  else if v4 then None
  else s ← strip_prefix ":" s;
       s ← strip_prefix ":" s;
       let '(back, _, s) := read_groups 0 (7 - length front) s in
       Some (front ++ repeat 0 (8 - length front - length back) ++ back, s).

Inductive IpAddr := V4 (octets : list Z) | V6 (groups : list Z).
(** [IpAddr::from_str]. *)
Definition parse_ip (s : string) : option IpAddr :=
  match read_ipv4 s with
  | Some (o, rest) => if String.eqb rest "" then Some (V4 o) else None
  | None => '(g, rest) ← read_ipv6 s; if String.eqb rest "" then Some (V6 g) else None
  end.
Definition is_loopback (a : IpAddr) : bool :=
  match a with
  | V4 o => match o with x :: _ => x =? 127 | [] => false end
  | V6 g => bool_decide (g = [0; 0; 0; 0; 0; 0; 0; 1])
  end.

(** [str::rsplit_once]. *)
Fixpoint rsplit_once (c : Ascii.ascii) (s : string) : option (string * string) :=
  match s with
  | EmptyString => None
  | String a s' =>
      match rsplit_once c s' with
      | Some (h, t) => Some (String a h, t)
      | None => if Ascii.eqb a c then Some ("", s') else None
      end
  end.
Definition is_bind_loopback (bind : string) : bool :=
  let host := match rsplit_once ":" bind with Some (h, _) => h | None => bind end in
  let host := trim_end_matches "]" (trim_start_matches "[" host) in
  if String.eqb (to_ascii_lowercase host) "localhost" then true
  else match parse_ip host with Some ip => is_loopback ip | None => false end.

(** ** The start of the server *)

Record Args := mkArgs {
  a_bind : string; a_db : option string; a_tls_cert : option string; a_tls_key : option string;
  insecure_public : bool; a_trust_proxy : bool
}.
(** What is booted: [bootstrap_postgres_with_mode] or [bootstrap_with_mode] with their arguments. *)
Inductive Boot :=
| BootPostgres (url : string) (local trust : bool)
| BootSqlite (db : option string) (local tls trust : bool).
Definition tls_on (a : Args) : bool := bool_decide (is_Some (a_tls_cert a)) && bool_decide (is_Some (a_tls_key a)).
Definition refusal (a : Args) : string :=
  "actantdb-server: refusing to bind non-loopback (" +:+ a_bind a +:+ ") without TLS." +:+ String "010"
  ("Pass --tls-cert + --tls-key, or pass --insecure-public (NOT recommended — see UI_AUTH_DESIGN.md §6 / 'Defenses').").
Definition start (a : Args) (database_url : option string) : result string Boot :=
  let local := is_bind_loopback (a_bind a) in
  if negb local && negb (tls_on a) && negb (insecure_public a) then Err (refusal a)
  else match database_url with
       | Some url => if String.eqb url "" then Ok (BootSqlite (a_db a) local (tls_on a) (a_trust_proxy a))
                     else Ok (BootPostgres url local (a_trust_proxy a))
       | None => Ok (BootSqlite (a_db a) local (tls_on a) (a_trust_proxy a))
       end.

(** [str::find] of a pattern: what is before its first occurrence, and from it on. *)
Fixpoint find_at (p s : string) : option (string * string) :=
  if starts_with p s then Some ("", s)
  else match s with
       | EmptyString => None
       | String a s' => '(h, t) ← find_at p s'; Some (String a h, t)
       end.
Definition redact_db_url (url : string) : string :=
  match find_at "://" url with
  | Some (scheme, tail) =>
      let after_scheme := String.substring 3 (String.length tail - 3) tail in
      match find_at "@" after_scheme with
      | Some (userinfo, rest) =>
          match find_at ":" userinfo with
          | Some (user, _) => scheme +:+ "://" +:+ user +:+ ":***" +:+ rest
          | None => url
          end
      | None => url
      end
  | None => url
  end.
(** What the binary prints once it has booted. *)
Definition boot_lines (a : Args) (b : Boot) (link_code : option string) : list string :=
  match b with
  | BootPostgres url _ _ =>
      ["(postgres mode: " +:+ redact_db_url url +:+ "; Studio/admin routes return 501 until their SQL is backend-neutral)"]
  | BootSqlite _ local tls _ =>
      match link_code with
      | Some code =>
          let proto := if tls then "https" else "http" in
          [""; "A one-time linking code is required to claim this workspace:"; ""; "    Code:    " +:+ code;
           "    Expires: in 15 minutes"; ""; "Open: " +:+ proto +:+ "://" +:+ a_bind a +:+ "/link";
           "Or:   " +:+ proto +:+ "://" +:+ a_bind a +:+ "/link/" +:+ code; "";
           "(this code rotates on each restart until ownership is claimed)"; ""]
      | None => if local then ["(local mode: no password required)"] else []
      end
  end.
(** [actantdb serve] boots with [bootstrap], whatever its bind address. *)
Definition bootstrap (db : option string) : Boot := BootSqlite db true false false.
Definition serve_boot (db_path bind : string) (tls_cert tls_key : option string) : Boot := bootstrap (Some db_path).
(** The configuration of the state that a boot makes. *)
Definition boot_config (b : Boot) : Config :=
  match b with
  | BootPostgres _ local trust => with_trust_proxy trust (with_local_mode local new_state)
  | BootSqlite _ local tls trust => with_trust_proxy trust (with_tls_enabled tls (with_local_mode local new_state))
  end.

(** ** The guard of [actantdb sql] *)

Definition is_quote (c : Ascii.ascii) : bool := Ascii.eqb c "'" || Ascii.eqb c "034".
(** [strip_string_literals]; [quote] is the quote of the literal that is being read.
    The character after a closing quote is looked at and, when it is the same, skipped. *)
Fixpoint strip_literals (quote : option Ascii.ascii) (s : string) : string :=
  match s with
  | EmptyString => ""
  | String c s' =>
      match quote with
      | Some q =>
          if Ascii.eqb c q
          then match s' with
               | String c' s'' => if Ascii.eqb c' q then strip_literals (Some q) s'' else strip_literals None s'
               | EmptyString => strip_literals None s'
               end
          else strip_literals (Some q) s'
      | None => if is_quote c then strip_literals (Some c) s' else String c (strip_literals None s')
      end
  end.
Definition strip_string_literals (s : string) : string := strip_literals None s.
Definition statement_body (stmt : string) : string := trim (trim_end_matches ";" (trim stmt)).
Definition first_word (body : string) : string := to_ascii_uppercase (default "" (head (split_whitespace body))).
Definition ensure_read_only (stmt : string) : result ActantError unit :=
  let body := statement_body stmt in
  let word := first_word body in
  if negb (String.eqb word "SELECT") && negb (String.eqb word "WITH")
  then Err (InvalidInput ("only SELECT / WITH statements are allowed in `actantdb sql`; got `" +:+ word +:+ "`"))
  else if contains_char ";" (strip_string_literals body)
  then Err (InvalidInput "multiple statements are not allowed")
  else Ok tt.

(** A value of SQLite.  [try_get::<Option<T>>] answers on NULL and on the class of T. *)
Inductive Cell := CNull | CText (t : string) | CInt (n : Z) | CReal (t : string) | CBlob (len : Z).
Definition stringify_cell (c : Cell) : string :=
  match c with
  | CNull => ""
  | CText t => t
  | CInt n => show_Z n
  | CReal t => t
  | CBlob len => "<" +:+ show_Z len +:+ " bytes>"
  end.
(** The table that [actantdb sql] prints, and its last line. *)
Record Sheet := mkSheet { sh_header : list string; sh_rows : list (list string) }.
Definition sql_answer (rows : list (list (string * Cell))) : option Sheet * string :=
  match rows with
  | [] => (None, "(no rows)")
  | first :: _ =>
      (Some (mkSheet (List.map fst first) (List.map (List.map (fun c => stringify_cell c.2)) rows)),
       "(" +:+ show_Z (Z.of_nat (length rows)) +:+ " row" +:+ (if (length rows =? 1)%nat then "" else "s") +:+ ")")
  end.
(** [fetch_all] over a connection that was opened read-only; [options] is the reading of the URL. *)
Definition sql_run (options connect : result string unit)
    (fetch_all : string -> result string (list (list (string * Cell)))) (stmt : string) :
    result ActantError (option Sheet * string) :=
  ensure_read_only stmt;;
  storage_error "open read-only sqlite" options;;
  storage_error "connect read-only sqlite" connect;;
  rows ← storage_error "run read-only query" (fetch_all stmt);
  Ok (sql_answer rows).

(** *** What the start guarantees *)

Lemma start_modes (a : Args) (database_url : option string) :
  match start a database_url with
  | Ok b =>
      (is_bind_loopback (a_bind a) = true \/ (is_Some (a_tls_cert a) /\ is_Some (a_tls_key a)) \/ insecure_public a = true) /\
      local_mode (boot_config b) = is_bind_loopback (a_bind a) /\ trust_proxy (boot_config b) = a_trust_proxy a
  | Err _ =>
      is_bind_loopback (a_bind a) = false /\ ~ (is_Some (a_tls_cert a) /\ is_Some (a_tls_key a)) /\ insecure_public a = false
  end.
Proof.
  assert (Htls : tls_on a = true <-> is_Some (a_tls_cert a) /\ is_Some (a_tls_key a)).
  { unfold tls_on. by rewrite andb_true_iff, !bool_decide_eq_true. }
  unfold start. destruct (is_bind_loopback (a_bind a)); destruct (tls_on a); destruct (insecure_public a); simpl;
    try (split; [done|]; split; [|done]; by intros ?%Htls);
    (destruct database_url as [url|]; [destruct (String.eqb url "")|]; (split; [tauto|done])).
Qed.

Lemma find_at_app p s t : (0 < String.length p)%nat ->
  (forall a b, s = a +:+ b -> starts_with p (b +:+ p +:+ t) = true -> b = "") ->
  find_at p (s +:+ p +:+ t) = Some (s, p +:+ t).
Proof.
  intros Hp. induction s as [|x s IH]; intros Hs.
  - assert (Hst : starts_with p (p +:+ t) = true) by (unfold starts_with; by rewrite strip_prefix_app).
    simpl. destruct (p +:+ t) as [|y r] eqn:Hpt; [by destruct p|]. simpl. by rewrite Hst.
  - rewrite append_cons. cbn [find_at]. destruct (starts_with p (String x (s +:+ p +:+ t))) eqn:Hst.
    + pose proof (Hs "" (String x s) eq_refl Hst). done.
    + rewrite IH; [done|]. intros a b -> Hb. by apply (Hs (String x a) b).
Qed.
Lemma starts_with_free c p b s : contains_char c b = false -> starts_with (String c p) (b +:+ s) = true -> b = "".
Proof.
  intros Hc Hb. destruct b as [|y b]; [done|]. rewrite append_cons in Hb. unfold starts_with in Hb. cbn [strip_prefix contains_char] in *.
  rewrite (Ascii.eqb_sym c y) in Hb. by destruct (Ascii.eqb y c).
Qed.
Lemma find_at_char c s t : contains_char c s = false ->
  find_at (String c "") (s +:+ String c t) = Some (s, String c t).
Proof.
  intros Hc. apply (find_at_app (String c "") s t); [simpl; lia|]. intros a b -> Hb.
  rewrite contains_char_app, orb_false_iff in Hc. destruct Hc as [_ Hc]. by eapply starts_with_free.
Qed.
Lemma substring_app p s : String.substring (String.length p) (String.length (p +:+ s) - String.length p) (p +:+ s) = s.
Proof.
  induction p as [|x p IH]; [|done]. rewrite append_nil. simpl. rewrite Nat.sub_0_r.
  induction s as [|y s IH]; simpl; [done|]. by rewrite IH.
Qed.

(** The password of a database URL is not printed: the line depends on nothing between
    the user and the host, for a user without [:] and a password without [@]. *)
Theorem redact_hides_password (scheme user password rest : string) :
  contains_char ":" scheme = false -> contains_char ":" user = false ->
  contains_char "@" user = false -> contains_char "@" password = false ->
  redact_db_url (scheme +:+ "://" +:+ user +:+ ":" +:+ password +:+ "@" +:+ rest)
  = scheme +:+ "://" +:+ user +:+ ":***@" +:+ rest.
Proof.
  intros Hs Hu Hua Hp. unfold redact_db_url. rewrite find_at_app; [|simpl; lia|].
  2: { intros a b -> Hb. rewrite contains_char_app, orb_false_iff in Hs. destruct Hs as [_ Hs].
       by eapply starts_with_free. }
  pose proof (substring_app "://" (user +:+ ":" +:+ password +:+ "@" +:+ rest)) as Hsub. cbn [String.length] in Hsub. rewrite Hsub.
  replace (user +:+ ":" +:+ password +:+ "@" +:+ rest) with ((user +:+ ":" +:+ password) +:+ String "@" rest)
    by (by rewrite !append_assoc).
  rewrite find_at_char.
  2: { rewrite !contains_char_app, Hua, Hp. done. }
  change (":" +:+ password) with (String ":" password).
  rewrite find_at_char by done. done.
Qed.
Lemma redact_hides_password_witness : redact_db_url "postgres://ann:secret@db/x" = "postgres://ann:***@db/x".
Proof. by apply (redact_hides_password "postgres" "ann" "secret" "db/x"). Defined.
(** A password with an [@] is printed from there on. *)
Example password_tail_printed : redact_db_url "postgres://ann:p@ss@db/x" = "postgres://ann:***@ss@db/x".
Proof. reflexivity. Qed.

Fixpoint digits_value (radix acc : Z) (s : string) : option Z :=
  match s with
  | EmptyString => Some acc
  | String c s' => d ← to_digit radix c; digits_value radix (acc * radix + d) s'
  end.
Definition stops (radix : Z) (s : string) : Prop := match s with String c _ => to_digit radix c = None | EmptyString => True end.
Lemma read_digits_value radix max acc s v rest :
  digits_value radix acc s = Some v -> (String.length s <= max)%nat -> stops radix rest ->
  read_digits radix max acc (s +:+ rest) = Some (v, rest).
Proof.
  revert max acc. induction s as [|c s IH]; intros max acc Hv Hl Hr.
  - injection Hv as <-. rewrite append_nil. destruct rest as [|c rest]; [by destruct max|]. simpl in Hr. destruct max; simpl; by rewrite Hr.
  - rewrite append_cons. simpl in *. destruct (to_digit radix c) as [d|]; [|done]. destruct max as [|max]; [lia|].
    apply IH; [done|lia|done].
Qed.

(** A printed byte, as the parser of octets sees it. *)
Definition octet_text_ok (n : Z) : bool :=
  let s := show_Z n in
  bool_decide (digits_value 10 0 s = Some n) && (1 <=? String.length s)%nat && (String.length s <=? 3)%nat
  && negb (starts_with "0" s && (1 <? String.length s)%nat).
Lemma octets_ok : forallb octet_text_ok (List.map Z.of_nat (List.seq 0 256)) = true.
Proof. by vm_compute. Qed.
Lemma starts_with_app_l p s rest : (String.length p <= String.length s)%nat -> starts_with p (s +:+ rest) = starts_with p s.
Proof.
  unfold starts_with. revert s. induction p as [|a p IH]; intros s Hl; [done|]. destruct s as [|b s]; [simpl in Hl; lia|].
  rewrite append_cons. simpl in *. destruct (Ascii.eqb a b); [|done]. apply IH. lia.
Qed.
Lemma read_octet_shown n rest : 0 <= n < 256 -> stops 10 rest -> read_octet (show_Z n +:+ rest) = Some (n, rest).
Proof.
  intros Hn Hr. pose proof octets_ok as Ho. rewrite forallb_forall in Ho.
  specialize (Ho n). rewrite in_map_iff in Ho. unfold octet_text_ok in Ho.
  rewrite !andb_true_iff, bool_decide_eq_true, !Nat.leb_le, negb_true_iff in Ho.
  destruct Ho as [[[Hv H1] H3] H0].
  { exists (Z.to_nat n). split; [lia|]. apply in_seq. lia. }
  unfold read_octet, read_number. rewrite (read_digits_value _ _ _ _ n rest Hv H3 Hr). simpl.
  rewrite length_append. replace (_ + _ - _)%nat with (String.length (show_Z n)) by lia.
  destruct (Nat.eqb_spec (String.length (show_Z n)) 0); [lia|].
  rewrite starts_with_app_l by (simpl; lia). rewrite H0. destruct (Z.leb_spec n 255); [done|lia].
Qed.

Definition show_ipv4 (a b c d : Z) : string := show_Z a +:+ "." +:+ show_Z b +:+ "." +:+ show_Z c +:+ "." +:+ show_Z d.
Definition octet (n : Z) : Prop := 0 <= n < 256.
Lemma parse_shown a b c d : octet a -> octet b -> octet c -> octet d -> parse_ip (show_ipv4 a b c d) = Some (V4 [a; b; c; d]).
Proof.
  intros Ha Hb Hc Hd. unfold parse_ip, read_ipv4, show_ipv4.
  assert (Hsep : forall i n rest, octet n -> stops 10 rest ->
    read_separator "." (S i) read_octet ("." +:+ show_Z n +:+ rest) = Some (n, rest)).
  { intros i n rest Hn Hr. unfold read_separator. rewrite strip_prefix_app. by apply read_octet_shown. }
  assert (Hfirst : forall rest, stops 10 rest -> read_separator "." 0 read_octet (show_Z a +:+ rest) = Some (a, rest))
    by (intros rest Hr; by apply read_octet_shown).
  rewrite Hfirst by done. cbv beta iota delta [mbind option_bind].
  rewrite Hsep by done. cbv beta iota. rewrite Hsep by done. cbv beta iota.
  specialize (Hsep 2%nat d "" Hd I). rewrite append_empty_r in Hsep. by rewrite Hsep.
Qed.

Lemma rsplit_once_last c h t : contains_char c t = false -> rsplit_once c (h +:+ String c t) = Some (h, t).
Proof.
  intros Ht. assert (Hn : rsplit_once c t = None).
  { clear h. induction t as [|x t IH]; [done|]. simpl in Ht. apply orb_false_iff in Ht as [Hx Ht]. simpl. by rewrite (IH Ht), Hx. }
  induction h as [|x h IH]; [rewrite append_nil|rewrite append_cons]; simpl.
  - by rewrite Hn, Ascii.eqb_refl.
  - by rewrite IH.
Qed.
Lemma no_brackets s : contains_char "[" s = false -> contains_char "]" s = false ->
  trim_end_matches "]" (trim_start_matches "[" s) = s.
Proof.
  intros Ho Hc. replace (trim_start_matches "[" s) with s.
  - induction s as [|c s IH]; [done|]. cbn [trim_end_matches contains_char] in *. rewrite orb_false_iff in Hc.
    destruct Hc as [Hc Hs]. apply orb_false_iff in Ho as [_ Ho]. rewrite (IH Ho Hs). destruct s; [by rewrite Hc|done].
  - destruct s as [|c s]; [done|]. simpl in *. apply orb_false_iff in Ho as [Ho _]. by rewrite Ho.
Qed.

(** An IPv4 address with a port counts as loopback exactly when it is in 127.0.0.0/8. *)
Theorem bind_v4_loopback (a b c d port : Z) :
  octet a -> octet b -> octet c -> octet d -> 0 <= port ->
  is_bind_loopback (show_ipv4 a b c d +:+ ":" +:+ show_Z port) = (a =? 127).
Proof.
  intros Ha Hb Hc Hd Hp. unfold is_bind_loopback.
  change (":" +:+ show_Z port) with (String ":" (show_Z port)).
  rewrite (rsplit_once_last ":" (show_ipv4 a b c d) (show_Z port)) by by apply show_Z_char.
  assert (Hno : forall x, is_digit x = false -> Ascii.eqb "." x = false -> contains_char x (show_ipv4 a b c d) = false).
  { intros x Hx Hdot. unfold octet in *. unfold show_ipv4. rewrite !contains_char_app. replace (contains_char x ".") with false
      by (cbn [contains_char]; by rewrite Hdot).
    rewrite !show_Z_char by (done || lia). done. }
  rewrite no_brackets by by apply Hno. rewrite parse_shown by done.
  replace (String.eqb (to_ascii_lowercase (show_ipv4 a b c d)) "localhost") with false; [done|].
  symmetry. apply String.eqb_neq. unfold show_ipv4, to_ascii_lowercase. rewrite map_chars_app.
  destruct (show_digits_head (S (Z.to_nat (Z.log2 a))) a "") as (x & s & Hs & Hx); [right; lia|].
  unfold show_Z at 1. unfold octet in *. destruct (Z.ltb_spec a 0); [lia|]. rewrite Hs. cbn [map_chars]. rewrite append_cons.
  intros [= Hl _]. unfold ascii_lower in Hl. destruct (is_upper x) eqn:Hu.
  - unfold is_upper, is_digit in *. lia.
  - by subst x.
Qed.
Lemma bind_v4_loopback_witness :
  is_bind_loopback "127.3.0.255:4555" = true /\ is_bind_loopback "10.0.0.1:80" = false.
Proof. split; [apply (bind_v4_loopback 127 3 0 255 4555)|apply (bind_v4_loopback 10 0 0 1 80)]; unfold octet; lia. Defined.
Example other_binds :
  is_bind_loopback "[::1]:4555" = true /\ is_bind_loopback "LocalHost:1" = true /\ is_bind_loopback "0.0.0.0:4555" = false /\
  is_bind_loopback "[::ffff:127.0.0.1]:4555" = false /\ is_bind_loopback "127.0.0.01:1" = false /\
  parse_ip "1:2:3:4:5:6:1.2.3.4" = Some (V6 [1; 2; 3; 4; 5; 6; 258; 772]) /\ parse_ip "1::2:" = None /\
  parse_ip "fe80::" = Some (V6 [65152; 0; 0; 0; 0; 0; 0; 0]).
Proof. by vm_compute. Qed.

(** *** The guard, as an automaton *)

(** What is outside of literals when every quote of the kind that opened a literal
    closes it: a doubled quote closes the literal and opens it again. *)
Fixpoint outside (quote : option Ascii.ascii) (s : string) : string :=
  match s with
  | EmptyString => ""
  | String c s' =>
      match quote with
      | Some q => if Ascii.eqb c q then outside None s' else outside (Some q) s'
      | None => if is_quote c then outside (Some c) s' else String c (outside None s')
      end
  end.

(** Looking ahead for doubled quotes changes nothing: the guard's routine is the automaton. *)
Theorem strip_is_outside (s : string) : strip_string_literals s = outside None s.
Proof.
  unfold strip_string_literals.
  assert (Hgo : forall n s q, (String.length s <= n)%nat -> match q with Some c => is_quote c = true | None => True end ->
            strip_literals q s = outside q s); [|by apply (Hgo (String.length s))].
  clear s. induction n as [|n IH]; intros s q Hl Hq; destruct s as [|c s]; try done; [simpl in Hl; lia|]. simpl in Hl.
  cbn [strip_literals outside]. destruct q as [q|].
  - destruct (Ascii.eqb_spec c q) as [->|]; [|by apply IH; [lia|]].
    destruct s as [|c s]; [done|]. destruct (Ascii.eqb_spec c q) as [->|]; [|by apply IH; [lia|]].
    simpl in Hl. rewrite IH by (lia || done). cbn [outside]. by rewrite Hq.
  - destruct (is_quote c) eqn:Hc; [apply IH; [lia|done]|]. f_equal. by apply IH; [lia|].
Qed.

(** [actantdb sql] takes exactly the statements whose first word is SELECT or WITH in
    any case and that have no [;] outside of literals, once white space and the [;]s
    at the end are gone. *)
Theorem ensure_read_only_spec (stmt : string) :
  ensure_read_only stmt = Ok tt <->
  (first_word (statement_body stmt) = "SELECT" \/ first_word (statement_body stmt) = "WITH") /\
  contains_char ";" (outside None (statement_body stmt)) = false.
Proof.
  unfold ensure_read_only. rewrite strip_is_outside.
  destruct (String.eqb_spec (first_word (statement_body stmt)) "SELECT") as [Hs|Hs];
    destruct (String.eqb_spec (first_word (statement_body stmt)) "WITH") as [Hw|Hw]; cbn [negb andb];
    destruct (contains_char ";" _); split; try done; intuition done.
Qed.

(** A statement that changes rows passes the guard behind WITH, and a second statement
    passes it behind an apostrophe in a comment; the connection is what refuses them. *)
Example guard_is_porous :
  ensure_read_only "WITH t AS (SELECT 1) DELETE FROM agent_event" = Ok tt /\
  ensure_read_only ("SELECT 1 -- don't" +:+ String "010" "; DROP TABLE agent_event") = Ok tt /\
  ensure_read_only "SELECT 'a;b', 'it''s;'" = Ok tt /\
  is_ok (ensure_read_only "SELECT 1; DELETE FROM x") = false /\ is_ok (ensure_read_only "SELECT(1)") = false.
Proof. by vm_compute. Qed.

(** *** What [serve] trusts *)

Section serve.
Context `{SerdeJson} `{Regex} `{Env} `{ServerEnv} `{Rng} `{Sha256} `{Base64} `{Jwt}.

(** [actantdb serve] takes every request for a local one, at whatever address it
    listens: without a header of a proxy each passes, to any workspace. *)
Theorem serve_trusts_every_bind (db_path bind : string) (cert key : option string) (h : HeaderMap) (m : Method)
    (ws : string) (s : Server) :
  proxied h = false -> (exec (enforce_auth (boot_config (serve_boot db_path bind cert key)) h m ws) s).1 = Ok tt.
Proof. intros Hp. apply enforce_auth_iff. left. repeat split. by left. Qed.

(** The binary does so on loopback only: behind any other address a request that the
    chokepoint admits showed a live session of the workspace, or no credential at all:
    no secret is configured, so none passes by a bearer token. *)
Theorem binary_trusts_loopback (a : Args) (url : option string) (b : Boot) (h : HeaderMap) (m : Method) (ws : string) (s : Server) :
  start a url = Ok b -> is_bind_loopback (a_bind a) = false ->
  (exec (enforce_auth (boot_config b) h m ws) s).1 = Ok tt ->
  session_admitted h m ws s \/ (bearer h = None /\ extract_session_cookie h = None).
Proof.
  intros Hs Hl He. apply enforce_auth_iff in He. assert (Hm : local_mode (boot_config b) = false /\ auth_secret (boot_config b) = None).
  { pose proof (start_modes a url) as Hst. rewrite Hs, Hl in Hst. split; [apply Hst|]. by destruct b. }
  destruct Hm as [Hm Hsec]. destruct He as [(Hm' & _)|[_ [(t & secret & c & _ & Hsec' & _)|[Hse|(Hb & Hc & _)]]]];
    [congruence|congruence|by left|by right].
Qed.
End serve.

(** ** The live views *)

(** The rows of the event table that a query keeps, by id. *)
Definition event_id_le (a b : AgentEvent) : Prop := cmp_le (cmp:=String.compare) (ev_id a) (ev_id b) = true.
#[global] Instance event_id_le_dec a b : Decision (event_id_le a b).
Proof. unfold event_id_le. apply _. Defined.
Definition by_id (f : AgentEvent -> bool) (l : Ledger) : list AgentEvent :=
  merge_sort event_id_le (List.filter f (List.map (fun kr => er_event kr.2) (map_to_list (events l)))).

(** The optional conditions of [tail] on session, type and actor. *)
Definition tail_matches (session kind actor : option string) (e : AgentEvent) : bool :=
  match session with Some s => bool_decide (ev_session_id e = Some s) | None => true end
  && match kind with Some k => String.eqb (ev_event_type e) k | None => true end
  && match actor with Some a => String.eqb (ev_actor_id e) a | None => true end.
Definition fetch_recent (f : AgentEvent -> bool) (limit : nat) (l : Ledger) : list AgentEvent := take limit (rev (by_id f l)).
Definition after_id (after : option string) (e : AgentEvent) : bool :=
  match after with Some a => cmp_lt (cmp:=String.compare) a (ev_id e) | None => true end.
Definition fetch_since (f : AgentEvent -> bool) (after : option string) (limit : nat) (l : Ledger) : list AgentEvent :=
  take limit (List.filter (after_id after) (by_id f l)).
Definition advance (after : option string) (batch : list AgentEvent) : option string :=
  match last batch with Some e => Some (ev_id e) | None => after end.
(** The polls of the loop, over what the table holds at each. *)
Fixpoint follow (f : AgentEvent -> bool) (limit : nat) (after : option string) (polls : list Ledger) :
    list AgentEvent * option string :=
  match polls with
  | [] => ([], after)
  | l :: ls =>
      let batch := fetch_since f after limit l in
      let '(rest, after') := follow f limit (advance after batch) ls in
      (batch ++ rest, after')
  end.
(** [tail::run]: the events that are printed; [polls] is empty without [--follow]. *)
Definition tail_run (session kind actor : option string) (first : Ledger) (polls : list Ledger) : list AgentEvent :=
  let f := tail_matches session kind actor in
  let rows := rev (fetch_recent f 20 first) in
  rows ++ (follow f 100 (advance None rows) polls).1.

Section views.
Context `{SerdeJson}.

(** The document that [watch] evaluates a predicate on. *)
Definition watch_row (e : AgentEvent) : Json :=
  jobj [("kind", JString (ev_event_type e)); ("actor", JString (ev_actor_id e));
        ("session", match ev_session_id e with Some s => JString s | None => JNull end);
        ("payload", default JNull (ev_payload_inline e ≫= from_str)); ("id", JString (ev_id e));
        ("created_at", JString (ev_created_at e))].
Definition watch_line (e : AgentEvent) : string :=
  ev_created_at e +:+ "  " +:+ ev_id e +:+ "  " +:+ to_string (watch_row e).
(** [watch::run], after the expression is parsed. *)
Definition watch_run (p : Predicate) (polls : list Ledger) : list AgentEvent :=
  List.filter (fun e => evaluate p (watch_row e)) (follow (fun _ => true) 200 None polls).1.

(** [summarize]; [None] is the panic of [&s[..120]]. *)
Definition summarize (kind : string) (payload : option string) : option string :=
  match payload ≫= from_str with
  | None => Some ""
  | Some v =>
      if starts_with "tool_call_" kind then
        let tool := default "?" (x ← match jget "tool_name" v with Some x => Some x | None => jget "tool" v end; as_str x) in
        let status := default "" (x ← jget "status" v; as_str x) in
        Some ("tool=" +:+ tool +:+ " " +:+ (if String.eqb status "" then "" else "status=" +:+ status))
      else if existsb (String.eqb kind) ["model_call"; "model_call_completed"; "model_call_started"] then
        let model := default "?" (x ← jget "model" v; as_str x) in
        let toks := default 0 (x ← jget "tokens" v; as_u64 x) in
        Some ("model=" +:+ model +:+ " tokens=" +:+ show_Z toks)
      else
        let s := to_string v in
        if 120 <? str_len s then
          if is_char_boundary 120 s then Some (String.substring 0 120 s +:+ "…") else None
        else Some s
  end.
(** [{:<28}] counts characters, the bytes that continue none. *)
Definition char_count (s : string) : nat := String.length (filter_chars (fun c => negb (Z.land (byte c) 192 =? 128)) s).
Definition pad_right (width : nat) (s : string) : string :=
  s +:+ String.concat "" (repeat " " (width - char_count s)).
Definition event_line (e : AgentEvent) : option string :=
  summary ← summarize (ev_event_type e) (ev_payload_inline e);
  Some (ev_created_at e +:+ "  " +:+ ev_id e +:+ "  " +:+ pad_right 28 (ev_event_type e) +:+ "  actor=" +:+ ev_actor_id e
        +:+ "  " +:+ summary).
(** What comes out before the process ends, and whether it panics. *)
Fixpoint print_events (es : list AgentEvent) : list string * bool :=
  match es with
  | [] => ([], false)
  | e :: es' =>
      match event_line e with
      | None => ([], true)
      | Some line => let '(ls, panicked) := print_events es' in (line :: ls, panicked)
      end
  end.
End views.

(** *** They miss nothing while ids grow *)

Section follow.
Context (f : AgentEvent -> bool).

(** Every row is under its own id, and the new ones come after those before. *)
Definition keyed (l : Ledger) : Prop := forall k r, events l !! k = Some r -> ev_id (er_event r) = k.
Definition grows (l l' : Ledger) : Prop := exists new, by_id f l' = by_id f l ++ new.
Fixpoint growing (l : Ledger) (ls : list Ledger) : Prop :=
  match ls with [] => keyed l | l' :: ls' => keyed l /\ grows l l' /\ growing l' ls' end.

#[local] Instance event_id_le_trans : Transitive event_id_le.
Proof. intros a b c. unfold event_id_le. apply cmp_le_trans. Qed.
#[local] Instance event_id_le_total : Total event_id_le.
Proof. intros a b. apply cmp_le_total. Qed.

Definition id_lt (a b : AgentEvent) : Prop := cmp_lt (cmp:=String.compare) (ev_id a) (ev_id b) = true.
Lemma by_id_sorted l : keyed l -> StronglySorted id_lt (by_id f l).
Proof.
  intros Hk. assert (Hnd : NoDup (List.map ev_id (by_id f l))).
  { unfold by_id. assert (Hp : List.map ev_id (merge_sort event_id_le (List.filter f (List.map (fun kr => er_event kr.2) (map_to_list (events l)))))
      ≡ₚ List.map ev_id (List.filter f (List.map (fun kr => er_event kr.2) (map_to_list (events l))))).
    { by rewrite merge_sort_Permutation. }
    rewrite Hp. apply NoDup_ListNoDup. pose proof (NoDup_fst_map_to_list (events l)) as Hn. apply NoDup_ListNoDup in Hn.
    assert (Heq : Forall (fun kr => ev_id (er_event kr.2) = kr.1) (map_to_list (events l))).
    { apply Forall_forall. intros [k r] Hin. apply elem_of_map_to_list in Hin. by apply Hk. }
    revert Hn Heq. generalize (map_to_list (events l)). clear. intros rs.
    induction rs as [|[k r] rs IH]; simpl; [constructor|]. intros Hn Heq. inversion Hn as [|? ? Hnot Hn']; subst.
    inversion Heq as [|? ? Hr Heq']; subst. specialize (IH Hn' Heq'). simpl in Hr.
    destruct (f (er_event r)); [|done]. simpl. constructor; [|done]. rewrite Hr. intros Hin. apply Hnot.
    apply in_map_iff in Hin as (e & He & Hin). apply filter_In in Hin as [Hin _]. apply in_map_iff in Hin as ([k' r'] & Hr' & Hin').
    simpl in Hr'. subst e. apply in_map_iff. exists (k', r'). split; [|done]. simpl.
    eapply Forall_forall in Heq'; [|by apply list_elem_of_In]. simpl in Heq'. congruence. }
  pose proof (StronglySorted_merge_sort event_id_le (List.filter f (List.map (fun kr => er_event kr.2) (map_to_list (events l))))) as Hs.
  fold (by_id f l) in Hs. revert Hnd Hs. generalize (by_id f l). clear. intros es.
  induction es as [|e es IH]; intros Hnd Hs; [constructor|]. inversion Hs as [|? ? Hs' Hall]; subst. simpl in Hnd.
  apply NoDup_cons in Hnd as [Hnot Hnd]. constructor; [by apply IH|]. apply Forall_forall. intros x Hx.
  eapply Forall_forall in Hall; [|done]. unfold id_lt, event_id_le in *. rewrite cmp_lt_not_le. apply negb_true_iff.
  destruct (cmp_le (ev_id x) (ev_id e)) eqn:Hle; [|done]. exfalso. apply Hnot.
  rewrite <- (cmp_le_antisym _ _ Hle Hall). apply list_elem_of_In, in_map_iff. exists x. by rewrite <- list_elem_of_In.
Qed.

(** The cursor is the last of the first [k] rows. *)
Definition at_row (after : option string) (k : nat) (es : list AgentEvent) : Prop :=
  (k <= length es)%nat /\ after = ev_id <$> last (take k es).
Lemma rows_after after k es : StronglySorted id_lt es -> at_row after k es -> List.filter (after_id after) es = drop k es.
Proof.
  intros Hs [Hk ->]. destruct k as [|k].
  { simpl. apply filter_every. done. }
  destruct (lookup_lt_is_Some_2 es k ltac:(lia)) as [x Hx].
  assert (Hlast : last (take (S k) es) = Some x) by (rewrite (take_S_r _ _ _ Hx); apply last_snoc).
  rewrite Hlast. simpl. rewrite <- (take_drop (S k) es) at 1. rewrite List.filter_app.
  rewrite (take_S_r _ _ _ Hx) at 1.
  assert (Hsplit : es = take k es ++ x :: drop (S k) es) by (symmetry; by apply take_drop_middle).
  rewrite Hsplit in Hs. apply StronglySorted_app in Hs as (Hcross & _ & Hr). inversion Hr as [|? ? _ Hall]; subst.
  rewrite filter_none, filter_every; [done| |].
  - intros y Hy. eapply Forall_forall in Hall; [exact Hall|by apply list_elem_of_In].
  - intros y Hy. apply in_app_iff in Hy as [Hy|[<-|[]]].
    + assert (Hlt : id_lt y x) by (apply Hcross; [by apply list_elem_of_In|left]).
      unfold id_lt in Hlt. simpl. rewrite cmp_lt_not_le in Hlt |- *. apply negb_false_iff.
      destruct (cmp_le_total (ev_id y) (ev_id x)) as [?|Hc]; [done|]. by rewrite Hc in Hlt.
    + simpl. by rewrite cmp_lt_not_le, cmp_le_refl.
Qed.

Lemma at_row_grows after k es new : at_row after k es -> at_row after k (es ++ new).
Proof. intros [Hk ->]. split; [rewrite length_app; lia|]. by rewrite take_app_le. Qed.
Lemma at_row_advance after k es n : at_row after k es ->
  at_row (advance after (take n (drop k es))) (k + length (take n (drop k es))) es.
Proof.
  intros [Hk Ha]. rewrite length_take, length_drop. split; [lia|].
  assert (Htake : take (k + Nat.min n (length es - k)) es = take k es ++ take n (drop k es)).
  { rewrite take_take_drop. destruct (le_lt_dec n (length es - k)).
    - by rewrite Nat.min_l by lia.
    - rewrite Nat.min_r by lia. rewrite !take_ge; [done|lia..]. }
  rewrite Htake. unfold advance. destruct (last (take n (drop k es))) as [e|] eqn:Hl.
  - apply last_Some in Hl as [pre ->]. by rewrite app_assoc, last_snoc.
  - apply last_None in Hl. by rewrite Hl, app_nil_r.
Qed.
Lemma fetch_row after k n l : keyed l -> at_row after k (by_id f l) -> fetch_since f after n l = take n (drop k (by_id f l)).
Proof. intros Hl Ha. unfold fetch_since. by rewrite (rows_after _ _ _ (by_id_sorted l Hl) Ha). Qed.

(** The table after the polls. *)
Definition final (l0 : Ledger) (ls : list Ledger) : Ledger := default l0 (last ls).
Lemma follow_app n after ls ls' :
  follow f n after (ls ++ ls') =
  ((follow f n after ls).1 ++ (follow f n (follow f n after ls).2 ls').1, (follow f n (follow f n after ls).2 ls').2).
Proof.
  revert after. induction ls as [|l ls IH]; intros after; simpl; [by destruct (follow f n after ls')|].
  rewrite IH. destruct (follow f n (advance after (fetch_since f after n l)) ls) as [rest a]. simpl. by rewrite app_assoc.
Qed.
Lemma follow_covers n ls l0 after k : growing l0 ls -> at_row after k (by_id f l0) ->
  exists k', (k <= k')%nat /\ at_row (follow f n after ls).2 k' (by_id f (final l0 ls)) /\
    (follow f n after ls).1 = take (k' - k) (drop k (by_id f (final l0 ls))) /\
    keyed (final l0 ls) /\ grows l0 (final l0 ls).
Proof.
  revert l0 after k. induction ls as [|l ls IH]; intros l0 after k Hg Ha; cbn [growing] in Hg.
  - exists k. rewrite Nat.sub_diag. split; [done|]. split; [done|]. split; [done|]. split; [done|]. exists []. by rewrite app_nil_r.
  - destruct Hg as (Hk0 & [new Hnew] & Hg). assert (Hal : at_row after k (by_id f l)) by (rewrite Hnew; by apply at_row_grows).
    assert (Hkl : keyed l) by (destruct ls; apply Hg). cbn [follow]. rewrite (fetch_row _ _ _ _ Hkl Hal).
    set (batch := take n (drop k (by_id f l))).
    destruct (IH l (advance after batch) (k + length batch)%nat Hg (at_row_advance _ _ _ n Hal)) as (k' & Hle & Hat & Hout & Hkf & [new' Hg']).
    destruct (follow f n (advance after batch) ls) as [rest a]. simpl in *.
    assert (Hfin : final l0 (l :: ls) = final l ls) by (unfold final; rewrite last_cons; by destruct (last ls)).
    rewrite Hfin. exists k'. split; [lia|]. split; [done|]. split; [|split; [done|]].
    + rewrite Hout. assert (Hb : take (length batch) (drop k (by_id f (final l ls))) = batch).
      { rewrite Hg', drop_app_le by apply Hal. rewrite take_app_le by (unfold batch; rewrite length_take; lia).
        unfold batch. rewrite length_take. destruct (le_lt_dec n (length (drop k (by_id f l)))).
        - by rewrite Nat.min_l by lia.
        - rewrite Nat.min_r by lia. rewrite !take_ge; [done|lia..]. }
      replace (k' - k)%nat with (length batch + (k' - (k + length batch)))%nat by lia.
      by rewrite <- take_take_drop, Hb, drop_drop.
    + exists (new ++ new'). by rewrite Hg', Hnew, app_assoc.
Qed.
Lemma follow_same n m l after k : keyed l -> at_row after k (by_id f l) ->
  (follow f n after (repeat l m)).1 = take (m * n) (drop k (by_id f l)).
Proof.
  intros Hl. revert after k. induction m as [|m IH]; intros after k Ha; [done|]. cbn [repeat follow].
  rewrite (fetch_row _ _ _ _ Hl Ha). pose proof (IH _ _ (at_row_advance _ _ _ n Ha)) as Hrest.
  destruct (follow f n _ (repeat l m)) as [rest a]. simpl in *. rewrite Hrest, <- drop_drop, length_take.
  destruct (le_lt_dec n (length (drop k (by_id f l)))).
  - rewrite Nat.min_l by done. by rewrite take_take_drop.
  - rewrite Nat.min_r by lia. rewrite drop_all, take_nil, app_nil_r. rewrite !take_ge; [done|lia..].
Qed.

(** From a row on, over a growing table, everything that follows comes, once and in
    order, when the table rests for as many polls as it takes. *)
Lemma follow_all n m ls l0 l after k : (0 < n)%nat -> growing l0 ls -> at_row after k (by_id f l0) ->
  l = final l0 ls -> (length (by_id f l) <= m * n)%nat ->
  (follow f n after (ls ++ repeat l m)).1 = drop k (by_id f l).
Proof.
  intros Hn Hg Ha -> Hm. destruct (follow_covers n ls l0 after k Hg Ha) as (k' & Hle & Hat & Hout & Hkf & _).
  rewrite follow_app. simpl. rewrite Hout, (follow_same n m _ _ k' Hkf Hat).
  rewrite (take_ge (drop k' _)) by (rewrite length_drop; lia).
  replace (drop k' (by_id f (final l0 ls))) with (drop (k' - k) (drop k (by_id f (final l0 ls))))
    by (rewrite drop_drop; f_equal; lia).
  by rewrite take_drop.
Qed.
End follow.


Section watch.
Context `{SerdeJson}.

(** And [watch] prints exactly the events on which the predicate holds, from the first
    of the ledger on. *)
Theorem watch_prints_every_match (p : Predicate) (first : Ledger) (ls : list Ledger) (m : nat) :
  let all := fun _ : AgentEvent => true in
  let l := final first ls in
  growing all first ls -> (length (by_id all l) <= m * 200)%nat ->
  watch_run p (ls ++ repeat l m) = List.filter (fun e => evaluate p (watch_row e)) (by_id all l).
Proof.
  intros all l Hg Hm. unfold watch_run. fold all.
  rewrite (follow_all all 200 m ls first l None 0 ltac:(lia) Hg); [by rewrite drop_0|split; [lia|done]|done|done].
Qed.
End watch.

(** *** Runs of the views *)

Definition note (id kind payload : string) : AgentEvent :=
  mkAgentEvent id "ws" "ann" None None kind Observation SLow None (Some payload) None "h" "h" "t" None None None None None None None.
Definition ledger_of (es : list AgentEvent) : Ledger :=
  set_events (list_to_map (List.map (fun e => (ev_id e, mkEventRow e "_legacy_" (0, 0))) es)) empty_ledger.
Definition notes (ids : list string) : Ledger := ledger_of (List.map (fun i => note i "note" "{}") ids).
Lemma notes_keyed ids :
  bool_decide (map_Forall (fun k r => ev_id (er_event r) = k) (events (notes ids))) = true -> keyed (notes ids).
Proof. intros Hb k r. by apply (bool_decide_eq_true_1 _ Hb). Qed.
(** Events that a peer wrote have ids of their content: one that sorts before the
    cursor is never shown. *)
Example smaller_id_is_missed :
  List.map ev_id (tail_run None None None (notes ["b"]) [notes ["a"; "b"]; notes ["a"; "b"]]) = ["b"].
Proof. by vm_compute. Qed.

Section runs.
(** Documents that are texts, printed between apostrophes. *)
#[local] Instance texts : SerdeJson := {|
  from_str := fun s => Some (JString s);
  to_string := fun v => match v with JString s => "'" +:+ s +:+ "'" | _ => "?" end |}.
Lemma watch_prints_every_match_witness :
  List.map ev_id (watch_run (PEq "id" (JString "b")) ([notes ["a"; "b"]] ++ repeat (notes ["a"; "b"]) 1)) = ["b"].
Proof.
  refine (eq_trans (f_equal (List.map ev_id)
    (watch_prints_every_match (PEq "id" (JString "b")) (notes ["a"]) [notes ["a"; "b"]] 1 _ _)) _);
    [|vm_compute; lia|by vm_compute].
  split; [by apply notes_keyed; vm_compute|]. split; [|by apply notes_keyed; vm_compute].
  exists [note "b" "note" "{}"]. by vm_compute.
Defined.
Definition sixty_e_acute : string := String.concat "" (repeat (String "195" (String "169" "")) 60).
(** A payload of more than 120 bytes with a character across the 120th ends [tail]. *)
Example tail_panics_inside_a_character :
  print_events [note "a" "note" "x"; note "b" "note" sixty_e_acute; note "c" "note" "x"] =
    (["t  a  note                          actor=ann  'x'"], true).
Proof. by vm_compute. Qed.
End runs.

(** ** Consent to telemetry *)

(** An error of the command line: one of the crates' or any other. *)
Inductive CliError := Known (e : ActantError) | Other (m : string).
Definition as_actant (e : CliError) : ActantError := match e with Known e => e | Other m => Internal m end.
Definition print_public_error (e : CliError) : list string :=
  let a := as_actant e in
  ["error: " +:+ code a; "detail: " +:+ display a; "fix: " +:+ default (hint a) (fix_ a)].

Inductive TelemetryChoice := Enabled | Disabled.
#[global] Instance TelemetryChoice_eq_dec : EqDecision TelemetryChoice.
Proof. solve_decision. Defined.
Definition choice_text (c : TelemetryChoice) : string := match c with Enabled => "enabled" | Disabled => "disabled" end.
Definition parse_answer (raw : string) : option TelemetryChoice :=
  let a := to_ascii_lowercase (trim raw) in
  if existsb (String.eqb a) ["y"; "yes"] then Some Enabled
  else if existsb (String.eqb a) [""; "n"; "no"; "skip"] then Some Disabled
  else None.
Definition env_choice (var : option string) : result ActantError (option TelemetryChoice) :=
  match var with
  | None => Ok None
  | Some raw =>
      let a := to_ascii_lowercase (trim raw) in
      if existsb (String.eqb a) ["1"; "true"; "yes"; "on"] then Ok (Some Enabled)
      else if existsb (String.eqb a) ["0"; "false"; "no"; "off"; "skip"] then Ok (Some Disabled)
      else if existsb (String.eqb a) [""; "ask"] then Ok None
      else Err (InvalidInput ("ACTANTDB_TELEMETRY must be yes, no, on, off, or ask; got `" +:+ a +:+ "`"))
  end.

(** The file of the choice, the lines that will be read, and what was asked. *)
Record Consent := mkConsent { config : option string; input : list (result string string); asked : list string }.
Definition say (line : string) (c : Consent) : Consent := mkConsent (config c) (input c) (asked c ++ [line]).

Section telemetry.
(** The pretty printer, the instant, and what the calls on the file answer: a write
    that fails may leave something. *)
Context (pretty : Json -> string) (decided_at : string).
Context (create_dir_error : option string) (write_error : option (string * option string)).
#[local] Abbreviation T A := (M Consent CliError A).

Definition config_text (c : TelemetryChoice) : string :=
  pretty (JObject [("telemetry", JString (choice_text c)); ("decided_at", JString decided_at); ("version", JNumber (PosInt 1))]).
Definition persist_choice (c : TelemetryChoice) : T unit := fun s =>
  match create_dir_error with
  | Some e => (Err (Known (Core.Storage ("create config dir: " +:+ e))), s)
  | None =>
      match write_error with
      | Some (e, torn) =>
          (Err (Known (Core.Storage ("write telemetry config: " +:+ e))),
           mkConsent (match torn with Some t => Some t | None => config s end) (input s) (asked s))
      | None => (Ok tt, mkConsent (Some (config_text c)) (input s) (asked s))
      end
  end.
(** The loop of [prompt_with]; at the end of input [read_line] leaves an empty answer. *)
Fixpoint prompt_loop (lines : list (result string string)) : T unit := fun s =>
  let s := say "Share anonymous usage? [y/N] " s in
  match lines with
  | [] => persist_choice Disabled s
  | Err e :: rest => (Err (Other e), mkConsent (config s) rest (asked s))
  | Ok answer :: rest =>
      let s := mkConsent (config s) rest (asked s) in
      match parse_answer answer with
      | Some c => persist_choice c s
      | None => prompt_loop rest (say "Please answer y or n." s)
      end
  end.
Definition prompt_with : T unit := fun s =>
  match config s with
  | Some _ => (Ok tt, s)
  | None =>
      prompt_loop (input s) (say "No ledger contents, prompts, payloads, database paths, or secrets are sent."
        (say "ActantDB would like to collect anonymous CLI usage and error telemetry so we can fix what breaks." s))
  end.
Definition prompt_if_needed (telemetry_var ci : option string) (is_terminal : bool) : T unit := fun s =>
  match config s with
  | Some _ => (Ok tt, s)
  | None =>
      match env_choice telemetry_var with
      | Err e => (Err (Known e), s)
      | Ok (Some c) => persist_choice c s
      | Ok None => if bool_decide (is_Some ci) || negb is_terminal then (Ok tt, s) else prompt_with s
      end
  end.

(** The answer that decides: the first line that is one, or the end of the input. *)
Fixpoint deciding (lines : list (result string string)) : option TelemetryChoice :=
  match lines with
  | [] => Some Disabled
  | Err _ :: _ => None
  | Ok answer :: rest => match parse_answer answer with Some c => Some c | None => deciding rest end
  end.
Definition decision (telemetry_var ci : option string) (is_terminal : bool) (s : Consent) : option TelemetryChoice :=
  match env_choice telemetry_var with
  | Err _ => None
  | Ok (Some c) => Some c
  | Ok None => if bool_decide (is_Some ci) || negb is_terminal then None else deciding (input s)
  end.
Lemma prompt_loop_decides lines s :
  match deciding lines with
  | Some c => exists s0, prompt_loop lines s = persist_choice c s0 /\ config s0 = config s
  | None => exists e, (prompt_loop lines s).1 = Err (Other e) /\ config (prompt_loop lines s).2 = config s
  end.
Proof.
  revert s. induction lines as [|[answer|e] lines IH]; intros s; cbn [deciding prompt_loop].
  - by eexists.
  - destruct (parse_answer answer) as [c|]; [by eexists|].
    set (s1 := say "Please answer y or n." _). specialize (IH s1). destruct (deciding lines) as [c|].
    + destruct IH as (s0 & -> & Hc). by exists s0.
    + destruct IH as (e & He & Hc). by exists e.
  - by eexists.
Qed.

(** The prompt always returns.  A choice that is on file stays; without one the file
    ends up with exactly the choice of the variable or of the first line that is an
    answer, where the end of the input is a no; and while the calls on the file
    succeed nothing else is ever written. *)
Theorem consent_spec (telemetry_var ci : option string) (is_terminal : bool) (s : Consent) :
  let r := prompt_if_needed telemetry_var ci is_terminal s in
  match config s with
  | Some _ => r = (Ok tt, s)
  | None =>
      create_dir_error = None -> write_error = None ->
      config r.2 = config_text <$> decision telemetry_var ci is_terminal s /\
      (r.1 = Ok tt \/ decision telemetry_var ci is_terminal s = None)
  end.
Proof.
  simpl. unfold prompt_if_needed. destruct (config s) as [t|] eqn:Hc; [done|]. intros Hd Hw.
  assert (Hp : forall c s0, config s0 = None ->
    config (persist_choice c s0).2 = Some (config_text c) /\ (persist_choice c s0).1 = Ok tt).
  { intros c s0 _. unfold persist_choice. by rewrite Hd, Hw. }
  unfold decision. destruct (env_choice telemetry_var) as [[c|]|e]; [..|simpl; by split; [|right]].
  { destruct (Hp c s Hc) as [-> ->]. by split; [|left]. }
  destruct (_ || _); [simpl; by split; [|right]|]. unfold prompt_with. rewrite Hc.
  set (s1 := say _ (say _ s)). pose proof (prompt_loop_decides (input s) s1) as Hl. destruct (deciding (input s)) as [c|].
  - destruct Hl as (s0 & -> & Hc0). destruct (Hp c s0) as [-> ->]; [by rewrite Hc0|]. by split; [|left].
  - destruct Hl as (e & _ & ->). by split; [|right].
Qed.
End telemetry.
Lemma consent_spec_witness :
  let pretty := fun v => default "" (x ← jget "telemetry" v; as_str x) in
  let s := mkConsent None [Ok "maybe"; Ok " Yes "; Ok "n"] [] in
  config (prompt_if_needed pretty "t" None None None None true s).2 = Some "enabled" /\
  decision None None true s = Some Enabled /\ input (prompt_if_needed pretty "t" None None None None true s).2 = [Ok "n"].
Proof.
  split; [|by vm_compute].
  refine (eq_trans (proj1 (consent_spec (fun v => default "" (x ← jget "telemetry" v; as_str x)) "t" None None None None true
    (mkConsent None [Ok "maybe"; Ok " Yes "; Ok "n"] []) eq_refl eq_refl)) _). by vm_compute.
Defined.

(** ** [doctor] *)

Inductive Mark := MOk | MWarn | MFail.
Definition glyph (m : Mark) : string := match m with MOk => "[ok]" | MWarn => "[warn]" | MFail => "[fail]" end.
Definition report (m : Mark) (label detail : string) (fix_text : option string) : list string :=
  (pad_right 6 (glyph m) +:+ " " +:+ pad_right 32 label +:+ "  " +:+ detail)
  :: match fix_text with Some f => ["       fix:   " +:+ f] | None => [] end.

(** The digits at the head of a part; a part without any is passed over. *)
Fixpoint digit_prefix (s : string) : string :=
  match s with String c s' => if is_digit c then String c (digit_prefix s') else "" | EmptyString => "" end.
Definition semver_parts (s : string) : list Z := omap (fun p => parse_usize (digit_prefix p)) (split_char "." s).
Definition part (n : nat) (l : list Z) : Z := default 0 (l !! n).
Definition semver_ge (have want : string) : bool :=
  let h := semver_parts have in
  let w := semver_parts want in
  match Z.compare (part 0 h) (part 0 w) with
  | Lt => false
  | Gt => true
  | Eq => match Z.compare (part 1 h) (part 1 w) with
          | Lt => false
          | Gt => true
          | Eq => part 2 w <=? part 2 h
          end
  end.

(** What a process that was run answers: whether it succeeded and its output, or
    nothing when it could not be run. *)
Abbreviation Ran := (option (bool * string)).
Definition check_version (label want old_fix missing_fix : string) (version_of : string -> string) (ran : Ran) : list string :=
  match ran with
  | Some (true, stdout) =>
      let s := trim stdout in
      if semver_ge (version_of s) want then report MOk label s None else report MWarn label s (Some old_fix)
  | _ => report MWarn label "not found" (Some missing_fix)
  end.
Definition check_rust : Ran -> list string :=
  check_version "rustc >= 1.88" "1.88.0" "rustup update stable" "install Rust via https://rustup.rs"
    (fun s => default "" (split_whitespace s !! 1%nat)).
Definition check_node : Ran -> list string :=
  check_version "node >= 22.5" "22.5.0" "install via `nvm install 22` or `volta install node@22`"
    "install Node.js >= 22.5 from https://nodejs.org" (trim_start_matches "v").
Definition five_gb : f64 := f64_of_Z 5.
Definition free_gb (avail_kb : Z) : f64 := f64_div (f64_div (f64_of_Z avail_kb) (f64_of_Z 1024)) (f64_of_Z 1024).
(** [show_gb] is [{gb:.1}]. *)
Definition check_disk (show_gb : f64 -> string) (target : string) (ran : Ran) : list string :=
  match ran with
  | Some (true, text) =>
      match lines text !! 1%nat with
      | Some line =>
          match split_whitespace line !! 3%nat with
          | Some col =>
              let gb := free_gb (default 0 (parse_usize col)) in
              let enough := f64_leb five_gb gb in
              report (if enough then MOk else MWarn) "disk space (db dir)" (show_gb gb +:+ " GB free on " +:+ target)
                (if enough then None else Some "free disk space below 5 GB threshold")
          | None => report MWarn "disk space (db dir)" "could not parse `df`" None
          end
      | None => report MWarn "disk space (db dir)" "could not parse `df`" None
      end
  | _ => report MWarn "disk space (db dir)" "`df` unavailable" None
  end.
(** [s.parse::<u32>()]. *)
Definition parse_u32 (s : string) : option Z := n ← parse_usize s; if n <=? u32_max then Some n else None.
Definition pid_on_port (lsof : Ran) : option Z :=
  match lsof with Some (true, text) => line ← head (lines text); parse_u32 (trim line) | _ => None end.
Definition check_port (port : Z) (in_use : bool) (lsof : Ran) : list string :=
  let label := "port " +:+ show_Z port +:+ " free" in
  if in_use
  then report MWarn label (match pid_on_port lsof with Some p => "in use by pid " +:+ show_Z p | None => "in use (pid unknown)" end)
         (Some "kill the process or run on a different port")
  else report MOk label "available" None.
(** [which]: the first directory of PATH with such a file. *)
Definition which (path_dirs : option (list string)) (is_file : string -> bool) (name : string) : option string :=
  dirs ← path_dirs; List.find is_file (List.map (fun d => d +:+ "/" +:+ name) dirs).
Definition check_optional_cli (path_dirs : option (list string)) (is_file : string -> bool) (name : string) : list string :=
  let label := "`" +:+ name +:+ "` on PATH" in
  match which path_dirs is_file name with
  | Some _ => report MOk label "found" None
  | None => report MWarn label "not found" (Some "optional; see `@actantdb/box` docs if you need it")
  end.
Definition check_pg_env (var : option string) : list string :=
  match var with
  | Some url =>
      if starts_with "postgres://" url || starts_with "postgresql://" url
      then report MOk "ACTANTDB_DATABASE_URL" "set (postgres backend selected)" None
      else report MWarn "ACTANTDB_DATABASE_URL" ("set but not postgres: " +:+ url) (Some "unset, or set to a postgres:// URL")
  | None => report MOk "ACTANTDB_DATABASE_URL" "unset (sqlite backend)" None
  end.
Definition check_studio_dist (exists_path : string -> bool) : list string :=
  match List.find exists_path ["packages/actant-studio/dist/ui"; "packages/actant-studio/dist"] with
  | Some p => report MOk "studio dist" p None
  | None => report MWarn "studio dist" "not built" (Some "pnpm --filter @actantdb/studio build")
  end.
(** What the checks ask of the machine. *)
Record Machine_ := mkMachine_ {
  ran : string -> Ran; disk_target : string; port_in_use : Z -> bool; lsof_of : Z -> Ran;
  path_dirs : option (list string); is_file : string -> bool; path_exists : string -> bool; database_url : option string
}.
Definition doctor (show_gb : f64 -> string) (m : Machine_) : list string :=
  ["ActantDB environment check"; "=========================="]
  ++ check_rust (ran m "rustc") ++ check_node (ran m "node") ++ check_disk show_gb (disk_target m) (ran m "df")
  ++ check_port 4555 (port_in_use m 4555) (lsof_of m 4555) ++ check_port 54323 (port_in_use m 54323) (lsof_of m 54323)
  ++ check_optional_cli (path_dirs m) (is_file m) "claude" ++ check_optional_cli (path_dirs m) (is_file m) "codex"
  ++ check_optional_cli (path_dirs m) (is_file m) "opencode" ++ check_pg_env (database_url m) ++ check_studio_dist (path_exists m)
  ++ [""].

(** *** Versions are compared as numbers *)

Definition version (a b c : Z) : string := show_Z a +:+ "." +:+ show_Z b +:+ "." +:+ show_Z c.
Definition u64 (n : Z) : Prop := 0 <= n <= u64_max.
Lemma digit_prefix_all s : all_chars is_digit s = true -> digit_prefix s = s.
Proof. induction s as [|c s IH]; [done|]. simpl. rewrite andb_true_iff. intros [-> Hs]. by rewrite IH. Qed.
Lemma show_Z_digits n : 0 <= n -> all_chars is_digit (show_Z n) = true.
Proof.
  intros Hn. unfold show_Z. destruct (Z.ltb_spec n 0); [lia|].
  assert (Hg : forall fuel n acc, 0 <= n -> all_chars is_digit acc = true -> all_chars is_digit (show_digits fuel n acc) = true).
  { induction fuel as [|fuel IH]; intros m acc Hm Ha; [done|]. cbn [show_digits].
    destruct (digit_byte (m mod 10)) as [Hd _]; [apply Z.mod_pos_bound; lia|].
    assert (Hx : all_chars is_digit (String (Ascii.ascii_of_N (Z.to_N (48 + m mod 10))) acc) = true) by (cbn [all_chars]; by rewrite Hd).
    destruct (m <? 10); [done|]. apply IH; [apply Z.div_pos; lia|done]. }
  by apply Hg.
Qed.
Lemma semver_parts_version a b c : u64 a -> u64 b -> u64 c -> semver_parts (version a b c) = [a; b; c].
Proof.
  unfold u64. intros Ha Hb Hc. unfold semver_parts, version.
  change ("." +:+ show_Z c) with (String "." (show_Z c)). change ("." +:+ show_Z b +:+ ?x) with (String "." (show_Z b +:+ x)).
  assert (Hdot : forall n, 0 <= n -> contains_char "." (show_Z n) = false) by (intros n Hn; by apply show_Z_char).
  rewrite !split_char_app by (apply Hdot; lia). rewrite !split_char_none by (apply Hdot; lia). simpl.
  rewrite !digit_prefix_all by (apply show_Z_digits; lia). by rewrite !parse_show_Z by done.
Qed.

(** On plain versions of 64-bit numbers the comparison is the lexicographic one. *)
Theorem semver_ge_spec (a b c x y z : Z) :
  u64 a -> u64 b -> u64 c -> u64 x -> u64 y -> u64 z ->
  (semver_ge (version a b c) (version x y z) = true <->
   x < a \/ (x = a /\ (y < b \/ (y = b /\ z <= c)))).
Proof.
  intros. unfold semver_ge. rewrite !semver_parts_version by done. unfold part. simpl.
  destruct (Z.compare_spec a x); [|split; [done|lia]|split; [lia|done]].
  destruct (Z.compare_spec b y); [|split; [done|lia]|split; [lia|done]]. rewrite Z.leb_le. lia.
Qed.
Lemma semver_ge_spec_witness : semver_ge (version 22 10 0) (version 22 5 0) = true.
Proof. apply (semver_ge_spec 22 10 0 22 5 0); unfold u64, u64_max; lia. Defined.
Example semver_examples :
  semver_ge "1.88.0-nightly" "1.88.0" = true /\ semver_ge "1.9.0" "1.88.0" = false /\ semver_ge "next.99" "22.5.0" = true.
Proof. by vm_compute. Qed.

(** ** [shell] *)

(** What is printed: a line, or a table. *)
Inductive Out := Line (s : string) | Table (t : Sheet).

Fixpoint parse_kv {A} (parse : string -> option A) (key : string) (args : list string) : option A :=
  match args with
  | a :: rest =>
      if String.eqb a key
      then match rest with
           | v :: rest' => match parse v with Some n => Some n | None => parse_kv parse key rest' end
           | [] => None
           end
      else parse_kv parse key rest
  | [] => None
  end.
Definition every (e : AgentEvent) : bool := true.
(** SQLite's LIMIT: a negative one is none. *)
Definition limited {A} (limit : Z) (l : list A) : list A := if limit <? 0 then l else take (Z.to_nat limit) l.
Definition list_events (l : Ledger) (limit : Z) : list Out :=
  [Table (mkSheet ["id"; "created_at"; "type"; "actor"]
     (List.map (fun e => [ev_id e; ev_created_at e; ev_event_type e; ev_actor_id e]) (rev (limited limit (rev (by_id every l))))))].
(** The columns of [session], and a SELECT that names others. *)
Definition session_columns : list string :=
  ["id"; "workspace_id"; "title"; "initiator_actor_id"; "agent_actor_id"; "status"; "created_at"; "closed_at"; "phase"].
Definition prepare (columns names : list string) : result CliError unit :=
  match List.find (fun n => negb (existsb (String.eqb n) columns)) names with
  | Some n => Err (Other ("error returned from database: (code: 1) no such column: " +:+ n))
  | None => Ok tt
  end.
(** [column] is the text of a column of a row. *)
Definition list_sessions (rows : Ledger -> list Session) (column : Session -> string -> string) (l : Ledger) :
    result CliError (list Out) :=
  let names := ["id"; "workspace_id"; "actor_id"; "started_at"] in
  prepare session_columns (names ++ ["started_at"]);;
  Ok [Table (mkSheet ["id"; "workspace"; "actor"; "started_at"] (List.map (fun s => List.map (column s) names) (take 50 (rows l))))].
Definition get_event (l : Ledger) (id : string) : list Out :=
  match events l !! id with
  | None => [Line "(not found)"]
  | Some r =>
      let e := er_event r in
      [Line ("id          " +:+ ev_id e); Line ("created_at  " +:+ ev_created_at e); Line ("event_type  " +:+ ev_event_type e);
       Line ("actor_id    " +:+ ev_actor_id e); Line ("session_id  " +:+ default "" (ev_session_id e));
       Line ("payload     " +:+ default "" (ev_payload_inline e))]
  end.
Definition help_lines : list Out :=
  [Line "Commands:"; Line "  events [--limit N]   list last N events (default 20)"; Line "  sessions             list sessions";
   Line "  get <event_id>       fetch one event row"; Line "  help                 show this help"; Line "  exit                 quit"].

Inductive Readline := ReadLine (s : string) | Interrupted | Eof | ReadError (e : string).

Section shell.
Context (session_rows : Ledger -> list Session) (session_column : Session -> string -> string).

(** Whether to leave, and what is printed. *)
Definition shell_dispatch (l : Ledger) (line : string) : result CliError (bool * list Out) :=
  match split_whitespace line with
  | [] => Ok (false, [Line "unknown command: ``. Type `help`."])
  | cmd :: rest =>
      if existsb (String.eqb cmd) ["exit"; "quit"] then Ok (true, [])
      else if existsb (String.eqb cmd) ["help"; "?"] then Ok (false, help_lines)
      else if String.eqb cmd "events" then Ok (false, list_events l (default 20 (parse_kv parse_i64 "--limit" rest)))
      else if String.eqb cmd "sessions" then out ← list_sessions session_rows session_column l; Ok (false, out)
      else if String.eqb cmd "get" then
        match rest with
        | id :: _ => Ok (false, get_event l id)
        | [] => Err (Known (InvalidInput "usage: get <event_id>"))
        end
      else Ok (false, [Line ("unknown command: `" +:+ cmd +:+ "`. Type `help`.")])
  end.
(** The loop over what the editor reads; [None] when the lines are used up before it ends. *)
Fixpoint shell_run (l : Ledger) (reads : list Readline) : option (list Out) :=
  match reads with
  | [] => None
  | ReadLine line :: rest =>
      if String.eqb (trim line) "" then shell_run l rest
      else match shell_dispatch l (trim line) with
           | Ok (true, out) => Some out
           | Ok (false, out) => more ← shell_run l rest; Some (out ++ more)
           | Err e => more ← shell_run l rest; Some (List.map Line (print_public_error e) ++ more)
           end
  | Interrupted :: _ | Eof :: _ => Some []
  | ReadError e :: _ => Some [Line ("readline error: " +:+ e)]
  end.

(** [events] lists the last [n] events by id, the latest last; a negative limit is none. *)
Theorem shell_lists_last (l : Ledger) (n : Z) :
  list_events l n = [Table (mkSheet ["id"; "created_at"; "type"; "actor"]
    (List.map (fun e => [ev_id e; ev_created_at e; ev_event_type e; ev_actor_id e])
       (if n <? 0 then by_id every l else drop (length (by_id every l) - Z.to_nat n) (by_id every l))))].
Proof.
  unfold list_events, limited. destruct (n <? 0); [by rewrite rev_involutive|]. by rewrite firstn_rev, rev_involutive.
Qed.
(** [sessions] never answers: it selects columns that the table does not have. *)
Theorem sessions_never_answer (l : Ledger) :
  shell_dispatch l "sessions" = Err (Other "error returned from database: (code: 1) no such column: actor_id").
Proof. reflexivity. Qed.
End shell.

Example shell_session :
  shell_run (fun _ => []) (fun _ _ => "") (notes ["a"; "b"])
    [ReadLine "  "; ReadLine "events --limit x --limit 1"; ReadLine "sessions"; ReadLine "get b"; ReadLine "quit"; ReadLine "help"] =
  Some [Table (mkSheet ["id"; "created_at"; "type"; "actor"] [["b"; "t"; "note"; "ann"]]);
        Line "error: internal_error";
        Line "detail: internal error: error returned from database: (code: 1) no such column: actor_id";
        Line "fix: Open a bug with the request id and server logs.";
        Line "id          b"; Line "created_at  t"; Line "event_type  note"; Line "actor_id    ann"; Line "session_id  ";
        Line "payload     {}"].
Proof. by vm_compute. Qed.

(** ** [explain] *)

Section explain.
Context `{SerdeJson}.
(** The column [causal_parent_ids], which migration 0002 adds, and the order of rows
    with one creation time. *)
Context (causal_parent_ids : string -> option string) (scan : list AgentEvent -> list AgentEvent).

Definition explain_parent (l : Ledger) (label pid : string) : string :=
  match events l !! pid with
  | Some r => "  " +:+ label +:+ ": " +:+ ev_event_type (er_event r) +:+ " " +:+ pid +:+ " at " +:+ ev_created_at (er_event r)
  | None => "  " +:+ label +:+ ": " +:+ pid +:+ " (not found)"
  end.
Definition causal_parents (id : string) : list string :=
  match causal_parent_ids id ≫= from_str with Some (JArray arr) => omap as_str arr | _ => [] end.
Definition created_le (a b : AgentEvent) : Prop := cmp_le (cmp:=String.compare) (ev_created_at a) (ev_created_at b) = true.
#[local] Instance created_le_dec a b : Decision (created_le a b).
Proof. unfold created_le. apply _. Defined.
Definition children (l : Ledger) (id : string) : list AgentEvent :=
  take 20 (merge_sort created_le
    (scan (List.filter (fun e => bool_decide (ev_parent_event_id e = Some id)) (List.map (fun kr => er_event kr.2) (map_to_list (events l)))))).
Definition line_if {A} (o : option A) (f : A -> string) : list string := match o with Some a => [f a] | None => [] end.
Definition explain (l : Ledger) (event_id : string) : result CliError (list string) :=
  match events l !! event_id with
  | None => Err (Known (NotFound ("event not found: " +:+ event_id)))
  | Some r =>
      let e := er_event r in
      let payload := ev_payload_inline e ≫= from_str in
      Ok (["Event " +:+ ev_id e +:+ " (" +:+ ev_event_type e +:+ ")"; "  recorded at " +:+ ev_created_at e; "  by actor " +:+ ev_actor_id e]
          ++ line_if (ev_session_id e) (fun s => "  in session " +:+ s)
          ++ line_if (ev_workflow_run_id e) (fun w => "  part of run " +:+ w)
          ++ ["  causality_kind = " +:+ causality_json (ev_causality_kind e); "  sensitivity    = " +:+ sensitivity_json (ev_sensitivity e)]
          ++ line_if (ev_parent_event_id e) (explain_parent l "immediate parent")
          ++ List.map (explain_parent l "causal parent") (causal_parents (ev_id e))
          ++ match children l (ev_id e) with
             | [] => []
             | cs => "  triggered:" :: List.map (fun c => "    - " +:+ ev_event_type c +:+ "  " +:+ ev_id c +:+ "  at " +:+ ev_created_at c) cs
             end
          ++ line_if (ev_tool_call_id e) (fun t => "  tool_call_id   = " +:+ t)
          ++ line_if (ev_model_call_id e) (fun m => "  model_call_id  = " +:+ m)
          ++ line_if (v ← payload; x ← jget "status" v; as_str x) (fun s => "  status         = " +:+ s)
          ++ line_if (v ← payload; x ← jget "took_ms" v; as_u64 x) (fun n => "  duration       = " +:+ show_Z n +:+ "ms"))
  end.

(** The children that are listed are at most twenty events that name the event their
    parent, and all of them when there are no more, the oldest first. *)
Theorem children_spec (l : Ledger) (id : string) : (forall es, scan es ≡ₚ es) ->
  let kids := List.filter (fun e => bool_decide (ev_parent_event_id e = Some id)) (List.map (fun kr => er_event kr.2) (map_to_list (events l))) in
  (length (children l id) = Nat.min 20 (length kids)) /\ children l id ⊆+ kids /\ StronglySorted created_le (children l id) /\
  (forall c x, In c (children l id) -> In x kids -> ~ In x (children l id) -> created_le c x).
Proof.
  intros Hscan kids. unfold children. fold kids. set (s := merge_sort created_le (scan kids)).
  assert (Hp : s ≡ₚ kids) by (unfold s; by rewrite merge_sort_Permutation, Hscan).
  assert (Hs : StronglySorted created_le s).
  { apply StronglySorted_merge_sort; [intros a b c; apply cmp_le_trans|intros a b; apply cmp_le_total]. }
  rewrite <- (take_drop 20 s) in Hs. apply StronglySorted_app in Hs as (Hcross & Hs & _). split; [|split; [|split; [done|]]].
  - by rewrite length_take, (Permutation_length Hp).
  - rewrite <- Hp. apply sublist_submseteq, sublist_take.
  - intros c x Hc Hx Hn. apply Hcross; [by apply list_elem_of_In|]. apply list_elem_of_In.
    rewrite <- Hp, <- (take_drop 20 s) in Hx. apply in_app_iff in Hx as [?|?]; [done|done].
Qed.
End explain.

(** ** [status] *)

Record ServerProbe := mkServerProbe { ready : bool; err : option string }.
(** What the request to the health route answers: a status code with its text, or an error. *)
Definition probe_server (client : result string (result string (Z * string))) : ServerProbe :=
  match client with
  | Err e => mkServerProbe false (Some ("client build: " +:+ e))
  | Ok (Err e) => mkServerProbe false (Some e)
  | Ok (Ok (st, text)) => if (200 <=? st) && (st <? 300) then mkServerProbe true None else mkServerProbe false (Some ("HTTP " +:+ text))
  end.
(** What the store answers once it is open; a query that fails answers nothing. *)
Record StoreAnswers := mkStoreAnswers {
  sa_applied : option (list string); sa_sessions : option Z; sa_events : option Z; sa_last_lsn : option Z
}.
Record StatusReport := mkStatusReport {
  st_server : ServerProbe; st_path : string; st_size : Z; st_open_error : option string; st_applied : list string;
  st_sessions : Z; st_events : Z; st_last_full : option Z; st_last_inc : option Z
}.
Definition status_report (server : ServerProbe) (path : string) (size : option Z) (open : result string StoreAnswers) : StatusReport :=
  match open with
  | Ok a => mkStatusReport server path (default 0 size) None (default [] (sa_applied a)) (default 0 (sa_sessions a))
              (default 0 (sa_events a)) (sa_last_lsn a) (sa_last_lsn a)
  | Err e => mkStatusReport server path (default 0 size) (Some e) [] 0 0 None None
  end.
Definition json_int (n : Z) : Json := JNumber (if 0 <=? n then PosInt n else NegInt n).
Definition json_opt {A} (f : A -> Json) (o : option A) : Json := match o with Some a => f a | None => JNull end.
Definition status_json (r : StatusReport) : Json :=
  jobj [("server", jobj [("url", JString "http://127.0.0.1:4555"); ("ready", JBool (ready (st_server r)));
                         ("error", json_opt JString (err (st_server r)))]);
        ("db", jobj [("path", JString (st_path r)); ("size_bytes", json_int (st_size r));
                     ("open_error", json_opt JString (st_open_error r));
                     ("applied_migrations", JArray (List.map JString (st_applied r)));
                     ("sessions", json_int (st_sessions r)); ("events", json_int (st_events r))]);
        ("backup", jobj [("last_full_lsn", json_opt json_int (st_last_full r));
                         ("last_incremental_lsn", json_opt json_int (st_last_inc r))])].
Definition status_lines (r : StatusReport) : list string :=
  ["Server:";
   if ready (st_server r) then "  http://127.0.0.1:4555  (ready)"
   else "  http://127.0.0.1:4555  (down: " +:+ default "unreachable" (err (st_server r)) +:+ ")";
   ""; "Database:"; "  path:                " +:+ st_path r; "  size:                " +:+ show_Z (st_size r) +:+ " bytes"]
  ++ match st_open_error r with
     | Some e => ["  open error:          " +:+ e]
     | None => ["  applied migrations:  " +:+ join ", " (st_applied r); "  sessions:            " +:+ show_Z (st_sessions r);
                "  events:              " +:+ show_Z (st_events r)]
     end
  ++ [""; "Backup state:";
      match st_last_full r with Some n => "  last LSN captured:   " +:+ show_Z n | None => "  last LSN captured:   (none yet)" end].
(** The two numbers of the backup state are one: the counter of the log, which every
    increment advances, is also reported as that of the last full backup. *)
Lemma status_numbers_agree server path size open :
  st_last_full (status_report server path size open) = st_last_inc (status_report server path size open).
Proof. by destruct open. Qed.

(** ** [migrate --dry-run] *)

Definition pending (applied : list string) : list string :=
  List.filter (fun m => negb (existsb (String.eqb m) applied)) migration_names.

Section dry_run.
Context `{SqlDb}.

Lemma pending_take j : pending (take j migration_names) = drop j migration_names.
Proof. do 6 (destruct j as [|j]; [reflexivity|]). destruct j; reflexivity. Qed.
(** What a dry run lists is exactly what the migration that follows then applies, in
    that order, when it succeeds. *)
Theorem dry_run_lists_what_is_applied (script : string -> string) (what : string) (w w' : MigWorld) (j : nat) :
  recorded w = take j migration_names ->
  exec (run_migrations what (registry script migration_names)) w = (Ok tt, w') ->
  recorded w' = recorded w ++ pending (recorded w).
Proof.
  intros Hr Hm. assert (Hnames : List.map fst (registry script migration_names) = migration_names) by reflexivity.
  assert (Hnd : NoDup (List.map fst (registry script migration_names))) by (rewrite Hnames; apply (bool_decide_eq_true_1 (NoDup _)); by vm_compute).
  unfold run_migrations in Hm. rewrite exec_cons, exec_meta in Hm. destruct (meta_error (meta_calls w)); [done|]. cbn [fst snd] in Hm.
  destruct (migrate_prefix what [] _ (mkMigWorld _ (mg_db w) (recorded w) (S (meta_calls w))) j Hnd) as (k & _ & Hk);
    [exact Hr|simpl; lia|].
  rewrite Hm in Hk. change (recorded w' = take k migration_names) in Hk.
  destruct (migrate_ok _ _ _ _ Hm) as [Hcov _].
  assert (Hlast : is_recorded "0007_replication" w' = true).
  { unfold covered in Hcov. rewrite Forall_forall in Hcov. apply (Hcov ("0007_replication", script "0007_replication")).
    unfold registry, migration_names. simpl. by do 5 right; left. }
  assert (Hk6 : recorded w' = migration_names).
  { unfold is_recorded in Hlast. rewrite Hk in Hlast |- *. do 6 (destruct k as [|k]; [by vm_compute in Hlast|]). by destruct k. }
  rewrite Hk6, Hr, pending_take. by rewrite take_drop.
Qed.
End dry_run.

(** ** The commands of main.rs *)

Inductive BackupMode := Full | Incremental.
Inductive CliCommand :=
| Migrate (dry_run : bool)
| Backup (to : string) (mode : BackupMode)
| RestoreFrom (from : string) (at_lsn : option Z)
| Serve (bind : string) (tls_cert tls_key : option string)
| Dispatch (workspace actor kind input : string)
| Events (session : string)
| Approvals (workspace : string)
| Init (template name dir : option string) (list : bool)
| Status (json : bool)
| Dev (watch_dirs : list string)
| Doctor
| Tail (session kind actor : option string) (follow : bool)
| Watch (expr : string)
| Shell
| Explain (event_id : string)
| Sql (statement : string)
| ExportEvents (format : string) (session out : option string)
| ImportEvents (from : string)
| Upgrade (check : bool)
| Completions (shell : string).

(** Why a process ends early. *)
Inductive Stop := Error (e : CliError) | Panic.
Record CliWorld := mkCliWorld { cli_db : World; consent : Consent; printed : list Out }.

Section main.
Context `{SerdeJson} `{Sha256} `{Regex} `{Env}.
#[local] Abbreviation Cli A := (M CliWorld Stop A).

Definition print (out : list Out) : Cli unit := modify_st (fun w => mkCliWorld (cli_db w) (consent w) (printed w ++ out)).
Definition print_lines (ls : list string) : Cli unit := print (List.map Line ls).
Definition now_ledger : Cli Ledger := fun w => (Ok (ledger (cli_db w)), w).
Definition or_stop {A} (r : result CliError A) : Cli A := lift_result match r with Ok a => Ok a | Err e => Err (Error e) end.
Definition known {A} (r : result ActantError A) : result CliError A := match r with Ok a => Ok a | Err e => Err (Known e) end.

Definition debug_names (l : list string) : string := "[" +:+ join ", " (List.map (fun s => String "034" (s +:+ String "034" "")) l) +:+ "]".
Definition dry_run_lines (applied : list string) : list string :=
  ("dry-run: applied=" +:+ debug_names applied +:+ " pending=" +:+ debug_names (pending applied))
  :: match pending applied with [] => ["nothing to apply"] | _ => [] end.
Definition events_line (e : AgentEvent) : string :=
  ev_created_at e +:+ "  " +:+ pad_right 24 (ev_event_type e) +:+ "  " +:+ default "" (ev_payload_inline e).
Definition apr_le (a b : ApprovalRequest) : Prop := cmp_le (cmp:=String.compare) (apr_created_at a) (apr_created_at b) = true.
#[local] Instance apr_le_dec a b : Decision (apr_le a b).
Proof. unfold apr_le. apply _. Defined.
(** The pending requests of a workspace; [scan] is the order of rows of one instant. *)
Definition pending_approvals (scan : list ApprovalRequest -> list ApprovalRequest) (ws : string) (l : Ledger) : list ApprovalRequest :=
  merge_sort apr_le (scan (List.filter (fun a => String.eqb (apr_workspace_id a) ws && bool_decide (apr_status a = APending))
    (List.map snd (map_to_list (approvals l))))).
Definition approval_line (a : ApprovalRequest) : string :=
  apr_id a +:+ "  tool_call=" +:+ default "" (apr_tool_call_id a) +:+ "  status=" +:+ approval_status_json (apr_status a)
  +:+ "  summary=" +:+ apr_summary a.
Definition approvals_lines (rows : list ApprovalRequest) : list string :=
  match rows with [] => ["(no pending approvals)"] | _ => List.map approval_line rows end.

(** What surrounds the process. *)
Record Around := mkAround {
  pretty : Json -> string; json_error : string -> string; stdin_text : result string string;
  decided_at : string; create_dir_error : option string; write_error : option (string * option string);
  telemetry_var : option string; ci_var : option string; stdin_is_terminal : bool;
  applied_now : option (list string); other_polls : list Ledger; reads : list Readline;
  session_rows : Ledger -> list Session; session_column : Session -> string -> string;
  event_scan : list AgentEvent -> list AgentEvent; approval_scan : list ApprovalRequest -> list ApprovalRequest;
  causal : string -> option string;
  sql_options : result string unit; sql_connect : result string unit;
  sql_fetch : string -> result string (list (list (string * Cell)));
  status_now : StatusReport; machine : Machine_; show_gb : f64 -> string;
  debug_token : Tok -> string; debug_predicate : Predicate -> string
}.
Context (a : Around) (policy : PolicyDoc).
(** The commands that other files model, and those that are not modelled. *)
Context (elsewhere : CliCommand -> Cli unit).

Definition prompt_step : Cli unit := fun w =>
  let '(r, c) := prompt_if_needed (pretty a) (decided_at a) (create_dir_error a) (write_error a)
                   (telemetry_var a) (ci_var a) (stdin_is_terminal a) (consent w) in
  (match r with Ok u => Ok u | Err e => Err (Error e) end, mkCliWorld (cli_db w) c (printed w)).
Definition read_input (input : string) : result CliError Json :=
  text ← (if String.eqb input "-"
          then match stdin_text a with Ok t => Ok t | Err e => Err (Known (InvalidInput ("read stdin: " +:+ e))) end
          else Ok input);
  match from_str text with Some v => Ok v | None => Err (Known (InvalidInput (json_error a text))) end.
Definition outcome_json (o : CommandOutcome) : Json :=
  JObject [("command_id", JString (co_command_id o)); ("event_id", json_opt JString (co_event_id o)); ("result", co_result o)].
(** [Command::Command]: no idempotency key. *)
Definition dispatch_step (ws actor kind input : string) : Cli unit :=
  v ← or_stop (read_input input);
  o ← (fun w => let '(r, db) := dispatch policy ws actor kind v None (cli_db w) in
         (match r with Ok o => Ok o | Err e => Err (Error (Known e)) end, mkCliWorld db (consent w) (printed w)));
  print_lines [pretty a (outcome_json o)].
(** The lines of the events up to the one whose summary panics. *)
Definition print_until_panic (es : list AgentEvent) : Cli unit :=
  let '(ls, panicked) := print_events es in
  print_lines ls;; if (panicked : bool) then throw Panic else mret tt.
Definition sql_out (x : option Sheet * string) : list Out :=
  match x with (Some t, line) => [Table t; Line line] | (None, line) => [Line line] end.

(** Of the parser's errors that carry no message one is a panic, and the other does not
    occur (PredicateParse.parse_total). *)
Definition run_command (c : CliCommand) : Cli unit :=
  match c with
  | Migrate true => print_lines (dry_run_lines (default [] (applied_now a)))
  | Dispatch ws actor kind input => dispatch_step ws actor kind input
  | Events session =>
      l ← now_ledger;
      print_lines (List.map (fun r => events_line (er_event r)) (select_events (in_session session) l))
  | Approvals ws => l ← now_ledger; print_lines (approvals_lines (pending_approvals (approval_scan a) ws l))
  | Status json =>
      print_lines (if json then [pretty a (status_json (status_now a))] else status_lines (status_now a))
  | Doctor => print_lines (doctor (show_gb a) (machine a))
  | Tail session kind actor follow =>
      l ← now_ledger;
      print_until_panic (tail_run session kind actor l (if follow then other_polls a else []))
  | Watch expr =>
      match PredicateParse.parse (debug_token a) expr with
      | Err (PMsg e) => throw (Error (Known (InvalidInput ("parse predicate: " +:+ e))))
      | Err _ => throw Panic
      | Ok p => print_lines ["watching: " +:+ debug_predicate a p];;
                l ← now_ledger;
                print_lines (List.map watch_line (watch_run p (l :: other_polls a)))
      end
  | Shell =>
      l ← now_ledger;
      print_lines ["actantdb shell (read-only). Type `help` for commands. `exit` to quit."];;
      print (default [] (shell_run (session_rows a) (session_column a) l (reads a)))
  | Explain id => l ← now_ledger; out ← or_stop (explain (causal a) (event_scan a) l id); print_lines out
  | Sql statement => out ← or_stop (known (sql_run (sql_options a) (sql_connect a) (sql_fetch a) statement)); print (sql_out out)
  | _ => elsewhere c
  end.
(** [run]: every command but [completions] asks for the choice first. *)
Definition run (c : CliCommand) : Cli unit :=
  match c with Completions _ => mret tt | _ => prompt_step end;; run_command c.
(** [main]: what is printed in the end, and the exit code. *)
Definition main (c : CliCommand) (w : CliWorld) : CliWorld * Z :=
  match run c w with
  | (Ok _, w') => (w', 0)
  | (Err (Error e), w') => (mkCliWorld (cli_db w') (consent w') (printed w' ++ List.map Line (print_public_error e)), 1)
  | (Err Panic, w') => (w', 101)
  end.

(** *** Which commands touch the ledger *)

Definition reads_only (c : CliCommand) : bool :=
  match c with
  | Migrate dry => dry
  | Events _ | Approvals _ | Status _ | Doctor | Tail _ _ _ _ | Watch _ | Shell | Explain _ | Sql _ => true
  | _ => false
  end.
#[local] Abbreviation Same w := (fun w' => cli_db w' = cli_db w).
Lemma print_same w out : preserves (Same w) (print out).
Proof. by intros w' Hw. Qed.
Lemma now_ledger_same w : preserves (Same w) now_ledger.
Proof. by intros w' Hw. Qed.
Lemma prompt_step_same w : preserves (Same w) prompt_step.
Proof. intros w' Hw. unfold prompt_step. by destruct (prompt_if_needed _ _ _ _ _ _ _ _) as [[]]. Qed.
Lemma or_stop_same {A} w (r : result CliError A) : preserves (Same w) (or_stop r).
Proof. apply preserves_lift. Qed.
Lemma print_until_panic_same w es : preserves (Same w) (print_until_panic es).
Proof.
  unfold print_until_panic. destruct (print_events es) as [ls []]; apply preserves_bind; try apply print_same; intros [];
    [apply preserves_throw|apply preserves_ret].
Qed.

(** The commands that only read leave the ledger as it was, whatever they print and
    however they end, a refused statement, a panic and an error included. *)
Theorem readers_change_nothing (c : CliCommand) (w : CliWorld) : reads_only c = true -> cli_db (main c w).1 = cli_db w.
Proof.
  intros Hr. assert (Hrun : cli_db (run c w).2 = cli_db w).
  { apply (preserves_bind (Same w)); [destruct c; try apply preserves_ret; apply prompt_step_same| |done].
    intros []. destruct c as [[]| | | | | | | | | | | | | | | | | | |]; try done; cbn [run_command].
    1, 4, 5: apply print_same.
    1, 2: apply preserves_bind; [apply now_ledger_same|intros ?; apply print_same].
    - apply preserves_bind; [apply now_ledger_same|intros ?; apply print_until_panic_same].
    - destruct (PredicateParse.parse (debug_token a) expr) as [p|[m| |]]; [|apply preserves_throw..]. apply preserves_bind; [apply print_same|intros []].
      apply preserves_bind; [apply now_ledger_same|intros ?; apply print_same].
    - apply preserves_bind; [apply now_ledger_same|intros ?]. apply preserves_bind; [apply print_same|intros []; apply print_same].
    - apply preserves_bind; [apply now_ledger_same|intros ?]. apply preserves_bind; [apply or_stop_same|intros ?; apply print_same].
    - apply preserves_bind; [apply or_stop_same|intros ?; apply print_same]. }
  unfold main. by destruct (run c w) as [[[]|[e|]] w'].
Qed.

(** [command] does to the ledger what the engine's dispatch without a key does, and
    nothing when its input is no JSON or the choice about telemetry cannot be had. *)
Theorem command_is_dispatch (ws actor kind input : string) (w : CliWorld) :
  cli_db (main (Dispatch ws actor kind input) w).1 =
  match (prompt_step w).1, read_input input with
  | Ok _, Ok v => (dispatch policy ws actor kind v None (cli_db w)).2
  | _, _ => cli_db w
  end.
Proof.
  assert (Hm : cli_db (main (Dispatch ws actor kind input) w).1 = cli_db (run (Dispatch ws actor kind input) w).2).
  { unfold main. by destruct (run _ w) as [[[]|[e|]] w']. }
  rewrite Hm. clear Hm. unfold run. unfold mbind at 1, M_bind at 1.
  pose proof (prompt_step_same w w eq_refl) as Hs. destruct (prompt_step w) as [[[]|e] w1]; simpl in Hs; [|done].
  cbn [run_command]. unfold dispatch_step, mbind at 1, M_bind at 1, or_stop, lift_result.
  destruct (read_input input) as [v|e]; [|done]. simpl. unfold mbind at 1, M_bind at 1. rewrite Hs.
  destruct (dispatch policy ws actor kind v None (cli_db w)) as [[o|e] db]; done.
Qed.
End main.
