(* ===== verification/Cloud.v ===== *)
(** * Object stores and destinations in the cloud ([actant-objectstore/src/s3.rs], [ipfs.rs],
    [actant-sync/src/destinations/s3.rs], [gcs.rs], [azure.rs], [ipfs.rs])

    S3, GCS and Azure are reached through the object_store crate and IPFS through
    Kubo's HTTP API; both are parameters, with what they document as laws.  A call
    whose answer is an error may have taken effect.  S3 keeps the contract of
    [BlobStore] (Blob.v); every destination keeps that of the sync runner (Sync.v),
    with the cursor never ahead of the stored events. *)

From S2P Require Import SyncReplayDemo Sdk Backend Prelude Str Json Core Storage Chain Sync SyncFs Blob.
#[local] Open Scope string_scope.
#[local] Open Scope list_scope.
#[local] Open Scope Z_scope.

(** ** The object_store crate *)

(** [object_store::Error]: not found, or anything else with its text. *)
Inductive StoreError := NotThere (path : string) | OtherError (text : string).
(** A client of one bucket; [encode] is the percent-encoding of a path segment. *)
Class ObjectStore (W : Type) := {
  encode : string -> string;
  o_put : string -> string -> M W StoreError unit;
  o_get : string -> M W StoreError string;
  o_delete : string -> M W StoreError unit;
  o_head : string -> M W StoreError unit;
  o_signed_url : string -> M W StoreError string
}.
(** [Path::from]: the segments between slashes, the empty ones dropped, encoded. *)
Definition obj_path `{ObjectStore W} (key : string) : string :=
  join "/" (List.map encode (List.filter (fun s => negb (String.eqb s "")) (split_char "/" key))).

(** What a store documents: [o_objects] is what the bucket holds.  A put replaces the
    object whole, also when its answer is lost. *)
Class ObjectStoreLaws (W : Type) `{ObjectStore W} := {
  o_objects : W -> string -> option string;
  encode_inj : forall a b, encode a = encode b -> a = b;
  encode_nonempty : forall a, a <> "" -> encode a <> "";
  encode_no_slash : forall a, contains_char "/" a = false -> contains_char "/" (encode a) = false;
  o_put_law : forall p b w, let '(r, w') := o_put p b w in
    (forall q, q <> p -> o_objects w' q = o_objects w q) /\
    match r with Ok _ => o_objects w' p = Some b | Err _ => o_objects w' p = o_objects w p \/ o_objects w' p = Some b end;
  o_get_law : forall p w, let '(r, w') := o_get p w in
    (forall q, o_objects w' q = o_objects w q) /\
    match r with Ok b => o_objects w p = Some b | Err (NotThere _) => o_objects w p = None | Err (OtherError _) => True end;
  o_delete_law : forall p w, let '(r, w') := o_delete p w in
    (forall q, q <> p -> o_objects w' q = o_objects w q) /\
    match r with Ok _ | Err (NotThere _) => o_objects w' p = None
               | Err (OtherError _) => o_objects w' p = o_objects w p \/ o_objects w' p = None end;
  o_head_law : forall p w, let '(r, w') := o_head p w in
    (forall q, o_objects w' q = o_objects w q) /\
    match r with Ok _ => is_Some (o_objects w p) | Err (NotThere _) => o_objects w p = None | Err (OtherError _) => True end
}.

(** ** UTF-8, as [str::from_utf8] takes it *)

Definition between (lo hi : Z) (c : Ascii.ascii) : bool := (lo <=? byte c) && (byte c <=? hi).
Fixpoint utf8_valid (s : string) : bool :=
  match s with
  | "" => true
  | String a s1 =>
      if between 0 127 a then utf8_valid s1
      else match s1 with
           | "" => false
           | String b s2 =>
               if between 194 223 a then between 128 191 b && utf8_valid s2
               else match s2 with
                    | "" => false
                    | String c s3 =>
                        if between 224 239 a
                        then between (if byte a =? 224 then 160 else 128) (if byte a =? 237 then 159 else 191) b
                             && between 128 191 c && utf8_valid s3
                        else match s3 with
                             | "" => false
                             | String d s4 =>
                                 between 240 244 a
                                 && between (if byte a =? 240 then 144 else 128) (if byte a =? 244 then 143 else 191) b
                                 && between 128 191 c && between 128 191 d && utf8_valid s4
                             end
                    end
           end
  end.

(** ** [S3Store] *)

Definition s3_blob_err (e : StoreError) : BlobError :=
  match e with NotThere path => BNotFound path | OtherError text => BBackend text end.
Definition s3_uri_for (bucket key : string) : string := "s3://" +:+ bucket +:+ "/" +:+ key.

Section s3_store.
(** [debug] is Rust's [{:?}] of a string, [not_found_text] the text of that error. *)
Context {W : Type} `{ObjectStore W} `{Sha256} (debug not_found_text : string -> string) (bucket : string).

Definition s3_key_from (key_or_uri : string) : result BlobError string :=
  match strip_prefix "s3://" key_or_uri with
  | Some rest =>
      match strip_prefix (bucket +:+ "/") rest with
      | Some k => Ok k
      | None => Err (InvalidKey ("URI " +:+ debug key_or_uri +:+ " is for a different bucket (this store is " +:+ debug bucket +:+ ")"))
      end
  | None => Ok key_or_uri
  end.
(** An answer of not found that is an answer. *)
Definition or_missing {A} (missing : A) (found : A) (m : M W StoreError unit) : M W BlobError A := fun w =>
  let '(r, w') := m w in
  (match r with Ok _ => Ok found | Err (NotThere _) => Ok missing | Err (OtherError text) => Err (BBackend text) end, w').
Definition s3_store : BlobStore W := {|
  put := fun key body =>
    map_err s3_blob_err (o_put (obj_path key) body);;
    mret (mkBlobRef (s3_uri_for bucket key) (str_len body) (sha256_hex body));
  get := fun loc => key ← lift_result (s3_key_from loc); map_err s3_blob_err (o_get (obj_path key));
  delete_blob := fun loc => key ← lift_result (s3_key_from loc); or_missing tt tt (o_delete (obj_path key));
  exists_blob := fun loc => key ← lift_result (s3_key_from loc); or_missing false true (o_head (obj_path key));
  presign_get := fun loc =>
    key ← lift_result (s3_key_from loc);
    url ← map_err (fun e => BBackend match e with NotThere path => not_found_text path | OtherError text => text end) (o_signed_url (obj_path key));
    mret (Some url)
|}.
End s3_store.

(** ** The destinations *)

Section destination.
(** The name, and how an object is put and got: none when it is not there. *)
Context {W : Type} (name : string) (d_put : string -> string -> M W SyncError unit)
  (d_get : string -> M W SyncError (option string)) `{EventJson} (utf8_error : string -> string).

Definition cursor_of_bytes (bytes : string) : result SyncError (option string) :=
  if utf8_valid bytes then Ok (if String.eqb (trim bytes) "" then None else Some (trim bytes))
  else Err (Backend name ("cursor not UTF-8: " +:+ utf8_error bytes)).
Definition cloud_cursor (ws : string) : M W SyncError (option string) :=
  o ← d_get (cursor_key ws);
  match o with Some bytes => lift_result (cursor_of_bytes bytes) | None => mret None end.
Definition encoded (e : AgentEvent) : M W SyncError string :=
  lift_result match event_json e with Ok b => Ok b | Err msg => Err (Serialize msg) end.
Fixpoint put_events (ws : string) (batch : list AgentEvent) : M W SyncError unit :=
  match batch with
  | [] => mret tt
  | e :: batch' => body ← encoded e; d_put (key_for ws e) body;; put_events ws batch'
  end.
Definition cloud_push (ws : string) (since : option string) (batch : list AgentEvent) : M W SyncError (option string) :=
  match last batch with
  | None => cloud_cursor ws
  | Some final => put_events ws batch;; d_put (cursor_key ws) (ev_id final);; mret (Some (ev_id final))
  end.
End destination.

(** GCS and Azure, over the client itself. *)
Section direct.
Context {W : Type} `{ObjectStore W} (name : string) (not_found_text : string -> string).
Definition store_err (e : StoreError) : SyncError :=
  Backend name match e with NotThere path => not_found_text path | OtherError text => text end.
Definition direct_put (key body : string) : M W SyncError unit := map_err store_err (o_put (obj_path key) body).
Definition direct_get (key : string) : M W SyncError (option string) := fun w =>
  let '(r, w') := o_get (obj_path key) w in
  (match r with Ok b => Ok (Some b) | Err (NotThere _) => Ok None | Err e => Err (store_err e) end, w').
End direct.

(** S3, over its blob store. *)
Section over_blobs.
Context {W : Type} (B : BlobStore W) (name : string).
Definition blob_put (key body : string) : M W SyncError unit :=
  map_err (fun e => Backend "objectstore" (blob_display e)) (put B key body);; mret tt.
Definition blob_get (key : string) : M W SyncError (option string) := fun w =>
  let '(r, w') := get B key w in
  (match r with Ok b => Ok (Some b) | Err (BNotFound _) => Ok None | Err e => Err (Backend name (blob_display e)) end, w').
End over_blobs.

(** ** Places of keys *)

Section places.
Context {W : Type} `{ObjectStoreLaws W}.

Definition slash_free (s : string) : Prop := contains_char "/" s = false.
Lemma split_join l : l <> [] -> Forall slash_free l -> split_char "/" (join "/" l) = l.
Proof.
  induction l as [|x [|y l] IH]; intros Hne Hl; [done| |]; inversion Hl as [|? ? Hx Hl']; subst; [by apply split_char_none|].
  cbn [join]. change ("/" +:+ ?s) with (String "/" s). rewrite split_char_app by exact Hx. f_equal. by apply IH.
Qed.
Lemma split_slash_free s : Forall slash_free (split_char "/" s).
Proof.
  induction s as [|a s IH]; cbn [split_char]; [by constructor|]. destruct (Ascii.eqb a "/") eqn:Ha; [by constructor|].
  destruct (split_char "/" s) as [|h t]; [constructor; [|done]; unfold slash_free; simpl; by rewrite Ha|].
  inversion IH; subst. constructor; [|done]. unfold slash_free in *. simpl. by rewrite Ha.
Qed.
Lemma split_snoc p k : slash_free k -> exists l, split_char "/" (p +:+ String "/" k) = l ++ [k].
Proof.
  intros Hk. induction p as [|a p [l IH]]; [rewrite append_nil|rewrite append_cons]; cbn [split_char].
  - exists [""]. by rewrite (split_char_none _ _ Hk).
  - rewrite IH. destruct (Ascii.eqb a "/"); [by exists ("" :: l)|]. destruct l as [|h t]; [|by exists (String a h :: t)].
    exfalso. pose proof (join_split_char "/" (p +:+ String "/" k)) as Hj. rewrite IH in Hj. simpl in Hj.
    unfold slash_free in Hk. rewrite Hj, contains_char_app in Hk. simpl in Hk. by rewrite orb_true_r in Hk.
Qed.
Definition segments (key : string) : list string := List.filter (fun s => negb (String.eqb s "")) (split_char "/" key).
Lemma obj_path_segments a b : obj_path a = obj_path b -> segments a <> [] -> segments b <> [] -> segments a = segments b.
Proof.
  intros Hp Ha Hb. unfold obj_path in Hp. fold (segments a) (segments b) in Hp.
  assert (Hfree : forall k, Forall slash_free (List.map encode (segments k))).
  { intros k. apply Forall_forall. intros s (x & -> & Hx)%list_elem_of_fmap. apply encode_no_slash.
    apply list_elem_of_In, filter_In in Hx as [Hx _]. pose proof (split_slash_free k) as Hs. rewrite Forall_forall in Hs.
    by apply Hs, list_elem_of_In. }
  apply (f_equal (split_char "/")) in Hp. rewrite (split_join (List.map encode (segments a))), (split_join (List.map encode (segments b))) in Hp
    by (apply Hfree || by (destruct (segments a); done) || by (destruct (segments b); done)).
  revert Hp. generalize (segments a) (segments b). clear -H0. intros l. induction l as [|x l IH]; intros [|y l'] Heq; try done.
  cbn [List.map] in Heq. injection Heq as Hx Heq. by rewrite (encode_inj _ _ Hx), (IH l').
Qed.
Lemma segments_snoc p k : slash_free k -> k <> "" -> exists l, segments (p +:+ String "/" k) = l ++ [k].
Proof.
  intros Hf Hk. destruct (split_snoc p k Hf) as [l Hl]. unfold segments. rewrite Hl, List.filter_app. simpl.
  rewrite (proj2 (String.eqb_neq _ _) Hk). by eexists.
Qed.
(** Keys at one place have one last segment. *)
Lemma same_place p k q j : slash_free k -> k <> "" -> slash_free j -> j <> "" ->
  obj_path (p +:+ String "/" k) = obj_path (q +:+ String "/" j) -> k = j.
Proof.
  intros Hk Hk0 Hj Hj0 Hp. destruct (segments_snoc p k Hk Hk0) as [l Hl]. destruct (segments_snoc q j Hj Hj0) as [l' Hl'].
  apply obj_path_segments in Hp; [|rewrite Hl; by destruct l|rewrite Hl'; by destruct l'].
  rewrite Hl, Hl' in Hp. by apply app_inj_tail in Hp as [_ ?].
Qed.

Lemma sanitize_slash_free s : slash_free (sanitize s).
Proof.
  unfold slash_free. induction s as [|c s IH]; [done|]. cbn [sanitize]. destruct (continuation c); [done|]. cbn [contains_char].
  rewrite IH, orb_false_r. destruct (safe_char c) eqn:Hc; [|done]. destruct (Ascii.eqb_spec c "/") as [->|]; [by vm_compute in Hc|done].
Qed.
Lemma key_split ws e : key_for ws e = (sanitize ws +:+ "/" +:+ partition_of e) +:+ String "/" (sanitize (ev_id e) +:+ ".json").
Proof. unfold key_for. by rewrite !append_assoc. Qed.
Lemma file_slash_free e : slash_free (sanitize (ev_id e) +:+ ".json").
Proof. unfold slash_free. rewrite contains_char_app. by rewrite sanitize_slash_free. Qed.
Lemma file_nonempty e : sanitize (ev_id e) +:+ ".json" <> "".
Proof. by destruct (sanitize (ev_id e)). Qed.
Lemma key_place_inj ws a b : fs_storable a -> fs_storable b -> obj_path (key_for ws a) = obj_path (key_for ws b) -> ev_id a = ev_id b.
Proof.
  intros [Ha _] [Hb _]. rewrite !key_split. intros Hp. apply same_place in Hp; try apply file_slash_free; try apply file_nonempty.
  apply append_inj_r in Hp. by rewrite !sanitize_safe in Hp.
Qed.
Lemma key_place_cursor ws e ws' : obj_path (key_for ws e) <> obj_path (cursor_key ws').
Proof.
  rewrite key_split. unfold cursor_key. change (sanitize ws' +:+ "/_cursor.txt") with (sanitize ws' +:+ String "/" "_cursor.txt").
  intros Hp. apply same_place in Hp; [|apply file_slash_free|apply file_nonempty|done|done].
  assert (Hsuf : has_suffix "json" "_cursor.txt") by (rewrite <- Hp; exists (sanitize (ev_id e) +:+ "."); by rewrite append_assoc).
  apply (has_suffix_ne "json" ".txt" "_cursor.txt" "_cursor.txt"); try done. by exists "_cursor".
Qed.
Lemma cursor_no_colon ws : contains_char ":" (cursor_key ws) = false.
Proof.
  unfold cursor_key. rewrite contains_char_app. change (contains_char ":" "/_cursor.txt") with false. rewrite orb_false_r.
  induction ws as [|c s IH]; [done|]. cbn [sanitize]. destruct (continuation c); [done|]. cbn [contains_char].
  rewrite IH, orb_false_r. destruct (safe_char c) eqn:Hc; [|done]. destruct (Ascii.eqb_spec c ":") as [->|]; [by vm_compute in Hc|done].
Qed.
End places.

(** ** The contract of the runner *)

Section contract.
Context {W : Type} `{ObjectStoreLaws W} `{EventJson} (name : string) (utf8_error : string -> string)
  (d_put : string -> string -> M W SyncError unit) (d_get : string -> M W SyncError (option string)).

(** What putting and getting an object by its key come to. *)
Record puts_and_gets : Prop := {
  d_put_law : forall k b w, let '(r, w') := d_put k b w in
    (forall q, q <> obj_path k -> o_objects w' q = o_objects w q) /\
    match r with Ok _ => o_objects w' (obj_path k) = Some b
               | Err _ => o_objects w' (obj_path k) = o_objects w (obj_path k) \/ o_objects w' (obj_path k) = Some b end;
  d_get_law : forall k w, contains_char ":" k = false -> let '(r, w') := d_get k w in
    (forall q, o_objects w' q = o_objects w q) /\
    match r with Ok o => o = o_objects w (obj_path k) | Err _ => True end
}.
Context (Hlaws : puts_and_gets).

Definition cloud_holds (w : W) (ws : string) (e : AgentEvent) : Prop :=
  exists body, event_json e = Ok body /\ o_objects w (obj_path (key_for ws e)) = Some body.
Definition cloud_cur (w : W) (ws : string) : option string :=
  s ← o_objects w (obj_path (cursor_key ws));
  if utf8_valid s && negb (String.eqb (trim s) "") then Some (trim s) else None.

Lemma put_event_spec ws x w :
  let '(r, w') := (body ← encoded x; d_put (key_for ws x) body) w in
  cloud_cur w' ws = cloud_cur w ws /\
  (forall e, fs_storable e -> fs_storable x -> cloud_holds w ws e -> (ev_id x = ev_id e -> x = e) -> cloud_holds w' ws e) /\
  (r = Ok tt -> cloud_holds w' ws x).
Proof.
  unfold mbind, M_bind, encoded, lift_result. destruct (event_json x) as [b|msg] eqn:Hj; simpl; [|split; [done|]; split; [|done]; intros; done].
  pose proof (d_put_law Hlaws (key_for ws x) b w) as Hp. destruct (d_put _ b w) as [r w']. destruct Hp as [Hother Hr]. split; [|split].
  - unfold cloud_cur. rewrite Hother; [done|]. intros Heq. by apply (key_place_cursor ws x ws).
  - intros e He Hx (body & Hbody & Hf) Hsame. destruct (decide (obj_path (key_for ws e) = obj_path (key_for ws x))) as [Heq|Hne].
    + assert (x = e) as <- by (apply Hsame; symmetry; by apply (key_place_inj ws)).
      exists b. split; [done|]. destruct r as [[]|]; [done|]. destruct Hr as [->|?]; [congruence|done].
    + exists body. split; [done|]. by rewrite Hother.
  - intros ->. by exists b.
Qed.
Lemma put_events_spec ws batch w :
  Forall fs_storable batch -> NoDup (List.map ev_id batch) ->
  let '(r, w') := put_events d_put ws batch w in
  cloud_cur w' ws = cloud_cur w ws /\
  (forall e, fs_storable e -> cloud_holds w ws e -> (forall x, In x batch -> ev_id x = ev_id e -> x = e) -> cloud_holds w' ws e) /\
  (r = Ok tt -> forall e, In e batch -> cloud_holds w' ws e).
Proof.
  revert w. induction batch as [|x batch IH]; intros w Hst Hnd; cbn [put_events].
  { split; [done|]. split; [auto|]. by intros _ e []. }
  apply Forall_cons in Hst as [Hx Hst]. apply NoDup_cons in Hnd as [Hnin Hnd].
  assert (Heq : (body ← encoded x; d_put (key_for ws x) body;; put_events d_put ws batch) w =
                ((body ← encoded x; d_put (key_for ws x) body) ≫= fun _ => put_events d_put ws batch) w).
  { unfold mbind, M_bind, encoded, lift_result. by destruct (event_json x). }
  rewrite Heq. clear Heq. pose proof (put_event_spec ws x w) as Hw. unfold mbind at 1, M_bind at 1.
  destruct ((body ← encoded x; d_put (key_for ws x) body) w) as [[[]|err] w1]; destruct Hw as (Hc & Hk & Hok).
  2:{ split; [done|]. split; [|done]. intros e He Hh Hs. apply Hk; try done. apply Hs. by left. }
  specialize (IH w1 Hst Hnd). destruct (put_events d_put ws batch w1) as [r w'].
  destruct IH as (Hc' & Hk' & Hok'). split; [congruence|]. split.
  - intros e He Hh Hs. apply Hk'; [done| |intros y Hy; apply Hs; by right]. apply Hk; try done. apply Hs. by left.
  - intros -> e [<-|Hin]; [|by apply Hok']. apply Hk'; [done|by apply Hok|].
    intros y Hy Heq. exfalso. apply Hnin. rewrite <- Heq. apply list_elem_of_In, in_map, Hy.
Qed.

Lemma safe_is_utf8 s : all_chars safe_char s = true -> utf8_valid s = true.
Proof.
  induction s as [|c s IH]; [done|]. simpl. intros [Hc Hs]%andb_true_iff. rewrite (IH Hs).
  enough (between 0 127 c = true) as -> by done.
  destruct c as [[] [] [] [] [] [] [] []]; vm_compute in Hc |- *; congruence.
Qed.

(** Pushing to a destination in the cloud: what was stored stays; after a success
    the batch is stored and the cursor is its last event; after an error the cursor is
    where it was, or, when only the answer was lost, at the last event of a batch that
    is stored whole. *)
Lemma cloud_push_keeps ws since batch w :
  batch <> [] -> Forall fs_storable batch -> NoDup (List.map ev_id batch) ->
  let '(r, w') := cloud_push name d_put d_get utf8_error ws since batch w in
  (forall e, fs_storable e -> cloud_holds w ws e -> (forall x, In x batch -> ev_id x = ev_id e -> x = e) -> cloud_holds w' ws e) /\
  let moved := cloud_cur w' ws = ev_id <$> last batch /\ forall e, In e batch -> cloud_holds w' ws e in
  match r with
  | Ok c => c = ev_id <$> last batch /\ moved
  | Err _ => cloud_cur w' ws = cloud_cur w ws \/ moved
  end.
Proof.
  intros Hne Hst Hnd. unfold cloud_push. destruct (last batch) as [final|] eqn:Hlast; [|by apply last_None in Hlast].
  pose proof (put_events_spec ws batch w Hst Hnd) as Hw. unfold mbind at 1, M_bind at 1.
  destruct (put_events d_put ws batch w) as [[[]|err] w1]; destruct Hw as (Hc & Hk & Hok); [|split; [auto|by left]].
  unfold mbind, M_bind. pose proof (d_put_law Hlaws (cursor_key ws) (ev_id final) w1) as Hp.
  assert (Hfin : fs_storable final).
  { rewrite Forall_forall in Hst. apply Hst. apply last_Some in Hlast as [l ->]. apply elem_of_app. right. by left. }
  destruct Hfin as [Hsafe Hnonempty].
  destruct (d_put (cursor_key ws) (ev_id final) w1) as [r w2]. destruct Hp as [Hother Hr].
  assert (Hh : forall e, cloud_holds w1 ws e -> cloud_holds w2 ws e).
  { intros e (body & Hb & Hf). exists body. split; [done|]. rewrite Hother; [done|apply key_place_cursor]. }
  assert (Hmoved : o_objects w2 (obj_path (cursor_key ws)) = Some (ev_id final) -> cloud_cur w2 ws = Some (ev_id final)).
  { intros Hf. unfold cloud_cur. rewrite Hf. simpl. rewrite safe_is_utf8, trim_safe by done.
    by rewrite (proj2 (String.eqb_neq _ _) Hnonempty). }
  destruct r as [[]|err]; (split; [intros; by apply Hh, Hk|]).
  - split; [done|]. split; [by apply Hmoved|]. intros e He. apply Hh, Hok; done.
  - destruct Hr as [Hr|Hr]; [left; unfold cloud_cur; rewrite Hr; exact Hc|right]. split; [by apply Hmoved|].
    intros e He. apply Hh, Hok; done.
Qed.
Lemma cloud_cursor_reads ws w : let '(r, w') := cloud_cursor name d_get utf8_error ws w in
  cloud_cur w' ws = cloud_cur w ws /\ (forall e, cloud_holds w ws e -> cloud_holds w' ws e) /\ (forall c, r = Ok c -> c = cloud_cur w ws).
Proof.
  unfold cloud_cursor, mbind, M_bind. pose proof (d_get_law Hlaws (cursor_key ws) w (cursor_no_colon ws)) as Hg.
  destruct (d_get (cursor_key ws) w) as [[o|e] w1]; destruct Hg as [Hsame Hr].
  - assert (Hk : cloud_cur w1 ws = cloud_cur w ws /\ forall e, cloud_holds w ws e -> cloud_holds w1 ws e).
    { split; [unfold cloud_cur; by rewrite Hsame|]. intros e (b & Hb & Hf). exists b. by rewrite Hsame. }
    destruct Hk as [Hk1 Hk2]. subst o. unfold cloud_cur at 3. destruct (o_objects w (obj_path (cursor_key ws))) as [s|] eqn:Ho; simpl.
    + split; [done|]. split; [done|]. intros c. unfold cursor_of_bytes. destruct (utf8_valid s); [|done]. intros [= <-]. simpl.
      by destruct (String.eqb (trim s) "").
    + split; [done|]. split; [done|]. by intros c [= <-].
  - split; [unfold cloud_cur; by rewrite Hsame|]. split; [|done]. intros x (b & Hb & Hf). exists b. by rewrite Hsame.
Qed.
End contract.

(** *** The clients put and get *)

Section clients.
Context {W : Type} `{ObjectStoreLaws W}.

Lemma direct_lawful name not_found_text : puts_and_gets (direct_put (W:=W) name not_found_text) (direct_get name not_found_text).
Proof.
  split.
  - intros k b w. unfold direct_put, map_err. pose proof (o_put_law (obj_path k) b w) as Hp.
    destruct (o_put (obj_path k) b w) as [[[]|e] w']; apply Hp.
  - intros k w _. unfold direct_get. pose proof (o_get_law (obj_path k) w) as Hg.
    destruct (o_get (obj_path k) w) as [[b|[p|t]] w']; destruct Hg as [Hs Hr]; (split; [done|]); by rewrite ?Hr.
Qed.

Context `{Sha256} (debug not_found_text : string -> string) (bucket : string).
#[local] Abbreviation s3 := (s3_store (W:=W) debug not_found_text bucket).

Lemma s3_key_from_key k : contains_char ":" k = false -> s3_key_from debug bucket k = Ok k.
Proof.
  intros Hk. unfold s3_key_from. destruct (strip_prefix "s3://" k) as [r|] eqn:Hp; [|done].
  apply strip_prefix_Some in Hp. rewrite Hp, contains_char_app in Hk. done.
Qed.
Lemma s3_key_from_uri k : s3_key_from debug bucket (s3_uri_for bucket k) = Ok k.
Proof. unfold s3_key_from, s3_uri_for. rewrite strip_prefix_app. by rewrite <- append_assoc, strip_prefix_app. Qed.
Lemma s3_lawful name : puts_and_gets (blob_put s3) (blob_get s3 name).
Proof.
  split.
  - intros k b w. unfold blob_put, map_err, mbind, M_bind. simpl. unfold map_err, mbind, M_bind.
    pose proof (o_put_law (obj_path k) b w) as Hp. destruct (o_put (obj_path k) b w) as [[[]|e] w']; apply Hp.
  - intros k w Hk. unfold blob_get. simpl. unfold mbind, M_bind, lift_result, map_err. rewrite (s3_key_from_key k Hk).
    pose proof (o_get_law (obj_path k) w) as Hg.
    destruct (o_get (obj_path k) w) as [[b|[p|t]] w']; destruct Hg as [Hs Hr]; simpl; (split; [done|]); by rewrite ?Hr.
Qed.

(** *** S3 as a blob store *)

(** Keys of one segment, such as a hexadecimal hash. *)
Definition s3_valid (k : string) : Prop := slash_free k /\ k <> "" /\ contains_char ":" k = false.
Definition s3_objects (w : W) (k : string) : option string := o_objects w (obj_path k).
Lemma valid_place k : s3_valid k -> obj_path k = encode k.
Proof.
  intros (Hk & Hn & _). unfold obj_path. rewrite (split_char_none _ _ Hk). simpl. by rewrite (proj2 (String.eqb_neq _ _) Hn).
Qed.
Lemma valid_places k k' : s3_valid k -> s3_valid k' -> k' <> k -> obj_path k' <> obj_path k.
Proof. intros Hk Hk' Hne. rewrite !valid_place by done. intros Heq. by apply Hne, encode_inj. Qed.
Lemma s3_locates k loc : s3_valid k -> locates (s3_uri_for bucket) k loc -> s3_key_from debug bucket loc = Ok k.
Proof. intros Hv [->| ->]; [by apply s3_key_from_key, Hv|apply s3_key_from_uri]. Qed.

(** The S3 store keeps the contract of [BlobStore] for keys of one segment, by key and
    by URI, whichever of its requests fail; a request whose answer was lost may have
    been done. *)
Theorem s3_store_ok : store_ok s3 s3_objects s3_valid (s3_uri_for bucket) True.
Proof.
  assert (Hfailed : forall k o w w', s3_valid k -> (forall q, q <> obj_path k -> o_objects w' q = o_objects w q) ->
    o_objects w' (obj_path k) = o_objects w (obj_path k) \/ o_objects w' (obj_path k) = o ->
    failed s3_objects s3_valid True k o w w').
  { unfold failed, s3_objects. intros k o w w' Hv Ho [Hs|Hs]; [left|right].
    - intros k' Hv'. destruct (decide (k' = k)) as [->|Hne]; [done|]. by apply Ho, valid_places.
    - split; [done|]. split; [done|]. intros k' Hv' Hne. by apply Ho, valid_places. }
  split; simpl; unfold mbind, M_bind, lift_result, map_err.
  - intros k body w Hv. pose proof (o_put_law (obj_path k) body w) as Hp.
    destruct (o_put (obj_path k) body w) as [[[]|e] w']; destruct Hp as [Ho Hr]; simpl; [|by apply Hfailed].
    split; [done|]. split; [done|]. intros k' Hv' Hne. by apply Ho, valid_places.
  - intros k loc w Hv Hl. rewrite (s3_locates k loc Hv Hl). pose proof (o_get_law (obj_path k) w) as Hg.
    destruct (o_get (obj_path k) w) as [[b|[p|t]] w']; destruct Hg as [Hs Hr]; simpl; (split; [intros k' _; apply Hs|done]).
  - intros k loc w Hv Hl. rewrite (s3_locates k loc Hv Hl). unfold or_missing. pose proof (o_delete_law (obj_path k) w) as Hd.
    destruct (o_delete (obj_path k) w) as [[[]|[p|t]] w']; destruct Hd as [Ho Hr]; simpl; [| |by apply Hfailed].
    1, 2: (split; [done|]; intros k' Hv' Hne; by apply Ho, valid_places).
  - intros k loc w Hv Hl. rewrite (s3_locates k loc Hv Hl). unfold or_missing. pose proof (o_head_law (obj_path k) w) as Hh.
    destruct (o_head (obj_path k) w) as [[[]|[p|t]] w']; destruct Hh as [Hs Hr]; simpl; (split; [intros k' _; apply Hs|]); [|by unfold s3_objects; rewrite Hr|done].
    symmetry. by apply bool_decide_eq_true.
Qed.
End clients.
(** Two keys of one object have two URIs. *)
Example two_uris_one_object `{ObjectStore W} : obj_path "a//b" = obj_path "a/b" /\ s3_uri_for "x" "a//b" <> s3_uri_for "x" "a/b".
Proof. split; [reflexivity|done]. Qed.

(** ** Building the clients *)

(** The settings given to a builder, in the order of the calls. *)
Inductive Setting :=
| WithBucketName (bucket : string) | WithAllowHttp (allow : bool) | WithRegion (region : string)
| WithEndpoint (endpoint : string) | WithAccessKeyId (id : string) | WithSecretAccessKey (key : string)
| WithServiceAccountPath (path : string) | WithServiceAccountKey (key : string)
| WithAccount (account : string) | WithContainerName (container : string) | WithAccessKey (key : string).
Definition setting {A} (o : option A) (f : A -> Setting) : list Setting :=
  match o with Some x => [f x] | None => [] end.

Record S3Config := mkS3Config {
  s3_bucket : string; s3_region : option string; s3_endpoint : option string; s3_access_key_id : option string;
  s3_secret_access_key : option string; s3_allow_http : bool
}.
Definition new_s3_config (bucket : string) : S3Config := mkS3Config bucket None None None None false.
Record GcsConfig := mkGcsConfig {
  gcs_bucket : string; gcs_service_account_path : option string; gcs_service_account_key : option string
}.
Definition new_gcs_config (bucket : string) : GcsConfig := mkGcsConfig bucket None None.
Record AzureConfig := mkAzureConfig {
  az_account : string; az_container : string; az_access_key : option string; az_allow_http : bool
}.
Definition new_azure_config (account container : string) : AzureConfig := mkAzureConfig account container None false.

Section build.
(** [s3_build] starts at [AmazonS3Builder::new()], which does not read the
    environment; the others start [from_env]. *)
Context {C : Type} (s3_build gcs_build azure_build : list Setting -> result string C).

Definition s3_from_config (c : S3Config) : result BlobError (string * C) :=
  match s3_build ([WithBucketName (s3_bucket c); WithAllowHttp (s3_allow_http c)]
                  ++ setting (s3_region c) WithRegion ++ setting (s3_endpoint c) WithEndpoint
                  ++ setting (s3_access_key_id c) WithAccessKeyId ++ setting (s3_secret_access_key c) WithSecretAccessKey) with
  | Ok inner => Ok (s3_bucket c, inner)
  | Err e => Err (BBackend ("AmazonS3Builder: " +:+ e))
  end.
Definition s3_destination_from_config (c : S3Config) : result SyncError (string * C) :=
  match s3_from_config c with Ok store => Ok store | Err e => Err (Backend "objectstore" (blob_display e)) end.
Definition gcs_from_config (c : GcsConfig) : result SyncError (string * C) :=
  match gcs_build ([WithBucketName (gcs_bucket c)] ++ setting (gcs_service_account_path c) WithServiceAccountPath
                   ++ setting (gcs_service_account_key c) WithServiceAccountKey) with
  | Ok inner => Ok (gcs_bucket c, inner)
  | Err e => Err (Backend "gcs" ("GoogleCloudStorageBuilder: " +:+ e))
  end.
Definition azure_from_config (c : AzureConfig) : result SyncError (string * string * C) :=
  match azure_build ([WithAccount (az_account c); WithContainerName (az_container c); WithAllowHttp (az_allow_http c)]
                     ++ setting (az_access_key c) WithAccessKey) with
  | Ok inner => Ok (az_account c, az_container c, inner)
  | Err e => Err (Backend "azure" ("MicrosoftAzureBuilder: " +:+ e))
  end.
End build.

(** ** The destinations as such *)

Definition cloud_destination {W : Type} `{EventJson} (name : string) (d_put : string -> string -> M W SyncError unit)
    (d_get : string -> M W SyncError (option string)) (utf8_error : string -> string) : Destination W :=
  {| push := cloud_push name d_put d_get utf8_error; cursor := cloud_cursor name d_get utf8_error |}.

Section instances.
Context {W : Type} `{ObjectStoreLaws W} `{EventJson} (utf8_error : string -> string).

#[program] Definition cloud_laws name d_put d_get (Hlaws : puts_and_gets d_put d_get) :
    @DestinationLaws W (cloud_destination name d_put d_get utf8_error) :=
  {| cur := cloud_cur; holds := cloud_holds; storable := fs_storable |}.
Next Obligation. intros name d_put d_get Hlaws ws w. by eapply cloud_cursor_reads. Qed.
Next Obligation.
  intros name d_put d_get Hlaws ws since batch w Hne Hst Hnd. simpl.
  pose proof (cloud_push_keeps name utf8_error d_put d_get Hlaws ws since batch w Hne Hst Hnd) as Hp.
  destruct (cloud_push _ _ _ _ _ _ _ w) as [[c|e] w']; [|done]. destruct Hp as (? & -> & ? & ?). done.
Qed.

Context (not_found_text debug : string -> string).
Definition gcs_destination : Destination W := cloud_destination "gcs" (direct_put "gcs" not_found_text) (direct_get "gcs" not_found_text) utf8_error.
Definition azure_destination : Destination W := cloud_destination "azure" (direct_put "azure" not_found_text) (direct_get "azure" not_found_text) utf8_error.
Definition s3_destination `{Sha256} (bucket : string) : Destination W :=
  let s3 := s3_store debug not_found_text bucket in cloud_destination "s3" (blob_put s3) (blob_get s3 "s3") utf8_error.
#[export] Instance gcs_laws : @DestinationLaws W gcs_destination := cloud_laws _ _ _ (direct_lawful _ _).
#[export] Instance azure_laws : @DestinationLaws W azure_destination := cloud_laws _ _ _ (direct_lawful _ _).
#[export] Instance s3_laws `{Sha256} bucket : @DestinationLaws W (s3_destination bucket) := cloud_laws _ _ _ (s3_lawful _ _ _ _).
End instances.

(** ** IPFS *)

(** A Kubo node behind its HTTP API: [post] sends a request with or without a file, by
    its name and bytes, and answers a status and a body, whose bytes may fail to come. *)
Class Kubo (W : Type) := post : string -> option (string * string) -> M W string (Z * result string string).
Record IpfsConfig := mkIpfsConfig { ipfs_base_url : string; ipfs_gateway : option string }.
Definition default_ipfs_config : IpfsConfig := mkIpfsConfig "http://localhost:5001" None.

(** A call whose outcome is dropped. *)
Definition ignoring {W E E' A} (m : M W E A) : M W E' unit := fun w => (Ok tt, (m w).2).
Section ipfs_store.
(** [client_build] is building the HTTP client, [debug] Rust's [{:?}] of a string,
    [show_status] a status with its reason, [serde_error] serde's text, [url_parse]
    [Url::parse] and [lossy] the lossy decoding of UTF-8. *)
Context {W : Type} `{Kubo W} `{Sha256} `{SerdeJson} (debug : string -> string) (show_status : Z -> string)
  (serde_error lossy : string -> string) (url_parse : string -> result string string) (config : IpfsConfig).

Definition ipfs_new {C} (client_build : result string C) (c : IpfsConfig) : result BlobError (IpfsConfig * C) :=
  match client_build with Ok client => Ok (c, client) | Err e => Err (BBackend ("reqwest client: " +:+ e)) end.

Definition cid_from (key_or_uri : string) : result BlobError string :=
  match strip_prefix "ipfs://" key_or_uri with
  | Some rest =>
      let cid := default "" (head (split_char "/" rest)) in
      if String.eqb cid "" then Err (InvalidKey ("URI " +:+ debug key_or_uri +:+ " has no CID")) else Ok cid
  | None => Ok key_or_uri
  end.
Definition api (path : string) : string := trim_end_matches "/" (ipfs_base_url config) +:+ "/api/v0/" +:+ path.
Definition refused (what : string) (st : Z) (b : result string string) : BlobError :=
  BBackend ("kubo " +:+ what +:+ " returned " +:+ show_status st +:+ ": "
            +:+ match b with Ok text => lossy text | Err _ => "" end).
Definition read_body (b : result string string) : result BlobError string :=
  match b with Ok bytes => Ok bytes | Err e => Err (BBackend e) end.
(** [AddResponse]. *)
Definition add_response (v : Json) : option string :=
  match struct_fields [("Hash", false)] v with Some [h] => de as_str h | _ => None end.
Definition parse_add (text : string) : result BlobError string :=
  let first := default "" (head (lines text)) in
  match from_str first ≫= add_response with
  | Some hash => Ok hash
  | None => Err (BBackend ("kubo response parse: " +:+ serde_error first +:+ " (body=" +:+ text +:+ ")"))
  end.

Definition ipfs_store : BlobStore W := {|
  put := fun key body =>
    a ← map_err (fun e => BBackend ("kubo add (is the daemon running?): " +:+ e)) (post (api "add") (Some (key, body)));
    let '(st, b) := a in
    if negb (is_success st) then throw (refused "add" st b)
    else
      bytes ← lift_result (read_body b);
      hash ← lift_result (parse_add (lossy bytes));
      mret (mkBlobRef ("ipfs://" +:+ hash) (str_len body) (sha256_hex body));
  get := fun loc =>
    cid ← lift_result (cid_from loc);
    a ← map_err (fun e => BBackend ("kubo cat: " +:+ e)) (post (api ("cat?arg=" +:+ cid)) None);
    let '(st, b) := a in
    if st =? 404 then throw (BNotFound cid)
    else if negb (is_success st) then throw (refused "cat" st b)
    else lift_result (read_body b);
  delete_blob := fun loc =>
    cid ← lift_result (cid_from loc);
    ignoring (post (api ("pin/rm?arg=" +:+ cid)) None);
  exists_blob := fun loc =>
    cid ← lift_result (cid_from loc);
    a ← map_err (fun e => BBackend ("kubo block/stat: " +:+ e)) (post (api ("block/stat?arg=" +:+ cid)) None);
    mret (is_success a.1);
  presign_get := fun loc =>
    cid ← lift_result (cid_from loc);
    match ipfs_gateway config with
    | Some gw =>
        match url_parse (trim_end_matches "/" gw +:+ "/" +:+ cid) with
        | Ok u => mret (Some u)
        | Err e => throw (BBackend ("gateway URL: " +:+ e))
        end
    | None => mret None
    end
|}.
End ipfs_store.

(** *** The destination *)

Record IpfsDest (W : Type) := mkIpfsDest { node : W; ipfs_cursors : gmap string string }.
Arguments mkIpfsDest {W}. Arguments node {W}. Arguments ipfs_cursors {W}.
Definition on_node {W E A} (m : M W E A) : M (IpfsDest W) E A := fun d =>
  let '(r, w') := m (node d) in (r, mkIpfsDest w' (ipfs_cursors d)).
Definition set_cursor {W E} (ws id : string) : M (IpfsDest W) E unit := fun d =>
  (Ok tt, mkIpfsDest (node d) (<[ws := id]> (ipfs_cursors d))).
(** [from_config]: no cursor is known to a new process. *)
Definition ipfs_from_config {C} (client_build : result string C) (c : IpfsConfig) :
    result SyncError (IpfsConfig * C * gmap string string) :=
  match ipfs_new client_build c with Ok store => Ok (store, ∅) | Err e => Err (Backend "objectstore" (blob_display e)) end.
Section ipfs_destination.
Context {W : Type} (store : BlobStore W) `{EventJson}.

Definition ipfs_cursor (ws : string) : M (IpfsDest W) SyncError (option string) := fun d => (Ok (ipfs_cursors d !! ws), d).
Definition ipfs_push (ws : string) (since : option string) (batch : list AgentEvent) : M (IpfsDest W) SyncError (option string) :=
  match last batch with
  | None => ipfs_cursor ws
  | Some final =>
      on_node (put_events (blob_put store) ws batch);;
      on_node (blob_put store (cursor_key ws) (ev_id final));;
      set_cursor ws (ev_id final);;
      mret (Some (ev_id final))
  end.
#[export] Instance ipfs_destination : Destination (IpfsDest W) := {| push := ipfs_push; cursor := ipfs_cursor |}.
End ipfs_destination.

(** What a node documents.  It addresses by content: [blocks] is what it can answer
    for a CID, an addition takes nothing away, and an addition that succeeded is
    answered with the CID of the bytes. *)
Section ipfs_laws.
Context {W : Type} `{Kubo W} `{Sha256} `{SerdeJson} (debug : string -> string) (show_status : Z -> string)
  (serde_error lossy : string -> string) (url_parse : string -> result string string) (config : IpfsConfig).
#[local] Abbreviation ipfs := (ipfs_store debug show_status serde_error lossy url_parse config).

Record kubo_ok (blocks : W -> string -> option string) : Prop := {
  k_add_law : forall name body w, let '(r, w') := post (api config "add") (Some (name, body)) w in
    (forall c b, blocks w c = Some b -> blocks w' c = Some b) /\
    match r with
    | Ok (st, Ok bytes) => is_success st = true -> forall c, parse_add serde_error (lossy bytes) = Ok c ->
        slash_free c /\ c <> "" /\ blocks w' c = Some body
    | _ => True
    end;
  k_cat_law : forall c w, let '(r, w') := post (api config ("cat?arg=" +:+ c)) None w in
    (forall c, blocks w' c = blocks w c) /\
    match r with Ok (st, Ok x) => is_success st = true -> forall b, blocks w c = Some b -> x = b | _ => True end
}.
Context (blocks : W -> string -> option string) (Hok : kubo_ok blocks).

(** The bytes are among the node's blocks. *)
Definition stored_block (body : string) (w : W) : Prop := exists c, blocks w c = Some body.

Lemma ipfs_put_spec key body w :
  let '(r, w') := put ipfs key body w in
  (forall c b, blocks w c = Some b -> blocks w' c = Some b) /\
  match r with
  | Ok ref => exists c, slash_free c /\ c <> "" /\ ref = mkBlobRef ("ipfs://" +:+ c) (str_len body) (sha256_hex body) /\ blocks w' c = Some body
  | Err (BBackend _) => True
  | Err _ => False
  end.
Proof.
  simpl. unfold mbind, M_bind, map_err, lift_result, throw. pose proof (k_add_law _ Hok key body w) as Hp.
  destruct (post _ _ w) as [[[st b]|e] w']; destruct Hp as [Hk Hr]; [|done].
  destruct (is_success st); [|by destruct b]. simpl. destruct b as [bytes|e]; [|done]. simpl.
  specialize (Hr eq_refl). unfold parse_add in *. destruct (from_str _ ≫= add_response) as [c|]; [|done].
  simpl. split; [done|]. destruct (Hr c eq_refl) as (? & ? & ?). by exists c.
Qed.
Lemma cid_of_uri c : slash_free c -> c <> "" -> cid_from debug ("ipfs://" +:+ c) = Ok c.
Proof.
  intros Hc Hne. unfold cid_from. rewrite strip_prefix_app, (split_char_none _ _ Hc). simpl.
  by rewrite (proj2 (String.eqb_neq _ _) Hne).
Qed.

(** What was put on a node is answered for its URI as long as the node has it: the
    same bytes, unless the node cannot be asked. *)
Theorem ipfs_round_trip (key body : string) (ref : BlobRef) (w w1 : W) (others : list (string * string)) :
  put ipfs key body w = (Ok ref, w1) ->
  let w2 := fold_left (fun w kb => (put ipfs kb.1 kb.2 w).2) others w1 in
  match (get ipfs (uri ref) w2).1 with Ok b => b = body | Err (BBackend _) | Err (BNotFound _) => True | Err _ => False end.
Proof.
  intros Hput w2. pose proof (ipfs_put_spec key body w) as Hp. rewrite Hput in Hp.
  destruct Hp as [_ (c & Hc & Hne & -> & Hb)]. assert (Hb2 : blocks w2 c = Some body).
  { unfold w2. clear Hput w2. revert w1 Hb. induction others as [|[k b] l IH]; intros w1 Hb; [done|]. cbn [fold_left]. apply IH.
    pose proof (ipfs_put_spec k b w1) as Hp. cbn [fst snd]. destruct (put ipfs k b w1) as [r w']. by apply Hp. }
  simpl. unfold mbind, M_bind, map_err, lift_result, throw. rewrite (cid_of_uri c Hc Hne).
  pose proof (k_cat_law _ Hok c w2) as Hg. destruct (post _ _ w2) as [[[st b]|e] w']; destruct Hg as [_ Hr]; [|done].
  destruct (st =? 404); [done|]. destruct (is_success st); [|by destruct b]. destruct b as [b|e]; [|done]. simpl.
  by apply Hr.
Qed.

(** Events and a cursor of a workspace stored on a node. *)
Context `{EventJson}.
Definition ipfs_holds (d : IpfsDest W) (ws : string) (e : AgentEvent) : Prop :=
  exists body, event_json e = Ok body /\ stored_block body (node d).
Lemma put_block key body w :
  let '(r, w') := blob_put ipfs key body w in
  (forall b, stored_block b w -> stored_block b w') /\ (r = Ok tt -> stored_block body w').
Proof.
  unfold blob_put, mbind, M_bind, map_err. pose proof (ipfs_put_spec key body w) as Hp.
  destruct (put ipfs key body w) as [[ref|e] w']; destruct Hp as [Hk Hr]; (split; [intros b [c Hc]; exists c; auto|]); [|done].
  intros _. destruct Hr as (c & _ & _ & _ & Hc). by exists c.
Qed.
Lemma put_blocks ws batch w :
  let '(r, w') := put_events (blob_put ipfs) ws batch w in
  (forall b, stored_block b w -> stored_block b w') /\
  (r = Ok tt -> forall e, In e batch -> exists body, event_json e = Ok body /\ stored_block body w').
Proof.
  revert w. induction batch as [|x batch IH]; intros w; cbn [put_events]; [split; [auto|by intros _ e []]|].
  unfold encoded, mbind, M_bind, lift_result. destruct (event_json x) as [body|msg] eqn:Hj; [|done].
  pose proof (put_block (key_for ws x) body w) as Hp. destruct (blob_put ipfs _ body w) as [[[]|err] w1]; destruct Hp as [Hk Hb]; [|done].
  specialize (IH w1). destruct (put_events _ ws batch w1) as [r w2]. destruct IH as [Hk2 Hb2]. split; [auto|].
  intros -> e [<-|He]; [|by apply Hb2]. exists body. auto.
Qed.

(** The IPFS destination keeps the runner's contract while its process lives: the
    cursor only moves when the batch is stored. *)
#[program] Definition ipfs_destination_laws : @DestinationLaws (IpfsDest W) (ipfs_destination ipfs) :=
  {| cur := fun d ws => ipfs_cursors d !! ws; holds := ipfs_holds; storable := fun _ => True |}.
Next Obligation. intros ws d. simpl. split; [done|]. split; [done|]. by intros c [= <-]. Qed.
Next Obligation.
  intros ws since batch d Hne _ _. simpl. unfold ipfs_push. destruct (last batch) as [final|] eqn:Hlast; [|by apply last_None in Hlast].
  unfold mbind, M_bind, on_node, set_cursor. pose proof (put_blocks ws batch (node d)) as Hb.
  destruct (put_events _ ws batch (node d)) as [[[]|err] w1]; destruct Hb as [Hk Hb]; simpl.
  2:{ split; [|by left]. intros e _ (body & Hj & Hs) _. exists body. auto. }
  pose proof (put_block (cursor_key ws) (ev_id final) w1) as Hc.
  destruct (blob_put ipfs _ _ w1) as [[[]|err] w2]; destruct Hc as [Hk2 _]; simpl.
  - split; [intros e _ (body & Hj & Hs) _; exists body; auto|]. split; [done|]. split; [by rewrite lookup_insert_eq|].
    intros e He. destruct (Hb eq_refl e He) as (body & Hj & Hs). exists body. auto.
  - split; [intros e _ (body & Hj & Hs) _; exists body; auto|by left].
Qed.
End ipfs_laws.

(** ** A bucket whose answers get lost *)

(** The objects and how many requests were made; the third request is done, and its
    answer lost. *)
Record Bucket := mkBucket { bk_objects : gmap string string; bk_requests : nat }.
Definition request {A} (f : gmap string string -> result StoreError A * gmap string string) : M Bucket StoreError A := fun b =>
  let '(r, objects) := f (bk_objects b) in
  ((if (bk_requests b =? 2)%nat then Err (OtherError "connection reset") else r), mkBucket objects (S (bk_requests b))).
#[local] Instance flaky_bucket : ObjectStore Bucket := {|
  encode s := s;
  o_put p body := request (fun o => (Ok tt, <[p := body]> o));
  o_get p := request (fun o => (match o !! p with Some b => Ok b | None => Err (NotThere p) end, o));
  o_delete p := request (fun o => (match o !! p with Some _ => Ok tt | None => Err (NotThere p) end, delete p o));
  o_head p := request (fun o => (match o !! p with Some _ => Ok tt | None => Err (NotThere p) end, o));
  o_signed_url p := request (fun o => (Ok ("https://bucket/" +:+ p +:+ "?signature"), o))
|}.
#[local] Instance flaky_bucket_laws : ObjectStoreLaws Bucket.
Proof.
  refine {| o_objects := fun b p => bk_objects b !! p |}; try done; simpl; unfold request.
  - intros p b w. simpl. split; [intros; by apply lookup_insert_ne|].
    destruct (_ =? _)%nat; [right|]; apply lookup_insert_eq.
  - intros p w. destruct (bk_objects w !! p) eqn:Ho; simpl; by destruct (_ =? _)%nat.
  - intros p w. destruct (bk_objects w !! p) eqn:Ho; simpl; (split; [intros; by apply lookup_delete_ne|]);
      destruct (_ =? _)%nat; try right; apply lookup_delete_eq.
  - intros p w. destruct (bk_objects w !! p) eqn:Ho; simpl; by destruct (_ =? _)%nat.
Defined.

#[local] Instance plain_json : EventJson := fun e => Ok (ev_id e +:+ ":" +:+ ev_payload_hash e).
#[local] Instance plain_sha256 : Sha256 := fun s => s.
#[local] Instance backups : Destination Bucket := s3_destination (fun s => s) (fun s => s) (fun s => s) "backups".
Definition new_bucket : Bucket := mkBucket ∅ 0.
Definition lost_run := run_once 3 "ws" SyncReplayDemo.store 1 new_bucket.
Definition after_lost : Bucket := match lost_run with Some (_, d) => d | None => new_bucket end.

(** The answer to the first write of the cursor is lost: the run fails, but the
    cursor stands at the event that is stored, and the next run pushes the other one
    only. *)
Example lost_answer_resumed :
  (fst <$> lost_run) = Some (Err (Backend "objectstore" "backend error: connection reset")) /\
  cloud_cur after_lost "ws" = Some "evt_1" /\
  (fst <$> run_once 3 "ws" SyncReplayDemo.store 1 after_lost) = Some (Ok (mkSyncStats 1 1 (Some "evt_6"))).
Proof. vm_compute. auto. Qed.

(** The key of an object on IPFS does not name it: reading by the key asks the node
    for a block of that name. *)
Example label_is_no_locator (debug : string -> string) :
  cid_from debug "ws/2026-01-01/e1.json" = Ok "ws/2026-01-01/e1.json".
Proof. reflexivity. Qed.
