(* ===== verification/Surface.v ===== *)
(** * Around the handlers ([actant-server/src/lib.rs], [prom.rs], [pubsub_routes.rs])

    The text of the metrics and its escaping, the registry of counters, the two
    layers every request passes, the pub/sub routes over the broker, the topic of a
    WebSocket, the tables of routes, and the choice of the listener.  Prometheus's
    encoder, the TLS library and the operating system are parameters. *)

From S2P Require Import Sdk Broker Prelude Str Json Core Policy Predicate Storage Effects Auth Prog Server HttpAuth Studio.
#[local] Open Scope string_scope.
#[local] Open Scope list_scope.
#[local] Open Scope Z_scope.

(** ** Labels *)

Definition backslash : Ascii.ascii := "092".
Definition quote : Ascii.ascii := "034".
Definition newline : Ascii.ascii := "010".
(** [str::replace] of one character. *)
Fixpoint replace_char (c : Ascii.ascii) (by_ s : string) : string :=
  match s with
  | "" => ""
  | String a s' => if Ascii.eqb a c then by_ +:+ replace_char c by_ s' else String a (replace_char c by_ s')
  end.
Definition escaped (c : Ascii.ascii) : string := String backslash (String c "").
Definition escape_label (s : string) : string :=
  replace_char newline (escaped "n") (replace_char quote (escaped quote) (replace_char backslash (escaped backslash) s)).

(** The format's own reading of a label's value, up to the closing quote: a backslash
    stands with the next character for a backslash, a quote or a newline. *)
Fixpoint read_label (s : string) : option (string * string) :=
  match s with
  | "" => None
  | String a s' =>
      if Ascii.eqb a quote then Some ("", s')
      else if Ascii.eqb a newline then None
      else if Ascii.eqb a backslash then
        match s' with
        | "" => None
        | String b s'' =>
            c ← (if Ascii.eqb b backslash then Some backslash else if Ascii.eqb b quote then Some quote
                 else if Ascii.eqb b "n" then Some newline else None);
            '(v, rest) ← read_label s''; Some (String c v, rest)
        end
      else '(v, rest) ← read_label s'; Some (String a v, rest)
  end.

(** One pass over the characters. *)
Definition escape_char (a : Ascii.ascii) : string :=
  if Ascii.eqb a backslash then escaped backslash else if Ascii.eqb a quote then escaped quote
  else if Ascii.eqb a newline then escaped "n" else String a "".
Lemma replace_char_app c b s t : replace_char c b (s +:+ t) = replace_char c b s +:+ replace_char c b t.
Proof.
  induction s as [|a s IH]; [done|]. rewrite append_cons. cbn [replace_char].
  destruct (Ascii.eqb a c); rewrite IH; [by rewrite append_assoc|done].
Qed.
Lemma escape_label_cons a s : escape_label (String a s) = escape_char a +:+ escape_label s.
Proof.
  change (String a s) with (String a "" +:+ s). unfold escape_label. rewrite !replace_char_app. f_equal.
  unfold escape_char. cbn [replace_char]. destruct (Ascii.eqb_spec a backslash) as [->|Hb]; [reflexivity|]. cbn [replace_char].
  destruct (Ascii.eqb_spec a quote) as [->|Hq]; [reflexivity|]. cbn [replace_char].
  by destruct (Ascii.eqb_spec a newline) as [->|Hn].
Qed.

(** A label is read back as the text it was written for, whatever the text holds:
    quotes, backslashes and newlines included. *)
Theorem escape_label_reads_back (s rest : string) : read_label (escape_label s +:+ String quote rest) = Some (s, rest).
Proof.
  induction s as [|a s IH]; [reflexivity|]. rewrite escape_label_cons, append_assoc. unfold escape_char.
  destruct (Ascii.eqb_spec a backslash) as [->|Hb]; [|destruct (Ascii.eqb_spec a quote) as [->|Hq];
    [|destruct (Ascii.eqb_spec a newline) as [->|Hn]]].
  1-3: unfold escaped; rewrite !append_cons, append_nil; simpl; rewrite IH; reflexivity.
  rewrite append_cons, append_nil. cbn [read_label].
  rewrite (proj2 (Ascii.eqb_neq _ _) Hb), (proj2 (Ascii.eqb_neq _ _) Hq), (proj2 (Ascii.eqb_neq _ _) Hn), IH. reflexivity.
Qed.

(** ** The metrics of the database *)

(** [SELECT c, COUNT( * ) ... GROUP BY c]: each value of the column once. *)
Definition group_by {A} (f : A -> string) (l : list A) : list (string * Z) :=
  List.map (fun k => (k, Z.of_nat (List.length (List.filter (fun a => String.eqb (f a) k) l)))) (remove_dups (List.map f l)).
Definition effect_status_text (s : EffectStatus) : string :=
  match s with
  | EPending => "pending" | EClaimed => "claimed" | ERunning => "running" | ESucceeded => "succeeded"
  | EFailed => "failed" | ECancelled => "cancelled" | EAwaitingApproval => "awaiting_approval"
  end.
Definition line (s : string) : string := s +:+ String newline "".
Definition labelled (name label value : string) (n : Z) : string :=
  line (name +:+ "{" +:+ label +:+ "=" +:+ String quote (escape_label value +:+ String quote ("} " +:+ show_Z n))).
Definition family (name help kind : string) : string :=
  line ("# HELP " +:+ name +:+ " " +:+ help) +:+ line ("# TYPE " +:+ name +:+ " " +:+ kind).

Section metrics.
Context `{RowOrder}.
(** [answers n] says that the n-th query is answered: a query that fails counts for
    no row. *)
Definition metrics (answers : nat -> bool) (l : Ledger) (q : Queue) : Response :=
  let by_kind := if answers 0%nat then group_by (fun r => ev_event_type (er_event r)) (rows (events l)) else [] in
  let by_status := if answers 1%nat then group_by (fun e => effect_status_text (eff_status e)) (rows (Effects.effects q)) else [] in
  let pending := if answers 2%nat
    then Z.of_nat (List.length (List.filter (fun a => bool_decide (apr_status a = APending)) (rows (approvals l)))) else 0 in
  let count := if answers 3%nat then Z.of_nat (base.size (workspaces l)) else 0 in
  mkResponse 200 [("content-type", "text/plain; version=0.0.4")] (JString
    (family "actantdb_events_total" "Number of Chronicle events by kind." "counter"
     +:+ String.concat "" (List.map (fun g => labelled "actantdb_events_total" "event_type" g.1 g.2) by_kind)
     +:+ family "actantdb_effects_total" "Number of effects by status." "gauge"
     +:+ String.concat "" (List.map (fun g => labelled "actantdb_effects_total" "status" g.1 g.2) by_status)
     +:+ family "actantdb_approvals_pending" "Number of pending approval requests." "gauge"
     +:+ line ("actantdb_approvals_pending " +:+ show_Z pending)
     +:+ family "actantdb_workspaces_total" "Number of workspaces." "gauge"
     +:+ line ("actantdb_workspaces_total " +:+ show_Z count))).
End metrics.

(** The groups: one for each value that occurs, with the number of its rows; together
    they count every row. *)
Lemma count_dups {A} (f : A -> string) (l : list A) k n :
  In (k, n) (group_by f l) <-> n = Z.of_nat (List.length (List.filter (fun a => String.eqb (f a) k) l)) /\ 0 < n.
Proof.
  assert (Hin : In k (remove_dups (List.map f l)) <-> (0 < List.length (List.filter (fun a => String.eqb (f a) k) l))%nat).
  { rewrite <- list_elem_of_In, elem_of_remove_dups, list_elem_of_In. induction l as [|a l IH]; cbn; [split; [done|lia]|].
    destruct (String.eqb_spec (f a) k) as [->|Hne]; cbn; [split; [lia|by left]|]. rewrite <- IH.
    split; [by intros [?|?]|by right]. }
  unfold group_by. rewrite in_map_iff. split.
  - intros (k' & [= -> <-] & Hk). split; [done|]. apply Hin in Hk. lia.
  - intros [-> Hn]. exists k. split; [done|]. apply Hin. lia.
Qed.
Lemma groups_once {A} (f : A -> string) (l : list A) : NoDup (List.map fst (group_by f l)).
Proof. unfold group_by. rewrite List.map_map. cbn. rewrite List.map_id. apply NoDup_remove_dups. Qed.
Definition occurrences {A} (f : A -> string) (l : list A) (k : string) : Z := Z.of_nat (List.length (List.filter (fun a => String.eqb (f a) k) l)).
Fixpoint total (ks : list string) (n : string -> Z) : Z := match ks with [] => 0 | k :: ks' => n k + total ks' n end.
Lemma total_add ks n m : total ks (fun k => n k + m k) = total ks n + total ks m.
Proof. induction ks as [|k ks IH]; [done|]. cbn. rewrite IH. lia. Qed.
Lemma total_one ks x : NoDup ks -> x ∈ ks -> total ks (fun k => if String.eqb x k then 1 else 0) = 1.
Proof.
  assert (Hzero : forall ks, x ∉ ks -> total ks (fun k => if String.eqb x k then 1 else 0) = 0).
  { intros l. induction l as [|k l IH]; [done|]. intros [Hne Hn]%not_elem_of_cons. cbn.
    rewrite (proj2 (String.eqb_neq _ _) Hne). by rewrite IH. }
  induction ks as [|k ks IH]; intros Hnd Hin; [by apply not_elem_of_nil in Hin|]. apply NoDup_cons in Hnd as [Hk Hnd]. cbn.
  destruct (String.eqb_spec x k) as [->|Hne]; [by rewrite Hzero|]. apply elem_of_cons in Hin as [?|Hin]; [done|]. by rewrite IH.
Qed.
Lemma groups_total {A} (f : A -> string) (l : list A) : foldr (fun g m => g.2 + m) 0 (group_by f l) = Z.of_nat (List.length l).
Proof.
  assert (Hsum : forall ks, NoDup ks -> (forall a, In a l -> f a ∈ ks) -> total ks (occurrences f l) = Z.of_nat (List.length l)).
  { intros ks Hnd. induction l as [|a l IH]; intros Hall.
    - clear. induction ks as [|k ks IH]; [done|]. cbn. exact IH.
    - rewrite List.length_cons, Nat2Z.inj_succ. rewrite <- IH by (intros b Hb; apply Hall; by right).
      transitivity (total ks (fun k => (if String.eqb (f a) k then 1 else 0) + occurrences f l k)).
      + clear. induction ks as [|k ks IH]; [done|]. cbn. rewrite IH. unfold occurrences at 1. cbn.
        destruct (String.eqb (f a) k); cbn; unfold occurrences; lia.
      + pose proof (total_add ks (fun k => if String.eqb (f a) k then 1 else 0) (occurrences f l)) as Ht. cbn beta in Ht. rewrite Ht, total_one; [lia|done|apply Hall; by left]. }
  rewrite <- (Hsum (remove_dups (List.map f l)) (NoDup_remove_dups _)).
  2:{ intros a Ha. apply elem_of_remove_dups, list_elem_of_In, in_map, Ha. }
  unfold group_by. induction (remove_dups (List.map f l)) as [|k ks IH]; [done|]. cbn. by rewrite IH.
Qed.

(** ** The registry of the process ([prom.rs]) *)

(** The durations observed for a method, a path and a status, in nanoseconds. *)
Record Registry := mkRegistry {
  durations : gmap (string * string * Z) (list Z); ledger_bytes : gmap string Z
}.
Definition no_samples : Registry := mkRegistry ∅ ∅.
Definition observe (k : string * string * Z) (ns : Z) (g : Registry) : Registry :=
  mkRegistry (<[k := default [] (durations g !! k) ++ [ns]]> (durations g)) (ledger_bytes g).
Definition record_ledger_bytes (ws : string) (n : Z) (g : Registry) : Registry :=
  mkRegistry (durations g) (<[ws := n]> (ledger_bytes g)).
(** The upper bounds of the histogram's buckets, in milliseconds. *)
Definition bucket_bounds : list Z := [1; 5; 10; 25; 50; 100; 250; 500; 1000; 2500; 5000; 10000].
Definition method_text (m : Method) : string :=
  match m with
  | GET => "GET" | HEAD => "HEAD" | OPTIONS => "OPTIONS" | POST => "POST" | PUT => "PUT" | PATCH => "PATCH" | DELETE => "DELETE"
  end.
(** [encode] is Prometheus's text encoder over the registry and the counts of commands. *)
Definition render (encode : Registry -> gmap (string * string) Z -> result string string) (g : Registry)
    (counts : gmap (string * string) Z) : Response :=
  match encode g counts with
  | Ok text => mkResponse 200 [("content-type", "text/plain; version=0.0.4; charset=utf-8")] (JString text)
  | Err e => mkResponse 500 [] (JString (line ("# error encoding metrics: " +:+ e)))
  end.
(** [size] is the product of the two pragmas, when they are answered. *)
Definition prom_metrics encode (size : option Z) (s : Server) (g : Registry) : Response * Registry :=
  let g' := record_ledger_bytes "_global" (Z.max (default 0 size) 0) g in
  (render encode g' (command_counts s), g').

(** ** The layers *)

Section layers.
(** The rest of the service; [uri_path] takes the query off a URL, [ulid] is the next
    generated id and [elapsed] what the monotonic clock says the rest took. *)
Context {S : Type} (next : HttpRequest -> S -> Response * S) (uri_path : string -> string).

Definition record_http_middleware (elapsed : Z) (r : HttpRequest) (sg : S * Registry) : Response * (S * Registry) :=
  let '(resp, s') := next r sg.1 in
  (resp, (s', observe (method_text (hr_method r), uri_path (hr_url r), status resp) elapsed sg.2)).
End layers.

(** [HeaderValue::from_str], and [HeaderMap::insert], which replaces. *)
Definition header_value (v : string) : option string :=
  if all_chars (fun c => ((32 <=? byte c) && negb (byte c =? 127)) || (byte c =? 9)) v then Some v else None.
Definition header_insert (name v : string) (h : HeaderMap) : HeaderMap :=
  (name, v) :: List.filter (fun nv => negb (String.eqb nv.1 name)) h.
Definition request_id_middleware {S} (next : HttpRequest -> S -> Response * S) (ulid : string) (r : HttpRequest) (s : S) : Response * S :=
  let rid := default ("req_" +:+ ulid) (header_str "x-request-id" (hr_headers r)) in
  let '(resp, s') := next r s in
  (match header_value rid with
   | Some v => mkResponse (status resp) (header_insert "x-request-id" v (headers resp)) (body resp)
   | None => resp
   end, s').
(** The outer layer is the one added last. *)
Definition layered {S} (next : HttpRequest -> S -> Response * S) uri_path (ulid : string) (elapsed : Z) :
    HttpRequest -> S * Registry -> Response * (S * Registry) :=
  request_id_middleware (record_http_middleware next uri_path elapsed) ulid.

Lemma visible_is_header v w : to_str v = Some w -> header_value v = Some v.
Proof.
  unfold to_str, header_value. destruct (all_chars _ v) eqn:Hv; [|done]. intros _.
  enough (all_chars (fun c => ((32 <=? byte c) && negb (byte c =? 127)) || (byte c =? 9)) v = true) as -> by done.
  clear w. induction v as [|a v IH]; [done|]. simpl in *. apply andb_true_iff in Hv as [Ha Hv]. rewrite (IH Hv), andb_true_r.
  destruct (32 <=? byte a); simpl in *; [|done]. destruct (byte a =? 9); [by rewrite orb_true_r|].
  rewrite orb_false_r in *. apply Z.ltb_lt in Ha. apply negb_true_iff, Z.eqb_neq. lia.
Qed.
Lemma header_str_visible name h v : header_str name h = Some v -> to_str v = Some v.
Proof.
  unfold header_str. destruct (header_get name h) as [w|]; [|done]. cbn. unfold to_str. destruct (all_chars _ w) eqn:Hw; [|done].
  intros [= <-]. by rewrite Hw.
Qed.

(** Every answer carries one request id: the client's own when it can be read, a
    generated one otherwise; the answer is otherwise what the handler gave, and the
    request is observed once under the path it asked for. *)
Theorem every_answer_has_an_id {S} (next : HttpRequest -> S -> Response * S) uri_path (ulid : string) (elapsed : Z)
    (r : HttpRequest) (s : S) (g : Registry) (Hulid : to_str ("req_" +:+ ulid) = Some ("req_" +:+ ulid)) :
  let '(resp, (s', g')) := layered next uri_path ulid elapsed r (s, g) in
  List.filter (fun nv => String.eqb nv.1 "x-request-id") (headers resp)
    = [("x-request-id", default ("req_" +:+ ulid) (header_str "x-request-id" (hr_headers r)))] /\
  (status resp, body resp, s') = (status (next r s).1, body (next r s).1, (next r s).2) /\
  g' = observe (method_text (hr_method r), uri_path (hr_url r), status resp) elapsed g.
Proof.
  unfold layered, request_id_middleware, record_http_middleware. cbn [fst snd]. destruct (next r s) as [resp s'].
  set (rid := default _ _). assert (Hv : to_str rid = Some rid).
  { unfold rid. destruct (header_str _ _) as [v|] eqn:Hh; cbn; [by eapply header_str_visible|done]. }
  rewrite (visible_is_header rid rid Hv). cbn. split; [|done]. f_equal.
  clear. induction (headers resp) as [|nv h IH]; [done|]. cbn.
  destruct (String.eqb nv.1 "x-request-id") eqn:Hn; cbn; [done|]. by rewrite Hn.
Qed.

(** The label of a path is the path asked for, not the route that matched: requests of
    one route open as many series as they have paths. *)
Fixpoint asked {S} (next : HttpRequest -> S -> Response * S) uri_path (rs : list HttpRequest) (sg : S * Registry) : S * Registry :=
  match rs with
  | [] => sg
  | r :: rs' => asked next uri_path rs' (record_http_middleware next uri_path 0 r sg).2
  end.
Lemma asked_paths {S} (next : HttpRequest -> S -> Response * S) uri_path rs sg p :
  (exists m st, is_Some (durations sg.2 !! (m, p, st))) \/ p ∈ List.map (fun r => uri_path (hr_url r)) rs ->
  exists m st, is_Some (durations (asked next uri_path rs sg).2 !! (m, p, st)).
Proof.
  revert sg. induction rs as [|r rs IH]; intros sg; [by intros [?|?%not_elem_of_nil]|]. cbn [asked List.map]. intros Hp. apply IH.
  unfold record_http_middleware. destruct (next r sg.1) as [resp s'].
  destruct Hp as [(m & st & Hp)|[->|Hp]%elem_of_cons]; [| |by right]; left; cbn [snd durations observe].
  - exists m, st. destruct (decide ((m, p, st) = (method_text (hr_method r), uri_path (hr_url r), status resp))) as [->|Hne];
      [rewrite lookup_insert_eq; by eexists|by rewrite lookup_insert_ne].
  - exists (method_text (hr_method r)), (status resp). rewrite lookup_insert_eq. by eexists.
Qed.
Theorem series_grow_with_paths {S} (next : HttpRequest -> S -> Response * S) uri_path (rs : list HttpRequest) (s : S) :
  NoDup (List.map (fun r => uri_path (hr_url r)) rs) ->
  (List.length rs <= base.size (durations (asked next uri_path rs (s, no_samples)).2))%nat.
Proof.
  intros Hnd. set (m := durations _).
  rewrite <- length_map_to_list, <- (List.length_map (fun r => uri_path (hr_url r)) rs), <- (List.length_map (fun kv => kv.1.1.2) (map_to_list m)).
  apply List.NoDup_incl_length; [by apply NoDup_ListNoDup|]. intros p Hp%list_elem_of_In.
  destruct (asked_paths next uri_path rs (s, no_samples) p (or_intror Hp)) as (me & st & ns & Hin).
  apply in_map_iff. exists (me, p, st, ns). split; [done|]. by apply list_elem_of_In, elem_of_map_to_list.
Qed.

(** ** The pub/sub routes ([pubsub_routes.rs]) *)

Section pubsub.
Context `{SerdeJson} `{Broadcast} `{Env} `{ServerEnv} `{Sha256} `{Base64} `{Jwt}.
Context (generate : nat -> result string string) (clock : nat -> string) (decode_error : string -> string) (capacity : Z).

Record PubSub := mkPubSub { ps_server : Server; ps_broker : BWorld }.
Definition on_server {A} (m : M Server Response A) : M PubSub Response A := fun s =>
  let '(r, s') := m (ps_server s) in (r, mkPubSub s' (ps_broker s)).
Definition on_broker {A} (p : prog BWorld ActantError A) : M PubSub Response (result ActantError A) := fun s =>
  let '(r, b) := exec p (ps_broker s) in (Ok r, mkPubSub (ps_server s) b).

Definition http_publish (cfg : Config) (h : HeaderMap) (workspace topic : string) (payload : Json) : M PubSub Response Response :=
  on_server (exec (enforce_rate_limit cfg workspace));;
  on_server (exec (enforce_auth cfg h POST workspace));;
  r ← on_broker (Broker.publish generate clock workspace topic payload);
  mret match r with
       | Ok env => ok_json (jobj [("id", JString (Broker.en_id env)); ("ts", JString (Broker.en_ts env))])
       | Err e => json_response 400 (error_message "publish_failed" (Core.display e))
       end.

(** [run_broker_socket]: a subscriber that is refused is told so in one frame. *)
Definition ws_pubsub (cfg : Config) (h : HeaderMap) (workspace topic : string) (since : option string) :
    M PubSub Response (Receiver + string) :=
  on_server (exec (enforce_auth cfg h GET workspace));;
  r ← on_broker (Broker.subscribe decode_error capacity workspace topic since);
  mret match r with
       | Ok rx => inl rx
       | Err e => inr (to_string (error_message "subscribe_failed" (Core.display e)))
       end.
Definition envelope_json (e : Envelope) : Json :=
  jobj [("id", JString (Broker.en_id e)); ("topic", JString (Broker.en_topic e)); ("payload", Broker.en_payload e); ("ts", JString (Broker.en_ts e))].
(** The frames for what the receiver answers until it is closed; [sends n] says that
    the n-th frame goes through.  A lag is passed over. *)
Fixpoint run_broker_socket (sends : nat -> bool) (n : nat) (items : list Recv) : list string :=
  match items with
  | [] => []
  | RecvLagged :: rest => run_broker_socket sends n rest
  | RecvMsg e :: rest => if sends n then to_string (envelope_json e) :: run_broker_socket sends (S n) rest else []
  end.

(** *** What they do *)

Definition received (items : list Recv) : list Envelope := omap (fun i => match i with RecvMsg e => Some e | RecvLagged => None end) items.
(** While its frames go through, a subscriber gets every envelope its receiver had, in
    order, also past a lag. *)
Lemma socket_passes_everything sends n items :
  (forall k, sends k = true) -> run_broker_socket sends n items = List.map (fun e => to_string (envelope_json e)) (received items).
Proof.
  intros Hs. revert n. induction items as [|[e|] items IH]; intros n; [done| |apply IH]. cbn [run_broker_socket]. rewrite Hs.
  unfold received in *. cbn. by rewrite IH.
Qed.

Lemma exec_publish ws topic payload b :
  let '(r, b') := exec (Broker.publish generate clock ws topic payload) b in
  match r with
  | Ok env => Broker.en_topic env = topic /\ Broker.en_payload env = payload /\ Broker.messages b !! Broker.en_id env = None /\
      Broker.messages b' = <[Broker.en_id env := Broker.mkMessageRow (Broker.en_id env) ws topic (to_string payload) (Broker.en_ts env)]> (Broker.messages b)
  | Err _ => Broker.messages b' = Broker.messages b
  end /\ (forall k, k <> (ws, topic) -> channels b' !! k = channels b !! k) /\ bridges b' = bridges b.
Proof.
  unfold Broker.publish. destruct (String.eqb topic ""); [done|]. rewrite exec_bind. unfold mbind at 1, M_bind at 1. cbn.
  destruct (generate (bseq b)) as [u|m]; [|done]. cbn.
  unfold has. destruct (Broker.messages b !! ("psm_" +:+ u)) as [row|] eqn:Hrow; cbn; [done|].
  destruct (bool_decide _); cbn; [|done]. split; [done|]. split; [|done].
  intros k Hk. by rewrite lookup_alter_ne.
Qed.

Lemma publish_confined ws topic payload b id row :
  Broker.mr_workspace_id row <> ws ->
  Broker.messages (exec (Broker.publish generate clock ws topic payload) b).2 !! id = Some row <-> Broker.messages b !! id = Some row.
Proof.
  intros Hws. pose proof (exec_publish ws topic payload b) as Hp. destruct (exec _ b) as [[env|e] b']; destruct Hp as [Hp _]; cbn; [|by rewrite Hp].
  destruct Hp as (_ & _ & Hnew & ->). destruct (decide (id = Broker.en_id env)) as [->|Hne]; [|by rewrite lookup_insert_ne].
  rewrite lookup_insert_eq, Hnew. split; [|done]. by intros [= <-].
Qed.

(** Publishing over HTTP: a request that is refused changes neither the ledger nor
    the broker.  One that is answered was admitted to the workspace of its path, does
    what the broker's [publish] does there, and leaves every row of other workspaces
    and every channel but its topic's as it was. *)
Theorem http_publish_gated (cfg : Config) (h : HeaderMap) (ws topic : string) (payload : Json) (s s' : PubSub) (a : result Response Response) :
  http_publish cfg h ws topic payload s = (a, s') ->
  gate_same (ps_server s) (ps_server s') /\
  (((exists e, a = Err e) /\ ps_broker s' = ps_broker s) \/
   (admitted cfg h POST ws (ps_server s) /\
    ps_broker s' = (exec (Broker.publish generate clock ws topic payload) (ps_broker s)).2 /\
    (forall id row, Broker.mr_workspace_id row <> ws ->
       Broker.messages (ps_broker s') !! id = Some row <-> Broker.messages (ps_broker s) !! id = Some row) /\
    (forall k, k <> (ws, topic) -> channels (ps_broker s') !! k = channels (ps_broker s) !! k))).
Proof.
  unfold http_publish, mbind, M_bind, on_server, on_broker. intros Hrun.
  destruct (rate_limit_same cfg ws (ps_server s)) as [(Hw1 & Ha1 & Hh1 & Hc1) Hu1].
  destruct (exec (enforce_rate_limit cfg ws) (ps_server s)) as [[[]|e] s1]; cbn [ps_server ps_broker fst snd] in *.
  2:{ injection Hrun as <- <-. cbn. split; [done|]. left. split; [by eexists|done]. }
  destruct (enforce_auth_same cfg h POST ws s1) as (Hw2 & Ha2 & Hh2 & Hc2). pose proof (enforce_auth_iff cfg h POST ws s1) as Hadm.
  assert (Hsame : forall s2, gate_same s1 s2 -> gate_same (ps_server s) s2) by (intros s2 (? & ? & ? & ?); unfold gate_same; repeat split; congruence).
  destruct (exec (enforce_auth cfg h POST ws) s1) as [[[]|e] s2]; cbn [ps_server ps_broker fst snd] in *.
  2:{ injection Hrun as <- <-. cbn. split; [by apply Hsame|]. left. split; [by eexists|done]. }
  pose proof (exec_publish ws topic payload (ps_broker s)) as Hch.
  pose proof (publish_confined ws topic payload (ps_broker s)) as Hrows.
  destruct (exec (Broker.publish _ _ ws topic payload) (ps_broker s)) as [r b]. destruct Hch as (_ & Hch & _). injection Hrun as <- <-. cbn [ps_server ps_broker fst snd] in *.
  split; [by apply Hsame|]. right. split; [|done].
  eapply admitted_same; [exact Ha1|exact Hu1|]. by apply Hadm.
Qed.

(** A subscription is opened only for a request admitted to the workspace of its
    path; a refused one leaves the broker as it was. *)
Theorem ws_pubsub_gated (cfg : Config) (h : HeaderMap) (ws topic : string) (since : option string) (s s' : PubSub)
    (a : result Response (Receiver + string)) :
  ws_pubsub cfg h ws topic since s = (a, s') ->
  gate_same (ps_server s) (ps_server s') /\
  (((exists e, a = Err e) /\ ps_broker s' = ps_broker s) \/
   (admitted cfg h GET ws (ps_server s) /\ (exists x, a = Ok x) /\
    ps_broker s' = (exec (Broker.subscribe decode_error capacity ws topic since) (ps_broker s)).2)).
Proof.
  unfold ws_pubsub, mbind, M_bind, on_server, on_broker. intros Hrun. pose proof (enforce_auth_same cfg h GET ws (ps_server s)) as Hsame.
  pose proof (enforce_auth_iff cfg h GET ws (ps_server s)) as Hadm.
  destruct (exec (enforce_auth cfg h GET ws) (ps_server s)) as [[[]|e] s2]; cbn [ps_server ps_broker fst snd] in *.
  2:{ injection Hrun as <- <-. split; [done|]. left. split; [by eexists|done]. }
  destruct (exec (Broker.subscribe _ _ ws topic since) (ps_broker s)) as [r b]. injection Hrun as <- <-. cbn.
  split; [done|]. right. split; [by apply Hadm|]. split; [by eexists|done].
Qed.
End pubsub.

(** ** The WebSocket of events ([ws_handler]) *)

Record WsQuery := mkWsQuery { wq_workspace_id : string; wq_session_id : option string; wq_kind : option string }.
Definition default_kind : string := "events".
(** The request's headers are not looked at. *)
Definition ws_handler (q : WsQuery) : M Server Response nat := fun s =>
  let '(rx, hub') := Predicate.subscribe (mkTopic (wq_workspace_id q) (wq_session_id q) (default default_kind (wq_kind q))) (hub s) in
  (Ok rx, with_hub (fun _ => hub') s).

(** ** The tables of routes *)

(** A template: a fixed segment, or a parameter, which takes one that is not empty. *)
Definition template (path : string) : list (option string) :=
  List.map (fun s => if starts_with "{" s then None else Some s) (split_char "/" path).
Fixpoint fits (t : list (option string)) (segments : list string) : bool :=
  match t, segments with
  | [], [] => true
  | Some x :: t', s :: segments' => String.eqb x s && fits t' segments'
  | None :: t', s :: segments' => negb (String.eqb s "") && fits t' segments'
  | _, _ => false
  end.
Definition route_fits (template_path path : string) : bool := fits (template template_path) (split_char "/" path).

Definition auth_routes : list (Method * string) :=
  [(GET, "/link"); (GET, "/link/{code}"); (GET, "/login"); (POST, "/v1/auth/link"); (POST, "/v1/auth/password");
   (POST, "/v1/auth/login"); (POST, "/v1/auth/logout"); (GET, "/v1/auth/me")].
Definition provider_routes : list (Method * string) :=
  [(GET, "/v1/auth/providers"); (GET, "/v1/auth/oauth/{provider}/start"); (GET, "/v1/auth/oauth/{provider}/callback")].
Definition studio_routes : list (Method * string) :=
  [(GET, "/v1/memories"); (GET, "/v1/memories/conflicts");
   (GET, "/v1/permissions"); (POST, "/v1/permissions"); (DELETE, "/v1/permissions");
   (GET, "/v1/setup-reports"); (POST, "/v1/setup-reports"); (GET, "/v1/scout-records"); (POST, "/v1/scout-records");
   (GET, "/v1/entities"); (POST, "/v1/entities"); (GET, "/v1/entity-relations"); (POST, "/v1/entity-relations")].
Definition core_routes : list (Method * string) :=
  [(GET, "/v1/healthz"); (GET, "/v1/healthz/startup"); (GET, "/v1/healthz/live"); (GET, "/v1/healthz/ready");
   (GET, "/v1/metadata/commands"); (GET, "/v1/openapi.yaml"); (POST, "/v1/command"); (GET, "/v1/events");
   (POST, "/v1/sync/since")].
Definition rest_routes : list (Method * string) :=
  [(GET, "/rest/v1"); (GET, "/rest/v1/{table}/columns"); (GET, "/rest/v1/{table}"); (POST, "/rest/v1/{table}");
   (PATCH, "/rest/v1/{table}"); (DELETE, "/rest/v1/{table}")].
Definition graphql_routes : list (Method * string) := [(POST, "/graphql")].

Definition router (auto_rest graphql : bool) : list (Method * string) :=
  core_routes
  ++ [(GET, "/v1/approvals"); (GET, "/v1/ws"); (GET, "/v1/metrics"); (POST, "/v1/replay/checkpoint"); (POST, "/v1/replay/run")]
  ++ studio_routes ++ auth_routes ++ provider_routes
  ++ [(GET, "/metrics"); (GET, "/v1/pubsub/{workspace}/{topic}"); (POST, "/v1/pubsub/{workspace}/{topic}")]
  ++ (if auto_rest then rest_routes else []) ++ (if graphql then graphql_routes else []).
Definition postgres_router : list (Method * string) := core_routes ++ provider_routes.
(** The template that answers a request; without one the fallback does. *)
Definition routed (table : list (Method * string)) (m : Method) (path : string) : option string :=
  snd <$> find (fun r => bool_decide (r.1 = m) && route_fits r.2 path) table.

(** Two templates that some path could fit both. *)
Fixpoint overlap (t u : list (option string)) : bool :=
  match t, u with
  | [], [] => true
  | Some x :: t', Some y :: u' => String.eqb x y && overlap t' u'
  | None :: t', Some y :: u' | Some y :: t', None :: u' => negb (String.eqb y "") && overlap t' u'
  | None :: t', None :: u' => overlap t' u'
  | _, _ => false
  end.
Lemma fits_overlap t u s : fits t s = true -> fits u s = true -> overlap t u = true.
Proof.
  revert u s. induction t as [|[x|] t IH]; intros [|[y|] u] [|z s]; try done; cbn [fits overlap];
    intros [Ha Ht]%andb_true_iff [Hb Hu]%andb_true_iff; rewrite (IH _ _ Ht Hu) || idtac.
  - apply String.eqb_eq in Ha as ->. apply String.eqb_eq in Hb as ->. by rewrite String.eqb_refl.
  - apply String.eqb_eq in Ha as ->. by rewrite Hb.
  - apply String.eqb_eq in Hb as ->. by rewrite Ha.
  - done.
Qed.
Definition unambiguous (table : list (Method * string)) : bool :=
  forallb (fun r => forallb (fun q => bool_decide (r = q) || negb (bool_decide (r.1 = q.1) && overlap (template r.2) (template q.2))) table) table.

(** Whatever features the server is built with, at most one route answers a request:
    the order in which they are registered does not matter. *)
Theorem routes_unambiguous (auto_rest graphql : bool) (m : Method) (path p q : string) :
  In (m, p) (router auto_rest graphql) -> In (m, q) (router auto_rest graphql) ->
  route_fits p path = true -> route_fits q path = true -> p = q.
Proof.
  assert (Hu : unambiguous (router auto_rest graphql) = true) by (destruct auto_rest, graphql; vm_compute; reflexivity).
  intros Hp Hq Hfp Hfq. unfold unambiguous in Hu. rewrite forallb_forall in Hu. specialize (Hu _ Hp). rewrite forallb_forall in Hu.
  specialize (Hu _ Hq). apply orb_true_iff in Hu as [Heq%bool_decide_eq_true|Hov]; [by injection Heq|].
  apply negb_true_iff in Hov. cbn [fst snd] in Hov. unfold route_fits in *. rewrite (fits_overlap _ _ _ Hfp Hfq) in Hov.
  by rewrite bool_decide_true in Hov.
Qed.
(** A template with the same method is registered once. *)
Lemma routes_once auto_rest graphql : NoDup (router auto_rest graphql).
Proof. destruct auto_rest, graphql; apply (bool_decide_unpack _); vm_compute; exact I. Qed.
(** Every route of the Postgres server is one of the SQLite server, and no request to
    the Studio, the sign-in pages or the brokers is routed there: they fall through to
    [pg_not_implemented]. *)
Theorem postgres_routes_kept (auto_rest graphql : bool) :
  (forall r, In r postgres_router -> In r (router auto_rest graphql)) /\
  forall m p path, In (m, p) (studio_routes ++ auth_routes ++ [(GET, "/v1/ws"); (GET, "/v1/pubsub/{workspace}/{topic}"); (POST, "/v1/pubsub/{workspace}/{topic}")]) ->
    route_fits p path = true -> routed postgres_router m path = None.
Proof.
  split.
  - intros r Hr. unfold postgres_router, router in *. apply in_app_iff in Hr as [Hr|Hr]; repeat (apply in_app_iff; try (by left); right); done.
  - intros m p path Hp Hfit. unfold routed. destruct (find _ postgres_router) as [[m' q]|] eqn:Hf; [exfalso|done].
    apply find_some in Hf as [Hq Hb]. apply andb_true_iff in Hb as [Hm%bool_decide_eq_true Hfq]. cbn [fst snd] in *. subst m'.
    assert (Hd : forallb (fun r => negb (existsb (fun q => bool_decide (q.1 = r.1) && overlap (template r.2) (template q.2)) postgres_router))
      (studio_routes ++ auth_routes ++ [(GET, "/v1/ws"); (GET, "/v1/pubsub/{workspace}/{topic}"); (POST, "/v1/pubsub/{workspace}/{topic}")]) = true)
      by (vm_compute; reflexivity).
    rewrite forallb_forall in Hd. specialize (Hd _ Hp). apply negb_true_iff in Hd.
    assert (existsb (fun q => bool_decide (q.1 = m) && overlap (template p) (template q.2)) postgres_router = true); [|cbn [fst snd] in Hd; congruence].
    apply existsb_exists. exists (m, q). split; [done|]. cbn [fst snd]. rewrite bool_decide_true by done. by eapply fits_overlap.
Qed.

(** ** Listening *)

(** [serve]: HTTPS with both files, plain HTTP with one or none.  The parser of
    addresses, the loading of the files and the listeners are the system's. *)
Inductive Listener := Https (addr : string) | Http (addr : string).
Definition serve (parse : string -> result string string) (debug : string -> string)
    (load : string -> string -> result string unit) (run : Listener -> result string unit)
    (bind : string) (tls_cert tls_key : option string) : result string unit :=
  match parse bind with
  | Err e => Err ("invalid bind address " +:+ debug bind +:+ ": " +:+ e)
  | Ok addr =>
      match tls_cert, tls_key with
      | Some cert, Some key =>
          match load cert key with Err e => Err ("load TLS config: " +:+ e) | Ok _ => run (Https addr) end
      | _, _ => run (Http addr)
      end
  end.
(** With both files nothing is served over plain HTTP, also when they do not load. *)
Lemma serve_never_downgrades parse debug load run bind cert key :
  serve parse debug load run bind (Some cert) (Some key)
  = serve parse debug load (fun l => match l with Https _ => run l | Http _ => Ok tt end) bind (Some cert) (Some key).
Proof. unfold serve. destruct (parse bind) as [a|e]; [|done]. by destruct (load cert key). Qed.

(** ** The readiness of the Postgres server *)

Definition pg_healthz_ready (down : option string) : Response :=
  match down with
  | None => ok_json (jobj [("phase", JString "ready"); ("ok", JBool true); ("backend", JString "postgres")])
  | Some e => json_response 503 (jobj [("phase", JString "ready"); ("ok", JBool false); ("backend", JString "postgres"); ("error", JString e)])
  end.
